(* ===== verification/_CoqProject ===== *)
-Q . S2P
Prelude.v
Words.v
Ranges.v
Errors.v
Endian.v
Crc.v
Hash.v
Xxhash.v
Sha256.v
Blake2b.v
Host.v
Device.v
Uuid.v
FileUtil.v
JournalFormat.v
Journal.v
JournalValidate.v
Safety.v
Durable.v
Converge.v
TaskPool.v
Gpt.v
GptWrite.v
Mbr.v
Scheduler.v
Ext4.v
Allocation.v
Clone.v
Relocation.v
PartitionSync.v
Metadata.v
MetadataCheck.v
Extents.v
ExtentScan.v
RelocatePlan.v
JournalUse.v
Stage.v
AllocUpdate.v
OwnerUpdate.v
OwnerSwitch.v
Commit.v
CommitMove.v
Resize.v
ResizeSafe.v
ResizeGrow.v
Maintenance.v
Repair.v
Scrub.v
Verify.v
FsReport.v
Iso9660.v
Ufs.v
Xfs.v
Ntfs.v
Fat.v
ExFat.v
Btrfs.v
Probe.v
ImageFormat.v
Image.v
