(* ===== verification/Prelude.v ===== *)
(** * FSX: a verified model of its storage core

    FSX is a command-line tool that inspects, images, repairs and resizes
    disks, partition tables and file systems.  This library models the C++
    under [src/src/] and [src/include/fsx/] as Rocq definitions that can be
    evaluated, and proves what the code promises about them.

    ** The host

    Everything the program does to the world goes through system calls.
    [Host.v] is that world: inodes with durable bytes and pending writes, the
    names of files with their durable versions, a table of environment facts
    ([HostEnv]: the contents of [/proc] and [/sys], path resolution, the
    number of processors), and a list of events.  Each call takes the next
    event and succeeds, is cut short, or fails with an errno; so a theorem
    about every host is a theorem about every pattern of failures.  [M] is the
    monad of computations over a host.  Its outcomes are a value, an [Error],
    the exit of the process that the fault injector can force, and
    [OutOfFuel].  A write is pending until its file is flushed; a power cut
    leaves the durable bytes with any part of the pending writes applied
    ([crash_image]), and the durable names with any part of the unsynced ones.
    [wp] is the weakest precondition over outcomes; a theorem on it always
    states that the outcome is not [OutOfFuel].

    ** Parts and files

    - [Prelude.v]: bytes, widths, slices of byte lists, tactics and hints.
      [Ranges.v]: disjoint ranges and the sorted overlap test that GPT and MBR
      share.
    - [Errors.v] (error.hpp, result.hpp, core/error.cpp), [Endian.v]
      (endian.hpp), [Crc.v] (core/crc.cpp), [Uuid.v] (core/uuid.cpp).
    - [Words.v]: bits, rotations, big-endian words and the loops that walk a
      buffer.  [Hash.v] (core/hash.cpp) with [Xxhash.v], [Sha256.v] and
      [Blake2b.v] (proofs): the streaming hashes and their specifications.
    - [Host.v]: the host, and core/fault.cpp and core/cancel.cpp, which the
      host's state contains.  [Device.v] (io/device.cpp): opening, sizing and
      exact positional input and output.  [FileUtil.v] (core/file_util.cpp):
      publication of a file without replacing one.
    - [JournalFormat.v] and [Journal.v] (transaction/journal.cpp): the codecs
      and the operations of the transaction journal.  [JournalValidate.v]
      (transaction/validate.cpp, transaction/recovery.cpp): the judgement on
      its records and the recovery that is proposed.
    - [Safety.v] (io/safety.cpp): the checks before a device is written.
    - [Durable.v]: no code of its own; the rules for groups of writes between
      flushes, for computations that only read, and for fresh files, on which
      every power-cut theorem rests; [runs] is the crash condition that every
      outcome of a computation meets, failures included.  [Converge.v]: also
      without code, the invariant of a device of which each byte is the old
      one or the one it is to become.
    - [TaskPool.v] (task_pool.hpp): the tasks of a batch and every
      interleaving of their operations.  [Clone.v] (ops/clone.cpp).
    - [Gpt.v] and [GptWrite.v] (partition/gpt.cpp), [Mbr.v]
      (partition/mbr.cpp), [PartitionSync.v] (partition/sync.cpp).
    - [Scheduler.v] (io/scheduler.cpp): tuning, and the worker pool as a
      transition system.
    - [Ext4.v] (ext4/ext4.cpp, ext4/internal.cpp), [Allocation.v]
      (ext4/allocation.cpp and the shrink plan of ext4/ext4.cpp),
      [Relocation.v] (proofs on the geometry of ext4/allocation.cpp),
      [RelocatePlan.v] (the plan of ext4/relocate.cpp), [Stage.v] (the copies
      it stages) and [AllocUpdate.v] (ext4/mutate.cpp: the bitmaps).
    - [Metadata.v] and [MetadataCheck.v] (ext4/metadata.cpp): checksums, and
      the verification of a whole file system.  [Extents.v] (ext4/extents.cpp)
      and [ExtentScan.v] (proofs): extent trees and the owners of blocks.

    A C++ function keeps its name; a part of a long function has a name of its
    own and is called where the code stands.  A structure is a record with the
    source's fields, an enumeration an inductive type; an unsigned integer is
    a [Z] whose wrap-around is written out ([u64], [u32], ...) wherever the
    code can leave its range; a [Result] is [Errors.Result]; an early return
    is the [Err] or [Fail] of its branch.

    ** What the theorems show

    - Power cuts and failures: appending to the journal
      ([append_batch_crash_safe]), resizing a GPT partition
      ([gpt_resize_power_safe]), resizing an MBR partition
      ([mbr_undo_before_write]), synchronizing a partition with its file
      system ([partition_sync_power_safe]), publishing a file
      ([publish_never_replaces]), cloning a device
      ([clone_copies_source]), allocating blocks
      ([allocation_update_exact]), exact reads and writes.
    - Formats: what is encoded is decoded (journal, GPT headers, UUIDs), damage
      is detected (journal, CRC-32C, ext metadata), what an update routine
      writes its verification accepts, and the optimised checksums are the
      bit-serial ones.
    - Decisions: the checks of partition entries, journal records, devices,
      superblocks and of the plan to shrink a partition accept exactly what
      they should, without overflow.
    - Scans and plans: loading a journal, building the allocation graph,
      verifying metadata and scanning the owners of blocks refine abstract
      functions of the image; the relocation geometry moves each block once.
    - Concurrency: the worker pool loses no task, and makes progress.

    ** Fuel and bounds

    Loops are structural where the code counts.  The loops that the host
    decides ([read_loop], [write_loop], [uuid_read_loop]: an interrupt repeats
    them, a short transfer continues them) take the number of the events left
    and two as fuel, because a round that does not finish uses an event.
    [collect_backing_devices] needs more than the number of devices that are
    not yet visited, and the placement of moves the number of destination
    extents and one; [range_fuel] is the number of groups and one, and the
    batches of a clone or of a staging number at most the chunks or the moves.
    Each has a theorem that this is enough, and no claim
    allows [OutOfFuel] as an outcome.

    ** What is not modelled

    - The mutexes around the fault injector and the progress reports: each
      operation runs alone, except in the worker pool, whose interleavings are
      modelled.  The tasks of a clone and of a staging are interleaved by any
      schedule of their device operations; a read of a bitmap is run when its
      future is read ([Allocation.v]); progress callbacks only print.
    - Branches for other systems than Linux, and other compilers' fallbacks.
    - The parts listed as not modelled in the manifest: see the notes there.
      The commit of a relocation and the resize come next, then images and
      the other file systems' probes.
    - The command line, which parses arguments and prints. *)
From stdpp Require Export base list list_numbers strings pretty gmap sets.
From Stdlib Require Export ZArith Lia.
From coqutil Require Export Byte.

Declare Scope fsx_scope.
Delimit Scope fsx_scope with fsx.
#[global] Open Scope Z_scope.

(** ** Bytes and machine integers *)

Abbreviation byte := Init.Byte.byte.
Abbreviation bytes := (list Init.Byte.byte).

#[export] Instance byte_eq_dec : EqDecision byte := Byte.byte_eq_dec.

(** The value range of an unsigned integer of [w] bits and its wrap-around. *)
Definition wrap (w x : Z) : Z := x mod 2 ^ w.
Definition in_width (w x : Z) : Prop := 0 <= x < 2 ^ w.

Abbreviation u64 := (wrap 64).
Abbreviation u32 := (wrap 32).
Abbreviation u16 := (wrap 16).
Abbreviation u8 := (wrap 8).
Abbreviation u64_max := 18446744073709551615 (only parsing).

#[export] Instance in_width_dec w x : Decision (in_width w x).
Proof. unfold in_width. apply _. Defined.

(** ** Byte ranges *)

Definition zlen {A} (l : list A) : Z := Z.of_nat (length l).
Definition zeros (n : Z) : bytes := replicate (Z.to_nat n) Byte.x00.
(** [slice l off n] is the subspan of [n] bytes at [off]; it is shorter where
    [l] ends first. *)
Definition slice {A} (l : list A) (off n : Z) : list A :=
  take (Z.to_nat n) (drop (Z.to_nat off) l).
(** [splice l off d] overwrites the range of [length d] bytes at [off]. *)
Definition splice {A} (l : list A) (off : Z) (d : list A) : list A :=
  take (Z.to_nat off) l ++ d ++ drop (Z.to_nat off + length d) l.

(** ** Automation *)

Create HintDb fsx.
Create Rewrite HintDb fsxlen.
Create Rewrite HintDb fsxz.

(** Linear arithmetic about lengths of byte ranges. *)
Ltac zl :=
  repeat match goal with H : in_width _ _ |- _ => unfold in_width in H end;
  unfold zlen, in_width in *; autorewrite with fsxlen in *; try lia.

(** [inv_pair]: split the equalities between tuples and constructors a
    computation leaves behind. *)
Ltac inv_pair := simplify_eq/=.

(** Decide the boolean tests of the context and of the goal. *)
Ltac bool_case :=
  repeat first
    [ match goal with
      | |- context [if ?b then _ else _] =>
          match type of b with
          | bool => let E := fresh "E" in destruct b eqn:E
          | sumbool _ _ => destruct b
          end
      end ].

#[export] Hint Rewrite @length_app @length_take @length_drop @length_replicate
  @length_fmap @length_insert @length_seq @length_seqZ @length_reverse : fsxlen.

(** ** Lengths *)

Lemma zlen_nonneg {A} (l : list A) : 0 <= zlen l.
Proof. unfold zlen. lia. Qed.

Lemma zlen_app {A} (l1 l2 : list A) : zlen (l1 ++ l2) = zlen l1 + zlen l2.
Proof. zl. Qed.

Lemma zlen_cons {A} (x : A) l : zlen (x :: l) = 1 + zlen l.
Proof. unfold zlen. cbn [length]. lia. Qed.

Lemma zlen_zeros n : 0 <= n -> zlen (zeros n) = n.
Proof. intros. unfold zeros. zl. Qed.

Lemma zlen_slice {A} (l : list A) off n :
  0 <= off -> 0 <= n -> off + n <= zlen l -> zlen (slice l off n) = n.
Proof. intros. unfold slice. zl. Qed.

Lemma zlen_slice_le {A} (l : list A) off n :
  0 <= n -> zlen (slice l off n) <= n.
Proof. intros. unfold slice. zl. Qed.

Lemma zlen_splice {A} (l : list A) off d :
  0 <= off -> off + zlen d <= zlen l -> zlen (splice l off d) = zlen l.
Proof. intros. unfold splice. zl. Qed.

Lemma length_splice {A} (l : list A) off d :
  0 <= off -> off + zlen d <= zlen l -> length (splice l off d) = length l.
Proof. intros. unfold splice. zl. Qed.

#[export] Hint Rewrite @zlen_app @zlen_cons : fsxz.

(** ** Pointwise view of ranges *)

Lemma nth_error_lookup {A} (l : list A) i : nth_error l i = l !! i.
Proof. revert i. induction l as [|x l IH]; intros [|i]; cbn; done || apply IH. Qed.

Lemma lookup_slice {A} (l : list A) off n i :
  0 <= off ->
  slice l off n !! i =
    if decide (Z.of_nat i < n) then l !! (Z.to_nat off + i)%nat else None.
Proof.
  intros. unfold slice. case_decide.
  - rewrite lookup_take_lt by lia. apply lookup_drop.
  - apply lookup_take_ge. lia.
Qed.

Lemma lookup_splice {A} (l : list A) off d i :
  0 <= off -> off <= zlen l ->
  splice l off d !! i =
    if decide (Z.of_nat i < off) then l !! i
    else if decide (Z.of_nat i < off + zlen d) then d !! (i - Z.to_nat off)%nat
    else l !! i.
Proof.
  intros Ho Hl. unfold splice, zlen in *.
  assert (Hlen : length (take (Z.to_nat off) l) = Z.to_nat off)
    by (rewrite length_take; lia).
  repeat case_decide.
  - rewrite lookup_app_l by lia. apply lookup_take_lt. lia.
  - rewrite lookup_app_r by lia. rewrite Hlen.
    rewrite lookup_app_l by lia. done.
  - rewrite lookup_app_r by lia. rewrite Hlen.
    rewrite lookup_app_r by lia. rewrite lookup_drop. f_equal. lia.
Qed.

(** ** Algebra of ranges *)

Lemma slice_all {A} (l : list A) n : n = zlen l -> slice l 0 n = l.
Proof. intros ->. unfold slice. cbn. apply take_ge. zl. Qed.

Lemma slice_slice {A} (l : list A) o n o' n' :
  0 <= o -> 0 <= o' -> 0 <= n' -> o' + n' <= n ->
  slice (slice l o n) o' n' = slice l (o + o') n'.
Proof.
  intros. apply list_eq. intros i. rewrite !lookup_slice by lia.
  repeat case_decide; try lia; try done. f_equal. lia.
Qed.

Lemma slice_splice_eq {A} (l : list A) off d n :
  0 <= off -> off <= zlen l -> n = zlen d ->
  slice (splice l off d) off n = d.
Proof.
  intros ? ? ->. apply list_eq. intros i.
  rewrite lookup_slice, lookup_splice by lia.
  repeat case_decide; try lia; zl.
  - f_equal. lia.
  - symmetry. apply lookup_ge_None. lia.
Qed.

Lemma slice_splice_ne {A} (l : list A) off d o n :
  0 <= off -> off <= zlen l -> 0 <= o ->
  o + n <= off \/ off + zlen d <= o ->
  slice (splice l off d) o n = slice l o n.
Proof.
  intros. apply list_eq. intros i. rewrite !lookup_slice by lia.
  case_decide; [|done]. rewrite lookup_splice by lia.
  repeat case_decide; try done; lia.
Qed.

Lemma slice_splice_sub {A} (l : list A) off d o n :
  0 <= off -> off <= zlen l -> off <= o -> o + n <= off + zlen d ->
  slice (splice l off d) o n = slice d (o - off) n.
Proof.
  intros. apply list_eq. intros i. rewrite !lookup_slice by lia.
  case_decide; [|done]. rewrite lookup_splice by lia.
  repeat case_decide; try lia. f_equal. lia.
Qed.

Lemma slice_app_l {A} (l1 l2 : list A) o n :
  0 <= o -> o + n <= zlen l1 -> slice (l1 ++ l2) o n = slice l1 o n.
Proof.
  intros. apply list_eq. intros i. rewrite !lookup_slice by lia.
  case_decide; [|done]. apply lookup_app_l. zl.
Qed.

Lemma slice_app_r {A} (l1 l2 : list A) o n :
  zlen l1 <= o -> slice (l1 ++ l2) o n = slice l2 (o - zlen l1) n.
Proof.
  pose proof (zlen_nonneg l1).
  intros. apply list_eq. intros i. rewrite !lookup_slice by lia.
  case_decide; [|done]. rewrite lookup_app_r by zl. f_equal. zl.
Qed.

(** Two neighbouring ranges make one. *)
Lemma slice_split {A} (l : list A) o n1 n2 :
  0 <= o -> 0 <= n1 -> 0 <= n2 ->
  slice l o (n1 + n2) = slice l o n1 ++ slice l (o + n1) n2.
Proof.
  intros. unfold slice. rewrite !Z2Nat.inj_add by lia.
  rewrite <-drop_drop. symmetry. apply take_take_drop.
Qed.

(** A truncated range is the range of its own length. *)
Lemma slice_own_length {A} (l : list A) o n :
  slice l o n = slice l o (zlen (slice l o n)).
Proof.
  unfold slice, zlen. rewrite Nat2Z.id, length_take.
  destruct (Nat.le_ge_cases (Z.to_nat n) (length (drop (Z.to_nat o) l))).
  - by rewrite Nat.min_l by lia.
  - rewrite Nat.min_r by lia. by rewrite !take_ge by lia.
Qed.

Lemma slice_nonpos {A} (l : list A) o n : n <= 0 -> slice l o n = [].
Proof. intros. unfold slice. by replace (Z.to_nat n) with 0%nat by lia. Qed.

(** A range of [n] bytes at the end of the list is cut to what is left. *)
Lemma zlen_slice_min {A} (l : list A) o n :
  0 <= o -> 0 <= n -> zlen (slice l o n) = Z.max 0 (Z.min n (zlen l - o)).
Proof. intros. unfold slice, zlen. rewrite length_take, length_drop. lia. Qed.

(** A name with a suffix is another name. *)
Lemma string_app_ne (s t : string) : t <> ""%string -> (s +:+ t)%string <> s.
Proof.
  intros Ht. induction s as [|c s IH]; [done|]. cbn. intros [= E]. by apply IH.
Qed.
