(* ===== verification/Words.v ===== *)
(** Words and loops: rotations of [w]-bit words, loops with a condition, and
    the view of a byte range as a sequence of blocks.  No code of its own;
    the checksum and hash routines use it. *)
From S2P Require Import Prelude.
From coqutil Require Import Word.LittleEndianList.

(** ** Bits *)

Lemma lxor_wrap w a b :
  0 <= w -> wrap w (Z.lxor a b) = Z.lxor (wrap w a) (wrap w b).
Proof.
  intros Hw. unfold wrap. rewrite <-!Z.land_ones by done.
  apply Z.bits_inj. intros i. rewrite Z.lxor_spec, !Z.land_spec, Z.lxor_spec.
  by destruct (Z.testbit a i), (Z.testbit b i), (Z.testbit (Z.ones w) i).
Qed.

Lemma wrap_width w x : 0 <= w -> in_width w (wrap w x).
Proof. intros. apply Z.mod_pos_bound, Z.pow_pos_nonneg; lia. Qed.
#[export] Hint Extern 1 (in_width _ (wrap _ _)) => apply wrap_width; lia : fsx.

Lemma wrap_id w x : in_width w x -> wrap w x = x.
Proof. apply Z.mod_small. Qed.

Lemma lxor_width w a b :
  0 <= w -> in_width w a -> in_width w b -> in_width w (Z.lxor a b).
Proof.
  intros Hw Ha Hb. rewrite <-(wrap_id w a), <-(wrap_id w b), <-lxor_wrap by done.
  by apply wrap_width.
Qed.

(** The rotation of a [w]-bit word to the right by [r]: the low [r] bits
    move to the top. *)
Definition rot (w r x : Z) : Z := x / 2 ^ r + (x mod 2 ^ r) * 2 ^ (w - r).

Lemma rot_width w r x : 0 <= r <= w -> in_width w x -> in_width w (rot w r x).
Proof.
  intros Hr [H0 H1]. unfold rot.
  assert (Hp : 2 ^ w = 2 ^ r * 2 ^ (w - r)) by (rewrite <-Z.pow_add_r; f_equal; lia).
  assert (0 < 2 ^ r) by (apply Z.pow_pos_nonneg; lia).
  assert (0 < 2 ^ (w - r)) by (apply Z.pow_pos_nonneg; lia).
  pose proof (Z.mod_pos_bound x (2 ^ r)). pose proof (Z.div_pos x (2 ^ r)).
  assert (x / 2 ^ r < 2 ^ (w - r)) by (apply Z.div_lt_upper_bound; lia).
  split; [nia|]. rewrite Hp. nia.
Qed.

Lemma lor_add k m a : 0 <= k -> 0 <= a < 2 ^ k -> Z.lor (Z.shiftl m k) a = m * 2 ^ k + a.
Proof.
  intros Hk Ha.
  assert (Hz : Z.land (Z.shiftl m k) a = 0).
  { apply Z.bits_inj. intros i. rewrite Z.land_spec, Z.bits_0.
    destruct (Z.ltb_spec i k); [by rewrite Z.shiftl_spec_low|].
    rewrite <-(Z.mod_small a (2 ^ k)), Z.mod_pow2_bits_high by lia. apply andb_false_r. }
  by rewrite <-Z.shiftl_mul_pow2, Z.add_nocarry_lxor, Z.lxor_lor by done.
Qed.

(** The two shifts of a rotation put the same bits in place. *)
Lemma rot_shifts w r x :
  0 <= r <= w -> in_width w x ->
  Z.lor (Z.shiftr x r) (wrap w (Z.shiftl x (w - r))) = rot w r x.
Proof.
  intros Hr [H0 H1]. unfold rot, wrap.
  assert (Hp : 2 ^ w = 2 ^ r * 2 ^ (w - r)) by (rewrite <-Z.pow_add_r; f_equal; lia).
  assert (0 < 2 ^ r) by (apply Z.pow_pos_nonneg; lia).
  assert (0 < 2 ^ (w - r)) by (apply Z.pow_pos_nonneg; lia).
  assert (0 <= x / 2 ^ r < 2 ^ (w - r))
    by (split; [apply Z.div_pos | apply Z.div_lt_upper_bound]; lia).
  rewrite Z.shiftr_div_pow2, Z.shiftl_mul_pow2 by lia.
  rewrite Hp, Z.mul_mod_distr_r, <-Z.shiftl_mul_pow2, Z.lor_comm, lor_add, Z.shiftl_mul_pow2 by lia. lia.
Qed.

(** Little- and big-endian words of a block. *)
Definition be_split (n : nat) (v : Z) : bytes := rev (le_split n v).
Definition be_combine (b : bytes) : Z := le_combine (rev b).

(** ** Loops *)

(** [while (c) body] with a bound on the number of rounds. *)
Fixpoint while {S} (fuel : nat) (c : S -> bool) (body : S -> option S) (s : S) : option S :=
  match fuel with
  | O => None
  | Datatypes.S fuel => if c s then body s ≫= while fuel c body else Some s
  end.

Lemma while_ext {S} fuel (c c' : S -> bool) body s :
  (forall s, c s = c' s) -> while fuel c body s = while fuel c' body s.
Proof.
  intros Hc. revert s. induction fuel as [|fuel IH]; intros s; [done|]. cbn [while].
  rewrite Hc. destruct (c' s); [|done]. destruct (body s) as [s'|]; [|done]. apply IH.
Qed.

(** [for (i in l) body]. *)
Fixpoint for_each {S I} (l : list I) (body : I -> S -> option S) (s : S) : option S :=
  match l with
  | [] => Some s
  | i :: l => body i s ≫= for_each l body
  end.

Lemma for_each_app {S I} (l1 l2 : list I) (body : I -> S -> option S) s :
  for_each (l1 ++ l2) body s = for_each l1 body s ≫= for_each l2 body.
Proof.
  revert s. induction l1 as [|i l1 IH]; intros s; [done|]. cbn.
  destruct (body i s) as [s'|]; [|done]. cbn. apply IH.
Qed.

(** A loop that advances by [k] bytes while at least [lim] are left. *)
Definition rounds (lim k n : Z) : Z := if n <? lim then 0 else (n - lim) / k + 1.

Lemma rounds_short lim k n : n < lim -> rounds lim k n = 0.
Proof. intros. unfold rounds. by destruct (Z.ltb_spec n lim); [|lia]. Qed.

Lemma rounds_step lim k n :
  0 < k <= lim -> lim <= n -> rounds lim k n = 1 + rounds lim k (n - k).
Proof.
  intros Hk Hn. unfold rounds. destruct (Z.ltb_spec n lim); [lia|].
  destruct (Z.ltb_spec (n - k) lim).
  - rewrite Z.div_small by lia. lia.
  - replace (n - lim) with (n - k - lim + 1 * k) by lia. rewrite Z.div_add by lia. lia.
Qed.

Lemma rounds_bound lim k n :
  0 < k <= lim -> 0 <= n -> 0 <= rounds lim k n /\ k * rounds lim k n <= n /\
  n - k * rounds lim k n < lim.
Proof.
  intros Hk Hn. unfold rounds. destruct (Z.ltb_spec n lim); [lia|].
  pose proof (Z.div_mod (n - lim) k). pose proof (Z.mod_pos_bound (n - lim) k).
  pose proof (Z.div_pos (n - lim) k). nia.
Qed.

Lemma slice_take {A} (l : list A) n o k :
  0 <= o -> 0 <= k -> o + k <= Z.of_nat n -> slice (take n l) o k = slice l o k.
Proof.
  intros. apply list_eq. intros i. rewrite !lookup_slice by lia. case_decide; [|done].
  rewrite lookup_take_lt by lia. done.
Qed.

(** The blocks of [k] bytes that such a loop consumes. *)
Definition blocks (k : Z) (m : Z) (p : bytes) : list bytes :=
  (fun i => slice p (i * k) k) <$> seqZ 0 m.

Lemma blocks_step k m p :
  0 <= k -> 0 <= m -> blocks k (1 + m) p = take (Z.to_nat k) p :: blocks k m (drop (Z.to_nat k) p).
Proof.
  intros Hk Hm. unfold blocks. rewrite seqZ_cons by lia. cbn [fmap list_fmap].
  f_equal. replace (Z.pred (1 + m)) with m by lia.
  replace (Z.succ 0) with (1 + 0) by lia. rewrite <-(fmap_add_seqZ 1 0 m), <-list_fmap_compose. apply list_fmap_ext.
  intros i x Hx. apply lookup_seqZ in Hx as [-> Hx]. cbn [compose].
  unfold slice. rewrite drop_drop. do 2 f_equal. lia.
Qed.

Lemma while_blocks {A} (lim k : Z) (step : bytes -> A -> option A)
    (f : A -> bytes -> A) (P : A -> Prop) fuel s p :
  0 < k <= lim -> (length p < fuel)%nat ->
  (forall s p, P s -> k <= zlen p -> step p s = Some (f s (take (Z.to_nat k) p)) /\
                          P (f s (take (Z.to_nat k) p))) ->
  P s ->
  let m := rounds lim k (zlen p) in
  let s' := foldl f s (blocks k m p) in
  while fuel (fun '(s, p, n) => lim <=? n)
    (fun '(s, p, n) => s ← step p s; Some (s, drop (Z.to_nat k) p, n - k)) (s, p, zlen p)
  = Some (s', drop (Z.to_nat (k * m)) p, zlen p - k * m) /\ P s'.
Proof.
  intros Hk Hfuel Hstep. revert s p Hfuel.
  induction fuel as [|fuel IH]; intros s p Hfuel HP; [lia|]. cbn [while].
  destruct (Z.leb_spec lim (zlen p)) as [Hge|Hlt].
  - destruct (Hstep s p HP) as [-> HP']; [lia|]. cbn [mbind option_bind].
    assert (Hz : zlen (drop (Z.to_nat k) p) = zlen p - k) by (unfold zlen in *; rewrite length_drop; lia).
    destruct (IH (f s (take (Z.to_nat k) p)) (drop (Z.to_nat k) p)) as [E HP2];
      [rewrite length_drop; unfold zlen in *; lia|done|].
    rewrite Hz in E, HP2. pose proof (rounds_bound lim k (zlen p - k)).
    rewrite rounds_step, blocks_step by lia. cbn [foldl]. split; [|done].
    rewrite E. do 2 f_equal; [f_equal|lia]. rewrite drop_drop. f_equal. lia.
  - rewrite rounds_short by done. rewrite Z.mul_0_r. by rewrite Z.sub_0_r, drop_0.
Qed.

(** Blocks of a range made of whole blocks and a rest. *)
Lemma blocks_app k m1 m2 p1 p2 :
  0 <= k -> 0 <= m1 -> 0 <= m2 -> zlen p1 = k * m1 ->
  blocks k (m1 + m2) (p1 ++ p2) = blocks k m1 p1 ++ blocks k m2 p2.
Proof.
  intros Hk H1 H2 Hz. unfold blocks. rewrite seqZ_app, fmap_app by lia. f_equal.
  - apply list_fmap_ext. intros i x Hx. apply lookup_seqZ in Hx as [-> Hx].
    apply slice_app_l; nia.
  - replace (0 + m1) with (m1 + 0) by lia.
    rewrite <-(fmap_add_seqZ m1 0 m2), <-list_fmap_compose.
    apply list_fmap_ext. intros i x Hx. apply lookup_seqZ in Hx as [-> Hx]. cbn [compose].
    rewrite slice_app_r by nia. f_equal. lia.
Qed.

Lemma blocks_take k m p : 0 <= k -> k * m <= zlen p -> blocks k m p = blocks k m (take (Z.to_nat (k * m)) p).
Proof.
  intros Hk Hz. unfold blocks. apply list_fmap_ext. intros i x Hx.
  apply lookup_seqZ in Hx as [-> Hx]. apply list_eq. intros j. rewrite !lookup_slice by nia.
  case_decide; [|done]. symmetry. apply lookup_take_lt. nia.
Qed.

Lemma blocks_one k p : zlen p = k -> blocks k 1 p = [p].
Proof. intros Hz. unfold blocks. change (seqZ 0 1) with [0]. cbn [fmap list_fmap].
  by rewrite Z.mul_0_l, slice_all. Qed.

Lemma zeros_add a b : 0 <= a -> 0 <= b -> zeros (a + b) = zeros a ++ zeros b.
Proof. intros. unfold zeros. by rewrite Z2Nat.inj_add, replicate_add by lia. Qed.

(** ** Loops that stop when less than a block is left *)

Lemma rounds_div k n : 0 < k -> 0 <= n -> rounds k k n = n / k.
Proof.
  intros Hk Hn. unfold rounds. destruct (Z.ltb_spec n k); [by rewrite Z.div_small|].
  replace n with (n - k + 1 * k) at 2 by lia. by rewrite Z.div_add by lia.
Qed.

Lemma while_div {A} (k : Z) (step : bytes -> A -> option A) (f : A -> bytes -> A)
    (P : A -> Prop) fuel s p :
  0 < k -> (length p < fuel)%nat ->
  (forall s p, P s -> k <= zlen p -> step p s = Some (f s (take (Z.to_nat k) p)) /\
                          P (f s (take (Z.to_nat k) p))) ->
  P s ->
  let s' := foldl f s (blocks k (zlen p / k) p) in
  while fuel (fun '(s, p, n) => k <=? n)
    (fun '(s, p, n) => s ← step p s; Some (s, drop (Z.to_nat k) p, n - k)) (s, p, zlen p)
  = Some (s', drop (Z.to_nat (zlen p - zlen p mod k)) p, zlen p mod k) /\ P s'.
Proof.
  intros Hk Hf Hs HP. pose proof (zlen_nonneg p).
  pose proof (while_blocks k k step f P fuel s p ltac:(lia) Hf Hs HP) as H'.
  cbv zeta in H'. rewrite rounds_div in H' by lia.
  pose proof (Z.div_mod (zlen p) k). destruct H' as [-> HP']. split; [|done].
  do 2 f_equal; [f_equal|]; [f_equal|]; lia.
Qed.

(** What is left behind the last whole block. *)
Lemma zlen_rest k (p : bytes) : 0 < k -> zlen (drop (Z.to_nat (zlen p - zlen p mod k)) p) = zlen p mod k.
Proof.
  intros Hk. pose proof (zlen_nonneg p). pose proof (Z.mod_pos_bound (zlen p) k Hk).
  pose proof (Z.mod_le (zlen p) k). unfold zlen in *. rewrite length_drop. lia.
Qed.
