(* ===== verification/Ranges.v ===== *)
(** Ranges of sectors: the overlap check both kinds of partition table use.

    The code sorts pairs of first and last sector and compares neighbours;
    [sorted_overlap_spec] says what that decides about the pairs in any order. *)
From S2P Require Import Prelude.
From stdpp Require Import sorting.
#[local] Open Scope Z_scope.

(** [std::pair]'s ordering, with which [std::sort] sorts the ranges. *)
Definition pair_le (a b : Z * Z) : Prop := a.1 < b.1 \/ a.1 = b.1 /\ a.2 <= b.2.
#[export] Instance pair_le_dec : RelDecision pair_le.
Proof. intros a b. unfold pair_le. apply _. Defined.

Fixpoint neighbours_overlap (l : list (Z * Z)) : bool :=
  match l with
  | a :: (b :: _) as l' => (b.1 <=? a.2) || neighbours_overlap l'
  | _ => false
  end.

(** ** What the check decides *)

Definition apart_ranges (a b : Z * Z) : Prop := a.2 < b.1 \/ b.2 < a.1.

Lemma apart_ranges_sym a b : apart_ranges a b -> apart_ranges b a.
Proof. unfold apart_ranges. lia. Qed.

(** A pairwise symmetric relation does not depend on the order. *)
Lemma pairs_permute {A} (R : A -> A -> Prop) l l' :
  (forall a b, R a b -> R b a) -> l ≡ₚ l' -> ForallOrdPairs R l -> ForallOrdPairs R l'.
Proof.
  intros Hsym. induction 1 as [|x l l' Hp IH|x y l|l1 l2 l3 _ IH1 _ IH2]; intros H; auto.
  - inversion H as [|? ? Hx Hl]; subst. constructor; [|by apply IH].
    by rewrite <-Hp.
  - inversion H as [|? ? Hx Hl]; subst. inversion Hl as [|? ? Hy Hl']; subst.
    apply Forall_cons in Hx as [Hxy Hx].
    constructor; [apply Forall_cons; split; [by apply Hsym|done]|by constructor].
Qed.

#[local] Instance pair_le_trans : Transitive pair_le.
Proof. intros a b c. unfold pair_le. lia. Qed.
#[local] Instance pair_le_total : Total pair_le.
Proof. intros a b. unfold pair_le. lia. Qed.

Lemma neighbours_spec l :
  StronglySorted pair_le l -> Forall (fun r => r.1 <= r.2) l ->
  neighbours_overlap l = false <-> ForallOrdPairs apart_ranges l.
Proof.
  induction l as [|a [|b l] IH]; intros Hs Hf.
  - by split; [constructor|].
  - by split; [repeat constructor|].
  - apply StronglySorted_inv in Hs as [Hs Ha]. apply Forall_cons in Hf as [Hfa Hf].
    specialize (IH Hs Hf). cbn [neighbours_overlap]. rewrite orb_false_iff, Z.leb_gt, IH.
    apply StronglySorted_inv in Hs as [_ Hb].
    pose proof Ha as [Hab _]%Forall_cons.
    split.
    + intros [H1 H2]. constructor; [|done]. apply Forall_cons. split; [by left|].
      eapply Forall_impl; [exact Hb|]. intros c Hbc. left. unfold pair_le in Hbc. lia.
    + intros H. inversion H as [|? ? Hx Hl]; subst. split; [|done].
      apply Forall_cons in Hx as [[|Hx] _]; [done|].
      apply Forall_cons in Hf as [Hfb _]. unfold pair_le in Hab. lia.
Qed.

Lemma sorted_overlap_spec l :
  Forall (fun r => r.1 <= r.2) l ->
  neighbours_overlap (merge_sort pair_le l) = false <-> ForallOrdPairs apart_ranges l.
Proof.
  intros Hok. pose proof (merge_sort_Permutation pair_le l) as Hp.
  rewrite neighbours_spec; [|apply StronglySorted_merge_sort; apply _|by rewrite Hp].
  split; intros H; (eapply pairs_permute; [apply apart_ranges_sym| |exact H]); done.
Qed.

(** The elements of a family of ranges, whatever its order. *)
Lemma concat_fmap_permute {A B} (f : A -> list B) l l' :
  l ≡ₚ l' -> concat (f <$> l) ≡ₚ concat (f <$> l').
Proof.
  intros H. induction H; cbn [fmap list_fmap concat]; [done| | |by etrans].
  - by f_equiv.
  - rewrite !app_assoc. f_equiv. apply Permutation_app_comm.
Qed.

Lemma concat_fmap_app {A B} (f : A -> list B) l l' :
  concat (f <$> l ++ l') = concat (f <$> l) ++ concat (f <$> l').
Proof. by rewrite fmap_app, concat_app. Qed.
