(* ===== verification/Errors.v ===== *)
(** Error codes, error values and the [Result] type
    (include/fsx/error.hpp, include/fsx/result.hpp, src/core/error.cpp). *)
From S2P Require Import Prelude.

(** [enum class Errc]. *)
Inductive Errc :=
  | Errc_ok | usage | invalid_argument | open_failed | read_failed
  | write_failed | flush_failed | short_io | unsupported | corrupt | unsafe
  | not_found | permission | io | internal.

#[export] Instance Errc_eq_dec : EqDecision Errc.
Proof. solve_decision. Defined.

(** [struct Error]. *)
Record Error := mkError {
  code : Errc;
  sys_errno : Z;
  message : string
}.

#[export] Instance Error_eq_dec : EqDecision Error.
Proof. solve_decision. Defined.

(** [Error::operator bool]. *)
Definition Error_bool (e : Error) : bool := negb (bool_decide (code e = Errc_ok)).

Definition errc_name (c : Errc) : string :=
  match c with
  | Errc_ok => "ok"
  | usage => "usage"
  | invalid_argument => "invalid_argument"
  | open_failed => "open_failed"
  | read_failed => "read_failed"
  | write_failed => "write_failed"
  | flush_failed => "flush_failed"
  | short_io => "short_io"
  | unsupported => "unsupported"
  | corrupt => "corrupt"
  | unsafe => "unsafe"
  | not_found => "not_found"
  | permission => "permission"
  | io => "io"
  | internal => "internal"
  end.

Definition from_errno (c : Errc) (msg : string) (e : Z) : Error := mkError c e msg.

(** [template <class T> class Result]: a value or an error.  The two classes
    of the source ([Result<T>] and [Result<void>]) are the two instances
    [Result T] and [Result unit]. *)
Inductive Result (T : Type) :=
  | Ok (value : T)
  | Err (error : Error).
Arguments Ok {T} value.
Arguments Err {T} error.

#[export] Instance Result_eq_dec {T} `{EqDecision T} : EqDecision (Result T).
Proof. solve_decision. Defined.

(** [Result::operator bool]. *)
Definition Result_bool {T} (r : Result T) : bool :=
  match r with Ok _ => true | Err _ => false end.

(** The idiom [if (!r) return r.error(); ... r.value() ...]. *)
Definition bindR {A B} (r : Result A) (k : A -> Result B) : Result B :=
  match r with Ok a => k a | Err e => Err e end.

(** [return Error{c, 0, msg}]. *)
Definition fail {A} (c : Errc) (msg : string) : Result A := Err (mkError c 0 msg).

Declare Scope result_scope.
Delimit Scope result_scope with result.
#[global] Open Scope result_scope.
Notation "'let?' x := r 'in' k" := (bindR r (fun x => k))
  (at level 10, x pattern, r at level 100, k at level 200) : result_scope.

(** ** Facts about results *)

Lemma bindR_Ok {A B} (r : Result A) (k : A -> Result B) b :
  bindR r k = Ok b <-> exists a, r = Ok a /\ k a = Ok b.
Proof. destruct r; cbn; split; [eauto | intros (?&[= ->]&?); done | done | intros (?&?&?); done]. Qed.

Lemma errc_name_inj c1 c2 : errc_name c1 = errc_name c2 -> c1 = c2.
Proof. destruct c1, c2; cbn; congruence. Qed.

(** Take apart a computation that returned [Ok]: every guard on its path held
    and every step returned a value. *)
Ltac res_step :=
  match goal with
  | H : fail _ _ = Ok _ |- _ => discriminate H
  | H : Err _ = Ok _ |- _ => discriminate H
  | H : Ok _ = Ok _ |- _ => injection H as H; try subst
  | H : bindR ?r _ = Ok _ |- _ =>
      let E := fresh "E" in destruct r eqn:E; cbn [bindR] in H
  | H : (if ?b then _ else _) = Ok _ |- _ =>
      let E := fresh "E" in destruct b eqn:E
  end.
Ltac res_inv := repeat res_step.
