(* ===== verification/Endian.v ===== *)
(** Little- and big-endian access to byte ranges (include/fsx/endian.hpp). *)
From S2P Require Import Prelude.
From coqutil Require Import Z.bitblast Word.LittleEndianList.

(** ** The routines of the header *)

(** [std::to_integer<unsigned char>(data[i])]. *)
Definition byte_at (data : bytes) (i : Z) : Z :=
  byte.unsigned (nth (Z.to_nat i) data Byte.x00).

(** [read_le<T>], with [w = sizeof(T)]:
    [wide |= data[off + i] << (i * 8)] for [i < w], then a cast to [T]. *)
Definition read_le (w : nat) (data : bytes) (off : Z) : Z :=
  wrap (8 * Z.of_nat w)
    (foldl (fun wide i => Z.lor wide (Z.shiftl (byte_at data (off + Z.of_nat i))
                                               (Z.of_nat i * 8)))
           0 (seq 0 w)).

(** [read_be<T>]: [wide = (wide << 8) | data[off + i]] on 64 bits. *)
Definition read_be (w : nat) (data : bytes) (off : Z) : Z :=
  wrap (8 * Z.of_nat w)
    (foldl (fun wide i => Z.lor (u64 (Z.shiftl wide 8))
                                (byte_at data (off + Z.of_nat i)))
           0 (seq 0 w)).

(** [write_le16], [write_le32] and [write_le64] share one loop:
    [data[off + i] = byte((v >> (i * 8)) & 0xff)]. *)
Definition write_le (w : nat) (data : bytes) (off v : Z) : bytes :=
  foldl (fun d i => <[Z.to_nat (off + Z.of_nat i) :=
                       byte.of_Z (Z.land (Z.shiftr v (Z.of_nat i * 8)) 255)]> d)
        data (seq 0 w).
Definition write_le16 := write_le 2.
Definition write_le32 := write_le 4.
Definition write_le64 := write_le 8.

Abbreviation read_le16 := (read_le 2).
Abbreviation read_le32 := (read_le 4).
Abbreviation read_le64 := (read_le 8).

(** ** Reference definitions: [le_combine] and [le_split] on whole ranges *)

Lemma byte_at_lookup data i b :
  data !! Z.to_nat i = Some b -> byte_at data i = byte.unsigned b.
Proof. unfold byte_at. intros H. by erewrite nth_lookup_Some. Qed.

Lemma byte_at_bound data i : 0 <= byte_at data i < 256.
Proof. apply byte.unsigned_range. Qed.

(** The loop of [read_le] accumulates [le_combine] of the bytes read so far. *)
Lemma read_le_loop w data off :
  0 <= off -> off + Z.of_nat w <= zlen data ->
  foldl (fun wide i => Z.lor wide (Z.shiftl (byte_at data (off + Z.of_nat i))
                                            (Z.of_nat i * 8))) 0 (seq 0 w)
  = le_combine (slice data off (Z.of_nat w)).
Proof.
  induction w as [|w IH]; intros Ho Hl; [done|].
  rewrite seq_S, foldl_app, IH by lia. cbn [foldl Nat.add].
  destruct (lookup_lt_is_Some_2 data (Z.to_nat off + w)) as [b Hb]; [zl|].
  rewrite (byte_at_lookup _ _ b) by (rewrite <-Hb; f_equal; lia).
  replace (Z.of_nat (S w)) with (Z.of_nat w + 1) by lia.
  rewrite slice_split, le_combine_app by lia. f_equal.
  assert (length (slice data off (Z.of_nat w)) = w) as ->
    by (pose proof (zlen_slice data off (Z.of_nat w)); unfold zlen in *; lia).
  f_equal.
  replace (slice data (off + Z.of_nat w) 1) with [b]; [by rewrite le_combine_1|].
  apply list_eq. intros i. rewrite lookup_slice by lia.
  destruct i as [|i]; cbn.
  - rewrite <-Hb. f_equal. lia.
  - by rewrite decide_False by lia.
Qed.

(** [read_le] returns the little-endian value of the bytes it covers. *)
Lemma read_le_combine w data off :
  0 <= off -> off + Z.of_nat w <= zlen data ->
  read_le w data off = le_combine (slice data off (Z.of_nat w)).
Proof.
  intros. unfold read_le. rewrite read_le_loop by done.
  unfold wrap. apply Z.mod_small.
  pose proof (le_combine_bound (slice data off (Z.of_nat w))) as Hb.
  change (Z.of_nat (length (slice data off (Z.of_nat w))))
    with (zlen (slice data off (Z.of_nat w))) in Hb.
  rewrite zlen_slice in Hb by lia. done.
Qed.

Lemma read_le_bound w data off : in_width (8 * Z.of_nat w) (read_le w data off).
Proof. apply Z.mod_pos_bound, Z.pow_pos_nonneg; lia. Qed.

(** A [w]-byte read only depends on the bytes it covers. *)
Lemma read_le_ext w d1 d2 o1 o2 :
  0 <= o1 -> o1 + Z.of_nat w <= zlen d1 ->
  0 <= o2 -> o2 + Z.of_nat w <= zlen d2 ->
  slice d1 o1 (Z.of_nat w) = slice d2 o2 (Z.of_nat w) ->
  read_le w d1 o1 = read_le w d2 o2.
Proof. intros ???? E. rewrite !read_le_combine by done. by rewrite E. Qed.

Lemma read_le_slice w d o n off :
  0 <= o -> 0 <= off -> off + Z.of_nat w <= n -> o + n <= zlen d ->
  read_le w (slice d o n) off = read_le w d (o + off).
Proof.
  intros. apply read_le_ext; rewrite ?zlen_slice; try lia.
  apply slice_slice; lia.
Qed.

Lemma byte_of_land v : byte.of_Z (Z.land v 255) = byte.of_Z v.
Proof.
  apply byte.unsigned_inj. rewrite !byte.unsigned_of_Z. unfold byte.wrap.
  change 255 with (Z.ones 8). rewrite Z.land_ones by lia. apply Zmod_mod.
Qed.

(** The loop of [write_le] overwrites its range with [le_split]. *)
Lemma write_le_splice w data off v :
  0 <= off -> off + Z.of_nat w <= zlen data ->
  write_le w data off v = splice data off (le_split w v).
Proof.
  unfold write_le.
  enough (H : forall k, (k <= w)%nat ->
    0 <= off -> off + Z.of_nat w <= zlen data ->
    foldl (fun d i => <[Z.to_nat (off + Z.of_nat i) :=
      byte.of_Z (Z.land (Z.shiftr v (Z.of_nat i * 8)) 255)]> d) data (seq 0 k)
    = splice data off (take k (le_split w v))).
  { intros. rewrite (H w) by lia. rewrite take_ge; [done|].
    rewrite length_le_split. lia. }
  induction k as [|k IH]; intros Hk Ho Hl.
  - cbn [seq foldl]. rewrite take_0. unfold splice. cbn [length app].
    rewrite Nat.add_0_r. by rewrite take_drop.
  - rewrite seq_S, foldl_app, IH by lia. cbn [foldl Nat.add].
    rewrite byte_of_land.
    assert (Hn : le_split w v !! k = Some (byte.of_Z (Z.shiftr v (8 * Z.of_nat k)))).
    { rewrite <-nth_error_lookup. apply nth_error_le_split. lia. }
    rewrite Z.mul_comm.
    assert (Hlk : zlen (take k (le_split w v)) = Z.of_nat k)
      by (unfold zlen; rewrite length_take, length_le_split; lia).
    assert (HlS : zlen (take (S k) (le_split w v)) = Z.of_nat k + 1)
      by (unfold zlen; rewrite length_take, length_le_split; lia).
    apply list_eq. intros i.
    destruct (decide (i = Z.to_nat (off + Z.of_nat k))) as [->|Hne].
    + rewrite list_lookup_insert_eq
        by (rewrite length_splice; unfold zlen in *; lia).
      rewrite lookup_splice by (unfold zlen in *; lia).
      rewrite decide_False, decide_True by lia.
      rewrite lookup_take_lt by lia. rewrite <-Hn. f_equal. lia.
    + rewrite list_lookup_insert_ne by done.
      rewrite !lookup_splice by (unfold zlen in *; lia).
      repeat case_decide; try done; try lia.
      rewrite !lookup_take_lt by lia. done.
Qed.

Lemma zlen_write_le w data off v : zlen (write_le w data off v) = zlen data.
Proof.
  unfold write_le, zlen. f_equal.
  generalize (seq 0 w) as l. intros l. revert data.
  induction l as [|i l IH]; intros data; cbn; [done|].
  by rewrite IH, length_insert.
Qed.

Lemma zlen_le_split w v : zlen (le_split w v) = Z.of_nat w.
Proof. unfold zlen. by rewrite length_le_split. Qed.

(** ** Reading after writing *)

Lemma slice_write_le_ne w data off v o n :
  0 <= off -> off + Z.of_nat w <= zlen data -> 0 <= o ->
  o + n <= off \/ off + Z.of_nat w <= o ->
  slice (write_le w data off v) o n = slice data o n.
Proof.
  intros. rewrite write_le_splice by done.
  apply slice_splice_ne; rewrite ?zlen_le_split; lia.
Qed.

Lemma read_write_le_eq w data off v :
  0 <= off -> off + Z.of_nat w <= zlen data ->
  in_width (8 * Z.of_nat w) v ->
  read_le w (write_le w data off v) off = v.
Proof.
  intros. rewrite read_le_combine by (rewrite ?zlen_write_le; lia).
  rewrite write_le_splice, slice_splice_eq by (rewrite ?zlen_le_split; lia).
  rewrite le_combine_split. apply Z.mod_small.
  by rewrite Z.mul_comm.
Qed.

Lemma read_write_le_ne w w' data off off' v :
  0 <= off -> off + Z.of_nat w <= zlen data ->
  0 <= off' -> off' + Z.of_nat w' <= zlen data ->
  off' + Z.of_nat w' <= off \/ off + Z.of_nat w <= off' ->
  read_le w' (write_le w data off v) off' = read_le w' data off'.
Proof.
  intros. apply read_le_ext; rewrite ?zlen_write_le; try lia.
  apply slice_write_le_ne; lia.
Qed.

Lemma read_splice_ne w data off d o :
  0 <= off -> off + zlen d <= zlen data ->
  0 <= o -> o + Z.of_nat w <= zlen data ->
  o + Z.of_nat w <= off \/ off + zlen d <= o ->
  read_le w (splice data off d) o = read_le w data o.
Proof.
  intros. pose proof (zlen_nonneg d).
  apply read_le_ext; rewrite ?zlen_splice; try lia.
  apply slice_splice_ne; lia.
Qed.

Lemma byte_at_write_le_ne w data off v i :
  0 <= off -> off + Z.of_nat w <= zlen data ->
  0 <= i < off \/ off + Z.of_nat w <= i ->
  byte_at (write_le w data off v) i = byte_at data i.
Proof.
  intros. unfold byte_at. f_equal. rewrite !nth_lookup. f_equal.
  rewrite write_le_splice by done.
  rewrite lookup_splice by (rewrite ?zlen_le_split; lia).
  rewrite !zlen_le_split. repeat case_decide; done || lia.
Qed.

Lemma byte_at_slice data o n i :
  0 <= o -> 0 <= i < n -> byte_at (slice data o n) i = byte_at data (o + i).
Proof.
  intros. unfold byte_at. f_equal. rewrite !nth_lookup. f_equal.
  rewrite lookup_slice by lia. rewrite decide_True by lia. f_equal. lia.
Qed.

Lemma read_le_zeros w n off :
  0 <= off -> off + Z.of_nat w <= n -> read_le w (zeros n) off = 0.
Proof.
  intros. rewrite read_le_combine by (rewrite ?zlen_zeros; lia).
  replace (slice (zeros n) off (Z.of_nat w)) with (repeat Byte.x00 w).
  - apply le_combine_0.
  - unfold slice, zeros. rewrite drop_replicate, take_replicate.
    rewrite Nat.min_l by lia. rewrite Nat2Z.id. clear.
    induction w; cbn; congruence.
Qed.

(** The low byte of a value is its first byte. *)
Lemma read_le_low w data off :
  (0 < w)%nat -> 0 <= off -> off + Z.of_nat w <= zlen data ->
  read_le w data off mod 256 = byte_at data off.
Proof.
  intros Hw Ho Hl. rewrite read_le_combine by done.
  pose proof (le_combine_firstn 1 (slice data off (Z.of_nat w))) as H.
  change (2 ^ (8 * Z.of_nat 1)) with 256 in H. rewrite <-H.
  destruct (lookup_lt_is_Some_2 data (Z.to_nat off)) as [b Hb]; [zl|].
  assert (List.firstn 1 (slice data off (Z.of_nat w)) = [b]) as ->.
  { apply list_eq. intros [|i].
    - change (take 1 (slice data off (Z.of_nat w)) !! 0%nat = Some b).
      rewrite lookup_take_lt, lookup_slice, decide_True by lia.
      rewrite <-Hb. f_equal. lia.
    - change (take 1 (slice data off (Z.of_nat w)) !! S i = None).
      apply lookup_take_ge. lia. }
  rewrite le_combine_1. symmetry. by apply byte_at_lookup.
Qed.

(** Putting back the value a field had undoes a write of it. *)
Lemma write_le_back w b off v :
  0 <= off -> off + Z.of_nat w <= zlen b ->
  write_le w (write_le w b off v) off (read_le w b off) = b.
Proof.
  intros Ho Hl. rewrite (write_le_splice _ b) by done.
  rewrite write_le_splice by (rewrite ?zlen_splice; rewrite ?zlen_le_split; lia).
  rewrite read_le_combine by done.
  assert (Hn : length (slice b off (Z.of_nat w)) = w)
    by (pose proof (zlen_slice b off (Z.of_nat w)); unfold zlen in *; lia).
  rewrite (split_le_combine' _ w Hn).
  apply list_eq. intros i. rewrite !lookup_splice; rewrite ?zlen_splice; rewrite ?zlen_le_split; try lia.
  unfold zlen in *. rewrite Hn. repeat case_decide; try done.
  rewrite lookup_slice, decide_True by lia. f_equal. lia.
Qed.

(** Lengths through a chain of writes. *)
Ltac wr_len :=
  repeat first
    [ rewrite zlen_write_le | rewrite zlen_le_split
    | rewrite zlen_zeros by lia
    | rewrite zlen_splice by (wr_len; lia) ].

(** [rd]: evaluate a read through a chain of disjoint writes. *)
Ltac rd_side := wr_len; try lia.
Ltac rd :=
  unfold write_le16, write_le32, write_le64;
  repeat first
    [ rewrite read_write_le_eq by (first [assumption | split; by vm_compute | rd_side])
    | rewrite read_write_le_ne by rd_side
    | rewrite read_splice_ne by rd_side
    | rewrite slice_write_le_ne by rd_side
    | rewrite slice_splice_eq by rd_side
    | rewrite slice_splice_ne by rd_side ].

(** Writes to separate fields commute. *)
Lemma write_le_comm w w' b o o' v v' :
  0 <= o -> o + Z.of_nat w <= zlen b -> 0 <= o' -> o' + Z.of_nat w' <= zlen b ->
  o + Z.of_nat w <= o' \/ o' + Z.of_nat w' <= o ->
  write_le w (write_le w' b o' v') o v = write_le w' (write_le w b o v) o' v'.
Proof.
  intros. rewrite (write_le_splice w), (write_le_splice w') by (rewrite ?zlen_write_le; lia).
  rewrite (write_le_splice w'), (write_le_splice w) by (rewrite ?zlen_write_le; lia).
  apply list_eq. intros i.
  rewrite !lookup_splice by (rewrite ?zlen_splice; rewrite ?zlen_le_split; lia).
  rewrite !zlen_le_split. repeat case_decide; done || lia.
Qed.

(** The last of two writes to a field counts. *)
Lemma write_le_twice w b o v v' :
  0 <= o -> o + Z.of_nat w <= zlen b -> write_le w (write_le w b o v') o v = write_le w b o v.
Proof.
  intros. rewrite !write_le_splice by (rewrite ?zlen_write_le; lia).
  apply list_eq. intros i.
  rewrite !lookup_splice by (rewrite ?zlen_splice; rewrite ?zlen_le_split; lia).
  rewrite !zlen_le_split. repeat case_decide; done || lia.
Qed.
