(* ===== verification/Crc.v ===== *)
(** CRC-32 (IEEE) and CRC-32C (src/core/crc.cpp).

    The table-driven slicing-by-8 loop [run] and the SSE4.2 routine are the
    definitions; both are proved equal to a bit-serial reference, for which
    the burst-error detection the checksummed formats rely on is proved. *)
From S2P Require Import Prelude Words Endian.
From coqutil Require Import Z.bitblast Word.LittleEndianList.

(** ** The code *)

(** One step of the inner loop of [make_tables]:
    [c = (c & 1) ? (Poly ^ (c >> 1)) : (c >> 1)]. *)
Definition crc_bit (poly c : Z) : Z :=
  if Z.land c 1 =? 0 then Z.shiftr c 1 else Z.lxor poly (Z.shiftr c 1).

(** [t[0][i]]: eight bit steps from [i]. *)
Definition table0 (poly : Z) : list Z :=
  (fun i => Nat.iter 8 (crc_bit poly) i) <$> seqZ 0 256.

Definition tget (t : list Z) (i : Z) : Z := nth (Z.to_nat i) t 0.

(** [t[n][i] = t[0][c & 0xff] ^ (c >> 8)] with [c = t[n-1][i]]. *)
Definition next_table (t0 prev : list Z) : list Z :=
  (fun c => Z.lxor (tget t0 (Z.land c 255)) (Z.shiftr c 8)) <$> prev.

Fixpoint tables_from (n : nat) (t0 prev : list Z) : list (list Z) :=
  match n with
  | O => []
  | S n => let t := next_table t0 prev in t :: tables_from n t0 t
  end.

Definition make_tables (poly : Z) : list (list Z) :=
  let t0 := table0 poly in t0 :: tables_from 7 t0 t0.

Definition poly_ieee : Z := 0xedb88320.
Definition poly_castagnoli : Z := 0x82f63b78.
Definition ieee := make_tables poly_ieee.
Definition castagnoli := make_tables poly_castagnoli.

(** [load_le64(p)]: [v |= p[i] << (8 * i)]. *)
Definition load_le64 (p : bytes) : Z :=
  foldl (fun v i => Z.lor v (Z.shiftl (byte_at p (Z.of_nat i)) (Z.of_nat i * 8)))
        0 (seq 0 8).

Definition tn (t : list (list Z)) (n : nat) (i : Z) : Z := tget (nth n t []) i.

(** The word step of [run], on [q = load_le64(p) ^ c]. *)
Definition run_word (t : list (list Z)) (q : Z) : Z :=
  let ix k := Z.land (Z.shiftr q k) 255 in
  Z.lxor (Z.lxor (Z.lxor (Z.lxor (Z.lxor (Z.lxor (Z.lxor
    (tn t 7 (ix 0)) (tn t 6 (ix 8))) (tn t 5 (ix 16))) (tn t 4 (ix 24)))
    (tn t 3 (ix 32))) (tn t 2 (ix 40))) (tn t 1 (ix 48))) (tn t 0 (ix 56)).

(** The byte step: [c = t[0][(c ^ b) & 0xff] ^ (c >> 8)]. *)
Definition run_byte (t : list (list Z)) (c : Z) (b : byte) : Z :=
  Z.lxor (tn t 0 (Z.land (Z.lxor c (byte.unsigned b)) 255)) (Z.shiftr c 8).

(** [run(data, seed, t)]: words of eight bytes while [n >= 8], then bytes. *)
Fixpoint run (data : bytes) (c : Z) (t : list (list Z)) : Z :=
  match data with
  | b0 :: b1 :: b2 :: b3 :: b4 :: b5 :: b6 :: b7 :: rest =>
      run rest (run_word t (Z.lxor (load_le64 [b0; b1; b2; b3; b4; b5; b6; b7]) c)) t
  | _ => foldl (run_byte t) c data
  end.

Definition crc32_ieee (data : bytes) (seed : Z) : Z := run data seed ieee.

(** [crc32c] of a build without [FSX_X86_HW_CRC32C]; the dispatching body is
    [crc32c_dispatch] below. *)
Definition crc32c (data : bytes) (seed : Z) : Z := run data seed castagnoli.

(** The complemented checksum every format stores:
    [crc32c(b) ^ 0xffffffffU] with the default seed. *)
Definition crc32c_sum (data : bytes) : Z := Z.lxor (crc32c data 0xffffffff) 0xffffffff.
Definition crc32_sum (data : bytes) : Z := Z.lxor (crc32_ieee data 0xffffffff) 0xffffffff.

(** ** The bit-serial reference *)

Definition crc_bits (poly : Z) (n : nat) (c : Z) : Z := Nat.iter n (crc_bit poly) c.

Definition crc_byte_ref (poly c : Z) (b : byte) : Z :=
  crc_bits poly 8 (Z.lxor c (byte.unsigned b)).

Definition crc_ref (poly : Z) (data : bytes) (seed : Z) : Z :=
  foldl (crc_byte_ref poly) seed data.

(** ** Linearity of the bit step *)

Lemma crc_bit_odd poly c :
  crc_bit poly c = Z.lxor (if Z.testbit c 0 then poly else 0) (Z.shiftr c 1).
Proof.
  unfold crc_bit. rewrite Z.land_comm. change 1 with (Z.ones 1) at 1.
  rewrite Z.land_comm, Z.land_ones by lia. change (2 ^ 1) with 2.
  rewrite Z.bit0_odd. rewrite Zmod_odd. by destruct (Z.odd c).
Qed.

Lemma crc_bit_lxor poly a b :
  crc_bit poly (Z.lxor a b) = Z.lxor (crc_bit poly a) (crc_bit poly b).
Proof.
  rewrite !crc_bit_odd, Z.lxor_spec, Z.shiftr_lxor.
  apply Z.bits_inj. intros i. rewrite !Z.lxor_spec.
  destruct (Z.testbit a 0), (Z.testbit b 0); cbn [xorb];
    rewrite ?Z.bits_0; destruct (Z.testbit poly i), (Z.testbit (Z.shiftr a 1) i),
      (Z.testbit (Z.shiftr b 1) i); done.
Qed.

Lemma crc_bit_shiftl poly x : crc_bit poly (Z.shiftl x 1) = x.
Proof.
  rewrite crc_bit_odd, Z.shiftl_spec_low by lia.
  rewrite Z.lxor_0_l, Z.shiftr_shiftl_l by lia. apply Z.shiftl_0_r.
Qed.

Lemma crc_bits_lxor poly n a b :
  crc_bits poly n (Z.lxor a b) = Z.lxor (crc_bits poly n a) (crc_bits poly n b).
Proof.
  unfold crc_bits. induction n as [|n IH]; [done|]. rewrite !Nat.iter_succ.
  by rewrite IH, crc_bit_lxor.
Qed.

Lemma crc_bits_add poly n m c :
  crc_bits poly (n + m) c = crc_bits poly n (crc_bits poly m c).
Proof. unfold crc_bits. apply Nat.iter_add. Qed.

Lemma crc_bits_shiftl poly n x : crc_bits poly n (Z.shiftl x (Z.of_nat n)) = x.
Proof.
  unfold crc_bits. revert x. induction n as [|n IH]; intros x; [apply Z.shiftl_0_r|].
  rewrite Nat.iter_succ. replace (Z.of_nat (S n)) with (1 + Z.of_nat n) by lia.
  rewrite <-Z.shiftl_shiftl by lia. by rewrite IH, crc_bit_shiftl.
Qed.

Lemma crc_bits_0 poly n : crc_bits poly n 0 = 0.
Proof. unfold crc_bits. induction n as [|n IH]; [done|].
  by rewrite Nat.iter_succ, IH. Qed.

(** The closed form: a checksum is [8 * length] bit steps of the data read as
    one little-endian number. *)
Lemma crc_ref_closed poly data seed :
  crc_ref poly data seed
  = crc_bits poly (8 * length data) (Z.lxor (le_combine data) seed).
Proof.
  unfold crc_ref. revert seed. induction data as [|b data IH]; intros seed.
  - cbn. by rewrite le_combine_nil, Z.lxor_0_l.
  - cbn [foldl]. rewrite IH. unfold crc_byte_ref.
    replace (8 * length (b :: data))%nat with (8 * length data + 8)%nat
      by (cbn [length]; lia).
    rewrite crc_bits_add. f_equal.
    change (le_combine (b :: data))
      with (Z.lor (byte.unsigned b) (Z.shiftl (le_combine data) (Z.of_nat 8))).
    replace (Z.lor (byte.unsigned b) (Z.shiftl (le_combine data) (Z.of_nat 8)))
      with (Z.lxor (Z.shiftl (le_combine data) (Z.of_nat 8)) (byte.unsigned b)).
    2: { pose proof (byte.unsigned_range b). apply Z.bits_inj. intros i.
         rewrite Z.lxor_spec, Z.lor_spec.
         destruct (Z.ltb_spec i 8).
         - rewrite Z.shiftl_spec_low by lia.
           by destruct (Z.testbit (byte.unsigned b) i).
         - rewrite (Z.bits_above_log2 (byte.unsigned b)).
           + by rewrite xorb_false_r.
           + lia.
           + destruct (Z.eq_dec (byte.unsigned b) 0) as [->|]; [cbn; lia|].
             assert (Z.log2 (byte.unsigned b) < 8) by (apply Z.log2_lt_pow2; lia).
             lia. }
    rewrite Z.lxor_assoc, (crc_bits_lxor _ _ (Z.shiftl _ _)), crc_bits_shiftl.
    by rewrite (Z.lxor_comm (byte.unsigned b)).
Qed.

(** ** Range and injectivity of the bit step *)

Lemma crc_bit_width poly c :
  in_width 32 poly -> in_width 32 c -> in_width 32 (crc_bit poly c).
Proof.
  intros Hp Hc. rewrite crc_bit_odd. apply lxor_width; [lia| |].
  - case_match; [done|]. unfold in_width. lia.
  - unfold in_width in *. rewrite Z.shiftr_div_pow2 by lia. change (2 ^ 1) with 2.
    split; [apply Z.div_pos; lia|]. apply Z.div_lt_upper_bound; lia.
Qed.

Lemma crc_bits_width poly n c :
  in_width 32 poly -> in_width 32 c -> in_width 32 (crc_bits poly n c).
Proof.
  intros Hp Hc. unfold crc_bits. induction n; [done|].
  rewrite Nat.iter_succ. by apply crc_bit_width.
Qed.

(** A generator with its top bit set makes the step injective on 32 bits. *)
Definition good_poly (poly : Z) : Prop := 2 ^ 31 <= poly < 2 ^ 32.

Lemma crc_bit_kernel poly c :
  good_poly poly -> in_width 32 c -> crc_bit poly c = 0 -> c = 0.
Proof.
  unfold good_poly, in_width. intros Hp Hc H. rewrite crc_bit_odd in H.
  apply Z.lxor_eq in H. rewrite Z.shiftr_div_pow2 in H by lia.
  change (2 ^ 1) with 2 in H.
  assert (c / 2 < 2 ^ 31) by (apply Z.div_lt_upper_bound; lia).
  destruct (Z.testbit c 0) eqn:E; [lia|].
  rewrite Z.bit0_odd, <-Z.negb_even in E. apply negb_false_iff in E.
  apply Z.even_spec in E as [k ->]. rewrite Z.mul_comm, Z.div_mul in H by lia. lia.
Qed.

Lemma good_poly_width poly : good_poly poly -> in_width 32 poly.
Proof. unfold good_poly, in_width. lia. Qed.
#[export] Hint Resolve good_poly_width : fsx.

Lemma crc_bits_kernel poly n c :
  good_poly poly -> in_width 32 c -> crc_bits poly n c = 0 -> c = 0.
Proof.
  intros Hp Hc. unfold crc_bits. induction n as [|n IH]; [done|].
  rewrite Nat.iter_succ. intros H. apply IH. eapply crc_bit_kernel; [done| |done].
  apply (crc_bits_width poly n); eauto with fsx.
Qed.

Lemma good_poly_castagnoli : good_poly poly_castagnoli.
Proof. by split; [done|]. Qed.
Lemma good_poly_ieee : good_poly poly_ieee.
Proof. by split; [done|]. Qed.
#[export] Hint Resolve good_poly_castagnoli good_poly_ieee : fsx.

(** ** The tables hold advances of the bit step *)

Definition byte_index (i : Z) : Prop := 0 <= i < 256.

Lemma land_255_index x : byte_index (Z.land x 255).
Proof.
  change 255 with (Z.ones 8). rewrite Z.land_ones by lia.
  apply Z.mod_pos_bound. lia.
Qed.
#[export] Hint Resolve land_255_index : fsx.

Lemma byte_split c : c = Z.lxor (Z.land c 255) (Z.shiftl (Z.shiftr c 8) 8).
Proof.
  change 255 with (Z.ones 8). apply Z.bits_inj. intros i.
  rewrite Z.lxor_spec, Z.land_spec.
  destruct (Z.ltb_spec i 0); [by rewrite !Z.testbit_neg_r|].
  rewrite Z.testbit_ones_nonneg by lia.
  destruct (Z.ltb_spec i 8).
  - rewrite Z.shiftl_spec_low by lia. by destruct (Z.testbit c i).
  - rewrite Z.shiftl_spec_high, Z.shiftr_spec by lia.
    replace (i - 8 + 8) with i by lia. by destruct (Z.testbit c i).
Qed.

(** Eight bit steps are one table look-up and a shift. *)
Lemma crc_bits_8 poly c :
  crc_bits poly 8 c = Z.lxor (crc_bits poly 8 (Z.land c 255)) (Z.shiftr c 8).
Proof.
  rewrite (byte_split c) at 1. rewrite crc_bits_lxor. f_equal.
  apply (crc_bits_shiftl poly 8).
Qed.

Definition table_of (poly : Z) (m : nat) (t : list Z) : Prop :=
  length t = 256%nat /\ forall i, byte_index i -> tget t i = crc_bits poly m i.

Lemma table_of_fmap poly m (f : Z -> Z) l (g : Z -> Z) :
  length l = 256%nat -> (forall i, byte_index i -> tget l i = g i) ->
  (forall i, byte_index i -> f (g i) = crc_bits poly m i) ->
  table_of poly m (f <$> l).
Proof.
  intros Hl Hg Hf. split; [by rewrite length_fmap|].
  intros i Hi. rewrite <-Hf, <-Hg by done. unfold tget.
  destruct (lookup_lt_is_Some_2 l (Z.to_nat i)) as [x Hx]; [unfold byte_index in *; lia|].
  rewrite (nth_lookup_Some (f <$> l) _ _ (f x)), (nth_lookup_Some l _ _ x); try done.
  by rewrite list_lookup_fmap, Hx.
Qed.

Lemma table0_ok poly : table_of poly 8 (table0 poly).
Proof.
  apply table_of_fmap with (g := fun i => i); try done.
  intros i Hi. unfold byte_index, tget in *.
  apply nth_lookup_Some. apply lookup_seqZ. lia.
Qed.

Lemma next_table_ok poly m prev :
  table_of poly m prev -> table_of poly (8 + m) (next_table (table0 poly) prev).
Proof.
  intros [Hl Hp]. apply table_of_fmap with (g := crc_bits poly m); try done.
  intros i Hi. rewrite (proj2 (table0_ok poly)) by eauto with fsx.
  rewrite <-crc_bits_8. by rewrite crc_bits_add.
Qed.

Lemma tables_from_ok poly k n prev m :
  (n < k)%nat -> table_of poly m prev ->
  table_of poly (8 * n + 8 + m) (nth n (tables_from k (table0 poly) prev) []).
Proof.
  revert n prev m. induction k as [|k IH]; intros n prev m Hn Hp; [lia|].
  destruct n as [|n]; cbn [tables_from nth].
  - by apply next_table_ok.
  - replace (8 * S n + 8 + m)%nat with (8 * n + 8 + (8 + m))%nat by lia.
    apply IH; [lia|]. by apply next_table_ok.
Qed.

Lemma make_tables_ok poly n i :
  (n < 8)%nat -> byte_index i ->
  tn (make_tables poly) n i = crc_bits poly (8 * n + 8) i.
Proof.
  intros Hn. revert i.
  enough (H : table_of poly (8 * n + 8) (nth n (make_tables poly) []))
    by exact (proj2 H).
  unfold make_tables.
  destruct n as [|n]; cbn [nth]; [apply table0_ok|].
  replace (8 * S n + 8)%nat with (8 * n + 8 + 8)%nat by lia.
  apply tables_from_ok; [lia|apply table0_ok].
Qed.

(** ** The loop of the code computes the reference *)

Lemma run_byte_ok poly c b :
  run_byte (make_tables poly) c b = crc_byte_ref poly c b.
Proof.
  unfold run_byte, crc_byte_ref. rewrite make_tables_ok by (lia || eauto with fsx).
  rewrite (crc_bits_8 _ (Z.lxor c _)). f_equal.
  rewrite Z.shiftr_lxor. pose proof (byte.unsigned_range b).
  replace (Z.shiftr (byte.unsigned b) 8) with 0; [by rewrite Z.lxor_0_r|].
  rewrite Z.shiftr_div_pow2 by lia. symmetry. apply Z.div_small. lia.
Qed.

(** Split [q] into its eight bytes. *)
Lemma crc_bits_peel poly n k q :
  0 <= k ->
  crc_bits poly (n + 8) (Z.shiftr q k)
  = Z.lxor (crc_bits poly (n + 8) (Z.land (Z.shiftr q k) 255))
           (crc_bits poly n (Z.shiftr q (k + 8))).
Proof.
  intros. rewrite <-Z.shiftr_shiftr by lia.
  by rewrite !crc_bits_add, <-crc_bits_lxor, <-crc_bits_8.
Qed.

Lemma run_word_ok poly q :
  in_width 64 q -> run_word (make_tables poly) q = crc_bits poly 64 q.
Proof.
  intros Hq. unfold run_word.
  rewrite !make_tables_ok by (lia || eauto with fsx).
  rewrite <-(Z.shiftr_0_r q) at 9.
  rewrite (crc_bits_peel poly 56 0), (crc_bits_peel poly 48 (0 + 8)),
    (crc_bits_peel poly 40 (0 + 8 + 8)), (crc_bits_peel poly 32 (0 + 8 + 8 + 8)),
    (crc_bits_peel poly 24 (0 + 8 + 8 + 8 + 8)),
    (crc_bits_peel poly 16 (0 + 8 + 8 + 8 + 8 + 8)),
    (crc_bits_peel poly 8 (0 + 8 + 8 + 8 + 8 + 8 + 8)),
    (crc_bits_peel poly 0 (0 + 8 + 8 + 8 + 8 + 8 + 8 + 8)) by lia.
  replace (Z.shiftr q (0 + 8 + 8 + 8 + 8 + 8 + 8 + 8 + 8)) with 0.
  2: { unfold in_width in Hq. rewrite Z.shiftr_div_pow2 by lia. symmetry.
       by apply Z.div_small. }
  rewrite crc_bits_0, Z.lxor_0_r. cbn [Z.add Pos.add Pos.succ Nat.mul Nat.add].
  by rewrite !Z.lxor_assoc.
Qed.

Lemma load_le64_combine p : length p = 8%nat -> load_le64 p = le_combine p.
Proof.
  intros Hp. transitivity (le_combine (slice p 0 8)).
  - apply (read_le_loop 8 p 0); unfold zlen; lia.
  - rewrite slice_all; [done|unfold zlen; lia].
Qed.

(** Induction along the word loop. *)
Lemma bytes8_ind (P : bytes -> Prop) :
  (forall d, (length d < 8)%nat -> P d) ->
  (forall w d, length w = 8%nat -> P d -> P (w ++ d)) ->
  forall d, P d.
Proof.
  intros Hs Hw. fix IH 1. intros d.
  do 8 (destruct d as [|? d]; [apply Hs; cbn [length]; lia|]).
  apply (Hw [_; _; _; _; _; _; _; _]); [done|]. apply IH.
Qed.

Lemma run_app8 w d c t :
  length w = 8%nat -> run (w ++ d) c t = run d (run_word t (Z.lxor (load_le64 w) c)) t.
Proof. intros H. do 9 (destruct w as [|? w]; try discriminate H). done. Qed.

Lemma run_short d c t :
  (length d < 8)%nat -> run d c t = foldl (run_byte t) c d.
Proof.
  intros H. do 8 (destruct d as [|? d]; [done|]). cbn [length] in H. lia.
Qed.

Lemma crc_ref_app poly d1 d2 c :
  crc_ref poly (d1 ++ d2) c = crc_ref poly d2 (crc_ref poly d1 c).
Proof. apply foldl_app. Qed.

Lemma crc_ref_width poly d c :
  in_width 32 poly -> in_width 32 c -> in_width 32 (crc_ref poly d c).
Proof.
  intros Hp. unfold crc_ref. revert c. induction d as [|b d IH]; intros c Hc; [done|].
  cbn [foldl]. apply IH. apply crc_bits_width; [done|]. apply lxor_width; [lia|done|].
  pose proof (byte.unsigned_range b). unfold in_width. lia.
Qed.

Lemma foldl_run_byte poly d c :
  foldl (run_byte (make_tables poly)) c d = crc_ref poly d c.
Proof.
  unfold crc_ref. revert c. induction d as [|b d IH]; intros c; [done|].
  cbn [foldl]. by rewrite run_byte_ok.
Qed.

Lemma word_width w c :
  length w = 8%nat -> in_width 32 c -> in_width 64 (Z.lxor (le_combine w) c).
Proof.
  intros Hw Hc. apply lxor_width; [lia| |unfold in_width in *; lia].
  pose proof (le_combine_bound w) as H. rewrite Hw in H. exact H.
Qed.

Lemma run_ref poly data seed :
  in_width 32 poly -> in_width 32 seed ->
  run data seed (make_tables poly) = crc_ref poly data seed.
Proof.
  intros Hp. revert seed.
  induction data as [d Hd | w d Hw IH] using bytes8_ind; intros seed Hs.
  - rewrite run_short by done. apply foldl_run_byte.
  - rewrite run_app8, crc_ref_app by done.
    rewrite load_le64_combine, run_word_ok by (eauto using word_width).
    assert (E : crc_ref poly w seed = crc_bits poly 64 (Z.lxor (le_combine w) seed))
      by (by rewrite crc_ref_closed, Hw).
    rewrite <-E. apply IH. by apply crc_ref_width.
Qed.

(** ** The SSE4.2 routine *)

(** The intrinsics of the compiler, with what Intel documents of them: the
    [n]-bit CRC32 instruction advances the CRC-32C remainder by the [n] bits
    of its operand. *)
Class Sse42 := {
  mm_crc32_u8 : Z -> Z -> Z;
  mm_crc32_u16 : Z -> Z -> Z;
  mm_crc32_u32 : Z -> Z -> Z;
  mm_crc32_u64 : Z -> Z -> Z
}.
Class Sse42Laws (hw : Sse42) : Prop := {
  mm_crc32_u8_law c v : in_width 32 c -> in_width 8 v ->
    mm_crc32_u8 c v = crc_bits poly_castagnoli 8 (Z.lxor c v);
  mm_crc32_u16_law c v : in_width 32 c -> in_width 16 v ->
    mm_crc32_u16 c v = crc_bits poly_castagnoli 16 (Z.lxor c v);
  mm_crc32_u32_law c v : in_width 32 c -> in_width 32 v ->
    mm_crc32_u32 c v = crc_bits poly_castagnoli 32 (Z.lxor c v);
  mm_crc32_u64_law c v : in_width 32 c -> in_width 64 v ->
    mm_crc32_u64 c v = crc_bits poly_castagnoli 64 (Z.lxor c v)
}.

(** A processor that runs the bit steps. *)
#[export] Instance sse42_bits : Sse42 := {
  mm_crc32_u8 c v := crc_bits poly_castagnoli 8 (Z.lxor c v);
  mm_crc32_u16 c v := crc_bits poly_castagnoli 16 (Z.lxor c v);
  mm_crc32_u32 c v := crc_bits poly_castagnoli 32 (Z.lxor c v);
  mm_crc32_u64 c v := crc_bits poly_castagnoli 64 (Z.lxor c v)
}.
#[export] Instance sse42_bits_laws : Sse42Laws sse42_bits.
Proof. by constructor. Qed.

Section Hardware.
Context {hw : Sse42}.

(** The tail of [crc32c_sse42]: at most one word of four bytes is left, then
    [n >= 2], then [n]. *)
Definition sse42_u8 (data : bytes) (c : Z) : Z :=
  match data with
  | b0 :: _ => mm_crc32_u8 c (byte.unsigned b0)
  | [] => c
  end.
Definition sse42_u16 (data : bytes) (c : Z) : Z :=
  match data with
  | b0 :: b1 :: rest => sse42_u8 rest (mm_crc32_u16 c (le_combine [b0; b1]))
  | _ => sse42_u8 data c
  end.
Fixpoint sse42_u32 (data : bytes) (c : Z) : Z :=
  match data with
  | b0 :: b1 :: b2 :: b3 :: rest =>
      sse42_u32 rest (mm_crc32_u32 c (le_combine [b0; b1; b2; b3]))
  | _ => sse42_u16 data c
  end.
(** [crc32c_sse42] on x86-64; [std::memcpy] into an integer on this
    little-endian machine is [le_combine]. *)
Fixpoint crc32c_sse42 (data : bytes) (c : Z) : Z :=
  match data with
  | b0 :: b1 :: b2 :: b3 :: b4 :: b5 :: b6 :: b7 :: rest =>
      crc32c_sse42 rest (mm_crc32_u64 c (le_combine [b0; b1; b2; b3; b4; b5; b6; b7]))
  | _ => sse42_u32 data (u32 c)
  end.

(** [crc32c] of an x86 build, [have_sse42] the answer of the processor. *)
Definition crc32c_dispatch (have_sse42 : bool) (data : bytes) (seed : Z) : Z :=
  if have_sse42 then crc32c_sse42 data seed else run data seed castagnoli.

Context {laws : Sse42Laws hw}.

Lemma chunk_ref w c :
  crc_bits poly_castagnoli (8 * length w) (Z.lxor c (le_combine w))
  = crc_ref poly_castagnoli w c.
Proof. by rewrite crc_ref_closed, Z.lxor_comm. Qed.

Lemma le_combine_width w :
  in_width (8 * Z.of_nat (length w)) (le_combine w).
Proof. apply le_combine_bound. Qed.

Lemma castagnoli_width d c :
  in_width 32 c -> in_width 32 (crc_ref poly_castagnoli d c).
Proof. apply crc_ref_width. eauto with fsx. Qed.

Lemma crc_ref_chunk w d c :
  crc_ref poly_castagnoli (w ++ d) c
  = crc_ref poly_castagnoli d
      (crc_bits poly_castagnoli (8 * length w) (Z.lxor c (le_combine w))).
Proof. by rewrite crc_ref_app, chunk_ref. Qed.

Lemma crc_bits_chunk_width w c n :
  in_width 32 c -> n = (8 * length w)%nat ->
  in_width 32 (crc_bits poly_castagnoli n (Z.lxor c (le_combine w))).
Proof. intros Hc ->. rewrite chunk_ref. by apply castagnoli_width. Qed.

Lemma sse42_u8_ok d c :
  in_width 32 c -> (length d < 2)%nat -> sse42_u8 d c = crc_ref poly_castagnoli d c.
Proof.
  intros Hc Hd. destruct d as [|b [|b' d]]; [done| |cbn [length] in Hd; lia].
  cbn [sse42_u8]. rewrite mm_crc32_u8_law by (done || apply byte.unsigned_range).
  reflexivity.
Qed.

Lemma sse42_u16_ok d c :
  in_width 32 c -> (length d < 4)%nat -> sse42_u16 d c = crc_ref poly_castagnoli d c.
Proof.
  intros Hc Hd. destruct d as [|b0 [|b1 d]];
    cbn [sse42_u16]; try (apply sse42_u8_ok; [done|cbn [length]; lia]).
  rewrite mm_crc32_u16_law by (done || apply le_combine_width).
  rewrite sse42_u8_ok; [symmetry; apply (crc_ref_chunk [b0; b1] d c) | |
    cbn [length] in Hd; lia].
  by apply crc_bits_chunk_width.
Qed.

Lemma sse42_u32_ok d c :
  in_width 32 c -> (length d < 8)%nat -> sse42_u32 d c = crc_ref poly_castagnoli d c.
Proof.
  intros Hc Hd. destruct d as [|b0 [|b1 [|b2 [|b3 d]]]];
    cbn [sse42_u32]; try (apply sse42_u16_ok; [done|cbn [length]; lia]).
  rewrite mm_crc32_u32_law by (done || apply le_combine_width).
  change (b0 :: b1 :: b2 :: b3 :: d) with ([b0; b1; b2; b3] ++ d).
  rewrite crc_ref_chunk.
  destruct d as [|b4 [|b5 [|b6 [|b7 d]]]]; [| | | | cbn [length] in Hd; lia];
    cbn [sse42_u32]; apply sse42_u16_ok; try (cbn [length]; lia);
    by apply crc_bits_chunk_width.
Qed.

Lemma crc32c_sse42_app8 w d c :
  length w = 8%nat ->
  crc32c_sse42 (w ++ d) c = crc32c_sse42 d (mm_crc32_u64 c (le_combine w)).
Proof. intros H. do 9 (destruct w as [|? w]; try discriminate H). done. Qed.

Lemma crc32c_sse42_short d c :
  (length d < 8)%nat -> crc32c_sse42 d c = sse42_u32 d (u32 c).
Proof. intros H. do 8 (destruct d as [|? d]; [done|]). cbn [length] in H. lia. Qed.

Lemma crc32c_sse42_ref d c :
  in_width 32 c -> crc32c_sse42 d c = crc_ref poly_castagnoli d c.
Proof.
  revert c. induction d as [d Hd | w d Hw IH] using bytes8_ind; intros c Hc.
  - rewrite crc32c_sse42_short by done. unfold wrap.
    rewrite Z.mod_small by done. by apply sse42_u32_ok.
  - rewrite crc32c_sse42_app8, crc_ref_chunk by done.
    pose proof (le_combine_width w) as Hle. rewrite Hw in Hle.
    rewrite mm_crc32_u64_law, Hw by done.
    apply IH. apply crc_bits_chunk_width; [done|by rewrite Hw].
Qed.
End Hardware.

(** ** Checksums detect burst errors *)

Lemma crc_ref_inj poly d1 d2 c1 c2 :
  good_poly poly -> length d1 = length d2 ->
  in_width 32 (Z.lxor (Z.lxor (le_combine d1) c1) (Z.lxor (le_combine d2) c2)) ->
  crc_ref poly d1 c1 = crc_ref poly d2 c2 ->
  Z.lxor (le_combine d1) c1 = Z.lxor (le_combine d2) c2.
Proof.
  intros Hp Hl Hw. rewrite !crc_ref_closed, Hl. intros E.
  apply Z.lxor_eq. apply (crc_bits_kernel poly (8 * length d2)); [done|done|].
  by rewrite crc_bits_lxor, E, Z.lxor_nilpotent.
Qed.

Lemma lxor_cancel_l a b c : Z.lxor (Z.lxor a b) (Z.lxor a c) = Z.lxor b c.
Proof.
  apply Z.bits_inj. intros i. rewrite !Z.lxor_spec.
  by destruct (Z.testbit a i), (Z.testbit b i), (Z.testbit c i).
Qed.

Lemma crc_ref_seed_inj poly d c1 c2 :
  good_poly poly -> in_width 32 c1 -> in_width 32 c2 ->
  crc_ref poly d c1 = crc_ref poly d c2 -> c1 = c2.
Proof.
  intros Hp H1 H2 E. apply crc_ref_inj in E; [|done|done|].
  - apply Z.lxor_eq. rewrite <-(lxor_cancel_l (le_combine d)), E.
    apply Z.lxor_nilpotent.
  - rewrite lxor_cancel_l. by apply lxor_width.
Qed.

(** Two ranges that differ inside one window of at most four bytes have
    different remainders. *)
Lemma crc_ref_burst poly pre x y post c :
  good_poly poly -> in_width 32 c ->
  length x = length y -> (length x <= 4)%nat -> x <> y ->
  crc_ref poly (pre ++ x ++ post) c <> crc_ref poly (pre ++ y ++ post) c.
Proof.
  intros Hp Hc Hl H4 Hne E. apply Hne. rewrite !crc_ref_app in E.
  assert (Hpre : in_width 32 (crc_ref poly pre c))
    by (apply crc_ref_width; eauto with fsx).
  apply crc_ref_seed_inj in E; [|done|by apply crc_ref_width; eauto with fsx..].
  assert (Hcomb : forall z, (length z <= 4)%nat -> in_width 32 (le_combine z)).
  { intros z Hz. pose proof (le_combine_bound z) as Hb. unfold in_width.
    assert (2 ^ (8 * Z.of_nat (length z)) <= 2 ^ 32) by (apply Z.pow_le_mono_r; lia).
    lia. }
  apply crc_ref_inj in E; [|done|done|].
  - apply (f_equal (fun v => Z.lxor v (crc_ref poly pre c))) in E.
    rewrite !Z.lxor_assoc, !Z.lxor_nilpotent, !Z.lxor_0_r in E.
    by apply le_combine_inj in E.
  - apply lxor_width; [lia| |]; apply lxor_width; try lia; try done;
      apply Hcomb; lia.
Qed.

Lemma crc32c_ref data seed :
  in_width 32 seed -> crc32c data seed = crc_ref poly_castagnoli data seed.
Proof. intros. apply run_ref; eauto with fsx. Qed.
Lemma crc32_ieee_ref data seed :
  in_width 32 seed -> crc32_ieee data seed = crc_ref poly_ieee data seed.
Proof. intros. apply run_ref; eauto with fsx. Qed.

Lemma seed_width : in_width 32 0xffffffff.
Proof. done. Qed.
#[export] Hint Resolve seed_width : fsx.

Lemma crc32c_sum_width data : in_width 32 (crc32c_sum data).
Proof.
  unfold crc32c_sum. apply lxor_width; [lia| |done].
  rewrite crc32c_ref by done. apply crc_ref_width; eauto with fsx.
Qed.
Lemma crc32_sum_width data : in_width 32 (crc32_sum data).
Proof.
  unfold crc32_sum. apply lxor_width; [lia| |done].
  rewrite crc32_ieee_ref by done. apply crc_ref_width; eauto with fsx.
Qed.
#[export] Hint Resolve crc32c_sum_width crc32_sum_width : fsx.

Lemma lxor_inj_r a b c : Z.lxor a c = Z.lxor b c -> a = b.
Proof.
  intros H. apply (f_equal (fun v => Z.lxor v c)) in H.
  by rewrite !Z.lxor_assoc, !Z.lxor_nilpotent, !Z.lxor_0_r in H.
Qed.

Lemma crc32c_sum_burst pre x y post :
  length x = length y -> (length x <= 4)%nat -> x <> y ->
  crc32c_sum (pre ++ x ++ post) <> crc32c_sum (pre ++ y ++ post).
Proof.
  intros Hl H4 Hne E. apply lxor_inj_r in E. rewrite !crc32c_ref in E by done.
  revert E. apply crc_ref_burst; eauto with fsx.
Qed.

(** ** Properties *)

(** C5: on every processor that implements the CRC32 instructions as
    documented, with or without the SSE4.2 path, [crc32c] computes the
    bit-serial CRC-32C remainder of the whole range, and [crc32_ieee] (the
    slicing-by-8 loop over the eight generated tables) the CRC-32 one. *)
Theorem crc_optimised_equals_bit_serial
    (hw : Sse42) (laws : Sse42Laws hw) (have_sse42 : bool)
    (data : bytes) (seed : Z) (Hseed : in_width 32 seed) :
  crc32c_dispatch have_sse42 data seed = crc_ref poly_castagnoli data seed /\
  crc32c data seed = crc_ref poly_castagnoli data seed /\
  crc32_ieee data seed = crc_ref poly_ieee data seed.
Proof.
  split; [|by split; [apply crc32c_ref | apply crc32_ieee_ref]].
  unfold crc32c_dispatch. destruct have_sse42.
  - by apply crc32c_sse42_ref.
  - by apply (crc32c_ref data seed).
Qed.

Lemma crc_optimised_equals_bit_serial_witness :
  in_width 32 0xffffffff /\
  crc32c_dispatch true [Byte.x31; Byte.x32; Byte.x33] 0xffffffff
  = crc_ref poly_castagnoli [Byte.x31; Byte.x32; Byte.x33] 0xffffffff.
Proof.
  split; [done|].
  exact (proj1 (crc_optimised_equals_bit_serial sse42_bits sse42_bits_laws true
                  _ _ seed_width)).
Defined.

(** A change confined to a window of four bytes always changes the
    stored CRC-32C of a range: no torn or flipped field of at most 32 bits
    survives a checksum check. *)
Theorem crc32c_detects_bursts
    (pre x y post : bytes)
    (Hlen : length x = length y) (Hwin : (length x <= 4)%nat) (Hne : x <> y) :
  crc32c_sum (pre ++ x ++ post) <> crc32c_sum (pre ++ y ++ post).
Proof. by apply crc32c_sum_burst. Qed.

Lemma crc32c_detects_bursts_witness :
  length [Byte.x00; Byte.x01] = length [Byte.x10; Byte.x01] /\
  crc32c_sum ([Byte.x46] ++ [Byte.x00; Byte.x01] ++ [Byte.x07])
  <> crc32c_sum ([Byte.x46] ++ [Byte.x10; Byte.x01] ++ [Byte.x07]).
Proof.
  split; [done|].
  assert (Hwin : (length [Byte.x00; Byte.x01] <= 4)%nat) by (cbn [length]; lia).
  assert (Hne : [Byte.x00; Byte.x01] <> [Byte.x10; Byte.x01]) by discriminate.
  exact (crc32c_detects_bursts [Byte.x46] [Byte.x00; Byte.x01] [Byte.x10; Byte.x01]
           [Byte.x07] eq_refl Hwin Hne).
Defined.
