(* ===== verification/Hash.v ===== *)
(** xxHash64, SHA-256 and BLAKE2b-256 (include/fsx/hash.hpp,
    src/core/hash.cpp).

    A pointer into the data is the list of the bytes behind it.  Reading
    through it is partial: a computation that would read past the end of the
    data, or would not stop, is [None]. *)
From S2P Require Import Prelude Words Endian.
From coqutil Require Import Word.LittleEndianList.

(** ** Words *)

Definition rotl64 (x r : Z) : Z := Z.lor (u64 (Z.shiftl x r)) (Z.shiftr x (64 - r)).
Definition rotr32 (x r : Z) : Z := Z.lor (Z.shiftr x r) (u32 (Z.shiftl x (32 - r))).
Definition rotr64 (x r : Z) : Z := Z.lor (Z.shiftr x r) (u64 (Z.shiftl x (64 - r))).

(** [p[i]] as an unsigned byte. *)
Definition deref (p : bytes) (i : nat) : option Z := byte.unsigned <$> p !! i.

(** The loop of [read64le] and [read32le]:
    [v |= uint64_t(p[i]) << (i * 8)]. *)
Definition readle (n : nat) (p : bytes) : option Z :=
  for_each (seq 0 n) (fun i v =>
    b ← deref p i; Some (Z.lor v (Z.shiftl b (Z.of_nat i * 8)))) 0.
Definition read64le : bytes -> option Z := readle 8.
Definition read32le : bytes -> option Z := readle 4.
Definition read32be (p : bytes) : option Z :=
  b0 ← deref p 0; b1 ← deref p 1; b2 ← deref p 2; b3 ← deref p 3;
  Some (Z.lor (Z.lor (Z.lor (Z.shiftl b0 24) (Z.shiftl b1 16)) (Z.shiftl b2 8)) b3).

(** [std::byte(v & 0xff)]. *)
Definition low_byte (v : Z) : byte := byte.of_Z (Z.land v 255).
(** [write32be(p + off, v)]. *)
Definition write32be (p : bytes) (off : nat) (v : Z) : bytes :=
  <[(off + 3)%nat := low_byte v]>
  (<[(off + 2)%nat := low_byte (Z.shiftr v 8)]>
  (<[(off + 1)%nat := low_byte (Z.shiftr v 16)]>
  (<[off := low_byte (Z.shiftr v 24)]> p))).
(** [write64le(p + off, v)]. *)
Definition write64le (p : bytes) (off : nat) (v : Z) : bytes :=
  foldl (fun p i => <[(off + i)%nat := low_byte (Z.shiftr v (Z.of_nat i * 8))]> p)
        p (seq 0 8).

(** [std::memcpy(dst, p, n)]. *)
Definition memcpy (dst p : bytes) (n : Z) : option bytes :=
  if (n <=? zlen p) && (n <=? zlen dst) then Some (splice dst 0 (take (Z.to_nat n) p))
  else None.

(** Element [i] of a fixed array. *)
Definition at_ (a : list Z) (i : nat) : Z := nth i a 0.

(** ** xxHash64 *)

Definition XXH_PRIME64_1 : Z := 11400714785074694791.
Definition XXH_PRIME64_2 : Z := 14029467366897019727.
Definition XXH_PRIME64_3 : Z := 1609587929392839161.
Definition XXH_PRIME64_4 : Z := 9650029242287828579.
Definition XXH_PRIME64_5 : Z := 2870177450012600261.

Definition xxh_round (acc input : Z) : Z :=
  let acc := u64 (acc + u64 (input * XXH_PRIME64_2)) in
  let acc := rotl64 acc 31 in
  u64 (acc * XXH_PRIME64_1).
Definition xxh_merge (acc val : Z) : Z :=
  let val := xxh_round 0 val in
  let acc := Z.lxor acc val in
  u64 (u64 (acc * XXH_PRIME64_1) + XXH_PRIME64_4).

(** One round of the loop on stripes of 32 bytes, without the moves of the
    cursor. *)
Definition xxh_stripe (p : bytes) (v : Z * Z * Z * Z) : option (Z * Z * Z * Z) :=
  let '(v1, v2, v3, v4) := v in
  k1 ← read64le p; k2 ← read64le (drop 8 p);
  k3 ← read64le (drop 16 p); k4 ← read64le (drop 24 p);
  Some (xxh_round v1 k1, xxh_round v2 k2, xxh_round v3 k3, xxh_round v4 k4).

(** The state of the long form before its merges: [do ... while (remaining >= 32)]
    behind [if (remaining >= 32)]. *)
Definition xxh_stripes (fuel : nat) (seed : Z) (p : bytes) :
    option (Z * Z * Z * Z * bytes * Z) :=
  let v1 := u64 (u64 (seed + XXH_PRIME64_1) + XXH_PRIME64_2) in
  let v2 := u64 (seed + XXH_PRIME64_2) in
  let v3 := seed in
  let v4 := u64 (seed - XXH_PRIME64_1) in
  while fuel (fun '(v, p, remaining) => 32 <=? remaining)
    (fun '(v, p, remaining) => v ← xxh_stripe p v; Some (v, drop 32 p, remaining - 32))
    (v1, v2, v3, v4, p, zlen p).

Definition xxh_long (v : Z * Z * Z * Z) : Z :=
  let '(v1, v2, v3, v4) := v in
  let h := u64 (u64 (u64 (rotl64 v1 1 + rotl64 v2 7) + rotl64 v3 12) + rotl64 v4 18) in
  let h := xxh_merge h v1 in
  let h := xxh_merge h v2 in
  let h := xxh_merge h v3 in
  xxh_merge h v4.

(** [while (remaining >= 8)]. *)
Definition xxh_word (p : bytes) (h : Z) : option Z :=
  w ← read64le p;
  let k := xxh_round 0 w in
  let h := Z.lxor h k in
  Some (u64 (u64 (rotl64 h 27 * XXH_PRIME64_1) + XXH_PRIME64_4)).
Definition xxh_words (fuel : nat) (h : Z) (p : bytes) (remaining : Z) :
    option (Z * bytes * Z) :=
  while fuel (fun '(h, p, remaining) => 8 <=? remaining)
    (fun '(h, p, remaining) => h ← xxh_word p h; Some (h, drop 8 p, remaining - 8))
    (h, p, remaining).

(** [if (remaining >= 4)]. *)
Definition xxh_half (h : Z) (p : bytes) (remaining : Z) : option (Z * bytes * Z) :=
  if 4 <=? remaining then
    w ← read32le p;
    let h := Z.lxor h (u64 (w * XXH_PRIME64_1)) in
    let h := u64 (u64 (rotl64 h 23 * XXH_PRIME64_2) + XXH_PRIME64_3) in
    Some (h, drop 4 p, remaining - 4)
  else Some (h, p, remaining).

(** [while (remaining != 0)]. *)
Definition xxh_byte (p : bytes) (h : Z) : option Z :=
  b ← deref p 0;
  let h := Z.lxor h (u64 (b * XXH_PRIME64_5)) in
  Some (u64 (rotl64 h 11 * XXH_PRIME64_1)).
Definition xxh_tail (fuel : nat) (h : Z) (p : bytes) (remaining : Z) :
    option (Z * bytes * Z) :=
  while fuel (fun '(h, p, remaining) => negb (remaining =? 0))
    (fun '(h, p, remaining) => h ← xxh_byte p h; Some (h, drop 1 p, remaining - 1))
    (h, p, remaining).

Definition xxh_avalanche (h : Z) : Z :=
  let h := Z.lxor h (Z.shiftr h 33) in
  let h := u64 (h * XXH_PRIME64_2) in
  let h := Z.lxor h (Z.shiftr h 29) in
  let h := u64 (h * XXH_PRIME64_3) in
  Z.lxor h (Z.shiftr h 32).

Definition xxhash64 (data : bytes) (seed : Z) : option Z :=
  let fuel := S (length data) in
  r ← (if 32 <=? zlen data then
         '(v, p, remaining) ← xxh_stripes fuel seed data;
         Some (xxh_long v, p, remaining)
       else Some (u64 (seed + XXH_PRIME64_5), data, zlen data));
  let '(h, p, remaining) := r in
  let h := u64 (h + zlen data) in
  '(h, p, remaining) ← xxh_words fuel h p remaining;
  '(h, p, remaining) ← xxh_half h p remaining;
  '(h, p, remaining) ← xxh_tail fuel h p remaining;
  Some (xxh_avalanche h).


(** ** SHA-256 *)

(** The round constants, in decimal. *)
Definition K256 : list Z :=
  [1116352408; 1899447441; 3049323471; 3921009573; 961987163; 1508970993;
   2453635748; 2870763221; 3624381080; 310598401; 607225278; 1426881987;
   1925078388; 2162078206; 2614888103; 3248222580; 3835390401; 4022224774;
   264347078; 604807628; 770255983; 1249150122; 1555081692; 1996064986;
   2554220882; 2821834349; 2952996808; 3210313671; 3336571891; 3584528711;
   113926993; 338241895; 666307205; 773529912; 1294757372; 1396182291;
   1695183700; 1986661051; 2177026350; 2456956037; 2730485921; 2820302411;
   3259730800; 3345764771; 3516065817; 3600352804; 4094571909; 275423344;
   430227734; 506948616; 659060556; 883997877; 958139571; 1322822218;
   1537002063; 1747873779; 1955562222; 2024104815; 2227730452; 2361852424;
   2428436474; 2756734187; 3204031479; 3329325298].

(** [w[i] = read32be(block + i * 4)]. *)
Definition sha_load (block : bytes) (i : nat) (w : list Z) : option (list Z) :=
  v ← read32be (drop (i * 4) block); Some (<[i := v]> w).
(** [w[i] = w[i-16] + s0 + w[i-7] + s1]. *)
Definition sha_expand (w : list Z) (i : nat) : list Z :=
  let x := at_ w (i - 15) in
  let s0 := Z.lxor (Z.lxor (rotr32 x 7) (rotr32 x 18)) (Z.shiftr x 3) in
  let y := at_ w (i - 2) in
  let s1 := Z.lxor (Z.lxor (rotr32 y 17) (rotr32 y 19)) (Z.shiftr y 10) in
  <[i := u32 (u32 (u32 (at_ w (i - 16) + s0) + at_ w (i - 7)) + s1)]> w.
Definition sha_schedule (block : bytes) : option (list Z) :=
  w ← for_each (seq 0 16) (sha_load block) (replicate 64 0);
  Some (foldl sha_expand w (seq 16 48)).

(** The variables [a] to [h] of a round. *)
Record Vars := mkVars { va : Z; vb : Z; vc : Z; vd : Z; ve : Z; vf : Z; vg : Z; vhh : Z }.

Definition sha_round (w : list Z) (s : Vars) (i : nat) : Vars :=
  let '(mkVars a b c d e f g hh) := s in
  let S1 := Z.lxor (Z.lxor (rotr32 e 6) (rotr32 e 11)) (rotr32 e 25) in
  let ch := Z.lxor (Z.land e f) (Z.land (u32 (Z.lnot e)) g) in
  let t1 := u32 (u32 (u32 (u32 (hh + S1) + ch) + at_ K256 i) + at_ w i) in
  let S0 := Z.lxor (Z.lxor (rotr32 a 2) (rotr32 a 13)) (rotr32 a 22) in
  let maj := Z.lxor (Z.lxor (Z.land a b) (Z.land a c)) (Z.land b c) in
  let t2 := u32 (S0 + maj) in
  mkVars (u32 (t1 + t2)) a b c (u32 (d + t1)) e f g.

Definition sha256_compress (block : bytes) (h : list Z) : option (list Z) :=
  w ← sha_schedule block;
  let s := mkVars (at_ h 0) (at_ h 1) (at_ h 2) (at_ h 3)
                  (at_ h 4) (at_ h 5) (at_ h 6) (at_ h 7) in
  let s := foldl (sha_round w) s (seq 0 64) in
  Some [u32 (at_ h 0 + va s); u32 (at_ h 1 + vb s); u32 (at_ h 2 + vc s);
        u32 (at_ h 3 + vd s); u32 (at_ h 4 + ve s); u32 (at_ h 5 + vf s);
        u32 (at_ h 6 + vg s); u32 (at_ h 7 + vhh s)].

Definition sha_iv : list Z :=
  [0x6a09e667; 0xbb67ae85; 0x3c6ef372; 0xa54ff53a; 0x510e527f; 0x9b05688c; 0x1f83d9ab;
   0x5be0cd19].

(** The array [tail], with [n] bytes left at [p] of a message of [size]. *)
Definition sha_tail (p : bytes) (n : Z) (size : Z) : option (bytes * Z) :=
  let tail := zeros 128 in
  tail ← (if negb (n =? 0) then memcpy tail p n else Some tail);
  let tail := <[Z.to_nat n := Byte.x80]> tail in
  let used := if n <? 56 then 64 else 128 in
  let bits := u64 (size * 8) in
  Some (foldl (fun tail i => <[(Z.to_nat used - 1 - i)%nat :=
                                 low_byte (Z.shiftr bits (Z.of_nat i * 8))]> tail)
              tail (seq 0 8), used).

Definition sha256 (data : bytes) : option bytes :=
  '(h, p, n) ← while (S (length data)) (fun '(h, p, n) => 64 <=? n)
    (fun '(h, p, n) => h ← sha256_compress p h; Some (h, drop 64 p, n - 64))
    (sha_iv, data, zlen data);
  '(tail, used) ← sha_tail p n (zlen data);
  h ← sha256_compress tail h;
  h ← (if used =? 128 then sha256_compress (drop 64 tail) h else Some h);
  Some (foldl (fun out i => write32be out (i * 4) (at_ h i)) (zeros 32) (seq 0 8)).

(** ** BLAKE2b *)

Definition B2IV : list Z :=
  [0x6a09e667f3bcc908; 0xbb67ae8584caa73b; 0x3c6ef372fe94f82b; 0xa54ff53a5f1d36f1;
   0x510e527fade682d1; 0x9b05688c2b3e6c1f; 0x1f83d9abfb41bd6b; 0x5be0cd19137e2179].

Definition SIGMA : list (list nat) :=
  [[0%nat; 1%nat; 2%nat; 3%nat; 4%nat; 5%nat; 6%nat; 7%nat; 8%nat; 9%nat; 10%nat; 11%nat; 12%nat; 13%nat; 14%nat; 15%nat];
   [14%nat; 10%nat; 4%nat; 8%nat; 9%nat; 15%nat; 13%nat; 6%nat; 1%nat; 12%nat; 0%nat; 2%nat; 11%nat; 7%nat; 5%nat; 3%nat];
   [11%nat; 8%nat; 12%nat; 0%nat; 5%nat; 2%nat; 15%nat; 13%nat; 10%nat; 14%nat; 3%nat; 6%nat; 7%nat; 1%nat; 9%nat; 4%nat];
   [7%nat; 9%nat; 3%nat; 1%nat; 13%nat; 12%nat; 11%nat; 14%nat; 2%nat; 6%nat; 5%nat; 10%nat; 4%nat; 0%nat; 15%nat; 8%nat];
   [9%nat; 0%nat; 5%nat; 7%nat; 2%nat; 4%nat; 10%nat; 15%nat; 14%nat; 1%nat; 11%nat; 12%nat; 6%nat; 8%nat; 3%nat; 13%nat];
   [2%nat; 12%nat; 6%nat; 10%nat; 0%nat; 11%nat; 8%nat; 3%nat; 4%nat; 13%nat; 7%nat; 5%nat; 15%nat; 14%nat; 1%nat; 9%nat];
   [12%nat; 5%nat; 1%nat; 15%nat; 14%nat; 13%nat; 4%nat; 10%nat; 0%nat; 7%nat; 6%nat; 3%nat; 9%nat; 2%nat; 8%nat; 11%nat];
   [13%nat; 11%nat; 7%nat; 14%nat; 12%nat; 1%nat; 3%nat; 9%nat; 5%nat; 0%nat; 15%nat; 4%nat; 8%nat; 6%nat; 2%nat; 10%nat];
   [6%nat; 15%nat; 14%nat; 9%nat; 11%nat; 3%nat; 0%nat; 8%nat; 12%nat; 2%nat; 13%nat; 7%nat; 1%nat; 4%nat; 10%nat; 5%nat];
   [10%nat; 2%nat; 8%nat; 4%nat; 7%nat; 6%nat; 1%nat; 5%nat; 15%nat; 11%nat; 9%nat; 14%nat; 3%nat; 12%nat; 13%nat; 0%nat];
   [0%nat; 1%nat; 2%nat; 3%nat; 4%nat; 5%nat; 6%nat; 7%nat; 8%nat; 9%nat; 10%nat; 11%nat; 12%nat; 13%nat; 14%nat; 15%nat];
   [14%nat; 10%nat; 4%nat; 8%nat; 9%nat; 15%nat; 13%nat; 6%nat; 1%nat; 12%nat; 0%nat; 2%nat; 11%nat; 7%nat; 5%nat; 3%nat]].

(** The lambda [G]: four elements of [v] change, one after the other. *)
Definition blake_G (a b c d : nat) (x y : Z) (v : list Z) : list Z :=
  let v := <[a := u64 (u64 (at_ v a + at_ v b) + x)]> v in
  let v := <[d := rotr64 (Z.lxor (at_ v d) (at_ v a)) 32]> v in
  let v := <[c := u64 (at_ v c + at_ v d)]> v in
  let v := <[b := rotr64 (Z.lxor (at_ v b) (at_ v c)) 24]> v in
  let v := <[a := u64 (u64 (at_ v a + at_ v b) + y)]> v in
  let v := <[d := rotr64 (Z.lxor (at_ v d) (at_ v a)) 16]> v in
  let v := <[c := u64 (at_ v c + at_ v d)]> v in
  <[b := rotr64 (Z.lxor (at_ v b) (at_ v c)) 63]> v.

Definition blake_round (m v : list Z) (r : nat) : list Z :=
  let s := nth r SIGMA [] in
  let ms k := at_ m (nth k s O) in
  let v := blake_G 0 4 8 12 (ms 0%nat) (ms 1%nat) v in
  let v := blake_G 1 5 9 13 (ms 2%nat) (ms 3%nat) v in
  let v := blake_G 2 6 10 14 (ms 4%nat) (ms 5%nat) v in
  let v := blake_G 3 7 11 15 (ms 6%nat) (ms 7%nat) v in
  let v := blake_G 0 5 10 15 (ms 8%nat) (ms 9%nat) v in
  let v := blake_G 1 6 11 12 (ms 10%nat) (ms 11%nat) v in
  let v := blake_G 2 7 8 13 (ms 12%nat) (ms 13%nat) v in
  blake_G 3 4 9 14 (ms 14%nat) (ms 15%nat) v.

(** [m[i] = read64le(block + i * 8)]. *)
Definition blake_load (block : bytes) (i : nat) (m : list Z) : option (list Z) :=
  v ← read64le (drop (i * 8) block); Some (<[i := v]> m).

Definition blake2b_compress (block : bytes) (t0 t1 : Z) (last : bool) (h : list Z) :
    option (list Z) :=
  m ← for_each (seq 0 16) (blake_load block) (replicate 16 0);
  let v := foldl (fun v i => <[(i + 8)%nat := at_ B2IV i]> (<[i := at_ h i]> v))
                 (replicate 16 0) (seq 0 8) in
  let v := <[12%nat := Z.lxor (at_ v 12) t0]> v in
  let v := <[13%nat := Z.lxor (at_ v 13) t1]> v in
  let v := if last then <[14%nat := u64 (Z.lnot (at_ v 14))]> v else v in
  let v := foldl (blake_round m) v (seq 0 12) in
  Some (foldl (fun h i => <[i := Z.lxor (at_ h i) (Z.lxor (at_ v i) (at_ v (i + 8)))]> h)
              h (seq 0 8)).

(** The count of bytes: [t0 += n; if (t0 < old) ++t1]. *)
Definition count_up (t : Z * Z) (n : Z) : Z * Z :=
  let '(t0, t1) := t in
  let old := t0 in
  let t0 := u64 (t0 + n) in
  (t0, if t0 <? old then u64 (t1 + 1) else t1).

(** One round of [while (n > 128)], without the moves of the cursor. *)
Definition blake_step (p : bytes) (s : list Z * (Z * Z)) : option (list Z * (Z * Z)) :=
  let '(h, t) := s in
  let t := count_up t 128 in
  h ← blake2b_compress p t.1 t.2 false h; Some (h, t).

Definition blake2b_256 (data : bytes) : option bytes :=
  let h := <[0%nat := Z.lxor (at_ B2IV 0) 0x01010020]> B2IV in
  '(h, t, p, n) ← while (S (length data)) (fun '(s, p, n) => 128 <? n)
    (fun '(s, p, n) => s ← blake_step p s; Some (s, drop 128 p, n - 128))
    (h, (0, 0), data, zlen data);
  last ← (if negb (n =? 0) then memcpy (zeros 128) p n else Some (zeros 128));
  let t := count_up t n in
  h ← blake2b_compress last t.1 t.2 true h;
  Some (foldl (fun out i => write64le out (i * 8) (at_ h i)) (zeros 32) (seq 0 4)).

(** ** Words read and written *)

Lemma rotl64_rot x r : 0 <= r <= 64 -> in_width 64 x -> rotl64 x r = rot 64 (64 - r) x.
Proof.
  intros. rewrite <-rot_shifts by (done || lia). unfold rotl64. rewrite Z.lor_comm.
  by replace (64 - (64 - r)) with r by lia.
Qed.
Lemma rotr32_rot x r : 0 <= r <= 32 -> in_width 32 x -> rotr32 x r = rot 32 r x.
Proof. intros. by rewrite <-rot_shifts by (done || lia). Qed.
Lemma rotr64_rot x r : 0 <= r <= 64 -> in_width 64 x -> rotr64 x r = rot 64 r x.
Proof. intros. by rewrite <-rot_shifts by (done || lia). Qed.

Lemma deref_some p i : (i < length p)%nat -> exists b, p !! i = Some b /\ deref p i = Some (byte.unsigned b).
Proof.
  intros Hi. destruct (lookup_lt_is_Some_2 p i Hi) as [b Hb]. exists b. split; [done|].
  unfold deref. by rewrite Hb.
Qed.

Lemma readle_combine n p : (n <= length p)%nat -> readle n p = Some (le_combine (take n p)).
Proof.
  unfold readle. induction n as [|n IH]; intros Hn; [done|].
  rewrite seq_S, for_each_app, IH by lia. cbn [mbind option_bind for_each Nat.add].
  destruct (deref_some p n) as (b & Hb & ->); [lia|]. cbn [mbind option_bind for_each].
  rewrite (take_S_r _ _ _ Hb), le_combine_app, le_combine_1.
  do 3 f_equal. rewrite length_take. lia.
Qed.

Lemma read64le_combine p : 8 <= zlen p -> read64le p = Some (le_combine (take 8 p)).
Proof. intros. apply readle_combine. unfold zlen in *. lia. Qed.
Lemma read32le_combine p : 4 <= zlen p -> read32le p = Some (le_combine (take 4 p)).
Proof. intros. apply readle_combine. unfold zlen in *. lia. Qed.

Lemma read32be_combine p : 4 <= zlen p -> read32be p = Some (be_combine (take 4 p)).
Proof.
  intros Hp. unfold zlen in Hp.
  destruct p as [|b0 [|b1 [|b2 [|b3 p]]]]; cbn [length] in Hp; try lia.
  change (Some (Z.lor (Z.lor (Z.lor (Z.shiftl (byte.unsigned b0) 24)
    (Z.shiftl (byte.unsigned b1) 16)) (Z.shiftl (byte.unsigned b2) 8)) (byte.unsigned b3))
    = Some (le_combine [b3; b2; b1; b0])).
  cbv [le_combine]. f_equal.
  rewrite !Z.shiftl_lor, !Z.shiftl_shiftl, Z.shiftl_0_l, Z.lor_0_r by lia.
  apply Z.bits_inj. intros i. rewrite !Z.lor_spec.
  change (8 + 8 + 8) with 24. change (8 + 8) with 16.
  destruct (Z.testbit (byte.unsigned b3) i), (Z.testbit (Z.shiftl (byte.unsigned b2) 8) i),
    (Z.testbit (Z.shiftl (byte.unsigned b1) 16) i); by rewrite ?orb_true_r, ?orb_false_r.
Qed.

Lemma le_combine_width8 p n : in_width (8 * Z.of_nat n) (le_combine (take n p)).
Proof.
  pose proof (le_combine_bound (take n p)) as Hb. unfold in_width.
  assert (2 ^ (8 * Z.of_nat (length (take n p))) <= 2 ^ (8 * Z.of_nat n))
    by (apply Z.pow_le_mono_r; rewrite ?length_take; lia).
  lia.
Qed.

Lemma low_byte_of_Z v : low_byte v = byte.of_Z v.
Proof. apply byte_of_land. Qed.
Lemma be_split4 v :
  be_split 4 v = [low_byte (Z.shiftr v 24); low_byte (Z.shiftr v 16);
                  low_byte (Z.shiftr v 8); low_byte v].
Proof.
  unfold be_split. cbv [le_split rev app]. by rewrite !Z.shiftr_shiftr, !low_byte_of_Z by lia.
Qed.
Lemma le_split8 v :
  le_split 8 v = (fun i => low_byte (Z.shiftr v (Z.of_nat i * 8))) <$> seq 0 8.
Proof.
  cbv [le_split seq fmap list_fmap].
  by rewrite !Z.shiftr_shiftr, !low_byte_of_Z, Z.shiftr_0_r by lia.
Qed.

Lemma nth_width w l i : Forall (in_width w) l -> 0 <= w -> in_width w (nth i l 0).
Proof.
  intros Hl Hw. destruct (nth_in_or_default i l 0) as [Hin| ->].
  - rewrite list.Forall_forall in Hl. by apply Hl, list_elem_of_In.
  - unfold in_width. pose proof (Z.pow_pos_nonneg 2 w). lia.
Qed.
Lemma at_insert w i j v :
  (i < length w)%nat -> at_ (<[i := v]> w) j = if decide (j = i) then v else at_ w j.
Proof.
  intros Hi. unfold at_. rewrite !nth_lookup. case_decide as Hd.
  - subst. by rewrite list_lookup_insert_eq.
  - by rewrite list_lookup_insert_ne.
Qed.

Lemma splice_zeros n (p : bytes) :
  zlen p <= n -> splice (zeros n) 0 p = p ++ zeros (n - zlen p).
Proof.
  intros Hp. unfold splice, zeros. change (Z.to_nat 0) with 0%nat.
  rewrite take_0, drop_replicate. cbn [app Nat.add]. do 2 f_equal. unfold zlen. lia.
Qed.

(** A buffer of [size] zeros with the bytes of [p] copied into it. *)
Lemma copy_rest (p q : bytes) size :
  zlen p <= size ->
  (if negb (zlen p =? 0) then memcpy (zeros size) (p ++ q) (zlen p) else Some (zeros size))
  = Some (p ++ zeros (size - zlen p)).
Proof.
  intros Hp. pose proof (zlen_nonneg p). pose proof (zlen_nonneg q). destruct (Z.eqb_spec (zlen p) 0) as [E|_]; cbn [negb].
  - assert (p = []) as -> by (apply nil_length_inv; unfold zlen in E; lia).
    change (zlen (@nil byte)) with 0. by rewrite Z.sub_0_r.
  - unfold memcpy. rewrite zlen_app, zlen_zeros by lia.
    rewrite !(proj2 (Z.leb_le _ _)) by lia. cbn [andb].
    rewrite take_app_length', splice_zeros by (unfold zlen in *; lia). done.
Qed.
