(* ===== verification/Xxhash.v ===== *)
(** xxHash64 against its specification.

    The reference below follows the published description: four accumulators
    that each digest their own lane of all stripes, their convergence, the
    words, the half word and the bytes that remain, and the final mix.  The
    code interleaves the lanes, moves a cursor and counts down. *)
From S2P Require Import Prelude Words Endian Hash.
From coqutil Require Import Word.LittleEndianList.

(** ** The reference *)

Section Reference.

(** Arithmetic of the specification is modulo [2 ^ 64]. *)
Let add a b := (a + b) mod 2 ^ 64.
Let mul a b := (a * b) mod 2 ^ 64.
Let rotate_left a r := rot 64 (64 - r) a.

Definition spec_round (acc lane : Z) : Z :=
  mul (rotate_left (add acc (mul lane XXH_PRIME64_2)) 31) XXH_PRIME64_1.

(** Lane [j] of a stripe of 32 bytes. *)
Definition lane (j : Z) (stripe : bytes) : Z := le_combine (slice stripe (8 * j) 8).
Definition spec_lane (stripes : list bytes) (init j : Z) : Z :=
  foldl spec_round init (lane j <$> stripes).

Definition merge_accumulator (acc accN : Z) : Z :=
  add (mul (Z.lxor acc (spec_round 0 accN)) XXH_PRIME64_1) XXH_PRIME64_4.

Definition converge (a1 a2 a3 a4 : Z) : Z :=
  foldl merge_accumulator
    (add (add (add (rotate_left a1 1) (rotate_left a2 7)) (rotate_left a3 12))
         (rotate_left a4 18))
    [a1; a2; a3; a4].

Definition spec_word (acc : Z) (w : bytes) : Z :=
  add (mul (rotate_left (Z.lxor acc (spec_round 0 (le_combine w))) 27) XXH_PRIME64_1)
      XXH_PRIME64_4.
Definition spec_half (acc : Z) (w : bytes) : Z :=
  add (mul (rotate_left (Z.lxor acc (mul (le_combine w) XXH_PRIME64_1)) 23) XXH_PRIME64_2)
      XXH_PRIME64_3.
Definition spec_byte (acc : Z) (b : byte) : Z :=
  mul (rotate_left (Z.lxor acc (mul (byte.unsigned b) XXH_PRIME64_5)) 11) XXH_PRIME64_1.

Definition spec_mix (acc : Z) : Z :=
  let acc := mul (Z.lxor acc (acc / 2 ^ 33)) XXH_PRIME64_2 in
  let acc := mul (Z.lxor acc (acc / 2 ^ 29)) XXH_PRIME64_3 in
  Z.lxor acc (acc / 2 ^ 32).

Definition xxh64_reference (data : bytes) (seed : Z) : Z :=
  let n := zlen data in
  let stripes := blocks 32 (n / 32) data in
  let acc :=
    if n <? 32 then add seed XXH_PRIME64_5
    else converge (spec_lane stripes (add (add seed XXH_PRIME64_1) XXH_PRIME64_2) 0)
                  (spec_lane stripes (add seed XXH_PRIME64_2) 1)
                  (spec_lane stripes seed 2)
                  (spec_lane stripes (add seed (- XXH_PRIME64_1)) 3) in
  let acc := add acc n in
  let acc := foldl spec_word acc
               (blocks 8 (n mod 32 / 8) (drop (Z.to_nat (n - n mod 32)) data)) in
  let rest := drop (Z.to_nat (n - n mod 8)) data in
  let acc := if n mod 8 <? 4 then acc else spec_half acc (take 4 rest) in
  spec_mix (foldl spec_byte acc (drop (if n mod 8 <? 4 then 0 else 4) rest)).
End Reference.

(** ** The steps *)

Lemma xxh_round_spec acc input : xxh_round acc input = spec_round acc input.
Proof.
  unfold xxh_round. rewrite rotl64_rot by (try lia; by apply wrap_width). done.
Qed.

Lemma xxh_merge_spec acc val : xxh_merge acc val = merge_accumulator acc val.
Proof. unfold xxh_merge. by rewrite xxh_round_spec. Qed.

Lemma spec_round_width acc l : in_width 64 (spec_round acc l).
Proof. by apply wrap_width. Qed.

Definition stripe_round (v : Z * Z * Z * Z) (s : bytes) : Z * Z * Z * Z :=
  let '(v1, v2, v3, v4) := v in
  (spec_round v1 (lane 0 s), spec_round v2 (lane 1 s),
   spec_round v3 (lane 2 s), spec_round v4 (lane 3 s)).

Definition quad_width (v : Z * Z * Z * Z) : Prop :=
  let '(v1, v2, v3, v4) := v in
  in_width 64 v1 /\ in_width 64 v2 /\ in_width 64 v3 /\ in_width 64 v4.

Lemma xxh_stripe_spec p v :
  32 <= zlen p -> xxh_stripe p v = Some (stripe_round v (take 32 p)).
Proof.
  intros Hp. destruct v as [[[v1 v2] v3] v4]. unfold xxh_stripe.
  unfold zlen in Hp.
  rewrite !read64le_combine by (unfold zlen; rewrite ?length_drop; lia).
  cbn [mbind option_bind]. rewrite !xxh_round_spec. unfold stripe_round, lane.
  by rewrite !slice_take by lia.
Qed.

(** The interleaved loop is four independent ones. *)
Lemma stripes_lanes l v1 v2 v3 v4 :
  foldl stripe_round (v1, v2, v3, v4) l
  = (spec_lane l v1 0, spec_lane l v2 1, spec_lane l v3 2, spec_lane l v4 3).
Proof. revert v1 v2 v3 v4. induction l as [|s l IH]; intros; [done|]. apply IH. Qed.

Lemma xxh_stripes_spec fuel seed p :
  (length p < fuel)%nat -> in_width 64 seed ->
  let l := blocks 32 (zlen p / 32) p in
  let v := (spec_lane l (((seed + XXH_PRIME64_1) mod 2 ^ 64 + XXH_PRIME64_2) mod 2 ^ 64) 0,
            spec_lane l ((seed + XXH_PRIME64_2) mod 2 ^ 64) 1, spec_lane l seed 2,
            spec_lane l ((seed + - XXH_PRIME64_1) mod 2 ^ 64) 3) in
  xxh_stripes fuel seed p
  = Some (v, drop (Z.to_nat (zlen p - zlen p mod 32)) p, zlen p mod 32) /\ quad_width v.
Proof.
  intros Hf Hs. cbv zeta. rewrite <-stripes_lanes. unfold xxh_stripes.
  apply (while_div 32 xxh_stripe stripe_round quad_width); [lia|done| |].
  - intros s q _ Hq. split; [by apply xxh_stripe_spec|].
    destruct s as [[[]]]. by split_and!; apply spec_round_width.
  - split_and!; try done; by apply wrap_width.
Qed.

Lemma xxh_long_spec a1 a2 a3 a4 :
  quad_width (a1, a2, a3, a4) -> xxh_long (a1, a2, a3, a4) = converge a1 a2 a3 a4.
Proof.
  intros (? & ? & ? & ?). unfold xxh_long. rewrite !xxh_merge_spec, !rotl64_rot by (lia || done).
  unfold converge, wrap. cbn [foldl]. reflexivity.
Qed.

Lemma xxh_word_spec p h :
  in_width 64 h -> 8 <= zlen p -> xxh_word p h = Some (spec_word h (take 8 p)).
Proof.
  intros Hh Hp. unfold xxh_word. rewrite read64le_combine by done.
  cbn [mbind option_bind]. rewrite xxh_round_spec, rotl64_rot; [done|lia|].
  apply lxor_width; [lia|done|apply spec_round_width].
Qed.

Lemma xxh_words_spec fuel h p :
  (length p < fuel)%nat -> in_width 64 h ->
  let h' := foldl spec_word h (blocks 8 (zlen p / 8) p) in
  xxh_words fuel h p (zlen p)
  = Some (h', drop (Z.to_nat (zlen p - zlen p mod 8)) p, zlen p mod 8) /\ in_width 64 h'.
Proof.
  intros Hf Hh. apply (while_div 8 xxh_word spec_word (in_width 64)); [lia|done| |done].
  intros s q Hs Hq. split; [by apply xxh_word_spec|by apply wrap_width].
Qed.

Lemma xxh_half_spec h p :
  in_width 64 h ->
  xxh_half h p (zlen p)
  = Some (if zlen p <? 4 then h else spec_half h (take 4 p),
          drop (if zlen p <? 4 then 0 else 4) p, zlen (drop (if zlen p <? 4 then 0 else 4) p))
  /\ in_width 64 (if zlen p <? 4 then h else spec_half h (take 4 p)).
Proof.
  intros Hh. unfold xxh_half.
  destruct (Z.leb_spec 4 (zlen p)); destruct (Z.ltb_spec (zlen p) 4); try lia; [|by rewrite drop_0].
  rewrite read32le_combine by done. cbn [mbind option_bind].
  rewrite rotl64_rot; [|lia|by apply lxor_width; [lia|done|apply wrap_width]].
  split; [|by apply wrap_width]. do 2 f_equal. unfold zlen. rewrite length_drop. unfold zlen in *. lia.
Qed.

Lemma xxh_tail_spec fuel h p :
  (length p < fuel)%nat -> in_width 64 h ->
  xxh_tail fuel h p (zlen p) = Some (foldl spec_byte h p, [], 0).
Proof.
  revert h p. induction fuel as [|fuel IH]; intros h p Hf Hh; [lia|].
  unfold xxh_tail. cbn [while]. destruct p as [|b p]; [done|].
  destruct (Z.eqb_spec (zlen (b :: p)) 0) as [E|_]; [unfold zlen in E; cbn in E; lia|].
  cbn [negb]. unfold xxh_byte, deref. cbn [lookup list_lookup fmap option_fmap option_map mbind option_bind].
  replace (zlen (b :: p) - 1) with (zlen p) by (rewrite zlen_cons; lia).
  rewrite rotl64_rot; [|lia|by apply lxor_width; [lia|done|apply wrap_width]].
  cbn [drop foldl]. rewrite drop_0. apply IH; [cbn [length] in Hf; lia|by apply wrap_width].
Qed.

Lemma xxh_avalanche_spec h : xxh_avalanche h = spec_mix h.
Proof. unfold xxh_avalanche. by rewrite !Z.shiftr_div_pow2 by lia. Qed.

Lemma rest_rest (p : bytes) :
  let p1 := drop (Z.to_nat (zlen p - zlen p mod 32)) p in
  drop (Z.to_nat (zlen p1 - zlen p1 mod 8)) p1 = drop (Z.to_nat (zlen p - zlen p mod 8)) p.
Proof.
  cbv zeta. rewrite zlen_rest, drop_drop by lia. f_equal. pose proof (zlen_nonneg p).
  assert (E : (zlen p mod 32) mod 8 = zlen p mod 8) by (apply Z.mod_mod_divide; by exists 4).
  rewrite E. pose proof (Z.mod_pos_bound (zlen p) 32). pose proof (Z.mod_pos_bound (zlen p) 8).
  pose proof (Z.mod_le (zlen p) 32). pose proof (Z.mod_le (zlen p mod 32) 8). lia.
Qed.

(** The part of [xxhash64] behind the stripes. *)
Lemma xxh_finish fuel acc p :
  (length p < fuel)%nat -> in_width 64 acc ->
  (r ← xxh_words fuel acc p (zlen p);
   let '(h, p, remaining) := r in
   r ← xxh_half h p remaining;
   let '(h, p, remaining) := r in
   r ← xxh_tail fuel h p remaining;
   let '(h, p, remaining) := r in Some (xxh_avalanche h))
  = let n := zlen p in
    let acc := foldl spec_word acc (blocks 8 (n / 8) p) in
    let rest := drop (Z.to_nat (n - n mod 8)) p in
    let acc := if n mod 8 <? 4 then acc else spec_half acc (take 4 rest) in
    Some (spec_mix (foldl spec_byte acc (drop (if n mod 8 <? 4 then 0 else 4) rest))).
Proof.
  intros Hf Ha. destruct (xxh_words_spec fuel acc p Hf Ha) as [-> Hw]. cbv zeta in Hw |- *.
  cbn [mbind option_bind].
  pose proof (zlen_rest 8 p ltac:(lia)) as Hq. remember (drop _ p) as q eqn:Eq. rewrite <-!Hq.
  destruct (xxh_half_spec (foldl spec_word acc (blocks 8 (zlen p / 8) p)) q Hw) as [-> Hh].
  cbn [mbind option_bind]. rewrite xxh_tail_spec; [|rewrite Eq, !length_drop; lia|exact Hh].
  cbn [mbind option_bind]. by rewrite xxh_avalanche_spec.
Qed.

(** Xxhash64 with any seed. *)
Lemma xxhash64_eq (data : bytes) (seed : Z) (Hseed : in_width 64 seed) :
  xxhash64 data seed = Some (xxh64_reference data seed).
Proof.
  unfold xxhash64, xxh64_reference. pose proof (rest_rest data) as Hrest. cbv zeta in Hrest |- *.
  pose proof (zlen_nonneg data).
  destruct (Z.leb_spec 32 (zlen data)), (Z.ltb_spec (zlen data) 32); try lia.
  - destruct (xxh_stripes_spec (S (length data)) seed data) as [-> Hv]; [lia|done|].
    cbn [mbind option_bind]. rewrite xxh_long_spec by done.
    pose proof (zlen_rest 32 data ltac:(lia)) as Hz. remember (drop _ data) as p eqn:Ep in Hz, Hrest |- *.
    rewrite <-Hz. etrans; [apply xxh_finish; [rewrite Ep, length_drop; lia|by apply wrap_width]|].
    cbv zeta. rewrite Hrest, Hz.
    rewrite (Z.mod_mod_divide (zlen data) 32 8) by (by exists 4). reflexivity.
  - cbn [mbind option_bind].
    etrans; [apply xxh_finish; [lia|by apply wrap_width]|].
    cbv zeta. rewrite (Z.mod_small (zlen data) 32), Z.sub_diag by lia. reflexivity.
Qed.

(** For all data and every seed [xxhash64] stops, reads nothing outside
    the data, and returns what the specification of XXH64 defines: the loop
    over stripes digests the four lanes as if each ran alone, and the cursor
    leaves exactly the words, the half word and the bytes of the tail. *)
Theorem xxhash64_meets_specification (data : bytes) (seed : Z) (Hseed : in_width 64 seed) :
  xxhash64 data seed = Some (xxh64_reference data seed).
Proof. exact (xxhash64_eq data seed Hseed). Qed.

Lemma xxhash64_meets_specification_witness :
  in_width 64 0 /\ xxhash64 [Byte.x61; Byte.x62; Byte.x63] 0 = Some 0x44bc2cf5ad770999.
Proof.
  split; [done|].
  exact (eq_trans (xxhash64_meets_specification [Byte.x61; Byte.x62; Byte.x63] 0
                     (conj (Z.le_refl 0) eq_refl)) ltac:(vm_compute; reflexivity)).
Defined.
