(* ===== verification/Sha256.v ===== *)
(** SHA-256 against FIPS 180-4.

    The reference pads the whole message and digests its blocks; its message
    schedule is the recurrence, kept newest word first.  The code digests the
    blocks in place and builds the last one or two in a buffer. *)
From S2P Require Import Prelude Words Endian Hash.
From coqutil Require Import Word.LittleEndianList.

(** ** The reference *)

Section Reference.
Let add a b := (a + b) mod 2 ^ 32.
Let ROTR n x := rot 32 n x.
Let SHR n x := x / 2 ^ n.

Definition Ch x y z := Z.lxor (Z.land x y) (Z.ldiff z x).
Definition Maj x y z := Z.lxor (Z.lxor (Z.land x y) (Z.land x z)) (Z.land y z).
Definition Sigma0 x := Z.lxor (Z.lxor (ROTR 2 x) (ROTR 13 x)) (ROTR 22 x).
Definition Sigma1 x := Z.lxor (Z.lxor (ROTR 6 x) (ROTR 11 x)) (ROTR 25 x).
Definition sigma0 x := Z.lxor (Z.lxor (ROTR 7 x) (ROTR 18 x)) (SHR 3 x).
Definition sigma1 x := Z.lxor (Z.lxor (ROTR 17 x) (ROTR 19 x)) (SHR 10 x).

(** [W_0 ... W_(n-1)] of the block [M], the last word first. *)
Fixpoint schedule (M : bytes) (n : nat) : list Z :=
  match n with
  | O => []
  | S t =>
      let W := schedule M t in
      (if (t <? 16)%nat then be_combine (slice M (4 * Z.of_nat t) 4)
       else add (add (add (sigma1 (nth 1 W 0)) (nth 6 W 0)) (sigma0 (nth 14 W 0)))
                (nth 15 W 0)) :: W
  end.

Definition fips_round (W : list Z) (s : Vars) (t : nat) : Vars :=
  let T1 := add (add (add (add (vhh s) (Sigma1 (ve s))) (Ch (ve s) (vf s) (vg s)))
                     (nth t K256 0)) (nth t (rev W) 0) in
  let T2 := add (Sigma0 (va s)) (Maj (va s) (vb s) (vc s)) in
  mkVars (add T1 T2) (va s) (vb s) (vc s) (add (vd s) T1) (ve s) (vf s) (vg s).

Definition fips_compress (H : list Z) (M : bytes) : list Z :=
  match H with
  | [a; b; c; d; e; f; g; h] =>
      let s := foldl (fips_round (schedule M 64)) (mkVars a b c d e f g h) (seq 0 64) in
      zip_with add H [va s; vb s; vc s; vd s; ve s; vf s; vg s; vhh s]
  | _ => H
  end.

(** A one bit, zeros up to 448 bits modulo 512, and the length in bits. *)
Definition fips_pad (data : bytes) : bytes :=
  data ++ [Byte.x80] ++ zeros ((55 - zlen data) mod 64) ++ be_split 8 (8 * zlen data).

Definition sha256_reference (data : bytes) : bytes :=
  let m := fips_pad data in
  concat (be_split 4 <$> foldl fips_compress sha_iv (blocks 64 (zlen m / 64) m)).
End Reference.

(** ** Compression *)

Definition words32 (h : list Z) : Prop := length h = 8%nat /\ Forall (in_width 32) h.
Definition vars32 (s : Vars) : Prop :=
  in_width 32 (va s) /\ in_width 32 (vb s) /\ in_width 32 (vc s) /\ in_width 32 (vd s) /\
  in_width 32 (ve s) /\ in_width 32 (vf s) /\ in_width 32 (vg s) /\ in_width 32 (vhh s).

Lemma be_combine_width p : in_width 32 (be_combine (slice p 0 4)) .
Proof.
  unfold be_combine, slice. pose proof (le_combine_bound (rev (take 4 p))) as Hb.
  rewrite length_rev in Hb. unfold in_width.
  assert (2 ^ (8 * Z.of_nat (length (take 4 p))) <= 2 ^ 32)
    by (apply Z.pow_le_mono_r; rewrite ?length_take; lia).
  change (take (Z.to_nat 4) (drop (Z.to_nat 0) p)) with (take 4 p). lia.
Qed.

Lemma be_slice_width p o : 0 <= o -> in_width 32 (be_combine (slice p o 4)).
Proof.
  intros Ho. replace (slice p o 4) with (slice (drop (Z.to_nat o) p) 0 4); [apply be_combine_width|].
  unfold slice. by rewrite drop_drop, Nat.add_0_r.
Qed.

Lemma schedule_width M n : Forall (in_width 32) (schedule M n).
Proof.
  induction n as [|n IH]; [by apply Forall_nil|]. cbn [schedule]. apply Forall_cons. split; [|done].
  destruct (n <? 16)%nat; [apply be_slice_width; lia|by apply (wrap_width 32)].
Qed.

Lemma length_schedule M n : length (schedule M n) = n.
Proof. induction n as [|n IH]; [done|]. cbn [schedule length]. by rewrite IH. Qed.

Lemma nth_schedule_width M n i : in_width 32 (nth i (schedule M n) 0).
Proof. apply nth_width; [apply schedule_width|lia]. Qed.

(** The array [w] holds the first [n] words. *)
Definition holds (M : bytes) (n : nat) (w : list Z) : Prop :=
  length w = 64%nat /\ forall j, (j < n)%nat -> at_ w j = nth (n - 1 - j) (schedule M n) 0.

Lemma holds_step M n w v :
  holds M n w -> (n < 64)%nat -> nth 0 (schedule M (S n)) 0 = v -> holds M (S n) (<[n := v]> w).
Proof.
  intros [Hl Hj] Hn Hv. split; [by rewrite length_insert|]. intros j Hlt.
  rewrite at_insert by lia. case_decide as Hd.
  - subst j. by replace (S n - 1 - n)%nat with 0%nat by lia.
  - rewrite Hj by lia. replace (S n - 1 - j)%nat with (S (n - 1 - j)) by lia. done.
Qed.

Lemma sha_load_holds M n w :
  64 <= zlen M -> (n < 16)%nat -> holds M n w ->
  exists w', sha_load M n w = Some w' /\ holds M (S n) w'.
Proof.
  intros HM Hn Hw. unfold sha_load. unfold zlen in HM.
  rewrite read32be_combine by (unfold zlen; rewrite length_drop; lia). cbn [mbind option_bind].
  eexists. split; [done|]. apply holds_step; [done|lia|]. cbn [schedule nth].
  destruct (Nat.ltb_spec n 16); [|lia]. unfold slice. do 3 f_equal; lia.
Qed.

Lemma sha_load_all M :
  64 <= zlen M ->
  exists w, for_each (seq 0 16) (sha_load M) (replicate 64 0) = Some w /\ holds M 16 w.
Proof.
  intros HM.
  enough (H : forall n, (n <= 16)%nat ->
    exists w, for_each (seq 0 n) (sha_load M) (replicate 64 0) = Some w /\ holds M n w)
    by by apply H.
  induction n as [|n IH]; intros Hn.
  - eexists. split; [done|]. split; [done|lia].
  - destruct IH as (w & E & Hw); [lia|]. rewrite seq_S, for_each_app, E. cbn [mbind option_bind for_each Nat.add].
    destruct (sha_load_holds M n w HM) as (w' & -> & Hw'); [lia|done|]. by exists w'.
Qed.

Lemma sha_expand_holds M n w :
  (16 <= n < 64)%nat -> holds M n w -> holds M (S n) (sha_expand w n).
Proof.
  intros Hn Hw. pose proof Hw as [Hl Hj]. unfold sha_expand. apply holds_step; [done|lia|].
  cbn [schedule nth]. destruct (Nat.ltb_spec n 16); [lia|].
  rewrite !Hj by lia.
  replace (n - 1 - (n - 15))%nat with 14%nat by lia.
  replace (n - 1 - (n - 2))%nat with 1%nat by lia.
  replace (n - 1 - (n - 16))%nat with 15%nat by lia.
  replace (n - 1 - (n - 7))%nat with 6%nat by lia.
  rewrite !rotr32_rot by (lia || apply nth_schedule_width). rewrite !Z.shiftr_div_pow2 by lia.
  fold (sigma0 (nth 14 (schedule M n) 0)) (sigma1 (nth 1 (schedule M n) 0)).
  unfold wrap. rewrite !Zplus_mod_idemp_l, <-!Z.add_assoc, !Zplus_mod_idemp_l. f_equal. lia.
Qed.

Lemma sha_schedule_holds M :
  64 <= zlen M -> exists w, sha_schedule M = Some w /\ holds M 64 w.
Proof.
  intros HM. unfold sha_schedule. destruct (sha_load_all M HM) as (w & -> & Hw).
  cbn [mbind option_bind]. eexists. split; [done|].
  enough (H : forall n, (n <= 48)%nat -> holds M (16 + n) (foldl sha_expand w (seq 16 n)))
    by by apply (H 48%nat).
  induction n as [|n IH]; intros Hn; [done|].
  rewrite seq_S, foldl_app. cbn [foldl]. rewrite Nat.add_succ_r.
  apply sha_expand_holds; [lia|]. apply IH. lia.
Qed.

Lemma sha_round_spec M w s i :
  holds M 64 w -> vars32 s -> (i < 64)%nat ->
  sha_round w s i = fips_round (schedule M 64) s i /\ vars32 (sha_round w s i).
Proof.
  intros [_ Hw] (Ha & Hb & Hc & Hd & He & Hf & Hg & Hh) Hi. destruct s as [a b c d e f g hh].
  cbn [va vb vc vd ve vf vg vhh] in *. unfold sha_round. split.
  - rewrite !rotr32_rot by (lia || done). unfold fips_round. cbn [va vb vc vd ve vf vg vhh].
    assert (Hch : Z.land (u32 (Z.lnot e)) g = Z.ldiff g e).
    { unfold wrap. rewrite <-Z.land_ones, <-Z.land_assoc, (Z.land_comm (Z.ones 32)), Z.land_ones by lia.
      rewrite Z.mod_small by done. rewrite Z.land_comm. symmetry. apply Z.ldiff_land. }
    rewrite Hch, Hw by lia. rewrite rev_nth, length_schedule by (rewrite length_schedule; lia).
    replace (64 - S i)%nat with (64 - 1 - i)%nat by lia. reflexivity.
  - repeat split; cbn [va vb vc vd ve vf vg vhh]; (apply (wrap_width 32); lia) || apply Ha || apply Hb
      || apply Hc || apply He || apply Hf || apply Hg.
Qed.

Lemma sha_rounds_spec M w s n :
  holds M 64 w -> vars32 s -> (n <= 64)%nat ->
  foldl (sha_round w) s (seq 0 n) = foldl (fips_round (schedule M 64)) s (seq 0 n) /\
  vars32 (foldl (sha_round w) s (seq 0 n)).
Proof.
  intros Hw Hs. induction n as [|n IH]; intros Hn; [done|].
  destruct IH as [E Hv]; [lia|]. rewrite seq_S, !foldl_app. cbn [foldl Nat.add]. rewrite <-E.
  apply sha_round_spec; [done|done|lia].
Qed.

Lemma schedule_slice M M' n : slice M 0 64 = slice M' 0 64 -> (n <= 64)%nat -> schedule M n = schedule M' n.
Proof.
  intros E Hn. induction n as [|n IH]; [done|]. cbn [schedule]. rewrite IH by lia.
  destruct (Nat.ltb_spec n 16); [|done].
  assert (E4 : forall q : bytes, slice q (4 * Z.of_nat n) 4 = slice (slice q 0 64) (4 * Z.of_nat n) 4)
    by (intros q; by rewrite slice_slice by lia).
  by rewrite (E4 M), (E4 M'), E.
Qed.

(** The code's compression is the standard's, on the next 64 bytes. *)
Lemma sha256_compress_spec p h :
  words32 h -> 64 <= zlen p ->
  sha256_compress p h = Some (fips_compress h (take 64 p)) /\ words32 (fips_compress h (take 64 p)).
Proof.
  intros [Hl Hh] Hp. unfold sha256_compress. destruct (sha_schedule_holds p Hp) as (w & -> & Hw).
  do 9 (destruct h as [|? h]; try discriminate Hl). clear Hl.
  rewrite !Forall_cons in Hh. destruct Hh as (? & ? & ? & ? & ? & ? & ? & ? & _).
  cbn [mbind option_bind at_ nth].
  set (s := mkVars _ _ _ _ _ _ _ _). assert (Hs : vars32 s) by done.
  destruct (sha_rounds_spec p w s 64 Hw Hs) as [E _]; [lia|]. rewrite E.
  unfold fips_compress. fold s.
  rewrite (schedule_slice (take 64 p) p 64) by (try lia; rewrite slice_take by lia; done).
  split; [done|]. split; [done|].
  repeat (apply Forall_cons; split; [apply (wrap_width 32); lia|]). by apply Forall_nil.
Qed.

(** ** Padding *)

(** The bytes behind the whole blocks: [p] of a message of [size] bytes. *)
Definition padded_rest (p : bytes) (size : Z) : bytes :=
  p ++ [Byte.x80] ++ zeros ((55 - zlen p) mod 64) ++ be_split 8 (8 * size).

Lemma zlen_be_split n v : zlen (be_split n v) = Z.of_nat n.
Proof. unfold be_split, zlen. rewrite length_rev, length_le_split. done. Qed.

Lemma pad_length n : 0 <= n < 64 ->
  n + 1 + (55 - n) mod 64 + 8 = if n <? 56 then 64 else 128.
Proof.
  intros Hn. destruct (Z.ltb_spec n 56).
  - rewrite Z.mod_small by lia. lia.
  - replace (55 - n) with (119 - n + -1 * 64) by lia.
    rewrite Z.mod_add, Z.mod_small by lia. lia.
Qed.

Lemma zlen_padded_rest p size :
  zlen p < 64 -> zlen (padded_rest p size) = if zlen p <? 56 then 64 else 128.
Proof.
  intros Hp. pose proof (zlen_nonneg p). pose proof (Z.mod_pos_bound (55 - zlen p) 64).
  unfold padded_rest. rewrite !zlen_app, zlen_zeros, zlen_be_split by lia.
  rewrite <-pad_length by lia. change (zlen [Byte.x80]) with 1. lia.
Qed.

(** The eight bytes of the length, written from the last to the first. *)
Lemma write_length (l1 l2 : bytes) bits (u : nat) :
  u = (length l1 + 8)%nat ->
  foldl (fun tail i => <[(u - 1 - i)%nat := low_byte (Z.shiftr bits (Z.of_nat i * 8))]> tail)
        (l1 ++ zeros 8 ++ l2) (seq 0 8)
  = l1 ++ be_split 8 bits ++ l2.
Proof.
  intros ->. cbn [seq foldl].
  replace (length l1 + 8 - 1 - 0)%nat with (length l1 + 7)%nat by lia.
  replace (length l1 + 8 - 1 - 1)%nat with (length l1 + 6)%nat by lia.
  replace (length l1 + 8 - 1 - 2)%nat with (length l1 + 5)%nat by lia.
  replace (length l1 + 8 - 1 - 3)%nat with (length l1 + 4)%nat by lia.
  replace (length l1 + 8 - 1 - 4)%nat with (length l1 + 3)%nat by lia.
  replace (length l1 + 8 - 1 - 5)%nat with (length l1 + 2)%nat by lia.
  replace (length l1 + 8 - 1 - 6)%nat with (length l1 + 1)%nat by lia.
  replace (length l1 + 8 - 1 - 7)%nat with (length l1 + 0)%nat by lia.
  rewrite !insert_app_r. f_equal. unfold be_split. by rewrite le_split8.
Qed.

Lemma sha_tail_spec p q size :
  zlen p < 64 -> 0 <= 8 * size < 2 ^ 64 ->
  sha_tail (p ++ q) (zlen p) size
  = Some (padded_rest p size ++ zeros (128 - zlen (padded_rest p size)), zlen (padded_rest p size)).
Proof.
  intros Hp Hs. pose proof (zlen_nonneg p) as H0. rewrite zlen_padded_rest by done.
  pose proof (pad_length (zlen p) ltac:(lia)) as Hpad.
  pose proof (Z.mod_pos_bound (55 - zlen p) 64) as Hk.
  unfold sha_tail. cbv zeta. rewrite copy_rest by lia. cbn [mbind option_bind]. f_equal. f_equal.
  replace (Z.to_nat (zlen p)) with (length p + 0)%nat by (unfold zlen; lia).
  rewrite insert_app_r. remember (if _ <? 56 then 64 else 128) as u eqn:Eu.
  assert (Hu : u <= 128) by (destruct (_ <? _) in Eu; lia).
  replace (128 - zlen p) with (1 + ((55 - zlen p) mod 64 + (8 + (128 - u)))) by lia.
  rewrite !zeros_add by lia.
  change (<[0%nat:=Byte.x80]> (zeros 1 ++ ?l)) with (Byte.x80 :: l).
  replace (u64 (size * 8)) with (8 * size) by (unfold wrap; rewrite Z.mod_small by lia; lia).
  unfold padded_rest. set (k := (55 - zlen p) mod 64) in *.
  replace (p ++ Byte.x80 :: zeros k ++ zeros 8 ++ zeros (128 - u))
    with ((p ++ [Byte.x80] ++ zeros k) ++ zeros 8 ++ zeros (128 - u)) by (by rewrite <-!app_assoc).
  rewrite write_length; [by rewrite <-!app_assoc|].
  rewrite !length_app. change (length [Byte.x80]) with 1%nat.
  pose proof (zlen_zeros k ltac:(lia)). unfold zlen in *. lia.
Qed.

(** ** The whole message *)

(** The padded message is the whole blocks and the padded rest. *)
Lemma blocks_padded data :
  let r := drop (Z.to_nat (zlen data - zlen data mod 64)) data in
  let t := padded_rest r (zlen data) in
  blocks 64 (zlen (fips_pad data) / 64) (fips_pad data)
  = blocks 64 (zlen data / 64) data ++ blocks 64 (zlen t / 64) t.
Proof.
  cbv zeta. pose proof (zlen_nonneg data) as H0. pose proof (zlen_rest 64 data ltac:(lia)) as Hr.
  set (r := drop _ data) in *. pose proof (Z.mod_pos_bound (zlen data) 64 ltac:(lia)) as Hm.
  set (a := take (Z.to_nat (zlen data - zlen data mod 64)) data).
  pose proof (Z.div_mod (zlen data) 64 ltac:(lia)) as Hdm.
  assert (Ha : zlen a = 64 * (zlen data / 64)) by (subst a; unfold zlen in *; rewrite length_take; lia).
  assert (Hp : fips_pad data = a ++ padded_rest r (zlen data)).
  { unfold fips_pad, padded_rest. rewrite (app_assoc a r). unfold a, r at 1. rewrite take_drop.
    do 4 f_equal. rewrite Hr. by rewrite Zminus_mod_idemp_r. }
  assert (Hd : blocks 64 (zlen data / 64) data = blocks 64 (zlen data / 64) a).
  { rewrite blocks_take by lia. do 2 f_equal. lia. }
  pose proof (zlen_nonneg (padded_rest r (zlen data))).
  rewrite Hp, zlen_app, Ha, Hd, Z.mul_comm, Z.div_add_l by lia.
  apply blocks_app; try lia; [apply Z.div_pos; lia..].
Qed.

Lemma sha_output h :
  words32 h ->
  foldl (fun out i => write32be out (i * 4) (at_ h i)) (zeros 32) (seq 0 8)
  = concat (be_split 4 <$> h).
Proof.
  intros [Hl _]. do 9 (destruct h as [|? h]; try discriminate Hl).
  cbn [fmap list_fmap concat]. rewrite !be_split4. reflexivity.
Qed.

Lemma words32_iv : words32 sha_iv.
Proof. split; [done|]. repeat (apply Forall_cons; split; [done|]). by apply Forall_nil. Qed.

(** The end of [sha256]: one block or two from the buffer. *)
Lemma sha_end {B} h t (k : list Z -> option B) :
  words32 h -> zlen t = 64 \/ zlen t = 128 ->
  (h ← sha256_compress (t ++ zeros (128 - zlen t)) h;
   h ← (if zlen t =? 128 then sha256_compress (drop 64 (t ++ zeros (128 - zlen t))) h else Some h);
   k h)
  = k (foldl fips_compress h (blocks 64 (zlen t / 64) t)) /\
  words32 (foldl fips_compress h (blocks 64 (zlen t / 64) t)).
Proof.
  intros Hh Ht. assert (Hlen : zlen (t ++ zeros (128 - zlen t)) = 128)
    by (rewrite zlen_app, zlen_zeros by lia; lia).
  destruct (sha256_compress_spec (t ++ zeros (128 - zlen t)) h Hh) as [-> Hw]; [lia|].
  cbn [mbind option_bind].
  assert (Hfst : take 64 (t ++ zeros (128 - zlen t)) = take 64 t)
    by (apply take_app_le; unfold zlen in *; lia).
  rewrite Hfst in Hw |- *. destruct Ht as [Ht|Ht].
  - rewrite Ht. change (64 =? 128) with false. change (64 / 64) with 1. cbv iota.
    rewrite blocks_one by done. rewrite take_ge in Hw |- * by (unfold zlen in *; lia). done.
  - rewrite Ht in *. change (128 =? 128) with true. change (128 / 64) with (1 + 1). cbv iota.
    rewrite blocks_step by lia. change (Z.to_nat 64) with 64%nat.
    change (zeros (128 - 128)) with (@nil byte). rewrite app_nil_r.
    assert (Hd : zlen (drop 64 t) = 64) by (unfold zlen in *; rewrite length_drop; lia).
    rewrite blocks_one by done. cbn [foldl].
    destruct (sha256_compress_spec (drop 64 t) (fips_compress h (take 64 t)) Hw) as [-> Hw2]; [lia|].
    cbn [mbind option_bind]. by rewrite (take_ge (drop 64 t)) in Hw2 |- * by (unfold zlen in *; lia).
Qed.

(** Sha256 on any message the length field can count. *)
Lemma sha256_eq (data : bytes) (Hsize : zlen data < 2 ^ 61) :
  sha256 data = Some (sha256_reference data).
Proof.
  unfold sha256, sha256_reference. cbv zeta. rewrite blocks_padded, foldl_app.
  pose proof (zlen_nonneg data) as H0. pose proof (zlen_rest 64 data ltac:(lia)) as Hr.
  pose proof (Z.mod_pos_bound (zlen data) 64 ltac:(lia)) as Hm.
  destruct (while_div 64 sha256_compress fips_compress words32 (S (length data)) sha_iv data)
    as [E Hh]; [lia|lia| |apply words32_iv|].
  { intros s p Hs Hp. by apply sha256_compress_spec. }
  change (Z.to_nat 64) with 64%nat in E. rewrite E.
  cbn [mbind option_bind]. set (h := foldl _ _ _) in *. set (r := drop _ data) in *. rewrite <-Hr.
  pose proof (sha_tail_spec r [] (zlen data) ltac:(lia) ltac:(lia)) as Ht. rewrite app_nil_r in Ht.
  rewrite Ht. cbn [mbind option_bind]. pose proof (zlen_padded_rest r (zlen data) ltac:(lia)) as Hz.
  set (t := padded_rest r (zlen data)) in *. destruct (sha_end h t (fun h => Some (foldl (fun out i => write32be out (i * 4) (at_ h i))
    (zeros 32) (seq 0 8)))) as [Ee Hw]; [done|destruct (_ <? _) in Hz; auto|].
  etrans; [exact Ee|]. f_equal. by apply sha_output.
Qed.

(** C22: for every message the standard admits [sha256] stops, reads nothing
    outside the message and its buffers, and returns the SHA-256 digest of
    FIPS 180-4: the buffer with the end of the message is the padding of the
    standard, in one block or in two. *)
Theorem sha256_meets_fips (data : bytes) (Hsize : zlen data < 2 ^ 61) :
  sha256 data = Some (sha256_reference data).
Proof. exact (sha256_eq data Hsize). Qed.

Lemma sha256_meets_fips_witness :
  zlen [Byte.x61; Byte.x62; Byte.x63] < 2 ^ 61 /\
  byte.unsigned <$> default [] (sha256 [Byte.x61; Byte.x62; Byte.x63])
  = [0xba; 0x78; 0x16; 0xbf; 0x8f; 0x01; 0xcf; 0xea; 0x41; 0x41; 0x40; 0xde; 0x5d; 0xae;
     0x22; 0x23; 0xb0; 0x03; 0x61; 0xa3; 0x96; 0x17; 0x7a; 0x9c; 0xb4; 0x10; 0xff; 0x61;
     0xf2; 0x00; 0x15; 0xad].
Proof.
  split; [done|].
  rewrite (sha256_meets_fips [Byte.x61; Byte.x62; Byte.x63] eq_refl).
  vm_compute. reflexivity.
Defined.
