(* ===== verification/Blake2b.v ===== *)
(** BLAKE2b-256 against RFC 7693.

    The reference splits the padded message into blocks, counts bytes in one
    128-bit number and mixes columns and diagonals by index formulas.  The
    code advances a cursor, carries between two 64-bit counters and has the
    indices written out. *)
From S2P Require Import Prelude Words Endian Hash.
From coqutil Require Import Word.LittleEndianList.

(** ** The reference *)

Section Reference.
Let add a b := (a + b) mod 2 ^ 64.
Let ror r x := rot 64 r x.

(** The mixing function of section 3.1 on four words. *)
Definition mix (a b c d x y : Z) : Z * Z * Z * Z :=
  let a := add (add a b) x in
  let d := ror 32 (Z.lxor d a) in
  let c := add c d in
  let b := ror 24 (Z.lxor b c) in
  let a := add (add a b) y in
  let d := ror 16 (Z.lxor d a) in
  let c := add c d in
  let b := ror 63 (Z.lxor b c) in
  (a, b, c, d).

Definition G (v : list Z) (a b c d : nat) (x y : Z) : list Z :=
  let '(a', b', c', d') := mix (nth a v 0) (nth b v 0) (nth c v 0) (nth d v 0) x y in
  <[a := a']> (<[b := b']> (<[c := c']> (<[d := d']> v))).

(** Half step [s] of a round, 0 for the columns and 1 for the diagonals, at
    position [j]: the four indices and the places of the two words. *)
Definition mix_step (m : list Z) (s : list nat) (v : list Z) (p : nat * nat) : list Z :=
  let '(h, j) := p in
  G v j (4 + (j + h) mod 4) (8 + (j + 2 * h) mod 4) (12 + (j + 3 * h) mod 4)
    (nth (nth (8 * h + 2 * j) s O) m 0) (nth (nth (8 * h + 2 * j + 1) s O) m 0).

Definition rfc_round (m v : list Z) (r : nat) : list Z :=
  foldl (mix_step m (nth (r mod 10) SIGMA [])) v
    [(0, 0); (0, 1); (0, 2); (0, 3); (1, 0); (1, 1); (1, 2); (1, 3)]%nat.

(** The words of a block. *)
Definition block_words (b : bytes) : list Z :=
  (fun i => le_combine (slice b (Z.of_nat i * 8) 8)) <$> seq 0 16.

(** The compression function of section 3.2. *)
Definition F (h : list Z) (b : bytes) (t : Z) (final : bool) : list Z :=
  let v := h ++ B2IV in
  let v := <[12%nat := Z.lxor (nth 12 v 0) (t mod 2 ^ 64)]> v in
  let v := <[13%nat := Z.lxor (nth 13 v 0) (t / 2 ^ 64)]> v in
  let v := if final then <[14%nat := Z.lxor (nth 14 v 0) (2 ^ 64 - 1)]> v else v in
  let v := foldl (rfc_round (block_words b)) v (seq 0 12) in
  zip_with Z.lxor h (zip_with Z.lxor (take 8 v) (drop 8 v)).

(** The blocks of a message of [n] bytes; [t] bytes are digested. *)
Fixpoint digest (n : Z) (h : list Z) (t : Z) (d : list bytes) : list Z :=
  match d with
  | [] => h
  | [b] => F h b n true
  | b :: d => digest n (F h b (t + 128) false) (t + 128) d
  end.

Definition blake2b_reference (data : bytes) : bytes :=
  let n := zlen data in
  let dd := if n =? 0 then 1 else (n + 127) / 128 in
  let d := blocks 128 dd (data ++ zeros (dd * 128 - n)) in
  (* no key, a digest of 32 bytes *)
  let h := <[0%nat := Z.lxor (nth 0 B2IV 0) (0x01010000 + 2 ^ 8 * 0 + 32)]> B2IV in
  take 32 (concat (le_split 8 <$> digest n h 0 d)).
End Reference.

(** ** Mixing *)

Definition words64 (n : nat) (v : list Z) : Prop := length v = n /\ Forall (in_width 64) v.

Lemma words64_insert n v i x : words64 n v -> in_width 64 x -> words64 n (<[i := x]> v).
Proof.
  intros [Hl Hv] Hx. split; [by rewrite length_insert|]. by apply Forall_insert.
Qed.

Lemma words64_at n v i : words64 n v -> in_width 64 (at_ v i).
Proof. intros [_ Hv]. by apply nth_width. Qed.

Lemma at_eq (v1 v2 : list Z) :
  length v1 = length v2 -> (forall i, (i < length v1)%nat -> at_ v1 i = at_ v2 i) -> v1 = v2.
Proof.
  intros Hl H. apply list_eq. intros i. destruct (decide (i < length v1)%nat) as [Hi|Hi].
  - destruct (lookup_lt_is_Some_2 v1 i Hi) as [x Hx].
    destruct (lookup_lt_is_Some_2 v2 i ltac:(lia)) as [y Hy].
    specialize (H i Hi). unfold at_ in H. rewrite !nth_lookup, Hx, Hy in H. cbn in H. congruence.
  - by rewrite !lookup_ge_None_2 by lia.
Qed.

Lemma mix_width a b c d x y :
  in_width 64 a -> in_width 64 b -> in_width 64 c -> in_width 64 d ->
  let '(a', b', c', d') := mix a b c d x y in
  in_width 64 a' /\ in_width 64 b' /\ in_width 64 c' /\ in_width 64 d'.
Proof.
  intros Ha Hb Hc Hd. unfold mix. cbv zeta.
  assert (Hm : forall z, in_width 64 (z mod 2 ^ 64)) by (intros; by apply (wrap_width 64)).
  split_and!; auto; repeat (apply rot_width; [lia|]; apply lxor_width; auto with lia).
Qed.

Definition distinct4 (a b c d : nat) : Prop :=
  (a < 16 /\ b < 16 /\ c < 16 /\ d < 16)%nat /\
  a <> b /\ a <> c /\ a <> d /\ b <> c /\ b <> d /\ c <> d.

(** Each element counts as it was written last. *)
Lemma insert_twice4 v a b c d xa xb xc xd ya yb yc yd :
  words64 16 v -> distinct4 a b c d ->
  <[b := xb]> (<[c := xc]> (<[d := xd]> (<[a := xa]>
    (<[b := yb]> (<[c := yc]> (<[d := yd]> (<[a := ya]> v)))))))
  = <[a := xa]> (<[b := xb]> (<[c := xc]> (<[d := xd]> v))).
Proof.
  intros [Hl _] ((? & ? & ? & ?) & ? & ? & ? & ? & ? & ?).
  apply at_eq; rewrite !length_insert; [done|]. intros i Hi.
  rewrite !at_insert by (rewrite ?length_insert; lia).
  repeat case_decide; congruence.
Qed.

Lemma rotr64_width x r : 0 <= r <= 64 -> in_width 64 x -> in_width 64 (rotr64 x r).
Proof. intros. rewrite rotr64_rot by done. by apply rot_width. Qed.

Ltac width64 :=
  repeat first
    [ assumption | lia | apply wrap_width | apply rotr64_width | apply rot_width
    | apply lxor_width | by apply (wrap_width 64) ].

Lemma G_words a b c d x y v : words64 16 v -> words64 16 (G v a b c d x y).
Proof.
  intros Hv. unfold G.
  pose proof (mix_width (at_ v a) (at_ v b) (at_ v c) (at_ v d) x y (words64_at _ _ _ Hv)
    (words64_at _ _ _ Hv) (words64_at _ _ _ Hv) (words64_at _ _ _ Hv)) as Hm.
  unfold at_ in Hm. destruct (mix _ _ _ _ _ _) as [[[a' b'] c'] d'].
  destruct Hm as (? & ? & ? & ?). by repeat apply words64_insert.
Qed.

Lemma blake_G_spec a b c d x y v :
  words64 16 v -> distinct4 a b c d -> blake_G a b c d x y v = G v a b c d x y.
Proof.
  intros Hv Hn. pose proof Hn as ((? & ? & ? & ?) & ? & ? & ? & ? & ? & ?).
  pose proof Hv as [Hl _].
  pose proof (words64_at 16 v a Hv) as Ha. pose proof (words64_at 16 v b Hv) as Hb.
  pose proof (words64_at 16 v c Hv) as Hc. pose proof (words64_at 16 v d Hv) as Hd.
  unfold blake_G. cbv zeta.
  repeat (rewrite at_insert by (rewrite ?length_insert; lia);
          first [rewrite decide_True by done | rewrite decide_False by congruence]).
  rewrite insert_twice4 by done. rewrite !rotr64_rot by width64. reflexivity.
Qed.

(** ** Rounds *)

Lemma rfc_round_words m v r : words64 16 v -> words64 16 (rfc_round m v r).
Proof. intros Hv. unfold rfc_round. cbn [foldl mix_step]. by repeat apply G_words. Qed.

Lemma sigma_repeats r : (r < 12)%nat -> nth (r mod 10) SIGMA [] = nth r SIGMA [].
Proof. intros Hr. do 12 (destruct r as [|r]; [reflexivity|]). lia. Qed.

Lemma blake_round_spec m v r :
  words64 16 v -> (r < 12)%nat -> blake_round m v r = rfc_round m v r.
Proof.
  intros Hv Hr. unfold blake_round, rfc_round. rewrite sigma_repeats by done.
  cbn [foldl mix_step]. cbv zeta. unfold at_.
  rewrite (blake_G_spec 0 4 8 12), (blake_G_spec 1 5 9 13), (blake_G_spec 2 6 10 14),
    (blake_G_spec 3 7 11 15), (blake_G_spec 0 5 10 15), (blake_G_spec 1 6 11 12),
    (blake_G_spec 2 7 8 13), (blake_G_spec 3 4 9 14)
    by first [by repeat apply G_words | by repeat split; lia].
  reflexivity.
Qed.

Lemma blake_rounds_spec m v n :
  words64 16 v -> (n <= 12)%nat ->
  foldl (blake_round m) v (seq 0 n) = foldl (rfc_round m) v (seq 0 n) /\
  words64 16 (foldl (rfc_round m) v (seq 0 n)).
Proof.
  intros Hv. induction n as [|n IH]; intros Hn; [done|]. destruct IH as [E Hw]; [lia|].
  rewrite seq_S, !foldl_app. cbn [foldl Nat.add]. rewrite E.
  split; [by apply blake_round_spec; [|lia]|by apply rfc_round_words].
Qed.

(** ** Compression *)

Lemma blake_load_all p :
  128 <= zlen p ->
  for_each (seq 0 16) (blake_load p) (replicate 16 0) = Some (block_words (take 128 p)).
Proof.
  intros Hp.
  enough (H : forall n, (n <= 16)%nat ->
    for_each (seq 0 n) (blake_load p) (replicate 16 0)
    = Some (((fun i => le_combine (slice (take 128 p) (Z.of_nat i * 8) 8)) <$> seq 0 n)
            ++ replicate (16 - n) 0)).
  { rewrite H by lia. cbn [replicate Nat.sub]. by rewrite app_nil_r. }
  induction n as [|n IH]; intros Hn; [done|].
  rewrite seq_S, for_each_app, IH by lia. cbn [mbind option_bind for_each Nat.add].
  unfold blake_load, zlen in *. rewrite read64le_combine by (unfold zlen; rewrite length_drop; lia).
  cbn [mbind option_bind]. f_equal. rewrite fmap_app, <-app_assoc.
  replace n with (length ((fun i => le_combine (slice (take 128 p) (Z.of_nat i * 8) 8)) <$> seq 0 n) + 0)%nat at 1
    by (rewrite length_fmap, length_seq; lia).
  rewrite insert_app_r. f_equal. replace (16 - n)%nat with (S (16 - S n)) by lia.
  cbn [replicate fmap list_fmap app]. rewrite slice_take by lia.
  change (<[0%nat:=?x]> (0 :: ?l)) with (x :: l). f_equal. unfold slice. do 3 f_equal; lia.
Qed.

Lemma lnot64 x : in_width 64 x -> u64 (Z.lnot x) = Z.lxor x (2 ^ 64 - 1).
Proof.
  intros Hx. change (2 ^ 64 - 1) with (Z.ones 64). unfold wrap.
  rewrite <-Z.land_ones by lia. rewrite <-(wrap_id 64 x Hx) at 2. unfold wrap.
  rewrite <-Z.land_ones by lia. apply Z.bits_inj'. intros i Hi.
  rewrite Z.lxor_spec, !Z.land_spec, Z.lnot_spec by lia.
  by destruct (Z.testbit x i), (Z.testbit (Z.ones 64) i).
Qed.

(** The 128-bit counter in two words. *)
Definition words_of (t : Z) : Z * Z := (t mod 2 ^ 64, t / 2 ^ 64).

Lemma words64_v h t0 t1 (final : bool) :
  words64 8 h -> in_width 64 t0 -> in_width 64 t1 ->
  let v := h ++ B2IV in
  let v := <[12%nat := Z.lxor (nth 12 v 0) t0]> v in
  let v := <[13%nat := Z.lxor (nth 13 v 0) t1]> v in
  words64 16 (if final then <[14%nat := Z.lxor (nth 14 v 0) (2 ^ 64 - 1)]> v else v).
Proof.
  intros [Hl Hh] H0 H1. cbv zeta.
  assert (Hv : words64 16 (h ++ B2IV)).
  { split; [rewrite length_app, Hl; done|]. apply Forall_app. split; [done|].
    repeat (apply Forall_cons; split; [done|]). by apply Forall_nil. }
  assert (Hw : forall v i x, words64 16 v -> in_width 64 x ->
    words64 16 (<[i := Z.lxor (nth i v 0) x]> v)).
  { intros v i x Hv' Hx. apply words64_insert; [done|].
    apply lxor_width; [lia|by apply (words64_at 16)|done]. }
  destruct final; repeat apply Hw; done.
Qed.

Lemma start_v h :
  length h = 8%nat ->
  foldl (fun v i => <[(i + 8)%nat := at_ B2IV i]> (<[i := at_ h i]> v)) (replicate 16 0) (seq 0 8)
  = h ++ B2IV.
Proof. intros Hl. do 9 (destruct h as [|? h]; try discriminate Hl). reflexivity. Qed.

Lemma finish_h h v :
  length h = 8%nat -> length v = 16%nat ->
  foldl (fun h i => <[i := Z.lxor (at_ h i) (Z.lxor (at_ v i) (at_ v (i + 8)))]> h) h (seq 0 8)
  = zip_with Z.lxor h (zip_with Z.lxor (take 8 v) (drop 8 v)).
Proof.
  intros Hh Hv. do 9 (destruct h as [|? h]; try discriminate Hh).
  do 17 (destruct v as [|? v]; try discriminate Hv). reflexivity.
Qed.

Lemma zip_lxor_words n a b :
  words64 n a -> words64 n b -> words64 n (zip_with Z.lxor a b).
Proof.
  intros [Ha Fa] [Hb Fb]. split; [rewrite length_zip_with; lia|].
  clear Ha Hb. revert b Fb. induction Fa as [|x a Hx Fa IH]; intros b Fb; [by apply Forall_nil|].
  destruct Fb as [|y b Hy Fb]; [by apply Forall_nil|]. cbn [zip_with]. apply Forall_cons.
  split; [by apply lxor_width|by apply IH].
Qed.

Lemma blake2b_compress_spec p t final h :
  words64 8 h -> 128 <= zlen p -> 0 <= t < 2 ^ 128 ->
  blake2b_compress p (words_of t).1 (words_of t).2 final h = Some (F h (take 128 p) t final) /\
  words64 8 (F h (take 128 p) t final).
Proof.
  intros Hh Hp Ht. unfold blake2b_compress, F. rewrite blake_load_all by done.
  cbn [mbind option_bind]. cbn [words_of fst snd].
  assert (H0 : in_width 64 (t mod 2 ^ 64)) by by apply (wrap_width 64).
  assert (H1 : in_width 64 (t / 2 ^ 64)).
  { split; [apply Z.div_pos; lia|apply Z.div_lt_upper_bound; lia]. }
  pose proof (words64_v h _ _ false Hh H0 H1) as Hv'.
  pose proof (words64_v h _ _ final Hh H0 H1) as Hv. cbv zeta in Hv, Hv' |- *.
  rewrite start_v by apply Hh. fold (at_ (h ++ B2IV) 12). unfold at_ in *.
  set (v1 := <[13%nat := _]> _) in *. rewrite lnot64 by by apply (words64_at 16).
  set (v := if final then _ else _) in *.
  destruct (blake_rounds_spec (block_words (take 128 p)) v 12 Hv) as [E Hw]; [lia|]. rewrite E.
  generalize dependent (foldl (rfc_round (block_words (take 128 p))) v (seq 0 12)). intros w _ Hw.
  pose proof (finish_h h w (proj1 Hh) (proj1 Hw)) as Hf. unfold at_ in Hf. rewrite Hf. split.
  - reflexivity.
  - apply zip_lxor_words; [done|]. destruct Hw as [Hl HF].
    apply zip_lxor_words; (split; [rewrite ?length_take, ?length_drop; lia|]).
    + by apply Forall_take.
    + by apply Forall_drop.
Qed.

(** ** The counter *)

Lemma count_up_words t n :
  0 <= t -> 0 <= n < 2 ^ 64 -> t + n < 2 ^ 128 ->
  count_up (words_of t) n = words_of (t + n).
Proof.
  intros Ht Hn Hs. unfold count_up, words_of, wrap.
  pose proof (Z.div_mod t (2 ^ 64) ltac:(lia)) as Hd.
  pose proof (Z.mod_pos_bound t (2 ^ 64) ltac:(lia)) as Hm.
  set (q := t / 2 ^ 64) in *. set (r := t mod 2 ^ 64) in *.
  assert (Hq : 0 <= q < 2 ^ 64 - 1 \/ q = 2 ^ 64 - 1 /\ r + n < 2 ^ 64) by lia.
  destruct (Z.lt_ge_cases (r + n) (2 ^ 64)).
  - rewrite (Z.mod_small (r + n)) by lia. destruct (Z.ltb_spec (r + n) r); [lia|].
    f_equal; [apply (Z.mod_unique _ _ q)|apply (Z.div_unique _ _ _ (r + n))]; lia.
  - assert (E : (r + n) mod 2 ^ 64 = r + n - 2 ^ 64)
      by (symmetry; apply (Z.mod_unique _ _ 1); lia).
    rewrite E. destruct (Z.ltb_spec (r + n - 2 ^ 64) r); [|lia].
    rewrite (Z.mod_small (q + 1)) by lia.
    f_equal; [apply (Z.mod_unique _ _ (q + 1))|apply (Z.div_unique _ _ _ (r + n - 2 ^ 64))]; lia.
Qed.

(** ** The whole message *)

(** The state behind a digested block. *)
Definition step_ref (s : list Z * (Z * Z)) (b : bytes) : list Z * (Z * Z) :=
  let '(h, t) := s in
  let t := count_up t 128 in (F h b (t.1 + 2 ^ 64 * t.2) false, t).

Definition counted (s : list Z * (Z * Z)) : Prop :=
  words64 8 s.1 /\ in_width 64 s.2.1 /\ in_width 64 s.2.2.

Lemma blake_step_spec s p :
  counted s -> 128 <= zlen p ->
  blake_step p s = Some (step_ref s (take 128 p)) /\ counted (step_ref s (take 128 p)).
Proof.
  intros (Hh & H0 & H1) Hp. destruct s as [h [t0 t1]]. cbn [fst snd] in *.
  unfold blake_step, step_ref. cbv zeta. set (t := count_up (t0, t1) 128).
  assert (Ht : in_width 64 t.1 /\ in_width 64 t.2).
  { subst t. unfold count_up. cbn [fst snd]. split; [by apply (wrap_width 64)|].
    destruct (_ <? _); [by apply (wrap_width 64)|done]. }
  clearbody t. destruct Ht as [[] []].
  assert (Hw : words_of (t.1 + 2 ^ 64 * t.2) = t).
  { unfold words_of. destruct t as [a b]. cbn [fst snd] in *. f_equal.
    - symmetry. apply (Z.mod_unique _ _ b); lia.
    - symmetry. apply (Z.div_unique _ _ _ a); lia. }
  destruct (blake2b_compress_spec p (t.1 + 2 ^ 64 * t.2) false h Hh Hp) as [E Hw']; [lia|].
  rewrite Hw in E. rewrite E. done.
Qed.

Lemma steps_digest n h t l b :
  0 <= t -> t + 128 * zlen l < 2 ^ 64 ->
  exists h', foldl step_ref (h, words_of t) l = (h', words_of (t + 128 * zlen l)) /\
             digest n h t (l ++ [b]) = F h' b n true.
Proof.
  revert h t. induction l as [|c l IH]; intros h t Ht Hs.
  - exists h. change (zlen (@nil bytes)) with 0. by rewrite Z.mul_0_r, Z.add_0_r.
  - rewrite zlen_cons in Hs |- *. pose proof (zlen_nonneg l).
    cbn [foldl]. unfold step_ref at 2. rewrite count_up_words by lia. cbv zeta.
    replace ((words_of (t + 128)).1 + 2 ^ 64 * (words_of (t + 128)).2) with (t + 128)
      by (cbn [words_of fst snd]; pose proof (Z.div_mod (t + 128) (2 ^ 64)); lia).
    destruct (IH (F h c (t + 128) false) (t + 128)) as (h' & E & Ed); [lia..|].
    exists h'. replace (t + 128 * (1 + zlen l)) with (t + 128 + 128 * zlen l) by lia.
    split; [exact E|]. rewrite <-Ed. by destruct l.
Qed.

Lemma rounds_rest n :
  0 <= n -> let m := rounds 129 128 n in
  0 <= m /\ 128 * m <= n <= 128 * m + 128 /\
  (if n =? 0 then 1 else (n + 127) / 128) = m + 1.
Proof.
  intros Hn. cbv zeta. pose proof (rounds_bound 129 128 n ltac:(lia) Hn) as (Hm & Hle & Hlt).
  split; [done|]. split; [lia|]. destruct (Z.eqb_spec n 0) as [->|Hnz]; [done|].
  assert (128 * rounds 129 128 n < n).
  { unfold rounds. destruct (Z.ltb_spec n 129); [lia|].
    pose proof (Z.div_mod (n - 129) 128). pose proof (Z.mod_pos_bound (n - 129) 128). lia. }
  symmetry. apply (Z.div_unique _ _ _ (n + 127 - 128 * (rounds 129 128 n + 1))); lia.
Qed.

Lemma zlen_blocks k m p : 0 <= m -> zlen (blocks k m p) = m.
Proof. intros. unfold blocks, zlen. rewrite length_fmap, length_seqZ. lia. Qed.

Lemma blocks_message data m :
  0 <= m -> 128 * m <= zlen data <= 128 * m + 128 ->
  let r := drop (Z.to_nat (128 * m)) data in
  blocks 128 (m + 1) (data ++ zeros ((m + 1) * 128 - zlen data))
  = blocks 128 m data ++ [r ++ zeros (128 - zlen r)].
Proof.
  intros Hm Hn. cbv zeta. set (r := drop _ data).
  assert (Hr : zlen r = zlen data - 128 * m)
    by (subst r; unfold zlen in *; rewrite length_drop; lia).
  rewrite (blocks_take 128 m data) by lia. set (a := take _ data).
  assert (Ha : zlen a = 128 * m) by (subst a; unfold zlen in *; rewrite length_take; lia).
  rewrite <-(take_drop (Z.to_nat (128 * m)) data) at 1. fold a r. rewrite <-app_assoc.
  replace ((m + 1) * 128 - zlen data) with (128 - zlen r) by lia.
  rewrite blocks_app, blocks_one by (rewrite ?zlen_app, ?zlen_zeros; lia). done.
Qed.

Lemma blake_output h :
  words64 8 h ->
  foldl (fun out i => write64le out (i * 8) (at_ h i)) (zeros 32) (seq 0 4)
  = take 32 (concat (le_split 8 <$> h)).
Proof.
  intros [Hl _]. do 9 (destruct h as [|? h]; try discriminate Hl).
  cbn [fmap list_fmap concat]. rewrite !le_split8. reflexivity.
Qed.

(** Blake2b_256 on any message the counter can count. *)
Lemma blake2b_eq (data : bytes) (Hsize : zlen data < 2 ^ 64) :
  blake2b_256 data = Some (blake2b_reference data).
Proof.
  unfold blake2b_256, blake2b_reference. cbv zeta.
  change (0x01010000 + 2 ^ 8 * 0 + 32) with 0x01010020. fold (at_ B2IV 0).
  set (h0 := <[0%nat := _]> B2IV). assert (Hh0 : words64 8 h0).
  { apply words64_insert; [|done]. split; [done|].
    repeat (apply Forall_cons; split; [done|]). by apply Forall_nil. }
  clearbody h0. pose proof (zlen_nonneg data) as H0.
  destruct (rounds_rest (zlen data) H0) as (Hm & Hr & ->).
  set (m := rounds 129 128 (zlen data)) in *. rewrite blocks_message by lia.
  pose proof (while_blocks 129 128 blake_step step_ref counted (S (length data)) (h0, (0, 0)) data
    ltac:(lia) ltac:(lia)) as Hloop. cbv zeta in Hloop.
  destruct Hloop as [E Hc]; [intros s p Hs Hp; apply (blake_step_spec s p Hs Hp)|done|].
  rewrite (while_ext _ _ (fun '(s, p, n) => 129 <=? n))
    by (intros [[? ?] n]; destruct (Z.ltb_spec 128 n), (Z.leb_spec 129 n); lia || done).
  change (Z.to_nat 128) with 128%nat in E. rewrite E. fold m in Hc |- *.
  set (r := drop (Z.to_nat (128 * m)) data).
  assert (Hz : zlen data - 128 * m = zlen r)
    by (subst r; unfold zlen in *; rewrite length_drop; lia).
  destruct (steps_digest (zlen data) h0 0 (blocks 128 m data) (r ++ zeros (128 - zlen r)))
    as (h' & Es & Ed); [done|rewrite zlen_blocks; lia|].
  rewrite zlen_blocks in Es by done. change (0, 0) with (words_of 0). rewrite Es, Ed.
  change (0, 0) with (words_of 0) in Hc. rewrite Es in Hc. destruct Hc as [Hh' _].
  cbn [mbind option_bind fst snd] in Hh' |- *. rewrite Hz.
  pose proof (copy_rest r [] 128 ltac:(lia)) as Hcopy. rewrite app_nil_r in Hcopy. rewrite Hcopy.
  cbn [mbind option_bind].
  rewrite count_up_words, Z.add_0_l by lia.
  assert (Hl : zlen (r ++ zeros (128 - zlen r)) = 128)
    by (rewrite zlen_app, zlen_zeros by lia; lia).
  destruct (blake2b_compress_spec (r ++ zeros (128 - zlen r)) (128 * m + zlen r) true h' Hh')
    as [Ef Hw]; [lia..|].
  rewrite take_ge in Ef, Hw by (unfold zlen in *; lia). rewrite Ef.
  replace (128 * m + zlen r) with (zlen data) in * by lia.
  cbn [mbind option_bind]. f_equal. by apply blake_output.
Qed.

(** C23: for every message whose size fits in a [size_t], [blake2b_256] stops,
    reads nothing outside the message and its buffer, and returns the
    unkeyed BLAKE2b digest of 32 bytes of RFC 7693: a message of whole blocks
    keeps its last block for the final compression, and the two counters with
    their carry are the count of bytes. *)
Theorem blake2b_meets_rfc (data : bytes) (Hsize : zlen data < 2 ^ 64) :
  blake2b_256 data = Some (blake2b_reference data).
Proof. exact (blake2b_eq data Hsize). Qed.

Lemma blake2b_meets_rfc_witness :
  zlen [Byte.x61; Byte.x62; Byte.x63] < 2 ^ 64 /\
  byte.unsigned <$> default [] (blake2b_256 [Byte.x61; Byte.x62; Byte.x63])
  = [189; 221; 129; 60; 99; 66; 57; 114; 49; 113; 239; 63; 238; 152; 87; 155; 148; 150; 78;
     59; 177; 203; 62; 66; 114; 98; 200; 192; 104; 213; 35; 25].
Proof.
  split; [done|].
  rewrite (blake2b_meets_rfc [Byte.x61; Byte.x62; Byte.x63] eq_refl).
  vm_compute. reflexivity.
Defined.
