(* ===== verification/Host.v ===== *)
(** The host the code runs on: file descriptors, directory names, the outcome
    of every system call, and the injected faults of src/core/fault.cpp.

    A file keeps the bytes that survive a power cut ([f_durable]) apart from
    the writes since the last successful [fsync] ([f_pending]); what a reader
    sees is the first with the second applied.  The outcome of each system
    call is taken from a list of events, so a theorem about every host covers
    every pattern of errors, interruptions and partial transfers; when the
    list is empty calls succeed. *)
From S2P Require Import Prelude Errors.

(** ** Files *)

Inductive FileKind :=
  | Regular
  | BlockNode (rdev : Z * Z) (getsize64 sszget pbszget : option Z)
  | OtherNode (seek_end : option Z).

Record File := mkFile {
  f_kind : FileKind;
  f_durable : bytes;
  f_pending : list (Z * bytes)
}.

(** A write past the end zero-fills the gap. *)
Definition pad_to (n : Z) (s : bytes) : bytes := s ++ zeros (n - zlen s).
Definition apply_write (s : bytes) (w : Z * bytes) : bytes :=
  splice (pad_to w.1 s) w.1 w.2.
Definition content (f : File) : bytes := foldl apply_write (f_durable f) (f_pending f).

Definition add_pending (w : Z * bytes) (f : File) : File :=
  mkFile (f_kind f) (f_durable f) (f_pending f ++ [w]).
Definition synced (f : File) : File := mkFile (f_kind f) (content f) [].
Definition truncated (n : Z) (f : File) : File :=
  mkFile (f_kind f) (take (Z.to_nat n) (pad_to n (f_durable f))) (f_pending f).
Definition new_file : File := mkFile Regular [] [].

(** What the medium can hold after a power cut: every byte is the durable one
    or one that a pending write put there, whatever the order and the amount
    in which the pending writes reached the medium. *)
Definition crash_image (f : File) (img : bytes) : Prop :=
  length img = length (f_durable f) /\
  forall i, img !! i = f_durable f !! i \/
    exists o d, (o, d) ∈ f_pending f /\ o <= Z.of_nat i < o + zlen d /\
      img !! i = d !! (i - Z.to_nat o)%nat.

(** ** Fault injection (include/fsx/fault.hpp) *)

Inductive Operation := op_read | op_write | op_flush.
Inductive Timing := before | after.
Inductive Action := return_error | terminate_process.
#[export] Instance Operation_eq_dec : EqDecision Operation. Proof. solve_decision. Defined.
#[export] Instance Timing_eq_dec : EqDecision Timing. Proof. solve_decision. Defined.
#[export] Instance Action_eq_dec : EqDecision Action. Proof. solve_decision. Defined.

Record Rule := mkRule {
  r_operation : Operation;
  r_timing : Timing;
  r_hit : Z;
  r_one_shot : bool;
  r_action : Action
}.

(** [struct State]; [counts] is the array indexed by [idx]. *)
Record FaultState := mkFaultState {
  rule : Rule;
  active : bool;
  counts : list Z
}.

Definition idx (op : Operation) : nat :=
  match op with op_read => 1 | op_write => 2 | op_flush => 3 end.

(** ** The host *)

Inductive SysEvent :=
  | Sys_ok                            (* the call succeeds completely *)
  | Sys_short (n : Z)                 (* a transfer of at most [n] bytes *)
  | Sys_err (errno : Z) (partial : Z). (* the call fails; a write may have
                                         reached [partial] bytes *)

Record HostEnv := mkEnv {
  strerror : Z -> string;
  getpid : Z;
  mountinfo : option (list string);   (* /proc/self/mountinfo *)
  swaps : option (list string);       (* /proc/swaps *)
  realpath : string -> option string;
  sysfs_canonical : string -> option (list string);
  stat_blk : string -> option (Z * Z);
  holders_dir : string -> option (list string);
  (* the entries of <sysfs path>/slaves, each resolved to its canonical path *)
  slaves_dir : list string -> option (list (option (list string)));
  (* the number in /sys/dev/block/<maj>:<min>/queue/rotational *)
  rotational : Z * Z -> option Z;
  hardware_concurrency : Z
}.

Record Host := mkHost {
  h_files : gmap Z File;              (* by inode; a descriptor is its inode *)
  h_names : gmap string Z;            (* directory entries *)
  h_durable_names : gmap string Z;    (* entries that survive a power cut *)
  h_next : Z;                         (* next inode *)
  h_events : list SysEvent;
  h_fault : FaultState;
  h_urandom : bytes;                  (* what /dev/urandom delivers next *)
  h_clocks : list (Z * Z);            (* steady and system clock readings *)
  h_uuid_counter : Z;                 (* static counter of [random_uuid_v4] *)
  h_env : HostEnv
}.

Definition set_files fs h := mkHost fs (h_names h) (h_durable_names h) (h_next h)
  (h_events h) (h_fault h) (h_urandom h) (h_clocks h) (h_uuid_counter h) (h_env h).
Definition set_names ns h := mkHost (h_files h) ns (h_durable_names h) (h_next h)
  (h_events h) (h_fault h) (h_urandom h) (h_clocks h) (h_uuid_counter h) (h_env h).
Definition set_durable_names ns h := mkHost (h_files h) (h_names h) ns (h_next h)
  (h_events h) (h_fault h) (h_urandom h) (h_clocks h) (h_uuid_counter h) (h_env h).
Definition set_next n h := mkHost (h_files h) (h_names h) (h_durable_names h) n
  (h_events h) (h_fault h) (h_urandom h) (h_clocks h) (h_uuid_counter h) (h_env h).
Definition set_events es h := mkHost (h_files h) (h_names h) (h_durable_names h) (h_next h)
  es (h_fault h) (h_urandom h) (h_clocks h) (h_uuid_counter h) (h_env h).
Definition set_fault s h := mkHost (h_files h) (h_names h) (h_durable_names h) (h_next h)
  (h_events h) s (h_urandom h) (h_clocks h) (h_uuid_counter h) (h_env h).
Definition set_random bs cs n h := mkHost (h_files h) (h_names h) (h_durable_names h)
  (h_next h) (h_events h) (h_fault h) bs cs n (h_env h).

(** ** The effect monad: the host, and a value, an error or process exit *)

Inductive Outcome (A : Type) :=
  | Ret (value : A)
  | Fail (error : Error)
  | Exit (status : Z)       (* [_exit(status)] *)
  | OutOfFuel.              (* a loop of the model was cut; proved unreachable *)
Arguments Ret {A} value.
Arguments Fail {A} error.
Arguments Exit {A} status.
Arguments OutOfFuel {A}.

Lemma ret_inj {A} (a b : A) : Ret a = Ret b -> a = b.
Proof. by intros [= <-]. Qed.

Definition M (A : Type) : Type := Host -> Outcome A * Host.

#[export] Instance M_ret : MRet M := fun A a h => (Ret a, h).
#[export] Instance M_bind : MBind M := fun A B k m h =>
  match m h with
  | (Ret a, h') => k a h'
  | (Fail e, h') => (Fail e, h')
  | (Exit s, h') => (Exit s, h')
  | (OutOfFuel, h') => (OutOfFuel, h')
  end.

Definition raise {A} (e : Error) : M A := fun h => (Fail e, h).
Definition failM {A} (c : Errc) (msg : string) : M A := raise (mkError c 0 msg).
Definition lift {A} (r : Result A) : M A :=
  match r with Ok a => mret a | Err e => raise e end.
(** The caller looks at the [Result] instead of returning its error. *)
Definition attempt {A} (m : M A) : M (Result A) := fun h =>
  match m h with
  | (Ret a, h') => (Ret (Ok a), h')
  | (Fail e, h') => (Ret (Err e), h')
  | (Exit s, h') => (Exit s, h')
  | (OutOfFuel, h') => (OutOfFuel, h')
  end.
Definition get_host : M Host := fun h => (Ret h, h).
Definition put_host (f : Host -> Host) : M unit := fun h => (Ret tt, f h).
Definition ask_env : M HostEnv := fun h => (Ret (h_env h), h).
Definition whenM (b : bool) (m : M unit) : M unit := if b then m else mret tt.

(** ** System calls *)

Definition EPERM := 1.
Definition ENOENT := 2.
Definition EINTR := 4.
Definition EACCES := 13.
Definition EEXIST := 17.
Definition EINVAL := 22.
Definition ENOSYS := 38.
Definition EOPNOTSUPP := 95.
Definition ENOTSUP := 95.

Definition next_event : M SysEvent := fun h =>
  match h_events h with
  | [] => (Ret Sys_ok, h)
  | e :: es => (Ret e, set_events es h)
  end.

(** The value of a call that only succeeds or fails. *)
Definition sys_call {A} (ok : Host -> A * Host) : M (Z + A) := fun h =>
  match next_event h with
  | (Ret (Sys_err e _), h') => (Ret (inl e), h')
  | (_, h') => let (a, h'') := ok h' in (Ret (inr a), h'')
  end.

(** As [sys_call], for a call whose result the host's state decides. *)
Definition sys_call_res {A} (ok : Host -> (Z + A) * Host) : M (Z + A) := fun h =>
  match next_event h with
  | (Ret (Sys_err e _), h') => (Ret (inl e), h')
  | (_, h') => let (a, h'') := ok h' in (Ret a, h'')
  end.

Definition file_of (h : Host) (fd : Z) : File := default new_file (h_files h !! fd).
Definition set_file (fd : Z) (f : File) (h : Host) : Host := set_files (<[fd := f]> (h_files h)) h.

(** [open] of an existing name. *)
Definition sys_open (path : string) : M (Z + Z) :=
  sys_call_res (fun h =>
    match h_names h !! path with
    | Some fd => (inr fd, h)
    | None => (inl ENOENT, h)
    end).

(** [open] with [O_CREAT | O_EXCL]. *)
Definition sys_create (path : string) : M (Z + Z) :=
  sys_call_res (fun h =>
    match h_names h !! path with
    | Some _ => (inl EEXIST, h)
    | None =>
        let fd := h_next h in
        (inr fd, set_next (fd + 1) (set_names (<[path := fd]> (h_names h))
                   (set_file fd new_file h)))
    end).

Definition sys_ftruncate (fd n : Z) : M (Z + unit) :=
  sys_call (fun h => (tt, set_file fd (truncated n (file_of h fd)) h)).

(** [pread]: at most [want] bytes at [off], fewer at the end of the file. *)
Definition sys_pread (fd off want : Z) : M (Z + bytes) := fun h =>
  match next_event h with
  | (Ret (Sys_err e _), h') => (Ret (inl e), h')
  | (Ret (Sys_short n), h') =>
      (Ret (inr (slice (content (file_of h fd)) off (Z.min want n))), h')
  | (_, h') => (Ret (inr (slice (content (file_of h fd)) off want)), h')
  end.

(** [pwrite]: the number of bytes written. *)
Definition sys_pwrite (fd off : Z) (data : bytes) : M (Z + Z) := fun h =>
  let put n h' := set_file fd (add_pending (off, take (Z.to_nat n) data) (file_of h fd)) h' in
  match next_event h with
  | (Ret (Sys_err e n), h') => (Ret (inl e), put n h')
  | (Ret (Sys_short n), h') =>
      let k := Z.max 0 (Z.min n (zlen data)) in (Ret (inr k), put k h')
  | (_, h') => (Ret (inr (zlen data)), put (zlen data) h')
  end.

Definition sys_fsync (fd : Z) : M (Z + unit) :=
  sys_call (fun h => (tt, set_file fd (synced (file_of h fd)) h)).

Definition sys_flock (fd : Z) : M (Z + unit) := sys_call (fun h => (tt, h)).
Definition sys_fstat (fd : Z) : M (Z + FileKind) :=
  sys_call (fun h => (f_kind (file_of h fd), h)).

(** [ioctl(fd, BLKRRPART) == 0]. *)
Definition sys_reread_partitions (fd : Z) : M bool := fun h =>
  match next_event h with
  | (Ret (Sys_err _ _), h') => (Ret false, h')
  | (_, h') => (Ret true, h')
  end.

(** ** src/core/cancel.cpp *)

(** [Cancellation::requested]: whether a signal has set the flag is up to the
    host, as the outcome of a system call is.  Every caller stops at the first
    [true], so the flag need not be remembered. *)
Definition cancel_requested : M bool := fun h =>
  match next_event h with
  | (Ret (Sys_err _ _), h') => (Ret true, h')
  | (_, h') => (Ret false, h')
  end.

(** ** src/core/fault.cpp *)

Definition install (r : Rule) : M unit :=
  put_host (fun h => set_fault (mkFaultState
    (mkRule (r_operation r) (r_timing r) (if r_hit r =? 0 then 1 else r_hit r)
            (r_one_shot r) (r_action r))
    true [0; 0; 0; 0]) h).

Definition reset : M unit :=
  put_host (fun h => set_fault (mkFaultState (rule (h_fault h)) false [0; 0; 0; 0]) h).

Definition enabled : M bool := fun h => (Ret (active (h_fault h)), h).

Definition hits (op : Operation) : M Z := fun h =>
  (Ret (nth (idx op) (counts (h_fault h)) 0), h).

Definition opname (op : Operation) : string :=
  match op with op_read => "read" | op_write => "write" | op_flush => "flush" end.
Definition when_name (t : Timing) : string :=
  match t with before => "before" | after => "after" end.

(** [fault::point]. *)
Definition point (op : Operation) (t : Timing) : M unit := fun h =>
  let s := h_fault h in
  if negb (active s) then (Ret tt, h)
  else if negb (bool_decide (r_operation (rule s) = op) && bool_decide (r_timing (rule s) = t))
  then (Ret tt, h)
  else
    let n := u64 (nth (idx op) (counts s) 0 + 1) in
    let s1 := mkFaultState (rule s) (active s) (<[idx op := n]> (counts s)) in
    if negb (n =? r_hit (rule s)) then (Ret tt, set_fault s1 h)
    else
      let s2 := if r_one_shot (rule s) then mkFaultState (rule s1) false (counts s1) else s1 in
      let h' := set_fault s2 h in
      match r_action (rule s) with
      | terminate_process => (Exit 200, h')
      | return_error =>
          (Fail (mkError io 0 ("fault injection: " +:+ opname op +:+ " " +:+ when_name t
                               +:+ " operation " +:+ pretty n)), h')
      end.

(** The hook around every device operation:
    [if (fault::enabled()) { auto f = fault::point(..); if (!f) return f.error(); }]. *)
Definition fault_hook (op : Operation) (t : Timing) : M unit :=
  on ← enabled; if (on : bool) then point op t else mret tt.

(** ** Reasoning about effects *)

(** [wp m h Q]: the run of [m] from [h] ends in an outcome and a host that
    satisfy [Q]. *)
Definition wp {A} (m : M A) (h : Host) (Q : Outcome A -> Host -> Prop) : Prop :=
  Q (m h).1 (m h).2.

(** Outcomes that are not a value pass through a bind. *)
Definition carry {A B} (o : Outcome A) (k : A -> Host -> Prop)
    (Q : Outcome B -> Host -> Prop) (h : Host) : Prop :=
  match o with
  | Ret a => k a h
  | Fail e => Q (Fail e) h
  | Exit s => Q (Exit s) h
  | OutOfFuel => Q OutOfFuel h
  end.

Lemma wp_ret {A} (a : A) h (Q : Outcome A -> Host -> Prop) :
  Q (Ret a) h -> wp (mret a) h Q.
Proof. done. Qed.

Lemma wp_bind {A B} (m : M A) (k : A -> M B) h (Q : Outcome B -> Host -> Prop) :
  wp m h (fun o h' => carry o (fun a h'' => wp (k a) h'' Q) Q h') ->
  wp (m ≫= k) h Q.
Proof.
  unfold wp, mbind, M_bind. destruct (m h) as [[a|e|s|] h']; cbn; done.
Qed.

Lemma wp_mono {A} (m : M A) h (Q Q' : Outcome A -> Host -> Prop) :
  wp m h Q -> (forall o h', Q o h' -> Q' o h') -> wp m h Q'.
Proof. unfold wp. eauto. Qed.

Lemma wp_attempt {A} (m : M A) h (Q : Outcome (Result A) -> Host -> Prop) :
  wp m h (fun o h' => match o with
                      | Ret a => Q (Ret (Ok a)) h'
                      | Fail e => Q (Ret (Err e)) h'
                      | Exit s => Q (Exit s) h'
                      | OutOfFuel => Q OutOfFuel h' end) ->
  wp (attempt m) h Q.
Proof. unfold wp, attempt. destruct (m h) as [[a|e|s|] h']; cbn; done. Qed.

Lemma wp_run {A} (m : M A) h Q o h' : wp m h Q -> m h = (o, h') -> Q o h'.
Proof. unfold wp. intros H E. by rewrite E in H. Qed.

(** A step that leaves files and names alone (it may consume events and
    advance the fault counters). *)
Definition quiet (h h' : Host) : Prop :=
  h_files h' = h_files h /\ h_names h' = h_names h /\
  h_durable_names h' = h_durable_names h /\ h_next h' = h_next h /\
  h_env h' = h_env h.

Lemma quiet_refl h : quiet h h.
Proof. by repeat split. Qed.
Lemma quiet_trans h1 h2 h3 : quiet h1 h2 -> quiet h2 h3 -> quiet h1 h3.
Proof. unfold quiet. intuition congruence. Qed.
#[export] Hint Resolve quiet_refl : fsx.

(** [h'] is [h] with the files [fs] (and maybe fewer events). *)
Definition with_files (fs : gmap Z File) (h h' : Host) : Prop :=
  h_files h' = fs /\ h_names h' = h_names h /\
  h_durable_names h' = h_durable_names h /\ h_next h' = h_next h /\
  h_env h' = h_env h.

Lemma quiet_with_files h h' : quiet h h' -> with_files (h_files h) h h'.
Proof. done. Qed.
Lemma with_files_quiet fs h h' h'' : with_files fs h h' -> quiet h' h'' -> with_files fs h h''.
Proof. unfold quiet, with_files. intuition congruence. Qed.
Lemma quiet_with_files_l fs h h' h'' : quiet h h' -> with_files fs h' h'' -> with_files fs h h''.
Proof. unfold quiet, with_files. intuition congruence. Qed.

(** [calm] hosts have no event pending and no fault armed. *)
Definition calm (h : Host) : Prop := h_events h = [] /\ active (h_fault h) = false.

Lemma point_spec op t h :
  wp (point op t) h (fun o h' => quiet h h' /\ h_events h' = h_events h /\ o <> OutOfFuel).
Proof.
  unfold wp, point. repeat case_match; cbn; by repeat split.
Qed.

Lemma fault_hook_spec op t h :
  wp (fault_hook op t) h (fun o h' => quiet h h' /\ h_events h' = h_events h /\ o <> OutOfFuel).
Proof.
  unfold fault_hook. apply wp_bind. unfold wp at 1, enabled. cbn.
  case_match; [apply point_spec|]. by repeat split.
Qed.

Lemma fault_hook_calm op t h :
  active (h_fault h) = false -> fault_hook op t h = (Ret tt, h).
Proof. intros H. unfold fault_hook. unfold mbind, M_bind, enabled. by rewrite H. Qed.

(** ** Contents of files *)

Lemma pad_to_id n s : n <= zlen s -> pad_to n s = s.
Proof.
  intros. unfold pad_to, zeros. replace (Z.to_nat (n - zlen s)) with 0%nat by lia.
  apply app_nil_r.
Qed.

(** Every write of the file lies inside its [n] bytes. *)
Definition file_ok (n : Z) (f : File) : Prop :=
  zlen (f_durable f) = n /\
  Forall (fun w => 0 <= w.1 /\ w.1 + zlen w.2 <= n) (f_pending f).

Lemma zlen_apply_write s w :
  0 <= w.1 -> w.1 + zlen w.2 <= zlen s -> zlen (apply_write s w) = zlen s.
Proof.
  intros. pose proof (zlen_nonneg w.2). unfold apply_write. rewrite pad_to_id by lia.
  apply zlen_splice; lia.
Qed.

Lemma zlen_content n f : file_ok n f -> zlen (content f) = n.
Proof.
  unfold file_ok, content. intros [Hd Hp]. revert Hd Hp.
  generalize (f_durable f) as s, (f_pending f) as ws. intros s ws. revert s.
  induction ws as [|w ws IH]; intros s Hs Hp; cbn; [done|].
  apply Forall_cons in Hp as [Hw Hp]. apply IH; [|done].
  rewrite zlen_apply_write; lia.
Qed.

Lemma content_add_pending w f : content (add_pending w f) = apply_write (content f) w.
Proof. unfold content, add_pending. cbn. by rewrite foldl_app. Qed.

Lemma content_synced f : content (synced f) = content f.
Proof. done. Qed.

Lemma file_ok_add_pending n w f :
  file_ok n f -> 0 <= w.1 -> w.1 + zlen w.2 <= n -> file_ok n (add_pending w f).
Proof.
  intros [Hd Hp] H1 H2. split; [done|]. cbn. apply Forall_app. split; [done|].
  by apply Forall_singleton.
Qed.

Lemma file_ok_synced n f : file_ok n f -> file_ok n (synced f).
Proof. intros Hf. split; [by apply (zlen_content n f)|]. by apply Forall_nil. Qed.
#[export] Hint Resolve file_ok_synced : fsx.

(** A small host for examples: one file, inode 1, and a list of events. *)
Definition demo_env : HostEnv :=
  mkEnv (fun _ => ""%string) 1 None None (fun _ => None) (fun _ => None)
        (fun _ => None) (fun _ => None) (fun _ => None) (fun _ => None) 1.
Definition demo_fault : FaultState :=
  mkFaultState (mkRule op_write before 1 true return_error) false [0; 0; 0; 0].
Definition demo_host (f : File) (evs : list SysEvent) : Host :=
  mkHost {[1 := f]} (∅ : gmap string Z) ∅ 2 evs demo_fault [] [] 0 demo_env.
