(* ===== verification/Device.v ===== *)
(** Positional I/O on devices and image files (include/fsx/device.hpp,
    src/io/device.cpp). *)
From S2P Require Import Prelude Errors Host.

(** [struct DeviceGeometry]. *)
Record DeviceGeometry := mkGeometry {
  size_bytes : Z;
  logical_sector : Z;
  physical_sector : Z;
  is_block_device : bool;
  read_only : bool
}.

(** [class BlockDevice]. *)
Record BlockDevice := mkDevice {
  fd_ : Z;
  path_ : string;
  geometry_ : DeviceGeometry;
  writable_ : bool
}.
Definition geometry (d : BlockDevice) : DeviceGeometry := geometry_ d.
Definition native_fd (d : BlockDevice) : Z := fd_ d.

(** [std::numeric_limits<off_t>::max()], [<ssize_t>::max()]. *)
Definition off_max : Z := 2 ^ 63 - 1.
Definition ssize_max : Z := 2 ^ 63 - 1.

(** The errno of a failed call as an error of the code. *)
Definition raise_errno {A} (c : Errc) (msg : HostEnv -> string) (e : Z) : M A :=
  env ← ask_env; raise (from_errno c (msg env) e).

Definition positive_or (dflt : Z) (o : option Z) : Z :=
  match o with Some v => if 0 <? v then u32 v else dflt | None => dflt end.

(** [geometry_for] on Linux; [write] is the access mode of the descriptor. *)
Definition geometry_for (fd : Z) (write : bool) : M DeviceGeometry :=
  st ← sys_fstat fd;
  match st with
  | inl e => raise (from_errno io "fstat failed" e)
  | inr k =>
      let g := match k with
               | BlockNode _ bytes logical physical =>
                   mkGeometry (default 0 bytes) (positive_or 512 logical)
                              (positive_or 512 physical) true (negb write)
               | _ => mkGeometry 0 512 512 false (negb write)
               end in
      if negb (is_block_device g) || (size_bytes g =? 0) then
        h ← get_host;
        match k with
        | Regular => mret (mkGeometry (zlen (content (file_of h fd))) (logical_sector g)
                             (physical_sector g) (is_block_device g) (read_only g))
        | BlockNode _ _ _ _ =>
            mret (mkGeometry (zlen (content (file_of h fd))) (logical_sector g)
                    (physical_sector g) (is_block_device g) (read_only g))
        | OtherNode e =>
            mret (mkGeometry (match e with Some n => if 0 <=? n then n else size_bytes g
                                         | None => size_bytes g end)
                    (logical_sector g) (physical_sector g) (is_block_device g) (read_only g))
        end
      else mret g
  end.

Definition open_device_impl (path : string) (write : bool) : M BlockDevice :=
  r ← sys_open path;
  match r with
  | inl e =>
      let c := if (e =? EACCES) || (e =? EPERM) then permission else open_failed in
      raise_errno c (fun env => "cannot open " +:+ path +:+ ": " +:+ strerror env e) e
  | inr fd => g ← geometry_for fd write; mret (mkDevice fd path g write)
  end.

Definition open_read (path : string) : M BlockDevice := open_device_impl path false.
Definition open_write (path : string) : M BlockDevice := open_device_impl path true.

(** [unlink], its result ignored by the callers that clean up. *)
Definition unlink_ignored (path : string) : M unit := fun h =>
  match next_event h with
  | (Ret (Sys_err _ _), h') => (Ret tt, h')
  | (_, h') => (Ret tt, set_names (delete path (h_names h')) h')
  end.

Definition create_file (path : string) (size : Z) : M BlockDevice :=
  if off_max <? size then failM unsupported "requested file size exceeds host off_t"
  else
    r ← sys_create path;
    match r with
    | inl e => raise_errno open_failed
                 (fun env => "cannot create " +:+ path +:+ ": " +:+ strerror env e) e
    | inr fd =>
        t ← sys_ftruncate fd size;
        match t with
        | inl e =>
            unlink_ignored path;;
            raise_errno write_failed
              (fun env => "cannot size " +:+ path +:+ ": " +:+ strerror env e) e
        | inr _ =>
            g ← attempt (geometry_for fd true);
            match g with
            | Err e => unlink_ignored path;; raise e
            | Ok g => mret (mkDevice fd path g true)
            end
        end
    end.

(** The loop of [read_exact]; [acc] is the part of the buffer filled so far. *)
Fixpoint read_loop (fuel : nat) (d : BlockDevice) (off size : Z) (acc : bytes) : M bytes :=
  match fuel with
  | O => fun h => (OutOfFuel, h)
  | S fuel =>
      let done := zlen acc in
      if size <=? done then mret acc
      else
        let want := Z.min (size - done) ssize_max in
        let pos := off + done in
        r ← sys_pread (fd_ d) pos want;
        match r with
        | inl e =>
            if e =? EINTR then read_loop fuel d off size acc
            else raise_errno read_failed
                   (fun env => "read failed at byte " +:+ pretty pos +:+ ": " +:+ strerror env e) e
        | inr [] => failM short_io ("unexpected end of device at byte " +:+ pretty pos)
        | inr bs => read_loop fuel d off size (acc ++ bs)
        end
  end.

(** Every iteration but the last two consumes an event of the host. *)
Definition io_fuel (h : Host) : nat := length (h_events h) + 2.

Definition read_exact (d : BlockDevice) (off size : Z) : M bytes :=
  fault_hook op_read before;;
  if (size_bytes (geometry d) <? off) || (size_bytes (geometry d) - off <? size)
  then failM short_io "read range exceeds device geometry"
  else if (off_max <? off) || (off_max - off <? size)
  then failM unsupported "read range exceeds host off_t"
  else
    h ← get_host;
    bs ← read_loop (io_fuel h) d off size [];
    fault_hook op_read after;;
    mret bs.

(** The loop of [write_exact]; [done] bytes of [data] are written. *)
Fixpoint write_loop (fuel : nat) (d : BlockDevice) (off : Z) (data : bytes) (done : Z) : M unit :=
  match fuel with
  | O => fun h => (OutOfFuel, h)
  | S fuel =>
      if zlen data <=? done then mret tt
      else
        let want := Z.min (zlen data - done) ssize_max in
        let pos := off + done in
        r ← sys_pwrite (fd_ d) pos (slice data done want);
        match r with
        | inl e =>
            if e =? EINTR then write_loop fuel d off data done
            else raise_errno write_failed
                   (fun env => "write failed at byte " +:+ pretty pos +:+ ": " +:+ strerror env e) e
        | inr n =>
            if n =? 0 then failM short_io "short write"
            else write_loop fuel d off data (done + n)
        end
  end.

Definition write_exact (d : BlockDevice) (off : Z) (data : bytes) : M unit :=
  fault_hook op_write before;;
  if negb (writable_ d) then failM permission "device is read-only"
  else if (size_bytes (geometry d) <? off) || (size_bytes (geometry d) - off <? zlen data)
  then failM short_io "write range exceeds device geometry"
  else if (off_max <? off) || (off_max - off <? zlen data)
  then failM unsupported "write range exceeds host off_t"
  else
    h ← get_host;
    write_loop (io_fuel h) d off data 0;;
    fault_hook op_write after.

Definition flush (d : BlockDevice) : M unit :=
  fault_hook op_flush before;;
  r ← sys_fsync (fd_ d);
  match r with
  | inl e => raise_errno flush_failed (fun env => "fsync failed: " +:+ strerror env e) e
  | inr _ => fault_hook op_flush after
  end.

(** ** What the loops transfer *)

Lemma sys_pread_spec fd off want h :
  wp (sys_pread fd off want) h (fun o h' => quiet h h' /\
    match o with
    | Ret (inr bs) =>
        (exists n, n <= want /\ bs = slice (content (file_of h fd)) off n) /\
        (h_events h = [] -> h_events h' = [] /\
                            bs = slice (content (file_of h fd)) off want)
    | Ret (inl _) => h_events h <> []
    | _ => False
    end /\
    (h_events h = [] \/ length (h_events h) = S (length (h_events h')))).
Proof.
  unfold wp, sys_pread, next_event.
  destruct (h_events h) as [|[|n|e p] es] eqn:E; cbn.
  - split; [apply quiet_refl|]. split; [|by left].
    split; [by exists want|]. intros _. by rewrite E.
  - split; [by repeat split|]. split; [|by right]. split; [by exists want|done].
  - split; [by repeat split|]. split; [|by right].
    split; [|done]. exists (Z.min want n). split; [lia|done].
  - split; [by repeat split|]. split; [done|by right].
Qed.

Lemma quiet_file_of h h' fd : quiet h h' -> file_of h' fd = file_of h fd.
Proof. unfold quiet, file_of. by intros (-> & _). Qed.

Definition read_post (c : bytes) (off size : Z) (h : Host)
    (o : Outcome bytes) (h' : Host) : Prop :=
  quiet h h' /\ o <> OutOfFuel /\
  forall bs, o = Ret bs -> bs = slice c off size /\ zlen bs = size.

Lemma raise_errno_read_post c off size cd msg e h :
  wp (raise_errno cd msg e) h (read_post c off size h).
Proof. unfold wp, raise_errno, ask_env, raise, mbind, M_bind. by repeat split. Qed.

Lemma failM_read_post c off size cd msg h :
  wp (failM cd msg) h (read_post c off size h).
Proof. by repeat split. Qed.

Lemma read_post_quiet c off size h h' o h'' :
  quiet h h' -> read_post c off size h' o h'' -> read_post c off size h o h''.
Proof. intros Hq (Hq' & H). split; [by eapply quiet_trans|done]. Qed.

Lemma read_post_step fd off size h h' (m : M bytes) :
  quiet h h' ->
  wp m h' (read_post (content (file_of h' fd)) off size h') ->
  wp m h' (read_post (content (file_of h fd)) off size h).
Proof.
  intros Hq Hm. rewrite (quiet_file_of _ _ _ Hq) in Hm.
  eapply wp_mono; [exact Hm|]. intros o h''. by apply read_post_quiet.
Qed.

(** The last iteration on a host without events. *)
Lemma read_loop_last fuel d off size acc h :
  0 <= off -> zlen acc <= size ->
  acc = slice (content (file_of h (fd_ d))) off (zlen acc) ->
  h_events h = [] -> (0 < fuel)%nat ->
  zlen acc = size \/
    slice (content (file_of h (fd_ d))) (off + zlen acc) (Z.min (size - zlen acc) ssize_max) = [] ->
  wp (read_loop fuel d off size acc) h
     (read_post (content (file_of h (fd_ d))) off size h).
Proof.
  intros Ho Hs Ha He Hf Hend. destruct fuel as [|fuel]; [lia|]. cbn [read_loop].
  destruct (Z.leb_spec size (zlen acc)).
  - apply wp_ret. split_and!; [apply quiet_refl|done|].
    intros bs [= <-]. assert (zlen acc = size) as <- by lia. done.
  - destruct Hend as [|Hend]; [lia|]. apply wp_bind.
    eapply wp_mono; [apply sys_pread_spec|]. intros o h' (Hq & Ho' & _).
    destruct o as [[e|bs]| | |]; try done. destruct Ho' as [_ Hbs].
    destruct (Hbs He) as [_ ->]. rewrite Hend. cbn [carry].
    apply read_post_step; [done|]. apply failM_read_post.
Qed.

Lemma read_loop_spec fuel d off size acc h :
  0 <= off -> zlen acc <= size -> size <= ssize_max ->
  acc = slice (content (file_of h (fd_ d))) off (zlen acc) ->
  (length (h_events h) + 2 <= fuel)%nat ->
  wp (read_loop fuel d off size acc) h
     (read_post (content (file_of h (fd_ d))) off size h).
Proof.
  revert acc h. induction fuel as [|fuel IH]; intros acc h Ho Hs Hm Ha Hf; [lia|].
  cbn [read_loop]. pose proof (zlen_nonneg acc).
  destruct (Z.leb_spec size (zlen acc)).
  { apply wp_ret. split_and!; [apply quiet_refl|done|].
    intros bs [= <-]. assert (zlen acc = size) as <- by lia. done. }
  apply wp_bind. eapply wp_mono; [apply sys_pread_spec|].
  intros o h' (Hq & Ho' & Hev). destruct o as [[e|bs]| | |]; try done; cbn [carry];
    apply read_post_step; try done.
  - case_match; [|apply raise_errno_read_post].
    apply IH; try done; [by rewrite (quiet_file_of _ _ _ Hq)|].
    destruct Hev as [|Hev]; [done|lia].
  - destruct Ho' as [[n [Hn Hbs]] Hcalm].
    destruct bs as [|b bs']; [apply failM_read_post|].
    set (bs := b :: bs') in *.
    assert (Hlen : zlen bs <= size - zlen acc).
    { rewrite Hbs. destruct (Z.le_gt_cases 0 n);
        [pose proof (zlen_slice_le (content (file_of h (fd_ d))) (off + zlen acc) n); lia|].
      rewrite slice_nonpos by lia. change (0 <= size - zlen acc). lia. }
    assert (Hacc : acc ++ bs = slice (content (file_of h' (fd_ d))) off (zlen (acc ++ bs))).
    { pose proof (zlen_nonneg bs). rewrite (quiet_file_of _ _ _ Hq).
      rewrite zlen_app, slice_split, <-Ha by lia.
      f_equal. rewrite Hbs. apply slice_own_length. }
    destruct Hev as [Hev|Hev].
    + destruct (Hcalm Hev) as [Hev' Hfull]. rewrite <-(quiet_file_of _ _ _ Hq) in Hfull.
      apply read_loop_last; try done; [rewrite zlen_app; lia|rewrite Hev in Hf; cbn in Hf; lia|].
      rewrite zlen_app. destruct (Z.eq_dec (zlen acc + zlen bs) size); [by left|right].
      rewrite Hfull. rewrite Z.min_l by lia. rewrite zlen_slice_min by lia.
      set (c := content _). unfold slice. rewrite drop_ge; [by rewrite take_nil|].
      assert (zlen bs = Z.max 0 (Z.min (size - zlen acc) (zlen c - (off + zlen acc))))
        by (rewrite Hfull, Z.min_l, zlen_slice_min by lia; done).
      assert (0 < zlen bs) by (unfold bs, zlen; cbn [length]; lia).
      unfold zlen in *. lia.
    + apply IH; try done; rewrite ?zlen_app; lia.
Qed.

(** ** The contract of a read *)

(** The file behind an open device, with every pending write inside it. *)
Definition dev_file (h : Host) (d : BlockDevice) (f : File) : Prop :=
  h_files h !! fd_ d = Some f /\ file_ok (size_bytes (geometry d)) f.

Lemma dev_file_of h d f : dev_file h d f -> file_of h (fd_ d) = f.
Proof. intros [H _]. unfold file_of. by rewrite H. Qed.

Lemma dev_file_quiet h h' d f : quiet h h' -> dev_file h d f -> dev_file h' d f.
Proof. unfold dev_file, quiet. by intros (-> & _). Qed.

Lemma read_exact_spec d off size h f :
  dev_file h d f -> 0 <= off -> 0 <= size ->
  wp (read_exact d off size) h (fun o h' =>
    quiet h h' /\ o <> OutOfFuel /\
    forall bs, o = Ret bs ->
      bs = slice (content f) off size /\ zlen bs = size /\
      off + size <= size_bytes (geometry d)).
Proof.
  intros Hf Ho Hs. unfold read_exact. apply wp_bind.
  eapply wp_mono; [apply fault_hook_spec|]. intros o h1 (Hq1 & He1 & Hne).
  destruct o as [u|e|s|]; cbn [carry]; try done.
  destruct (Z.ltb_spec (size_bytes (geometry d)) off); cbn [orb]; [done|].
  destruct (Z.ltb_spec (size_bytes (geometry d) - off) size); [done|].
  destruct (Z.ltb_spec off_max off); cbn [orb]; [done|].
  destruct (Z.ltb_spec (off_max - off) size); [done|].
  apply wp_bind. unfold wp at 1, get_host. cbn [fst snd carry].
  apply wp_bind. eapply wp_mono.
  { apply read_loop_spec; [done|done|unfold off_max, ssize_max in *; lia| |done].
    cbn. by rewrite slice_nonpos. }
  rewrite (dev_file_of _ _ _ (dev_file_quiet _ _ _ _ Hq1 Hf)).
  intros o h2 (Hq2 & Hne2 & Hbs).
  assert (Hq : quiet h h2) by (by eapply quiet_trans).
  destruct o as [bs|e|s|]; cbn [carry]; try done.
  apply wp_bind. eapply wp_mono; [apply fault_hook_spec|]. intros o h3 (Hq3 & He3 & Hne3).
  assert (Hq' : quiet h h3) by (by eapply quiet_trans).
  destruct o as [u'|e|s|]; cbn [carry]; try done.
  apply wp_ret. split_and!; [done|done|]. intros bs' [= <-].
  destruct (Hbs bs eq_refl). split_and!; [done|done|lia].
Qed.

(** ** The contract of a write *)

Definition add_writes (ws : list (Z * bytes)) (f : File) : File :=
  mkFile (f_kind f) (f_durable f) (f_pending f ++ ws).

(** [w] carries bytes of [data] to their place in a write of [data] at [off]. *)
Definition chunk (off : Z) (data : bytes) (w : Z * bytes) : Prop :=
  off <= w.1 /\ w.1 + zlen w.2 <= off + zlen data /\
  w.2 = slice data (w.1 - off) (zlen w.2).

(** [c] holds the bytes [a .. b) of [data] written at [off]. *)
Definition covers (off : Z) (data : bytes) (a b : Z) (c : bytes) : Prop :=
  forall i, off + a <= i < off + b -> c !! Z.to_nat i = data !! Z.to_nat (i - off).
Definition same_outside (off n : Z) (c c' : bytes) : Prop :=
  zlen c = zlen c' /\
  forall i, 0 <= i -> i < off \/ off + n <= i -> c' !! Z.to_nat i = c !! Z.to_nat i.

Lemma add_writes_nil f : add_writes [] f = f.
Proof. unfold add_writes. rewrite app_nil_r. by destruct f. Qed.
Lemma add_writes_app ws ws' f : add_writes ws' (add_writes ws f) = add_writes (ws ++ ws') f.
Proof. unfold add_writes. cbn. by rewrite <-app_assoc. Qed.
Lemma add_pending_writes w f : add_pending w f = add_writes [w] f.
Proof. done. Qed.

Lemma file_ok_add_writes n off data ws f :
  file_ok n f -> 0 <= off -> off + zlen data <= n -> Forall (chunk off data) ws ->
  file_ok n (add_writes ws f).
Proof.
  intros [Hd Hp] Ho Hn Hws. split; [done|]. cbn. apply Forall_app. split; [done|].
  eapply Forall_impl; [exact Hws|]. intros [o d] (H1 & H2 & _). cbn in *. lia.
Qed.

Lemma apply_chunk off data w c :
  0 <= off -> off + zlen data <= zlen c -> chunk off data w ->
  same_outside off (zlen data) c (apply_write c w) /\
  covers off data (w.1 - off) (w.1 - off + zlen w.2) (apply_write c w) /\
  forall b, covers off data 0 b c -> covers off data 0 b (apply_write c w).
Proof.
  destruct w as [o d]. unfold chunk. cbn [fst snd]. intros Ho Hc (H1 & H2 & H3).
  pose proof (zlen_nonneg d). unfold apply_write. cbn [fst snd].
  rewrite pad_to_id by lia.
  assert (Hget : forall i, 0 <= i -> splice c o d !! Z.to_nat i =
    if decide (o <= i < o + zlen d) then data !! Z.to_nat (i - off) else c !! Z.to_nat i).
  { intros i Hi. rewrite lookup_splice by lia. rewrite Z2Nat.id by lia.
    repeat case_decide; try lia; try done.
    rewrite H3, lookup_slice by lia. rewrite decide_True by lia. f_equal. lia. }
  split_and!.
  - split; [symmetry; apply zlen_splice; lia|]. intros i Hi Hout.
    rewrite Hget by lia. rewrite decide_False by lia. done.
  - intros i Hi. rewrite Hget by lia. by rewrite decide_True by lia.
  - intros b Hcov i Hi. rewrite Hget by lia. case_decide; [done|]. by apply Hcov.
Qed.

Lemma covers_join off data b b' c :
  covers off data 0 b c -> covers off data b b' c -> covers off data 0 b' c.
Proof.
  intros H1 H2 i Hi. destruct (Z.lt_ge_cases i (off + b)); [apply H1|apply H2]; lia.
Qed.

Lemma covers_all off data c c' :
  0 <= off -> off + zlen data <= zlen c -> same_outside off (zlen data) c c' ->
  covers off data 0 (zlen data) c' -> c' = splice c off data.
Proof.
  intros Ho Hc [Hl Hout] Hcov. pose proof (zlen_nonneg data).
  apply list_eq. intros i. rewrite lookup_splice by lia.
  rewrite <-(Nat2Z.id i) at 1. repeat case_decide.
  - rewrite Hout by lia. by rewrite Nat2Z.id.
  - rewrite Hcov by lia. f_equal. lia.
  - rewrite Hout by lia. by rewrite Nat2Z.id.
Qed.

Lemma same_outside_refl off n c : same_outside off n c c.
Proof. by split. Qed.
Lemma same_outside_trans off n c1 c2 c3 :
  same_outside off n c1 c2 -> same_outside off n c2 c3 -> same_outside off n c1 c3.
Proof.
  intros [H1 H2] [H3 H4]. split; [lia|]. intros i Hi Ho. by rewrite H4, H2.
Qed.

(** Writes of chunks leave everything outside the range as it was. *)
Lemma content_add_writes off data ws f :
  0 <= off -> off + zlen data <= zlen (content f) -> Forall (chunk off data) ws ->
  same_outside off (zlen data) (content f) (content (add_writes ws f)) /\
    forall b, covers off data 0 b (content f) -> covers off data 0 b (content (add_writes ws f)).
Proof.
  intros Ho. revert f. induction ws as [|w ws IH]; intros f Hc Hws.
  - rewrite add_writes_nil. split; [apply same_outside_refl|done].
  - apply Forall_cons in Hws as [Hw Hws].
    change (w :: ws) with ([w] ++ ws). rewrite <-add_writes_app, <-add_pending_writes.
    destruct (apply_chunk off data w (content f)) as (H1 & H2 & H3); try done.
    rewrite <-content_add_pending in H1, H2, H3.
    destruct (IH (add_pending w f)) as [H4 H5]; [destruct H1 as [<- _]; done|done|].
    split; [by eapply same_outside_trans|]. eauto.
Qed.

(** The outcome of a write: chunks of the data became pending, and all of it
    is in place when the write returns a value. *)
Definition write_post {A} (fd off : Z) (data : bytes) (f : File) (h : Host)
    (o : Outcome A) (h' : Host) : Prop :=
  o <> OutOfFuel /\
    exists ws, Forall (chunk off data) ws /\
    with_files (<[fd := add_writes ws f]> (h_files h)) h h' /\
    forall a, o = Ret a -> content (add_writes ws f) = splice (content f) off data.

Lemma sys_pwrite_spec fd off data h :
  wp (sys_pwrite fd off data) h (fun o h' =>
    exists n, 0 <= n <= zlen data /\
    with_files (<[fd := add_pending (off, slice data 0 n) (file_of h fd)]> (h_files h)) h h' /\
    match o with
      | Ret (inr k) => k = n /\
    (h_events h = [] -> n = zlen data /\ h_events h' = [])
      | Ret (inl _) => h_events h <> []
      | _ => False
      end /\
    (h_events h = [] \/ length (h_events h) = S (length (h_events h')))).
Proof.
  pose proof (zlen_nonneg data) as Hd.
  assert (Htake : forall n, slice data 0 (Z.max 0 (Z.min n (zlen data))) = take (Z.to_nat n) data).
  { intros n. unfold slice, zlen. change (drop (Z.to_nat 0) data) with data.
    destruct (Z.le_gt_cases n (Z.of_nat (length data))).
    - f_equal. lia.
    - rewrite (take_ge data (Z.to_nat n)) by lia. apply take_ge. lia. }
  unfold wp, sys_pwrite, next_event.
  destruct (h_events h) as [|[|n|e p] es] eqn:E; cbn.
  - exists (zlen data). split; [lia|]. rewrite slice_all by done.
    rewrite (take_ge data) by (unfold zlen; lia). split; [done|]. split; [done|by left].
  - exists (zlen data). split; [lia|]. rewrite slice_all by done.
    rewrite (take_ge data) by (unfold zlen; lia). split; [done|]. split; [done|by right].
  - exists (Z.max 0 (Z.min n (zlen data))). split; [lia|]. rewrite Htake.
    replace (take (Z.to_nat (Z.max 0 (Z.min n (zlen data)))) data)
      with (take (Z.to_nat n) data) by (by rewrite <-Htake).
    split; [done|]. split; [done|by right].
  - exists (Z.max 0 (Z.min p (zlen data))). split; [lia|]. rewrite Htake.
    split; [done|]. split; [done|by right].
Qed.

Lemma splice_same_outside off data c c' :
  0 <= off -> off + zlen data <= zlen c -> same_outside off (zlen data) c c' ->
  splice c' off data = splice c off data.
Proof.
  intros Ho Hc Hs. pose proof (zlen_nonneg data). pose proof (proj1 Hs).
  apply covers_all; try done.
  - split; [rewrite zlen_splice; lia|]. intros i Hi Hout. rewrite lookup_splice by lia.
    rewrite Z2Nat.id by lia. repeat case_decide; try lia; by apply Hs.
  - intros i Hi. rewrite lookup_splice by lia. rewrite Z2Nat.id by lia.
    rewrite decide_False, decide_True by lia. f_equal. lia.
Qed.

Lemma with_files_insert_twice fd f1 f2 h h1 h2 :
  with_files (<[fd := f1]> (h_files h)) h h1 ->
  with_files (<[fd := f2]> (h_files h1)) h1 h2 ->
  with_files (<[fd := f2]> (h_files h)) h h2.
Proof.
  unfold with_files. intros (E1 & ? & ? & ? & ?) (E2 & ? & ? & ? & ?).
  rewrite E1, insert_insert_eq in E2. split_and!; congruence.
Qed.

Lemma write_post_step {A} fd off data w f h h1 (o : Outcome A) h' :
  0 <= off -> off + zlen data <= zlen (content f) -> chunk off data w ->
  with_files (<[fd := add_pending w f]> (h_files h)) h h1 ->
  write_post fd off data (add_pending w f) h1 o h' ->
  write_post fd off data f h o h'.
Proof.
  intros Ho Hc Hw Hf (Hne & ws & Hws & Hf' & Hval). split; [done|].
  exists (w :: ws). change (w :: ws) with ([w] ++ ws).
  rewrite <-add_writes_app, <-add_pending_writes.
  split; [by apply Forall_cons|]. split; [by eapply with_files_insert_twice|].
  intros a Ha. rewrite (Hval a Ha). rewrite content_add_pending.
  apply splice_same_outside; try done. by apply apply_chunk.
Qed.

Lemma write_post_quiet {A} fd off data f h h1 (o : Outcome A) h' :
  quiet h h1 -> write_post fd off data f h1 o h' -> write_post fd off data f h o h'.
Proof.
  intros Hq (Hne & ws & Hws & Hf & Hval). split; [done|]. exists ws.
  split; [done|]. split; [|done].
  destruct Hq as (<- & Hq). destruct Hf as (Hf & Hf'). unfold with_files.
  intuition congruence.
Qed.

Lemma write_post_none {A} fd off data f h (o : Outcome A) h' :
  h_files h !! fd = Some f -> quiet h h' -> o <> OutOfFuel -> (forall a, o <> Ret a) ->
  write_post fd off data f h o h'.
Proof.
  intros Hf Hq Hne Hno. split; [done|]. exists []. rewrite add_writes_nil.
  split; [done|]. split; [|intros a Ha; by destruct (Hno a)].
  rewrite insert_id by done. by apply quiet_with_files.
Qed.

Definition write_fuel (fuel : nat) (data : bytes) (done : Z) (h : Host) : Prop :=
  (length (h_events h) + 2 <= fuel)%nat \/
  (h_events h = [] /\ done = zlen data /\ (0 < fuel)%nat).

Lemma raise_errno_write_post {A} fd off data f cd msg e h :
  h_files h !! fd = Some f ->
  wp (raise_errno (A:=A) cd msg e) h (write_post fd off data f h).
Proof. intros. by apply write_post_none. Qed.

Lemma write_loop_spec fuel d off data done h f :
  h_files h !! fd_ d = Some f -> 0 <= off -> off + zlen data <= zlen (content f) ->
  0 <= done <= zlen data -> zlen data <= ssize_max ->
  covers off data 0 done (content f) -> write_fuel fuel data done h ->
  wp (write_loop fuel d off data done) h (write_post (fd_ d) off data f h).
Proof.
  revert done h f. induction fuel as [|fuel IH]; intros done h f Hf Ho Hc Hd Hm Hcov Hfuel;
    [unfold write_fuel in Hfuel; lia|].
  cbn [write_loop]. destruct (Z.leb_spec (zlen data) done).
  { apply wp_ret. assert (done = zlen data) as -> by lia. split; [done|].
    exists []. rewrite add_writes_nil. split; [done|]. split.
    - rewrite insert_id by done. by apply quiet_with_files.
    - intros _ _. by apply covers_all. }
  destruct Hfuel as [Hfuel|Hfuel]; [|lia].
  apply wp_bind. eapply wp_mono; [apply sys_pwrite_spec|].
  assert (Hfo : file_of h (fd_ d) = f) by (unfold file_of; by rewrite Hf).
  rewrite Hfo. rewrite Z.min_l by lia.
  rewrite zlen_slice by lia. intros o h1 (n & Hn & Hf1 & Ho' & Hev).
  rewrite slice_slice, Z.add_0_r in Hf1 by lia.
  set (w := (off + done, slice data done n)) in *.
  assert (Hw : chunk off data w).
  { unfold chunk, w. cbn [fst snd]. rewrite zlen_slice by lia.
    split_and!; try lia. f_equal; lia. }
  pose proof (apply_chunk off data w (content f) Ho Hc Hw) as (Hs1 & Hs2 & Hs3).
  rewrite <-content_add_pending in Hs1, Hs2, Hs3.
  assert (Hf1' : h_files h1 !! fd_ d = Some (add_pending w f)).
  { destruct Hf1 as [-> _]. apply lookup_insert_eq. }
  assert (Hcov' : covers off data 0 (done + n) (content (add_pending w f))).
  { apply covers_join with (b := done); [by apply Hs3|].
    unfold w in Hs2. cbn [fst snd] in Hs2. rewrite zlen_slice in Hs2 by lia.
    intros i Hi. apply Hs2. lia. }
  assert (Hc' : off + zlen data <= zlen (content (add_pending w f)))
    by (rewrite <-(proj1 Hs1); done).
  assert (Hstep : forall A (m : M A),
    wp m h1 (write_post (fd_ d) off data (add_pending w f) h1) ->
    wp m h1 (write_post (fd_ d) off data f h)).
  { intros A m Hwp. eapply wp_mono; [exact Hwp|]. intros o' h'.
    by apply write_post_step. }
  destruct o as [[e|k]|e|s|]; try done; cbn [carry]; apply Hstep.
  - case_match; [|by apply raise_errno_write_post].
    apply IH; try done; [by apply Hs3|]. left.
    destruct Hev as [Hev|Hev]; [done|lia].
  - destruct Ho' as [-> Hnil]. destruct (Z.eqb_spec n 0).
    + by apply write_post_none.
    + apply IH; try done; [lia|]. destruct Hev as [Hev|Hev].
      * destruct (Hnil Hev) as [-> Hev']. right. split_and!; [done|lia|].
        rewrite Hev in Hfuel. cbn in Hfuel. lia.
      * left. lia.
Qed.

Lemma write_exact_spec d off data h f :
  dev_file h d f -> 0 <= off ->
  wp (write_exact d off data) h (fun o h' =>
    write_post (fd_ d) off data f h o h' /\
    (o = Ret tt -> writable_ d = true /\ off + zlen data <= size_bytes (geometry d)) /\
    (off + zlen data <= size_bytes (geometry d) \/ quiet h h')).
Proof.
  intros [Hf Hok] Ho. pose proof (zlen_content _ _ Hok) as Hlen.
  pose proof (zlen_nonneg data). unfold write_exact. apply wp_bind.
  eapply wp_mono; [apply fault_hook_spec|]. intros o h1 (Hq1 & He1 & Hne).
  assert (Hf1 : h_files h1 !! fd_ d = Some f) by (destruct Hq1 as [-> _]; done).
  assert (Hfail : forall (o : Outcome unit), o <> OutOfFuel -> (forall a, o <> Ret a) ->
    write_post (fd_ d) off data f h o h1 /\
    (o = Ret tt -> writable_ d = true /\ off + zlen data <= size_bytes (geometry d)) /\
    (off + zlen data <= size_bytes (geometry d) \/ quiet h h1)).
  { intros o' Hne' Hno. split_and!; [by apply write_post_none| |by right].
    intros ->. by destruct (Hno tt). }
  destruct o as [u|e|s|]; cbn [carry]; try (by apply Hfail).
  destruct (writable_ d) eqn:Hw; cbn [negb]; [|by apply Hfail].
  destruct (Z.ltb_spec (size_bytes (geometry d)) off); cbn [orb]; [by apply Hfail|].
  destruct (Z.ltb_spec (size_bytes (geometry d) - off) (zlen data)); [by apply Hfail|].
  destruct (Z.ltb_spec off_max off); cbn [orb]; [by apply Hfail|].
  destruct (Z.ltb_spec (off_max - off) (zlen data)); [by apply Hfail|].
  apply wp_bind. unfold wp at 1, get_host. cbn [fst snd carry].
  apply wp_bind. eapply wp_mono.
  { apply (write_loop_spec _ d off data 0 h1 f); try done; try lia.
    - unfold off_max, ssize_max in *. lia.
    - intros i Hi. lia.
    - left. unfold io_fuel. lia. }
  intros o h2 Hpost. apply (write_post_quiet _ _ _ _ _ _ _ _ Hq1) in Hpost.
  destruct o as [[]|e|s|]; cbn [carry];
    try (split_and!; [by destruct Hpost as (Hn & Hp)|done|left; lia]).
  eapply wp_mono; [apply fault_hook_spec|]. intros o h3 (Hq3 & He3 & Hne3).
  split_and!; [|by split; [done|lia]|left; lia].
  destruct Hpost as (_ & ws & Hws & Hfiles & Hval). split; [done|].
  exists ws. split; [done|]. split; [by eapply with_files_quiet|].
  intros a ->. by apply (Hval tt).
Qed.

(** ** The contract of a flush *)

Lemma flush_spec d h f :
  h_files h !! fd_ d = Some f ->
  wp (flush d) h (fun o h' => o <> OutOfFuel /\
    (with_files (<[fd_ d := synced f]> (h_files h)) h h' \/
     quiet h h' /\ o <> Ret tt)).
Proof.
  intros Hf. unfold flush. apply wp_bind.
  eapply wp_mono; [apply fault_hook_spec|]. intros o h1 (Hq1 & He1 & Hne).
  destruct o as [u|e|s|]; cbn [carry]; try (by split; [done|right]).
  apply wp_bind.
  assert (Hfo : file_of h1 (fd_ d) = f)
    by (unfold file_of; destruct Hq1 as [-> _]; by rewrite Hf).
  unfold wp at 1, sys_fsync, sys_call, next_event.
  assert (Hput : forall es, with_files (<[fd_ d := synced f]> (h_files h)) h
      (set_file (fd_ d) (synced f) (set_events es h1))).
  { intros es. destruct Hq1 as (E & ? & ? & ? & ?).
    unfold with_files, set_file. cbn. by rewrite E. }
  assert (Hput' : with_files (<[fd_ d := synced f]> (h_files h)) h
      (set_file (fd_ d) (synced f) h1)).
  { destruct Hq1 as (E & ? & ? & ? & ?). unfold with_files, set_file. cbn. by rewrite E. }
  assert (Hok : forall h2, with_files (<[fd_ d := synced f]> (h_files h)) h h2 ->
    wp (fault_hook op_flush after) h2 (fun o h' => o <> OutOfFuel /\
      (with_files (<[fd_ d := synced f]> (h_files h)) h h' \/ quiet h h' /\ o <> Ret tt))).
  { intros h2 Hw. eapply wp_mono; [apply fault_hook_spec|]. intros o h3 (Hq3 & _ & Hn).
    split; [done|]. left. by eapply with_files_quiet. }
  destruct (h_events h1) as [|[|n|e p] es] eqn:E; cbn [fst snd carry].
  - change (file_of h1 (fd_ d)) with (file_of h1 (fd_ d)). rewrite Hfo. by apply Hok.
  - change (file_of (set_events es h1) (fd_ d)) with (file_of h1 (fd_ d)).
    rewrite Hfo. apply Hok, Hput.
  - change (file_of (set_events es h1) (fd_ d)) with (file_of h1 (fd_ d)).
    rewrite Hfo. apply Hok, Hput.
  - split; [done|]. right. split; [|done]. unfold quiet in *. cbn. done.
Qed.

(** ** Runs on a calm host *)

Definition in_range (d : BlockDevice) (off n : Z) : Prop :=
  0 <= off /\ 0 <= n /\ off + n <= size_bytes (geometry d) /\
  size_bytes (geometry d) <= off_max.

Lemma in_range_checks d off n :
  in_range d off n ->
  (size_bytes (geometry d) <? off) || (size_bytes (geometry d) - off <? n) = false /\
  (off_max <? off) || (off_max - off <? n) = false.
Proof.
  unfold in_range. intros. split; apply orb_false_iff; rewrite !Z.ltb_ge; lia.
Qed.

Lemma M_bind_ret {A B} (m : M A) (k : A -> M B) h a h' :
  m h = (Ret a, h') -> (m ≫= k) h = k a h'.
Proof. intros H. unfold mbind, M_bind. by rewrite H. Qed.

Lemma M_bind_fail {A B} (m : M A) (k : A -> M B) h e h' :
  m h = (Fail e, h') -> (m ≫= k) h = (Fail e, h').
Proof. intros H. unfold mbind, M_bind. by rewrite H. Qed.

Lemma calm_next_event h : calm h -> next_event h = (Ret Sys_ok, h).
Proof. intros [H _]. unfold next_event. by rewrite H. Qed.

Lemma calm_set_file fd f h : calm h -> calm (set_file fd f h).
Proof. done. Qed.
#[export] Hint Resolve calm_set_file : fsx.

Lemma calm_read d off n h f :
  calm h -> dev_file h d f -> in_range d off n ->
  read_exact d off n h = (Ret (slice (content f) off n), h).
Proof.
  intros Hc Hf Hr. destruct (in_range_checks _ _ _ Hr) as [E1 E2]. destruct Hr as (? & ? & ? & ?).
  pose proof (zlen_content _ _ (proj2 Hf)) as Hlen.
  unfold read_exact. rewrite (M_bind_ret _ _ _ tt h) by (apply fault_hook_calm, Hc).
  rewrite E1, E2. rewrite (M_bind_ret _ _ _ h h) by done.
  assert (Hz : zlen (slice (content f) off n) = n) by (rewrite zlen_slice; lia).
  assert (Hl : read_loop (io_fuel h) d off n [] h = (Ret (slice (content f) off n), h)).
  { unfold io_fuel. rewrite (proj1 Hc). cbn [length Nat.add read_loop].
    change (zlen (@nil byte)) with 0. destruct (Z.leb_spec n 0).
    { rewrite slice_nonpos by lia. done. }
    rewrite (M_bind_ret _ _ _ (inr (slice (content f) off n)) h).
    2: { unfold sys_pread. rewrite calm_next_event by done.
         rewrite (dev_file_of _ _ _ Hf), Z.add_0_r, Z.sub_0_r.
         rewrite Z.min_l by (unfold off_max, ssize_max in *; lia). done. }
    destruct (slice (content f) off n) as [|b bs] eqn:E; [unfold zlen in Hz; cbn in Hz; lia|].
    cbn [app]. rewrite Hz. by rewrite Z.leb_refl. }
  rewrite (M_bind_ret _ _ _ _ _ Hl). rewrite (M_bind_ret _ _ _ tt h); [done|].
  apply fault_hook_calm, Hc.
Qed.

Lemma calm_write d off data h f :
  calm h -> dev_file h d f -> writable_ d = true ->
  in_range d off (zlen data) -> data <> [] ->
  write_exact d off data h = (Ret tt, set_file (fd_ d) (add_pending (off, data) f) h).
Proof.
  intros Hc Hf Hw Hr Hne. destruct (in_range_checks _ _ _ Hr) as [E1 E2].
  destruct Hr as (? & ? & ? & ?).
  assert (0 < zlen data) by (destruct data; [done|unfold zlen; cbn [length]; lia]).
  unfold write_exact. rewrite (M_bind_ret _ _ _ tt h) by (apply fault_hook_calm, Hc).
  rewrite Hw. cbn [negb]. rewrite E1, E2. rewrite (M_bind_ret _ _ _ h h) by done.
  rewrite (M_bind_ret _ _ _ tt (set_file (fd_ d) (add_pending (off, data) f) h)).
  { apply fault_hook_calm, Hc. }
  unfold io_fuel. rewrite (proj1 Hc). cbn [length Nat.add write_loop].
  destruct (Z.leb_spec (zlen data) 0); [lia|].
  rewrite Z.min_l by (unfold off_max, ssize_max in *; lia).
  rewrite Z.add_0_r, Z.sub_0_r, slice_all by done.
  rewrite (M_bind_ret _ _ _ (inr (zlen data)) (set_file (fd_ d) (add_pending (off, data) f) h)).
  2: { unfold sys_pwrite. rewrite calm_next_event by done.
       rewrite (dev_file_of _ _ _ Hf), take_ge by (unfold zlen; lia). done. }
  destruct (Z.eqb_spec (zlen data) 0); [lia|].
  by rewrite Z.add_0_l, Z.leb_refl.
Qed.

Lemma calm_flush d h f :
  calm h -> h_files h !! fd_ d = Some f ->
  flush d h = (Ret tt, set_file (fd_ d) (synced f) h).
Proof.
  intros Hc Hf. unfold flush.
  rewrite (M_bind_ret _ _ _ tt h) by (apply fault_hook_calm, Hc).
  rewrite (M_bind_ret _ _ _ (inr tt) (set_file (fd_ d) (synced f) h)).
  { apply fault_hook_calm, Hc. }
  unfold sys_fsync, sys_call. rewrite calm_next_event by done.
  unfold file_of. by rewrite Hf.
Qed.

Lemma dev_file_set h d f' :
  file_ok (size_bytes (geometry d)) f' -> dev_file (set_file (fd_ d) f' h) d f'.
Proof. intros Hok. split; [|done]. cbn. apply lookup_insert_eq. Qed.

Lemma set_file_twice fd f f' h : set_file fd f' (set_file fd f h) = set_file fd f' h.
Proof. unfold set_file, set_files. cbn. by rewrite insert_insert_eq. Qed.

Lemma content_write1 off data f n :
  file_ok n f -> 0 <= off -> off + zlen data <= n ->
  content (add_pending (off, data) f) = splice (content f) off data.
Proof.
  intros Hok Ho Hn. pose proof (zlen_nonneg data).
  rewrite content_add_pending. unfold apply_write. cbn [fst snd].
  by rewrite pad_to_id by (rewrite (zlen_content n f Hok); lia).
Qed.

(** After any chunks of a write, each byte is the old one or its new one. *)
Lemma content_add_writes_bytes off data ws f i :
  0 <= off -> off + zlen data <= zlen (content f) -> Forall (chunk off data) ws ->
  content (add_writes ws f) !! i = content f !! i \/
  off <= Z.of_nat i < off + zlen data /\
  content (add_writes ws f) !! i = data !! (i - Z.to_nat off)%nat.
Proof.
  intros Hoff. revert f. induction ws as [|[wo wd] ws IH]; intros f Hlen Hws.
  { left. by rewrite add_writes_nil. }
  apply Forall_cons in Hws as [Hw Hws]. pose proof Hw as (H1 & H2 & H3).
  cbn [fst snd] in H1, H2, H3. pose proof (zlen_nonneg wd).
  change ((wo, wd) :: ws) with ([(wo, wd)] ++ ws).
  rewrite <-add_writes_app, <-add_pending_writes.
  assert (E : content (add_pending (wo, wd) f) = splice (content f) wo wd).
  { rewrite content_add_pending. unfold apply_write. cbn [fst snd].
    by rewrite pad_to_id by lia. }
  destruct (IH (add_pending (wo, wd) f)) as [->|]; [|done| |by right].
  { rewrite E, zlen_splice; lia. }
  rewrite E, lookup_splice by lia. repeat case_decide; [by left| |by left].
  right. split; [lia|]. rewrite H3, lookup_slice, decide_True by lia. f_equal. lia.
Qed.

(** ** Properties *)

(** Whatever the system calls do (partial transfers, interruptions,
    errors, injected faults), [read_exact] terminates, changes no file, and
    when it returns a value that value is the requested range of the device
    in full; on a calm host every range inside the device is returned. *)
Theorem read_exact_returns_device_range
    (d : BlockDevice) (off size : Z) (h : Host) (f : File) (o : Outcome bytes) (h' : Host)
    (Hdev : dev_file h d f) (Hoff : 0 <= off) (Hsize : 0 <= size)
    (Hrun : read_exact d off size h = (o, h')) :
  quiet h h' /\ o <> OutOfFuel /\
  (forall bs, o = Ret bs -> bs = slice (content f) off size /\ zlen bs = size /\
                            off + size <= size_bytes (geometry d)) /\
  (calm h -> in_range d off size -> o = Ret (slice (content f) off size)).
Proof.
  pose proof (wp_run _ _ _ _ _ (read_exact_spec d off size h f Hdev Hoff Hsize) Hrun)
    as (Hq & Hne & Hval).
  split_and!; try done. intros Hc Hr. rewrite (calm_read d off size h f) in Hrun by done.
  by injection Hrun.
Qed.

(** C2: whatever the system calls do, [write_exact] terminates, writes only
    the range it was given, and each byte of that range is afterwards the old
    one or the new one; nothing durable changes before a flush.  When it
    returns success the visible contents are the old ones with the data in
    place, and the device was writable. *)
Theorem write_exact_confined
    (d : BlockDevice) (off : Z) (data : bytes) (h : Host) (f : File)
    (o : Outcome unit) (h' : Host)
    (Hdev : dev_file h d f) (Hoff : 0 <= off)
    (Hrun : write_exact d off data h = (o, h')) :
  o <> OutOfFuel /\
  exists f', h_files h' = <[fd_ d := f']> (h_files h) /\ f_durable f' = f_durable f /\
    (o = Ret tt -> content f' = splice (content f) off data /\ writable_ d = true) /\
    (forall i, content f' !! i = content f !! i \/
       off <= Z.of_nat i < off + zlen data /\
       content f' !! i = data !! (i - Z.to_nat off)%nat).
Proof.
  pose proof (wp_run _ _ _ _ _ (write_exact_spec d off data h f Hdev Hoff) Hrun)
    as ((Hne & ws & Hws & Hfiles & Hval) & Hok & Hin).
  split; [done|]. exists (add_writes ws f). split; [apply Hfiles|]. split; [done|].
  split; [by intros ->; split; [by apply (Hval tt)|apply Hok]|].
  destruct Hin as [Hin|Hq].
  2: { intros i. left. f_equal. destruct Hfiles as [E _], Hq as [E' _].
       rewrite E' in E. assert (Hf : h_files h !! fd_ d = Some (add_writes ws f))
         by (rewrite E; apply lookup_insert_eq).
       rewrite (proj1 Hdev) in Hf. by injection Hf as <-. }
  intros i. apply content_add_writes_bytes; [done| |done].
  by rewrite (zlen_content _ _ (proj2 Hdev)).
Qed.

Definition demo_dev : BlockDevice := mkDevice 1 "d" (mkGeometry 4 512 512 false false) true.
Definition demo_file : File := mkFile Regular [Byte.x0a; Byte.x0b; Byte.x0c; Byte.x0d] [].

Lemma demo_dev_file evs : dev_file (demo_host demo_file evs) demo_dev demo_file.
Proof. split; [done|]. split; [done|]. by apply Forall_nil. Qed.

Lemma read_exact_returns_device_range_witness :
  let h := demo_host demo_file [Sys_short 1; Sys_err EINTR 0] in
  (read_exact demo_dev 1 2 h).1 = Ret [Byte.x0b; Byte.x0c] /\
  quiet h (read_exact demo_dev 1 2 h).2.
Proof.
  intros h. split; [reflexivity|].
  exact (proj1 (read_exact_returns_device_range demo_dev 1 2 h demo_file _ _
    (demo_dev_file _) ltac:(lia) ltac:(lia) (surjective_pairing _))).
Defined.

Lemma write_exact_confined_witness :
  let h := demo_host demo_file [Sys_err EINTR 1; Sys_short 1; Sys_err 5 0] in
  (write_exact demo_dev 1 [Byte.xee; Byte.xff] h).1
    = Fail (mkError write_failed 5 "write failed at byte 2: ") /\
  (write_exact demo_dev 1 [Byte.xee; Byte.xff] h).1 <> OutOfFuel.
Proof.
  intros h. split; [reflexivity|].
  exact (proj1 (write_exact_confined demo_dev 1 [Byte.xee; Byte.xff] h demo_file _ _
    (demo_dev_file _) ltac:(lia) (surjective_pairing _))).
Defined.
