(* ===== verification/Uuid.v ===== *)
(** UUID text and generation (include/fsx/uuid.hpp, src/core/uuid.cpp). *)
From S2P Require Import Prelude Errors Endian Host.
From Stdlib Require Import Ascii.

(** [int hex(char c)]; the character is compared by its code. *)
Definition hex (c : ascii) : Z :=
  let n := Z.of_nat (nat_of_ascii c) in
  if (48 <=? n) && (n <=? 57) then n - 48
  else if (97 <=? n) && (n <=? 102) then n - 97 + 10
  else if (65 <=? n) && (n <=? 70) then n - 65 + 10
  else -1.

(** The loop of [parse_uuid]: [out] is the filled prefix of the array, so
    [oi = zlen out]; [high] is the pending nibble or [-1]. *)
Fixpoint parse_uuid_loop (s : string) (out : bytes) (high : Z) : Result (bytes * Z) :=
  match s with
  | EmptyString => Ok (out, high)
  | String c s =>
      if bool_decide (c = "-"%char) then parse_uuid_loop s out high
      else
        let v := hex c in
        if v <? 0 then fail invalid_argument "invalid UUID"
        else if high <? 0 then parse_uuid_loop s out v
        else if 16 <=? zlen out then fail invalid_argument "UUID is too long"
        else parse_uuid_loop s (out ++ [byte.of_Z (Z.lor (Z.shiftl high 4) v)]) (-1)
  end.

Definition parse_uuid (s : string) : Result bytes :=
  let? (out, high) := parse_uuid_loop s [] (-1) in
  if negb (zlen out =? 16) || (0 <=? high)
  then fail invalid_argument "UUID must contain 16 bytes"
  else Ok out.

(** [h[n]] of [static constexpr char h[] = "0123456789abcdef"]. *)
Definition hex_digit (n : Z) : string :=
  String.substring (Z.to_nat n) 1 "0123456789abcdef".

(** [format_uuid]: two digits per byte, a dash before bytes 4, 6, 8 and 10. *)
Definition format_byte (b : byte) : string :=
  let v := byte.unsigned b in hex_digit (Z.shiftr v 4) +:+ hex_digit (Z.land v 15).
Definition format_uuid (u : bytes) : string :=
  foldl (fun s i =>
           (if (i =? 4) || (i =? 6) || (i =? 8) || (i =? 10) then s +:+ "-" else s)
           +:+ format_byte (nth (Z.to_nat i) u Byte.x00))
        ""%string (seqZ 0 16).

(** ** Generation *)

(** [open("/dev/urandom")], [read] and the clocks of the host. *)
Definition sys_open_urandom : M (Z + unit) := sys_call (fun h => (tt, h)).
Definition sys_read_urandom (want : Z) : M (Z + bytes) := fun h =>
  let deliver n h' :=
    let bs := take (Z.to_nat n) (h_urandom h) in
    (Ret (inr bs), set_random (drop (length bs) (h_urandom h)) (h_clocks h)
                              (h_uuid_counter h) h') in
  match next_event h with
  | (Ret (Sys_err e _), h') => (Ret (inl e), h')
  | (Ret (Sys_short n), h') => deliver (Z.min n want) h'
  | (_, h') => deliver want h'
  end.
Definition read_clocks : M (Z * Z) := fun h =>
  match h_clocks h with
  | c :: cs => (Ret c, set_random (h_urandom h) cs (h_uuid_counter h) h)
  | [] => (Ret (0, 0), h)
  end.
Definition next_counter : M Z := fun h =>
  let d := u64 (h_uuid_counter h + 1) in
  (Ret d, set_random (h_urandom h) (h_clocks h) d h).

(** The read loop; [out] is the filled prefix of the 16 bytes. *)
Fixpoint uuid_read_loop (fuel : nat) (out : bytes) : M bytes :=
  match fuel with
  | O => fun h => (OutOfFuel, h)
  | S fuel =>
      if 16 <=? zlen out then mret out
      else
        r ← sys_read_urandom (16 - zlen out);
        match r with
        | inl e => if e =? EINTR then uuid_read_loop fuel out else mret out
        | inr [] => mret out
        | inr bs => uuid_read_loop fuel (out ++ bs)
        end
  end.

Definition read_urandom_16 : M bytes :=
  r ← sys_open_urandom;
  match r with
  | inl _ => mret []
  | inr _ => h ← get_host; uuid_read_loop (length (h_events h) + 2) []
  end.

(** The eight low bytes of [x], as the two loops of the fallback store them. *)
Definition le_bytes8 (x : Z) : bytes :=
  (fun i => byte.of_Z (Z.land (Z.shiftr x (i * 8)) 255)) <$> seqZ 0 8.

Definition set_uuid_bits (out : bytes) : bytes :=
  let out := <[6%nat := byte.of_Z (Z.lor (Z.land (byte_at out 6) 0x0f) 0x40)]> out in
  <[8%nat := byte.of_Z (Z.lor (Z.land (byte_at out 8) 0x3f) 0x80)]> out.

Definition random_uuid_v4 : M bytes :=
  out ← read_urandom_16;
  out ← (if zlen out =? 16 then mret out
         else
           '(a, b) ← read_clocks;
           env ← ask_env;
           let c := u64 (getpid env) in
           d ← next_counter;
           let x := Z.lxor (Z.lxor (u64 a) (u64 (Z.shiftl c 17))) (u64 (d * 0x9e3779b97f4a7c15)) in
           let y := Z.lxor (Z.lxor (u64 b) (u64 (Z.shiftl c 31))) (u64 (d * 0xbf58476d1ce4e5b9)) in
           mret (le_bytes8 x ++ le_bytes8 y));
  mret (set_uuid_bits out).

(** ** Facts *)

Lemma parse_uuid_dash_app s out high :
  parse_uuid_loop ("-" +:+ s) out high = parse_uuid_loop s out high.
Proof. done. Qed.

(** The two digits of a byte are digits, and they are that byte. *)
Lemma format_byte_digits b : exists c1 c2,
  format_byte b = String c1 (String c2 "") /\
  bool_decide (c1 = "-"%char) = false /\ bool_decide (c2 = "-"%char) = false /\
  (hex c1 <? 0) = false /\ (hex c2 <? 0) = false /\
  byte.of_Z (Z.lor (Z.shiftl (hex c1) 4) (hex c2)) = b.
Proof. destruct b; do 2 eexists; (split; [vm_compute; reflexivity|]); done. Qed.

Lemma parse_uuid_byte b s out :
  zlen out < 16 ->
  parse_uuid_loop (format_byte b +:+ s) out (-1) = parse_uuid_loop s (out ++ [b]) (-1).
Proof.
  intros Hout. assert (E : (16 <=? zlen out) = false) by lia.
  destruct (format_byte_digits b) as (c1 & c2 & -> & D1 & D2 & H1 & H2 & Hb).
  change (String c1 (String c2 "") +:+ s) with (String c1 (String c2 s)).
  cbn [parse_uuid_loop]. rewrite D1, H1.
  change (-1 <? 0) with true. cbn iota. rewrite D2, H2, E, Hb. done.
Qed.

Lemma string_app_assoc (s1 s2 s3 : string) : (s1 +:+ s2) +:+ s3 = s1 +:+ (s2 +:+ s3).
Proof.
  induction s1 as [|c s1 IH]; [done|].
  change (String c ((s1 +:+ s2) +:+ s3) = String c (s1 +:+ (s2 +:+ s3))). by rewrite IH.
Qed.

Lemma string_app_nil_r (s : string) : s +:+ "" = s.
Proof.
  induction s as [|c s IH]; [done|].
  change (String c (s +:+ "") = String c s). by rewrite IH.
Qed.

Lemma string_app_nil_l (s : string) : "" +:+ s = s.
Proof. done. Qed.

Lemma parse_format_uuid u : zlen u = 16 -> parse_uuid (format_uuid u) = Ok u.
Proof.
  intros Hu. unfold zlen in Hu.
  do 16 (destruct u as [|? u]; [cbn [length] in Hu; lia|]).
  destruct u; [|cbn [length] in Hu; lia]. clear Hu.
  unfold parse_uuid, format_uuid.
  change (seqZ 0 16) with [0; 1; 2; 3; 4; 5; 6; 7; 8; 9; 10; 11; 12; 13; 14; 15].
  cbv [foldl Z.eqb Pos.eqb orb nth Z.to_nat Pos.to_nat Pos.iter_op Nat.add Init.Nat.add].
  rewrite !string_app_assoc. rewrite string_app_nil_l.
  rewrite <-(string_app_nil_r (format_byte b14)).
  repeat first [ rewrite parse_uuid_byte by (unfold zlen; cbn [length app]; lia)
               | rewrite parse_uuid_dash_app ].
  reflexivity.
Qed.

Lemma parse_uuid_loop_bound s out high out' high' :
  zlen out <= 16 -> parse_uuid_loop s out high = Ok (out', high') -> zlen out' <= 16.
Proof.
  revert out high. induction s as [|c s IH]; intros out high Hl; cbn [parse_uuid_loop].
  - by intros [= <- _].
  - intros H. res_inv; try (eapply IH; [|eassumption]; done).
    eapply IH; [|eassumption]. rewrite zlen_app.
    change (zlen [_]) with 1. lia.
Qed.

Lemma parse_uuid_length s u : parse_uuid s = Ok u -> zlen u = 16.
Proof.
  unfold parse_uuid. intros H. apply bindR_Ok in H as ([out high] & H & Hk).
  res_inv. apply orb_false_iff in E as [E _].
  apply negb_false_iff, Z.eqb_eq in E. done.
Qed.

(** ** The generator *)

Lemma sys_read_urandom_spec want h :
  0 <= want ->
  wp (sys_read_urandom want) h (fun o h' => quiet h h' /\
    match o with
    | Ret (inr bs) => zlen bs <= want /\ (h_urandom h = [] -> bs = []) /\
        (h_events h = [] -> h_events h' = [] /\ (zlen bs = want \/ h_urandom h' = []))
    | Ret (inl _) => h_events h <> []
    | _ => False
    end /\
    (h_events h = [] \/ length (h_events h) = S (length (h_events h')))).
Proof.
  intros Hw. unfold wp, sys_read_urandom, next_event.
  assert (Hle : forall n, n <= want -> zlen (take (Z.to_nat n) (h_urandom h)) <= want).
  { intros n Hn. unfold zlen. rewrite length_take. lia. }
  assert (Hnil : forall n, h_urandom h = [] -> take n (h_urandom h) = [])
    by (intros n ->; apply take_nil).
  destruct (h_events h) as [|[|n|e p] es] eqn:E; cbn.
  - split; [by repeat split|]. split; [|by left]. split; [by apply Hle|].
    split; [by apply Hnil|]. intros _. split; [done|]. unfold zlen. rewrite length_take.
    destruct (Nat.le_gt_cases (Z.to_nat want) (length (h_urandom h))); [left; lia|right].
    apply drop_ge. lia.
  - split; [by repeat split|]. split; [|by right].
    split; [by apply Hle|by split; [apply Hnil|]].
  - split; [by repeat split|]. split; [|by right].
    split; [apply Hle; lia|by split; [apply Hnil|]].
  - split; [by repeat split|]. split; [done|by right].
Qed.

Definition fill_post (h : Host) (o : Outcome bytes) (h' : Host) : Prop :=
  quiet h h' /\ exists out, o = Ret out /\ zlen out <= 16.

Lemma fill_post_quiet h h' o h'' : quiet h h' -> fill_post h' o h'' -> fill_post h o h''.
Proof. intros Hq [Hq' H]. split; [by eapply quiet_trans|done]. Qed.

Lemma uuid_read_loop_spec fuel out h :
  zlen out <= 16 ->
  (length (h_events h) + 2 <= fuel)%nat \/
    (h_events h = [] /\ (zlen out = 16 \/ h_urandom h = []) /\ (0 < fuel)%nat) ->
  wp (uuid_read_loop fuel out) h (fill_post h).
Proof.
  revert out h. induction fuel as [|fuel IH]; intros out h Ho Hf; [lia|].
  cbn [uuid_read_loop]. destruct (Z.leb_spec 16 (zlen out)).
  { apply wp_ret. split; [apply quiet_refl|]. eauto. }
  apply wp_bind. eapply wp_mono; [apply sys_read_urandom_spec; lia|].
  intros o h' (Hq & Ho' & Hev). destruct o as [[e|bs]| | |]; try done; cbn [carry].
  - case_match.
    + eapply wp_mono; [apply IH; [done|]|intros o h''; by apply fill_post_quiet].
      left. destruct Hev as [|Hev]; [done|]. destruct Hf as [Hf|[Hf _]]; [lia|done].
    + apply wp_ret. split; [done|]. eauto.
  - destruct bs as [|b bs']; [apply wp_ret; split; [done|]; eauto|].
    set (bs := b :: bs') in *. destruct Ho' as (Hbs & Hempty & Hnil).
    eapply wp_mono; [apply IH|intros o h''; by apply fill_post_quiet].
    + rewrite zlen_app. lia.
    + destruct Hev as [Hev|Hev].
      * destruct (Hnil Hev) as [Hev' Hlast]. rewrite Hev in Hf. right.
        split; [done|]. split; [rewrite zlen_app; destruct Hlast; [left; lia|by right]|].
        destruct Hf as [Hf|(_ & Hf & _)]; [cbn in Hf; lia|].
        destruct Hf as [Hf|Hf]; [lia|]. by specialize (Hempty Hf).
      * left. destruct Hf as [Hf|[Hf _]]; [lia|]. by rewrite Hf in Hev.
Qed.

Lemma read_urandom_16_spec h : wp read_urandom_16 h (fill_post h).
Proof.
  unfold read_urandom_16. apply wp_bind. unfold wp at 1, sys_open_urandom, sys_call, next_event.
  assert (Hloop : forall h1, quiet h h1 ->
    wp (h2 ← get_host; uuid_read_loop (length (h_events h2) + 2) []) h1 (fill_post h)).
  { intros h1 Hq. apply wp_bind. unfold wp at 1, get_host. cbn [fst snd carry].
    eapply wp_mono; [apply uuid_read_loop_spec; [done|left; lia]|].
    intros o h'. by apply fill_post_quiet. }
  destruct (h_events h) as [|[|n|e p] es] eqn:E; cbn [fst snd carry];
    try (apply Hloop; by repeat split).
  apply wp_ret. split; [by repeat split|]. by exists [].
Qed.

(** Version 4, variant 10: what the two masked bytes of a UUID hold. *)
Definition is_uuid_v4 (u : bytes) : Prop :=
  zlen u = 16 /\ Z.shiftr (byte_at u 6) 4 = 4 /\ Z.shiftr (byte_at u 8) 6 = 2.

Lemma version_bits b :
  Z.shiftr (byte.unsigned (byte.of_Z (Z.lor (Z.land (byte.unsigned b) 0x0f) 0x40))) 4 = 4.
Proof. by destruct b. Qed.
Lemma variant_bits b :
  Z.shiftr (byte.unsigned (byte.of_Z (Z.lor (Z.land (byte.unsigned b) 0x3f) 0x80))) 6 = 2.
Proof. by destruct b. Qed.

Lemma set_uuid_bits_v4 out : zlen out = 16 -> is_uuid_v4 (set_uuid_bits out).
Proof.
  intros Hl. unfold zlen in Hl.
  do 16 (destruct out as [|? out]; [cbn [length] in Hl; lia|]).
  destruct out; [|cbn [length] in Hl; lia].
  split; [done|]. split; [apply version_bits|apply variant_bits].
Qed.

Lemma zlen_le_bytes8 x : zlen (le_bytes8 x) = 8.
Proof. unfold le_bytes8, zlen. by rewrite length_fmap, length_seqZ. Qed.

Lemma random_uuid_spec h :
  wp random_uuid_v4 h (fun o h' => quiet h h' /\ exists u, o = Ret u /\ is_uuid_v4 u).
Proof.
  unfold random_uuid_v4. apply wp_bind.
  eapply wp_mono; [apply read_urandom_16_spec|].
  intros o h1 (Hq1 & out & -> & Hout). cbn [carry]. apply wp_bind.
  destruct (Z.eqb_spec (zlen out) 16).
  - apply wp_ret. cbn [carry]. apply wp_ret. split; [done|].
    eexists. split; [done|]. by apply set_uuid_bits_v4.
  - unfold wp at 1, mbind, M_bind, read_clocks, ask_env, next_counter.
    assert (Hu : forall x y, is_uuid_v4 (set_uuid_bits (le_bytes8 x ++ le_bytes8 y))).
    { intros x y. apply set_uuid_bits_v4. by rewrite zlen_app, !zlen_le_bytes8. }
    destruct (h_clocks h1) as [|[a b] cs]; cbn -[set_uuid_bits le_bytes8];
      (split; [destruct Hq1 as (? & ? & ? & ? & ?); by repeat split|]); eauto.
Qed.

(** ** Properties *)

(** Formatting a UUID and parsing the text gives the same sixteen bytes,
    and [parse_uuid] only ever returns sixteen bytes. *)
Theorem uuid_format_parse_roundtrip (u : bytes) (Hu : zlen u = 16) :
  parse_uuid (format_uuid u) = Ok u /\
  forall s v, parse_uuid s = Ok v -> zlen v = 16.
Proof. split; [by apply parse_format_uuid|apply parse_uuid_length]. Qed.

Lemma uuid_format_parse_roundtrip_witness :
  zlen (replicate 16 Byte.xa5) = 16 /\
  parse_uuid (format_uuid (replicate 16 Byte.xa5)) = Ok (replicate 16 Byte.xa5).
Proof.
  split; [reflexivity|].
  exact (proj1 (uuid_format_parse_roundtrip (replicate 16 Byte.xa5) eq_refl)).
Defined.

(** Whatever /dev/urandom and the clocks deliver, [random_uuid_v4]
    terminates with a version-4, variant-10 UUID and touches no file. *)
Theorem random_uuid_is_v4 (h : Host) :
  exists u h', random_uuid_v4 h = (Ret u, h') /\ is_uuid_v4 u /\ quiet h h'.
Proof.
  pose proof (random_uuid_spec h) as H. unfold wp in H.
  destruct (random_uuid_v4 h) as [o h']. destruct H as (Hq & u & Ho & Hu).
  cbn in Ho. subst. eauto.
Qed.
