(* ===== verification/FileUtil.v ===== *)
(** Publication of finished files (include/fsx/file_util.hpp,
    src/core/file_util.cpp). *)
From S2P Require Import Prelude Errors Host Device.
From Stdlib Require Import Ascii.

(** ** Directory operations of the host *)

Definition is_slash (c : ascii) : bool := bool_decide (c = "/"%char).
Fixpoint drop_while {A} (p : A -> bool) (l : list A) : list A :=
  match l with
  | [] => []
  | x :: l' => if p x then drop_while p l' else l
  end.

(** [std::filesystem::path::parent_path], with ["."] for an empty parent. *)
Definition parent_dir (path : string) : string :=
  match drop_while (fun c => negb (is_slash c)) (rev (String.list_ascii_of_string path)) with
  | [] => "."
  | r => match drop_while is_slash r with
         | [] => "/"
         | t => String.string_of_list_ascii (rev t)
         end
  end.

Definition rename_entry (from to : string) (fd : Z) (h : Host) : Host :=
  set_names (<[to := fd]> (delete from (h_names h))) h.

(** [renameat2(temp, final, RENAME_NOREPLACE)]. *)
Definition sys_rename_noreplace (from to : string) : M (Z + unit) :=
  sys_call_res (fun h =>
    match h_names h !! to, h_names h !! from with
    | Some _, _ => (inl EEXIST, h)
    | None, None => (inl ENOENT, h)
    | None, Some fd => (inr tt, rename_entry from to fd h)
    end).

Definition sys_link (from to : string) : M (Z + unit) :=
  sys_call_res (fun h =>
    match h_names h !! to, h_names h !! from with
    | Some _, _ => (inl EEXIST, h)
    | None, None => (inl ENOENT, h)
    | None, Some fd => (inr tt, set_names (<[to := fd]> (h_names h)) h)
    end).

Definition sys_unlink (path : string) : M (Z + unit) :=
  sys_call_res (fun h =>
    match h_names h !! path with
    | None => (inl ENOENT, h)
    | Some _ => (inr tt, set_names (delete path (h_names h)) h)
    end).

Definition sys_open_dir : M (Z + unit) := sys_call (fun h => (tt, h)).

(** [fsync] of a directory makes the entries of that directory durable. *)
Definition sync_names (dir : string) (names durable : gmap string Z) : gmap string Z :=
  filter (fun kv => parent_dir kv.1 = dir) names ∪
  filter (fun kv => parent_dir kv.1 <> dir) durable.
Definition sys_fsync_dir (dir : string) : M (Z + unit) :=
  sys_call (fun h => (tt, set_durable_names (sync_names dir (h_names h) (h_durable_names h)) h)).

(** ** The code *)

Definition no_replace_unavailable (e : Z) : bool :=
  (e =? ENOSYS) || (e =? EINVAL) || (e =? EOPNOTSUPP) || (e =? ENOTSUP).

Definition fsync_parent_directory (path object_name : string) : M unit :=
  let parent := parent_dir path in
  r ← sys_open_dir;
  match r with
  | inl e => raise_errno open_failed
      (fun env => "cannot open " +:+ object_name +:+ " parent directory: " +:+ strerror env e) e
  | inr _ =>
      s ← sys_fsync_dir parent;
      match s with
      | inl e => raise_errno flush_failed
          (fun env => "cannot fsync " +:+ object_name +:+ " parent directory: "
                      +:+ strerror env e) e
      | inr _ => mret tt
      end
  end.

Definition publish_with_link (temp_path final_path object_name : string) : M unit :=
  r ← sys_link temp_path final_path;
  match r with
  | inl e =>
      if e =? EEXIST then failM unsafe ("refusing to overwrite existing " +:+ object_name)
      else raise_errno write_failed
        (fun env => "cannot publish " +:+ object_name +:+ " without replacement: "
                    +:+ strerror env e) e
  | inr _ =>
      fsync_parent_directory final_path object_name;;
      u ← sys_unlink temp_path;
      match u with
      | inl e => raise_errno write_failed
          (fun env => object_name +:+ " was published but its temporary link could not be removed: "
                      +:+ strerror env e) e
      | inr _ => fsync_parent_directory final_path object_name
      end
  end.

(** [publish_file_noreplace] on Linux with [SYS_renameat2]. *)
Definition publish_file_noreplace (temp_path final_path object_name : string) : M unit :=
  r ← sys_rename_noreplace temp_path final_path;
  match r with
  | inr _ => fsync_parent_directory final_path object_name
  | inl e =>
      if e =? EEXIST then failM unsafe ("refusing to overwrite existing " +:+ object_name)
      else if negb (no_replace_unavailable e) then raise_errno write_failed
        (fun env => "cannot atomically publish " +:+ object_name +:+ ": " +:+ strerror env e) e
      else publish_with_link temp_path final_path object_name
  end.

(** ** What publication does to the directory *)

Lemma lookup_sync_names dir names durable k :
  sync_names dir names durable !! k
  = if decide (parent_dir k = dir) then names !! k else durable !! k.
Proof.
  unfold sync_names. case_decide as Hk.
  - rewrite lookup_union_l by (apply map_lookup_filter_None; right; cbn; intros; congruence).
    apply option_eq. intros x. rewrite map_lookup_filter_Some. cbn. intuition.
  - rewrite lookup_union_r by (apply map_lookup_filter_None; right; cbn; intros; congruence).
    apply option_eq. intros x. rewrite map_lookup_filter_Some. cbn. intuition.
Qed.

(** Files, fresh inodes and environment stay; only names can move. *)
Definition names_only (h h' : Host) : Prop :=
  h_files h' = h_files h /\ h_next h' = h_next h /\ h_env h' = h_env h.

Lemma names_only_trans h1 h2 h3 : names_only h1 h2 -> names_only h2 h3 -> names_only h1 h3.
Proof. unfold names_only. intuition congruence. Qed.
Lemma names_only_refl h : names_only h h.
Proof. done. Qed.
#[export] Hint Resolve names_only_refl : fsx.

(** What every step of a publication guarantees about the final name. *)
Definition keeps_existing (final : string) (h h' : Host) : Prop :=
  forall fd, h_names h !! final = Some fd -> h_names h' !! final = Some fd.

Lemma sys_call_spec {A} (ok : Host -> A * Host) h (Q : Outcome (Z + A) -> Host -> Prop) :
  (forall e h1, quiet h h1 -> Q (Ret (inl e)) h1) ->
  (forall h1, quiet h h1 -> Q (Ret (inr (ok h1).1)) (ok h1).2) ->
  wp (sys_call ok) h Q.
Proof.
  intros He Hok. unfold wp, sys_call, next_event.
  destruct (h_events h) as [|[|n|e p] es] eqn:E; cbn.
  - specialize (Hok h (quiet_refl h)). by destruct (ok h).
  - specialize (Hok (set_events es h) ltac:(by repeat split)).
    by destruct (ok (set_events es h)).
  - specialize (Hok (set_events es h) ltac:(by repeat split)).
    by destruct (ok (set_events es h)).
  - apply He. by repeat split.
Qed.

(** As [sys_call_spec]; without events the call succeeds at once. *)
Lemma sys_call_calm_spec {A} (ok : Host -> A * Host) h (Q : Outcome (Z + A) -> Host -> Prop) :
  (forall e h1, quiet h h1 -> ~ calm h -> Q (Ret (inl e)) h1) ->
  (forall h1, quiet h h1 -> (calm h -> h1 = h) -> Q (Ret (inr (ok h1).1)) (ok h1).2) ->
  wp (sys_call ok) h Q.
Proof.
  intros He Hok. unfold wp, sys_call, next_event.
  destruct (h_events h) as [|[|n|e p] es] eqn:E; cbn.
  - specialize (Hok h (quiet_refl h) (fun _ => eq_refl)). by destruct (ok h).
  - specialize (Hok (set_events es h) ltac:(by repeat split)).
    destruct (ok (set_events es h)). apply Hok. intros [H _]. congruence.
  - specialize (Hok (set_events es h) ltac:(by repeat split)).
    destruct (ok (set_events es h)). apply Hok. intros [H _]. congruence.
  - apply He; [by repeat split|]. intros [H _]. congruence.
Qed.

Lemma sys_call_res_spec {A} (ok : Host -> (Z + A) * Host) h (Q : Outcome (Z + A) -> Host -> Prop) :
  (forall e h1, quiet h h1 -> Q (Ret (inl e)) h1) ->
  (forall h1, quiet h h1 -> Q (Ret (ok h1).1) (ok h1).2) ->
  wp (sys_call_res ok) h Q.
Proof.
  intros He Hok. unfold wp, sys_call_res, next_event.
  destruct (h_events h) as [|[|n|e p] es] eqn:E; cbn.
  - specialize (Hok h (quiet_refl h)). by destruct (ok h).
  - specialize (Hok (set_events es h) ltac:(by repeat split)).
    by destruct (ok (set_events es h)).
  - specialize (Hok (set_events es h) ltac:(by repeat split)).
    by destruct (ok (set_events es h)).
  - apply He. by repeat split.
Qed.

Lemma raise_errno_spec {A} c msg e h (Q : Outcome A -> Host -> Prop) :
  (forall m, Q (Fail (mkError c e m)) h) -> wp (raise_errno c msg e) h Q.
Proof. intros H. apply H. Qed.

Lemma fsync_parent_spec path obj h :
  wp (fsync_parent_directory path obj) h (fun o h' =>
    o <> OutOfFuel /\ names_only h h' /\ h_names h' = h_names h /\
    (o = Ret tt -> h_durable_names h'
                   = sync_names (parent_dir path) (h_names h) (h_durable_names h))).
Proof.
  unfold fsync_parent_directory. apply wp_bind. apply sys_call_spec.
  - intros e h1 (? & ? & ? & ? & ?). cbn [carry]. apply raise_errno_spec. intros m. by split_and!.
  - intros h1 (? & ? & ? & ? & ?). cbn [fst snd carry]. apply wp_bind. apply sys_call_spec.
    + intros e h2 (? & ? & ? & ? & ?). cbn [carry]. apply raise_errno_spec. intros m.
      unfold names_only. split_and!; try done; congruence.
    + intros h2 (? & ? & ? & ? & ?). cbn [fst snd carry]. apply wp_ret.
      unfold names_only, set_durable_names. cbn. split_and!; try done; try congruence.
Qed.

(** The outcome of a publication: an existing target is never replaced, and
    success means the target durably names the temporary's file. *)
Definition published (temp final : string) (h : Host) (o : Outcome unit) (h' : Host) : Prop :=
  o <> OutOfFuel /\ names_only h h' /\ keeps_existing final h h' /\
  (o = Ret tt -> exists fd,
     h_names h !! final = None /\ h_names h !! temp = Some fd /\
     h_names h' !! final = Some fd /\ h_durable_names h' !! final = Some fd /\
     h_names h' !! temp = None) /\
  (forall p, p <> temp -> p <> final -> h_names h' !! p = h_names h !! p).

Lemma published_fail temp final h h' e :
  quiet h h' -> published temp final h (Fail e) h'.
Proof.
  intros (? & E & ? & ? & ?). unfold published, names_only, keeps_existing.
  split_and!; try done.
  - intros fd. by rewrite E.
  - intros p _ _. by rewrite E.
Qed.

Lemma publish_with_link_spec temp final obj h :
  temp <> final ->
  wp (publish_with_link temp final obj) h (published temp final h).
Proof.
  intros Hne. unfold publish_with_link. apply wp_bind. apply sys_call_res_spec.
  { intros e h1 Hq. cbn [carry]. case_match; by apply published_fail. }
  intros h1 Hq. pose proof Hq as (Hf1 & Hn1 & Hd1 & Hx1 & He1). rewrite Hn1.
  destruct (h_names h !! final) as [x|] eqn:Ef; cbn [fst snd carry];
    [by apply published_fail|].
  destruct (h_names h !! temp) as [fd|] eqn:Et; cbn [fst snd carry];
    [|by apply published_fail].
  set (h2 := set_names _ h1).
  assert (Hn2 : h_names h2 = <[final := fd]> (h_names h)) by (cbn; by rewrite ?Hn1).
  assert (Hkeep : forall h3 (o : Outcome unit), names_only h2 h3 ->
      (forall p, p <> temp -> h_names h3 !! p = h_names h2 !! p) ->
      o <> OutOfFuel ->
      (o = Ret tt -> h_names h3 !! temp = None /\ h_durable_names h3 !! final = Some fd) ->
      published temp final h o h3).
  { intros h3 o (? & ? & ?) Hp Hnf Hok. unfold published, keeps_existing, names_only.
    split_and!; try done; try (cbn in *; congruence).
    - intros ->. exists fd. destruct (Hok eq_refl). split_and!; try done.
      rewrite Hp, Hn2 by done. apply lookup_insert_eq.
    - intros p Hp1 Hp2. rewrite Hp, Hn2 by done. by apply lookup_insert_ne. }
  clearbody h2. apply wp_bind. eapply wp_mono; [apply fsync_parent_spec|].
  intros o h3 (Hnf & Hno3 & Hn3 & Hok3).
  destruct o as [[]|e|s|]; cbn [carry]; try done;
    try (apply Hkeep; try done; by intros; rewrite Hn3).
  apply wp_bind. apply sys_call_res_spec.
  { intros e h4 Hq4. cbn [carry]. apply raise_errno_spec. intros m.
    destruct Hq4 as (? & Hn4 & ? & ? & ?). apply Hkeep; try done.
    - eapply names_only_trans; [done|]. done.
    - intros. by rewrite Hn4, Hn3. }
  intros h4 Hq4. pose proof Hq4 as (Hf4 & Hn4 & Hd4 & Hx4 & He4).
  destruct (h_names h4 !! temp) as [fd'|] eqn:Et4; cbn [fst snd carry].
  2: { apply raise_errno_spec. intros m. apply Hkeep; try done.
       - by eapply names_only_trans.
       - intros. by rewrite Hn4, Hn3. }
  eapply wp_mono; [apply fsync_parent_spec|]. intros o h5 (Hnf5 & Hno5 & Hn5 & Hok5).
  apply Hkeep; try done.
  - eapply names_only_trans; [done|]. eapply names_only_trans; [done|]. done.
  - intros p Hp. rewrite Hn5. cbn. rewrite lookup_delete_ne by done. by rewrite Hn4, Hn3.
  - intros ->. rewrite Hn5. cbn. split; [apply lookup_delete_eq|].
    rewrite Hok5 by done. rewrite lookup_sync_names, decide_True by done. cbn.
    rewrite lookup_delete_ne by done. rewrite Hn4, Hn3, Hn2. apply lookup_insert_eq.
Qed.

Lemma publish_spec temp final obj h :
  temp <> final ->
  wp (publish_file_noreplace temp final obj) h (published temp final h).
Proof.
  intros Hne. unfold publish_file_noreplace. apply wp_bind.
  assert (Herr : forall e h1, quiet h h1 -> wp
    (if e =? EEXIST then failM unsafe ("refusing to overwrite existing " +:+ obj)
     else if negb (no_replace_unavailable e) then raise_errno write_failed
        (fun env => "cannot atomically publish " +:+ obj +:+ ": " +:+ strerror env e) e
      else publish_with_link temp final obj) h1 (published temp final h)).
  { intros e h1 Hq. repeat case_match; try (by apply published_fail).
    eapply wp_mono; [by apply publish_with_link_spec|].
    destruct Hq as (? & Hn & ? & ? & ?). intros o h2 (Hnf & Hno & Hk & Hok & Hp).
    unfold published, names_only, keeps_existing in *. rewrite Hn in *.
    split_and!; try done; try (destruct Hno as (? & ? & ?); congruence). }
  apply sys_call_res_spec; [intros e h1 Hq; by apply Herr|].
  intros h1 Hq. pose proof Hq as (Hf1 & Hn1 & Hd1 & Hx1 & He1). rewrite Hn1.
  destruct (h_names h !! final) as [x|] eqn:Ef; cbn [fst snd carry]; [by apply Herr|].
  destruct (h_names h !! temp) as [fd|] eqn:Et; cbn [fst snd carry]; [|by apply Herr].
  eapply wp_mono; [apply fsync_parent_spec|]. intros o h3 (Hnf & (? & ? & ?) & Hn3 & Hok3).
  unfold rename_entry in *. cbn in *. rewrite Hn1 in *.
  unfold published, names_only, keeps_existing.
  split_and!; try done; try congruence.
  - intros ->. exists fd. rewrite Hn3, Hok3 by done.
    rewrite lookup_sync_names, decide_True by done.
    rewrite !lookup_insert_eq, lookup_insert_ne by done.
    split_and!; try done. apply lookup_delete_eq.
  - intros p Hp1 Hp2. rewrite Hn3, lookup_insert_ne by done. by apply lookup_delete_ne.
Qed.

(** ** Properties *)

(** C3: publication of a temporary file never replaces or removes an existing
    final name and touches no other name, whatever the system calls do (also
    on the fallback that links and unlinks); when it reports success the final
    name was free, and now names the temporary's file, durably, and the
    temporary name is gone. *)
Theorem publish_never_replaces (temp final obj : string) (h : Host) (o : Outcome unit) (h' : Host)
    (Hne : temp <> final) (Hrun : publish_file_noreplace temp final obj h = (o, h')) :
  o <> OutOfFuel /\ h_files h' = h_files h /\
  (forall fd, h_names h !! final = Some fd -> h_names h' !! final = Some fd /\ o <> Ret tt) /\
  (forall p, p <> temp -> p <> final -> h_names h' !! p = h_names h !! p) /\
  (o = Ret tt -> exists fd,
     h_names h !! temp = Some fd /\ h_names h' !! final = Some fd /\
     h_durable_names h' !! final = Some fd /\ h_names h' !! temp = None).
Proof.
  destruct (wp_run _ _ _ _ _ (publish_spec temp final obj h Hne) Hrun)
    as (H1 & (H2 & _) & H3 & H4 & H5).
  split_and!; try done.
  - intros fd Hfd. split; [by apply H3|]. intros ->.
    destruct (H4 eq_refl) as (? & ? & _). congruence.
  - intros ->. destruct (H4 eq_refl) as (fd & _ & ? & ? & ? & ?). by exists fd.
Qed.

Definition demo_names (evs : list SysEvent) : Host :=
  set_names (<["d/t" := 1]> (∅ : gmap string Z)) (demo_host new_file evs).

(** The fallback after a file system without [RENAME_NOREPLACE]. *)
Lemma publish_never_replaces_witness :
  let h := demo_names [Sys_err EINVAL 0] in
  let r := publish_file_noreplace "d/t" "d/j" "object" h in
  r.1 = Ret tt /\ h_durable_names r.2 !! "d/j" = Some 1 /\ h_files r.2 = h_files h.
Proof.
  intros h r. split; [reflexivity|]. split; [reflexivity|].
  exact (proj1 (proj2 (publish_never_replaces "d/t" "d/j" "object" h r.1 r.2
    ltac:(discriminate) (surjective_pairing _)))).
Defined.
