(* ===== verification/JournalFormat.v ===== *)
(** The on-disk format of the transaction journal (include/fsx/journal.hpp and
    the codecs of src/transaction/journal.cpp): two header slots of 4096 bytes,
    then records of 128 bytes. *)
From S2P Require Import Prelude Errors Endian Crc.
From coqutil Require Import Word.LittleEndianList.

(** [enum class OperationPhase : std::uint32_t]. *)
Inductive OperationPhase :=
  | prepared | relocating | paused | metadata_finalize | filesystem_shrunk
  | partition_pending | complete | failed | staged | metadata_paused | compacted.
#[export] Instance OperationPhase_eq_dec : EqDecision OperationPhase.
Proof. solve_decision. Defined.

(** [enum class JournalRecordType : std::uint16_t]. *)
Inductive JournalRecordType :=
  | relocation_intent | copy_verified | metadata_committed | checkpoint_record
  | note | destination_reserved | owner_switched | source_released
  | filesystem_marked_dirty | filesystem_marked_clean | partition_intent
  | partition_committed.
#[export] Instance JournalRecordType_eq_dec : EqDecision JournalRecordType.
Proof. solve_decision. Defined.

Definition all_phases : list OperationPhase :=
  [prepared; relocating; paused; metadata_finalize; filesystem_shrunk;
   partition_pending; complete; failed; staged; metadata_paused; compacted].
Definition all_record_types : list JournalRecordType :=
  [relocation_intent; copy_verified; metadata_committed; checkpoint_record;
   note; destination_reserved; owner_switched; source_released;
   filesystem_marked_dirty; filesystem_marked_clean; partition_intent;
   partition_committed].

(** [static_cast] from and to the underlying type; the enumerators are
    numbered from 1. *)
Definition phase_code (p : OperationPhase) : Z :=
  match p with
  | prepared => 1 | relocating => 2 | paused => 3 | metadata_finalize => 4
  | filesystem_shrunk => 5 | partition_pending => 6 | complete => 7 | failed => 8
  | staged => 9 | metadata_paused => 10 | compacted => 11
  end.
Definition phase_of (n : Z) : OperationPhase := nth (Z.to_nat (n - 1)) all_phases prepared.
Definition type_code (t : JournalRecordType) : Z :=
  match t with
  | relocation_intent => 1 | copy_verified => 2 | metadata_committed => 3
  | checkpoint_record => 4 | note => 5 | destination_reserved => 6
  | owner_switched => 7 | source_released => 8 | filesystem_marked_dirty => 9
  | filesystem_marked_clean => 10 | partition_intent => 11 | partition_committed => 12
  end.
Definition type_of (n : Z) : JournalRecordType := nth (Z.to_nat (n - 1)) all_record_types note.

Record JournalIdentity := mkIdentity {
  operation_uuid : bytes;      (* 16 bytes *)
  filesystem_uuid : bytes;     (* 16 bytes *)
  device_size : Z;
  target_size : Z
}.
#[export] Instance JournalIdentity_eq_dec : EqDecision JournalIdentity.
Proof. solve_decision. Defined.

Record JournalRecord := mkRecord {
  rtype : JournalRecordType;
  sequence : Z;
  transaction_id : Z;
  source_block : Z;
  destination_block : Z;
  block_count : Z;
  inode : Z;
  aux : Z;
  data_crc32c : Z;
  rstate : Z
}.

Record DecodedHeader := mkHeader {
  dh_id : JournalIdentity;
  dh_sequence : Z;
  dh_phase : OperationPhase;
  dh_record_count : Z
}.

(** Constants of the format. *)
Definition header_bytes : Z := 4096.
Definition records_offset : Z := header_bytes * 2.
Definition record_bytes : Z := 128.
Definition HEADER_MAGIC : bytes :=
  [Byte.x46; Byte.x53; Byte.x58; Byte.x4a; Byte.x4e; Byte.x4c; Byte.x31; Byte.x30].
Definition HEADER_VERSION : Z := 1.
Definition RECORD_MAGIC : Z := 0x52585346.
Definition RECORD_VERSION : Z := 1.

(** ** Codecs *)

(** [copy_bytes(dst, off, src)]. *)
Definition copy_bytes (dst : bytes) (off : Z) (src : bytes) : bytes := splice dst off src.

Definition encode_header (id : JournalIdentity) (sequence : Z) (phase : OperationPhase)
    (record_count : Z) : bytes :=
  let b := zeros 4096 in
  let b := splice b 0 HEADER_MAGIC in
  let b := write_le32 b 8 HEADER_VERSION in
  let b := write_le32 b 12 4096 in
  let b := write_le64 b 16 sequence in
  let b := copy_bytes b 24 (operation_uuid id) in
  let b := copy_bytes b 40 (filesystem_uuid id) in
  let b := write_le64 b 56 (device_size id) in
  let b := write_le64 b 64 (target_size id) in
  let b := write_le32 b 72 (phase_code phase) in
  let b := write_le64 b 80 record_count in
  let b := write_le64 b 88 record_bytes in
  let b := write_le64 b 96 records_offset in
  let b := write_le32 b 4092 0 in
  write_le32 b 4092 (crc32c_sum (slice b 0 4092)).

Definition decode_header (b : bytes) : Result DecodedHeader :=
  if zlen b <? 4096 then fail corrupt "journal header is truncated"
  else if negb (bool_decide (slice b 0 8 = HEADER_MAGIC))
  then fail corrupt "journal header magic mismatch"
  else if negb (read_le32 b 8 =? HEADER_VERSION) || negb (read_le32 b 12 =? 4096)
  then fail unsupported "unsupported journal header version"
  else
    let stored := read_le32 b 4092 in
    let tmp := write_le32 (slice b 0 4096) 4092 0 in
    if negb (stored =? crc32c_sum (slice tmp 0 4092))
    then fail corrupt "journal header checksum mismatch"
    else
      let id := mkIdentity (slice b 24 16) (slice b 40 16) (read_le64 b 56) (read_le64 b 64) in
      let ph := read_le32 b 72 in
      if (ph <? 1) || (11 <? ph) then fail corrupt "invalid journal phase"
      else if negb (read_le64 b 88 =? record_bytes) || negb (read_le64 b 96 =? records_offset)
      then fail unsupported "unsupported journal record layout"
      else Ok (mkHeader id (read_le64 b 16) (phase_of ph) (read_le64 b 80)).

Definition encode_record (r : JournalRecord) : bytes :=
  let b := zeros 128 in
  let b := write_le32 b 0 RECORD_MAGIC in
  let b := write_le16 b 4 RECORD_VERSION in
  let b := write_le16 b 6 (type_code (rtype r)) in
  let b := write_le64 b 8 (sequence r) in
  let b := write_le64 b 16 (transaction_id r) in
  let b := write_le64 b 24 (source_block r) in
  let b := write_le64 b 32 (destination_block r) in
  let b := write_le64 b 40 (block_count r) in
  let b := write_le64 b 48 (inode r) in
  let b := write_le64 b 56 (aux r) in
  let b := write_le32 b 64 (data_crc32c r) in
  let b := write_le32 b 68 (rstate r) in
  let b := write_le32 b 124 0 in
  write_le32 b 124 (crc32c_sum (slice b 0 124)).

Definition decode_record (b : bytes) : Result JournalRecord :=
  if (zlen b <? 128) || negb (read_le32 b 0 =? RECORD_MAGIC)
     || negb (read_le16 b 4 =? RECORD_VERSION)
  then fail corrupt "journal record header invalid"
  else
    let stored := read_le32 b 124 in
    let tmp := write_le32 (slice b 0 128) 124 0 in
    if negb (stored =? crc32c_sum (slice tmp 0 124))
    then fail corrupt "journal record checksum mismatch"
    else
      let rt := read_le16 b 6 in
      if (rt <? 1) || (12 <? rt) then fail corrupt "journal record type invalid"
      else Ok (mkRecord (type_of rt) (read_le64 b 8) (read_le64 b 16) (read_le64 b 24)
                 (read_le64 b 32) (read_le64 b 40) (read_le64 b 48) (read_le64 b 56)
                 (read_le32 b 64) (read_le32 b 68)).

Definition operation_phase_name (p : OperationPhase) : string :=
  match p with
  | prepared => "prepared"
  | relocating => "relocating"
  | paused => "paused"
  | metadata_finalize => "metadata_finalize"
  | filesystem_shrunk => "filesystem_shrunk"
  | partition_pending => "partition_pending"
  | complete => "complete"
  | failed => "failed"
  | staged => "staged"
  | metadata_paused => "metadata_paused"
  | compacted => "compacted"
  end.

Definition journal_record_type_name (t : JournalRecordType) : string :=
  match t with
  | relocation_intent => "relocation_intent"
  | copy_verified => "copy_verified"
  | metadata_committed => "metadata_committed"
  | checkpoint_record => "checkpoint"
  | note => "note"
  | destination_reserved => "destination_reserved"
  | owner_switched => "owner_switched"
  | source_released => "source_released"
  | filesystem_marked_dirty => "filesystem_marked_dirty"
  | filesystem_marked_clean => "filesystem_marked_clean"
  | partition_intent => "partition_intent"
  | partition_committed => "partition_committed"
  end.

(** ** Well-formed values: the widths of the struct fields *)

Definition identity_ok (id : JournalIdentity) : Prop :=
  zlen (operation_uuid id) = 16 /\ zlen (filesystem_uuid id) = 16 /\
  in_width 64 (device_size id) /\ in_width 64 (target_size id).
Definition record_ok (r : JournalRecord) : Prop :=
  in_width 64 (sequence r) /\ in_width 64 (transaction_id r) /\
  in_width 64 (source_block r) /\ in_width 64 (destination_block r) /\
  in_width 64 (block_count r) /\ in_width 64 (inode r) /\ in_width 64 (aux r) /\
  in_width 32 (data_crc32c r) /\ in_width 32 (rstate r).
#[export] Instance identity_ok_dec id : Decision (identity_ok id).
Proof. unfold identity_ok. apply _. Defined.
#[export] Instance record_ok_dec r : Decision (record_ok r).
Proof. unfold record_ok. apply _. Defined.

Lemma phase_code_bound p : 1 <= phase_code p <= 11.
Proof. destruct p; cbn; lia. Qed.
Lemma phase_of_code p : phase_of (phase_code p) = p.
Proof. by destruct p. Qed.
Lemma type_code_bound t : 1 <= type_code t <= 12.
Proof. destruct t; cbn; lia. Qed.
Lemma type_of_code t : type_of (type_code t) = t.
Proof. by destruct t. Qed.

Lemma zlen_encode_record r : zlen (encode_record r) = 128.
Proof. unfold encode_record, write_le32, write_le16, write_le64. by rewrite !zlen_write_le. Qed.

Lemma zlen_magic : zlen HEADER_MAGIC = 8.
Proof. done. Qed.

Lemma zlen_encode_header id s p n : identity_ok id -> zlen (encode_header id s p n) = 4096.
Proof.
  intros (H1 & H2 & _). pose proof zlen_magic.
  unfold encode_header, copy_bytes, write_le32, write_le64. cbv zeta. by wr_len.
Qed.

Lemma header_fields id s p n :
  identity_ok id -> in_width 64 s -> in_width 64 n ->
  let b := encode_header id s p n in
  slice b 0 8 = HEADER_MAGIC /\ read_le32 b 8 = HEADER_VERSION /\ read_le32 b 12 = 4096 /\
  read_le64 b 16 = s /\ slice b 24 16 = operation_uuid id /\
  slice b 40 16 = filesystem_uuid id /\ read_le64 b 56 = device_size id /\
  read_le64 b 64 = target_size id /\ read_le32 b 72 = phase_code p /\
  read_le64 b 80 = n /\ read_le64 b 88 = record_bytes /\ read_le64 b 96 = records_offset.
Proof.
  intros (H1 & H2 & H3 & H4) Hs Hn. pose proof zlen_magic. pose proof (phase_code_bound p).
  assert (Hp : in_width 32 (phase_code p)) by (split; lia).
  cbv zeta. unfold encode_header, copy_bytes, write_le32, write_le64. cbv zeta.
  split_and!; rd; done.
Qed.

(** ** Sealed ranges: the checksum of the first [n] bytes stored behind them *)

Definition sealed (b : bytes) (n : Z) : Prop := read_le32 b n = crc32c_sum (slice b 0 n).

Lemma sealed_write b n :
  0 <= n -> n + 4 <= zlen b -> sealed (write_le32 b n (crc32c_sum (slice b 0 n))) n.
Proof.
  intros. unfold sealed, write_le32.
  rewrite read_write_le_eq by (try lia; apply crc32c_sum_width).
  by rewrite slice_write_le_ne by lia.
Qed.

Lemma slice_unsealed b n m :
  0 <= n -> m = n + 4 -> m <= zlen b ->
  slice (write_le32 (slice b 0 m) n 0) 0 n = slice b 0 n.
Proof.
  intros ? -> ?. unfold write_le32. rewrite slice_write_le_ne by (rewrite ?zlen_slice; lia).
  rewrite slice_slice by lia. done.
Qed.

(** Two sealed ranges that differ inside a window of four bytes on one side
    of the checksum's offset are equal. *)
Lemma sealed_burst n pre x y post :
  0 <= n -> n + 4 <= zlen (pre ++ x ++ post) ->
  length x = length y -> (length x <= 4)%nat ->
  zlen pre + zlen x <= n \/ n <= zlen pre /\ zlen pre + zlen x <= n + 4 ->
  sealed (pre ++ x ++ post) n -> sealed (pre ++ y ++ post) n -> x = y.
Proof.
  intros Hn Hl Hxy H4 Hwin Hx Hy. unfold sealed in *.
  pose proof (zlen_nonneg pre). pose proof (zlen_nonneg x). pose proof (zlen_nonneg post).
  assert (Hz : zlen x = zlen y) by (unfold zlen; lia).
  rewrite !zlen_app in Hl. destruct Hwin as [Hwin|[Hw1 Hw2]].
  - assert (Hbody : forall z, zlen z = zlen x -> slice (pre ++ z ++ post) 0 n
      = pre ++ z ++ slice post 0 (n - zlen pre - zlen x)).
    { intros z Hzx. unfold slice, zlen in *. change (Z.to_nat 0) with 0%nat. rewrite !drop_0.
      rewrite !take_app. f_equal; [apply take_ge; lia|].
      f_equal; [apply take_ge; lia|]. f_equal. lia. }
    assert (E : read_le32 (pre ++ x ++ post) n = read_le32 (pre ++ y ++ post) n).
    { apply read_le_ext; rewrite ?zlen_app; try lia.
      rewrite !app_assoc, !slice_app_r by (rewrite zlen_app; lia).
      by rewrite !zlen_app, Hz. }
    rewrite Hx, Hy, !Hbody in E by done.
    destruct (decide (x = y)); [done|]. exfalso. revert E. by apply crc32c_sum_burst.
  - assert (E : slice (pre ++ x ++ post) 0 n = slice (pre ++ y ++ post) 0 n)
      by (by rewrite !slice_app_l by lia).
    rewrite <-E, <-Hx in Hy. symmetry in Hy.
    rewrite !read_le_combine in Hy by (rewrite ?zlen_app; lia).
    apply le_combine_inj in Hy.
    + apply (f_equal (fun l => slice l (zlen pre - n) (zlen x))) in Hy.
      assert (Hgen : forall z, zlen z = zlen x ->
        slice (slice (pre ++ z ++ post) n 4) (zlen pre - n) (zlen x) = z).
      { intros z Hzx. rewrite slice_slice by lia.
        replace (n + (zlen pre - n)) with (zlen pre) by lia.
        rewrite slice_app_r, Z.sub_diag, slice_app_l by lia. by apply slice_all. }
      by rewrite !Hgen in Hy by lia.
    + unfold slice. autorewrite with fsxlen. lia.
Qed.

(** ** The codecs are inverse to each other and detect damage *)

Lemma encode_header_sealed id s p n :
  identity_ok id -> sealed (encode_header id s p n) 4092.
Proof.
  intros (H1 & H2 & _). pose proof zlen_magic.
  unfold encode_header, copy_bytes. cbv zeta. apply sealed_write; [lia|].
  unfold write_le32, write_le64. wr_len. lia.
Qed.

Lemma encode_record_sealed r : sealed (encode_record r) 124.
Proof.
  unfold encode_record. cbv zeta. apply sealed_write; [lia|].
  unfold write_le16, write_le32, write_le64. wr_len. lia.
Qed.

(** [decode_header] accepts only sealed ranges. *)
Lemma decode_header_sealed b h : decode_header b = Ok h -> 4096 <= zlen b /\ sealed b 4092.
Proof.
  unfold decode_header. cbv zeta. intros H. res_inv.
  apply Z.ltb_ge in E. split; [done|].
  rewrite negb_false_iff, Z.eqb_eq in E2. unfold sealed.
  by rewrite E2, (slice_unsealed b 4092 4096) by lia.
Qed.

Lemma decode_record_sealed b r : decode_record b = Ok r -> 128 <= zlen b /\ sealed b 124.
Proof.
  unfold decode_record. cbv zeta. intros H. res_inv.
  apply orb_false_iff in E as [E _]. apply orb_false_iff in E as [E _].
  apply Z.ltb_ge in E. split; [done|].
  rewrite negb_false_iff, Z.eqb_eq in E0. unfold sealed.
  by rewrite E0, (slice_unsealed b 124 128) by lia.
Qed.

Lemma decode_encode_header id s p n :
  identity_ok id -> in_width 64 s -> in_width 64 n ->
  decode_header (encode_header id s p n) = Ok (mkHeader id s p n).
Proof.
  intros Hid Hs Hn. pose proof (zlen_encode_header id s p n Hid) as Hl.
  pose proof (encode_header_sealed id s p n Hid) as Hseal.
  destruct (header_fields id s p n Hid Hs Hn)
    as (F1 & F2 & F3 & F4 & F5 & F6 & F7 & F8 & F9 & F10 & F11 & F12).
  unfold decode_header. rewrite Hl, bool_decide_true by done. cbn [Z.ltb Z.compare negb].
  change (4096 <? 4096) with false. cbv iota.
  rewrite F2, F3, !Z.eqb_refl. cbn [negb orb]. cbv zeta.
  rewrite (slice_unsealed _ 4092 4096) by lia. rewrite Hseal, Z.eqb_refl. cbn [negb].
  rewrite F4, F5, F6, F7, F8, F9, F10, F11, F12, !Z.eqb_refl. cbn [negb orb].
  pose proof (phase_code_bound p).
  destruct (Z.ltb_spec (phase_code p) 1); [lia|].
  destruct (Z.ltb_spec 11 (phase_code p)); [lia|]. cbn [orb].
  rewrite phase_of_code. by destruct id.
Qed.

Lemma record_fields r :
  record_ok r ->
  let b := encode_record r in
  read_le32 b 0 = RECORD_MAGIC /\ read_le16 b 4 = RECORD_VERSION /\
  read_le16 b 6 = type_code (rtype r) /\ read_le64 b 8 = sequence r /\
  read_le64 b 16 = transaction_id r /\ read_le64 b 24 = source_block r /\
  read_le64 b 32 = destination_block r /\ read_le64 b 40 = block_count r /\
  read_le64 b 48 = inode r /\ read_le64 b 56 = aux r /\
  read_le32 b 64 = data_crc32c r /\ read_le32 b 68 = rstate r.
Proof.
  intros (H1 & H2 & H3 & H4 & H5 & H6 & H7 & H8 & H9).
  pose proof (type_code_bound (rtype r)).
  assert (Ht : in_width 16 (type_code (rtype r))) by (split; lia).
  cbv zeta. unfold encode_record. cbv zeta. split_and!; rd; done.
Qed.

Lemma decode_encode_record r : record_ok r -> decode_record (encode_record r) = Ok r.
Proof.
  intros Hr. pose proof (zlen_encode_record r) as Hl.
  pose proof (encode_record_sealed r) as Hseal.
  destruct (record_fields r Hr)
    as (F1 & F2 & F3 & F4 & F5 & F6 & F7 & F8 & F9 & F10 & F11 & F12).
  unfold decode_record. rewrite Hl, F1, F2, !Z.eqb_refl.
  change (128 <? 128) with false. cbn [negb orb]. cbv zeta.
  rewrite (slice_unsealed _ 124 128) by lia. rewrite Hseal, Z.eqb_refl. cbn [negb].
  rewrite F3, F4, F5, F6, F7, F8, F9, F10, F11, F12.
  pose proof (type_code_bound (rtype r)).
  destruct (Z.ltb_spec (type_code (rtype r)) 1); [lia|].
  destruct (Z.ltb_spec 12 (type_code (rtype r))); [lia|]. cbn [orb].
  rewrite type_of_code. by destruct r.
Qed.

(** Only the first bytes of a range matter to the decoders. *)
Lemma decode_record_ok_fields b r : decode_record b = Ok r -> record_ok r.
Proof.
  unfold decode_record. cbv zeta. intros H. res_inv. unfold record_ok. cbn.
  split_and!; first [exact (read_le_bound 8 b _) | exact (read_le_bound 4 b _)].
Qed.

Lemma decode_header_ok_fields b h :
  decode_header b = Ok h ->
  identity_ok (dh_id h) /\ in_width 64 (dh_sequence h) /\ in_width 64 (dh_record_count h).
Proof.
  intros Hd. destruct (decode_header_sealed b h Hd) as [Hl _].
  unfold decode_header in Hd. cbv zeta in Hd. res_inv. unfold identity_ok. cbn.
  rewrite !zlen_slice by lia.
  split_and!; try done; exact (read_le_bound 8 b _).
Qed.

(** ** Properties *)

(** A journal header and a journal record whose fields fit their struct
    fields are read back exactly as they were written. *)
Theorem journal_codec_roundtrip (id : JournalIdentity) (seq count : Z) (p : OperationPhase)
    (r : JournalRecord) (Hid : identity_ok id) (Hseq : in_width 64 seq)
    (Hcount : in_width 64 count) (Hr : record_ok r) :
  decode_header (encode_header id seq p count) = Ok (mkHeader id seq p count) /\
  decode_record (encode_record r) = Ok r.
Proof. split; [by apply decode_encode_header | by apply decode_encode_record]. Qed.

Definition demo_identity : JournalIdentity :=
  mkIdentity (replicate 16 Byte.x0a) (replicate 16 Byte.x0b) 1048576 524288.
Definition demo_record (seq : Z) : JournalRecord :=
  mkRecord relocation_intent seq 7 100 200 4 12 0 0xdeadbeef 1.

Lemma journal_codec_roundtrip_witness :
  record_ok (demo_record 3) /\ decode_record (encode_record (demo_record 3)) = Ok (demo_record 3).
Proof.
  assert (Hr : record_ok (demo_record 3)) by (by apply (bool_decide_unpack _)).
  assert (Hid : identity_ok demo_identity) by (by apply (bool_decide_unpack _)).
  split; [exact Hr|].
  exact (proj2 (journal_codec_roundtrip demo_identity 1 0 prepared (demo_record 3)
    Hid ltac:(by split) ltac:(by split) Hr)).
Defined.

(** Damage to a header or a record that is accepted by the decoder, when
    it stays inside a window of four bytes on one side of the checksum's
    offset, is always reported: the damaged bytes are never accepted. *)
Theorem journal_decoders_detect_damage (pre x y post : bytes) (h : DecodedHeader)
    (r : JournalRecord) (Hlen : length x = length y) (Hwin : (length x <= 4)%nat)
    (Hne : x <> y) :
  (decode_header (pre ++ x ++ post) = Ok h ->
   zlen pre + zlen x <= 4092 \/ 4092 <= zlen pre /\ zlen pre + zlen x <= 4096 ->
   Result_bool (decode_header (pre ++ y ++ post)) = false) /\
  (decode_record (pre ++ x ++ post) = Ok r ->
   zlen pre + zlen x <= 124 \/ 124 <= zlen pre /\ zlen pre + zlen x <= 128 ->
   Result_bool (decode_record (pre ++ y ++ post)) = false).
Proof.
  split; intros Hd Hw.
  - destruct (decode_header (pre ++ y ++ post)) as [h'|] eqn:Hd'; [exfalso|done].
    apply decode_header_sealed in Hd as [Hl Hs], Hd' as [_ Hs'].
    apply Hne. apply (sealed_burst 4092 pre x y post); done || lia.
  - destruct (decode_record (pre ++ y ++ post)) as [h'|] eqn:Hd'; [exfalso|done].
    apply decode_record_sealed in Hd as [Hl Hs], Hd' as [_ Hs'].
    apply Hne. apply (sealed_burst 124 pre x y post); done || lia.
Qed.

Lemma journal_decoders_detect_damage_witness :
  let b := encode_record (demo_record 3) in
  let damaged := splice b 40 [Byte.xff] in
  Result_bool (decode_record b) = true /\ Result_bool (decode_record damaged) = false.
Proof.
  assert (Hr : record_ok (demo_record 3)) by (by apply (bool_decide_unpack _)).
  pose proof (decode_encode_record _ Hr) as Hd. intros b damaged.
  split; [unfold b; by rewrite Hd|].
  assert (Hlen : length [Byte.x04] = length [Byte.xff]) by reflexivity.
  assert (Hw : (length [Byte.x04] <= 4)%nat) by (cbn [length]; lia).
  assert (Hne : [Byte.x04] <> [Byte.xff]) by discriminate.
  assert (Hz : zlen (take 40 b) = 40)
    by (unfold b, zlen; rewrite length_take; pose proof (zlen_encode_record (demo_record 3));
        unfold zlen in *; lia).
  change (Result_bool (decode_record (take 40 b ++ [Byte.xff] ++ drop 41 b)) = false).
  refine (proj2 (journal_decoders_detect_damage (take 40 b) [Byte.x04] [Byte.xff] (drop 41 b)
            (mkHeader demo_identity 0 prepared 0) (demo_record 3) Hlen Hw Hne) _ _).
  - replace (take 40 b ++ [Byte.x04] ++ drop 41 b) with b; [exact Hd|].
    vm_compute. reflexivity.
  - left. rewrite Hz. change (40 + 1 <= 124). lia.
Defined.
