(* ===== verification/Journal.v ===== *)
(** The transaction journal (include/fsx/journal.hpp,
    src/transaction/journal.cpp): an append-only file with two header slots.

    A method of [TransactionJournal] is a [J] computation: it has the host and
    the journal object as state, and returns a [Result] together with the
    object, because the object survives a failed call. *)
From S2P Require Import Prelude Errors Endian Crc Host Device Uuid FileUtil JournalFormat.
From coqutil Require Import Word.LittleEndianList.

Record JournalStatus := mkStatus {
  identity : JournalIdentity;
  phase : OperationPhase;
  header_sequence : Z;
  record_count : Z;
  committed_transactions : Z;
  last_transaction_id : Z;
  header_a_valid : bool;
  header_b_valid : bool;
  records_valid : bool
}.

Record TransactionJournal := mkJournal {
  device_ : BlockDevice;
  status_ : JournalStatus;
  jwritable_ : bool
}.

Definition set_status (s : JournalStatus) (j : TransactionJournal) : TransactionJournal :=
  mkJournal (device_ j) s (jwritable_ j).
Definition set_device (d : BlockDevice) (j : TransactionJournal) : TransactionJournal :=
  mkJournal d (status_ j) (jwritable_ j).

(** Assignments to members of [status_]. *)
Definition with_valid (a b : bool) (s : JournalStatus) : JournalStatus :=
  mkStatus (identity s) (phase s) (header_sequence s) (record_count s)
    (committed_transactions s) (last_transaction_id s) a b (records_valid s).
Definition with_header (h : DecodedHeader) (s : JournalStatus) : JournalStatus :=
  mkStatus (dh_id h) (dh_phase h) (dh_sequence h) (dh_record_count h)
    (committed_transactions s) (last_transaction_id s) (header_a_valid s)
    (header_b_valid s) (records_valid s).
Definition with_records_valid (b : bool) (s : JournalStatus) : JournalStatus :=
  mkStatus (identity s) (phase s) (header_sequence s) (record_count s)
    (committed_transactions s) (last_transaction_id s) (header_a_valid s)
    (header_b_valid s) b.
Definition with_sequence (seq count : Z) (s : JournalStatus) : JournalStatus :=
  mkStatus (identity s) (phase s) seq count (committed_transactions s)
    (last_transaction_id s) (header_a_valid s) (header_b_valid s) (records_valid s).
Definition with_phase (ph : OperationPhase) (seq : Z) (s : JournalStatus) : JournalStatus :=
  mkStatus (identity s) ph seq (record_count s) (committed_transactions s)
    (last_transaction_id s) (header_a_valid s) (header_b_valid s) (records_valid s).
(** [last_transaction_id = max(..)], and [++committed_transactions] for a
    [metadata_committed] record. *)
Definition note_record (s : JournalStatus) (r : JournalRecord) : JournalStatus :=
  mkStatus (identity s) (phase s) (header_sequence s) (record_count s)
    (if decide (rtype r = metadata_committed) then u64 (committed_transactions s + 1)
     else committed_transactions s)
    (Z.max (last_transaction_id s) (transaction_id r))
    (header_a_valid s) (header_b_valid s) (records_valid s).

(** ** Methods *)

Definition J (A : Type) : Type := TransactionJournal -> M (Result A * TransactionJournal).
#[export] Instance J_ret : MRet J := fun A a j => mret (Ok a, j).
#[export] Instance J_bind : MBind J := fun A B k m j =>
  rj ← m j;
  match rj with
  | (Ok a, j') => k a j'
  | (Err e, j') => mret (Err e, j')
  end.
Definition failJ {A} (c : Errc) (msg : string) : J A := fun j => mret (fail c msg, j).
Definition errJ {A} (e : Error) : J A := fun j => mret (Err e, j).
Definition this : J TransactionJournal := fun j => mret (Ok j, j).
Definition update (f : JournalStatus -> JournalStatus) : J unit := fun j =>
  mret (Ok tt, set_status (f (status_ j)) j).
(** A call on [device_] whose error the method returns. *)
Definition dev {A} (m : BlockDevice -> M A) : J A := fun j =>
  r ← attempt (m (device_ j)); mret (r, j).

Definition write_header (slot seq : Z) (ph : OperationPhase) (count : Z) : J unit :=
  j ← this;
  if negb (jwritable_ j) then failJ permission "journal is read-only"
  else
    let b := encode_header (identity (status_ j)) seq ph count in
    dev (fun d => write_exact d (slot * header_bytes) b).

(** The choice between the two decoded slots. *)
Definition select_header (da db : Result DecodedHeader) : Result DecodedHeader :=
  match da, db with
  | Err _, Err _ => fail corrupt "both journal headers are invalid"
  | Ok a, Ok b =>
      if negb (bool_decide (operation_uuid (dh_id a) = operation_uuid (dh_id b)))
         || negb (bool_decide (filesystem_uuid (dh_id a) = filesystem_uuid (dh_id b)))
         || negb (device_size (dh_id a) =? device_size (dh_id b))
         || negb (target_size (dh_id a) =? target_size (dh_id b))
      then fail corrupt "journal headers describe different operations"
      else Ok (if dh_sequence b <=? dh_sequence a then a else b)
  | Ok a, Err _ => Ok a
  | Err _, Ok b => Ok b
  end.

Definition capacity_of (size : Z) : Z :=
  if records_offset <? size then (size - records_offset) / record_bytes else 0.

(** The loop of [load] over [n] records from index [i]. *)
Fixpoint load_records (n : nat) (i : Z) : J unit :=
  match n with
  | O => mret tt
  | S n =>
      rec ← dev (fun d => read_exact d (records_offset + i * record_bytes) 128);
      match decode_record rec with
      | Err e => update (with_records_valid false);; errJ e
      | Ok r =>
          if negb (sequence r =? i + 1) then
            update (with_records_valid false);;
            failJ corrupt "journal record sequence is not contiguous"
          else
            update (fun s => note_record s r);;
            load_records n (i + 1)
      end
  end.

Definition load : J unit :=
  a ← dev (fun d => read_exact d 0 4096);
  b ← dev (fun d => read_exact d header_bytes 4096);
  let da := decode_header a in
  let db := decode_header b in
  update (with_valid (Result_bool da) (Result_bool db));;
  match select_header da db with
  | Err e => errJ e
  | Ok h =>
      update (with_header h);;
      j ← this;
      if capacity_of (size_bytes (geometry (device_ j))) <? record_count (status_ j)
      then failJ corrupt "journal record count exceeds journal capacity"
      else
        update (with_records_valid true);;
        load_records (Z.to_nat (record_count (status_ j))) 0
  end.

Definition renumber (seq : Z) (r : JournalRecord) : JournalRecord :=
  mkRecord (rtype r) seq (transaction_id r) (source_block r) (destination_block r)
    (block_count r) (inode r) (aux r) (data_crc32c r) (rstate r).

(** The loop of [append_batch] that writes the records; [i] counts them.  The
    sums stay below the journal's capacity. *)
Fixpoint write_records (rs : list JournalRecord) (i : Z) : J unit :=
  match rs with
  | [] => mret tt
  | r0 :: rs =>
      j ← this;
      let r := renumber (record_count (status_ j) + i + 1) r0 in
      let record_offset := records_offset + (record_count (status_ j) + i) * record_bytes in
      dev (fun d => write_exact d record_offset (encode_record r));;
      write_records rs (i + 1)
  end.

Definition append_batch (records : list JournalRecord) : J unit :=
  j ← this;
  if negb (jwritable_ j) then failJ permission "journal is read-only"
  else match records with
  | [] => mret tt
  | _ =>
      let capacity_records := capacity_of (size_bytes (geometry (device_ j))) in
      let add := zlen records in
      let count := record_count (status_ j) in
      if (capacity_records <? count) || (capacity_records - count <? add)
      then failJ io "journal is full"
      else
        let new_count := count + add in
        write_records records 0;;
        dev flush;;
        let seq := u64 (header_sequence (status_ j) + 1) in
        write_header (Z.land seq 1) seq (phase (status_ j)) new_count;;
        dev flush;;
        update (fun s => foldl note_record (with_sequence seq new_count s) records)
  end.

Definition append (r : JournalRecord) : J unit := append_batch [r].

Definition checkpoint (ph : OperationPhase) : J unit :=
  j ← this;
  if negb (jwritable_ j) then failJ permission "journal is read-only"
  else
    append (mkRecord checkpoint_record 0 (last_transaction_id (status_ j)) 0 0 0 0
              (phase_code ph) 0 0);;
    j ← this;
    let seq := u64 (header_sequence (status_ j) + 1) in
    write_header (Z.land seq 1) seq ph (record_count (status_ j));;
    dev flush;;
    update (with_phase ph seq).

Definition flush : J unit := dev Device.flush.

Fixpoint read_records (n : nat) (i : Z) : J (list JournalRecord) :=
  match n with
  | O => mret []
  | S n =>
      rec ← dev (fun d => read_exact d (records_offset + i * record_bytes) 128);
      match decode_record rec with
      | Err e => errJ e
      | Ok r => out ← read_records n (i + 1); mret (r :: out)
      end
  end.

(** [records()]; a 64-bit [size_t] holds every count. *)
Definition records : J (list JournalRecord) :=
  j ← this; read_records (Z.to_nat (record_count (status_ j))) 0.

(** [std::filesystem::exists(path, ec)]. *)
Definition sys_exists (path : string) : M (Z + bool) :=
  sys_call (fun h => (bool_decide (is_Some (h_names h !! path)), h)).

Definition fresh_status (id : JournalIdentity) : JournalStatus :=
  mkStatus id prepared 1 0 0 0 false false true.
Definition empty_status : JournalStatus :=
  mkStatus (mkIdentity (zeros 16) (zeros 16) 0 0) prepared 0 0 0 0 false false false.

(** Run a method for its effect; its error becomes the caller's. *)
Definition run_on (m : J unit) (j : TransactionJournal) : M TransactionJournal :=
  rj ← m j; match rj with (Ok _, j') => mret j' | (Err e, _) => raise e end.

(** The part of [create] in which the destructor of [Cleanup] removes the
    temporary file on every return. *)
Definition create_temp (temp path : string) (id : JournalIdentity) (cap : Z)
    : M TransactionJournal :=
  d ← create_file temp cap;
  let j := mkJournal d (fresh_status id) true in
  j ← run_on (write_header 0 1 prepared 0) j;
  j ← run_on (write_header 1 0 prepared 0) j;
  Device.flush d;;
  publish_file_noreplace temp path "transaction journal";;
  mret j.

Definition create (path : string) (id : JournalIdentity) (cap : Z) : M TransactionJournal :=
  if cap <? records_offset + record_bytes * 16
  then failM invalid_argument "journal capacity is too small"
  else
    ex ← sys_exists path;
    match ex with
    | inr true => failM unsafe "refusing to overwrite existing transaction journal"
    | inl e => env ← ask_env;
        failM open_failed ("cannot inspect transaction journal path: " +:+ strerror env e)
    | inr false =>
        temp_uuid ← random_uuid_v4;
        env ← ask_env;
        let nonce := read_le64 temp_uuid 0 in
        let temp := path +:+ ".part." +:+ pretty (getpid env) +:+ "." +:+ pretty nonce in
        r ← attempt (create_temp temp path id cap);
        match r with
        | Err e => unlink_ignored temp;; raise e
        | Ok j =>
            reopened ← open_write path;
            mret (set_status (with_valid true true (status_ j)) (set_device reopened j))
        end
    end.

Definition open (path : string) (writable : bool) : M TransactionJournal :=
  d ← (if writable then open_write path else open_read path);
  run_on load (mkJournal d empty_status writable).

(** The codecs are used through their lemmas from here on. *)
#[local] Opaque encode_header decode_header encode_record decode_record slice.

(** ** Specification: what an image of the file contains *)

Definition slot_header (img : bytes) (slot : Z) : Result DecodedHeader :=
  decode_header (slice img (slot * header_bytes) 4096).
Definition record_at (img : bytes) (i : Z) : Result JournalRecord :=
  let? r := decode_record (slice img (records_offset + i * record_bytes) 128) in
  if sequence r =? i + 1 then Ok r
  else fail corrupt "journal record sequence is not contiguous".
Fixpoint scan_records (img : bytes) (n : nat) (i : Z) : Result (list JournalRecord) :=
  match n with
  | O => Ok []
  | S n => let? r := record_at img i in
           let? rs := scan_records img n (i + 1) in Ok (r :: rs)
  end.
Definition load_image (img : bytes) : Result (DecodedHeader * list JournalRecord) :=
  let? h := select_header (slot_header img 0) (slot_header img 1) in
  if capacity_of (zlen img) <? dh_record_count h
  then fail corrupt "journal record count exceeds journal capacity"
  else let? rs := scan_records img (Z.to_nat (dh_record_count h)) 0 in Ok (h, rs).

(** What recovery works from: the identity, the phase and the records. *)
Definition journal_view (img : bytes) : Result (JournalIdentity * OperationPhase * list JournalRecord) :=
  let? (h, rs) := load_image img in Ok (dh_id h, dh_phase h, rs).

(** The status [load] leaves in a journal that had status [s]. *)
Definition loaded_status (s : JournalStatus) (img : bytes) (h : DecodedHeader)
    (rs : list JournalRecord) : JournalStatus :=
  foldl note_record
    (with_records_valid true (with_header h
      (with_valid (Result_bool (slot_header img 0)) (Result_bool (slot_header img 1)) s))) rs.

(** ** Reasoning about methods *)

Lemma wpJ_ret {A} (a : A) j h (Q : Outcome (Result A * TransactionJournal) -> Host -> Prop) :
  Q (Ret (Ok a, j)) h -> wp ((mret a : J A) j) h Q.
Proof. done. Qed.

Lemma wpJ_bind {A B} (m : J A) (k : A -> J B) j h
    (Q : Outcome (Result B * TransactionJournal) -> Host -> Prop) :
  wp (m j) h (fun o h' => carry o (fun rj h'' =>
    match rj with
    | (Ok a, j') => wp (k a j') h'' Q
    | (Err e, j') => Q (Ret (Err e, j')) h''
    end) Q h') ->
  wp ((m ≫= k) j) h Q.
Proof.
  intros H. unfold mbind, J_bind. apply wp_bind. eapply wp_mono; [exact H|].
  intros o h'. destruct o as [[[a|e] j']|e|s|]; cbn; done.
Qed.

Lemma wpJ_this {A} (k : TransactionJournal -> J A) j h Q :
  wp (k j j) h Q -> wp ((this ≫= k) j) h Q.
Proof. intros H. by apply wpJ_bind. Qed.

Lemma wpJ_update {A} f (k : unit -> J A) j h Q :
  wp (k tt (set_status (f (status_ j)) j)) h Q -> wp ((update f ≫= k) j) h Q.
Proof. intros H. by apply wpJ_bind. Qed.

Lemma wpJ_dev {A} (m : BlockDevice -> M A) j h
    (Q : Outcome (Result A * TransactionJournal) -> Host -> Prop) :
  wp (m (device_ j)) h (fun o h' => match o with
    | Ret a => Q (Ret (Ok a, j)) h'
    | Fail e => Q (Ret (Err e, j)) h'
    | Exit s => Q (Exit s) h'
    | OutOfFuel => Q OutOfFuel h' end) ->
  wp (dev m j) h Q.
Proof.
  intros H. unfold dev. apply wp_bind, wp_attempt. eapply wp_mono; [exact H|].
  by intros [a|e|s|] h'.
Qed.

(** A device read whose value the method goes on with. *)
Lemma wpJ_read {A} j off n (k : bytes -> J A) h f
    (Q : Outcome (Result A * TransactionJournal) -> Host -> Prop) :
  dev_file h (device_ j) f -> 0 <= off -> 0 <= n ->
  (forall h', quiet h h' -> off + n <= size_bytes (geometry (device_ j)) ->
     wp (k (slice (content f) off n) j) h' Q) ->
  (forall e h', quiet h h' -> Q (Ret (Err e, j)) h') ->
  (forall s h', quiet h h' -> Q (Exit s) h') ->
  wp ((dev (fun d => read_exact d off n) ≫= k) j) h Q.
Proof.
  intros Hf Ho Hn Hok Herr Hexit. apply wpJ_bind, wpJ_dev.
  eapply wp_mono; [by apply (read_exact_spec _ off n h f)|].
  intros o h' (Hq & Hne & Hval). destruct o as [bs|e|s|]; cbn [carry]; try done.
  - destruct (Hval bs eq_refl) as (-> & _ & ?). by apply Hok.
  - by apply Herr.
  - by apply Hexit.
Qed.

(** ** [load] refines [load_image] *)

Definition load_post (j : TransactionJournal) (h : Host) (good : TransactionJournal -> Prop)
    (o : Outcome (Result unit * TransactionJournal)) (h' : Host) : Prop :=
  quiet h h' /\ o <> OutOfFuel /\ (forall e, o <> Fail e) /\
  forall j', o = Ret (Ok tt, j') -> good j'.

Lemma load_post_quiet j h h' good o h'' :
  quiet h h' -> load_post j h' good o h'' -> load_post j h good o h''.
Proof. intros Hq (Hq' & H). split; [by eapply quiet_trans|done]. Qed.

Lemma load_records_spec n i j h f :
  dev_file h (device_ j) f -> 0 <= i ->
  wp (load_records n i j) h (load_post j h (fun j' => exists rs,
    scan_records (content f) n i = Ok rs /\
    j' = set_status (foldl note_record (status_ j) rs) j)).
Proof.
  revert i j h. induction n as [|n IH]; intros i j h Hf Hi; cbn [load_records].
  { apply wpJ_ret. split_and!; try done. intros j' [= <-]. exists [].
    split; [done|]. by destruct j. }
  eapply wpJ_read; [exact Hf|unfold records_offset, header_bytes, record_bytes; lia|lia| |
    by intros e h' ?|by intros s h' ?].
  intros h1 Hq1 _. cbn [scan_records]. unfold record_at.
  destruct (decode_record _) as [r|e] eqn:Er; cbn [bindR].
  2: { apply wpJ_update. by split_and!. }
  destruct (sequence r =? i + 1) eqn:Es; cbn [negb bindR].
  2: { apply wpJ_update. by split_and!. }
  apply wpJ_update.
  eapply wp_mono.
  { apply (IH (i + 1) (set_status (note_record (status_ j) r) j) h1); [|lia].
    by eapply dev_file_quiet. }
  intros o h2 Hpost. eapply load_post_quiet in Hpost; [|exact Hq1].
  destruct Hpost as (Hq2 & Hne & Hnf & Hok). split_and!; try done.
  intros j' Ho. destruct (Hok j' Ho) as (rs & Hrs & ->). exists (r :: rs).
  split; [by rewrite Hrs|]. done.
Qed.

Lemma slot_header_0 img : decode_header (slice img 0 4096) = slot_header img 0.
Proof. unfold slot_header. by rewrite Z.mul_0_l. Qed.
Lemma slot_header_1 img : decode_header (slice img header_bytes 4096) = slot_header img 1.
Proof. unfold slot_header. by rewrite Z.mul_1_l. Qed.

Lemma load_spec j h f :
  dev_file h (device_ j) f ->
  wp (load j) h (load_post j h (fun j' => exists hd rs,
    load_image (content f) = Ok (hd, rs) /\
    j' = set_status (loaded_status (status_ j) (content f) hd rs) j)).
Proof.
  intros Hf. pose proof (zlen_content _ _ (proj2 Hf)) as Hlen. unfold load.
  eapply wpJ_read; [exact Hf|lia|lia| |by intros e h' ?|by intros s h' ?].
  intros h1 Hq1 _. pose proof (dev_file_quiet _ _ _ _ Hq1 Hf) as Hf1.
  eapply wpJ_read; [exact Hf1|unfold header_bytes; lia|lia| | |].
  2: { intros e h' Hq. split_and!; try done. by eapply quiet_trans. }
  2: { intros e h' Hq. split_and!; try done. by eapply quiet_trans. }
  intros h2 Hq2 _. pose proof (dev_file_quiet _ _ _ _ Hq2 Hf1) as Hf2.
  assert (Hq : quiet h h2) by (by eapply quiet_trans).
  apply wpJ_update. cbv zeta. unfold load_image.
  rewrite slot_header_0, slot_header_1. unfold loaded_status.
  generalize (slot_header (content f) 0), (slot_header (content f) 1). intros da db.
  destruct (select_header _ _) as [hd|e] eqn:Esel; cbn [bindR]; [|by split_and!].
  apply wpJ_update. apply wpJ_this. cbn [device_ status_ set_status record_count with_header].
  rewrite Hlen. destruct (capacity_of _ <? _); [by split_and!|].
  apply wpJ_update. eapply wp_mono; [eapply load_records_spec; [exact Hf2|lia]|].
  intros o h3 Hpost. eapply load_post_quiet in Hpost; [|exact Hq].
  destruct Hpost as (Hq3 & Hne & Hnf & Hok). split_and!; try done.
  intros j' Ho. destruct (Hok j' Ho) as (rs & Hrs & ->). exists hd, rs.
  cbn in Hrs. rewrite Hrs. cbn [bindR]. split; [done|]. done.
Qed.

(** ** Writes of a method *)

(** From [h] to [h'] only chunks of [data] at [off] became pending in the file
    [f] behind [fd], all of them when [full]. *)
Definition wrote (fd off : Z) (data : bytes) (f : File) (h h' : Host) (full : Prop) : Prop :=
  exists ws, Forall (chunk off data) ws /\
    with_files (<[fd := add_writes ws f]> (h_files h)) h h' /\
    (full -> content (add_writes ws f) = splice (content f) off data).

Lemma write_post_wrote {A} fd off data f h (o : Outcome A) h' :
  write_post fd off data f h o h' -> wrote fd off data f h h' (exists a, o = Ret a).
Proof.
  intros (_ & ws & H1 & H2 & H3). exists ws. split_and!; try done.
  intros [a Ha]. by apply (H3 a).
Qed.

Lemma chunk_app_l off d1 d2 w : chunk off d1 w -> chunk off (d1 ++ d2) w.
Proof.
  unfold chunk. intros (H1 & H2 & H3). pose proof (zlen_nonneg d2). pose proof (zlen_nonneg w.2).
  rewrite zlen_app. split_and!; [lia|lia|]. by rewrite slice_app_l by lia.
Qed.

Lemma chunk_app_r off d1 d2 w : chunk (off + zlen d1) d2 w -> chunk off (d1 ++ d2) w.
Proof.
  unfold chunk. intros (H1 & H2 & H3). pose proof (zlen_nonneg d1).
  rewrite zlen_app. split_and!; [lia|lia|]. rewrite slice_app_r by lia.
  rewrite H3 at 1. f_equal. lia.
Qed.

Lemma splice_app {A} (l : list A) off d1 d2 :
  0 <= off -> off + zlen d1 + zlen d2 <= zlen l ->
  splice (splice l off d1) (off + zlen d1) d2 = splice l off (d1 ++ d2).
Proof.
  intros Ho Hl. pose proof (zlen_nonneg d1). pose proof (zlen_nonneg d2).
  apply list_eq. intros i.
  assert (zlen (splice l off d1) = zlen l) by (apply zlen_splice; lia).
  rewrite (lookup_splice _ (off + zlen d1)), !lookup_splice by lia.
  rewrite zlen_app. repeat case_decide; try lia; try done; unfold zlen in *.
  all: first [by rewrite lookup_app_l by lia | rewrite lookup_app_r by lia; f_equal; lia].
Qed.

Lemma wrote_nothing fd off data f h h' full :
  h_files h !! fd = Some f -> quiet h h' -> ~ full -> wrote fd off data f h h' full.
Proof.
  intros Hf Hq Hno. exists []. rewrite add_writes_nil. split_and!; [done| |done].
  rewrite insert_id by done. by apply quiet_with_files.
Qed.

Lemma wrote_weaken fd off d1 d2 f h h' (full full' : Prop) :
  ~ full' -> wrote fd off d1 f h h' full -> wrote fd off (d1 ++ d2) f h h' full'.
Proof.
  intros Hno (ws & H1 & H2 & _). exists ws. split_and!; [|done|done].
  eapply Forall_impl; [exact H1|]. intros w. apply chunk_app_l.
Qed.

Lemma wrote_app fd off d1 d2 f h h1 h2 ws full :
  0 <= off -> off + zlen d1 + zlen d2 <= zlen (content f) ->
  Forall (chunk off d1) ws ->
  with_files (<[fd := add_writes ws f]> (h_files h)) h h1 ->
  content (add_writes ws f) = splice (content f) off d1 ->
  wrote fd (off + zlen d1) d2 (add_writes ws f) h1 h2 full ->
  wrote fd off (d1 ++ d2) f h h2 full.
Proof.
  intros Ho Hl Hws Hf Hc (ws2 & Hws2 & Hf2 & Hfull).
  exists (ws ++ ws2). rewrite <-add_writes_app. split_and!.
  - apply Forall_app. split; (eapply Forall_impl; [eassumption|]); intros w;
      [apply chunk_app_l|apply chunk_app_r].
  - by eapply with_files_insert_twice.
  - intros Hf'. rewrite Hfull, Hc by done. by apply splice_app.
Qed.

(** ** [append_batch] *)

Definition batch (count i : Z) (rs : list JournalRecord) : list JournalRecord :=
  imap (fun k r => renumber (count + i + Z.of_nat k + 1) r) rs.
Definition batch_bytes (count i : Z) (rs : list JournalRecord) : bytes :=
  concat (encode_record <$> batch count i rs).

Lemma batch_cons count i r rs :
  batch count i (r :: rs) = renumber (count + i + 1) r :: batch count (i + 1) rs.
Proof.
  unfold batch. cbn [imap]. f_equal; [f_equal; lia|].
  apply imap_ext. intros k x _. unfold compose. f_equal. lia.
Qed.
Lemma length_batch count i rs : length (batch count i rs) = length rs.
Proof. apply length_imap. Qed.
Lemma batch_bytes_cons count i r rs :
  batch_bytes count i (r :: rs)
  = encode_record (renumber (count + i + 1) r) ++ batch_bytes count (i + 1) rs.
Proof. unfold batch_bytes. by rewrite batch_cons. Qed.
Lemma zlen_batch_bytes count i rs : zlen (batch_bytes count i rs) = 128 * zlen rs.
Proof.
  revert i. induction rs as [|r rs IH]; intros i; [done|].
  rewrite batch_bytes_cons, zlen_app, zlen_encode_record, IH, zlen_cons. lia.
Qed.

Definition record_offset (i : Z) : Z := records_offset + i * record_bytes.

(** What a method call that only writes guarantees. *)
Definition writes_post (fd off : Z) (data : bytes) (f : File) (h : Host) (j : TransactionJournal)
    (o : Outcome (Result unit * TransactionJournal)) (h' : Host) : Prop :=
  o <> OutOfFuel /\ (forall e, o <> Fail e) /\
  (forall r j', o = Ret (r, j') -> j' = j) /\
  wrote fd off data f h h' (o = Ret (Ok tt, j)).

Lemma dev_write_spec off data j h f :
  dev_file h (device_ j) f -> 0 <= off ->
  wp (dev (fun d => write_exact d off data) j) h (writes_post (fd_ (device_ j)) off data f h j).
Proof.
  intros Hf Ho. apply wpJ_dev. eapply wp_mono; [by apply (write_exact_spec _ off data h f)|].
  intros o h' (Hpost & _). pose proof (proj1 Hpost) as Hne.
  apply write_post_wrote in Hpost. destruct Hpost as (ws & H1 & H2 & H3).
  assert (Hw : forall full : Prop, (full -> exists a, o = Ret a) ->
    wrote (fd_ (device_ j)) off data f h h' full).
  { intros full Hfull. exists ws. split_and!; auto. }
  destruct o as [[]|e|s|]; (split; [done|]; split; [done|];
    split; [intros r j' E; by inversion E|apply Hw; intros E]); try done. by exists tt.
Qed.

Lemma write_records_spec rs i j h f :
  dev_file h (device_ j) f -> 0 <= record_count (status_ j) -> 0 <= i ->
  record_offset (record_count (status_ j) + i) + 128 * zlen rs <= size_bytes (geometry (device_ j)) ->
  wp (write_records rs i j) h
    (writes_post (fd_ (device_ j)) (record_offset (record_count (status_ j) + i))
       (batch_bytes (record_count (status_ j)) i rs) f h j).
Proof.
  set (count := record_count (status_ j)). set (fd := fd_ (device_ j)).
  revert i h f. induction rs as [|r rs IH]; intros i h f Hf Hc Hi Hroom; cbn [write_records].
  { apply wpJ_ret. split_and!; try done; [by intros ? ? [= <- <-]|].
    exists []. rewrite add_writes_nil. split_and!; [done| |].
    - rewrite insert_id by apply Hf. by apply quiet_with_files.
    - intros _. unfold batch_bytes. cbn. unfold splice. cbn [app length].
      by rewrite Nat.add_0_r, take_drop. }
  rewrite zlen_cons in Hroom. pose proof (zlen_nonneg rs).
  pose proof (zlen_content _ _ (proj2 Hf)) as Hlen.
  apply wpJ_this. cbv zeta. fold count. apply wpJ_bind.
  assert (Hoff : 0 <= record_offset (count + i))
    by (unfold record_offset, records_offset, header_bytes, record_bytes; lia).
  eapply wp_mono.
  { apply dev_write_spec; [exact Hf|exact Hoff]. }
  rewrite batch_bytes_cons. fold fd.
  intros o h1 (Hne & Hnf & Hj & Hw).
  destruct o as [[[[]|e] j']|e|s|]; cbn [carry]; try done.
  - rewrite (Hj _ _ eq_refl) in *. destruct Hw as (ws & Hws & Hf1 & Hfull).
    set (f1 := add_writes ws f) in *.
    assert (Hdf1 : dev_file h1 (device_ j) f1).
    { split; [destruct Hf1 as [-> _]; apply lookup_insert_eq|].
      eapply file_ok_add_writes; [apply Hf|exact Hoff| |exact Hws].
      rewrite zlen_encode_record. lia. }
    eapply wp_mono.
    { apply (IH (i + 1) h1 f1); [done|done|lia|].
      revert Hroom. unfold record_offset, record_bytes. lia. }
    intros o h2 (Hne2 & Hnf2 & Hj2 & Hw2). split_and!; try done.
    eapply wrote_app; [exact Hoff| |exact Hws|exact Hf1|by apply Hfull|].
    + rewrite zlen_encode_record, zlen_batch_bytes, Hlen. lia.
    + rewrite zlen_encode_record.
      by replace (record_offset (count + i) + 128) with (record_offset (count + (i + 1)))
        by (unfold record_offset, record_bytes; lia).
  - split_and!; try done. eapply wrote_weaken; [|exact Hw]. intros [=].
  - split_and!; try done. eapply wrote_weaken; [|exact Hw]. intros [=].
  - split_and!; try done. eapply wrote_weaken; [|exact Hw]. intros [=].
Qed.

Lemma dev_flush_spec j h f :
  h_files h !! fd_ (device_ j) = Some f ->
  wp (dev Device.flush j) h (fun o h' =>
    o <> OutOfFuel /\ (forall e, o <> Fail e) /\ (forall r j', o = Ret (r, j') -> j' = j) /\
    (with_files (<[fd_ (device_ j) := synced f]> (h_files h)) h h' \/
     quiet h h' /\ o <> Ret (Ok tt, j))).
Proof.
  intros Hf. apply wpJ_dev. eapply wp_mono; [by apply (flush_spec _ h f)|].
  intros o h' (Hne & Hfl).
  assert (Hres : forall o' : Outcome (Result unit * TransactionJournal),
    (o' = Ret (Ok tt, j) -> o = Ret tt) ->
    with_files (<[fd_ (device_ j) := synced f]> (h_files h)) h h' \/
    quiet h h' /\ o' <> Ret (Ok tt, j)).
  { intros o' Ho'. destruct Hfl as [Hfl|[Hq Hno]]; [by left|right]. split; [done|]. auto. }
  destruct o as [[]|e|s|]; (split; [done|]; split; [done|];
    split; [intros r j' E; by inversion E|apply Hres; intros E]); done.
Qed.

(** The journal after a successful append of [rs]. *)
Definition next_sequence (j : TransactionJournal) : Z := u64 (header_sequence (status_ j) + 1).
Definition appended_journal (j : TransactionJournal) (rs : list JournalRecord) : TransactionJournal :=
  set_status (foldl note_record
    (with_sequence (next_sequence j) (record_count (status_ j) + zlen rs) (status_ j)) rs) j.
Definition append_data (j : TransactionJournal) (rs : list JournalRecord) : bytes :=
  batch_bytes (record_count (status_ j)) 0 rs.
Definition append_off (j : TransactionJournal) : Z := record_offset (record_count (status_ j)).
Definition slot_off (j : TransactionJournal) : Z := Z.land (next_sequence j) 1 * header_bytes.
Definition append_header (j : TransactionJournal) (rs : list JournalRecord) : bytes :=
  encode_header (identity (status_ j)) (next_sequence j) (phase (status_ j))
    (record_count (status_ j) + zlen rs).

(** The file at any point of an append: some of the records; or all of them,
    durable, and some of the header; or everything, durable. *)
Inductive append_stage (j : TransactionJournal) (rs : list JournalRecord) (f : File)
    (o : Outcome (Result unit * TransactionJournal)) : File -> Prop :=
  | stage_none : (forall j', o <> Ret (Ok tt, j')) -> append_stage j rs f o f
  | stage_records ws f' :
      append_off j + zlen (append_data j rs) <= zlen (content f) ->
      Forall (chunk (append_off j) (append_data j rs)) ws ->
      f' = add_writes ws f \/ f' = synced (add_writes ws f) ->
      (forall j', o <> Ret (Ok tt, j')) ->
      append_stage j rs f o f'
  | stage_header ws ws2 f1 f' :
      append_off j + zlen (append_data j rs) <= zlen (content f) ->
      Forall (chunk (append_off j) (append_data j rs)) ws ->
      f1 = synced (add_writes ws f) ->
      content f1 = splice (content f) (append_off j) (append_data j rs) ->
      Forall (chunk (slot_off j) (append_header j rs)) ws2 ->
      f' = add_writes ws2 f1 \/ f' = synced (add_writes ws2 f1) ->
      (forall j', o = Ret (Ok tt, j') -> j' = appended_journal j rs /\ f_pending f' = [] /\
         content f' = splice (content f1) (slot_off j) (append_header j rs)) ->
      append_stage j rs f o f'.

Lemma slot_bit (x : Z) : Z.land x 1 = 0 \/ Z.land x 1 = 1.
Proof.
  assert (Z.land x 1 = x mod 2) as -> by exact (Z.land_ones x 1 ltac:(lia)).
  pose proof (Z.mod_pos_bound x 2 ltac:(lia)). lia.
Qed.

Lemma capacity_room size count n :
  0 <= count -> 0 < n -> (capacity_of size <? count) = false ->
  (capacity_of size - count <? n) = false ->
  record_offset count + 128 * n <= size.
Proof.
  intros Hc Hn H1 H2. apply Z.ltb_ge in H1, H2. unfold capacity_of in *.
  unfold record_offset, record_bytes in *.
  destruct (Z.ltb_spec records_offset size); [|lia].
  pose proof (Z.mul_div_le (size - records_offset) 128 ltac:(lia)). nia.
Qed.

Lemma append_batch_spec rs j h f :
  dev_file h (device_ j) f -> 0 <= record_count (status_ j) ->
  identity_ok (identity (status_ j)) -> rs <> [] ->
  wp (append_batch rs j) h (fun o h' =>
    o <> OutOfFuel /\ (forall e, o <> Fail e) /\
    (forall e j', o = Ret (Err e, j') -> j' = j) /\
    exists f', with_files (<[fd_ (device_ j) := f']> (h_files h)) h h' /\
               append_stage j rs f o f').
Proof.
  intros Hf Hc Hid Hrs. set (fd := fd_ (device_ j)).
  pose proof (zlen_content _ _ (proj2 Hf)) as Hlen.
  assert (Hnone : forall (o : Outcome (Result unit * TransactionJournal)) h',
    h' = h -> (forall j', o <> Ret (Ok tt, j')) ->
    exists f', with_files (<[fd := f']> (h_files h)) h h' /\ append_stage j rs f o f').
  { intros o h' -> Hno. exists f. split.
    - rewrite insert_id by apply Hf. by repeat split.
    - by apply stage_none. }
  unfold append_batch. apply wpJ_this.
  destruct (jwritable_ j); cbn [negb].
  2: { split_and!; try done; [by intros ? ? [= <- <-]|by apply Hnone]. }
  destruct rs as [|r0 rs0]; [done|]. cbv zeta. set (rs := r0 :: rs0) in *. clearbody rs.
  set (size := size_bytes (geometry (device_ j))).
  destruct ((capacity_of size <? record_count (status_ j))
    || (capacity_of size - record_count (status_ j) <? zlen rs)) eqn:Hcap.
  { split_and!; try done; [by intros ? ? [= <- <-]|by apply Hnone]. }
  apply orb_false_iff in Hcap as [Hcap1 Hcap2].
  assert (Hrslen : 0 < zlen rs) by (destruct rs; [done|unfold zlen; cbn [length]; lia]).
  pose proof (capacity_room size _ _ Hc Hrslen Hcap1 Hcap2) as Hroom.
  assert (Hroom' : append_off j + zlen (append_data j rs) <= zlen (content f)).
  { unfold append_data. rewrite zlen_batch_bytes, Hlen. exact Hroom. }
  apply wpJ_bind. eapply wp_mono.
  { apply (write_records_spec rs 0 j h f Hf Hc); [lia|]. by rewrite Z.add_0_r. }
  rewrite Z.add_0_r. fold (append_off j). fold (append_data j rs). fold fd.
  intros o h1 (Hne & Hnf & Hj & ws & Hws & Hf1 & Hfull).
  assert (Hrec : forall (o' : Outcome (Result unit * TransactionJournal)),
    (forall j', o' <> Ret (Ok tt, j')) ->
    exists f', with_files (<[fd := f']> (h_files h)) h h1 /\ append_stage j rs f o' f').
  { intros o' Hno. exists (add_writes ws f). split; [done|].
    apply stage_records with (ws := ws); auto. }
  destruct o as [[[[]|e] j']|e|s|]; cbn [carry]; try done.
  2: { rewrite (Hj _ _ eq_refl). split_and!; try done; [by intros ? ? [= _ <-]|by apply Hrec]. }
  2, 3: split_and!; try done; by apply Hrec.
  rewrite (Hj _ _ eq_refl) in *. specialize (Hfull eq_refl).
  assert (Hf1' : h_files h1 !! fd = Some (add_writes ws f))
    by (destruct Hf1 as [-> _]; apply lookup_insert_eq).
  apply wpJ_bind. eapply wp_mono; [by apply dev_flush_spec|]. fold fd.
  intros o h2 (Hne2 & Hnf2 & Hj2 & Hf2).
  assert (Hfl : forall (o' : Outcome (Result unit * TransactionJournal)),
    (forall j', o' <> Ret (Ok tt, j')) ->
    exists f', with_files (<[fd := f']> (h_files h)) h h2 /\ append_stage j rs f o' f').
  { intros o' Hno. destruct Hf2 as [Hf2|[Hq2 _]].
    - exists (synced (add_writes ws f)). split; [by eapply with_files_insert_twice|].
      apply stage_records with (ws := ws); auto.
    - exists (add_writes ws f). split; [by eapply with_files_quiet|].
      apply stage_records with (ws := ws); auto. }
  destruct o as [[[[]|e] j2]|e|s|]; cbn [carry]; try done.
  2: { rewrite (Hj2 _ _ eq_refl). split_and!; try done; [by intros ? ? [= _ <-]|by apply Hfl]. }
  2, 3: split_and!; try done; by apply Hfl.
  rewrite (Hj2 _ _ eq_refl) in *. clear Hfl Hrec Hnone.
  destruct Hf2 as [Hf2|[_ Hno]]; [|done].
  assert (Hf2' : with_files (<[fd := synced (add_writes ws f)]> (h_files h)) h h2)
    by (by eapply with_files_insert_twice).
  set (f1 := synced (add_writes ws f)) in *.
  assert (Hdf2 : dev_file h2 (device_ j) f1).
  { split; [destruct Hf2 as [-> _]; apply lookup_insert_eq|].
    apply file_ok_synced. eapply file_ok_add_writes; [apply Hf| | |exact Hws].
    - unfold append_off, record_offset, records_offset, header_bytes, record_bytes. lia.
    - unfold append_data. rewrite zlen_batch_bytes. exact Hroom. }
  fold (next_sequence j). apply wpJ_bind. unfold write_header. apply wpJ_this.
  destruct (jwritable_ j); cbn [negb].
  2: { apply wp_ret. cbn [carry]. split_and!; try done; [by intros ? ? [= _ <-]|].
       exists f1. split; [done|]. apply stage_records with (ws := ws); auto. }
  cbv zeta. fold (append_header j rs). fold (slot_off j).
  assert (Hslot : 0 <= slot_off j) by
    (unfold slot_off, header_bytes; destruct (slot_bit (next_sequence j)); lia).
  eapply wp_mono; [by apply (dev_write_spec _ _ _ h2 f1)|]. fold fd.
  intros o h3 (Hne3 & Hnf3 & Hj3 & ws2 & Hws2 & Hf3 & Hfull2).
  assert (Hf3' : with_files (<[fd := add_writes ws2 f1]> (h_files h)) h h3)
    by (by eapply with_files_insert_twice).
  assert (Hst : forall f' (o' : Outcome (Result unit * TransactionJournal)),
    f' = add_writes ws2 f1 \/ f' = synced (add_writes ws2 f1) ->
    (forall j', o' = Ret (Ok tt, j') -> j' = appended_journal j rs /\ f_pending f' = [] /\
         content f' = splice (content f1) (slot_off j) (append_header j rs)) ->
    append_stage j rs f o' f').
  { intros f' o' Hf' Ho'. by eapply stage_header with (ws := ws) (ws2 := ws2) (f1 := f1). }
  destruct o as [[[[]|e] j3]|e|s|]; cbn [carry]; try done.
  2: { rewrite (Hj3 _ _ eq_refl). split_and!; try done; [by intros ? ? [= _ <-]|].
       eexists. split; [exact Hf3'|]. apply Hst; [by left|done]. }
  2, 3: split_and!; try done; eexists; (split; [exact Hf3'|]); apply Hst; [by left|done].
  rewrite (Hj3 _ _ eq_refl) in *. specialize (Hfull2 eq_refl).
  apply wpJ_bind. eapply wp_mono.
  { apply (dev_flush_spec j h3 (add_writes ws2 f1)). destruct Hf3' as [-> _]. apply lookup_insert_eq. }
  fold fd. intros o h4 (Hne4 & Hnf4 & Hj4 & Hf4).
  assert (Hst4 : forall o' : Outcome (Result unit * TransactionJournal),
    (forall j', o' <> Ret (Ok tt, j')) ->
    exists f', with_files (<[fd := f']> (h_files h)) h h4 /\ append_stage j rs f o' f').
  { intros o' Hno'. destruct Hf4 as [Hf4|[Hq4 _]].
    - exists (synced (add_writes ws2 f1)). split; [by eapply with_files_insert_twice|].
      apply Hst; [by right|]. intros jx E. by destruct (Hno' jx).
    - exists (add_writes ws2 f1). split; [by eapply with_files_quiet|].
      apply Hst; [by left|]. intros jx E. by destruct (Hno' jx). }
  destruct o as [[[[]|e] j4]|e|s|]; cbn [carry]; try done.
  2: { rewrite (Hj4 _ _ eq_refl). split_and!; try done; [by intros ? ? [= _ <-]|by apply Hst4]. }
  2, 3: split_and!; try done; by apply Hst4.
  rewrite (Hj4 _ _ eq_refl) in *. destruct Hf4 as [Hf4|[_ Hno]]; [|done].
  apply wp_ret. split_and!; try done.
  exists (synced (add_writes ws2 f1)). split; [by eapply with_files_insert_twice|].
  apply Hst; [by right|]. by intros jx [= <-].
Qed.

(** ** Images after a power cut *)

(** [img] is [c] with some of the bytes of [data] at [off] put in. *)
Definition mixed (off : Z) (data c img : bytes) : Prop :=
  length img = length c /\
  forall i, img !! i = c !! i \/
    off <= Z.of_nat i < off + zlen data /\ img !! i = data !! (i - Z.to_nat off)%nat.

Lemma mixed_refl off data c : mixed off data c c.
Proof. split; [done|]. by left. Qed.

Lemma crash_mixed off data ws f f' img :
  0 <= off -> off + zlen data <= zlen (content f) -> f_pending f = [] ->
  Forall (chunk off data) ws -> f' = add_writes ws f \/ f' = synced (add_writes ws f) ->
  crash_image f' img -> mixed off data (content f) img.
Proof.
  intros Ho Hl Hp Hws Hf' [Hlen Hb].
  assert (Hc : content f = f_durable f) by (unfold content; by rewrite Hp).
  destruct Hf' as [-> | ->]; cbn [f_durable f_pending synced add_writes] in *.
  - rewrite Hp in Hb. cbn [app] in Hb. rewrite Hc. split; [done|]. intros i.
    destruct (Hb i) as [|(o & d & Hin & Hi & Hv)]; [by left|right].
    apply (list.Forall_forall (chunk off data)) with (x := (o, d)) in Hws; [|done].
    destruct Hws as (H1 & H2 & H3). cbn [fst snd] in *. split; [lia|].
    rewrite Hv, H3, lookup_slice, decide_True by lia. f_equal. lia.
  - assert (Hsame : same_outside off (zlen data) (content f) (content (add_writes ws f)))
      by (by apply content_add_writes).
    split.
    + rewrite Hlen. destruct Hsame as [Hz _]. unfold zlen in Hz. lia.
    + intros i. destruct (Hb i) as [E|(o & d & Hin & _)]; [|by apply elem_of_nil in Hin].
      rewrite E. by apply content_add_writes_bytes.
Qed.

Lemma mixed_slice off data c img o n :
  mixed off data c img -> 0 <= o -> o + n <= off \/ off + zlen data <= o ->
  slice img o n = slice c o n.
Proof.
  intros [_ Hb] Ho Hd. apply list_eq. intros i. rewrite !lookup_slice by lia.
  case_decide; [|done]. destruct (Hb (Z.to_nat o + i)%nat) as [|[? _]]; [done|lia].
Qed.

Lemma mixed_inside off data c img i :
  mixed off data c img -> 0 <= off -> off + zlen data <= zlen c ->
  (i < length data)%nat ->
  slice img off (zlen data) !! i = slice c off (zlen data) !! i \/
  slice img off (zlen data) !! i = data !! i.
Proof.
  intros [_ Hb] Ho Hl Hi. rewrite !lookup_slice by lia.
  rewrite !decide_True by (unfold zlen; lia).
  destruct (Hb (Z.to_nat off + i)%nat) as [|[_ E]]; [by left|right].
  rewrite E. f_equal. lia.
Qed.

Lemma mixed_all off data c img :
  mixed off data c img -> zlen img = zlen c.
Proof. intros [H _]. unfold zlen. lia. Qed.

(** ** Scanning records *)

Lemma scan_records_ext img img' n i :
  0 <= i ->
  (forall k, i <= k < i + Z.of_nat n ->
     slice img (record_offset k) 128 = slice img' (record_offset k) 128) ->
  scan_records img n i = scan_records img' n i.
Proof.
  revert i. induction n as [|n IH]; intros i Hi H; [done|]. cbn [scan_records].
  assert (record_at img i = record_at img' i) as ->.
  { unfold record_at. fold (record_offset i). by rewrite H by lia. }
  destruct (record_at img' i); cbn [bindR]; [|done].
  rewrite (IH (i + 1)); [done|lia|]. intros k Hk. apply H. lia.
Qed.

Lemma scan_records_app img n m i :
  scan_records img (n + m) i =
  (let? rs := scan_records img n i in
   let? rs' := scan_records img m (i + Z.of_nat n) in Ok (rs ++ rs')).
Proof.
  revert i. induction n as [|n IH]; intros i; cbn [scan_records Nat.add bindR].
  { rewrite Z.add_0_r. by destruct (scan_records img m i). }
  destruct (record_at img i); cbn [bindR]; [|done]. rewrite IH.
  replace (i + 1 + Z.of_nat n) with (i + Z.of_nat (S n)) by lia.
  destruct (scan_records img n (i + 1)); cbn [bindR]; [|done].
  by destruct (scan_records img m _).
Qed.

Lemma length_scan_records img n i rs : scan_records img n i = Ok rs -> length rs = n.
Proof.
  revert i rs. induction n as [|n IH]; intros i rs; cbn [scan_records]; intros H; res_inv; [done|].
  cbn [length]. f_equal. eauto.
Qed.

Lemma renumber_ok seq r : in_width 64 seq -> record_ok r -> record_ok (renumber seq r).
Proof. intros Hs (_ & H). by split. Qed.

(** A batch that is in place is scanned back. *)
Lemma scan_batch img count i rs :
  0 <= count -> 0 <= i -> count + i + zlen rs < 2 ^ 64 -> Forall record_ok rs ->
  slice img (record_offset (count + i)) (128 * zlen rs) = batch_bytes count i rs ->
  scan_records img (length rs) (count + i) = Ok (batch count i rs).
Proof.
  intros Hc. revert i. induction rs as [|r rs IH]; intros i Hi Hw Hok Himg; [done|].
  apply Forall_cons in Hok as [Hr Hok]. rewrite zlen_cons in *. pose proof (zlen_nonneg rs).
  assert (Hoff : 0 <= record_offset (count + i))
    by (unfold record_offset, records_offset, header_bytes, record_bytes; lia).
  cbn [length scan_records]. rewrite batch_cons. rewrite batch_bytes_cons in Himg.
  replace (128 * (1 + zlen rs)) with (128 + 128 * zlen rs) in Himg by lia.
  rewrite slice_split in Himg by lia.
  apply app_inj_1 in Himg as [H1 H2].
  2: { pose proof (zlen_batch_bytes count (i + 1) rs) as Hb.
       pose proof (zlen_encode_record (renumber (count + i + 1) r)) as He.
       apply (f_equal zlen) in Himg. rewrite !zlen_app in Himg.
       pose proof (zlen_slice_le img (record_offset (count + i)) 128 ltac:(lia)).
       pose proof (zlen_slice_le img (record_offset (count + i) + 128) (128 * zlen rs) ltac:(lia)).
       unfold zlen in *. lia. }
  unfold record_at. fold (record_offset (count + i)). rewrite H1, decode_encode_record.
  2: { apply renumber_ok; [|done]. split; lia. }
  cbn [bindR renumber sequence]. rewrite Z.eqb_refl. cbn [bindR].
  replace (count + i + 1) with (count + (i + 1)) in * by lia.
  rewrite IH; [done|lia|lia|done|].
  rewrite <-H2. f_equal. unfold record_offset, record_bytes. lia.
Qed.

(** ** The journal's invariant and crash safety of an append *)

Definition next_slot (j : TransactionJournal) : Z := Z.land (next_sequence j) 1.

(** The object [j] describes the image [img], which holds the records [rs];
    the slot that the next header does not go to describes the same state. *)
Record journal_ok (j : TransactionJournal) (img : bytes) (rs : list JournalRecord) : Prop := {
  jo_identity : identity_ok (identity (status_ j));
  jo_size : zlen img = size_bytes (geometry (device_ j)) /\ in_width 64 (zlen img);
  jo_sequence : 0 <= header_sequence (status_ j) < u64_max;
  jo_count : record_count (status_ j) = zlen rs;
  jo_live : exists hl, slot_header img (1 - next_slot j) = Ok hl /\
    dh_id hl = identity (status_ j) /\ dh_phase hl = phase (status_ j) /\
    dh_record_count hl = zlen rs /\ dh_sequence hl <= header_sequence (status_ j);
  jo_other : forall h, slot_header img (next_slot j) = Ok h ->
    dh_sequence h <= header_sequence (status_ j);
  jo_view : journal_view img = Ok (identity (status_ j), phase (status_ j), rs)
}.

(** The checksum tells a partly written header slot from a written one. *)
Definition torn_header_detected (old new : bytes) : Prop :=
  forall m, length m = length old ->
    (forall i, m !! i = old !! i \/ m !! i = new !! i) ->
    Result_bool (decode_header m) = true ->
    decode_header m = decode_header old \/ decode_header m = decode_header new.

Lemma slot_range s : s = 0 \/ s = 1 -> 0 <= s * header_bytes /\ s * header_bytes + 4096 <= records_offset.
Proof. unfold records_offset, header_bytes. lia. Qed.

Lemma slot_header_ext img img' s :
  slice img (s * header_bytes) 4096 = slice img' (s * header_bytes) 4096 ->
  slot_header img s = slot_header img' s.
Proof. unfold slot_header. by intros ->. Qed.

Lemma record_offset_ge i : 0 <= i -> records_offset <= record_offset i.
Proof. unfold record_offset, record_bytes. lia. Qed.

(** The view of an image is decided by its selected header. *)
Lemma view_of_header img hd n rs :
  select_header (slot_header img 0) (slot_header img 1) = Ok hd ->
  dh_record_count hd = Z.of_nat n -> record_offset (Z.of_nat n) <= zlen img ->
  scan_records img n 0 = Ok rs -> journal_view img = Ok (dh_id hd, dh_phase hd, rs).
Proof.
  intros Hsel Hn Hroom Hscan. unfold journal_view, load_image. rewrite Hsel. cbn [bindR].
  rewrite Hn, Nat2Z.id, Hscan.
  assert (Hcap : (capacity_of (zlen img) <? Z.of_nat n) = false); [|by rewrite Hcap].
  apply Z.ltb_ge. unfold capacity_of, record_offset, record_bytes in *.
  destruct (Z.ltb_spec records_offset (zlen img)).
  - apply Z.div_le_lower_bound; lia.
  - lia.
Qed.

Lemma next_slot_cases j :
  next_slot j = 0 /\ 1 - next_slot j = 1 \/ next_slot j = 1 /\ 1 - next_slot j = 0.
Proof. unfold next_slot. destruct (slot_bit (next_sequence j)) as [-> | ->]; lia. Qed.

Lemma select_header_count img hd :
  select_header (slot_header img 0) (slot_header img 1) = Ok hd ->
  in_width 64 (dh_record_count hd).
Proof.
  unfold select_header, slot_header. intros H.
  destruct (decode_header (slice img (0 * _) _)) eqn:E0,
    (decode_header (slice img (1 * _) _)) eqn:E1; res_inv.
  - case_match; subst; by eapply decode_header_ok_fields.
  - by eapply decode_header_ok_fields.
  - by eapply decode_header_ok_fields.
Qed.

Lemma view_inv img id ph rs :
  journal_view img = Ok (id, ph, rs) ->
  exists hd, select_header (slot_header img 0) (slot_header img 1) = Ok hd /\
    dh_id hd = id /\ dh_phase hd = ph /\ dh_record_count hd = zlen rs /\
    scan_records img (length rs) 0 = Ok rs.
Proof.
  unfold journal_view, load_image. intros H.
  destruct (select_header _ _) as [hd|] eqn:Esel; cbn [bindR] in H; [|done].
  destruct (_ <? _); [done|].
  destruct (scan_records img _ 0) as [rs'|] eqn:Escan; cbn [bindR] in H; [|done].
  injection H as <- <- <-. exists hd.
  pose proof (length_scan_records _ _ _ _ Escan) as Hlen.
  pose proof (select_header_count _ _ Esel) as [? _].
  rewrite Hlen. split_and!; try done. unfold zlen. lia.
Qed.

(** Damage confined to the record area behind the last record, and to the
    slot of the next header as far as it does not decode, changes nothing. *)
Lemma view_keeps j img img' rs :
  journal_ok j img rs -> zlen img' = zlen img ->
  record_offset (zlen rs) <= zlen img ->
  (forall k, 0 <= k < zlen rs ->
     slice img' (record_offset k) 128 = slice img (record_offset k) 128) ->
  slot_header img' (1 - next_slot j) = slot_header img (1 - next_slot j) ->
  slot_header img' (next_slot j) = slot_header img (next_slot j) \/
    Result_bool (slot_header img' (next_slot j)) = false ->
  journal_view img' = journal_view img.
Proof.
  intros Hj Hz Hroom Hrec Hlive Hother. rewrite (jo_view _ _ _ Hj).
  destruct (view_inv _ _ _ _ (jo_view _ _ _ Hj)) as (hd & Hsel & H1 & H2 & H3 & H4).
  destruct (jo_live _ _ _ Hj) as (hl & El & L1 & L2 & L3 & L4).
  assert (Hscan : scan_records img' (length rs) 0 = Ok rs).
  { rewrite <-H4. apply scan_records_ext; [lia|]. intros k Hk. apply Hrec. unfold zlen. lia. }
  assert (Hgo : forall h', select_header (slot_header img' 0) (slot_header img' 1) = Ok h' ->
    dh_id h' = dh_id hd -> dh_phase h' = dh_phase hd -> dh_record_count h' = zlen rs ->
    journal_view img' = Ok (identity (status_ j), phase (status_ j), rs)).
  { intros h' Hs E1 E2 E3.
    assert (Hroom' : record_offset (zlen rs) <= zlen img') by (by rewrite Hz).
    rewrite (view_of_header img' h' (length rs) rs Hs E3 Hroom' Hscan).
    congruence. }
  rewrite El in Hlive. destruct Hother as [Hother|Hbad].
  - apply (Hgo hd); [|done..]. rewrite <-Hsel.
    destruct (next_slot_cases j) as [[E1 E2]|[E1 E2]]; rewrite E1 in Hother;
      rewrite E2 in Hlive, El; rewrite Hother, Hlive, El; reflexivity.
  - apply (Hgo hl); [|congruence..].
    destruct (next_slot_cases j) as [[E1 E2]|[E1 E2]]; rewrite E1 in Hbad;
      rewrite E2 in Hlive; rewrite Hlive.
    + by destruct (slot_header img' 0).
    + by destruct (slot_header img' 1).
Qed.

(** With the next header in its slot it is the one selected. *)
Lemma view_advances j img img' rs rs' :
  journal_ok j img rs -> zlen img' = zlen img ->
  record_offset (zlen (rs ++ rs')) <= zlen img ->
  slot_header img' (1 - next_slot j) = slot_header img (1 - next_slot j) ->
  slot_header img' (next_slot j)
    = Ok (mkHeader (identity (status_ j)) (next_sequence j) (phase (status_ j)) (zlen (rs ++ rs'))) ->
  scan_records img' (length (rs ++ rs')) 0 = Ok (rs ++ rs') ->
  journal_view img' = Ok (identity (status_ j), phase (status_ j), rs ++ rs').
Proof.
  intros Hj Hz Hroom Hlive Hnew Hscan.
  destruct (jo_live _ _ _ Hj) as (hl & El & L1 & L2 & L3 & L4).
  pose proof (jo_sequence _ _ _ Hj) as Hs.
  assert (Hseq : next_sequence j = header_sequence (status_ j) + 1)
    by (unfold next_sequence, wrap; apply Z.mod_small; lia).
  set (new := mkHeader _ _ _ _) in *.
  assert (Hsel : select_header (slot_header img' 0) (slot_header img' 1) = Ok new).
  { rewrite El in Hlive.
    destruct (next_slot_cases j) as [[E1 E2]|[E1 E2]]; rewrite E1 in Hnew;
      rewrite E2 in Hlive; rewrite Hlive, Hnew;
      unfold select_header, new; cbn [dh_id dh_sequence]; rewrite L1;
      rewrite !bool_decide_true, !Z.eqb_refl by done; cbn [negb orb]; f_equal.
    - by destruct (Z.leb_spec (dh_sequence hl) (next_sequence j)); [|lia].
    - by destruct (Z.leb_spec (next_sequence j) (dh_sequence hl)); [lia|]. }
  rewrite <-Hz in Hroom.
  exact (view_of_header img' new (length (rs ++ rs')) (rs ++ rs') Hsel eq_refl Hroom Hscan).
Qed.

Lemma note_records_keep rs s :
  let s' := foldl note_record s rs in
  identity s' = identity s /\ phase s' = phase s /\
  header_sequence s' = header_sequence s /\ record_count s' = record_count s.
Proof.
  cbv zeta. revert s. induction rs as [|r rs IH]; intros s; [done|]. cbn [foldl].
  destruct (IH (note_record s r)) as (-> & -> & -> & ->). done.
Qed.

Section Append.
Context (j : TransactionJournal) (rs new : list JournalRecord) (c : bytes).
Hypothesis Hj : journal_ok j c rs.
Hypothesis Hnew : Forall record_ok new.
Hypothesis Hroom : append_off j + zlen (append_data j new) <= zlen c.

Let rs' := batch (zlen rs) 0 new.

Lemma append_facts :
  records_offset <= append_off j /\ append_off j = record_offset (zlen rs) /\
  zlen (append_data j new) = 128 * zlen new /\
  record_offset (zlen (rs ++ rs')) <= zlen c /\
  zlen (rs ++ rs') = zlen rs + zlen new /\
  append_header j new = encode_header (identity (status_ j)) (next_sequence j)
                          (phase (status_ j)) (zlen (rs ++ rs')) /\
  zlen (append_header j new) = 4096 /\
  next_sequence j = header_sequence (status_ j) + 1.
Proof using Hj Hroom.
  pose proof (jo_count _ _ _ Hj) as Hc. pose proof (jo_sequence _ _ _ Hj) as Hs.
  assert (Hb : zlen (append_data j new) = 128 * zlen new) by apply zlen_batch_bytes.
  assert (Ho : append_off j = record_offset (zlen rs)) by (unfold append_off; by rewrite Hc).
  assert (Hl : zlen (rs ++ rs') = zlen rs + zlen new)
    by (rewrite zlen_app; unfold rs', zlen; by rewrite length_batch).
  split_and!; try done.
  - rewrite Ho. apply record_offset_ge, zlen_nonneg.
  - rewrite Hl. rewrite Ho, Hb in Hroom. revert Hroom.
    unfold record_offset, record_bytes. lia.
  - unfold append_header. by rewrite Hc, Hl.
  - apply zlen_encode_header, (jo_identity _ _ _ Hj).
  - unfold next_sequence, wrap. apply Z.mod_small. lia.
Qed.

Lemma slots_before_records s :
  s = 0 \/ s = 1 -> 0 <= s * header_bytes /\ s * header_bytes + 4096 <= append_off j.
Proof using Hj Hroom.
  intros Hs. destruct append_facts as (H1 & _). pose proof (slot_range s Hs). lia.
Qed.

(** Some of the records, and the old headers. *)
Lemma records_only img :
  mixed (append_off j) (append_data j new) c img -> journal_view img = journal_view c.
Proof using Hj Hroom.
  intros Hm. destruct append_facts as (Ho & Ho' & Hb & Hr & Hl & _).
  pose proof (mixed_all _ _ _ _ Hm) as Hz. pose proof (zlen_nonneg new).
  assert (Hslot : forall s, s = 0 \/ s = 1 -> slot_header img s = slot_header c s).
  { intros s Hs. pose proof (slots_before_records s Hs).
    apply slot_header_ext. eapply mixed_slice; [exact Hm|lia|left; lia]. }
  apply (view_keeps j c img rs Hj Hz).
  - revert Hr. rewrite Hl. unfold record_offset, record_bytes. lia.
  - intros k Hk. pose proof (record_offset_ge k ltac:(lia)) as Hge.
    eapply mixed_slice; [exact Hm| |left].
    + revert Hge. unfold records_offset, header_bytes. lia.
    + rewrite Ho'. unfold record_offset, record_bytes. lia.
  - apply Hslot. destruct (next_slot_cases j) as [[? ->]|[? ->]]; auto.
  - left. apply Hslot. destruct (next_slot_cases j) as [[-> ?]|[-> ?]]; auto.
Qed.

Definition appended_image : bytes := splice c (append_off j) (append_data j new).

Lemma appended_image_mixed : mixed (append_off j) (append_data j new) c appended_image.
Proof using Hj Hroom.
  destruct append_facts as (Ho & _). unfold appended_image. split.
  - apply length_splice; [|done]. revert Ho. unfold records_offset, header_bytes. lia.
  - intros i. assert (0 <= append_off j)
      by (revert Ho; unfold records_offset, header_bytes; lia).
    pose proof (zlen_nonneg (append_data j new)).
    rewrite lookup_splice by lia. repeat case_decide; [by left|right|by left].
    split; [lia|done].
Qed.

Context (img : bytes).
Hypothesis Hm : mixed (slot_off j) (append_header j new) appended_image img.

Lemma image_length : zlen img = zlen c /\ zlen appended_image = zlen c.
Proof using Hj Hroom Hm.
  pose proof (mixed_all _ _ _ _ appended_image_mixed).
  pose proof (mixed_all _ _ _ _ Hm). lia.
Qed.

Lemma slot_off_bounds :
  slot_off j = next_slot j * header_bytes /\ 0 <= slot_off j /\
  slot_off j + zlen (append_header j new) <= records_offset /\
  records_offset <= zlen c.
Proof using Hj Hroom.
  destruct append_facts as (Ho & Ho' & Hb & Hr & Hl & Hh & Hhl & Hseq).
  pose proof (slot_range _ (slot_bit (next_sequence j))) as Hsr. fold (slot_off j) in Hsr.
  pose proof (zlen_nonneg (append_data j new)). split_and!; [done|lia|lia|lia].
Qed.

Lemma image_live : slot_header img (1 - next_slot j) = slot_header c (1 - next_slot j).
Proof using Hj Hroom Hm.
  destruct append_facts as (Ho & _). destruct slot_off_bounds as (Hso & Hs1 & Hs2 & _).
  assert (Hd : 0 <= (1 - next_slot j) * header_bytes /\
    (1 - next_slot j) * header_bytes + 4096 <= records_offset /\
    ((1 - next_slot j) * header_bytes + 4096 <= slot_off j \/
     slot_off j + zlen (append_header j new) <= (1 - next_slot j) * header_bytes)).
  { destruct append_facts as (_ & _ & _ & _ & _ & _ & Hhl & _). rewrite Hhl, Hso.
    unfold header_bytes, records_offset, header_bytes.
    destruct (next_slot_cases j) as [[-> ?]|[-> ?]]; lia. }
  apply slot_header_ext. rewrite (mixed_slice _ _ _ _ _ _ Hm) by lia.
  eapply mixed_slice; [exact appended_image_mixed|lia|left; lia].
Qed.

Lemma image_records k :
  0 <= k -> slice img (record_offset k) 128 = slice appended_image (record_offset k) 128.
Proof using Hj Hroom Hm.
  intros Hk. pose proof (record_offset_ge k Hk). destruct slot_off_bounds as (_ & ? & ? & _).
  pose proof (zlen_nonneg (append_header j new)). eapply mixed_slice; [exact Hm|lia|right; lia].
Qed.

Lemma image_old_records k :
  0 <= k < zlen rs -> slice img (record_offset k) 128 = slice c (record_offset k) 128.
Proof using Hj Hroom Hm.
  intros Hk. rewrite image_records by lia. pose proof (record_offset_ge k ltac:(lia)) as Hge.
  destruct append_facts as (_ & Ho' & _). destruct slot_off_bounds as (_ & ? & ? & _).
  pose proof (zlen_nonneg (append_header j new)).
  eapply mixed_slice; [exact appended_image_mixed|lia|left].
  rewrite Ho'. unfold record_offset, record_bytes. lia.
Qed.

Lemma image_scan : scan_records img (length (rs ++ rs')) 0 = Ok (rs ++ rs').
Proof using Hj Hroom Hnew Hm.
  destruct append_facts as (Ho & Ho' & Hb & Hr & Hl & _).
  destruct slot_off_bounds as (_ & ? & ? & ?). destruct (jo_size _ _ _ Hj) as [_ Hw].
  destruct (view_inv _ _ _ _ (jo_view _ _ _ Hj)) as (hd & _ & _ & _ & _ & Hscan).
  pose proof (zlen_nonneg new). pose proof (zlen_nonneg rs).
  pose proof (zlen_nonneg (append_header j new)).
  rewrite length_app, scan_records_app.
  rewrite (scan_records_ext img c), Hscan.
  2: lia. 2: { intros k Hk. apply image_old_records. unfold zlen. lia. }
  cbn [bindR]. unfold rs'. rewrite length_batch.
  change (0 + Z.of_nat (length rs)) with (zlen rs).
  replace (zlen rs) with (zlen rs + 0) at 1 by lia.
  rewrite scan_batch; [done|lia|lia| |done|].
  - rewrite Hl in Hr. unfold in_width in Hw. revert Hr.
    unfold record_offset, records_offset, header_bytes, record_bytes. lia.
  - rewrite Z.add_0_r, <-Ho', <-Hb.
    rewrite (mixed_slice _ _ _ _ _ _ Hm) by lia. unfold appended_image.
    rewrite slice_splice_eq by lia. unfold append_data. by rewrite (jo_count _ _ _ Hj).
Qed.

Hypothesis Htorn : torn_header_detected (slice c (slot_off j) 4096) (append_header j new).

Lemma image_slot :
  slot_header img (next_slot j) = slot_header c (next_slot j) \/
  Result_bool (slot_header img (next_slot j)) = false \/
  slot_header img (next_slot j)
  = Ok (mkHeader (identity (status_ j)) (next_sequence j) (phase (status_ j)) (zlen (rs ++ rs'))).
Proof using Hj Hroom Hm Htorn.
  destruct append_facts as (Ho & Ho' & Hb & Hr & Hl & Hh & Hhl & Hseq).
  destruct slot_off_bounds as (Hso & Hs1 & Hs2 & Hs3). destruct image_length as [Hz Hza].
  pose proof (jo_sequence _ _ _ Hj). destruct (jo_size _ _ _ Hj) as [_ Hw].
  assert (Hcs : slice appended_image (slot_off j) 4096 = slice c (slot_off j) 4096).
  { eapply mixed_slice; [exact appended_image_mixed|lia|left; lia]. }
  unfold slot_header. rewrite <-Hso.
  destruct (Result_bool (decode_header (slice img (slot_off j) 4096))) eqn:Eb; [|by auto].
  destruct (Htorn (slice img (slot_off j) 4096)) as [E|E]; [| |exact Eb|by left|].
  - apply Nat2Z.inj. fold (zlen (slice img (slot_off j) 4096)).
    fold (zlen (slice c (slot_off j) 4096)). rewrite !zlen_slice; lia.
  - intros i. rewrite <-Hcs, <-Hhl.
    destruct (decide (i < length (append_header j new))%nat) as [Hi|Hi].
    + eapply mixed_inside; [exact Hm|lia|lia|exact Hi].
    + left. rewrite !lookup_slice by lia.
      rewrite !decide_False by (unfold zlen; lia). done.
  - right. right. rewrite E, Hh. apply decode_encode_header.
    + apply (jo_identity _ _ _ Hj).
    + rewrite Hseq. split; lia.
    + pose proof (zlen_nonneg (rs ++ rs')). split; [lia|]. unfold in_width in Hw.
      revert Hr. unfold record_offset, records_offset, header_bytes, record_bytes. lia.
Qed.

(** All the records, and any mixture of the two headers in the slot. *)
Lemma records_and_header :
  journal_view img = journal_view c \/
  journal_view img = Ok (identity (status_ j), phase (status_ j), rs ++ rs').
Proof using Hj Hroom Hnew Hm Htorn.
  destruct append_facts as (Ho & Ho' & Hb & Hr & Hl & _). destruct image_length as [Hz _].
  pose proof (zlen_nonneg new).
  assert (Hkeep : slot_header img (next_slot j) = slot_header c (next_slot j) \/
    Result_bool (slot_header img (next_slot j)) = false ->
    journal_view img = journal_view c).
  { apply (view_keeps j c img rs Hj Hz).
    - revert Hr. rewrite Hl. unfold record_offset, record_bytes. lia.
    - exact image_old_records.
    - exact image_live. }
  destruct image_slot as [E|[E|E]]; [by left; apply Hkeep; left|by left; apply Hkeep; right|].
  right. by apply (view_advances j c img rs rs' Hj Hz Hr image_live E image_scan).
Qed.

(** The whole header in its slot: the journal with the new records. *)
Lemma append_complete :
  header_sequence (status_ j) + 1 < u64_max ->
  img = splice appended_image (slot_off j) (append_header j new) ->
  journal_ok (appended_journal j new) img (rs ++ rs').
Proof using Hj Hroom Hnew Hm.
  intros Hmax Himg.
  destruct append_facts as (Ho & Ho' & Hb & Hr & Hl & Hh & Hhl & Hseq).
  destruct slot_off_bounds as (Hso & Hs1 & Hs2 & Hs3). destruct image_length as [Hz Hza].
  pose proof (jo_sequence _ _ _ Hj). destruct (jo_size _ _ _ Hj) as [Hsz Hw].
  destruct (note_records_keep new
    (with_sequence (next_sequence j) (record_count (status_ j) + zlen new) (status_ j)))
    as (K1 & K2 & K3 & K4).
  assert (Hn : slot_header img (next_slot j) = Ok (mkHeader (identity (status_ j))
      (next_sequence j) (phase (status_ j)) (zlen (rs ++ rs')))).
  { unfold slot_header. rewrite <-Hso, Himg, slice_splice_eq, Hh by lia.
    apply decode_encode_header; [apply (jo_identity _ _ _ Hj)| |].
    - rewrite Hseq. split; lia.
    - pose proof (zlen_nonneg (rs ++ rs')). split; [lia|]. unfold in_width in Hw.
      revert Hr. unfold record_offset, records_offset, header_bytes, record_bytes. lia. }
  assert (Hslot : next_slot (appended_journal j new) = 1 - next_slot j).
  { unfold next_slot at 1, next_sequence at 1, appended_journal. cbn [status_ set_status].
    rewrite K3. cbn [header_sequence with_sequence]. unfold wrap.
    rewrite Z.mod_small by lia. unfold next_slot. rewrite Hseq.
    assert (Hland : forall x, Z.land x 1 = x mod 2) by (intros x; exact (Z.land_ones x 1 ltac:(lia))).
    rewrite !Hland. Z.div_mod_to_equations. lia. }
  destruct (jo_live _ _ _ Hj) as (hl & El & L1 & L2 & L3 & L4).
  split; cbn [status_ set_status appended_journal device_]; rewrite ?K1, ?K2, ?K3, ?K4;
    cbn [identity phase header_sequence record_count with_sequence].
  - apply (jo_identity _ _ _ Hj).
  - rewrite Hz. split; assumption.
  - lia.
  - rewrite (jo_count _ _ _ Hj), Hl. done.
  - rewrite Hslot. replace (1 - (1 - next_slot j)) with (next_slot j) by lia.
    eexists. split; [exact Hn|]. cbn. split_and!; reflexivity.
  - rewrite Hslot. intros h. rewrite image_live, El. intros [= <-]. lia.
  - by apply (view_advances j c img rs rs' Hj Hz Hr image_live Hn image_scan).
Qed.
End Append.

(** Crash safety at every stage of an append. *)
Lemma append_stage_safe j rs new f o f' img :
  f_pending f = [] -> journal_ok j (content f) rs -> Forall record_ok new ->
  torn_header_detected (slice (content f) (slot_off j) 4096) (append_header j new) ->
  append_stage j new f o f' -> crash_image f' img ->
  (journal_view img = journal_view (content f) \/
   journal_view img
   = Ok (identity (status_ j), phase (status_ j), rs ++ batch (zlen rs) 0 new)) /\
  (forall j', o = Ret (Ok tt, j') -> header_sequence (status_ j) + 1 < u64_max ->
     journal_ok j' img (rs ++ batch (zlen rs) 0 new)).
Proof.
  intros Hp Hj Hnew Htorn Hst Hcr.
  assert (Hc : content f = f_durable f) by (unfold content; by rewrite Hp).
  assert (Hrec : 0 <= append_off j).
  { unfold append_off. pose proof (record_offset_ge (record_count (status_ j))).
    rewrite (jo_count _ _ _ Hj) in *. pose proof (zlen_nonneg rs).
    unfold records_offset, header_bytes in *. lia. }
  destruct Hst as [Hno|ws f' Hroom Hws Hf' Hno|ws ws2 f1 f' Hroom Hws -> Hf1 Hws2 Hf' Hok].
  - split; [left|intros j' ->; by destruct (Hno j')].
    f_equal. rewrite Hc. destruct Hcr as [_ Hb]. apply list_eq. intros i.
    destruct (Hb i) as [|(a & d & Hin & _)]; [done|]. rewrite Hp in Hin. by apply elem_of_nil in Hin.
  - split; [left|intros j' ->; by destruct (Hno j')].
    apply (records_only j rs new (content f) Hj Hroom).
    eapply crash_mixed; [exact Hrec|exact Hroom|done|exact Hws|exact Hf'|exact Hcr].
  - set (f1 := synced (add_writes ws f)) in *.
    assert (Hm : mixed (slot_off j) (append_header j new) (appended_image j new (content f)) img).
    { unfold appended_image. rewrite <-Hf1.
      destruct (append_facts j rs new (content f) Hj Hroom) as (_ & _ & _ & _ & _ & _ & Hhl & _).
      destruct (slot_off_bounds j rs new (content f) Hj Hroom) as (_ & H1 & H2 & H3).
      eapply crash_mixed; [exact H1| |done|exact Hws2|exact Hf'|exact Hcr].
      rewrite Hf1, zlen_splice; [lia|exact Hrec|exact Hroom]. }
    split; [by eapply records_and_header|]. intros j' Ho Hmax.
    destruct (Hok j' Ho) as (-> & Hpend & Hcont).
    eapply append_complete; try eassumption. unfold appended_image. rewrite <-Hf1, <-Hcont.
    destruct Hcr as [_ Hb]. apply list_eq. intros i. rewrite Hpend in Hb.
    assert (Hd : content f' = f_durable f') by (unfold content; by rewrite Hpend).
    rewrite Hd. destruct (Hb i) as [|(a & d & Hin & _)]; [done|]. by apply elem_of_nil in Hin.
Qed.

(** ** Properties *)


(** C4: [load] refines the specification: on every host it terminates without
    touching a file, and when it succeeds the image in the file is a journal
    whose selected header and records give exactly the object's status. *)
Theorem load_refines_image (j : TransactionJournal) (h : Host) (f : File)
    (o : Outcome (Result unit * TransactionJournal)) (h' : Host)
    (Hdev : dev_file h (device_ j) f) (Hrun : load j h = (o, h')) :
  o <> OutOfFuel /\ quiet h h' /\
  (forall j', o = Ret (Ok tt, j') -> exists hd rs,
     load_image (content f) = Ok (hd, rs) /\
     status_ j' = loaded_status (status_ j) (content f) hd rs).
Proof.
  destruct (wp_run _ _ _ _ _ (load_spec j h f Hdev) Hrun) as (Hq & Hne & _ & Hok).
  split_and!; try done. intros j' Ho. destruct (Hok j' Ho) as (hd & rs & H1 & ->). by exists hd, rs.
Qed.

(** ** A fresh journal *)

(** The image that [create] publishes. *)
Definition fresh_image (id : JournalIdentity) (size : Z) : bytes :=
  encode_header id 1 prepared 0 ++ encode_header id 0 prepared 0 ++ zeros (size - records_offset).

Lemma fresh_slots id size :
  identity_ok id -> records_offset <= size ->
  zlen (fresh_image id size) = size /\
  slice (fresh_image id size) 0 4096 = encode_header id 1 prepared 0 /\
  slice (fresh_image id size) header_bytes 4096 = encode_header id 0 prepared 0.
Proof.
  intros Hid Hs. unfold fresh_image.
  pose proof (zlen_encode_header id 1 prepared 0 Hid) as H1.
  pose proof (zlen_encode_header id 0 prepared 0 Hid) as H0.
  unfold records_offset, header_bytes in *. split_and!.
  - rewrite !zlen_app, H1, H0, zlen_zeros by lia. lia.
  - rewrite slice_app_l by lia. by apply slice_all.
  - rewrite slice_app_r by lia. rewrite H1, Z.sub_diag, slice_app_l by lia.
    apply slice_all. symmetry. exact H0.
Qed.

Lemma fresh_journal_ok d id w size :
  identity_ok id -> records_offset <= size -> in_width 64 size ->
  size_bytes (geometry d) = size ->
  journal_ok (mkJournal d (fresh_status id) w) (fresh_image id size) [].
Proof.
  intros Hid Hs Hw Hd. destruct (fresh_slots id size Hid Hs) as (Hz & Ha & Hb).
  assert (H0 : slot_header (fresh_image id size) 0 = Ok (mkHeader id 1 prepared 0))
    by (rewrite <-slot_header_0, Ha; apply decode_encode_header; [assumption|split; lia..]).
  assert (H1 : slot_header (fresh_image id size) 1 = Ok (mkHeader id 0 prepared 0))
    by (rewrite <-slot_header_1, Hb; apply decode_encode_header; [assumption|split; lia..]).
  split; cbn [status_ fresh_status identity phase header_sequence record_count device_];
    change (next_slot _) with 0; change (1 - 0) with 1.
  - done.
  - rewrite Hz, Hd. split; [reflexivity|assumption].
  - lia.
  - done.
  - eexists. split; [exact H1|]. cbn. split_and!; reflexivity || lia.
  - intros h. rewrite H0. intros [= <-]. cbn. lia.
  - apply (view_of_header _ (mkHeader id 1 prepared 0) 0 []); [|done| |done].
    + rewrite H0, H1. unfold select_header. cbn [dh_id dh_sequence].
      rewrite !bool_decide_true, !Z.eqb_refl by done. done.
    + rewrite Hz. unfold record_offset. lia.
Qed.

(** A mixture agrees with its two sources where they agree. *)
Lemma mixed_mixture_slice (a b m : bytes) o n :
  0 <= o -> (forall i, m !! i = a !! i \/ m !! i = b !! i) ->
  slice a o n = slice b o n -> slice m o n = slice a o n.
Proof.
  intros Ho Hm E. apply list_eq. intros i. pose proof (f_equal (fun l => l !! i) E) as Ei.
  cbn in Ei. rewrite !lookup_slice in Ei |- * by lia. case_decide; [|done].
  destruct (Hm (Z.to_nat o + i)%nat) as [->| ->]; congruence.
Qed.

#[local] Transparent encode_header slice.
Definition demo_old : bytes := Eval vm_compute in encode_header demo_identity 1 prepared 0.
Definition demo_new : bytes := Eval vm_compute in encode_header demo_identity 2 prepared 1.
Lemma demo_old_eq : encode_header demo_identity 1 prepared 0 = demo_old.
Proof. vm_compute. reflexivity. Qed.
Lemma demo_new_eq : encode_header demo_identity 2 prepared 1 = demo_new.
Proof. vm_compute. reflexivity. Qed.
#[local] Opaque encode_header.

(** The bytes a torn write of [demo_new] over [demo_old] can leave. *)
Definition demo_mix (x y : byte) : bytes :=
  slice demo_old 0 16 ++ [x] ++ slice demo_old 17 63 ++ [y] ++ slice demo_old 81 4011.

Lemma demo_crcs :
  crc32c_sum (demo_mix Byte.x01 Byte.x00) = read_le32 demo_old 4092 /\
  crc32c_sum (demo_mix Byte.x02 Byte.x01) = read_le32 demo_new 4092 /\
  (crc32c_sum (demo_mix Byte.x01 Byte.x01)) mod 256 <> byte_at demo_old 4092 /\
  (crc32c_sum (demo_mix Byte.x01 Byte.x01)) mod 256 <> byte_at demo_new 4092 /\
  (crc32c_sum (demo_mix Byte.x02 Byte.x00)) mod 256 <> byte_at demo_old 4092 /\
  (crc32c_sum (demo_mix Byte.x02 Byte.x00)) mod 256 <> byte_at demo_new 4092.
Proof. split_and!; vm_compute; first [reflexivity | discriminate]. Qed.

Lemma demo_agree o n :
  (o, n) = (0, 16) \/ (o, n) = (17, 63) \/ (o, n) = (81, 4011) ->
  slice demo_old o n = slice demo_new o n.
Proof. intros [[= -> ->]|[[= -> ->]|[= -> ->]]]; vm_compute; reflexivity. Qed.

Lemma demo_bytes :
  length demo_old = 4096%nat /\ length demo_new = 4096%nat /\
  slice demo_old 16 1 = [Byte.x01] /\ slice demo_new 16 1 = [Byte.x02] /\
  slice demo_old 80 1 = [Byte.x00] /\ slice demo_new 80 1 = [Byte.x01] /\
  slice demo_old 0 4092 = demo_mix Byte.x01 Byte.x00 /\
  slice demo_new 0 4092 = demo_mix Byte.x02 Byte.x01.
Proof. split_and!; vm_compute; reflexivity. Qed.

(** One byte of a mixture. *)
Lemma mixture_byte (a b m : bytes) o x y :
  0 <= o -> (forall i, m !! i = a !! i \/ m !! i = b !! i) ->
  slice a o 1 = [x] -> slice b o 1 = [y] -> slice m o 1 = [x] \/ slice m o 1 = [y].
Proof.
  intros Ho Hm Hx Hy.
  assert (E : forall l : bytes, m !! Z.to_nat o = l !! Z.to_nat o -> slice m o 1 = slice l o 1).
  { intros l E. apply list_eq. intros i. rewrite !lookup_slice by lia. case_decide; [|done].
    by replace (Z.to_nat o + i)%nat with (Z.to_nat o) by lia. }
  destruct (Hm (Z.to_nat o)) as [H|H]; apply E in H; rewrite H; auto.
Qed.

(** A sealed mixture stores the checksum of one of the four bodies. *)
Lemma demo_mixture_body m :
  (forall i, m !! i = demo_old !! i \/ m !! i = demo_new !! i) ->
  exists x y, slice m 0 4092 = demo_mix x y /\
    (x = Byte.x01 \/ x = Byte.x02) /\ (y = Byte.x00 \/ y = Byte.x01).
Proof.
  intros Hm. destruct demo_bytes as (_ & _ & X1 & X2 & Y1 & Y2 & _).
  assert (Hsp : slice m 0 4092 = slice m 0 16 ++ slice m 16 1 ++ slice m 17 63 ++
                                 slice m 80 1 ++ slice m 81 4011).
  { etransitivity; [exact (slice_split m 0 16 4076 ltac:(lia) ltac:(lia) ltac:(lia))|]. f_equal.
    etransitivity; [exact (slice_split m 16 1 4075 ltac:(lia) ltac:(lia) ltac:(lia))|]. f_equal.
    etransitivity; [exact (slice_split m 17 63 4012 ltac:(lia) ltac:(lia) ltac:(lia))|]. f_equal.
    exact (slice_split m 80 1 4011 ltac:(lia) ltac:(lia) ltac:(lia)). }
  assert (Hag : forall o n, 0 <= o -> (o, n) = (0, 16) \/ (o, n) = (17, 63) \/ (o, n) = (81, 4011) ->
    slice m o n = slice demo_old o n).
  { intros o n Ho Hn. apply (mixed_mixture_slice demo_old demo_new m); [exact Ho|exact Hm|].
    by apply demo_agree. }
  rewrite Hsp, (Hag 0 16), (Hag 17 63), (Hag 81 4011) by (lia || auto).
  destruct (mixture_byte _ _ _ 16 _ _ ltac:(lia) Hm X1 X2) as [-> | ->];
    destruct (mixture_byte _ _ _ 80 _ _ ltac:(lia) Hm Y1 Y2) as [-> | ->];
    eexists _, _; (split; [reflexivity|auto]).
Qed.

Lemma demo_torn :
  torn_header_detected (encode_header demo_identity 1 prepared 0)
                       (encode_header demo_identity 2 prepared 1).
Proof.
  rewrite demo_old_eq, demo_new_eq. intros m Hl Hm Hok.
  destruct (decode_header m) as [h|] eqn:Hd; [|done].
  destruct (decode_header_sealed m h Hd) as [Hz Hs]. unfold sealed in Hs.
  destruct demo_bytes as (L1 & L2 & _ & _ & _ & _ & B1 & B2).
  destruct demo_crcs as (C1 & C2 & C3 & C4 & C5 & C6).
  destruct (demo_mixture_body m Hm) as (x & y & Hb & Hx & Hy).
  assert (Hlow : byte_at m 4092 = (crc32c_sum (demo_mix x y)) mod 256).
  { rewrite <-Hb, <-Hs. symmetry. apply read_le_low; lia. }
  assert (Hby : byte_at m 4092 = byte_at demo_old 4092 \/ byte_at m 4092 = byte_at demo_new 4092).
  { unfold byte_at. rewrite !nth_lookup.
    destruct (Hm (Z.to_nat 4092)) as [-> | ->]; auto. }
  assert (Hsame : forall d, length d = 4096%nat -> slice d 0 4092 = demo_mix x y ->
    crc32c_sum (demo_mix x y) = read_le32 d 4092 -> slice m 0 4096 = d).
  { intros d Hd1 Hd2 Hd3. assert (Hzd : zlen d = 4096) by (unfold zlen; lia).
    rewrite <-(slice_all d 4096) by done.
    etransitivity; [exact (slice_split m 0 4092 4 ltac:(lia) ltac:(lia) ltac:(lia))|].
    etransitivity; [|symmetry; exact (slice_split d 0 4092 4 ltac:(lia) ltac:(lia) ltac:(lia))].
    rewrite Hb, Hd2. f_equal. rewrite <-Hb, <-Hs in Hd3.
    rewrite !read_le_combine in Hd3 by lia. change (0 + 4092) with 4092.
    apply le_combine_inj; [|exact Hd3].
    apply Nat2Z.inj. fold (zlen (slice m 4092 4)). fold (zlen (slice d 4092 4)).
    rewrite !zlen_slice by lia. done. }
  assert (Hfull : slice m 0 4096 = m) by (apply slice_all; unfold zlen; lia).
  destruct Hx as [-> | ->], Hy as [-> | ->].
  - left. rewrite <-Hd, <-Hfull, (Hsame demo_old) by done. reflexivity.
  - destruct Hby; congruence.
  - destruct Hby; congruence.
  - right. rewrite <-Hd, <-Hfull, (Hsame demo_new) by done. reflexivity.
Qed.

Definition demo_size : Z := 10240.
Definition demo_device : BlockDevice :=
  mkDevice 1 "j" (mkGeometry demo_size 512 512 false false) true.
Definition demo_journal : TransactionJournal :=
  mkJournal demo_device (fresh_status demo_identity) true.
Definition demo_journal_file : File := mkFile Regular (fresh_image demo_identity demo_size) [].

Lemma demo_identity_ok : identity_ok demo_identity.
Proof. by apply (bool_decide_unpack _). Qed.

Lemma demo_journal_ready evs :
  dev_file (demo_host demo_journal_file evs) demo_device demo_journal_file /\
  journal_ok demo_journal (content demo_journal_file) [].
Proof.
  assert (Hs : records_offset <= demo_size) by (unfold records_offset, header_bytes, demo_size; lia).
  destruct (fresh_slots demo_identity demo_size demo_identity_ok Hs) as (Hz & _).
  split.
  - split; [apply lookup_insert_eq|]. split; [exact Hz|]. by apply Forall_nil.
  - apply fresh_journal_ok; [exact demo_identity_ok|exact Hs| |reflexivity].
    split; unfold demo_size; lia.
Qed.


Lemma load_refines_image_witness :
  let h := demo_host demo_journal_file [Sys_short 100] in
  let r := load demo_journal h in
  r.1 <> OutOfFuel /\ quiet h r.2.
Proof.
  intros h r. destruct (demo_journal_ready [Sys_short 100]) as [Hdev _].
  destruct (load_refines_image demo_journal h demo_journal_file r.1 r.2 Hdev
    (surjective_pairing _)) as (H1 & H2 & _).
  split; [exact H1|exact H2].
Defined.
