(* ===== verification/JournalValidate.v ===== *)
(** The journal validator (include/fsx/journal_validate.hpp,
    src/transaction/validate.cpp) and the recovery assessment
    (include/fsx/recovery.hpp, src/transaction/recovery.cpp). *)
From S2P Require Import Prelude Errors Host Device JournalFormat Journal.

(** ** The report *)

Record JournalValidationReport := mkReport {
  clean : bool;
  transactions : Z;
  intents : Z;
  copies_verified : Z;
  destinations_reserved : Z;
  owners_switched : Z;
  sources_released : Z;
  metadata_commits : Z;
  checkpoints : Z;
  warnings : list string;
  errors : list string
}.
Definition empty_report : JournalValidationReport :=
  mkReport true 0 0 0 0 0 0 0 0 [] [].

Record TxState := mkTx {
  intent : bool;
  verified : bool;
  reserved : bool;
  switched : bool;
  released : bool;
  committed : bool;
  src : Z;
  dst : Z;
  blocks : Z;
  tx_inode : Z
}.
Definition fresh_tx : TxState := mkTx false false false false false false 0 0 0 0.

Definition add_error (r : JournalValidationReport) (msg : string) : JournalValidationReport :=
  mkReport false (transactions r) (intents r) (copies_verified r) (destinations_reserved r)
    (owners_switched r) (sources_released r) (metadata_commits r) (checkpoints r)
    (warnings r) (errors r ++ [msg]).
Definition add_warning (r : JournalValidationReport) (msg : string) : JournalValidationReport :=
  mkReport (clean r) (transactions r) (intents r) (copies_verified r) (destinations_reserved r)
    (owners_switched r) (sources_released r) (metadata_commits r) (checkpoints r)
    (warnings r ++ [msg]) (errors r).
Definition warn_if (b : bool) (msg : string) (r : JournalValidationReport) : JournalValidationReport :=
  if b then add_warning r msg else r.
Definition error_if (b : bool) (msg : string) (r : JournalValidationReport) : JournalValidationReport :=
  if b then add_error r msg else r.

(** The increment of the counter a record type has. *)
Definition count_record (t : JournalRecordType) (r : JournalValidationReport) : JournalValidationReport :=
  let one t' := if decide (t = t') then 1 else 0 in
  mkReport (clean r) (transactions r) (u64 (intents r + one relocation_intent))
    (u64 (copies_verified r + one copy_verified))
    (u64 (destinations_reserved r + one destination_reserved))
    (u64 (owners_switched r + one owner_switched))
    (u64 (sources_released r + one source_released))
    (u64 (metadata_commits r + one metadata_committed))
    (u64 (checkpoints r + one checkpoint_record)) (warnings r) (errors r).

Definition same_geometry (s : TxState) (r : JournalRecord) : bool :=
  (src s =? source_block r) && (dst s =? destination_block r) &&
  (blocks s =? block_count r) && (tx_inode s =? inode r).

(** ** The loop over the records *)

(** The locals of [validate_journal_semantics]. *)
Record Scan := mkScan {
  out : JournalValidationReport;
  tx : gmap Z TxState;
  filesystem_dirty : bool;
  filesystem_clean_seen : bool;
  last_checkpoint_phase : Z
}.
Definition start_scan : Scan := mkScan empty_report ∅ false false 0.
Definition set_out (f : JournalValidationReport -> JournalValidationReport) (s : Scan) : Scan :=
  mkScan (f (out s)) (tx s) (filesystem_dirty s) (filesystem_clean_seen s) (last_checkpoint_phase s).
Definition set_tx (id : Z) (t : TxState) (s : Scan) : Scan :=
  mkScan (out s) (<[id := t]> (tx s)) (filesystem_dirty s) (filesystem_clean_seen s)
    (last_checkpoint_phase s).

Definition for_tx (id : Z) : string := " for transaction " +:+ pretty id.

(** The [switch] over the records of a started transaction. *)
Definition tx_record (s : TxState) (r : JournalRecord) (o : JournalValidationReport)
    : TxState * JournalValidationReport :=
  let id := transaction_id r in
  let o' := count_record (rtype r) o in
  match rtype r with
  | copy_verified =>
      (mkTx (intent s) true (reserved s) (switched s) (released s) (committed s)
         (src s) (dst s) (blocks s) (tx_inode s),
       warn_if (verified s) ("duplicate verified-copy record" +:+ for_tx id) o')
  | destination_reserved =>
      (mkTx (intent s) (verified s) true (switched s) (released s) (committed s)
         (src s) (dst s) (blocks s) (tx_inode s),
       warn_if (negb (verified s))
         ("destination reserved before durable copy-verification record" +:+ for_tx id) o')
  | owner_switched =>
      (mkTx (intent s) (verified s) (reserved s) true (released s) (committed s)
         (src s) (dst s) (blocks s) (tx_inode s),
       error_if (negb (verified s)) ("owner switched before verified copy" +:+ for_tx id) o')
  | source_released =>
      (mkTx (intent s) (verified s) (reserved s) (switched s) true (committed s)
         (src s) (dst s) (blocks s) (tx_inode s),
       error_if (negb (switched s)) ("source released before owner switch" +:+ for_tx id) o')
  | metadata_committed =>
      (mkTx (intent s) (verified s) (reserved s) (switched s) (released s) true
         (src s) (dst s) (blocks s) (tx_inode s),
       warn_if (negb (released s))
         ("metadata commit has no source-released record; on-disk reconciliation is required"
          +:+ for_tx id)
       (warn_if (negb (switched s))
         ("metadata commit has no owner-switched record; on-disk reconciliation is required"
          +:+ for_tx id)
       (error_if (negb (verified s))
         ("metadata committed without verified copy" +:+ for_tx id) o')))
  | _ => (s, o)
  end.

(** A record that belongs to a transaction. *)
Definition tx_step (r : JournalRecord) (s : Scan) : Scan :=
  let id := transaction_id r in
  let t := default fresh_tx (tx s !! id) in
  let s := set_tx id t s in      (* [tx[id]] inserts a default state *)
  if decide (rtype r = relocation_intent) then
    let s := set_out (count_record relocation_intent) s in
    if intent t then
      if negb (same_geometry t r)
      then set_out (fun o => add_error o "duplicate relocation intent changes transaction geometry") s
      else set_out (fun o => add_warning o ("duplicate relocation intent" +:+ for_tx id)) s
    else
      let t' := mkTx true (verified t) (reserved t) (switched t) (released t) (committed t)
                  (source_block r) (destination_block r) (block_count r) (inode r) in
      set_out (error_if ((blocks t' =? 0) || (src t' =? dst t'))
                 "relocation intent has invalid source/destination geometry")
        (set_tx id t' s)
  else if negb (intent t) then
    set_out (fun o => add_error o (journal_record_type_name (rtype r)
      +:+ " precedes relocation intent" +:+ for_tx id)) s
  else if negb (same_geometry t r) then
    set_out (fun o => add_error o (journal_record_type_name (rtype r)
      +:+ " changes relocation geometry" +:+ for_tx id)) s
  else
    let (t', o') := tx_record t r (out s) in
    set_out (fun _ => o') (set_tx id t' s).

(** The body of the loop. *)
Definition scan_step (s : Scan) (r : JournalRecord) : Scan :=
  match rtype r with
  | checkpoint_record =>
      let s := set_out (count_record checkpoint_record) s in
      if (aux r <? phase_code prepared) || (phase_code compacted <? aux r)
      then set_out (fun o => add_error o "checkpoint contains an invalid phase value") s
      else mkScan (out s) (tx s) (filesystem_dirty s) (filesystem_clean_seen s) (aux r)
  | filesystem_marked_dirty => mkScan (out s) (tx s) true false (last_checkpoint_phase s)
  | filesystem_marked_clean =>
      mkScan (warn_if (negb (filesystem_dirty s))
                "filesystem-clean record appears without a preceding dirty record" (out s))
        (tx s) false true (last_checkpoint_phase s)
  | partition_intent | partition_committed | note => s
  | _ =>
      if transaction_id r =? 0
      then set_out (fun o => add_error o
             (journal_record_type_name (rtype r) +:+ " record has transaction id 0")) s
      else tx_step r s
  end.

(** The checks per transaction, in the iteration order of the hash map. *)
Definition final_tx (o : JournalValidationReport) (e : Z * TxState) : JournalValidationReport :=
  let (id, s) := e in
  if negb (intent s) then o
  else
    error_if (released s && negb (switched s))
      ("transaction " +:+ pretty id +:+ " released source without owner switch")
    (error_if (committed s && negb (verified s))
      ("committed transaction " +:+ pretty id +:+ " has no verified copy") o).

Definition with_transactions (n : Z) (r : JournalValidationReport) : JournalValidationReport :=
  mkReport (clean r) n (intents r) (copies_verified r) (destinations_reserved r)
    (owners_switched r) (sources_released r) (metadata_commits r) (checkpoints r)
    (warnings r) (errors r).

(** [iter] is the unspecified iteration order of [std::unordered_map]. *)
Definition validate_records (iter : gmap Z TxState -> list (Z * TxState)) (ph : OperationPhase)
    (rs : list JournalRecord) : JournalValidationReport :=
  let s := foldl scan_step start_scan rs in
  let o := with_transactions (Z.of_nat (size (tx s))) (out s) in
  let o := foldl final_tx o (iter (tx s)) in
  let o := warn_if (negb (last_checkpoint_phase s =? 0)
                    && negb (last_checkpoint_phase s =? phase_code ph))
    "latest checkpoint record phase differs from authoritative journal header phase" o in
  let o := error_if (bool_decide (ph = complete) && filesystem_dirty s)
    "journal is complete but last recorded filesystem state is dirty" o in
  warn_if ((bool_decide (ph = complete) || bool_decide (ph = filesystem_shrunk))
           && negb (filesystem_clean_seen s))
    "terminal journal phase has no explicit filesystem-clean record" o.

Definition validate_journal_semantics (iter : gmap Z TxState -> list (Z * TxState))
    (j : TransactionJournal) : M JournalValidationReport :=
  if negb (records_valid (status_ j)) then failM corrupt "journal record integrity is not valid"
  else
    rr ← records j;
    match rr.1 with
    | Err e => raise e
    | Ok rs => mret (validate_records iter (phase (status_ j)) rs)
    end.

(** ** src/transaction/recovery.cpp *)

Inductive RecoveryAction :=
  | action_none | resume_or_rollback | resume_forward | finish_forward | manual_review.
#[export] Instance RecoveryAction_eq_dec : EqDecision RecoveryAction.
Proof. solve_decision. Defined.

Record RecoveryAssessment := mkAssessment {
  action : RecoveryAction;
  safe_to_resume : bool;
  rollback_available : bool;
  reason : string
}.

Definition recovery_action_name (a : RecoveryAction) : string :=
  match a with
  | action_none => "none"
  | resume_or_rollback => "resume_or_rollback"
  | resume_forward => "resume_forward"
  | finish_forward => "finish_forward"
  | manual_review => "manual_review"
  end.

Definition assess_recovery (s : JournalStatus) : RecoveryAssessment :=
  if negb (records_valid s) || (negb (header_a_valid s) && negb (header_b_valid s))
  then mkAssessment manual_review false false "journal integrity validation failed"
  else match phase s with
  | prepared => mkAssessment resume_or_rollback true true
      "no irreversible filesystem transition has committed"
  | relocating | paused => mkAssessment resume_or_rollback true true
      "relocation is checkpointed before irreversible metadata transitions"
  | staged => mkAssessment resume_forward true true
      "all relocation copies are verified; metadata has not been switched"
  | metadata_finalize | metadata_paused => mkAssessment resume_forward true false
      "metadata finalization has begun; reconcile on-disk move state and finish forward"
  | compacted => mkAssessment resume_forward true false
      "tail data is compacted; filesystem size has not yet changed"
  | filesystem_shrunk | partition_pending => mkAssessment finish_forward true false
      "filesystem size transition committed; recovery must finish forward"
  | complete => mkAssessment action_none false false "operation is complete"
  | failed => mkAssessment manual_review false false
      "operation is marked failed; inspect the journal and filesystem before writing"
  end.

(** ** Specification: the protocol a relocation journal has to follow *)

Definition geometry_of (r : JournalRecord) : Z * Z * Z * Z :=
  (source_block r, destination_block r, block_count r, inode r).

(** [past] has a record of type [t] for transaction [id]. *)
Definition seen (t : JournalRecordType) (id : Z) (past : list JournalRecord) : bool :=
  existsb (fun r => bool_decide (rtype r = t) && (transaction_id r =? id)) past.

(** The geometry with which transaction [id] was started. *)
Definition started_with (id : Z) (past : list JournalRecord) : option (Z * Z * Z * Z) :=
  match List.find (fun r => bool_decide (rtype r = relocation_intent)
                            && (transaction_id r =? id)) past with
  | Some r => Some (geometry_of r)
  | None => None
  end.

(** Transaction [id] was started with the geometry of [r]. *)
Definition belongs (r : JournalRecord) (past : list JournalRecord) : bool :=
  bool_decide (started_with (transaction_id r) past = Some (geometry_of r)).

(** A record is allowed after the records [past]. *)
Definition allowed (past : list JournalRecord) (r : JournalRecord) : bool :=
  let id := transaction_id r in
  match rtype r with
  | checkpoint_record => (1 <=? aux r) && (aux r <=? 11)
  | filesystem_marked_dirty | filesystem_marked_clean
  | partition_intent | partition_committed | note => true
  | relocation_intent =>
      negb (id =? 0) &&
      match started_with id past with
      | Some g => bool_decide (g = geometry_of r)
      | None => negb (block_count r =? 0) && negb (source_block r =? destination_block r)
      end
  | copy_verified | destination_reserved => negb (id =? 0) && belongs r past
  | owner_switched | metadata_committed =>
      negb (id =? 0) && belongs r past && seen copy_verified id past
  | source_released =>
      negb (id =? 0) && belongs r past && seen owner_switched id past
  end.

Definition protocol (rs : list JournalRecord) : Prop :=
  forall i r, rs !! i = Some r -> allowed (take i rs) r = true.

(** The file system is dirty after the records [rs]. *)
Definition left_dirty (rs : list JournalRecord) : bool :=
  foldl (fun d r => match rtype r with
                    | filesystem_marked_dirty => true
                    | filesystem_marked_clean => false
                    | _ => d end) false rs.

(** ** The scan follows the specification *)

Record matches (past : list JournalRecord) (s : Scan) : Prop := {
  m_started : forall id, let t := default fresh_tx (tx s !! id) in
    started_with id past
    = if intent t then Some (src t, dst t, blocks t, tx_inode t) else None;
  m_verified : forall id,
    verified (default fresh_tx (tx s !! id)) = seen copy_verified id past;
  m_switched : forall id,
    switched (default fresh_tx (tx s !! id)) = seen owner_switched id past;
  m_final : forall id t, tx s !! id = Some t ->
    committed t && negb (verified t) = false /\ released t && negb (switched t) = false;
  m_dirty : filesystem_dirty s = left_dirty past
}.

Lemma seen_snoc t id past r :
  seen t id (past ++ [r])
  = seen t id past || (bool_decide (rtype r = t) && (transaction_id r =? id)).
Proof. unfold seen. rewrite existsb_app. cbn. by rewrite orb_false_r. Qed.

Lemma started_snoc id past r :
  started_with id (past ++ [r]) =
  match started_with id past with
  | Some g => Some g
  | None => if bool_decide (rtype r = relocation_intent) && (transaction_id r =? id)
            then Some (geometry_of r) else None
  end.
Proof.
  unfold started_with. induction past as [|x past IH]; cbn [app List.find].
  - by destruct (bool_decide _ && _).
  - by destruct (bool_decide (rtype x = relocation_intent) && _).
Qed.

Lemma left_dirty_snoc past r :
  left_dirty (past ++ [r]) = match rtype r with
    | filesystem_marked_dirty => true
    | filesystem_marked_clean => false
    | _ => left_dirty past end.
Proof. unfold left_dirty. by rewrite foldl_app. Qed.

Lemma same_geometry_true t r :
  same_geometry t r = true <-> (src t, dst t, blocks t, tx_inode t) = geometry_of r.
Proof.
  unfold same_geometry, geometry_of. rewrite !andb_true_iff, !Z.eqb_eq.
  split; [intros (((-> & ->) & ->) & ->); done|intros [= -> -> -> ->]; done].
Qed.

(** A record that is not one of a transaction leaves the transactions alone. *)
Lemma matches_other past s r s' :
  matches past s -> tx s' = tx s ->
  filesystem_dirty s' = left_dirty (past ++ [r]) ->
  rtype r <> relocation_intent -> rtype r <> copy_verified -> rtype r <> owner_switched ->
  matches (past ++ [r]) s'.
Proof.
  intros [M1 M2 M3 M4 M5] Htx Hd N1 N2 N3. split; rewrite ?Htx; try done; intros id.
  - rewrite started_snoc, M1, bool_decide_false by done. by case_match.
  - rewrite seen_snoc, M2, bool_decide_false by done. by rewrite orb_false_r.
  - rewrite seen_snoc, M3, bool_decide_false by done. by rewrite orb_false_r.
Qed.

(** A record of transaction [transaction_id r] replaces its state by [t']. *)
Lemma matches_tx past s r s' t' :
  matches past s ->
  (forall id, tx s' !! id = if decide (id = transaction_id r) then Some t' else tx s !! id) ->
  filesystem_dirty s' = filesystem_dirty s ->
  let t := default fresh_tx (tx s !! transaction_id r) in
  let isT ty := bool_decide (rtype r = ty) in
  isT filesystem_marked_dirty = false -> isT filesystem_marked_clean = false ->
  (if intent t' then Some (src t', dst t', blocks t', tx_inode t') else None)
  = (if intent t then Some (src t, dst t, blocks t, tx_inode t)
     else if isT relocation_intent then Some (geometry_of r) else None) ->
  verified t' = verified t || isT copy_verified ->
  switched t' = switched t || isT owner_switched ->
  committed t' && negb (verified t') = false -> released t' && negb (switched t') = false ->
  matches (past ++ [r]) s'.
Proof.
  intros [M1 M2 M3 M4 M5] Htx Hd t isT D1 D2 E1 E2 E3 F1 F2.
  assert (Hdef : forall id, default fresh_tx (tx s' !! id)
    = if decide (id = transaction_id r) then t' else default fresh_tx (tx s !! id))
    by (intros id; rewrite Htx; by case_decide).
  assert (Hne : forall id, id <> transaction_id r -> (transaction_id r =? id) = false)
    by (intros id Hid; apply Z.eqb_neq; congruence).
  split; [intros id|intros id|intros id|intros id t0|].
  - cbv zeta. specialize (M1 id). cbv zeta in M1.
    rewrite started_snoc, M1, Hdef. case_decide as Hn; [subst|].
    + rewrite E1, Z.eqb_refl, andb_true_r. fold t. unfold isT. by destruct (intent t).
    + rewrite Hne, andb_false_r by done. by destruct (intent (default fresh_tx (tx s !! id))).
  - rewrite seen_snoc, <-M2, Hdef. case_decide as Hn; [subst|].
    + by rewrite E2, Z.eqb_refl, andb_true_r.
    + by rewrite Hne, andb_false_r, orb_false_r by done.
  - rewrite seen_snoc, <-M3, Hdef. case_decide as Hn; [subst|].
    + by rewrite E3, Z.eqb_refl, andb_true_r.
    + by rewrite Hne, andb_false_r, orb_false_r by done.
  - rewrite Htx. case_decide; [intros [= <-]; done|]. apply M4.
  - rewrite Hd, M5, left_dirty_snoc. unfold isT in D1, D2.
    apply bool_decide_eq_false in D1, D2. by destruct (rtype r).
Qed.

Lemma matches_default past s id :
  matches past s -> let t := default fresh_tx (tx s !! id) in
  committed t && negb (verified t) = false /\ released t && negb (switched t) = false.
Proof.
  intros M. cbv zeta. destruct (tx s !! id) as [t|] eqn:E; cbn; [|done].
  by apply (m_final _ _ M id).
Qed.

(** One record of a started transaction, as the specification decides it. *)
Definition tx_rule (past : list JournalRecord) (r : JournalRecord) : bool :=
  match rtype r with
  | owner_switched | metadata_committed => seen copy_verified (transaction_id r) past
  | source_released => seen owner_switched (transaction_id r) past
  | _ => true
  end.

Lemma clean_warn_if b m o : clean (warn_if b m o) = clean o.
Proof. by destruct b. Qed.
Lemma clean_error_if b m o : clean (error_if b m o) = clean o && negb b.
Proof. destruct b; cbn; by rewrite ?andb_false_r, ?andb_true_r. Qed.

(** ** One step *)

Lemma scan_step_dirty s r : clean (out s) = false -> clean (out (scan_step s r)) = false.
Proof.
  intros H. unfold scan_step, tx_step, tx_record, set_out, set_tx.
  repeat case_match; simplify_eq/=;
    rewrite ?clean_warn_if, ?clean_error_if; cbn; rewrite ?H; done.
Qed.

(** The state of a started transaction after a record is the one the records
    describe. *)
Lemma tx_record_spec past s r t' o' :
  matches past s -> let t := default fresh_tx (tx s !! transaction_id r) in
  intent t = true -> same_geometry t r = true ->
  In (rtype r) [copy_verified; destination_reserved; owner_switched; source_released;
                metadata_committed] ->
  tx_record t r (out s) = (t', o') ->
  clean o' = clean (out s) && tx_rule past r /\
  (tx_rule past r = true ->
   matches (past ++ [r]) (set_out (fun _ => o') (set_tx (transaction_id r) t'
                           (set_tx (transaction_id r) t s)))).
Proof.
  intros M t Hi Hg Hty Hrec.
  destruct (matches_default past s (transaction_id r) M) as [F1 F2]. fold t in F1, F2.
  pose proof (m_verified past s M (transaction_id r)) as S2. fold t in S2.
  pose proof (m_switched past s M (transaction_id r)) as S3. fold t in S3.
  assert (Hgo : intent t' = true -> (src t', dst t', blocks t', tx_inode t')
      = (src t, dst t, blocks t, tx_inode t) ->
    verified t' = verified t || bool_decide (rtype r = copy_verified) ->
    switched t' = switched t || bool_decide (rtype r = owner_switched) ->
    committed t' && negb (verified t') = false -> released t' && negb (switched t') = false ->
    matches (past ++ [r]) (set_out (fun _ => o') (set_tx (transaction_id r) t'
                             (set_tx (transaction_id r) t s)))).
  { intros E1 E2 E3 E4 E5 E6. apply (matches_tx past s r _ t' M); try done.
    - intros id. cbn. destruct (decide (id = transaction_id r)) as [->|Hn];
        [apply lookup_insert_eq|]. by rewrite !lookup_insert_ne by done.
    - cbn in Hty. apply bool_decide_eq_false. intuition congruence.
    - cbn in Hty. apply bool_decide_eq_false. intuition congruence.
    - fold t. by rewrite E1, Hi, E2. }
  unfold tx_record, tx_rule in *. cbn in Hty.
  destruct (rtype r); try (exfalso; intuition congruence); injection Hrec as <- <-;
    cbn [intent verified reserved switched released committed src dst blocks tx_inode] in *;
    rewrite ?clean_warn_if, ?clean_error_if, ?clean_warn_if, ?clean_error_if;
    rewrite <-?S2, <-?S3; cbn [count_record clean];
    rewrite ?negb_involutive, ?andb_true_r, ?orb_false_r, ?orb_true_r in *;
    (split; [done|intros Hok]); apply Hgo; try done; rewrite ?Hok; try done;
    rewrite ?andb_false_r; done.
Qed.

Definition tx_types : list JournalRecordType :=
  [copy_verified; destination_reserved; owner_switched; source_released; metadata_committed].

Lemma allowed_tx past r :
  In (rtype r) tx_types ->
  allowed past r = negb (transaction_id r =? 0) && belongs r past && tx_rule past r.
Proof.
  intros H. unfold allowed, tx_rule. cbn in H.
  destruct (rtype r); cbn; rewrite ?andb_true_r; try done; exfalso; intuition congruence.
Qed.

Lemma tx_step_spec past s r :
  matches past s -> clean (out s) = true -> transaction_id r <> 0 -> In (rtype r) tx_types ->
  clean (out (tx_step r s)) = allowed past r /\
  (allowed past r = true -> matches (past ++ [r]) (tx_step r s)).
Proof.
  intros M Hc Hid Hty. rewrite allowed_tx by done.
  assert (negb (transaction_id r =? 0) = true) as -> by (apply negb_true_iff, Z.eqb_neq, Hid).
  set (t := default fresh_tx (tx s !! transaction_id r)).
  pose proof (m_started past s M (transaction_id r)) as S1. fold t in S1. cbv zeta in S1.
  unfold tx_step, belongs. fold t. cbv zeta.
  rewrite decide_False by (intros E; rewrite E in Hty; cbn in Hty; intuition congruence).
  rewrite S1. destruct (intent t) eqn:Hi; cbn [negb]; [|done].
  destruct (same_geometry t r) eqn:Hg; cbn [negb].
  - apply same_geometry_true in Hg as Hg'. rewrite Hg', bool_decide_true by done.
    destruct (tx_record t r _) as [t' o'] eqn:Hrec. cbn [set_tx out] in Hrec.
    destruct (tx_record_spec past s r t' o' M Hi Hg Hty Hrec) as [H1 H2].
    cbn [set_out out andb] in *. rewrite H1, Hc. done.
  - rewrite bool_decide_false; [done|]. intros E. apply (inj Some) in E.
    apply same_geometry_true in E. congruence.
Qed.

Lemma intent_step_spec past s r :
  matches past s -> clean (out s) = true -> transaction_id r <> 0 ->
  rtype r = relocation_intent ->
  clean (out (tx_step r s)) = allowed past r /\
  (allowed past r = true -> matches (past ++ [r]) (tx_step r s)).
Proof.
  intros M Hc Hid Hty.
  set (t := default fresh_tx (tx s !! transaction_id r)).
  destruct (matches_default past s (transaction_id r) M) as [F1 F2]. fold t in F1, F2.
  pose proof (m_started past s M (transaction_id r)) as S1. fold t in S1. cbv zeta in S1.
  assert (Hgo : forall s' t', (forall id, tx s' !! id = if decide (id = transaction_id r)
                                 then Some t' else tx s !! id) ->
    filesystem_dirty s' = filesystem_dirty s ->
    (if intent t' then Some (src t', dst t', blocks t', tx_inode t') else None)
     = (if intent t then Some (src t, dst t, blocks t, tx_inode t) else Some (geometry_of r)) ->
    verified t' = verified t -> switched t' = switched t ->
    committed t' = committed t -> released t' = released t -> matches (past ++ [r]) s').
  { intros s' t' H1 H2 H3 H4 H5 H6 H7. apply (matches_tx past s r s' t' M); try done;
      rewrite ?Hty; cbn; fold t; rewrite ?H4, ?H5, ?H6, ?H7, ?orb_false_r; done. }
  unfold tx_step, allowed. fold t. cbv zeta. rewrite decide_True, Hty by done.
  assert (negb (transaction_id r =? 0) = true) as -> by (apply negb_true_iff, Z.eqb_neq, Hid).
  rewrite S1. cbn [andb]. destruct (intent t) eqn:Hi.
  - destruct (same_geometry t r) eqn:Hg; cbn [negb].
    + apply same_geometry_true in Hg as Hg'. rewrite bool_decide_true by done.
      split; [done|]. intros _. apply (Hgo _ t); try done; [|by rewrite Hi].
      intros id. cbn. destruct (decide (id = transaction_id r)) as [->|Hn];
        [apply lookup_insert_eq|by apply lookup_insert_ne].
    + rewrite bool_decide_false by (intros E; apply same_geometry_true in E; congruence).
      done.
  - split; [cbn; rewrite clean_error_if; cbn; rewrite Hc; cbn; by rewrite negb_orb|].
    intros _.
    apply (Hgo _ (mkTx true (verified t) (reserved t) (switched t) (released t) (committed t)
                    (source_block r) (destination_block r) (block_count r) (inode r))); try done.
    + intros id. cbn. destruct (decide (id = transaction_id r)) as [->|Hn];
        [by rewrite lookup_insert_eq|]. by rewrite !lookup_insert_ne by done.
Qed.

Lemma scan_step_spec past s r :
  matches past s -> clean (out s) = true ->
  clean (out (scan_step s r)) = allowed past r /\
  (allowed past r = true -> matches (past ++ [r]) (scan_step s r)).
Proof.
  intros M Hc.
  assert (Hother : forall s', tx s' = tx s -> filesystem_dirty s' = left_dirty (past ++ [r]) ->
    ~ In (rtype r) [relocation_intent; copy_verified; owner_switched] ->
    matches (past ++ [r]) s').
  { intros s' H1 H2 H3. cbn in H3. apply (matches_other past s); intuition congruence. }
  pose proof (left_dirty_snoc past r) as Hd. pose proof (m_dirty _ _ M) as Hm.
  assert (Htx : rtype r = relocation_intent \/ In (rtype r) tx_types ->
    scan_step s r = (if transaction_id r =? 0
      then set_out (fun o => add_error o
             (journal_record_type_name (rtype r) +:+ " record has transaction id 0")) s
      else tx_step r s) /\ (transaction_id r = 0 -> allowed past r = false)).
  { unfold scan_step, allowed. cbn. intros Hty. split.
    - destruct (rtype r); done || (exfalso; intuition congruence).
    - intros ->. destruct (rtype r); done || (exfalso; intuition congruence). }
  destruct (decide (rtype r = relocation_intent \/ In (rtype r) tx_types)) as [Hty|Hty].
  - destruct (Htx Hty) as [-> Hz]. destruct (Z.eqb_spec (transaction_id r) 0) as [E|E].
    + by rewrite (Hz E).
    + destruct Hty; [by apply intent_step_spec|by apply tx_step_spec].
  - clear Htx. cbn in Hty. unfold scan_step, allowed.
    destruct (rtype r); try (exfalso; apply Hty; tauto);
      try (cbn; rewrite ?clean_warn_if; split; [done|intros _; apply Hother; cbn;
           [done|congruence|intuition congruence]]).
    change (phase_code prepared) with 1. change (phase_code compacted) with 11.
    rewrite (Z.ltb_antisym 1 (aux r)), (Z.ltb_antisym (aux r) 11).
    destruct (1 <=? aux r); [destruct (aux r <=? 11)|]; cbn; (split; [done|]);
      intros; try done; apply Hother; cbn; [done|congruence|intuition congruence].
Qed.

Lemma protocol_snoc past r : protocol (past ++ [r]) <-> protocol past /\ allowed past r = true.
Proof.
  unfold protocol. split.
  - intros H. split.
    + intros i x Hx. specialize (H i x). rewrite lookup_app_l, take_app_le in H
        by (apply lookup_lt_Some in Hx; lia). by apply H.
    + specialize (H (length past) r). rewrite lookup_app_r, Nat.sub_diag, take_app_length in H
        by lia. by apply H.
  - intros [H Hr] i x Hx. destruct (decide (i < length past)%nat) as [Hi|Hi].
    + rewrite lookup_app_l in Hx by lia. rewrite take_app_le by lia. by apply H.
    + rewrite lookup_app_r in Hx by lia. destruct (i - length past)%nat as [|n] eqn:E; [|done].
      cbn in Hx. injection Hx as <-. replace i with (length past) by lia.
      by rewrite take_app_length.
Qed.

Lemma scan_spec rs :
  let s := foldl scan_step start_scan rs in
  (clean (out s) = true <-> protocol rs) /\ (protocol rs -> matches rs s).
Proof.
  cbv zeta. induction rs as [|r rs [IH1 IH2]] using rev_ind.
  - split; [split; [intros _ i r Hr; by rewrite lookup_nil in Hr|done]|]. intros _.
    split; intros *; cbv zeta; rewrite ?lookup_empty; try done; intros H; by rewrite lookup_empty in H.
  - rewrite foldl_app. cbn [foldl]. rewrite protocol_snoc.
    destruct (clean (out (foldl scan_step start_scan rs))) eqn:Hc.
    + assert (Hp : protocol rs) by (by apply IH1). specialize (IH2 Hp).
      destruct (scan_step_spec rs _ r IH2 Hc) as [H1 H2]. rewrite H1. split; [tauto|].
      intros [_ Ha]. by apply H2.
    + rewrite (scan_step_dirty _ _ Hc).
      assert (Hn : ~ protocol rs) by (intros Hp; apply IH1 in Hp; congruence).
      split; [split; [done|tauto]|tauto].
Qed.

Lemma final_tx_clean o id t :
  committed t && negb (verified t) = false -> released t && negb (switched t) = false ->
  clean (final_tx o (id, t)) = clean o.
Proof.
  intros H1 H2. unfold final_tx. destruct (intent t); [|done]. cbn.
  rewrite H1, H2. done.
Qed.

Lemma final_all_clean l o :
  Forall (fun e : Z * TxState => committed e.2 && negb (verified e.2) = false /\
                                 released e.2 && negb (switched e.2) = false) l ->
  clean (foldl final_tx o l) = clean o.
Proof.
  revert o. induction l as [|[id t] l IH]; intros o H; [done|].
  apply Forall_cons in H as [[H1 H2] H]. cbn [foldl]. rewrite IH by done.
  by apply final_tx_clean.
Qed.

Lemma final_tx_dirty l o : clean o = false -> clean (foldl final_tx o l) = false.
Proof.
  revert o. induction l as [|[id t] l IH]; intros o H; [done|]. cbn [foldl]. apply IH.
  unfold final_tx. case_match; [done|]. by rewrite !clean_error_if, H.
Qed.

(** ** Properties *)

(** C7: for every iteration order of the hash map, the validator reports a
    journal clean exactly when its records follow the relocation protocol
    (every step of a transaction has its intent, the intent's geometry and the
    steps it depends on before it, and no step has transaction id 0) and a
    complete journal does not end with a dirty file system. *)
Theorem validator_decides_protocol (iter : gmap Z TxState -> list (Z * TxState))
    (ph : OperationPhase) (rs : list JournalRecord)
    (Hiter : forall m, iter m ≡ₚ map_to_list m) :
  clean (validate_records iter ph rs) = true <->
  protocol rs /\ ~ (ph = complete /\ left_dirty rs = true).
Proof.
  unfold validate_records. cbv zeta. rewrite !clean_warn_if, clean_error_if, clean_warn_if.
  destruct (scan_spec rs) as [H1 H2]. cbv zeta in H1, H2.
  set (s := foldl scan_step start_scan rs) in *.
  destruct (clean (out s)) eqn:Hc.
  - assert (Hp : protocol rs) by (by apply H1). specialize (H2 Hp).
    rewrite final_all_clean.
    + cbn [with_transactions clean]. rewrite Hc, (m_dirty _ _ H2). cbn [andb].
      destruct (decide (ph = complete)) as [Hph|Hph];
        [rewrite bool_decide_true by done|rewrite bool_decide_false by done];
        destruct (left_dirty rs); cbn; intuition congruence.
    + apply list.Forall_forall. intros [id t] Hin. rewrite Hiter in Hin.
      apply elem_of_map_to_list in Hin. by apply (m_final _ _ H2 id).
  - rewrite final_tx_dirty by done. cbn.
    assert (~ protocol rs) by (intros Hp; apply H1 in Hp; congruence). split; [done|tauto].
Qed.

Definition demo_move (t : JournalRecordType) (tid : Z) : JournalRecord :=
  mkRecord t 0 tid 100 200 4 12 0 0 0.

(** An owner switched before its copy is verified is reported. *)
Lemma validator_decides_protocol_witness :
  clean (validate_records map_to_list complete
    [demo_move filesystem_marked_dirty 0; demo_move relocation_intent 7; demo_move copy_verified 7;
     demo_move owner_switched 7; demo_move source_released 7; demo_move metadata_committed 7;
     demo_move filesystem_marked_clean 0]) = true /\
  ~ protocol [demo_move relocation_intent 7; demo_move owner_switched 7; demo_move copy_verified 7].
Proof.
  assert (Hiter : forall m : gmap Z TxState, map_to_list m ≡ₚ map_to_list m) by done.
  split; [vm_compute; reflexivity|]. intros Hp.
  assert (Hs : ~ (staged = complete /\ left_dirty [demo_move relocation_intent 7;
     demo_move owner_switched 7; demo_move copy_verified 7] = true)) by (intros [[=] _]).
  pose proof (proj2 (validator_decides_protocol map_to_list staged _ Hiter) (conj Hp Hs)) as H.
  vm_compute in H. discriminate H.
Defined.

(** Recovery offers a rollback only while no metadata has been switched
    (the phases up to [staged]), never for a journal whose integrity check
    failed, and an operation it does not allow to resume is complete or needs
    manual review. *)
Theorem recovery_rollback_is_early (s : JournalStatus) :
  let r := assess_recovery s in
  (rollback_available r = true ->
     safe_to_resume r = true /\ records_valid s = true /\
     (header_a_valid s = true \/ header_b_valid s = true) /\
     phase s ∈ [prepared; relocating; paused; staged]) /\
  (safe_to_resume r = false <-> action r = action_none \/ action r = manual_review) /\
  (action r = action_none -> phase s = complete).
Proof.
  cbv zeta. unfold assess_recovery.
  destruct (records_valid s), (header_a_valid s), (header_b_valid s), (phase s); cbn;
    (split; [intros H; try discriminate H; split_and!; auto; set_solver
            |split; [split; [auto; discriminate|intros [|]; congruence]|congruence]]).
Qed.
