(* ===== verification/Safety.v ===== *)
(** Refusing writes to storage that is in use (include/fsx/safety.hpp,
    src/io/safety.cpp, the Linux build).

    What the kernel reports (mountinfo, swaps, sysfs) is part of the host's
    environment; a path in sysfs is the list of its components. *)
From S2P Require Import Prelude Errors Host Device FileUtil.
From Stdlib Require Import Ascii.

Record DeviceSafety := mkSafety {
  mounted : bool;
  active_swap : bool;
  block_device : bool;
  regular_file : bool;
  has_holders : bool;
  descendant_mounted : bool;
  descendant_swap : bool;
  mountpoint : string;
  holders : list string;
  active_descendants : list string
}.

Definition sysfs_path : Type := list string.

Definition canonical_or_self (env : HostEnv) (path : string) : string :=
  default path (realpath env path).

(** An empty path stands for one that cannot be resolved. *)
Definition sysfs_device_path (env : HostEnv) (maj min : Z) : sysfs_path :=
  default [] (sysfs_canonical env ("/sys/dev/block/" +:+ pretty maj +:+ ":" +:+ pretty min)).

Fixpoint component_prefix (base candidate : sysfs_path) : bool :=
  match base, candidate with
  | [], _ => true
  | b :: base, c :: candidate => bool_decide (b = c) && component_prefix base candidate
  | _ :: _, [] => false
  end.
Definition same_or_descendant (base candidate : sysfs_path) : bool :=
  match base, candidate with
  | [], _ | _, [] => false
  | _, _ => component_prefix base candidate
  end.

(** ** Parsing *)

Definition is_space (c : ascii) : bool :=
  let n := Z.of_nat (nat_of_ascii c) in (n =? 32) || ((9 <=? n) && (n <=? 13)).
Definition digit_of (c : ascii) : option Z :=
  let n := Z.of_nat (nat_of_ascii c) in
  if (48 <=? n) && (n <=? 57) then Some (n - 48) else None.

(** The digits of [strtoul] in base 10, capped above [ULONG_MAX]; the rest of
    the text. *)
Fixpoint strtoul_digits (l : list ascii) (acc : Z) : Z * list ascii :=
  match l with
  | c :: l' => match digit_of c with
               | Some d => strtoul_digits l' (Z.min (u64_max + 1) (acc * 10 + d))
               | None => (acc, l)
               end
  | [] => (acc, [])
  end.
(** [strtoul(s, &end, 10)]: the value and the text at [end]. *)
Definition strtoul (l : list ascii) : Z * list ascii :=
  let t := drop_while is_space l in
  let '(neg, t) := match t with
                   | c :: t' => if bool_decide (c = "-"%char) then (true, t')
                                else if bool_decide (c = "+"%char) then (false, t') else (false, t)
                   | [] => (false, t)
                   end in
  match t with
  | c :: _ => match digit_of c with
              | Some _ => let (v, rest) := strtoul_digits t 0 in
                          (if u64_max <? v then u64_max else if neg then u64 (- v) else v, rest)
              | None => (0, l)
              end
  | [] => (0, l)
  end.

Fixpoint split_colon (l : list ascii) : option (list ascii * list ascii) :=
  match l with
  | [] => None
  | c :: l' => if bool_decide (c = ":"%char) then Some ([], l')
               else match split_colon l' with
                    | Some (a, b) => Some (c :: a, b)
                    | None => None
                    end
  end.

Definition parse_major_minor (text : string) : option (Z * Z) :=
  match split_colon (String.list_ascii_of_string text) with
  | None => None
  | Some (a, b) =>
      match strtoul a, strtoul b with
      | (maj, []), (min, []) => Some (maj, min)
      | _, _ => None
      end
  end.

(** The words [istringstream >> ..] extracts from a line. *)
Fixpoint words_from (l : list ascii) (word : list ascii) : list string :=
  let emit := if decide (word = []) then []
              else [String.string_of_list_ascii (rev word)] in
  match l with
  | [] => emit
  | c :: l' => if is_space c then emit ++ words_from l' [] else words_from l' (c :: word)
  end.
Definition words (line : string) : list string := words_from (String.list_ascii_of_string line) [].

(** ** [inspect_device_safety] *)

Definition set_mount (m : string) (s : DeviceSafety) : DeviceSafety :=
  mkSafety true (active_swap s) (block_device s) (regular_file s) (has_holders s)
    (descendant_mounted s) (descendant_swap s) m (holders s) (active_descendants s).
Definition add_descendant_mount (d : string) (s : DeviceSafety) : DeviceSafety :=
  mkSafety (mounted s) (active_swap s) (block_device s) (regular_file s) (has_holders s)
    true (descendant_swap s) (mountpoint s) (holders s) (active_descendants s ++ [d]).
Definition set_swap (s : DeviceSafety) : DeviceSafety :=
  mkSafety (mounted s) true (block_device s) (regular_file s) (has_holders s)
    (descendant_mounted s) (descendant_swap s) (mountpoint s) (holders s) (active_descendants s).
Definition add_descendant_swap (d : string) (s : DeviceSafety) : DeviceSafety :=
  mkSafety (mounted s) (active_swap s) (block_device s) (regular_file s) (has_holders s)
    (descendant_mounted s) true (mountpoint s) (holders s) (active_descendants s ++ [d]).
Definition set_holders (hs : list string) (s : DeviceSafety) : DeviceSafety :=
  mkSafety (mounted s) (active_swap s) (block_device s) (regular_file s)
    (negb (bool_decide (hs = []))) (descendant_mounted s) (descendant_swap s) (mountpoint s)
    hs (active_descendants s).

(** One line of /proc/self/mountinfo. *)
Definition mount_line (env : HostEnv) (want : Z * Z) (want_sys : sysfs_path)
    (out : DeviceSafety) (line : string) : DeviceSafety :=
  match words line with
  | _ :: _ :: majmin :: _ :: mnt :: _ =>
      match parse_major_minor majmin with
      | None => out
      | Some (ma, mi) =>
          if (ma =? want.1) && (mi =? want.2) then set_mount mnt out
          else if same_or_descendant want_sys (sysfs_device_path env ma mi)
          then add_descendant_mount (majmin +:+ " mounted at " +:+ mnt) out
          else out
      end
  | _ => out
  end.

(** One line of /proc/swaps behind its heading. *)
Definition swap_line (env : HostEnv) (want : string) (want_sys : sysfs_path)
    (out : DeviceSafety) (line : string) : DeviceSafety :=
  match words line with
  | [] => out
  | source :: _ =>
      if bool_decide (canonical_or_self env source = want) then set_swap out
      else match stat_blk env source with
           | Some (ma, mi) =>
               if same_or_descendant want_sys (sysfs_device_path env ma mi)
               then add_descendant_swap (source +:+ " active as swap") out
               else out
           | None => out
           end
  end.

Definition inspect_device_safety (dev : BlockDevice) : M DeviceSafety :=
  st ← sys_fstat (native_fd dev);
  match st with
  | inl e => raise_errno io
      (fun env => "fstat failed while checking device safety: " +:+ strerror env e) e
  | inr k =>
      env ← ask_env;
      match k with
      | BlockNode want _ _ _ =>
          let out := mkSafety false false true false false false false "" [] [] in
          let want_sys := sysfs_device_path env want.1 want.2 in
          match mountinfo env with
          | None => failM io "cannot read /proc/self/mountinfo"
          | Some ml =>
              let out := foldl (mount_line env want want_sys) out ml in
              let out := match swaps env with
                         | None => out
                         | Some sl => foldl (swap_line env (canonical_or_self env (path_ dev)) want_sys)
                                        out (tail sl)
                         end in
              let out := match holders_dir env ("/sys/dev/block/" +:+ pretty want.1 +:+ ":"
                                 +:+ pretty want.2 +:+ "/holders") with
                         | None => out
                         | Some hs => set_holders hs out
                         end in
              mret out
          end
      | Regular => mret (mkSafety false false false true false false false "" [] [])
      | OtherNode _ => mret (mkSafety false false false false false false false "" [] [])
      end
  end.

Definition require_offline_for_write (dev : BlockDevice) : M unit :=
  s ← inspect_device_safety dev;
  if mounted s then failM unsafe ("device is mounted at " +:+ mountpoint s
                                  +:+ "; offline filesystem writes are refused")
  else if active_swap s then failM unsafe "device is active swap; writes are refused"
  else if descendant_mounted s || descendant_swap s
  then failM unsafe ("device has active child partitions ("
         +:+ String.concat ", " (active_descendants s) +:+ "); whole-device writes are refused")
  else if has_holders s
  then failM unsafe ("device has active kernel holders ("
         +:+ String.concat "," (holders s) +:+ "); writes are refused")
  else
    r ← sys_flock (native_fd dev);
    match r with
    | inl e => raise_errno unsafe
        (fun env => "cannot acquire exclusive device lock: " +:+ strerror env e) e
    | inr _ => mret tt
    end.

Definition require_disk_offline_for_write (dev : BlockDevice) : M unit :=
  require_offline_for_write dev.

(** ** Overlap of two devices *)

(** [collect_backing_devices]; [None] when the fuel is used up.  The path is
    canonical already, as every path the code passes is. *)
Fixpoint collect_backing_devices (fuel : nat) (env : HostEnv) (sys : sysfs_path)
    (out visiting : gset sysfs_path) : option (gset sysfs_path) :=
  match fuel with
  | O => None
  | S fuel =>
      if decide (sys = []) then Some out
      else if decide (sys ∈ visiting) then Some out
      else
        let children := default [] (slaves_dir env sys) in
        if decide (children = []) then Some ({[sys]} ∪ out)
        else foldl (fun acc child =>
               match acc, child with
               | Some o, Some c => collect_backing_devices fuel env c o ({[sys]} ∪ visiting)
               | _, _ => acc
               end) (Some out) children
  end.

Definition backing_set (fuel : nat) (env : HostEnv) (d : Z * Z) : option (gset sysfs_path) :=
  collect_backing_devices fuel env (sysfs_device_path env d.1 d.2) ∅ ∅.

Definition overlap (a b : sysfs_path) : bool :=
  bool_decide (a = b) || same_or_descendant a b || same_or_descendant b a.

Definition require_nonoverlapping_devices (fuel : nat) (source target : BlockDevice) : M unit :=
  ss ← sys_fstat (native_fd source);
  match ss with
  | inl e => raise_errno io (fun env => "fstat failed for clone source: " +:+ strerror env e) e
  | inr sk =>
      ts ← sys_fstat (native_fd target);
      match ts with
      | inl e => raise_errno io (fun env => "fstat failed for clone target: " +:+ strerror env e) e
      | inr tk =>
          if native_fd source =? native_fd target
          then failM unsafe "source and target refer to the same object"
          else match sk, tk with
          | BlockNode sr _ _ _, BlockNode tr _ _ _ =>
              if bool_decide (sr = tr)
              then failM unsafe "source and target refer to the same block device"
              else
                env ← ask_env;
                let sp := sysfs_device_path env sr.1 sr.2 in
                let tp := sysfs_device_path env tr.1 tr.2 in
                if bool_decide (sp = []) || bool_decide (tp = [])
                then failM unsupported
                  "cannot resolve block-device ancestry; refusing potentially overlapping copy"
                else if same_or_descendant sp tp || same_or_descendant tp sp
                then failM unsafe "source and target are a disk/partition overlap"
                else match backing_set fuel env sr, backing_set fuel env tr with
                | Some sb, Some tb =>
                    if bool_decide (sb = ∅) || bool_decide (tb = ∅)
                    then failM unsupported
                      "cannot resolve block-device backing storage; refusing potentially overlapping copy"
                    else if existsb (fun a => existsb (overlap a) (elements tb)) (elements sb)
                    then failM unsafe "source and target share overlapping block storage"
                    else mret tt
                | _, _ => fun h => (OutOfFuel, h)
                end
          | _, _ => mret tt
          end
      end
  end.

(** ** What the checks establish *)

(** What a line of mountinfo says about the device. *)
Definition mounts_device (want : Z * Z) (line : string) : bool :=
  match words line with
  | _ :: _ :: majmin :: _ :: _ :: _ => bool_decide (parse_major_minor majmin = Some want)
  | _ => false
  end.
Definition mounts_descendant (env : HostEnv) (want : Z * Z) (line : string) : bool :=
  match words line with
  | _ :: _ :: majmin :: _ :: _ :: _ =>
      match parse_major_minor majmin with
      | Some d => negb (bool_decide (d = want)) &&
          same_or_descendant (sysfs_device_path env want.1 want.2) (sysfs_device_path env d.1 d.2)
      | None => false
      end
  | _ => false
  end.
(** What a line of /proc/swaps says about the device. *)
Definition swaps_device (env : HostEnv) (path : string) (line : string) : bool :=
  match words line with
  | source :: _ => bool_decide (canonical_or_self env source = canonical_or_self env path)
  | [] => false
  end.
Definition swaps_descendant (env : HostEnv) (want : Z * Z) (path line : string) : bool :=
  match words line with
  | source :: _ =>
      negb (swaps_device env path line) &&
      match stat_blk env source with
      | Some d => same_or_descendant (sysfs_device_path env want.1 want.2)
                    (sysfs_device_path env d.1 d.2)
      | None => false
      end
  | [] => false
  end.

(** Nothing the kernel reports uses the block device [want] or a part of it. *)
Definition offline (env : HostEnv) (want : Z * Z) (path : string) : Prop :=
  exists ml, mountinfo env = Some ml /\
    existsb (fun l => mounts_device want l || mounts_descendant env want l) ml = false /\
    existsb (fun l => swaps_device env path l || swaps_descendant env want path l)
      (tail (default [] (swaps env))) = false /\
    default [] (holders_dir env ("/sys/dev/block/" +:+ pretty want.1 +:+ ":"
                  +:+ pretty want.2 +:+ "/holders")) = [].

Lemma pair_eqb (want : Z * Z) ma mi :
  (ma =? want.1) && (mi =? want.2) = bool_decide (Some (ma, mi) = Some want).
Proof.
  destruct want as [a b]. cbn. destruct (Z.eqb_spec ma a), (Z.eqb_spec mi b); cbn; symmetry;
    (apply bool_decide_true || apply bool_decide_false); congruence.
Qed.

Lemma mount_line_flags env want out line :
  let out' := mount_line env want (sysfs_device_path env want.1 want.2) out line in
  mounted out' = mounted out || mounts_device want line /\
  descendant_mounted out' = descendant_mounted out || mounts_descendant env want line /\
  active_swap out' = active_swap out /\ descendant_swap out' = descendant_swap out /\
  has_holders out' = has_holders out.
Proof.
  cbv zeta. unfold mount_line, mounts_device, mounts_descendant.
  destruct (words line) as [|? [|? [|mm [|? [|mnt ?]]]]]; cbn; rewrite ?orb_false_r; try done.
  destruct (parse_major_minor mm) as [[ma mi]|]; cbn [fst snd]; [|by rewrite ?orb_false_r].
  rewrite pair_eqb. destruct (decide (Some (ma, mi) = Some want)) as [E|E].
  - rewrite !bool_decide_true by congruence. cbn. by rewrite ?orb_true_r, ?orb_false_r.
  - rewrite !bool_decide_false by congruence. cbn [negb andb].
    destruct (same_or_descendant _ _); cbn; by rewrite ?orb_true_r, ?orb_false_r.
Qed.

Lemma swap_line_flags env want path out line :
  let out' := swap_line env (canonical_or_self env path) (sysfs_device_path env want.1 want.2)
                out line in
  active_swap out' = active_swap out || swaps_device env path line /\
  descendant_swap out' = descendant_swap out || swaps_descendant env want path line /\
  mounted out' = mounted out /\ descendant_mounted out' = descendant_mounted out /\
  has_holders out' = has_holders out.
Proof.
  cbv zeta. unfold swap_line, swaps_descendant, swaps_device.
  destruct (words line) as [|src ?]; cbn; [by rewrite !orb_false_r|].
  case_bool_decide; cbn; [by rewrite orb_true_r, orb_false_r|].
  rewrite orb_false_r. destruct (stat_blk env src) as [[ma mi]|]; cbn; [|by rewrite orb_false_r].
  destruct (same_or_descendant _ _); cbn; by rewrite ?orb_true_r, ?orb_false_r.
Qed.

Lemma mount_lines_flags env want ml out :
  let out' := foldl (mount_line env want (sysfs_device_path env want.1 want.2)) out ml in
  mounted out' || descendant_mounted out'
  = mounted out || descendant_mounted out
    || existsb (fun l => mounts_device want l || mounts_descendant env want l) ml /\
  active_swap out' = active_swap out /\ descendant_swap out' = descendant_swap out /\
  has_holders out' = has_holders out.
Proof.
  cbv zeta. revert out. induction ml as [|l ml IH]; intros out; cbn [foldl existsb];
    [by rewrite orb_false_r|].
  destruct (IH (mount_line env want (sysfs_device_path env want.1 want.2) out l))
    as (-> & -> & -> & ->).
  destruct (mount_line_flags env want out l) as (-> & -> & -> & -> & ->).
  split; [|done]. by destruct (mounted out), (descendant_mounted out), (mounts_device want l),
    (mounts_descendant env want l).
Qed.

Lemma swap_lines_flags env want path sl out :
  let out' := foldl (swap_line env (canonical_or_self env path)
                       (sysfs_device_path env want.1 want.2)) out sl in
  active_swap out' || descendant_swap out'
  = active_swap out || descendant_swap out
    || existsb (fun l => swaps_device env path l || swaps_descendant env want path l) sl /\
  mounted out' = mounted out /\ descendant_mounted out' = descendant_mounted out /\
  has_holders out' = has_holders out.
Proof.
  cbv zeta. revert out. induction sl as [|l sl IH]; intros out; cbn [foldl existsb];
    [by rewrite orb_false_r|].
  destruct (IH (swap_line env (canonical_or_self env path) (sysfs_device_path env want.1 want.2) out l))
    as (-> & -> & -> & ->).
  destruct (swap_line_flags env want path out l) as (-> & -> & -> & -> & ->).
  split; [|done]. by destruct (active_swap out), (descendant_swap out), (swaps_device env path l),
    (swaps_descendant env want path l).
Qed.

(** The four reasons for a refusal are absent exactly when the device is
    offline. *)
Definition idle (s : DeviceSafety) : bool :=
  negb (mounted s || active_swap s || (descendant_mounted s || descendant_swap s) || has_holders s).

Lemma inspect_spec d want b1 b2 b3 h :
  f_kind (file_of h (fd_ d)) = BlockNode want b1 b2 b3 ->
  wp (inspect_device_safety d) h (fun o h' => quiet h h' /\ o <> OutOfFuel /\
    (calm h -> h' = h) /\
    (forall s, o = Ret s -> (idle s = true <-> offline (h_env h) want (path_ d))) /\
    (calm h -> offline (h_env h) want (path_ d) -> exists s, o = Ret s)).
Proof.
  intros Hk. unfold inspect_device_safety, native_fd. apply wp_bind, sys_call_calm_spec.
  { intros e h1 Hq Hnc. cbn [carry]. apply raise_errno_spec. intros m. by split_and!. }
  intros h1 Hq Hc. pose proof (quiet_file_of _ _ (fd_ d) Hq) as Hf.
  assert (He : h_env h1 = h_env h) by apply Hq.
  cbn [fst snd carry]. rewrite Hf, Hk. apply wp_bind. unfold wp at 1, ask_env.
  cbn [fst snd carry]. rewrite He. set (env := h_env h).
  destruct (mountinfo env) as [ml|] eqn:Hml.
  2: { split_and!; try done. intros _ (ml & H & _). congruence. }
  apply wp_ret. split_and!; try done; [|by eexists]. intros s [= <-].
  match goal with |- context [foldl (mount_line _ _ _) ?o ml] => set (o0 := o) end.
  destruct (mount_lines_flags env want ml o0) as (M1 & M2 & M3 & M4). cbv zeta in *.
  set (o1 := foldl (mount_line _ _ _) o0 ml) in *.
  assert (Hs : exists o2, match swaps env with
      | Some sl => foldl (swap_line env (canonical_or_self env (path_ d))
                     (sysfs_device_path env want.1 want.2)) o1 (tail sl)
      | None => o1 end = o2 /\
    active_swap o2 || descendant_swap o2
    = existsb (fun l => swaps_device env (path_ d) l || swaps_descendant env want (path_ d) l)
        (tail (default [] (swaps env))) /\
    mounted o2 = mounted o1 /\ descendant_mounted o2 = descendant_mounted o1 /\
    has_holders o2 = false).
  { destruct (swaps env) as [sl|]; cbn [default].
    - destruct (swap_lines_flags env want (path_ d) (tail sl) o1) as (S1 & S2 & S3 & S4).
      eexists. split; [reflexivity|]. rewrite S1, S2, S3, S4, M2, M3, M4. by cbn.
    - exists o1. by rewrite M2, M3, M4. }
  destruct Hs as (o2 & -> & S1 & S2 & S3 & S4).
  set (hp := holders_dir env _).
  assert (Hh : idle match hp with Some hs => set_holders hs o2 | None => o2 end
    = negb ((mounted o1 || descendant_mounted o1) || (active_swap o2 || descendant_swap o2)
            || negb (bool_decide (default [] hp = [])))).
  { unfold idle. destruct hp as [hs|]; cbn; rewrite ?S2, ?S3, ?S4, ?orb_false_r; f_equal.
    - rewrite !orb_assoc. by destruct (mounted o1), (descendant_mounted o1), (active_swap o2).
    - by destruct (mounted o1), (descendant_mounted o1), (active_swap o2), (descendant_swap o2). }
  rewrite Hh, M1, S1. cbn [mounted descendant_mounted o0 orb]. unfold offline. fold env.
  rewrite negb_true_iff, !orb_false_iff, negb_false_iff, bool_decide_eq_true.
  split.
  - intros [[H1 H2] H3]. by exists ml.
  - intros (ml' & E & H1 & H2 & H3). rewrite Hml in E. injection E as <-. done.
Qed.

(** ** Backing storage: the walk over the slaves terminates *)

Definition slaves_within (env : HostEnv) (U : gset sysfs_path) : Prop :=
  forall p c, p ∈ U -> Some c ∈ default [] (slaves_dir env p) -> c ∈ U.

Lemma collect_total env U fuel sys out vis :
  slaves_within env U -> sys ∈ U \/ sys = [] -> vis ⊆ U ->
  (size (U ∖ vis) < fuel)%nat ->
  is_Some (collect_backing_devices fuel env sys out vis).
Proof.
  intros HU. revert sys out vis. induction fuel as [|fuel IH]; intros sys out vis Hs Hv Hf; [lia|].
  cbn [collect_backing_devices]. case_decide as E1; [done|]. case_decide as E2; [done|].
  destruct Hs as [Hs|]; [|done].
  pose proof (fun c => HU sys c Hs) as Hch. revert Hch.
  generalize (default [] (slaves_dir env sys)) as children. intros children Hch.
  case_decide as E3; [done|]. clear E3.
  assert (Hstep : forall c o, c ∈ U ->
    is_Some (collect_backing_devices fuel env c o ({[sys]} ∪ vis))).
  { intros c o Hc. apply IH; [by left|apply union_least; [by apply singleton_subseteq_l|done]|].
    assert (size (U ∖ ({[sys]} ∪ vis)) < size (U ∖ vis))%nat; [|lia].
    apply subset_size. split; [apply difference_mono_l, union_subseteq_r|].
    intros Hsub. assert (Hin : sys ∈ U ∖ vis) by (by apply elem_of_difference).
    apply Hsub, elem_of_difference in Hin as [_ Hin]. apply Hin, elem_of_union.
    left. by apply elem_of_singleton. }
  revert out. induction children as [|c children IHc]; intros out; cbn [foldl]; [done|].
  destruct c as [c|]; [|apply IHc; intros c' Hc'; apply Hch; by constructor].
  assert (Hc : is_Some (collect_backing_devices fuel env c out ({[sys]} ∪ vis))) by (apply Hstep, Hch; constructor).
  destruct Hc as [o' Hc].
  match goal with |- is_Some (foldl _ ?x _) => replace x with (Some o') by (symmetry; exact Hc) end.
  apply IHc. intros c' Hc'. apply Hch. by constructor.
Qed.

(** ** Properties *)

(** C8: a write check succeeds for a block device only when nothing in the
    mount table, the swap table or the kernel's holders uses the device or,
    by sysfs ancestry, a part of it; it succeeds then whenever no system call
    fails, and it changes nothing. *)
Theorem write_check_means_offline (d : BlockDevice) (want : Z * Z) (b1 b2 b3 : option Z)
    (h : Host) (o : Outcome unit) (h' : Host)
    (Hkind : f_kind (file_of h (fd_ d)) = BlockNode want b1 b2 b3)
    (Hrun : require_disk_offline_for_write d h = (o, h')) :
  quiet h h' /\ o <> OutOfFuel /\
  (o = Ret tt -> offline (h_env h) want (path_ d)) /\
  (calm h -> offline (h_env h) want (path_ d) -> o = Ret tt).
Proof.
  apply (wp_run _ _ (fun o h' => quiet h h' /\ o <> OutOfFuel /\
    (o = Ret tt -> offline (h_env h) want (path_ d)) /\
    (calm h -> offline (h_env h) want (path_ d) -> o = Ret tt))) in Hrun; [done|].
  clear Hrun o h'. unfold require_disk_offline_for_write, require_offline_for_write.
  apply wp_bind. eapply wp_mono; [by eapply inspect_spec|].
  intros os h1 (Hq & Hne & Hc & Hidle & Hex).
  destruct os as [s|e|st|]; cbn [carry]; try done.
  2: { split_and!; try done. intros Hcalm Hoff. by destruct (Hex Hcalm Hoff). }
  2: { split_and!; try done. intros Hcalm Hoff. by destruct (Hex Hcalm Hoff). }
  specialize (Hidle s eq_refl). unfold idle in Hidle.
  destruct (mounted s); [by split_and!; try done; intros _ H; apply Hidle in H|].
  destruct (active_swap s); [by split_and!; try done; intros _ H; apply Hidle in H|].
  destruct (descendant_mounted s || descendant_swap s);
    [by split_and!; try done; intros _ H; apply Hidle in H|].
  destruct (has_holders s); [by split_and!; try done; intros _ H; apply Hidle in H|].
  assert (Hoff : offline (h_env h) want (path_ d)) by (by apply Hidle).
  apply wp_bind, sys_call_calm_spec.
  - intros e h2 Hq2 Hnc. cbn [carry]. apply raise_errno_spec. intros m.
    split_and!; try done; [by eapply quiet_trans|]. intros Hcalm. by rewrite (Hc Hcalm) in Hnc.
  - intros h2 Hq2 _. cbn [fst snd carry]. apply wp_ret.
    split_and!; try done. by eapply quiet_trans.
Qed.

Definition demo_sys (p : string) : option sysfs_path :=
  if bool_decide (p = "/sys/dev/block/8:0") then Some ["/"; "sys"; "sda"]
  else if bool_decide (p = "/sys/dev/block/8:1") then Some ["/"; "sys"; "sda"; "sda1"]
  else if bool_decide (p = "/sys/dev/block/8:16") then Some ["/"; "sys"; "sdb"]
  else None.
Definition demo_block_env (ml : list string) : HostEnv :=
  mkEnv (fun _ => ""%string) 1 (Some ml) None (fun _ => None) demo_sys
        (fun _ => None) (fun _ => None) (fun _ => None) (fun _ => None) 1.
Definition demo_block_host (ml : list string) : Host :=
  mkHost {[1 := mkFile (BlockNode (8, 0) None None None) [] [];
           2 := mkFile (BlockNode (8, 16) None None None) [] []]}
    (∅ : gmap string Z) ∅ 3 [] demo_fault [] [] 0 (demo_block_env ml).
Definition demo_disk (fd : Z) : BlockDevice :=
  mkDevice fd "/dev/sda" (mkGeometry 0 512 512 true false) true.

(** A mounted partition makes the whole disk refuse. *)
Lemma write_check_means_offline_witness :
  let line := "25 1 8:1 / /mnt rw - ext4 /dev/sda1 rw"%string in
  (require_disk_offline_for_write (demo_disk 1) (demo_block_host [line])).1 <> Ret tt /\
  (require_disk_offline_for_write (demo_disk 1) (demo_block_host [])).1 = Ret tt.
Proof.
  intros line. split.
  - intros E. destruct (write_check_means_offline (demo_disk 1) (8, 0) None None None
      (demo_block_host [line]) _ _ eq_refl (surjective_pairing _)) as (_ & _ & H & _).
    destruct (H E) as (ml & Hml & H1 & _). injection Hml as <-. vm_compute in H1. discriminate H1.
  - destruct (write_check_means_offline (demo_disk 1) (8, 0) None None None
      (demo_block_host []) _ _ eq_refl (surjective_pairing _)) as (_ & _ & _ & H).
    apply H; [by split|]. exists []. by split_and!.
Defined.

(** Two open devices are different objects whose storage does not overlap. *)
Definition disjoint_storage (fuel : nat) (h : Host) (source target : BlockDevice) : Prop :=
  fd_ source <> fd_ target /\
  forall sr s1 s2 s3 tr t1 t2 t3,
    f_kind (file_of h (fd_ source)) = BlockNode sr s1 s2 s3 ->
    f_kind (file_of h (fd_ target)) = BlockNode tr t1 t2 t3 ->
    sr <> tr /\
    overlap (sysfs_device_path (h_env h) sr.1 sr.2) (sysfs_device_path (h_env h) tr.1 tr.2) = false /\
    exists sb tb, backing_set fuel (h_env h) sr = Some sb /\ backing_set fuel (h_env h) tr = Some tb /\
      sb <> ∅ /\ tb <> ∅ /\ forall a b, a ∈ sb -> b ∈ tb -> overlap a b = false.

Lemma copy_check_spec (fuel : nat) (U : gset sysfs_path)
    (source target : BlockDevice) (h : Host) (o : Outcome unit) (h' : Host)
    (HU : slaves_within (h_env h) U) (Hfuel : (size U < fuel)%nat)
    (Hall : forall d, sysfs_device_path (h_env h) d.1 d.2 ∈ U \/
                      sysfs_device_path (h_env h) d.1 d.2 = [])
    (Hrun : require_nonoverlapping_devices fuel source target h = (o, h')) :
  quiet h h' /\ o <> OutOfFuel /\
  (o = Ret tt -> disjoint_storage fuel h source target).
Proof.
  set (Q := fun (o : Outcome unit) h' => quiet h h' /\ o <> OutOfFuel /\
    (o = Ret tt -> disjoint_storage fuel h source target)).
  apply (wp_run _ _ Q) in Hrun; [exact Hrun|]. clear Hrun o h'.
  assert (Hno : forall (o : Outcome unit) h', quiet h h' -> o <> OutOfFuel -> o <> Ret tt -> Q o h')
    by (intros; by split_and!).
  assert (Hbs : forall d, is_Some (backing_set fuel (h_env h) d)).
  { intros d. unfold backing_set. apply (collect_total _ U); [done|apply Hall|set_solver|].
    by rewrite difference_empty_L. }
  unfold require_nonoverlapping_devices, native_fd. apply wp_bind, sys_call_spec.
  { intros e h1 Hq. cbn [carry]. apply raise_errno_spec. intros m. by apply Hno. }
  intros h1 Hq1. cbn [fst snd carry]. rewrite (quiet_file_of _ _ _ Hq1).
  apply wp_bind, sys_call_spec.
  { intros e h2 Hq2. cbn [carry]. apply raise_errno_spec. intros m. apply Hno; try done.
    by eapply quiet_trans. }
  intros h2 Hq2. cbn [fst snd carry].
  assert (Hq : quiet h h2) by (by eapply quiet_trans).
  rewrite (quiet_file_of _ _ _ Hq2), (quiet_file_of _ _ _ Hq1).
  destruct (Z.eqb_spec (fd_ source) (fd_ target)) as [|Hfd]; [by apply Hno|].
  destruct (f_kind (file_of h (fd_ source))) as [|sr s1 s2 s3|] eqn:Ks;
    destruct (f_kind (file_of h (fd_ target))) as [|tr t1 t2 t3|] eqn:Kt;
    try (apply wp_ret; split_and!; [done|done|intros _; split; [done|]; congruence]).
  case_bool_decide as Er; [by apply Hno|]. apply wp_bind. unfold wp at 1, ask_env.
  cbn [fst snd carry]. assert (He : h_env h2 = h_env h) by apply Hq. rewrite He.
  destruct (bool_decide _ || bool_decide _) eqn:E1; [by apply Hno|].
  destruct (same_or_descendant _ _ || same_or_descendant _ _) eqn:E2; [by apply Hno|].
  destruct (Hbs sr) as [sb Hsb], (Hbs tr) as [tb Htb]. rewrite Hsb, Htb.
  destruct (bool_decide (sb = ∅) || bool_decide (tb = ∅)) eqn:E3; [by apply Hno|].
  destruct (existsb _ (elements sb)) eqn:E4; [by apply Hno|].
  apply wp_ret. split_and!; [done|done|]. intros _. split; [done|].
  intros ? ? ? ? ? ? ? ?. rewrite Ks, Kt. intros [= <- <- <- <-] [= <- <- <- <-].
  apply orb_false_iff in E1 as [E1a E1b]. apply orb_false_iff in E2 as [E2a E2b].
  apply orb_false_iff in E3 as [E3a E3b].
  apply bool_decide_eq_false in E3a, E3b.
  split_and!; [done| |].
  - unfold overlap. rewrite E2a, E2b, !orb_false_r. apply bool_decide_eq_false. intros E.
    rewrite <-E in E2a. apply bool_decide_eq_false in E1a.
    revert E1a E2a. clear. generalize (sysfs_device_path (h_env h) sr.1 sr.2). intros l.
    destruct l as [|x l]; [done|]. intros _. cbn. rewrite bool_decide_true by done. cbn.
    induction l as [|y l IH]; [done|]. cbn. by rewrite bool_decide_true by done.
  - exists sb, tb. split_and!; try done. intros a b Ha Hb.
    destruct (overlap a b) eqn:E; [|done]. rewrite <-not_true_iff_false in E4. exfalso. apply E4.
    apply existsb_exists. exists a. split; [by apply list_elem_of_In, elem_of_elements|].
    apply existsb_exists. exists b. split; [by apply list_elem_of_In, elem_of_elements|done].
Qed.


