(* ===== verification/Durable.v ===== *)
(** Durability of a device between flushes.

    The code that rewrites metadata issues a group of writes, flushes, and
    goes on with the next group.  [wstate] describes a device at a point
    between two operations: the bytes that are durable and the writes since;
    [unsettled] describes it after an operation that failed somewhere.  The
    rules below run such code for every behaviour of the host, and
    [unsettled_crash] says what a power cut can leave. *)
From S2P Require Import Prelude Errors Host Device FileUtil Safety.

(** The effect of complete writes. *)
Definition put_all (ws : list (Z * bytes)) (c : bytes) : bytes :=
  foldl (fun c w => splice c w.1 w.2) c ws.

(** [img] is [c] with some bytes of the writes [ws] put in. *)
Definition mixture (ws : list (Z * bytes)) (c img : bytes) : Prop :=
  length img = length c /\
  forall i, img !! i = c !! i \/
    exists o d, (o, d) ∈ ws /\ o <= Z.of_nat i < o + zlen d /\
                img !! i = d !! (i - Z.to_nat o)%nat.

Definition inside (n : Z) (w : Z * bytes) : Prop := 0 <= w.1 /\ w.1 + zlen w.2 <= n.

(** Some chunks of the writes [ws] over the durable bytes [base] are pending,
    or all of [ws] is durable. *)
Definition pending_of (base : bytes) (ws : list (Z * bytes)) (f : File) : Prop :=
  f_durable f = base /\
  Forall (fun p => exists o d, (o, d) ∈ ws /\ chunk o d p) (f_pending f).

Record wstate (d : BlockDevice) (base : bytes) (ws : list (Z * bytes)) (h : Host) : Prop := {
  ws_file : exists f, dev_file h d f /\ pending_of base ws f /\ content f = put_all ws base;
  ws_len : zlen base = size_bytes (geometry d);
  ws_inside : Forall (inside (zlen base)) ws
}.

Definition unsettled (d : BlockDevice) (base : bytes) (ws : list (Z * bytes)) (h : Host) : Prop :=
  Forall (inside (zlen base)) ws /\ zlen base = size_bytes (geometry d) /\
  exists f, dev_file h d f /\
    (pending_of base ws f \/ f_pending f = [] /\ mixture ws base (f_durable f)).

(** Everything but the contents of the device [d] is as it was. *)
Definition only_device (d : BlockDevice) (h h' : Host) : Prop :=
  (forall fd, fd <> fd_ d -> h_files h' !! fd = h_files h !! fd) /\
  h_names h' = h_names h /\ h_durable_names h' = h_durable_names h /\
  h_next h' = h_next h /\ h_env h' = h_env h.

Lemma only_device_refl d h : only_device d h h.
Proof. by repeat split. Qed.
Lemma only_device_trans d h1 h2 h3 :
  only_device d h1 h2 -> only_device d h2 h3 -> only_device d h1 h3.
Proof.
  intros (A1 & A2 & A3 & A4 & A5) (B1 & B2 & B3 & B4 & B5).
  split_and!; try congruence. intros fd Hfd. by rewrite B1, A1.
Qed.
Lemma only_device_quiet d h h' : quiet h h' -> only_device d h h'.
Proof. intros (A1 & A2 & A3 & A4 & A5). split_and!; try done. intros. by rewrite A1. Qed.
Lemma only_device_files d f h h' :
  with_files (<[fd_ d := f]> (h_files h)) h h' -> only_device d h h'.
Proof.
  intros (A1 & A2 & A3 & A4 & A5). split_and!; try done.
  intros fd Hfd. rewrite A1. by apply lookup_insert_ne.
Qed.
#[export] Hint Resolve only_device_refl : fsx.

(** ** Puts and mixtures *)

Lemma put_all_snoc ws w c : put_all (ws ++ [w]) c = splice (put_all ws c) w.1 w.2.
Proof. unfold put_all. by rewrite foldl_app. Qed.

Lemma put_all_app ws ws' c : put_all (ws ++ ws') c = put_all ws' (put_all ws c).
Proof. apply foldl_app. Qed.
Lemma zlen_put_all ws c : Forall (inside (zlen c)) ws -> zlen (put_all ws c) = zlen c.
Proof.
  induction ws as [|w ws IH] using rev_ind; intros H; [done|].
  apply Forall_app in H as [H Hw]. apply Forall_singleton in Hw as [H1 H2].
  specialize (IH H). rewrite put_all_snoc, zlen_splice; lia.
Qed.

(** A range that no write touches keeps its bytes. *)
Definition apart (o n : Z) (w : Z * bytes) : Prop := o + n <= w.1 \/ w.1 + zlen w.2 <= o.

Lemma slice_put_all ws c o n :
  Forall (inside (zlen c)) ws -> 0 <= o -> Forall (apart o n) ws ->
  slice (put_all ws c) o n = slice c o n.
Proof.
  induction ws as [|w ws IH] using rev_ind; intros Hin Ho Hap; [done|].
  apply Forall_app in Hin as [Hin Hw]. apply Forall_singleton in Hw as [H1 H2].
  apply Forall_app in Hap as [Hap Hd]. apply Forall_cons in Hd as [Hd _].
  pose proof (zlen_nonneg w.2). pose proof (zlen_put_all ws c Hin).
  rewrite put_all_snoc, slice_splice_ne; [by apply IH|lia|lia|done|exact Hd].
Qed.

(** The last write of a group that no later one touches can be read back. *)
Lemma slice_put_all_write ws1 w ws2 c :
  Forall (inside (zlen c)) (ws1 ++ w :: ws2) -> Forall (apart w.1 (zlen w.2)) ws2 ->
  slice (put_all (ws1 ++ w :: ws2) c) w.1 (zlen w.2) = w.2.
Proof.
  intros Hin Hap. apply Forall_app in Hin as [Hin1 Hin]. apply Forall_cons in Hin as [[H1 H2] Hin].
  unfold put_all. rewrite foldl_app. cbn [foldl]. fold (put_all ws1 c).
  pose proof (zlen_put_all ws1 c Hin1) as Hz. pose proof (zlen_nonneg w.2).
  assert (Hs : zlen (splice (put_all ws1 c) w.1 w.2) = zlen c) by (rewrite zlen_splice; lia).
  change (slice (put_all ws2 (splice (put_all ws1 c) w.1 w.2)) w.1 (zlen w.2) = w.2).
  rewrite slice_put_all by (rewrite ?Hs; done). apply slice_splice_eq; lia.
Qed.

Lemma mixture_refl ws c : mixture ws c c.
Proof. split; [done|]. by left. Qed.

Lemma mixture_zlen ws c img : mixture ws c img -> zlen img = zlen c.
Proof. intros [H _]. unfold zlen. lia. Qed.

Lemma mixture_mono ws ws' c img : ws ⊆ ws' -> mixture ws c img -> mixture ws' c img.
Proof.
  intros Hs [H1 H2]. split; [done|]. intros i.
  destruct (H2 i) as [|(o & d & Hin & H)]; [by left|right]. exists o, d. split; [by apply Hs|done].
Qed.

Lemma mixture_slice ws c img o n :
  mixture ws c img -> 0 <= o -> Forall (apart o n) ws -> slice img o n = slice c o n.
Proof.
  intros [_ H] Ho Hap. apply list_eq. intros i. rewrite !lookup_slice by lia.
  case_decide; [|done]. destruct (H (Z.to_nat o + i)%nat) as [|(a & d & Hin & Ha & _)]; [done|].
  rewrite list.Forall_forall in Hap. specialize (Hap _ Hin). unfold apart in Hap. cbn in Hap. lia.
Qed.

Lemma mixture_put_all ws c : Forall (inside (zlen c)) ws -> mixture ws c (put_all ws c).
Proof.
  induction ws as [|w ws IH] using rev_ind; intros Hin; [apply mixture_refl|].
  apply Forall_app in Hin as [Hin Hw]. apply Forall_singleton in Hw as [H1 H2].
  pose proof (zlen_put_all ws c Hin) as Hz. pose proof (zlen_nonneg w.2).
  specialize (IH Hin). rewrite put_all_snoc. split.
  - rewrite length_splice by lia. apply IH.
  - intros i. rewrite lookup_splice by lia.
    assert (Hold : put_all ws c !! i = c !! i \/ exists o d, (o, d) ∈ ws ++ [w] /\
      o <= Z.of_nat i < o + zlen d /\ put_all ws c !! i = d !! (i - Z.to_nat o)%nat).
    { destruct (proj2 IH i) as [|(o & d & Ho & Hr)]; [by left|right].
      exists o, d. split; [apply elem_of_app; by left|done]. }
    repeat case_decide; [exact Hold| |exact Hold].
    right. exists w.1, w.2. split; [|split; [lia|done]].
    apply elem_of_app. right. rewrite <-surjective_pairing. by apply list_elem_of_singleton.
Qed.

(** One chunk more keeps a mixture. *)
Lemma mixture_apply ws base c p :
  mixture ws base c -> (exists o d, (o, d) ∈ ws /\ chunk o d p /\ inside (zlen base) (o, d)) ->
  mixture ws base (apply_write c p).
Proof.
  intros Hm (o & d & Hin & (H1 & H2 & H3) & [H4 H5]). cbn [fst snd] in H4, H5.
  pose proof (mixture_zlen _ _ _ Hm) as Hz. pose proof (zlen_nonneg p.2).
  unfold apply_write. rewrite pad_to_id by lia. split.
  - rewrite length_splice by lia. apply Hm.
  - intros i. rewrite lookup_splice by lia. repeat case_decide; [apply Hm| |apply Hm].
    right. exists o, d. split; [done|]. split; [lia|].
    rewrite H3, lookup_slice, decide_True by lia. f_equal. lia.
Qed.

Lemma pending_mixture base ws f :
  pending_of base ws f -> Forall (inside (zlen base)) ws -> mixture ws base (content f).
Proof.
  intros [Hd Hp] Hin. unfold content. rewrite Hd.
  assert (H : forall l c, Forall (fun p => exists o d, (o, d) ∈ ws /\ chunk o d p) l ->
    mixture ws base c -> mixture ws base (foldl apply_write c l)).
  { induction l as [|p l IH]; intros c Hl Hm; [done|]. apply Forall_cons in Hl as [Hpc Hl].
    cbn [foldl]. apply IH; [done|]. apply mixture_apply; [done|].
    destruct Hpc as (o & d & H1 & H2). exists o, d. split_and!; try done.
    rewrite list.Forall_forall in Hin. by apply (Hin _ H1). }
  apply H; [done|apply mixture_refl].
Qed.

(** ** What a power cut leaves *)

Lemma unsettled_crash d base ws h img :
  unsettled d base ws h -> crash_image (file_of h (fd_ d)) img -> mixture ws base img.
Proof.
  intros (Hin & Hlen & f & Hf & Hst). rewrite (dev_file_of _ _ _ Hf). intros [Hl Hb].
  destruct Hst as [[Hd Hp]|[Hp Hm]].
  - rewrite Hd in Hl, Hb. split; [done|]. intros i.
    destruct (Hb i) as [|(o & dd & Hpin & Hi & Hv)]; [by left|right].
    rewrite list.Forall_forall in Hp. destruct (Hp _ Hpin) as (o' & d' & Hw & H1 & H2 & H3).
    cbn [fst snd] in *. exists o', d'. split; [done|]. split; [lia|].
    rewrite Hv, H3. rewrite list.Forall_forall in Hin. destruct (Hin _ Hw). cbn [fst snd] in *.
    rewrite lookup_slice, decide_True by lia. f_equal. lia.
  - rewrite Hp in Hb. assert (img = f_durable f) as ->; [|done]. apply list_eq. intros i.
    destruct (Hb i) as [|(o & dd & Hpin & _)]; [done|]. by apply elem_of_nil in Hpin.
Qed.

(** Without writes to come, a power cut leaves the durable bytes. *)
Lemma settled_crash d base h img :
  unsettled d base [] h -> crash_image (file_of h (fd_ d)) img -> img = base.
Proof.
  intros Hu Hc. destruct (unsettled_crash _ _ _ _ _ Hu Hc) as [_ H]. apply list_eq. intros i.
  destruct (H i) as [|(o & w & Hin & _)]; [done|]. by apply elem_of_nil in Hin.
Qed.

Lemma wstate_unsettled d base ws h : wstate d base ws h -> unsettled d base ws h.
Proof. intros [(f & H1 & H2 & H3) H4 H5]. split; [done|]. split; [done|]. exists f. auto. Qed.

Lemma settled_image d base h img :
  wstate d base [] h -> crash_image (file_of h (fd_ d)) img -> img = base.
Proof. intros Hw. by apply settled_crash, wstate_unsettled. Qed.

Lemma wstate_quiet d base ws h h' : quiet h h' -> wstate d base ws h -> wstate d base ws h'.
Proof.
  intros Hq [(f & H1 & H2) H4 H5]. split; try done. exists f.
  split; [by eapply dev_file_quiet|done].
Qed.
Lemma unsettled_quiet d base ws h h' : quiet h h' -> unsettled d base ws h -> unsettled d base ws h'.
Proof.
  intros Hq (H1 & H2 & f & Hf & H3). split_and!; try done. exists f.
  split; [by eapply dev_file_quiet|done].
Qed.

Lemma unsettled_mono d base ws ws' h :
  ws ⊆ ws' -> Forall (inside (zlen base)) ws' -> unsettled d base ws h -> unsettled d base ws' h.
Proof.
  intros Hs Hin (H1 & H2 & f & Hf & Hst). split_and!; try done. exists f. split; [done|].
  destruct Hst as [[Hd Hp]|[Hp Hm]]; [left|right].
  - split; [done|]. eapply Forall_impl; [exact Hp|]. intros p (o & d' & ? & ?).
    exists o, d'. split; [by apply Hs|done].
  - split; [done|]. by eapply mixture_mono.
Qed.

(** A device without pending writes. *)
Lemma wstate_start d h f :
  dev_file h d f -> f_pending f = [] -> wstate d (f_durable f) [] h.
Proof.
  intros Hf Hp. pose proof (zlen_content _ _ (proj2 Hf)) as Hl.
  assert (Hc : content f = f_durable f) by (unfold content; by rewrite Hp).
  rewrite Hc in Hl. split; [|done|by apply Forall_nil].
  exists f. split; [done|]. split; [split; [done|rewrite Hp; by apply Forall_nil]|done].
Qed.

(** ** The rules *)

Lemma durable_write d base ws off data h :
  wstate d base ws h -> 0 <= off ->
  wp (write_exact d off data) h (fun o h' => o <> OutOfFuel /\ only_device d h h' /\
    (o = Ret tt -> wstate d base (ws ++ [(off, data)]) h') /\
    (unsettled d base ws h' \/
     inside (zlen base) (off, data) /\ unsettled d base (ws ++ [(off, data)]) h')).
Proof.
  intros [(f & Hf & [Hd Hp] & Hc) Hlen Hin] Ho.
  pose proof (zlen_content _ _ (proj2 Hf)) as Hl.
  eapply wp_mono; [by apply write_exact_spec|].
  intros o h' ((Hne & ws' & Hch & Hfiles & Hfull) & Hok & Hroom).
  split; [done|]. split; [by eapply only_device_files|].
  assert (Hsub : Forall (fun p => exists o d, (o, d) ∈ ws ++ [(off, data)] /\ chunk o d p) (f_pending f)).
  { eapply Forall_impl; [exact Hp|]. intros p (a & b & H1 & H2). exists a, b.
    split; [apply elem_of_app; by left|done]. }
  assert (Hpend : pending_of base (ws ++ [(off, data)]) (add_writes ws' f)).
  { split; [done|]. cbn. apply Forall_app. split; [done|].
    eapply Forall_impl; [exact Hch|]. intros p Hpc. exists off, data.
    split; [apply elem_of_app; right; by apply list_elem_of_singleton|done]. }
  assert (Hdf : off + zlen data <= size_bytes (geometry d) -> dev_file h' d (add_writes ws' f)).
  { intros Hr. split; [destruct Hfiles as [-> _]; apply lookup_insert_eq|].
    eapply file_ok_add_writes; [apply Hf|done| |done]. lia. }
  assert (Hins : off + zlen data <= size_bytes (geometry d) ->
    Forall (inside (zlen base)) (ws ++ [(off, data)])).
  { intros Hr. apply Forall_app. split; [done|]. apply Forall_singleton. split; cbn; lia. }
  split.
  - intros Hret. destruct (Hok Hret) as [_ Hr]. split; [|done|by apply Hins].
    exists (add_writes ws' f). split; [by apply Hdf|]. split; [done|].
    rewrite (Hfull tt Hret), put_all_snoc, Hc. done.
  - destruct Hroom as [Hr|Hq].
    + right. split; [split; cbn; lia|]. split; [by apply Hins|]. split; [done|].
      exists (add_writes ws' f). split; [by apply Hdf|by left].
    + left. apply (unsettled_quiet _ _ _ h h' Hq). apply wstate_unsettled.
      split; [|done|done]. by exists f.
Qed.

Lemma durable_flush d base ws h :
  wstate d base ws h ->
  wp (flush d) h (fun o h' => o <> OutOfFuel /\ only_device d h h' /\
    (o = Ret tt -> wstate d (put_all ws base) [] h') /\
    (unsettled d base ws h' \/ wstate d (put_all ws base) [] h')).
Proof.
  intros Hw. pose proof Hw as [(f & Hf & Hp & Hc) Hlen Hin].
  eapply wp_mono; [by eapply flush_spec, Hf|].
  intros o h' (Hne & Hst). split; [done|].
  destruct Hst as [Hfiles|[Hq Hno]].
  - split; [by eapply only_device_files|].
    assert (Hs : wstate d (put_all ws base) [] h').
    { split; [|by rewrite zlen_put_all|by apply Forall_nil].
      exists (synced f). split.
      - split; [destruct Hfiles as [-> _]; apply lookup_insert_eq|]. apply file_ok_synced, Hf.
      - split; [split; [done|by apply Forall_nil]|done]. }
    split; [intros _; exact Hs|right; exact Hs].
  - split; [by apply only_device_quiet|]. split; [intros E; by destruct (Hno E)|]. left.
    apply (unsettled_quiet _ _ _ h h' Hq). by apply wstate_unsettled.
Qed.

Lemma durable_read d base ws off n h :
  wstate d base ws h -> 0 <= off -> 0 <= n ->
  wp (read_exact d off n) h (fun o h' => o <> OutOfFuel /\ quiet h h' /\
    forall bs, o = Ret bs -> bs = slice (put_all ws base) off n /\ zlen bs = n /\
      off + n <= zlen base).
Proof.
  intros [(f & Hf & Hp & Hc) Hlen Hin] Ho Hn.
  eapply wp_mono; [by apply read_exact_spec|]. intros o h' (Hq & Hne & Hv).
  split_and!; try done. intros bs Hbs. destruct (Hv bs Hbs) as (-> & ? & ?).
  rewrite <-Hc, Hlen. split_and!; done.
Qed.

(** Another device is not affected. *)
Lemma wstate_other d d' base ws h h' :
  fd_ d <> fd_ d' -> only_device d' h h' -> wstate d base ws h -> wstate d base ws h'.
Proof.
  intros Hne (Hfiles & _) [(f & [Hf Hok] & H) Hl Hin]. split; [|done|done]. exists f.
  split; [split; [by rewrite Hfiles|done]|done].
Qed.

(** ** Groups of writes *)

(** Where a sequence of groups [gs] over the durable bytes [base] may have
    stopped: inside one of the groups, or behind the last one. *)
Fixpoint stopped (d : BlockDevice) (base : bytes) (gs : list (list (Z * bytes))) (h : Host) : Prop :=
  match gs with
  | [] => unsettled d base [] h
  | g :: gs => (exists ws, ws ⊆ g /\ unsettled d base ws h) \/ stopped d (put_all g base) gs h
  end.

(** An outcome that is no value. *)
Definition aborted {A} (o : Outcome A) : Prop :=
  match o with Fail _ | Exit _ => True | _ => False end.

Lemma wp_group_write {A} d base ws off data (k : M A) h (Q : Outcome A -> Host -> Prop) :
  wstate d base ws h -> 0 <= off ->
  (forall h', wstate d base (ws ++ [(off, data)]) h' -> only_device d h h' -> wp k h' Q) ->
  (forall (o : Outcome A) h' ws', aborted o -> only_device d h h' -> ws' ⊆ ws ++ [(off, data)] ->
     unsettled d base ws' h' -> Q o h') ->
  wp (write_exact d off data;; k) h Q.
Proof.
  intros Hw Ho Hk Hab. apply wp_bind. eapply wp_mono; [by apply durable_write|].
  intros o h' (Hne & Hod & Hok & Hun).
  assert (Hstop : forall o' : Outcome A, aborted o' -> Q o' h').
  { intros o' Ha. destruct Hun as [Hun|[_ Hun]].
    - eapply Hab; [done|done| |exact Hun]. set_solver.
    - by eapply Hab. }
  destruct o as [[]|e|s|]; cbn [carry]; try done; [|by apply Hstop..].
  apply Hk; [|done]. by apply Hok.
Qed.

Lemma wp_group_flush {A} d base ws (k : M A) h (Q : Outcome A -> Host -> Prop) :
  wstate d base ws h ->
  (forall h', wstate d (put_all ws base) [] h' -> only_device d h h' -> wp k h' Q) ->
  (forall (o : Outcome A) h', aborted o -> only_device d h h' ->
     unsettled d base ws h' \/ unsettled d (put_all ws base) [] h' -> Q o h') ->
  wp (flush d;; k) h Q.
Proof.
  intros Hw Hk Hab. apply wp_bind. eapply wp_mono; [by apply durable_flush|].
  intros o h' (Hne & Hod & Hok & Hun).
  assert (Hstop : forall o' : Outcome A, aborted o' -> Q o' h').
  { intros o' Ha. apply Hab; [done|done|]. destruct Hun as [|Hun]; [by left|right].
    by apply wstate_unsettled. }
  destruct o as [[]|e|s|]; cbn [carry]; try done; [|by apply Hstop..].
  apply Hk; [|done]. by apply Hok.
Qed.

(** ** Computations that only read the device *)

Definition reader {A} (d : BlockDevice) (m : M A) : Prop :=
  forall h f, dev_file h d f -> wp m h (fun o h' => quiet h h' /\ o <> OutOfFuel).

Lemma reader_ret {A} d (a : A) : reader d (mret a).
Proof. by intros h f _. Qed.
Lemma reader_raise {A} d e : reader d (raise (A:=A) e).
Proof. by intros h f _. Qed.
Lemma reader_failM {A} d c msg : reader d (failM (A:=A) c msg).
Proof. by intros h f _. Qed.
Lemma reader_lift {A} d (r : Result A) : reader d (lift r).
Proof. by intros h f _; destruct r. Qed.
Lemma reader_bind {A B} d (m : M A) (k : A -> M B) :
  reader d m -> (forall a, reader d (k a)) -> reader d (m ≫= k).
Proof.
  intros Hm Hk h f Hf. apply wp_bind. eapply wp_mono; [exact (Hm h f Hf)|].
  intros o h1 [Hq Hne]. destruct o as [a|e|s|]; cbn [carry]; try done.
  eapply wp_mono; [exact (Hk a h1 f (dev_file_quiet _ _ _ _ Hq Hf))|]. intros o h2 [Hq2 Hne2].
  split; [by eapply quiet_trans|done].
Qed.
Lemma reader_attempt {A} d (m : M A) : reader d m -> reader d (attempt m).
Proof.
  intros Hm h f Hf. apply wp_attempt. eapply wp_mono; [exact (Hm h f Hf)|].
  intros o h1 [Hq Hne]. by destruct o.
Qed.
Lemma reader_read d off n : 0 <= off -> 0 <= n -> reader d (read_exact d off n).
Proof.
  intros Ho Hn h f Hf. eapply wp_mono; [by eapply read_exact_spec|]. by intros o h' (? & ? & _).
Qed.
Lemma reader_quiet {A} d (m : M A) :
  (forall h, wp m h (fun o h' => quiet h h' /\ o <> OutOfFuel)) -> reader d m.
Proof. by intros H h f _. Qed.
#[export] Hint Resolve reader_ret reader_raise reader_failM reader_lift reader_attempt : fsx.

(** Structure of a reading computation; reads leave their ranges to prove. *)
Ltac reads :=
  repeat first
    [ progress intros
    | apply reader_bind
    | apply reader_ret | apply reader_failM | apply reader_raise | apply reader_lift
    | apply reader_attempt | apply reader_read
    | match goal with
      | |- reader _ (if ?b then _ else _) => let E := fresh "E" in destruct b eqn:E
      | |- reader _ (let '(_, _) := ?p in _) => destruct p
      | |- reader _ (match ?r with Ok _ => _ | Err _ => _ end) => destruct r
      end
    | progress cbv zeta ].

Lemma wp_reader {A B} d base ws (m : M A) (k : A -> M B) h (Q : Outcome B -> Host -> Prop) :
  wstate d base ws h -> reader d m ->
  (forall a h', m h = (Ret a, h') -> quiet h h' -> wstate d base ws h' -> wp (k a) h' Q) ->
  (forall (o : Outcome B) h', aborted o -> quiet h h' -> wstate d base ws h' -> Q o h') ->
  wp (m ≫= k) h Q.
Proof.
  intros Hw Hm Hk Hab. pose proof Hw as [(f & Hf & _) _ _].
  pose proof (Hm h f Hf) as Hr. apply wp_bind. unfold wp in Hr |- * at 1.
  destruct (m h) as [o h'] eqn:E; cbn [fst snd] in *. destruct Hr as [Hq Hne].
  assert (Hw' : wstate d base ws h') by (by eapply wstate_quiet).
  destruct o as [a|e|s|]; cbn [carry]; [by apply Hk|by apply Hab..|done].
Qed.

(** A step that changes no file, whatever it reads. *)
Lemma wp_quiet_step {A B} (m : M A) (k : A -> M B) h (Q : Outcome B -> Host -> Prop) :
  wp m h (fun o h' => quiet h h' /\ o <> OutOfFuel) ->
  (forall a h', m h = (Ret a, h') -> quiet h h' -> wp (k a) h' Q) ->
  (forall (o : Outcome B) h', aborted o -> quiet h h' -> Q o h') ->
  wp (m ≫= k) h Q.
Proof.
  intros Hr Hk Hab. apply wp_bind. unfold wp in Hr |- * at 1.
  destruct (m h) as [o h'] eqn:E; cbn [fst snd] in *. destruct Hr as [Hq Hne].
  destruct o as [a|e|s|]; cbn [carry]; [by apply Hk|by apply Hab..|done].
Qed.

(** ** The safety checks only read *)

Lemma sys_call_quiet {A} (ok : Host -> A * Host) h :
  (forall h0, quiet h0 (ok h0).2) ->
  wp (sys_call ok) h (fun o h' => quiet h h' /\ o <> OutOfFuel).
Proof.
  intros Hok. unfold wp, sys_call, next_event.
  destruct (h_events h) as [|[|n|e p] es]; cbn.
  - specialize (Hok h). by destruct (ok h).
  - specialize (Hok (set_events es h)). by destruct (ok _).
  - specialize (Hok (set_events es h)). by destruct (ok _).
  - by repeat split.
Qed.

Lemma reader_fstat d fd : reader d (sys_fstat fd).
Proof. apply reader_quiet. intros h. by apply sys_call_quiet. Qed.
Lemma reader_flock d fd : reader d (sys_flock fd).
Proof. apply reader_quiet. intros h. by apply sys_call_quiet. Qed.
Lemma reader_reread d fd : reader d (sys_reread_partitions fd).
Proof.
  apply reader_quiet. intros h. unfold wp, sys_reread_partitions, next_event.
  destruct (h_events h) as [|[|n|e p] es]; by repeat split.
Qed.
Lemma cancel_spec h : wp cancel_requested h (fun o h' => quiet h h' /\ o <> OutOfFuel).
Proof.
  unfold wp, cancel_requested, next_event. destruct (h_events h) as [|[] es]; cbn; by repeat split.
Qed.
Lemma reader_cancel d : reader d cancel_requested.
Proof.
  apply reader_quiet, cancel_spec.
Qed.
Lemma reader_env d : reader d ask_env.
Proof. by intros h f _. Qed.
Lemma reader_raise_errno {A} d c msg e : reader d (raise_errno (A:=A) c msg e).
Proof. by intros h f _. Qed.

Lemma reader_inspect d d' : reader d (inspect_device_safety d').
Proof.
  unfold inspect_device_safety. apply reader_bind; [apply reader_fstat|].
  intros [e|[|r g s p|e]]; [apply reader_raise_errno|..]; (apply reader_bind; [apply reader_env|]);
    intros env; [apply reader_ret| |apply reader_ret].
  cbv zeta. destruct (mountinfo env); [apply reader_ret|apply reader_failM].
Qed.

Lemma reader_offline d d' : reader d (require_disk_offline_for_write d').
Proof.
  unfold require_disk_offline_for_write, require_offline_for_write.
  apply reader_bind; [apply reader_inspect|]. intros s.
  repeat case_match; try apply reader_failM.
  apply reader_bind; [apply reader_flock|]. intros [e|u]; [apply reader_raise_errno|apply reader_ret].
Qed.

(** ** Fresh files *)

(** The run left every inode below the next one alone, and the durable names. *)
Definition fresh_only (h h' : Host) : Prop :=
  (forall fd, fd < h_next h -> h_files h' !! fd = h_files h !! fd) /\
  h_next h <= h_next h' /\ h_env h' = h_env h.

Lemma fresh_only_refl h : fresh_only h h.
Proof. by split_and!. Qed.
Lemma fresh_only_trans h1 h2 h3 : fresh_only h1 h2 -> fresh_only h2 h3 -> fresh_only h1 h3.
Proof.
  intros (A1 & A2 & A3) (B1 & B2 & B3). split_and!; [|lia|congruence].
  intros fd Hfd. rewrite B1 by lia. by apply A1.
Qed.
Lemma fresh_only_quiet h h' : quiet h h' -> fresh_only h h'.
Proof. intros (E1 & E2 & E3 & E4 & E5). split_and!; [|lia|done]. intros. by rewrite E1. Qed.
Lemma fresh_only_names h h' : names_only h h' -> fresh_only h h'.
Proof. intros (E1 & E2 & E3). split_and!; [|lia|done]. intros. by rewrite E1. Qed.
Lemma fresh_only_device d h0 h h' :
  h_next h0 <= fd_ d -> fresh_only h0 h -> only_device d h h' -> fresh_only h0 h'.
Proof.
  intros Hd (A1 & A2 & A3) (B1 & _ & _ & B4 & B5). split_and!; [|lia|congruence].
  intros fd Hfd. rewrite B1 by lia. by apply A1.
Qed.
#[export] Hint Resolve fresh_only_refl : fsx.

(** A device opened before is not affected. *)
Lemma wstate_fresh d base ws h h' :
  wstate d base ws h -> fd_ d < h_next h -> fresh_only h h' -> wstate d base ws h'.
Proof.
  intros [(f & [Hf Hok] & H2) H4 H5] Hd (A1 & _ & _). split; [|done|done].
  exists f. split; [|done]. split; [|done]. by rewrite A1.
Qed.

Lemma truncated_new n : 0 <= n -> truncated n new_file = mkFile Regular (zeros n) [].
Proof.
  intros Hn. unfold truncated, new_file, pad_to. cbn [f_kind f_durable f_pending].
  f_equal. rewrite app_nil_l. change (zlen []) with 0. rewrite Z.sub_0_r.
  apply take_ge. unfold zeros. rewrite length_replicate. lia.
Qed.

Lemma unlink_ignored_spec path h :
  wp (unlink_ignored path) h (fun o h' => o = Ret tt /\ fresh_only h h' /\
    h_durable_names h' = h_durable_names h).
Proof.
  unfold wp, unlink_ignored, next_event.
  destruct (h_events h) as [|[|n|e p] es]; cbn; (split; [done|split; [|done]]);
    (split_and!; [done|cbn; lia|done]).
Qed.

Lemma geometry_for_regular fd h n :
  0 <= n -> h_files h !! fd = Some (mkFile Regular (zeros n) []) ->
  wp (geometry_for fd true) h (fun o h' => quiet h h' /\ o <> OutOfFuel /\
    forall g, o = Ret g -> g = mkGeometry n 512 512 false false).
Proof.
  intros Hn Hf. unfold geometry_for. apply wp_bind. apply sys_call_spec.
  - intros e h1 Hq. cbn [carry]. by split_and!.
  - intros h1 Hq. cbn [fst snd carry].
    assert (Hf1 : file_of h1 fd = mkFile Regular (zeros n) [])
      by (rewrite (quiet_file_of _ _ _ Hq); unfold file_of; by rewrite Hf).
    rewrite Hf1. cbn [f_kind]. cbv zeta. cbn [is_block_device negb orb].
    apply wp_bind. unfold wp at 1, get_host. cbn [fst snd carry]. apply wp_ret.
    split_and!; [done|done|]. intros g [= <-]. rewrite Hf1.
    cbn [content f_durable f_pending foldl logical_sector physical_sector is_block_device read_only].
    by rewrite zlen_zeros.
Qed.

(** A new file of [size] zero bytes under a name that was free. *)
Lemma create_file_fresh path size h :
  0 <= size ->
  wp (create_file path size) h (fun o h' => o <> OutOfFuel /\ fresh_only h h' /\
    h_durable_names h' = h_durable_names h /\
    forall d, o = Ret d -> fd_ d = h_next h /\ h_next h < h_next h' /\
      h_names h' = <[path := h_next h]> (h_names h) /\ size_bytes (geometry d) = size /\
      h_files h' !! fd_ d = Some (mkFile Regular (zeros size) [])).
Proof.
  intros Hs. unfold create_file. destruct (off_max <? size); [by split_and!; auto with fsx|].
  apply wp_bind. apply sys_call_res_spec.
  { intros e h1 Hq. cbn [carry]. apply raise_errno_spec. intros m.
    split_and!; [done|by apply fresh_only_quiet|apply Hq|done]. }
  intros h1 Hq. pose proof Hq as (Hf1 & Hn1 & Hd1 & Hx1 & He1). rewrite Hn1.
  destruct (h_names h !! path) as [x|] eqn:Ep; cbn [fst snd carry].
  { apply raise_errno_spec. intros m.
    split_and!; [done|by apply fresh_only_quiet|done|done]. }
  set (fd := h_next h1). set (h2 := set_next _ _).
  assert (Hfr2 : fresh_only h h2).
  { split_and!; cbn; [|lia|done]. intros fd' Hfd. rewrite lookup_insert_ne by lia. by rewrite Hf1. }
  assert (Hd2 : h_durable_names h2 = h_durable_names h) by done.
  assert (Hn2 : h_names h2 = <[path := h_next h]> (h_names h)) by (unfold fd in *; cbn; by rewrite ?Hn1, ?Hx1).
  assert (Hf2 : file_of h2 fd = new_file) by (unfold file_of; cbn; by rewrite lookup_insert_eq).
  assert (Hx2 : h_next h2 = fd + 1) by done. clearbody h2.
  assert (Hclean : forall e h3, fresh_only h h3 -> h_durable_names h3 = h_durable_names h ->
    wp (unlink_ignored path;; raise e) h3 (fun o h' => o <> OutOfFuel /\ fresh_only h h' /\
      h_durable_names h' = h_durable_names h /\
      forall d : BlockDevice, o = Ret d -> fd_ d = h_next h /\ h_next h < h_next h' /\
        h_names h' = <[path := h_next h]> (h_names h) /\ size_bytes (geometry d) = size /\
        h_files h' !! fd_ d = Some (mkFile Regular (zeros size) []))).
  { intros e h3 Hfr Hdn. apply wp_bind. eapply wp_mono; [apply unlink_ignored_spec|].
    intros o h4 (-> & Hfr4 & Hdn4). cbn [carry]. unfold wp, raise. cbn [fst snd].
    split_and!; [done|by eapply fresh_only_trans|by rewrite Hdn4|done]. }
  apply wp_bind. apply sys_call_spec.
  { intros e h3 Hq3. cbn [carry]. apply wp_bind. eapply wp_mono; [apply unlink_ignored_spec|].
    intros o h4 (-> & Hfr4 & Hdn4). cbn [carry]. apply raise_errno_spec. intros m.
    split_and!; [done| | |done].
    - eapply fresh_only_trans; [exact Hfr2|]. eapply fresh_only_trans; [by apply fresh_only_quiet|done].
    - rewrite Hdn4. destruct Hq3 as (_ & _ & -> & _). done. }
  intros h3 Hq3. cbn [fst snd carry]. rewrite (quiet_file_of _ _ _ Hq3), Hf2, truncated_new by done.
  set (h4 := set_file _ _ h3). pose proof Hq3 as (Hf3 & Hn3 & Hd3 & Hx3 & He3).
  assert (Hfd : fd = h_next h) by (unfold fd; congruence).
  assert (Hfr4 : fresh_only h h4).
  { destruct Hfr2 as (A1 & A2 & A3). split_and!; cbn; [|lia|congruence].
    intros fd' Hfd'. rewrite lookup_insert_ne by lia. rewrite Hf3. by apply A1. }
  assert (Hl4 : h_files h4 !! fd = Some (mkFile Regular (zeros size) [])) by (cbn; apply lookup_insert_eq).
  assert (Hd4 : h_durable_names h4 = h_durable_names h) by (cbn; congruence).
  assert (Hn4 : h_names h4 = <[path := h_next h]> (h_names h)) by (cbn; congruence).
  assert (Hx4 : h_next h4 = fd + 1) by (cbn; congruence). clearbody h4.
  apply wp_bind, wp_attempt. eapply wp_mono; [by apply geometry_for_regular|].
  intros o h5 (Hq5 & Hne5 & Hg). pose proof Hq5 as (Hf5 & Hn5 & Hd5 & Hx5 & He5).
  assert (Hfr5 : fresh_only h h5) by (eapply fresh_only_trans; [exact Hfr4|by apply fresh_only_quiet]).
  destruct o as [g|e|s|]; cbn [carry]; [|by apply Hclean; [|congruence]|by split_and!; [| |congruence|]|done].
  rewrite (Hg g eq_refl). apply wp_ret. split_and!; [done|done|congruence|].
  intros d [= <-]. cbn [fd_ geometry size_bytes]. split_and!; [done|lia|congruence|done|congruence].
Qed.

Lemma create_file_spec path size h :
  0 <= size ->
  wp (create_file path size) h (fun o h' => o <> OutOfFuel /\ fresh_only h h' /\
    h_durable_names h' = h_durable_names h /\
    forall d, o = Ret d -> fd_ d = h_next h /\ wstate d (zeros size) [] h' /\
      h_names h' = <[path := h_next h]> (h_names h) /\
      fd_ d < h_next h').
Proof.
  intros Hs. eapply wp_mono; [by apply create_file_fresh|]. intros o h' (H1 & H2 & H3 & H4).
  split_and!; [done..|]. intros d ->. destruct (H4 d eq_refl) as (Ed & Hx & Hn & Hsz & Hf).
  split_and!; [done| |done|by rewrite Ed].
  apply (wstate_start d h' (mkFile Regular (zeros size) [])); [|done].
  split; [done|]. split; [rewrite Hsz; by apply zlen_zeros|by apply Forall_nil].
Qed.

(** ** Computations that change nothing and return a value with a property *)

Definition yields {A} (m : M A) (h : Host) (P : A -> Prop) : Prop :=
  wp m h (fun o h' => quiet h h' /\ o <> OutOfFuel /\ forall a, o = Ret a -> P a).

Lemma yields_ret {A} (a : A) h (P : A -> Prop) : P a -> yields (mret a) h P.
Proof. intros Ha. apply wp_ret. split_and!; [apply quiet_refl|done|]. by intros a' [= <-]. Qed.
Lemma yields_failM {A} c msg h (P : A -> Prop) : yields (failM c msg) h P.
Proof. by split_and!. Qed.
Lemma yields_lift {A} (r : Result A) h (P : A -> Prop) :
  (forall a, r = Ok a -> P a) -> yields (lift r) h P.
Proof. intros H. destruct r as [a|e]; [apply yields_ret; by apply H|by split_and!]. Qed.
Lemma yields_mono {A} (m : M A) h (P P' : A -> Prop) :
  yields m h P -> (forall a, P a -> P' a) -> yields m h P'.
Proof. unfold yields. intros H Hi. eapply wp_mono; [exact H|]. intros o h' (? & ? & ?). split_and!; eauto. Qed.
Lemma yields_bind {A B} (m : M A) (k : A -> M B) h (P : A -> Prop) (Q : B -> Prop) :
  yields m h P -> (forall a h', P a -> quiet h h' -> yields (k a) h' Q) -> yields (m ≫= k) h Q.
Proof.
  unfold yields in *. intros Hm Hk. apply wp_bind. eapply wp_mono; [exact Hm|].
  intros o h1 (Hq & Hne & Hv). destruct o as [a|e|s|]; cbn [carry]; [|by split_and!..|done].
  eapply wp_mono; [exact (Hk a h1 (Hv a eq_refl) Hq)|]. intros o h2 (Hq2 & Hne2 & Hv2).
  split_and!; [by eapply quiet_trans|done|done].
Qed.
Lemma yields_assoc {A B C} (m : M A) (f : A -> M B) (g : B -> M C) h (Q : C -> Prop) :
  yields (m ≫= (fun a => f a ≫= g)) h Q -> yields ((m ≫= f) ≫= g) h Q.
Proof.
  intros H. unfold yields, wp in *.
  assert (E : ((m ≫= f) ≫= g) h = (m ≫= (fun a => f a ≫= g)) h); [|by rewrite E].
  unfold mbind, M_bind. by destruct (m h) as [[a|e|s|] h'].
Qed.
Lemma yields_attempt {A} (m : M A) h (P : Result A -> Prop) :
  yields m h (fun a => P (Ok a)) -> (forall e, P (Err e)) -> yields (attempt m) h P.
Proof.
  unfold yields in *. intros Hm He. apply wp_attempt. eapply wp_mono; [exact Hm|]. intros o h1 (Hq & Hne & Hv).
  destruct o as [a|e|s|]; split_and!; try done; intros r [= <-]; auto.
Qed.
Lemma yields_reader {A} d base ws (m : M A) h (P : A -> Prop) :
  wstate d base ws h -> reader d m -> (forall a, P a) -> yields m h P.
Proof.
  unfold yields. intros [(f & Hf & _) _ _] Hm HP. eapply wp_mono; [exact (Hm h f Hf)|]. intros o h' [Hq Hne].
  split_and!; auto.
Qed.
Lemma yields_read d base ws off n h :
  wstate d base ws h -> 0 <= off -> 0 <= n ->
  yields (read_exact d off n) h (fun bs => bs = slice (put_all ws base) off n /\ zlen bs = n /\
    off + n <= zlen base).
Proof. unfold yields. intros. eapply wp_mono; [by apply durable_read|]. by intros o h' (? & ? & ?). Qed.
Lemma yields_cancel d base ws h :
  wstate d base ws h -> yields cancel_requested h (fun _ => True).
Proof. intros. eapply yields_reader; [done|apply reader_cancel|done]. Qed.

(** One step of a computation that only reads: [step Hw by tac as a Ha] proves
    what the head returns with [tac], carries the device's state [Hw] over and
    names the value and its property. *)
Tactic Notation "step" hyp(Hw) "by" tactic3(H) "as" ident(a) simple_intropattern(Ha) :=
  let h := fresh "h" in let Hq := fresh "Hq" in
  eapply yields_bind; [H|]; intros a h; cbv beta; intros Ha Hq;
  apply (wstate_quiet _ _ _ _ _ Hq) in Hw; clear Hq.

(** ** Computations that change one device

    [runs d m h S P]: [m] ends from [h], changes nothing but the device [d],
    and either returns a value with [P], or stops in a host with [S].  [S]
    plays the part of a crash condition: it also holds the hosts in which the
    process ends. *)

Definition runs {A} (d : BlockDevice) (m : M A) (h : Host) (S : Host -> Prop)
    (P : A -> Host -> Prop) : Prop :=
  wp m h (fun o h' => only_device d h h' /\
    match o with Ret a => P a h' | OutOfFuel => False | Fail _ | Exit _ => S h' end).

(** A run that is known to return. *)
Lemma wp_returns {A} (m : M A) h (Q : Outcome A -> Host -> Prop) :
  wp m h Q -> match (m h).1 with Ret _ => true | _ => false end = true ->
  exists a, (m h).1 = Ret a /\ Q (Ret a) (m h).2.
Proof. unfold wp. destruct (m h).1 as [a|e|c|]; [|done..]. intros H _. by exists a. Qed.

Lemma runs_wp {A} d (m : M A) h (S : Host -> Prop) (P : A -> Host -> Prop) :
  runs d m h S P -> wp m h (fun o h' => only_device d h h' /\
    match o with Ret a => P a h' | OutOfFuel => False | Fail _ | Exit _ => S h' end).
Proof. done. Qed.
Lemma runs_ret {A} d (a : A) h (S : Host -> Prop) (P : A -> Host -> Prop) : P a h -> runs d (mret a) h S P.
Proof. intros H. unfold runs. apply wp_ret. split; [apply only_device_refl|exact H]. Qed.
Lemma runs_failM {A} d c msg h (S : Host -> Prop) (P : A -> Host -> Prop) : S h -> runs d (failM c msg) h S P.
Proof. intros H. split; [apply only_device_refl|exact H]. Qed.
Lemma runs_mono {A} d (m : M A) h (S S' : Host -> Prop) (P P' : A -> Host -> Prop) :
  runs d m h S P -> (forall h', only_device d h h' -> S h' -> S' h') ->
  (forall a h', only_device d h h' -> P a h' -> P' a h') -> runs d m h S' P'.
Proof.
  unfold runs. intros H HS HP. eapply wp_mono; [exact H|]. intros o h' [Ho Hm]. split; [exact Ho|].
  destruct o; eauto.
Qed.
Lemma runs_bind {A B} d (m : M A) (k : A -> M B) h (S : Host -> Prop) (P : A -> Host -> Prop)
    (Q : B -> Host -> Prop) :
  runs d m h S P -> (forall a h', only_device d h h' -> P a h' -> runs d (k a) h' S Q) ->
  runs d (m ≫= k) h S Q.
Proof.
  unfold runs. intros Hm Hk. apply wp_bind. eapply wp_mono; [exact Hm|]. intros o h1 [Ho H1].
  destruct o as [a|e|s|]; cbn [carry]; [|by split..|done].
  eapply wp_mono; [exact (Hk a h1 Ho H1)|]. intros o h2 [Ho2 H2].
  split; [by eapply only_device_trans|exact H2].
Qed.
Lemma runs_yields {A} d (m : M A) h (S : Host -> Prop) (P : A -> Prop) :
  yields m h P -> (forall h', quiet h h' -> S h') -> runs d m h S (fun a h' => P a /\ quiet h h').
Proof.
  unfold runs, yields. intros H HS. eapply wp_mono; [exact H|]. intros o h' (Hq & Hne & Hv).
  split; [by apply only_device_quiet|]. destruct o; auto.
Qed.
Lemma runs_lift {A} d (r : Result A) h (S : Host -> Prop) (P : A -> Host -> Prop) :
  (forall a, r = Ok a -> P a h) -> S h -> runs d (lift r) h S P.
Proof.
  intros H HS. destruct r as [a|e]; [apply runs_ret; auto|].
  split; [apply only_device_refl|exact HS].
Qed.
Lemma runs_write d base ws off data h (S : Host -> Prop) :
  wstate d base ws h -> 0 <= off ->
  (forall h' ws', ws' ⊆ ws ++ [(off, data)] -> unsettled d base ws' h' -> S h') ->
  runs d (write_exact d off data) h S (fun _ h' =>
    wstate d base (ws ++ [(off, data)]) h' /\ off + zlen data <= zlen base).
Proof.
  unfold runs. intros Hw Ho HS. eapply wp_mono; [by apply durable_write|]. intros o h' (Hne & Hod & Hok & Hun).
  split; [exact Hod|].
  assert (Hs : S h').
  { destruct Hun as [Hun|[_ Hun]]; (eapply HS; [|exact Hun]); set_solver. }
  destruct o as [[]|e|s|]; try done. specialize (Hok eq_refl). split; [exact Hok|].
  apply ws_inside in Hok. apply Forall_app in Hok as [_ [[_ Hok] _]%Forall_cons]. exact Hok.
Qed.
Lemma runs_flush d base ws h (S : Host -> Prop) :
  wstate d base ws h ->
  (forall h', unsettled d base ws h' \/ unsettled d (put_all ws base) [] h' -> S h') ->
  runs d (flush d) h S (fun _ h' => wstate d (put_all ws base) [] h').
Proof.
  unfold runs. intros Hw HS. eapply wp_mono; [by apply durable_flush|]. intros o h' (Hne & Hod & Hok & Hun).
  split; [exact Hod|].
  assert (Hs : S h').
  { apply HS. destruct Hun as [Hun|Hun]; [by left|right]. by apply wstate_unsettled. }
  destruct o as [[]|e|s|]; try done. by apply Hok.
Qed.

(** One reading step of a computation that changes the device. *)
Tactic Notation "rstep" hyp(Hw) "by" tactic3(H) "stop" tactic3(HS) "as" ident(a) simple_intropattern(Ha) :=
  let h := fresh "h" in let Hq := fresh "Hq" in let Ho := fresh "Ho" in
  eapply runs_bind; [eapply runs_yields; [H|intros h Hq; HS]|]; intros a h Ho; cbv beta;
  intros [Ha Hq]; apply (wstate_quiet _ _ _ _ _ Hq) in Hw; clear Hq Ho.
