(* ===== verification/Converge.v ===== *)
(** Overwriting parts of a device with known bytes, in any order.

    No code of its own.  Copies write a device from several tasks at once, and
    go on when one of them fails; what can be said at every point is that each
    byte is the old one or, inside the region [R], the one of the target image
    [T].  [filling] adds the places [D] that read as in [T], and the places [E]
    that durably hold [T]; a flush makes [D] durable. *)
From S2P Require Import Prelude Errors Host Device Durable.
#[local] Open Scope Z_scope.

(** Sets of byte positions. *)
Definition places : Type := Z -> Prop.
Definition within (A B : places) : Prop := forall i, A i -> B i.
Definition span_of (off n : Z) : places := fun i => off <= i < off + n.
Definition either (A B : places) : places := fun i => A i \/ B i.
Definition nowhere : places := fun _ => False.

#[export] Instance within_preorder : PreOrder within.
Proof. split; [by intros A i|]. intros A B C H1 H2 i Hi. auto. Qed.

(** [c] is [base] with bytes of [T] in the region [R]. *)
Definition between (base T : bytes) (R : places) (c : bytes) : Prop :=
  forall i : nat, c !! i = base !! i \/ R (Z.of_nat i) /\ c !! i = T !! i.
Definition agrees (T : bytes) (D : places) (c : bytes) : Prop :=
  forall i : nat, D (Z.of_nat i) -> c !! i = T !! i.
(** A write of bytes of [T] inside [R]. *)
Definition fills (T : bytes) (R : places) (w : Z * bytes) : Prop :=
  0 <= w.1 /\ forall k : nat, (k < length w.2)%nat ->
    R (w.1 + Z.of_nat k) /\ w.2 !! k = T !! (Z.to_nat w.1 + k)%nat.

Record filling (d : BlockDevice) (base T : bytes) (R D E : places) (h : Host) : Prop := {
  fl_file : exists f, dev_file h d f /\
    between base T R (f_durable f) /\ agrees T E (f_durable f) /\
    Forall (fills T R) (f_pending f) /\ agrees T D (content f);
  fl_len : zlen base = size_bytes (geometry d) /\ zlen T = zlen base
}.

Lemma between_apply base T R c w :
  0 <= w.1 -> w.1 + zlen w.2 <= zlen c -> fills T R w -> between base T R c ->
  between base T R (apply_write c w).
Proof.
  intros H0 H1 [_ Hw] Hc i. unfold apply_write. pose proof (zlen_nonneg w.2).
  rewrite pad_to_id by lia. rewrite lookup_splice by lia.
  case_decide; [apply Hc|]. case_decide; [|apply Hc]. right.
  destruct (Hw (i - Z.to_nat w.1)%nat) as [HR E]; [unfold zlen in *; lia|].
  replace (w.1 + Z.of_nat (i - Z.to_nat w.1)) with (Z.of_nat i) in HR by lia.
  split; [done|]. rewrite E. f_equal. lia.
Qed.

Lemma agrees_apply T R D c w :
  0 <= w.1 -> w.1 + zlen w.2 <= zlen c -> fills T R w -> agrees T D c -> agrees T D (apply_write c w).
Proof.
  intros H0 H1 [_ Hw] Hc i Hi. unfold apply_write. pose proof (zlen_nonneg w.2).
  rewrite pad_to_id by lia. rewrite lookup_splice by lia.
  case_decide; [by apply Hc|]. case_decide; [|by apply Hc].
  destruct (Hw (i - Z.to_nat w.1)%nat) as [_ E]; [unfold zlen in *; lia|].
  rewrite E. f_equal. lia.
Qed.

(** Pending writes of this kind keep both, and so does what is read back. *)
Lemma pending_keeps (P : bytes -> Prop) n ws c :
  (forall c w, zlen c = n -> 0 <= w.1 -> w.1 + zlen w.2 <= n -> w ∈ ws -> P c -> P (apply_write c w)) ->
  Forall (fun w => 0 <= w.1 /\ w.1 + zlen w.2 <= n) ws -> zlen c = n -> P c ->
  P (foldl apply_write c ws).
Proof.
  revert c. induction ws as [|w ws IH]; intros c Hstep Hin Hz Hc; cbn [foldl]; [done|].
  apply Forall_cons in Hin as [[H0 H1] Hin].
  apply IH; [intros; eapply Hstep; try done; by right|done| |].
  - by rewrite zlen_apply_write by lia.
  - by apply Hstep; [..|left|].
Qed.

Section Filling.
Context (d : BlockDevice) (base T : bytes) (R : places).

Lemma filling_content D E h f :
  filling d base T R D E h -> dev_file h d f ->
  between base T R (content f) /\ agrees T D (content f) /\ zlen (content f) = zlen base.
Proof.
  intros [(f' & Hf' & Hb & He & Hp & Hd) [Hl Ht]] Hf.
  assert (f' = f) as -> by (destruct Hf as [E1 _], Hf' as [E2 _]; congruence).
  destruct Hf as [_ Hok]. split; [|split; [done|]].
  - unfold content. destruct Hok as [Hz Hin]. apply (pending_keeps _ (zlen (f_durable f))); [|by rewrite Hz|done|done].
    intros c w Hc H0 H1 Hw. apply between_apply; [done|by rewrite Hc|]. rewrite list.Forall_forall in Hp. auto.
  - rewrite (zlen_content _ _ Hok). done.
Qed.

(** What a power cut leaves. *)
Lemma filling_crash D E h img :
  filling d base T R D E h -> crash_image (file_of h (fd_ d)) img ->
  zlen img = zlen base /\ between base T R img /\ agrees T E img.
Proof.
  intros [(f & Hf & Hb & He & Hp & Hd) [Hl Ht]] [Hz Himg].
  rewrite (dev_file_of _ _ _ Hf) in Hz, Himg. destruct Hf as [_ [Hdz Hin]].
  assert (Hw : forall i o dd, (o, dd) ∈ f_pending f -> o <= Z.of_nat i < o + zlen dd ->
    R (Z.of_nat i) /\ dd !! (i - Z.to_nat o)%nat = T !! i).
  { intros i o dd Hw Hi. rewrite list.Forall_forall in Hp. destruct (Hp _ Hw) as [H0 Hk]. cbn in H0, Hk.
    destruct (Hk (i - Z.to_nat o)%nat) as [HR E1]; [unfold zlen in *; lia|].
    replace (o + Z.of_nat (i - Z.to_nat o)) with (Z.of_nat i) in HR by lia.
    split; [done|]. rewrite E1. f_equal. lia. }
  split; [unfold zlen in *; lia|]. split.
  - intros i. destruct (Himg i) as [->|(o & dd & Hpd & Hi & ->)]; [apply Hb|].
    right. by apply (Hw i o dd).
  - intros i Hi. destruct (Himg i) as [->|(o & dd & Hpd & Hj & ->)]; [by apply He|].
    by apply (Hw i o dd).
Qed.

Lemma filling_start h : wstate d base [] h -> zlen T = zlen base -> filling d base T R nowhere nowhere h.
Proof.
  intros [(f & Hf & [Hd Hp] & _) Hl _] Ht. split; [|done]. exists f. split; [done|].
  assert (Hnil : f_pending f = []).
  { destruct (f_pending f) as [|w ws]; [done|]. apply Forall_cons in Hp as [(o & dd & Hin & _) _].
    by apply elem_of_nil in Hin. }
  rewrite Hd, Hnil. split; [by intros i; left|]. split; [by intros i []|].
  split; [by apply Forall_nil|by intros i []].
Qed.

Lemma filling_mono D E D' E' h : within D' D -> within E' E -> filling d base T R D E h -> filling d base T R D' E' h.
Proof.
  intros HD HE [(f & Hf & Hb & He & Hp & Hd) Hl]. split; [|done]. exists f.
  split_and!; try done; intros i Hi; auto.
Qed.

Lemma filling_same D E h h' :
  h_files h' !! fd_ d = h_files h !! fd_ d -> filling d base T R D E h -> filling d base T R D E h'.
Proof.
  intros Eq [(f & [Hf Hok] & H) Hl]. split; [|done]. exists f. split; [|done].
  split; [by rewrite Eq|done].
Qed.
Lemma filling_quiet D E h h' : quiet h h' -> filling d base T R D E h -> filling d base T R D E h'.
Proof. intros (Hf & _). apply filling_same. by rewrite Hf. Qed.

(** The rules for the device's operations: a write of bytes of [T], a flush,
    and a read. *)
Lemma filling_write D E off data h :
  filling d base T R D E h -> 0 <= off -> data = slice T off (zlen data) -> within (span_of off (zlen data)) R ->
  wp (write_exact d off data) h (fun o h' => o <> OutOfFuel /\ only_device d h h' /\
    filling d base T R D E h' /\
    (o = Ret tt -> filling d base T R (either D (span_of off (zlen data))) E h' /\
                   off + zlen data <= zlen base)).
Proof.
  intros Hfl Hoff Edata HR. pose proof Hfl as [(f & Hf & Hb & He & Hp & Hd) [Hl Ht]].
  eapply wp_mono; [by apply (write_exact_spec d off data h f)|].
  intros o h' ((Hne & ws & Hch & Hfs & Hok) & Hret & Hin).
  split; [done|]. split; [by eapply only_device_files|].
  destruct Hin as [Hin|Hq].
  2: { split; [by eapply filling_quiet|]. intros ->. destruct (Hret eq_refl) as [_ Hin].
       destruct Hf as [Hfile Hokf].
       pose proof (zlen_content _ _ Hokf) as Hz. specialize (Hok tt eq_refl).
       assert (Eq : add_writes ws f = f).
       { destruct Hfs as (E1 & _). destruct Hq as (E2 & _). rewrite E1 in E2.
         assert (Some (add_writes ws f) = Some f) as [=] by (rewrite <-Hfile, <-E2; by rewrite lookup_insert_eq); done. }
       rewrite Eq in Hok. split; [|lia]. split; [|done]. exists f.
       split; [destruct Hq as (E2 & _); split; [by rewrite E2|done]|]. split_and!; try done.
       intros i [Hi|Hi]; [by apply Hd|]. rewrite Hok. rewrite lookup_splice by (unfold span_of in Hi; lia).
       unfold span_of in Hi. rewrite decide_False, decide_True by lia. rewrite Edata, lookup_slice by lia.
       rewrite decide_True by lia. f_equal. lia. }
  assert (Hf' : dev_file h' d (add_writes ws f)).
  { destruct Hf as [_ Hokf]. split; [|by eapply file_ok_add_writes].
    destruct Hfs as (-> & _). apply lookup_insert_eq. }
  assert (Hfills : Forall (fills T R) ws).
  { eapply list.Forall_impl; [exact Hch|]. intros w (C1 & C2 & C3). split; [lia|].
    intros k Hk. split; [apply HR; unfold span_of, zlen in *; lia|].
    rewrite C3, Edata, slice_slice by (unfold zlen in *; lia). rewrite lookup_slice by lia.
    rewrite decide_True by (unfold zlen in *; lia). f_equal. lia. }
  pose proof (zlen_content _ _ (proj2 Hf)) as Hz.
  assert (Hd' : agrees T D (content (add_writes ws f))).
  { unfold content, add_writes. cbn [f_durable f_pending]. rewrite foldl_app. fold (content f).
    apply (pending_keeps _ (zlen (content f))); [|eapply list.Forall_impl; [exact Hch|]|done|done].
    - intros c w Hc H0 H1 Hw. apply (agrees_apply T R); [done|by rewrite Hc|].
      rewrite list.Forall_forall in Hfills. auto.
    - intros w (C1 & C2 & _). cbn. lia. }
  assert (Hfl' : forall D', agrees T D' (content (add_writes ws f)) -> filling d base T R D' E h').
  { intros D' HD'. split; [|done]. exists (add_writes ws f). split; [done|]. cbn [f_durable f_pending add_writes].
    split_and!; try done. apply Forall_app. by split. }
  split; [by apply Hfl'|]. intros ->. specialize (Hok tt eq_refl).
  split; [|lia]. apply Hfl'. intros i [Hi|Hi]; [by apply Hd'|]. unfold span_of in Hi.
  rewrite Hok, lookup_splice by lia. rewrite decide_False, decide_True by lia.
  rewrite Edata, lookup_slice by lia. rewrite decide_True by lia. f_equal. lia.
Qed.

Lemma filling_flush D E h :
  filling d base T R D E h ->
  wp (flush d) h (fun o h' => o <> OutOfFuel /\ only_device d h h' /\
    filling d base T R D E h' /\ (o = Ret tt -> filling d base T R D (either D E) h')).
Proof.
  intros Hfl. pose proof Hfl as [(f & Hf & Hb & He & Hp & Hd) [Hl Ht]].
  eapply wp_mono; [apply (flush_spec d h f), Hf|]. intros o h' (Hne & Hcase). split; [done|].
  destruct Hcase as [Hfs|[Hq Hno]].
  2: { split; [by apply only_device_quiet|]. split; [by eapply filling_quiet|]. intros; congruence. }
  split; [by eapply only_device_files|].
  destruct (filling_content D E h f Hfl Hf) as (Hbc & _ & _).
  assert (HE : agrees T E (content f)).
  { unfold content. destruct Hf as [_ [Hz Hin]].
    apply (pending_keeps _ (zlen (f_durable f))); [|by rewrite Hz|done|done].
    intros c w Hc H0 H1 Hw. apply (agrees_apply T R); [done|by rewrite Hc|].
    rewrite list.Forall_forall in Hp. auto. }
  assert (Hall : filling d base T R D (either D E) h').
  { split; [|done]. exists (synced f). split.
    - destruct Hf as [_ Hokf]. split; [|by apply file_ok_synced].
      destruct Hfs as (-> & _). apply lookup_insert_eq.
    - cbn [synced f_durable f_pending]. rewrite content_synced. split_and!; [done| |by apply Forall_nil|done].
      intros i [Hi|Hi]; auto. }
  split; [|done]. eapply filling_mono; [| |exact Hall]; intros i Hi; [done|by right].
Qed.

Lemma filling_read D E off n h :
  filling d base T R D E h -> 0 <= off -> 0 <= n ->
  yields (read_exact d off n) h (fun bs => zlen bs = n /\ off + n <= zlen base /\
    (within (span_of off n) (fun i => ~ R i) -> bs = slice base off n) /\
    (within (span_of off n) D -> bs = slice T off n)).
Proof.
  intros Hfl Hoff Hn. pose proof Hfl as [(f & Hf & _) [Hl Ht]].
  destruct (filling_content D E h f Hfl Hf) as (Hb & Hd & Hz).
  eapply wp_mono; [by apply (read_exact_spec d off n h f)|]. intros o h' (Hq & Hne & Hv).
  split_and!; [done|done|]. intros bs ->. destruct (Hv bs eq_refl) as (-> & Hzb & Hr).
  split; [done|]. split; [lia|]. split; intros Hw; apply list_eq; intros i; rewrite !lookup_slice by lia;
    (case_decide; [|done]).
  - destruct (Hb (Z.to_nat off + i)%nat) as [->|[HR _]]; [done|]. exfalso.
    apply (Hw (Z.of_nat (Z.to_nat off + i))); [unfold span_of; lia|done].
  - apply Hd, Hw. unfold span_of. lia.
Qed.
End Filling.
