(* ===== verification/TaskPool.v ===== *)
(** Tasks of the worker pool (include/fsx/task_pool.hpp).

    A task is the sequence of its device operations; other tasks may run
    between any two of them.  [run_tasks] interleaves the tasks of a batch as a
    schedule says and then lets each run to its end; every run of the pool is
    one of these for some schedule, and a theorem for all schedules covers them
    all.  A batch never has more tasks than the pool has workers and queue
    places, so submitting one does not wait. *)
From S2P Require Import Prelude Errors Host.

Inductive Task (A : Type) : Type :=
  | Done (r : Result A)
  | Op {X : Set} (m : M X) (k : Result X -> Task A).
Arguments Done {A} r.
Arguments Op {A X} m k.

(** One operation; its error is the task's result. *)
Definition call {A} {X : Set} (m : M X) (k : X -> Task A) : Task A :=
  Op m (fun r => match r with Ok x => k x | Err e => Done (Err e) end).

(** The task [i] does its next operation. *)
Definition advance {A} (i : nat) (ts : list (Task A)) : M (list (Task A)) :=
  match ts !! i with
  | Some (Op m k) => r ← attempt m; mret (<[i := k r]> ts)
  | _ => mret ts
  end.

Fixpoint interleave {A} (sched : list nat) (ts : list (Task A)) : M (list (Task A)) :=
  match sched with
  | [] => mret ts
  | i :: sched => ts ← advance i ts; interleave sched ts
  end.

Fixpoint finish {A} (t : Task A) : M (Result A) :=
  match t with
  | Done r => mret r
  | Op m k => r ← attempt m; finish (k r)
  end.

Fixpoint finish_all {A} (ts : list (Task A)) : M (list (Result A)) :=
  match ts with
  | [] => mret []
  | t :: ts => r ← finish t; rs ← finish_all ts; mret (r :: rs)
  end.

Definition run_tasks {A} (sched : list nat) (ts : list (Task A)) : M (list (Result A)) :=
  ts ← interleave sched ts; finish_all ts.

(** [future.get()] of the tasks in their order: the first error is returned. *)
Fixpoint results {A} (rs : list (Result A)) : Result (list A) :=
  match rs with
  | [] => Ok []
  | r :: rs => let? a := r in let? l := results rs in Ok (a :: l)
  end.

Lemma results_ok {A} (rs : list (Result A)) l :
  results rs = Ok l -> Forall2 (fun r a => r = Ok a) rs l.
Proof.
  revert l. induction rs as [|r rs IH]; intros l; cbn; [by intros [= <-]|].
  destruct r as [a|e]; [|done]. destruct (results rs) as [l'|e]; [|done]. intros [= <-].
  constructor; auto.
Qed.

(** ** Interleaved tasks over a growing world

    [Inv w h] describes the host while the tasks have got as far as [w]; every
    operation keeps it for a larger world.  A task may rely on what was reached
    before, whoever reached it. *)

Section Pool.
Context {W : Type} (le : relation W) `{!PreOrder le} (Inv : W -> Host -> Prop).

(** Where a computation may end that got as far as [w] before. *)
Definition grows {B} (w : W) (Q : B -> W -> Prop) (o : Outcome B) (h' : Host) : Prop :=
  match o with
  | Ret b => exists w', le w w' /\ Inv w' h' /\ Q b w'
  | Exit _ => exists w', le w w' /\ Inv w' h'
  | Fail _ | OutOfFuel => False
  end.

Lemma grows_trans {B} w w1 (Q Q' : B -> W -> Prop) o h' :
  le w w1 -> (forall b w', Q b w' -> Q' b w') -> grows w1 Q o h' -> grows w Q' o h'.
Proof.
  intros Hle HQ. destruct o as [b|e|s|]; cbn; [|done| |done].
  - intros (w' & H1 & H2 & H3). exists w'. split_and!; [by trans w1|done|auto].
  - intros (w' & H1 & H2). exists w'. split; [by trans w1|done].
Qed.

(** From any host that has got at least as far as [w] the task ends with [P]. *)
Fixpoint task_ok {A} (P : A -> W -> Prop) (w : W) (t : Task A) : Prop :=
  match t with
  | Done r => forall a, r = Ok a -> forall w', le w w' -> P a w'
  | Op m k => forall w1 h, le w w1 -> Inv w1 h ->
      wp (attempt m) h (grows w1 (fun r w2 => task_ok P w2 (k r)))
  end.

Lemma task_ok_mono {A} (P : A -> W -> Prop) w w' t : le w w' -> task_ok P w t -> task_ok P w' t.
Proof.
  intros Hle. destruct t as [r|X m k]; cbn [task_ok].
  - intros Hr a E w2 H2. apply (Hr a E). by trans w'.
  - intros Hm w1 h H1. apply Hm. by trans w'.
Qed.

Lemma task_ok_weaken {A} (P Q : A -> W -> Prop) w t :
  (forall a w', P a w' -> Q a w') -> task_ok P w t -> task_ok Q w t.
Proof.
  intros HPQ. revert w. induction t as [r|X m k IH]; intros w; cbn [task_ok].
  - intros Hr a E w' H'. apply HPQ. by apply (Hr a E).
  - intros Hm w1 h H1 Hi. eapply wp_mono; [by apply Hm|]. intros o h'.
    destruct o as [r|e|s|]; cbn; [|done..]. intros (w2 & H2 & Hi2 & Hk). exists w2. split_and!; [done|done|].
    by apply IH.
Qed.

(** A task that starts with an operation of the host. *)
Lemma task_ok_call {A} {X : Set} (P : A -> W -> Prop) w (m : M X) (k : X -> Task A) :
  (forall w1 h, le w w1 -> Inv w1 h ->
     wp m h (fun o h' => match o with
       | Ret a => exists w2, le w1 w2 /\ Inv w2 h' /\ task_ok P w2 (k a)
       | Fail _ | Exit _ => exists w2, le w1 w2 /\ Inv w2 h'
       | OutOfFuel => False
       end)) ->
  task_ok P w (call m k).
Proof.
  intros H w1 h Hle Hi. apply wp_attempt. eapply wp_mono; [by apply (H w1 h)|].
  intros o h'. destruct o as [a|e|s|]; cbn; try done.
  intros (w2 & H2 & Hi2). exists w2. by split_and!.
Qed.

(** What is known of each task of a batch: its postcondition. *)
Definition batch_ok {A} (Ps : list (A -> W -> Prop)) (w : W) (ts : list (Task A)) : Prop :=
  Forall2 (fun P t => task_ok P w t) Ps ts.

Lemma batch_ok_mono {A} (Ps : list (A -> W -> Prop)) w w' ts :
  le w w' -> batch_ok Ps w ts -> batch_ok Ps w' ts.
Proof. intros Hle H. eapply Forall2_impl; [exact H|]. intros P t. by apply task_ok_mono. Qed.

Lemma advance_spec {A} (Ps : list (A -> W -> Prop)) i ts w h :
  batch_ok Ps w ts -> Inv w h -> wp (advance i ts) h (grows w (fun ts' w' => batch_ok Ps w' ts')).
Proof.
  intros Hts Hi. unfold advance.
  assert (Hsame : wp (mret ts) h (grows w (fun ts' w' => batch_ok Ps w' ts'))).
  { apply wp_ret. exists w. by split_and!. }
  destruct (ts !! i) as [[r|X m k]|] eqn:Ei; [exact Hsame| |exact Hsame].
  destruct (Forall2_lookup_r _ _ _ _ _ Hts Ei) as (P & EP & Ht). cbn [task_ok] in Ht.
  apply wp_bind. eapply wp_mono; [exact (Ht w h ltac:(done) Hi)|].
  intros o h'. destruct o as [r|e|s|]; cbn [carry grows]; try done.
  intros (w2 & H2 & Hi2 & Hk). apply wp_ret. exists w2. split_and!; [done|done|].
  rewrite <-(list_insert_id Ps i P EP).
  apply Forall2_insert; [by apply (batch_ok_mono Ps w)|exact Hk].
Qed.

Lemma interleave_spec {A} (Ps : list (A -> W -> Prop)) sched ts w h :
  batch_ok Ps w ts -> Inv w h ->
  wp (interleave sched ts) h (grows w (fun ts' w' => batch_ok Ps w' ts')).
Proof.
  revert ts w h. induction sched as [|i sched IH]; intros ts w h Hts Hi; cbn [interleave].
  { apply wp_ret. exists w. by split_and!. }
  apply wp_bind. eapply wp_mono; [by apply advance_spec|].
  intros o h1. destruct o as [ts1|e|s|]; cbn [carry grows]; try done.
  intros (w1 & H1 & Hi1 & Hts1). eapply wp_mono; [by apply (IH ts1 w1)|].
  intros o h2. by apply grows_trans.
Qed.

(** The postcondition of a result, which holds from now on. *)
Definition settles {A} (P : A -> W -> Prop) (r : Result A) (w : W) : Prop :=
  forall a, r = Ok a -> forall w', le w w' -> P a w'.

Lemma settles_mono {A} (P : A -> W -> Prop) r w w' : le w w' -> settles P r w -> settles P r w'.
Proof. intros Hle H a E w2 H2. apply (H a E). by trans w'. Qed.

Lemma finish_spec {A} (P : A -> W -> Prop) t w h :
  task_ok P w t -> Inv w h -> wp (finish t) h (grows w (settles P)).
Proof.
  revert w h. induction t as [r|X m k IH]; intros w h Ht Hi; cbn [finish].
  { apply wp_ret. exists w. by split_and!. }
  apply wp_bind. eapply wp_mono; [exact (Ht w h ltac:(done) Hi)|].
  intros o h1. destruct o as [r|e|s|]; cbn [carry grows]; try done.
  intros (w1 & H1 & Hi1 & Hk). eapply wp_mono; [by apply (IH r w1)|].
  intros o h2. by apply grows_trans.
Qed.

Lemma finish_all_spec {A} (Ps : list (A -> W -> Prop)) ts w h :
  batch_ok Ps w ts -> Inv w h ->
  wp (finish_all ts) h (grows w (fun rs w' => Forall2 (fun P r => settles P r w') Ps rs)).
Proof.
  intros Hts. revert w h Hts. induction ts as [|t ts IH] in Ps |- *; intros w h Hts Hi; cbn [finish_all].
  { apply wp_ret. exists w. split_and!; [done|done|]. by inversion Hts. }
  inversion Hts as [|P ? Ps' ? Ht Hts']; subst. apply wp_bind.
  eapply wp_mono; [by apply (finish_spec P t w)|].
  intros o h1. destruct o as [r|e|s|]; cbn [carry grows]; try done.
  intros (w1 & H1 & Hi1 & Hr). apply wp_bind.
  eapply wp_mono; [apply (IH Ps' w1); [by apply (batch_ok_mono Ps' w)|done]|].
  intros o h2. destruct o as [rs|e|s|]; cbn [carry grows]; try done.
  - intros (w2 & H2 & Hi2 & Hrs). apply wp_ret. exists w2. split_and!; [by trans w1|done|].
    constructor; [by apply (settles_mono P r w1)|done].
  - intros (w2 & H2 & Hi2). exists w2. split; [by trans w1|done].
Qed.

(** Whatever the schedule, a batch of tasks keeps the invariant, ends, and has
    every task's postcondition where the task returned a value. *)
Lemma run_tasks_spec {A} (Ps : list (A -> W -> Prop)) sched ts w h :
  batch_ok Ps w ts -> Inv w h ->
  wp (run_tasks sched ts) h (grows w (fun rs w' => Forall2 (fun P r => settles P r w') Ps rs)).
Proof.
  intros Hts Hi. unfold run_tasks. apply wp_bind. eapply wp_mono; [by apply interleave_spec|].
  intros o h1. destruct o as [ts1|e|s|]; cbn [carry grows]; try done.
  intros (w1 & H1 & Hi1 & Hts1). eapply wp_mono; [by apply finish_all_spec|].
  intros o h2. by apply grows_trans.
Qed.
End Pool.
