(* ===== verification/Gpt.v ===== *)
(** GUID partition tables (include/fsx/gpt.hpp, src/partition/gpt.cpp).

    The progress callback of [resize_partition] only reports and is left out. *)
From S2P Require Import Prelude Ranges Errors Endian Crc Host Device Uuid FileUtil Safety Durable.
From stdpp Require Import sorting.
From Stdlib Require Import Ascii.
#[local] Open Scope Z_scope.

Definition SIG : bytes :=
  [Byte.x45; Byte.x46; Byte.x49; Byte.x20; Byte.x50; Byte.x41; Byte.x52; Byte.x54].

Record Partition := mkPartition {
  p_index : Z;
  first_lba : Z;
  last_lba : Z;
  attributes : Z;
  type_guid : bytes;
  unique_guid : bytes;
  p_name : string
}.

Record Table := mkTable {
  primary_header_crc_ok : bool;
  primary_entries_crc_ok : bool;      (* [entries_crc_ok] *)
  backup_header_crc_ok : bool;
  backup_entries_crc_ok : bool;
  t_protective_mbr_ok : bool;
  t_current_lba : Z;
  t_backup_lba : Z;
  first_usable_lba : Z;
  last_usable_lba : Z;
  primary_entries_lba : Z;
  backup_entries_lba : Z;
  t_header_size : Z;
  t_entry_size : Z;
  t_entry_count : Z;
  t_disk_guid : bytes;
  partitions : list Partition
}.

Record MutationOptions := mkOptions {
  allow_block_device : bool;
  reread_kernel_table : bool
}.

Record MutationReport := mkMutation {
  backup_written : bool;
  primary_written : bool;
  verified : bool;
  kernel_reread_requested : bool
}.

Record RawSide := mkSide {
  signature_ok : bool;
  header_crc_ok : bool;
  entries_crc_ok : bool;
  lba : Z;
  current_lba : Z;
  backup_lba : Z;
  first_usable : Z;
  last_usable : Z;
  entries_lba : Z;
  revision : Z;
  header_size : Z;
  entry_count : Z;
  entry_size : Z;
  disk_guid : bytes;
  header : bytes;
  entries : bytes
}.

(** [dev.geometry().logical_sector ? dev.geometry().logical_sector : 512U]. *)
Definition sector_of (dev : BlockDevice) : Z :=
  if logical_sector (geometry dev) =? 0 then 512 else logical_sector (geometry dev).

Fixpoint utf16le_loop (n : nat) (b : bytes) (i : Z) : list ascii :=
  match n with
  | O => []
  | S n =>
      if negb (i + 1 <? zlen b) then []
      else
        let c := read_le16 b i in
        if c =? 0 then []
        else (if c <? 0x80 then ascii_of_nat (Z.to_nat c) else "?"%char)
             :: utf16le_loop n b (i + 2)
  end.
Definition utf16le_name (b : bytes) : string :=
  String.string_of_list_ascii (utf16le_loop (length b) b 0).

Definition zero_guid (g : bytes) : bool := forallb (fun b => bool_decide (b = Byte.x00)) g.

(** The signature and the 0xEE entry of a protective MBR sector. *)
Definition mbr_signature (b : bytes) : bool := (byte_at b 510 =? 0x55) && (byte_at b 511 =? 0xaa).
Definition mbr_protective (b : bytes) : bool :=
  existsb (fun i => byte_at b (446 + i * 16 + 4) =? 0xee) [0; 1; 2; 3].

Definition protective_mbr_ok (dev : BlockDevice) : M bool :=
  let ss := sector_of dev in
  if ss <? 512 then mret false
  else
    r ← attempt (read_exact dev 0 ss);
    match r with
    | Err _ => mret false
    | Ok b => mret (mbr_signature b && mbr_protective b)
    end.

Definition validate_side_geometry (s : RawSide) (total ss : Z) : Result unit :=
  if (total <=? backup_lba s) || (backup_lba s =? current_lba s)
  then fail corrupt "GPT alternate-header LBA is invalid"
  else if (last_usable s <? first_usable s) || (total <=? last_usable s)
  then fail corrupt "GPT usable LBA range is invalid"
  else
    let nbytes := entry_count s * entry_size s in
    let sectors := (nbytes + ss - 1) / ss in
    let arr_first := entries_lba s in
    let arr_last := u64 (entries_lba s + sectors - 1) in
    if negb ((arr_last <? first_usable s) || (last_usable s <? arr_first))
    then fail corrupt "GPT entry array overlaps usable partition space"
    else if (first_usable s <=? current_lba s) && (current_lba s <=? last_usable s)
    then fail corrupt "GPT header overlaps usable partition space"
    else Ok tt.

(** The fields both readers take from a header sector. *)
Definition header_fields (lba : Z) (h : bytes) : RawSide :=
  let stored := read_le32 h 16 in
  let hsize := read_le32 h 12 in
  mkSide true (stored =? crc32_sum (slice (write_le32 h 16 0) 0 hsize)) false lba
    (read_le64 h 24) (read_le64 h 32) (read_le64 h 40) (read_le64 h 48) (read_le64 h 72)
    (read_le32 h 8) hsize (read_le32 h 80) (read_le32 h 84) (slice h 56 16) h [].
Definition with_entries (e : bytes) (ok : bool) (s : RawSide) : RawSide :=
  mkSide (signature_ok s) (header_crc_ok s) ok (lba s) (current_lba s) (backup_lba s)
    (first_usable s) (last_usable s) (entries_lba s) (revision s) (header_size s)
    (entry_count s) (entry_size s) (disk_guid s) (header s) e.
Definition no_signature (lba : Z) (h : bytes) : RawSide :=
  mkSide false false false lba 0 0 0 0 0 0 0 0 0 (zeros 16) h [].

Definition bad_header_size (s : RawSide) (ss : Z) : bool :=
  (header_size s <? 92) || (ss <? header_size s).
Definition bad_entry_geometry (s : RawSide) : bool :=
  (entry_size s <? 128) || (4096 <? entry_size s) || (entry_count s =? 0)
  || (16384 <? entry_count s).
Definition max_entry_bytes : Z := 64 * 1024 * 1024.

Definition read_side (dev : BlockDevice) (lba : Z) : M RawSide :=
  let ss := sector_of dev in
  let total := size_bytes (geometry dev) / ss in
  if total <=? lba then failM corrupt "GPT header LBA is outside device"
  else
    h ← read_exact dev (lba * ss) ss;
    if negb (bool_decide (slice h 0 8 = SIG)) then mret (no_signature lba h)
    else
      let s := header_fields lba h in
      if bad_header_size s ss then failM corrupt "invalid GPT header size"
      else if negb (current_lba s =? lba)
      then failM corrupt "GPT header current-LBA field does not match its location"
      else if bad_entry_geometry s then failM corrupt "unreasonable GPT entry geometry"
      else
        let nbytes := entry_count s * entry_size s in
        if max_entry_bytes <? nbytes then failM corrupt "GPT entry array too large"
        else
          let sectors := (nbytes + ss - 1) / ss in
          if (total <=? entries_lba s) || (total - entries_lba s <? sectors)
          then failM corrupt "GPT entry array lies outside device"
          else
            e ← read_exact dev (entries_lba s * ss) nbytes;
            let s := with_entries e (crc32_sum e =? read_le32 h 88) s in
            lift (validate_side_geometry s total ss);;
            mret s.

(** The entry [i] of a side's array. *)
Definition entry_at (s : RawSide) (i : Z) : bytes :=
  slice (entries s) (i * entry_size s) (entry_size s).

Definition partition_of (s : RawSide) (i : Z) : list Partition :=
  let ent := entry_at s i in
  let type := slice ent 0 16 in
  if zero_guid type then []
  else [mkPartition (i + 1) (read_le64 ent 32) (read_le64 ent 40) (read_le64 ent 48) type
          (slice ent 16 16) (utf16le_name (slice ent 56 (Z.min 72 (entry_size s - 56))))].

Definition table_from_side (s : RawSide) (pmbr : bool) : Table :=
  mkTable false false false false pmbr (current_lba s) (backup_lba s) (first_usable s)
    (last_usable s) 0 0 (header_size s) (entry_size s) (entry_count s) (disk_guid s)
    (concat (partition_of s <$> seqZ 0 (entry_count s))).

(** The ranges of the used entries, in the order of the array. *)
Fixpoint collect_ranges (s : RawSide) (n : nat) (i : Z) : Result (list (Z * Z)) :=
  match n with
  | O => Ok []
  | S n =>
      let ent := entry_at s i in
      if zero_guid (slice ent 0 16) then collect_ranges s n (i + 1)
      else
        let first := read_le64 ent 32 in
        let last := read_le64 ent 40 in
        if (last_usable s <? first) || (last <? first_usable s) || (last <? first)
        then fail corrupt "GPT partition lies outside usable LBA range"
        else let? rs := collect_ranges s n (i + 1) in Ok ((first, last) :: rs)
  end.

Definition validate_entries (s : RawSide) : Result unit :=
  let? ranges := collect_ranges s (Z.to_nat (entry_count s)) 0 in
  if neighbours_overlap (merge_sort pair_le ranges)
  then fail corrupt "GPT partitions overlap"
  else Ok tt.

Definition sides_equal (a b : RawSide) : bool :=
  (revision a =? revision b) && (header_size a =? header_size b) &&
  (backup_lba a =? current_lba b) && (backup_lba b =? current_lba a) &&
  (first_usable a =? first_usable b) && (last_usable a =? last_usable b) &&
  (entry_count a =? entry_count b) && (entry_size a =? entry_size b) &&
  bool_decide (disk_guid a = disk_guid b) && bool_decide (entries a = entries b).

Definition side_from_backup_bytes (h e : bytes) (lba total ss : Z) : Result RawSide :=
  if zlen h <? ss then fail corrupt "GPT backup header sector is truncated"
  else
    let h := slice h 0 ss in
    if negb (bool_decide (slice h 0 8 = SIG))
    then fail corrupt "GPT backup contains a header with invalid signature"
    else
      let s := header_fields lba h in
      if bad_header_size s ss then fail corrupt "GPT backup contains invalid header size"
      else if negb (header_crc_ok s)
      then fail corrupt "GPT backup embedded header checksum mismatch"
      else if negb (current_lba s =? lba)
      then fail corrupt "GPT backup embedded header current-LBA mismatch"
      else if bad_entry_geometry s
      then fail corrupt "GPT backup embedded entry geometry is unreasonable"
      else if negb (entry_count s * entry_size s =? zlen e)
      then fail corrupt "GPT backup embedded entry array size disagrees with header"
      else
        let s := with_entries e (crc32_sum e =? read_le32 h 88) s in
        if negb (entries_crc_ok s)
        then fail corrupt "GPT backup embedded entry-array checksum mismatch"
        else
          let? _ := validate_side_geometry s total ss in
          let? _ := validate_entries s in
          Ok s.

Definition make_header (c : RawSide) (current backup entries_lba entries_crc ss : Z) : bytes :=
  let h := zeros ss in
  let h := splice h 0 SIG in
  let h := write_le32 h 8 (if revision c =? 0 then 0x10000 else revision c) in
  let h := write_le32 h 12 (if header_size c =? 0 then 92 else header_size c) in
  let h := write_le32 h 16 0 in
  let h := write_le32 h 20 0 in
  let h := write_le64 h 24 current in
  let h := write_le64 h 32 backup in
  let h := write_le64 h 40 (first_usable c) in
  let h := write_le64 h 48 (last_usable c) in
  let h := splice h 56 (disk_guid c) in
  let h := write_le64 h 72 entries_lba in
  let h := write_le32 h 80 (entry_count c) in
  let h := write_le32 h 84 (entry_size c) in
  let h := write_le32 h 88 entries_crc in
  write_le32 h 16 (crc32_sum (slice h 0 (header_size c))).

(** A copy of the table that reading accepts. *)
Definition side_valid (s : RawSide) : bool :=
  signature_ok s && header_crc_ok s && entries_crc_ok s.

Definition read_redundant_table (dev : BlockDevice) : M Table :=
  let ss := sector_of dev in
  let total := size_bytes (geometry dev) / ss in
  if total <? 2 then failM corrupt "device too small for GPT"
  else
    p ← read_side dev 1;
    b ← read_side dev (total - 1);
    let pv := side_valid p in
    let bv := side_valid b in
    if negb pv && negb bv then failM corrupt "both GPT copies are invalid"
    else
      (if pv then lift (validate_entries p) else mret tt);;
      (if bv then lift (validate_entries b) else mret tt);;
      if pv && bv && negb (sides_equal p b)
      then failM corrupt
        "primary and backup GPT copies are both valid but disagree (split-brain GPT)"
      else
        pm ← protective_mbr_ok dev;
        let t := table_from_side (if pv then p else b) pm in
        mret (mkTable (header_crc_ok p) (entries_crc_ok p) (header_crc_ok b) (entries_crc_ok b)
                (t_protective_mbr_ok t) (t_current_lba t) (t_backup_lba t) (first_usable_lba t)
                (last_usable_lba t) (entries_lba p) (entries_lba b) (t_header_size t)
                (t_entry_size t) (t_entry_count t) (t_disk_guid t) (partitions t)).

Definition read_table (dev : BlockDevice) : M Table := read_redundant_table dev.

Definition probe (dev : BlockDevice) : M bool :=
  let ss := sector_of dev in
  b ← read_exact dev ss ss;
  mret (bool_decide (slice b 0 8 = SIG)).

(** [options.reread_kernel_table && dev.geometry().is_block_device] and the
    [ioctl]. *)
Definition reread_table (dev : BlockDevice) (options : MutationOptions) : M bool :=
  if reread_kernel_table options && is_block_device (geometry dev)
  then sys_reread_partitions (native_fd dev) else mret false.

Definition table_verified (t : Table) : bool :=
  primary_header_crc_ok t && primary_entries_crc_ok t && backup_header_crc_ok t
  && backup_entries_crc_ok t.

(** The layout [write_pair] computes. *)
Definition entry_sectors (c : RawSide) (ss : Z) : Z :=
  (entry_count c * entry_size c + ss - 1) / ss.
Definition primary_array_lba (c : RawSide) (ss : Z) : Z :=
  let sectors := entry_sectors c ss in
  if (sectors <? first_usable c) && (2 <=? first_usable c - sectors)
  then first_usable c - sectors else 2.

Definition write_pair (dev : BlockDevice) (c : RawSide) (e : bytes) (options : MutationOptions)
    : M MutationReport :=
  require_disk_offline_for_write dev;;
  ds ← inspect_device_safety dev;
  if block_device ds && negb (allow_block_device options)
  then failM unsafe "GPT mutation on a block device requires --allow-block-device"
  else
    let ss := sector_of dev in
    let total := size_bytes (geometry dev) / ss in
    if total <? 100 then failM invalid_argument "device is too small for GPT"
    else
      let last := total - 1 in
      let sectors := entry_sectors c ss in
      let backup_entries := u64 (last - sectors) in
      let primary_entries := primary_array_lba c ss in
      let ecrc := crc32_sum e in
      let bh := make_header c last 1 backup_entries ecrc ss in
      let ph := make_header c 1 last primary_entries ecrc ss in
      write_exact dev (u64 (backup_entries * ss)) e;;
      write_exact dev (last * ss) bh;;
      flush dev;;
      write_exact dev (u64 (primary_entries * ss)) e;;
      write_exact dev ss ph;;
      flush dev;;
      t ← read_redundant_table dev;
      if negb (table_verified t) then failM io "GPT post-write verification failed"
      else
        k ← reread_table dev options;
        mret (mkMutation true true true k).

(** The entry with its first and last LBA replaced. *)
Definition set_entry_range (s : RawSide) (index first last : Z) : RawSide :=
  let off := (index - 1) * entry_size s in
  with_entries (write_le64 (write_le64 (entries s) (off + 32) first) (off + 40) last)
    (entries_crc_ok s) s.

Definition resize_partition (dev : BlockDevice) (index new_first new_last : Z)
    (options : MutationOptions) : M MutationReport :=
  let ss := sector_of dev in
  let total := size_bytes (geometry dev) / ss in
  p ← read_side dev 1;
  b ← read_side dev (u64 (total - 1));
  let pv := side_valid p in
  let bv := side_valid b in
  if pv && bv && negb (sides_equal p b)
  then failM corrupt "refusing GPT mutation because valid primary and backup copies disagree"
  else if negb pv && negb bv
  then failM corrupt "no valid GPT copy is available for mutation"
  else
    let c := if pv then p else b in
    if (index =? 0) || (entry_count c <? index)
    then failM invalid_argument "partition index outside GPT array"
    else if (new_first <? first_usable c) || (last_usable c <? new_last) || (new_last <? new_first)
    then failM invalid_argument "requested partition range is outside usable GPT space"
    else if zero_guid (slice (entry_at c (index - 1)) 0 16)
    then failM not_found "requested GPT partition entry is unused"
    else
      let c := set_entry_range c index new_first new_last in
      lift (validate_entries c);;
      write_pair dev c (entries c) options.

Definition repair_redundancy (dev : BlockDevice) (options : MutationOptions) : M MutationReport :=
  let ss := sector_of dev in
  let total := size_bytes (geometry dev) / ss in
  p ← read_side dev 1;
  b ← read_side dev (u64 (total - 1));
  let pv := side_valid p in
  let bv := side_valid b in
  if negb pv && negb bv then failM corrupt "neither GPT copy can be used as repair source"
  else if pv && bv && negb (sides_equal p b)
  then failM corrupt "both GPT copies are valid but disagree; repair source is ambiguous"
  else
    let c := if pv then p else b in
    lift (validate_entries c);;
    write_pair dev c (entries c) options.

(** ** Metadata backups: a header of 128 bytes and the five pieces *)

Definition backup_magic : bytes :=
  [Byte.x46; Byte.x53; Byte.x58; Byte.x47; Byte.x50; Byte.x54; Byte.x42; Byte.x31].
Definition gpt_backup_header_bytes : Z := 128.

Definition backup_header (ss disk_size entry_bytes primary backup last payload_size pcrc : Z)
    : bytes :=
  let h := zeros 128 in
  let h := splice h 0 backup_magic in
  let h := write_le32 h 8 1 in
  let h := write_le32 h 12 ss in
  let h := write_le64 h 16 disk_size in
  let h := write_le64 h 24 entry_bytes in
  let h := write_le64 h 32 primary in
  let h := write_le64 h 40 backup in
  let h := write_le64 h 48 last in
  let h := write_le64 h 56 payload_size in
  let h := write_le32 h 64 pcrc in
  let h := write_le32 h 68 0 in
  write_le32 h 68 (crc32c_sum h).

(** [read_piece]; the offset is the length of the payload read so far. *)
Definition read_piece (dev : BlockDevice) (payload_size disk_off n : Z) (payload : bytes) : M bytes :=
  if payload_size - zlen payload <? n
  then failM internal "GPT backup payload layout overflow"
  else bs ← read_exact dev disk_off n; mret (payload ++ bs).

(** The part of [backup_metadata] under the destructor of [Cleanup]. *)
Definition write_backup_file (temp backup_path : string) (h payload : bytes) : M unit :=
  out ← create_file temp (gpt_backup_header_bytes + zlen payload);
  write_exact out 0 h;;
  write_exact out gpt_backup_header_bytes payload;;
  flush out;;
  publish_file_noreplace temp backup_path "GPT metadata backup".

Definition backup_metadata (dev : BlockDevice) (backup_path : string) : M unit :=
  t ← read_redundant_table dev;
  if negb (table_verified t)
  then failM corrupt "GPT metadata backup requires two valid GPT copies"
  else
    let ss := sector_of dev in
    if (ss <? 512) || (65536 <? ss)
    then failM unsupported "unsupported logical sector size for GPT backup"
    else
      let entry_bytes := t_entry_count t * t_entry_size t in
      if max_entry_bytes <? entry_bytes
      then failM corrupt "GPT entry array too large to back up"
      else if size_bytes (geometry dev) / ss <? 2
      then failM corrupt "disk too small for GPT backup"
      else
        let last := size_bytes (geometry dev) / ss - 1 in
        let payload_size := 3 * ss + 2 * entry_bytes in
        p ← read_piece dev payload_size 0 ss [];
        p ← read_piece dev payload_size ss ss p;
        p ← read_piece dev payload_size (primary_entries_lba t * ss) entry_bytes p;
        p ← read_piece dev payload_size (backup_entries_lba t * ss) entry_bytes p;
        p ← read_piece dev payload_size (last * ss) ss p;
        if negb (zlen p =? payload_size)
        then failM internal "GPT backup payload size mismatch"
        else
          let h := backup_header ss (size_bytes (geometry dev)) entry_bytes
                     (primary_entries_lba t) (backup_entries_lba t) last payload_size
                     (crc32c_sum p) in
          u ← random_uuid_v4;
          let temp := backup_path +:+ ".part." +:+ format_uuid u in
          r ← attempt (write_backup_file temp backup_path h p);
          match r with
          | Err e => unlink_ignored temp;; raise e
          | Ok _ => mret tt
          end.

(** The decoded header of a backup. *)
Record BackupInfo := mkBackup {
  bk_ss : Z;
  bk_disk_size : Z;
  bk_entry_bytes : Z;
  bk_primary_entries : Z;
  bk_backup_entries : Z;
  bk_backup_header : Z;
  bk_payload_size : Z;
  bk_pcrc : Z
}.

Definition parse_backup_header (h : bytes) : Result BackupInfo :=
  if negb (bool_decide (slice h 0 8 = backup_magic)) then fail corrupt "not an FSX GPT backup"
  else if negb (read_le32 h 8 =? 1) then fail unsupported "unsupported FSX GPT backup version"
  else if negb (crc32c_sum (write_le32 h 68 0) =? read_le32 h 68)
  then fail corrupt "GPT backup header checksum mismatch"
  else Ok (mkBackup (read_le32 h 12) (read_le64 h 16) (read_le64 h 24) (read_le64 h 32)
             (read_le64 h 40) (read_le64 h 48) (read_le64 h 56) (read_le32 h 64)).

(** The checks of [restore_metadata] against the target's geometry. *)
Definition check_backup_geometry (k : BackupInfo) (actual_ss disk_bytes file_bytes : Z) : Result unit :=
  let ss := bk_ss k in
  let eb := bk_entry_bytes k in
  if negb (ss =? actual_ss) || negb (bk_disk_size k =? disk_bytes)
  then fail unsafe "GPT backup geometry does not match target disk"
  else if (eb =? 0) || (max_entry_bytes <? eb)
  then fail corrupt "GPT backup entry geometry is unreasonable"
  else if negb (bk_payload_size k =? 3 * ss + 2 * eb)
  then fail corrupt "GPT backup payload geometry mismatch"
  else if negb (gpt_backup_header_bytes + bk_payload_size k =? file_bytes)
  then fail corrupt "GPT backup file size does not match its header"
  else
    let total := bk_disk_size k / ss in
    if (total <? 2) || negb (bk_backup_header k =? total - 1)
    then fail corrupt "GPT backup header LBA does not match disk geometry"
    else
      let es := (eb + ss - 1) / ss in
      if (total <=? bk_primary_entries k) || (total <=? bk_backup_entries k)
         || (total - bk_primary_entries k <? es) || (total - bk_backup_entries k <? es)
      then fail corrupt "GPT backup entry arrays are outside disk geometry"
      else Ok tt.

(** The five pieces of a payload and the checks of their contents. *)
Record Pieces := mkPieces {
  pc_mbr : bytes;
  pc_ph : bytes;
  pc_pe : bytes;
  pc_be : bytes;
  pc_bh : bytes
}.
Definition pieces_of (payload : bytes) (ss eb : Z) : Pieces :=
  mkPieces (slice payload 0 ss) (slice payload ss ss) (slice payload (2 * ss) eb)
    (slice payload (2 * ss + eb) eb) (slice payload (2 * ss + 2 * eb) ss).

Definition check_pieces (k : BackupInfo) (pc : Pieces) : Result unit :=
  let ss := bk_ss k in
  let total := bk_disk_size k / ss in
  if negb (mbr_signature (pc_mbr pc))
  then fail corrupt "GPT backup protective MBR signature is invalid"
  else if negb (mbr_protective (pc_mbr pc))
  then fail corrupt "GPT backup protective MBR has no 0xEE entry"
  else
    let? ps := side_from_backup_bytes (pc_ph pc) (pc_pe pc) 1 total ss in
    let? bs := side_from_backup_bytes (pc_bh pc) (pc_be pc) (bk_backup_header k) total ss in
    if negb (entries_lba ps =? bk_primary_entries k) || negb (entries_lba bs =? bk_backup_entries k)
    then fail corrupt "GPT backup sidecar entry-array LBAs disagree with embedded headers"
    else if negb (sides_equal ps bs)
    then fail corrupt "GPT backup contains internally inconsistent primary and backup tables"
    else Ok tt.

Definition restore_metadata (dev : BlockDevice) (backup_path : string) (options : MutationOptions)
    : M MutationReport :=
  require_disk_offline_for_write dev;;
  ds ← inspect_device_safety dev;
  if block_device ds && negb (allow_block_device options)
  then failM unsafe "GPT restore on a block device requires --allow-block-device"
  else
    inp ← open_read backup_path;
    h ← read_exact inp 0 gpt_backup_header_bytes;
    k ← lift (parse_backup_header h);
    lift (check_backup_geometry k (sector_of dev) (size_bytes (geometry dev))
            (size_bytes (geometry inp)));;
    payload ← read_exact inp gpt_backup_header_bytes (bk_payload_size k);
    if negb (crc32c_sum payload =? bk_pcrc k)
    then failM corrupt "GPT backup payload checksum mismatch"
    else
      let ss := bk_ss k in
      let pc := pieces_of payload ss (bk_entry_bytes k) in
      lift (check_pieces k pc);;
      write_exact dev (bk_backup_entries k * ss) (pc_be pc);;
      write_exact dev (bk_backup_header k * ss) (pc_bh pc);;
      flush dev;;
      write_exact dev (bk_primary_entries k * ss) (pc_pe pc);;
      write_exact dev ss (pc_ph pc);;
      write_exact dev 0 (pc_mbr pc);;
      flush dev;;
      t ← read_redundant_table dev;
      if negb (table_verified t && t_protective_mbr_ok t)
      then failM io "restored GPT failed post-write verification"
      else
        r ← reread_table dev options;
        mret (mkMutation true true true r).

Definition guid_to_string (g : bytes) : string :=
  let b i := format_byte (nth i g Byte.x00) in
  b 3%nat +:+ b 2%nat +:+ b 1%nat +:+ b 0%nat +:+ "-" +:+ b 5%nat +:+ b 4%nat +:+ "-"
  +:+ b 7%nat +:+ b 6%nat +:+ "-" +:+ b 8%nat +:+ b 9%nat +:+ "-" +:+ b 10%nat +:+ b 11%nat
  +:+ b 12%nat +:+ b 13%nat +:+ b 14%nat +:+ b 15%nat.

(** ** The entries: what the overlap check decides *)

Definition range_of (p : Partition) : Z * Z := (first_lba p, last_lba p).
(** A range the loop of [validate_entries] lets pass. *)
Definition range_ok (s : RawSide) (r : Z * Z) : Prop :=
  r.1 <= r.2 /\ r.1 <= last_usable s /\ first_usable s <= r.2.

(** The ranges of the partitions of a side, as [table_from_side] lists them. *)
Definition side_ranges (s : RawSide) : list (Z * Z) :=
  range_of <$> partitions (table_from_side s true).

Lemma collect_ranges_spec s n i :
  match collect_ranges s n i with
  | Ok rs => rs = range_of <$> concat (partition_of s <$> seqZ i (Z.of_nat n)) /\ Forall (range_ok s) rs
  | Err e => code e = corrupt /\
             ~ Forall (range_ok s) (range_of <$> concat (partition_of s <$> seqZ i (Z.of_nat n)))
  end.
Proof.
  revert i. induction n as [|n IH]; intros i; [by split; [|apply Forall_nil]|].
  cbn [collect_ranges]. rewrite seqZ_cons by lia.
  replace (Z.pred (Z.of_nat (S n))) with (Z.of_nat n) by lia.
  rewrite fmap_cons. cbn [concat]. rewrite fmap_app. unfold partition_of at 1 3.
  specialize (IH (i + 1)). change (Z.succ i) with (i + 1).
  destruct (zero_guid _); [exact IH|]. cbn [fmap list_fmap app].
  set (f := read_le64 _ 32). set (l := read_le64 _ 40). cbv zeta.
  unfold range_of at 1 3. cbn [first_lba last_lba].
  destruct (Z.ltb_spec (last_usable s) f); cbn [orb].
  { split; [done|]. intros [(? & ? & ?) _]%Forall_cons. cbn in *. lia. }
  destruct (Z.ltb_spec l (first_usable s)); cbn [orb].
  { split; [done|]. intros [(? & ? & ?) _]%Forall_cons. cbn in *. lia. }
  destruct (Z.ltb_spec l f); cbn [orb].
  { split; [done|]. intros [(? & ? & ?) _]%Forall_cons. cbn in *. lia. }
  destruct (collect_ranges s n (i + 1)) as [rs|e]; cbn [bindR].
  - destruct IH as [-> Hok]. split; [done|]. apply Forall_cons. split; [|done]. by repeat split.
  - destruct IH as [Hc Hno]. split; [done|]. by intros [_ ?]%Forall_cons.
Qed.

Lemma validate_entries_cases s :
  match validate_entries s with
  | Ok _ => Forall (range_ok s) (side_ranges s) /\ ForallOrdPairs apart_ranges (side_ranges s)
  | Err e => code e = corrupt /\
      ~ (Forall (range_ok s) (side_ranges s) /\ ForallOrdPairs apart_ranges (side_ranges s))
  end.
Proof.
  unfold validate_entries, side_ranges, table_from_side. cbn [partitions].
  pose proof (collect_ranges_spec s (Z.to_nat (entry_count s)) 0) as H.
  assert (E : seqZ 0 (Z.of_nat (Z.to_nat (entry_count s))) = seqZ 0 (entry_count s))
    by (unfold seqZ; f_equal; f_equal; lia).
  rewrite E in H.
  destruct (collect_ranges _ _ _) as [rs|e]; cbn [bindR]; [|intuition].
  destruct H as [<- Hok].
  pose proof (sorted_overlap_spec rs) as Hn.
  destruct (neighbours_overlap _).
  - split; [done|]. intros [_ Hd]. apply diff_true_false, Hn; [|done].
    eapply Forall_impl; [exact Hok|]. by intros r [? _].
  - split; [done|]. apply Hn; [|done]. eapply Forall_impl; [exact Hok|]. by intros r [? _].
Qed.

(** The check of a table's entries accepts exactly the tables whose used
    ranges are ordered, touch the usable space and are pairwise disjoint; any
    other table is reported as corrupt. *)
Theorem gpt_entry_check_exact (s : RawSide) :
  (validate_entries s = Ok tt <->
   Forall (range_ok s) (side_ranges s) /\ ForallOrdPairs apart_ranges (side_ranges s)) /\
  forall e, validate_entries s = Err e -> code e = corrupt.
Proof.
  pose proof (validate_entries_cases s) as H.
  destruct (validate_entries s) as [[]|e]; [by split|]. destruct H as [Hc Hno].
  split; [by split|]. by intros ? [= <-].
Qed.

(** *** Changing the range of an entry *)

(** The partitions after the entry [index] got a new range. *)
Definition with_range (index first last : Z) (p : Partition) : Partition :=
  if p_index p =? index
  then mkPartition index first last (attributes p) (type_guid p) (unique_guid p) (p_name p)
  else p.

Lemma slice_slice_write_le w b off v o n o' n' :
  0 <= off -> off + Z.of_nat w <= zlen b -> 0 <= o -> 0 <= o' -> 0 <= n' -> o' + n' <= n ->
  o + o' + n' <= off \/ off + Z.of_nat w <= o + o' ->
  slice (slice (write_le w b off v) o n) o' n' = slice (slice b o n) o' n'.
Proof. intros. rewrite !slice_slice by lia. by apply slice_write_le_ne; try lia. Qed.

(** The array holds as many entries as the header says, each large enough. *)
Definition array_ok (s : RawSide) : Prop :=
  128 <= entry_size s /\ 0 <= entry_count s /\ zlen (entries s) = entry_count s * entry_size s.

Section EntryUpdate.
Context (s : RawSide) (index first last : Z).
Context (Harr : array_ok s) (Hidx : 1 <= index <= entry_count s).
Context (Hf : in_width 64 first) (Hl : in_width 64 last).

Let s' := set_entry_range s index first last.
Let off := (index - 1) * entry_size s.

Lemma entry_inside i : 0 <= i < entry_count s -> 0 <= i * entry_size s /\
  i * entry_size s + entry_size s <= zlen (entries s).
Proof. destruct Harr as (? & ? & ->). intros. nia. Qed.

Lemma entry_at_other i :
  0 <= i < entry_count s -> i <> index - 1 -> entry_at s' i = entry_at s i.
Proof.
  intros Hi Hne. destruct (entry_inside i Hi) as [H1 H2].
  destruct (entry_inside (index - 1)) as [H3 H4]; [lia|].
  destruct Harr as (He & _ & _).
  assert (i * entry_size s + entry_size s <= off \/ off + entry_size s <= i * entry_size s)
    by (unfold off; nia).
  unfold entry_at, s', set_entry_range. cbn [entries entry_size with_entries]. fold off.
  fold off in H3, H4. unfold write_le64.
  rewrite !slice_write_le_ne; rewrite ?zlen_write_le; try reflexivity; lia.
Qed.

Lemma entry_at_parts o n :
  0 <= o -> 0 <= n -> o + n <= entry_size s -> o + n <= 32 \/ 48 <= o ->
  slice (entry_at s' (index - 1)) o n = slice (entry_at s (index - 1)) o n.
Proof.
  intros. destruct (entry_inside (index - 1)) as [H3 H4]; [lia|]. fold off in H3, H4.
  destruct Harr as (He & _ & _).
  unfold entry_at, s', set_entry_range. cbn [entries entry_size with_entries]. fold off.
  unfold write_le64. rewrite !slice_slice_write_le; rewrite ?zlen_write_le; try lia; done.
Qed.

Lemma entry_at_zlen i : 0 <= i < entry_count s -> zlen (entry_at s i) = entry_size s /\
  zlen (entry_at s' i) = entry_size s.
Proof.
  intros Hi. destruct (entry_inside i Hi). destruct Harr as (He & _ & _).
  unfold entry_at, s', set_entry_range. cbn [entries entry_size with_entries].
  unfold write_le64. rewrite !zlen_slice; rewrite ?zlen_write_le; lia.
Qed.

Lemma entry_at_read o :
  0 <= o -> o + 8 <= entry_size s ->
  read_le64 (entry_at s' (index - 1)) o = read_le64 (entries s') (off + o).
Proof.
  intros. destruct (entry_inside (index - 1)) as [H3 H4]; [lia|].
  unfold entry_at. change (entry_size s') with (entry_size s).
  apply read_le_slice; try lia.
  unfold s', set_entry_range. cbn [entries with_entries]. unfold write_le64.
  rewrite !zlen_write_le. lia.
Qed.

Lemma entry_at_range :
  read_le64 (entry_at s' (index - 1)) 32 = first /\ read_le64 (entry_at s' (index - 1)) 40 = last.
Proof.
  destruct (entry_inside (index - 1)) as [H3 H4]; [lia|]. fold off in H3, H4.
  destruct Harr as (He & _ & _). rewrite !entry_at_read by lia.
  unfold s', set_entry_range. cbn [entries with_entries]. fold off. unfold write_le64. split.
  - rewrite read_write_le_ne by (rewrite ?zlen_write_le; lia).
    apply read_write_le_eq; [lia|lia|done].
  - apply read_write_le_eq; rewrite ?zlen_write_le; [lia|lia|done].
Qed.

Lemma partition_of_updated i :
  0 <= i < entry_count s ->
  partition_of s' i = with_range index first last <$> partition_of s i.
Proof.
  intros Hi. unfold partition_of. change (entry_size s') with (entry_size s).
  destruct (decide (i = index - 1)) as [->|Hne].
  - destruct entry_at_range as [-> ->]. destruct Harr as (He & _ & _).
    rewrite !entry_at_parts by lia.
    destruct (zero_guid _); [done|]. cbn [fmap list_fmap]. unfold with_range.
    cbn [p_index attributes type_guid unique_guid p_name].
    rewrite (proj2 (Z.eqb_eq (index - 1 + 1) index)) by lia. do 2 f_equal; [lia|].
    destruct (entry_at_zlen (index - 1)) as [E1 E2]; [lia|].
    apply (read_le_ext 8); rewrite ?E1, ?E2; try lia. apply entry_at_parts; lia.
  - rewrite entry_at_other by lia. destruct (zero_guid _); [done|].
    cbn [fmap list_fmap]. unfold with_range. cbn [p_index].
    rewrite (proj2 (Z.eqb_neq (i + 1) index)) by lia. done.
Qed.

Lemma table_updated pm :
  partitions (table_from_side s' pm) =
  with_range index first last <$> partitions (table_from_side s pm).
Proof.
  unfold table_from_side. cbn [partitions]. change (entry_count s') with (entry_count s).
  assert (H : Forall (fun i => 0 <= i < entry_count s) (seqZ 0 (entry_count s)))
    by (apply Forall_seqZ; lia).
  induction H as [|i l Hi _ IH]; [done|]. rewrite !fmap_cons. cbn [concat].
  by rewrite fmap_app, IH, partition_of_updated.
Qed.

End EntryUpdate.
