(* ===== verification/GptWrite.v ===== *)
(** Rewriting a GUID partition table: what the two copies hold at every point.

    [side_at] reads a copy of the table from an image; [read_side] returns
    it, [make_header] produces sectors it accepts, and the two groups of
    writes of [write_pair] keep one copy readable throughout. *)
From S2P Require Import Prelude Errors Endian Crc Host Device FileUtil Safety Durable Gpt.
#[local] Open Scope Z_scope.

(** ** A copy of the table in an image *)

Definition side_at (img : bytes) (ss lba : Z) : Result RawSide :=
  let total := zlen img / ss in
  if total <=? lba then fail corrupt "GPT header LBA is outside device"
  else
    let h := slice img (lba * ss) ss in
    if negb (bool_decide (slice h 0 8 = SIG)) then Ok (no_signature lba h)
    else
      let s := header_fields lba h in
      if bad_header_size s ss then fail corrupt "invalid GPT header size"
      else if negb (current_lba s =? lba)
      then fail corrupt "GPT header current-LBA field does not match its location"
      else if bad_entry_geometry s then fail corrupt "unreasonable GPT entry geometry"
      else
        let nbytes := entry_count s * entry_size s in
        if max_entry_bytes <? nbytes then fail corrupt "GPT entry array too large"
        else
          let sectors := (nbytes + ss - 1) / ss in
          if (total <=? entries_lba s) || (total - entries_lba s <? sectors)
          then fail corrupt "GPT entry array lies outside device"
          else
            let e := slice img (entries_lba s * ss) nbytes in
            let s := with_entries e (crc32_sum e =? read_le32 h 88) s in
            let? _ := validate_side_geometry s total ss in
            Ok s.

Lemma header_fields_count lba h : 0 <= entry_count (header_fields lba h) /\
  0 <= entry_size (header_fields lba h) /\ 0 <= entries_lba (header_fields lba h).
Proof.
  unfold header_fields. cbn [entry_count entry_size entries_lba].
  pose proof (read_le_bound 4 h 80). pose proof (read_le_bound 4 h 84).
  pose proof (read_le_bound 8 h 72). unfold in_width in *. lia.
Qed.

(** The whole-device reader computes [side_at] of what the device holds. *)
Lemma read_side_spec d base ws lba h :
  wstate d base ws h -> 0 < sector_of d -> 0 <= lba ->
  wp (read_side d lba) h (fun o h' => quiet h h' /\ o <> OutOfFuel /\
    forall s, o = Ret s -> side_at (put_all ws base) (sector_of d) lba = Ok s).
Proof.
  intros Hw Hss Hlba. pose proof Hw as [_ Hlen Hin].
  assert (Hz : zlen (put_all ws base) = size_bytes (geometry d)) by (by rewrite zlen_put_all).
  unfold read_side, side_at. cbv zeta. rewrite Hz. set (total := _ / _).
  destruct (total <=? lba); [by repeat split|].
  apply wp_bind. eapply wp_mono; [apply durable_read; [exact Hw|nia|lia]|].
  intros o h1 (Hne & Hq & Hv). destruct o as [hd|e|s|]; cbn [carry]; try done.
  destruct (Hv _ eq_refl) as (-> & _ & _). set (hd := slice _ (lba * sector_of d) _).
  destruct (negb (bool_decide _)); [apply wp_ret; by split_and!; [| |intros s [= <-]]|].
  set (s := header_fields lba hd). destruct (header_fields_count lba hd) as (H1 & H2 & H3). fold s in H1, H2, H3.
  destruct (bad_header_size s _); [done|]. destruct (negb (current_lba s =? lba)); [done|].
  destruct (bad_entry_geometry s); [done|]. destruct (max_entry_bytes <? _); [done|].
  destruct (_ || _); [done|].
  assert (Hw1 : wstate d base ws h1) by (by eapply wstate_quiet).
  apply wp_bind. eapply wp_mono; [apply durable_read; [exact Hw1|nia|nia]|].
  intros o h2 (Hne2 & Hq2 & Hv2). assert (Hq' : quiet h h2) by (by eapply quiet_trans).
  destruct o as [e|e|st|]; cbn [carry]; try done.
  destruct (Hv2 _ eq_refl) as (-> & _ & _). set (s' := with_entries _ _ _).
  destruct (validate_side_geometry s' total _) as [u|er]; apply wp_bind; cbn; [|by split_and!].
  split_and!; [done|done|]. by intros ? [= <-].
Qed.

(** What [side_at] accepts, condition by condition. *)
Record accepted (img : bytes) (ss lba : Z) (s : RawSide) : Prop := {
  acc_lba : lba < zlen img / ss;
  acc_sig : slice (slice img (lba * ss) ss) 0 8 = SIG;
  acc_side : s = with_entries (entries s) (crc32_sum (entries s) =? read_le32 (slice img (lba * ss) ss) 88)
                   (header_fields lba (slice img (lba * ss) ss));
  acc_size : bad_header_size s ss = false;
  acc_current : current_lba s = lba;
  acc_entry : bad_entry_geometry s = false;
  acc_bytes : entry_count s * entry_size s <= max_entry_bytes;
  acc_array : entries_lba s < zlen img / ss /\
              entry_sectors s ss <= zlen img / ss - entries_lba s;
  acc_entries : entries s = slice img (entries_lba s * ss) (entry_count s * entry_size s);
  acc_geometry : validate_side_geometry s (zlen img / ss) ss = Ok tt
}.

Lemma side_at_accepted img ss lba s :
  signature_ok s = true -> side_at img ss lba = Ok s -> accepted img ss lba s.
Proof.
  intros Hsig. unfold side_at. cbv zeta. set (h := slice img (lba * ss) ss).
  destruct (Z.leb_spec (zlen img / ss) lba); [done|].
  destruct (bool_decide_reflect (slice h 0 8 = SIG)); cbn [negb]; [|by intros [= <-]].
  destruct (bad_header_size _ _) eqn:E1; [done|].
  destruct (Z.eqb_spec (current_lba (header_fields lba h)) lba) as [E2|]; cbn [negb]; [|done].
  destruct (bad_entry_geometry _) eqn:E3; [done|].
  destruct (Z.ltb_spec max_entry_bytes (entry_count (header_fields lba h) * entry_size (header_fields lba h))); [done|].
  destruct (Z.leb_spec (zlen img / ss) (entries_lba (header_fields lba h))); cbn [orb]; [done|].
  destruct (Z.ltb_spec (zlen img / ss - entries_lba (header_fields lba h))
    ((entry_count (header_fields lba h) * entry_size (header_fields lba h) + ss - 1) / ss)); [done|].
  destruct (validate_side_geometry _ _ _) as [[]|er] eqn:E4; cbn [bindR]; [|done].
  intros [= <-]. by split.
Qed.

Lemma accepted_side_at img ss lba s : accepted img ss lba s -> side_at img ss lba = Ok s.
Proof.
  intros [H1 H2 H3 H4 H5 H6 H7 [H8 H8'] H9 H10]. unfold side_at. cbv zeta.
  set (h := slice img (lba * ss) ss) in *.
  assert (Ef : entry_count s = entry_count (header_fields lba h) /\
    entry_size s = entry_size (header_fields lba h) /\
    entries_lba s = entries_lba (header_fields lba h) /\
    bad_header_size s ss = bad_header_size (header_fields lba h) ss /\
    current_lba s = current_lba (header_fields lba h) /\
    bad_entry_geometry s = bad_entry_geometry (header_fields lba h)) by (by rewrite H3).
  unfold entry_sectors in H8'.
  destruct Ef as (F1 & F2 & F3 & F4 & F5 & F6). rewrite F4 in H4. rewrite F5 in H5.
  rewrite F6 in H6. rewrite F1, F2 in H7, H8', H9. rewrite F3 in H8, H8', H9.
  rewrite (proj2 (Z.leb_gt _ _)), (bool_decide_eq_true_2 _ H2), H4 by lia. cbn [negb].
  rewrite (proj2 (Z.eqb_eq _ _) H5), H6. cbn [negb].
  rewrite !(proj2 (Z.ltb_ge _ _)), (proj2 (Z.leb_gt _ _)) by lia. cbn [orb].
  rewrite <-H9, <-H3, H10. done.
Qed.

(** Two images that agree on a copy's header and array hold the same copy. *)
Lemma accepted_ext img img' ss lba s :
  accepted img ss lba s -> zlen img' = zlen img ->
  slice img' (lba * ss) ss = slice img (lba * ss) ss ->
  slice img' (entries_lba s * ss) (entry_count s * entry_size s)
  = slice img (entries_lba s * ss) (entry_count s * entry_size s) ->
  accepted img' ss lba s.
Proof.
  intros [H1 H2 H3 H4 H5 H6 H7 H8 H9 H10] Hz Hh He.
  split; rewrite ?Hz, ?Hh, ?He; done.
Qed.

(** ** The headers that [make_header] produces *)

(** What a candidate for writing has: fields of their widths, a header that
    fits its sector, and the array the header describes. *)
Record candidate_ok (c : RawSide) (e : bytes) (ss : Z) : Prop := {
  cand_revision : in_width 32 (revision c);
  cand_header : 92 <= header_size c <= ss;
  cand_sector : ss < 2 ^ 32;
  cand_usable : in_width 64 (first_usable c) /\ in_width 64 (last_usable c);
  cand_guid : zlen (disk_guid c) = 16;
  cand_entry : 128 <= entry_size c <= 4096 /\ 1 <= entry_count c <= 16384;
  cand_array : zlen e = entry_count c * entry_size c /\ zlen e <= max_entry_bytes
}.

(** The copy a header of [make_header] and the array [e] make. *)
Definition written_side (c : RawSide) (e : bytes) (current backup elba ss : Z) : RawSide :=
  mkSide true true true current current backup (first_usable c) (last_usable c) elba
    (if revision c =? 0 then 0x10000 else revision c) (header_size c) (entry_count c)
    (entry_size c) (disk_guid c) (make_header c current backup elba (crc32_sum e) ss) e.

Lemma zlen_make_header c current backup elba crc ss :
  92 <= ss -> zlen (disk_guid c) = 16 -> zlen (make_header c current backup elba crc ss) = ss.
Proof.
  intros Hs Hg. assert (Hsig : zlen SIG = 8) by done. unfold make_header. cbv zeta.
  unfold write_le32, write_le64. wr_len. lia.
Qed.

Section MakeHeader.
Context (c : RawSide) (e : bytes) (current backup elba ss : Z).
Context (Hc : candidate_ok c e ss).
Context (Hcur : in_width 64 current) (Hbak : in_width 64 backup) (Helba : in_width 64 elba).

(** The header before its checksum. *)
Let body : bytes :=
  let h := zeros ss in
  let h := splice h 0 SIG in
  let h := write_le32 h 8 (if revision c =? 0 then 0x10000 else revision c) in
  let h := write_le32 h 12 (if header_size c =? 0 then 92 else header_size c) in
  let h := write_le32 h 16 0 in
  let h := write_le32 h 20 0 in
  let h := write_le64 h 24 current in
  let h := write_le64 h 32 backup in
  let h := write_le64 h 40 (first_usable c) in
  let h := write_le64 h 48 (last_usable c) in
  let h := splice h 56 (disk_guid c) in
  let h := write_le64 h 72 elba in
  let h := write_le32 h 80 (entry_count c) in
  let h := write_le32 h 84 (entry_size c) in
  write_le32 h 88 (crc32_sum e).

Lemma make_header_body :
  make_header c current backup elba (crc32_sum e) ss
  = write_le32 body 16 (crc32_sum (slice body 0 (header_size c))).
Proof. done. Qed.

Lemma body_fields :
  zlen body = ss /\ slice body 0 8 = SIG /\
  read_le32 body 8 = (if revision c =? 0 then 0x10000 else revision c) /\
  read_le32 body 12 = header_size c /\ read_le32 body 16 = 0 /\
  read_le64 body 24 = current /\ read_le64 body 32 = backup /\
  read_le64 body 40 = first_usable c /\ read_le64 body 48 = last_usable c /\
  slice body 56 16 = disk_guid c /\ read_le64 body 72 = elba /\
  read_le32 body 80 = entry_count c /\ read_le32 body 84 = entry_size c /\
  read_le32 body 88 = crc32_sum e.
Proof.
  destruct Hc as [H1 [H2 H2'] H3 [H4 H5] H6 [H7 H8] [H9 H10]].
  assert (Hsig : zlen SIG = 8) by done.
  assert (Hr : in_width 32 (if revision c =? 0 then 0x10000 else revision c))
    by (destruct (revision c =? 0); [split; lia|done]).
  assert (Hn : in_width 32 (entry_count c)) by (split; lia).
  assert (Hs : in_width 32 (entry_size c)) by (split; lia).
  assert (Hh : in_width 32 (header_size c)) by (split; lia).
  assert (Hz : (header_size c =? 0) = false) by lia.
  pose proof (crc32_sum_width e) as Hcrc.
  unfold body. cbv zeta. rewrite Hz. unfold write_le32, write_le64.
  split_and!; [by wr_len; lia|rd; done..].
Qed.

Lemma header_fields_make_header :
  header_fields current (make_header c current backup elba (crc32_sum e) ss)
  = with_entries [] false (written_side c e current backup elba ss) /\
  slice (make_header c current backup elba (crc32_sum e) ss) 0 8 = SIG /\
  read_le32 (make_header c current backup elba (crc32_sum e) ss) 88 = crc32_sum e.
Proof.
  destruct body_fields as (F0 & F1 & F2 & F3 & F4 & F5 & F6 & F7 & F8 & F9 & F10 & F11 & F12 & F13).
  pose proof (cand_header _ _ _ Hc) as Hh. set (k := crc32_sum (slice body 0 (header_size c))).
  pose proof (crc32_sum_width (slice body 0 (header_size c))) as Hk. fold k in Hk.
  assert (E : make_header c current backup elba (crc32_sum e) ss = write_le32 body 16 k) by done.
  set (m := make_header _ _ _ _ _ _) in *.
  assert (G : forall w off, 0 <= off -> off + Z.of_nat w <= ss ->
    off + Z.of_nat w <= 16 \/ 20 <= off -> read_le w m off = read_le w body off).
  { intros w off ???. rewrite E. unfold write_le32. apply read_write_le_ne; lia. }
  assert (G2 : forall o n, 0 <= o -> o + n <= 16 \/ 20 <= o -> slice m o n = slice body o n).
  { intros o n ??. rewrite E. unfold write_le32. apply slice_write_le_ne; lia. }
  split; [|split; [by rewrite G2 by lia|by rewrite G by lia]].
  unfold header_fields, with_entries, written_side. cbn [signature_ok header_crc_ok lba
    current_lba backup_lba first_usable last_usable entries_lba revision header_size entry_count
    entry_size disk_guid header]. fold m.
  rewrite !(G 8%nat), (G 4%nat 8), (G 4%nat 12), (G 4%nat 80), (G 4%nat 84), G2 by lia.
  rewrite F2, F3, F5, F6, F7, F8, F9, F10, F11, F12. f_equal.
  rewrite E. unfold write_le32. rewrite read_write_le_eq by (try done; lia).
  replace (write_le 4 (write_le 4 body 16 k) 16 0) with body; [by rewrite Z.eqb_refl|].
  rewrite <-F4. symmetry. apply write_le_back; lia.
Qed.

End MakeHeader.

Lemma zlen_div_room (img : bytes) ss lba : 0 < ss -> lba < zlen img / ss -> lba * ss + ss <= zlen img.
Proof. intros. pose proof (Z.mul_div_le (zlen img) ss). nia. Qed.

(** An image with the header and the array in place holds the copy. *)
Lemma written_accepted img c e current backup elba ss :
  candidate_ok c e ss -> in_width 64 current -> in_width 64 backup -> in_width 64 elba ->
  current < zlen img / ss ->
  slice img (current * ss) ss = make_header c current backup elba (crc32_sum e) ss ->
  slice img (elba * ss) (zlen e) = e ->
  elba < zlen img / ss -> entry_sectors c ss <= zlen img / ss - elba ->
  validate_side_geometry (written_side c e current backup elba ss) (zlen img / ss) ss = Ok tt ->
  accepted img ss current (written_side c e current backup elba ss).
Proof.
  intros Hc Hcur Hbak Helba Hlba Hh He Hin Hroom Hgeo.
  destruct (header_fields_make_header c e current backup elba ss Hc Hcur Hbak Helba) as (F1 & F2 & F3).
  destruct Hc as [H1 [H2 H2'] H3 H4 H6 [H7 H8] [H9 H10]].
  split; rewrite ?Hh; cbn [written_side current_lba entries entry_count entry_size entries_lba].
  - exact Hlba.
  - exact F2.
  - rewrite F3, Z.eqb_refl, F1. reflexivity.
  - unfold bad_header_size. cbn [written_side header_size]. lia.
  - reflexivity.
  - unfold bad_entry_geometry. cbn [written_side entry_size entry_count]. lia.
  - by rewrite <-H9.
  - exact (conj Hin Hroom).
  - rewrite <-H9. by rewrite He.
  - exact Hgeo.
Qed.

Lemma side_geometry_ok s total ss :
  validate_side_geometry s total ss = Ok tt <->
  backup_lba s < total /\ backup_lba s <> current_lba s /\
  first_usable s <= last_usable s < total /\
  (u64 (entries_lba s + entry_sectors s ss - 1) < first_usable s \/ last_usable s < entries_lba s) /\
  (current_lba s < first_usable s \/ last_usable s < current_lba s).
Proof.
  unfold validate_side_geometry, entry_sectors. cbv zeta. split.
  - repeat case_match; intros Hok; try done;
      repeat match goal with H : (_ || _) = _ |- _ => revert H | H : negb _ = _ |- _ => revert H
        | H : (_ && _) = _ |- _ => revert H end; clear; lia.
  - intros. repeat case_match; try done; exfalso;
      repeat match goal with H : (_ || _) = _ |- _ => revert H | H : negb _ = _ |- _ => revert H
        | H : (_ && _) = _ |- _ => revert H end; lia.
Qed.

(** The fields of an accepted copy are those of its header sector. *)
Lemma accepted_header img ss lba s :
  accepted img ss lba s ->
  let h := slice img (lba * ss) ss in
  signature_ok s = true /\ revision s = read_le32 h 8 /\ header_size s = read_le32 h 12 /\
  entry_count s = read_le32 h 80 /\ entry_size s = read_le32 h 84 /\
  entries_lba s = read_le64 h 72 /\ first_usable s = read_le64 h 40 /\
  last_usable s = read_le64 h 48 /\ disk_guid s = slice h 56 16.
Proof.
  intros [_ _ H _ _ _ _ _ _ _]. cbv zeta. set (h := slice img _ _) in *.
  set (e := entries s) in H. clearbody e h. subst s. by repeat split.
Qed.

Lemma accepted_fields img ss lba s :
  accepted img ss lba s -> 0 < ss < 2 ^ 32 -> 0 <= lba ->
  candidate_ok s (entries s) ss /\ in_width 64 (entries_lba s) /\
  entries_lba s * ss + zlen (entries s) <= zlen img /\ signature_ok s = true /\
  lba * ss + ss <= zlen img.
Proof.
  intros Hacc Hss Hlba. pose proof (accepted_header _ _ _ _ Hacc) as Hh. cbv zeta in Hh.
  destruct Hacc as [H1 H2 _ H4 H5 H6 H7 [H8 H8'] H9 H10].
  pose proof (zlen_div_room img ss lba (proj1 Hss) H1) as Hroom.
  set (h := slice img (lba * ss) ss) in *. assert (Hzh : zlen h = ss) by (apply zlen_slice; nia).
  destruct Hh as (F1 & F2 & F3 & F4 & F5 & F6 & F7 & F8 & F9).
  assert (Hcount : 128 <= entry_size s <= 4096 /\ 1 <= entry_count s <= 16384).
  { assert (0 <= entry_count s) by (rewrite F4; apply (read_le_bound 4)).
    unfold bad_entry_geometry in H6. lia. }
  assert (Hsize : 92 <= header_size s <= ss) by (unfold bad_header_size in H4; lia).
  assert (Hlba2 : in_width 64 (entries_lba s)) by (rewrite F6; apply (read_le_bound 8)).
  assert (Harr : entries_lba s * ss + entry_count s * entry_size s <= zlen img).
  { unfold entry_sectors in H8'. pose proof (Z.mul_div_le (zlen img) ss (proj1 Hss)).
    pose proof (Z.mul_succ_div_gt (entry_count s * entry_size s + ss - 1) ss (proj1 Hss)).
    apply (Z.mul_le_mono_nonneg_l _ _ ss) in H8'; lia. }
  assert (Hz : zlen (entries s) = entry_count s * entry_size s).
  { rewrite H9. apply zlen_slice; [destruct Hlba2; nia|nia|lia]. }
  split; [|split; [done|split; [lia|split; [exact F1|exact Hroom]]]].
  split; [rewrite F2; apply (read_le_bound 4)|lia|lia| | |lia|lia].
  - rewrite F7, F8. split; apply (read_le_bound 8).
  - rewrite F9. apply zlen_slice; lia.
Qed.

(** ** [write_pair] on a device whose primary copy is good *)

(** The layout every partitioning tool produces: the primary's array lies
    between its header and the usable space, and the tail behind the usable
    space holds the backup's array and header. *)
Definition standard_layout (p : RawSide) (total ss : Z) : Prop :=
  2 <= entries_lba p /\ entries_lba p + entry_sectors p ss <= first_usable p /\
  last_usable p < total - 1 - entry_sectors p ss.

Lemma reader_read_side d lba : 0 < sector_of d -> 0 <= lba -> reader d (read_side d lba).
Proof.
  intros Hss Hlba. unfold read_side. cbv zeta.
  destruct (_ <=? lba); [apply reader_failM|].
  apply reader_bind; [apply reader_read; nia|]. intros h.
  destruct (negb _); [apply reader_ret|]. set (s := header_fields lba h).
  destruct (header_fields_count lba h) as (H1 & H2 & H3). fold s in H1, H2, H3.
  repeat (case_match; [apply reader_failM|]).
  apply reader_bind; [apply reader_read; nia|]. intros e.
  apply reader_bind; [apply reader_lift|]. intros _. apply reader_ret.
Qed.

Lemma reader_pmbr d : 0 < sector_of d -> reader d (protective_mbr_ok d).
Proof.
  intros. unfold protective_mbr_ok. cbv zeta. case_match; [apply reader_ret|].
  apply reader_bind; [apply reader_attempt, reader_read; lia|]. intros []; apply reader_ret.
Qed.

Lemma reader_table d : 0 < sector_of d -> reader d (read_redundant_table d).
Proof.
  intros Hss. unfold read_redundant_table. cbv zeta. case_match eqn:E; [apply reader_failM|].
  apply reader_bind; [apply reader_read_side; lia|]. intros p.
  apply reader_bind; [apply reader_read_side; lia|]. intros b.
  case_match; [apply reader_failM|].
  apply reader_bind; [case_match; [apply reader_lift|apply reader_ret]|]. intros _.
  apply reader_bind; [case_match; [apply reader_lift|apply reader_ret]|]. intros _.
  case_match; [apply reader_failM|].
  apply reader_bind; [by apply reader_pmbr|]. intros pm. apply reader_ret.
Qed.

Section WritePair.
Context (d : BlockDevice) (base : bytes) (p : RawSide) (e : bytes) (ok : bool).
Let ss := sector_of d.
Let total := zlen base / ss.
Let c := with_entries e ok p.
Let last := total - 1.
Let sectors := entry_sectors p ss.
Let elba_b := last - sectors.
Let elba_p := first_usable p - sectors.
Context (Hss : 0 < ss < 2 ^ 32) (Hsize : size_bytes (geometry d) = zlen base).
Context (Hoff : zlen base < 2 ^ 63).
Context (Hp : accepted base ss 1 p) (Hlay : standard_layout p total ss).
Context (He : zlen e = zlen (entries p)).

(** The copies that the two groups of writes put down. *)
Let new_backup := written_side c e last 1 elba_b ss.
Let new_primary := written_side c e 1 last elba_p ss.
Let bh := make_header c last 1 elba_b (crc32_sum e) ss.
Let ph := make_header c 1 last elba_p (crc32_sum e) ss.
Let group1 : list (Z * bytes) := [(elba_b * ss, e); (last * ss, bh)].
Let group2 : list (Z * bytes) := [(elba_p * ss, e); (ss, ph)].

(** Sector arithmetic: a range of at most [k] sectors. *)
Lemma sector_room a b k n : a + k <= b -> n <= k * ss -> a * ss + n <= b * ss.
Proof. intros. nia. Qed.

Lemma pair_facts :
  candidate_ok c e ss /\ in_width 64 last /\ in_width 64 elba_b /\ in_width 64 elba_p /\
  zlen e <= sectors * ss /\ 0 < sectors /\ zlen bh = ss /\ zlen ph = ss /\
  2 <= elba_p /\ elba_p + sectors = first_usable p /\ first_usable p <= last_usable p /\
  last_usable p < elba_b /\ elba_b + sectors = last /\ last < total /\ total * ss <= zlen base /\
  2 <= entries_lba p /\ entries_lba p + sectors <= first_usable p.
Proof.
  destruct (accepted_fields base ss 1 p Hp) as (Hc & He64 & Harr & _); [lia|lia|].
  destruct Hlay as (L1 & L2 & L3). fold sectors in L2, L3.
  pose proof (proj1 (side_geometry_ok _ _ _) (acc_geometry _ _ _ _ Hp)) as (_ & _ & G3 & _).
  destruct Hc as [H1 H2 H3 H4 H5 H6 [H7 H8]].
  assert (Hsec : zlen e <= sectors * ss /\ 0 < sectors).
  { unfold sectors, entry_sectors. rewrite He, H7.
    pose proof (Z.mul_succ_div_gt (entry_count p * entry_size p + ss - 1) ss (proj1 Hss)).
    split; [lia|]. apply Z.div_str_pos. nia. }
  pose proof (Z.mul_div_le (zlen base) ss (proj1 Hss)) as Ht. fold total in Ht, G3.
  assert (Htb : total <= zlen base) by nia.
  assert (92 <= ss) by lia.
  unfold elba_b, elba_p, last, in_width. split_and!; try lia.
  - split; try done. by rewrite He.
  - apply zlen_make_header; [lia|done].
  - apply zlen_make_header; [lia|done].
Qed.

Lemma group_inside (b : bytes) : zlen b = zlen base ->
  Forall (inside (zlen b)) group1 /\ Forall (inside (zlen b)) group2.
Proof.
  intros ->. destruct pair_facts as (_ & _ & _ & _ & E1 & E2 & E3 & E4 & E5 & E6 & E7 & E8 & E9 & E10 & E11 & _).
  split; (apply Forall_cons; split; [|apply Forall_singleton]); split; cbn [fst snd];
    rewrite ?E3, ?E4; nia.
Qed.

(** While the backup is being written the old primary stays readable. *)
Lemma old_primary img ws : ws ⊆ group1 -> mixture ws base img -> side_at img ss 1 = Ok p.
Proof.
  intros Hws Hm. apply (mixture_mono _ group1) in Hm; [|done].
  destruct pair_facts as (_ & _ & _ & _ & E1 & E2 & E3 & E4 & E5 & E6 & E7 & E8 & E9 & E10 & E11 & E12 & E13).
  destruct (accepted_fields base ss 1 p Hp) as (Hc & _ & Harr & _); [lia|lia|].
  apply accepted_side_at, (accepted_ext base); [done|by eapply mixture_zlen|..].
  - apply (mixture_slice group1); [done|lia|].
    apply Forall_cons. split; [|apply Forall_singleton]; left; cbn [fst]; nia.
  - rewrite <-(proj1 (cand_array _ _ _ Hc)).
    apply (mixture_slice group1); [done|nia|]. rewrite <-He.
    apply Forall_cons. split; [|apply Forall_singleton]; left; cbn [fst];
      apply (sector_room _ _ sectors); lia.
Qed.

Let base1 := put_all group1 base.
Let base2 := put_all group2 base1.

Lemma zlen_bases : zlen base1 = zlen base /\ zlen base2 = zlen base.
Proof.
  destruct (group_inside base eq_refl) as [G1 _].
  assert (H1 : zlen base1 = zlen base) by (by apply zlen_put_all).
  split; [done|]. rewrite <-H1. apply zlen_put_all. by apply group_inside.
Qed.

(** An image that has the bytes of the first group holds the new backup. *)
Lemma new_backup_at (img : bytes) :
  zlen img = zlen base -> slice img (elba_b * ss) (zlen e) = e -> slice img (last * ss) ss = bh ->
  side_at img ss last = Ok new_backup.
Proof.
  intros Hz Hb1 Hb2.
  destruct pair_facts as (Hc & Wl & Wb & Wp & E1 & E2 & E3 & E4 & E5 & E6 & E7 & E8 & E9 & E10 & E11 & E12 & E13).
  pose proof (proj1 (side_geometry_ok _ _ _) (acc_geometry _ _ _ _ Hp)) as (_ & _ & G3 & _).
  fold total in G3.
  apply accepted_side_at, written_accepted; rewrite ?Hz; fold total;
    [exact Hc|exact Wl|by split|exact Wb|lia|exact Hb2|exact Hb1|lia| |].
  - change (entry_sectors c ss) with sectors. lia.
  - apply side_geometry_ok. cbn [written_side backup_lba current_lba first_usable last_usable entries_lba].
    change (first_usable c) with (first_usable p). change (last_usable c) with (last_usable p). lia.
Qed.

Lemma new_primary_at (img : bytes) :
  zlen img = zlen base -> slice img (elba_p * ss) (zlen e) = e -> slice img ss ss = ph ->
  side_at img ss 1 = Ok new_primary.
Proof.
  intros Hz Hb1 Hb2.
  destruct pair_facts as (Hc & Wl & Wb & Wp & E1 & E2 & E3 & E4 & E5 & E6 & E7 & E8 & E9 & E10 & E11 & E12 & E13).
  pose proof (proj1 (side_geometry_ok _ _ _) (acc_geometry _ _ _ _ Hp)) as (_ & _ & G3 & _).
  fold total in G3.
  apply accepted_side_at, written_accepted; rewrite ?Hz; fold total;
    [exact Hc|by split|exact Wl|exact Wp|lia|by rewrite Z.mul_1_l|exact Hb1|lia| |].
  - change (entry_sectors c ss) with sectors. lia.
  - apply side_geometry_ok. cbn [written_side backup_lba current_lba first_usable last_usable entries_lba].
    change (entry_sectors (written_side c e 1 last elba_p ss) ss) with sectors.
    change (first_usable c) with (first_usable p). change (last_usable c) with (last_usable p).
    assert (u64 (elba_p + sectors - 1) = elba_p + sectors - 1)
      by (apply Z.mod_small; unfold in_width in *; lia). lia.
Qed.

Lemma backup_on_base1 : slice base1 (elba_b * ss) (zlen e) = e /\ slice base1 (last * ss) ss = bh.
Proof.
  destruct (group_inside base eq_refl) as [G1 _].
  destruct pair_facts as (_ & _ & _ & _ & E1 & E2 & E3 & E4 & E5 & E6 & E7 & E8 & E9 & E10 & E11 & _).
  split.
  - apply (slice_put_all_write [] (elba_b * ss, e) [(last * ss, bh)]); [done|].
    apply Forall_singleton. left. cbn [fst snd]. nia.
  - rewrite <-E3 at 2. apply (slice_put_all_write [(elba_b * ss, e)] (last * ss, bh) []); [done|].
    by apply Forall_nil.
Qed.

(** While the primary is being written the new backup stays readable. *)
Lemma kept_backup img ws : ws ⊆ group2 -> mixture ws base1 img -> side_at img ss last = Ok new_backup.
Proof.
  intros Hws Hm. apply (mixture_mono _ group2) in Hm; [|done].
  destruct backup_on_base1 as [B1 B2]. destruct zlen_bases as [Z1 _].
  destruct pair_facts as (_ & _ & _ & _ & E1 & E2 & E3 & E4 & E5 & E6 & E7 & E8 & E9 & E10 & E11 & _).
  apply new_backup_at; [by rewrite (mixture_zlen _ _ _ Hm)|..].
  - rewrite (mixture_slice group2 base1 img); [done|done|nia|].
    apply Forall_cons. split; [|apply Forall_singleton]; right; cbn [fst snd]; rewrite ?E4; nia.
  - rewrite (mixture_slice group2 base1 img); [done|done|nia|].
    apply Forall_cons. split; [|apply Forall_singleton]; right; cbn [fst snd]; rewrite ?E4; nia.
Qed.

Lemma both_on_base2 : side_at base2 ss 1 = Ok new_primary /\ side_at base2 ss last = Ok new_backup.
Proof.
  destruct zlen_bases as [Z1 Z2]. destruct (group_inside base1 Z1) as [_ G2].
  destruct pair_facts as (_ & _ & _ & _ & E1 & E2 & E3 & E4 & E5 & E6 & E7 & E8 & E9 & E10 & E11 & _).
  destruct backup_on_base1 as [B1 B2]. split.
  - apply new_primary_at; [done|..].
    + apply (slice_put_all_write [] (elba_p * ss, e) [(ss, ph)]); [done|].
      apply Forall_singleton. right. cbn [fst snd]. rewrite E4. nia.
    + rewrite <-E4 at 2. apply (slice_put_all_write [(elba_p * ss, e)] (ss, ph) []); [done|].
      by apply Forall_nil.
  - apply new_backup_at; [done|..].
    + unfold base2. rewrite slice_put_all; [done|done|nia|].
      apply Forall_cons. split; [|apply Forall_singleton]; right; cbn [fst snd]; rewrite ?E4; nia.
    + unfold base2. rewrite slice_put_all; [done|done|nia|].
      apply Forall_cons. split; [|apply Forall_singleton]; right; cbn [fst snd]; rewrite ?E4; nia.
Qed.

(** One good copy at every point. *)
Let one_good (h : Host) : Prop := forall img, crash_image (file_of h (fd_ d)) img ->
  side_at img ss 1 = Ok p \/ side_at img ss last = Ok new_backup.

Lemma one_good_before ws h : ws ⊆ group1 -> unsettled d base ws h -> one_good h.
Proof. intros Hs Hu img Hc. left. eapply old_primary; [exact Hs|]. by eapply unsettled_crash. Qed.
Lemma one_good_after ws h : ws ⊆ group2 -> unsettled d base1 ws h -> one_good h.
Proof. intros Hs Hu img Hc. right. eapply kept_backup; [exact Hs|]. by eapply unsettled_crash. Qed.
Lemma one_good_settled h : unsettled d base2 [] h -> one_good h.
Proof.
  intros Hu img Hc. right. rewrite (settled_crash _ _ _ _ Hu Hc). by apply both_on_base2.
Qed.

Lemma write_pair_layout :
  u64 (last - entry_sectors c ss) = elba_b /\ primary_array_lba c ss = elba_p /\
  u64 (elba_b * ss) = elba_b * ss /\ u64 (elba_p * ss) = elba_p * ss.
Proof.
  destruct pair_facts as (Hc & Wl & Wb & Wp & E1 & E2 & E3 & E4 & E5 & E6 & E7 & E8 & E9 & E10 & E11 & E12 & E13).
  change (entry_sectors c ss) with sectors. fold elba_b.
  assert (elba_b * ss <= zlen base) by nia. assert (elba_p * ss <= zlen base) by nia.
  unfold in_width in *. split_and!; try (apply Z.mod_small; nia).
  unfold primary_array_lba. change (entry_sectors c ss) with sectors.
  change (first_usable c) with (first_usable p).
  rewrite (proj2 (Z.ltb_lt _ _)), (proj2 (Z.leb_le _ _)) by lia. done.
Qed.

Lemma write_pair_spec options h :
  wstate d base [] h ->
  wp (write_pair d c e options) h (fun o h' => o <> OutOfFuel /\ one_good h' /\
    forall r, o = Ret r -> wstate d base2 [] h').
Proof.
  intros Hw. unfold write_pair. cbv zeta.
  assert (Hab1 : forall (o : Outcome MutationReport) h' ws, aborted o -> ws ⊆ group1 ->
    unsettled d base ws h' -> o <> OutOfFuel /\ one_good h' /\ forall r, o = Ret r -> wstate d base2 [] h').
  { intros o h' ws Ho Hs Hu. split; [by destruct o|]. split; [by eapply one_good_before|].
    intros r ->. done. }
  assert (Hab2 : forall (o : Outcome MutationReport) h' ws, aborted o -> ws ⊆ group2 ->
    unsettled d base1 ws h' -> o <> OutOfFuel /\ one_good h' /\ forall r, o = Ret r -> wstate d base2 [] h').
  { intros o h' ws Ho Hs Hu. split; [by destruct o|]. split; [by eapply one_good_after|].
    intros r ->. done. }
  assert (Hab3 : forall (o : Outcome MutationReport) h', aborted o ->
    wstate d base2 [] h' -> o <> OutOfFuel /\ one_good h' /\ forall r, o = Ret r -> wstate d base2 [] h').
  { intros o h' Ho Hu. split; [by destruct o|]. split; [|done].
    by apply one_good_settled, wstate_unsettled. }
  assert (Hnil : forall g : list (Z * bytes), [] ⊆ g) by (intros g; apply list_subseteq_nil).
  eapply wp_reader; [exact Hw|apply reader_offline| |].
  2: { intros o h' Ho Hq Hw'. eapply Hab1; [done|apply Hnil|by apply wstate_unsettled]. }
  intros _ h1 _ _ Hw1. clear Hw h. 
  eapply wp_reader; [exact Hw1|apply reader_inspect| |].
  2: { intros o h' Ho Hq Hw'. eapply Hab1; [done|apply Hnil|by apply wstate_unsettled]. }
  intros sf h2 _ _ Hw2. clear Hw1 h1.
  assert (Hfail : forall c msg, wp (failM (A:=MutationReport) c msg) h2 (fun o h' =>
    o <> OutOfFuel /\ one_good h' /\ forall r, o = Ret r -> wstate d base2 [] h')).
  { intros k msg. eapply Hab1; [done|apply (Hnil group1)|by apply wstate_unsettled]. }
  destruct (_ && _); [apply Hfail|].
  rewrite Hsize. fold ss total. destruct (total <? 100); [apply Hfail|]. fold last.
  destruct write_pair_layout as (-> & -> & -> & ->). fold bh ph.
  destruct pair_facts as (_ & _ & _ & _ & E1 & E2 & E3 & E4 & E5 & E6 & E7 & E8 & E9 & E10 & E11 & _).
  eapply wp_group_write; [exact Hw2|nia| |].
  2: { intros o h' ws Ho _ Hs Hu. eapply Hab1; [done| |exact Hu].
       intros w Hin. apply Hs in Hin. apply list_elem_of_singleton in Hin as ->. by left. }
  intros h3 Hw3 _. eapply wp_group_write; [exact Hw3|nia| |].
  2: { intros o h' ws Ho _ Hs Hu. by eapply Hab1. }
  intros h4 Hw4 _. eapply wp_group_flush; [exact Hw4| |].
  2: { intros o h' Ho _ [Hu|Hu]; [by eapply (Hab1 o h' group1)|].
       eapply (Hab2 o h' []); [done|apply Hnil|exact Hu]. }
  intros h5 Hw5 _. eapply wp_group_write; [exact Hw5|nia| |].
  2: { intros o h' ws Ho _ Hs Hu. eapply Hab2; [done| |exact Hu].
       intros w Hin. apply Hs in Hin. apply list_elem_of_singleton in Hin as ->. by left. }
  intros h6 Hw6 _. eapply wp_group_write; [exact Hw6|lia| |].
  2: { intros o h' ws Ho _ Hs Hu. by eapply Hab2. }
  intros h7 Hw7 _. eapply wp_group_flush; [exact Hw7| |].
  2: { intros o h' Ho _ [Hu|Hu]; [by eapply (Hab2 o h' group2)|].
       split; [by destruct o|]. split; [by apply one_good_settled|]. by intros r ->. }
  intros h8 Hw8 _. eapply wp_reader; [exact Hw8|apply reader_table; lia| |].
  2: { intros o h' Ho _ Hw'. by apply Hab3. }
  intros t h9 _ _ Hw9. destruct (negb (table_verified t)); [by apply Hab3|].
  eapply wp_reader; [exact Hw9|unfold reread_table; case_match; [apply reader_reread|apply reader_ret]| |].
  2: { intros o h' Ho _ Hw'. by apply Hab3. }
  intros k h10 _ _ Hw10. apply wp_ret. split; [done|]. split; [|by intros r _].
  by apply one_good_settled, wstate_unsettled.
Qed.

End WritePair.

(** The copies written for a resize list the partitions with the new range. *)
Lemma resized_partitions p index f l current backup elba ss pm :
  candidate_ok p (entries p) ss -> 1 <= index <= entry_count p -> in_width 64 f -> in_width 64 l ->
  let c := set_entry_range p index f l in
  let s := written_side c (entries c) current backup elba ss in
  side_valid s = true /\
  partitions (table_from_side s pm) = with_range index f l <$> partitions (table_from_side p pm).
Proof.
  intros Hc Hi Hf Hl. cbv zeta. split; [done|].
  rewrite <-(table_updated p index f l) by (try done; destruct Hc; split; lia). done.
Qed.

(** [s] is a good copy of the table of [p] with the range of one entry changed. *)
Definition resized (p : RawSide) (index f l : Z) (s : RawSide) : Prop :=
  side_valid s = true /\
  forall pm, partitions (table_from_side s pm) = with_range index f l <$> partitions (table_from_side p pm).

(** A header built for a candidate and the candidate's array are read
    back as the copy they describe, with both checksums right, by the reader of
    metadata backups, provided the geometry and the entries are ones it accepts. *)
Theorem gpt_headers_read_back (c : RawSide) (e : bytes) (current backup elba total ss : Z)
    (Hc : candidate_ok c e ss) (Hcur : in_width 64 current) (Hbak : in_width 64 backup)
    (Helba : in_width 64 elba)
    (Hgeo : validate_side_geometry (written_side c e current backup elba ss) total ss = Ok tt)
    (Hent : validate_entries (written_side c e current backup elba ss) = Ok tt) :
  side_from_backup_bytes (make_header c current backup elba (crc32_sum e) ss) e current total ss
  = Ok (written_side c e current backup elba ss).
Proof.
  destruct (header_fields_make_header c e current backup elba ss Hc Hcur Hbak Helba) as (F1 & F2 & F3).
  assert (Hz : zlen (make_header c current backup elba (crc32_sum e) ss) = ss).
  { destruct Hc. apply zlen_make_header; [lia|done]. }
  destruct Hc as [H1 H2 H3 H4 H6 H7 [H9 H10]].
  unfold side_from_backup_bytes. rewrite Hz, Z.ltb_irrefl. cbv zeta.
  rewrite (slice_all _ ss) by (by rewrite Hz). rewrite F2, (bool_decide_eq_true_2 _ eq_refl).
  cbn [negb]. rewrite F1, F3, Z.eqb_refl. set (s := written_side _ _ _ _ _ _) in *.
  assert (E1 : bad_header_size (with_entries [] false s) ss = false)
    by (unfold bad_header_size; cbn [s written_side with_entries header_size]; lia).
  assert (E2 : bad_entry_geometry (with_entries [] false s) = false)
    by (unfold bad_entry_geometry; cbn [s written_side with_entries entry_size entry_count]; lia).
  rewrite E1, E2. change (header_crc_ok (with_entries [] false s)) with true.
  change (current_lba (with_entries [] false s)) with current.
  change (entry_count (with_entries [] false s) * entry_size (with_entries [] false s))
    with (entry_count c * entry_size c).
  rewrite H9, !Z.eqb_refl. change (with_entries e true (with_entries [] false s)) with s.
  change (entries_crc_ok s) with true. cbn [negb]. rewrite Hgeo. cbn [bindR]. rewrite Hent. reflexivity.
Qed.

(** What a resize leaves: one good copy in every image a power cut can leave,
    and both copies with the new range when it reports success. *)
Definition one_copy (d : BlockDevice) (p : RawSide) (index f l last : Z) (h' : Host) : Prop :=
  let ss := sector_of d in
  forall img, crash_image (file_of h' (fd_ d)) img ->
    side_at img ss 1 = Ok p \/ exists b, side_at img ss last = Ok b /\ resized p index f l b.
Definition both_copies (d : BlockDevice) (p : RawSide) (index f l last : Z) (h' : Host) : Prop :=
  let ss := sector_of d in
  forall img, crash_image (file_of h' (fd_ d)) img ->
    exists a b, side_at img ss 1 = Ok a /\ side_at img ss last = Ok b /\
      resized p index f l a /\ resized p index f l b.
Definition resize_outcome (d : BlockDevice) (p : RawSide) (index f l last : Z)
    (o : Outcome MutationReport) (h' : Host) : Prop :=
  o <> OutOfFuel /\ one_copy d p index f l last h' /\
  forall r, o = Ret r -> both_copies d p index f l last h'.

Lemma resize_partition_spec (d : BlockDevice) (base : bytes) (p : RawSide) (index f l : Z)
    (options : MutationOptions) (h : Host)
    (Hw : wstate d base [] h) (Hss : 0 < sector_of d < 2 ^ 32) (Hoff : zlen base < 2 ^ 63)
    (Hp : side_at base (sector_of d) 1 = Ok p) (Hv : side_valid p = true)
    (Hlay : standard_layout p (zlen base / sector_of d) (sector_of d))
    (Hf : in_width 64 f) (Hl : in_width 64 l) (Hi : in_width 32 index) :
  wp (resize_partition d index f l options) h
     (resize_outcome d p index f l (zlen base / sector_of d - 1)).
Proof.
  pose proof Hw as [_ Hlen _]. set (ss := sector_of d) in *. set (last := zlen base / ss - 1).
  assert (Hacc : accepted base ss 1 p).
  { apply side_at_accepted; [|done]. unfold side_valid in Hv. by destruct (signature_ok p). }
  destruct (accepted_fields base ss 1 p Hacc) as (Hc & _); [lia|lia|].
  pose proof (acc_lba _ _ _ _ Hacc) as Htot.
  assert (Hsettled : forall o h', aborted o -> wstate d base [] h' ->
    resize_outcome d p index f l last o h').
  { intros o h' Ho Hw'. split; [by destruct o|]. split; [|by intros r ->].
    intros img Himg. left. by rewrite (settled_crash _ _ _ _ (wstate_unsettled _ _ _ _ Hw') Himg). }
  unfold resize_partition. cbv zeta. rewrite <-Hlen. fold ss last.
  apply wp_bind. eapply wp_mono; [by apply (read_side_spec d base []); [|lia|lia]|].
  intros o h1 (Hq1 & Hne1 & Hs1). assert (Hw1 : wstate d base [] h1) by (by eapply wstate_quiet).
  destruct o as [p'|er|st|]; cbn [carry]; [|by apply Hsettled..|done].
  assert (p' = p) as ->.
  { specialize (Hs1 p' eq_refl). fold ss in Hs1. cbn [put_all foldl] in Hs1. congruence. }
  eapply wp_reader; [exact Hw1|apply reader_read_side; [fold ss; lia|]| |].
  { unfold wrap. by apply Z.mod_pos_bound. }
  2: { intros o h' Ho _ Hw'. by apply Hsettled. }
  intros b h2 _ _ Hw2. rewrite Hv.
  assert (Hfail : forall k msg, wp (failM k msg) h2 (resize_outcome d p index f l last))
    by (intros k msg; exact (Hsettled (Fail (mkError k 0 msg)) h2 I Hw2)).
  destruct (_ && _); [apply Hfail|]. cbn [negb andb].
  destruct ((index =? 0) || _) eqn:Ei; [apply Hfail|].
  destruct ((f <? _) || _ || _); [apply Hfail|].
  destruct (zero_guid _); [apply Hfail|].
  set (c := set_entry_range p index f l). destruct (validate_entries c); [|exact (Hsettled (Fail error) h2 I Hw2)].
  apply wp_bind. cbn [lift]. unfold wp at 1. cbn [fst snd carry mret M_ret].
  assert (Hidx : 1 <= index <= entry_count p) by (unfold in_width in Hi; lia).
  assert (He : zlen (entries c) = zlen (entries p)).
  { unfold c, set_entry_range. cbn [entries with_entries]. unfold write_le64. by rewrite !zlen_write_le. }
  eapply wp_mono; [by apply (write_pair_spec d base p (entries c) (entries_crc_ok p))|].
  intros o h3 (Hne & Hgood & Hret). split; [done|]. split.
  - intros img Himg. destruct (Hgood img Himg) as [|Hb]; [by left|right].
    eexists. split; [exact Hb|]. split; [done|]. intros pm.
    by apply (resized_partitions p index f l _ _ _ ss pm).
  - intros r Hr img Himg. specialize (Hret r Hr).
    rewrite (settled_crash _ _ _ _ (wstate_unsettled _ _ _ _ Hret) Himg).
    destruct (both_on_base2 d base p (entries c) (entries_crc_ok p)) as [B1 B2]; try done.
    eexists _, _. split; [exact B1|]. split; [exact B2|].
    split; (split; [done|]); intros pm; by apply (resized_partitions p index f l _ _ _ ss pm).
Qed.


(** A disk of 100 sectors with one partition, the sectors 10 to 20. *)
Definition demo_entries : bytes :=
  write_le64 (write_le64 (replicate 16 Byte.xff ++ zeros 112) 32 10) 40 20.
Definition demo_candidate : RawSide :=
  mkSide true true true 1 1 99 3 97 2 0x10000 92 1 128 (zeros 16) [] demo_entries.
Definition demo_primary : RawSide := written_side demo_candidate demo_entries 1 99 2 512.
Definition demo_gpt_disk : bytes :=
  splice (splice (zeros 51200) 1024 demo_entries) 512 (header demo_primary).
Definition demo_gpt_device : BlockDevice :=
  mkDevice 1 "disk" (mkGeometry 51200 512 512 false false) true.
Definition demo_gpt_host : Host := demo_host (mkFile Regular demo_gpt_disk []) [].

Lemma demo_candidate_ok : candidate_ok demo_candidate demo_entries 512.
Proof. by split; vm_compute. Qed.

Lemma gpt_headers_read_back_witness :
  side_from_backup_bytes (header demo_primary) demo_entries 1 100 512 = Ok demo_primary.
Proof.
  apply gpt_headers_read_back;
    [exact demo_candidate_ok|by split..|vm_compute; reflexivity|vm_compute; reflexivity].
Defined.

Lemma demo_gpt_layout :
  zlen demo_gpt_disk = 51200 /\ side_at demo_gpt_disk 512 1 = Ok demo_primary.
Proof.
  assert (He : zlen demo_entries = 128) by (vm_compute; reflexivity).
  assert (Hh : zlen (header demo_primary) = 512) by (apply zlen_make_header; [lia|vm_compute; reflexivity]).
  assert (Hz0 : zlen (zeros 51200) = 51200) by (apply zlen_zeros; lia).
  assert (Hz1 : zlen (splice (zeros 51200) 1024 demo_entries) = 51200)
    by (rewrite zlen_splice; rewrite ?Hz0, ?He; lia).
  assert (Hz : zlen demo_gpt_disk = 51200)
    by (unfold demo_gpt_disk; rewrite zlen_splice; rewrite ?Hz1, ?Hh; lia).
  split; [exact Hz|].
  apply accepted_side_at, written_accepted; rewrite ?Hz;
    [exact demo_candidate_ok|by split..|vm_compute; reflexivity| | |vm_compute; reflexivity
    |vm_compute; discriminate|vm_compute; reflexivity].
  - apply slice_splice_eq; [lia|rewrite Hz1; lia|symmetry; exact Hh].
  - unfold demo_gpt_disk. change (2 * 512) with 1024.
    rewrite slice_splice_ne by (rewrite ?Hz1, ?Hh, ?He; lia).
    apply slice_splice_eq; [lia|rewrite Hz0; lia|reflexivity].
Qed.

