(* ===== verification/Mbr.v ===== *)
(** MBR partition tables (include/fsx/mbr.hpp, src/partition/mbr.cpp).

    The undo sector is published durably before sector 0 is written. *)
From S2P Require Import Prelude Ranges Errors Endian Host Device Uuid FileUtil Safety Durable.
From stdpp Require Import sorting.
#[local] Open Scope Z_scope.

Record Partition := mkPartition {
  index : Z;
  bootable : bool;
  type : Z;
  first_lba : Z;
  sectors : Z
}.
Definition last_lba (p : Partition) : Z :=
  if sectors p =? 0 then first_lba p else first_lba p + sectors p - 1.

Record Table := mkTable {
  signature_ok : bool;
  protective : bool;
  hybrid : bool;
  disk_signature : Z;
  partitions : list Partition
}.

Record MutationOptions := mkOptions {
  allow_block_device : bool;
  backup_sector_path : string
}.

Definition PART_OFF : Z := 446.

Definition read_sector (dev : BlockDevice) : M bytes := read_exact dev 0 512.

(** One round of the loop of [decode]. *)
Definition entry (b : bytes) (i : Z) : list Partition :=
  let o := PART_OFF + i * 16 in
  let type := byte_at b (o + 4) in
  let count := read_le32 b (o + 12) in
  if (type =? 0) || (count =? 0) then []
  else [mkPartition (i + 1) (byte_at b o =? 0x80) type (read_le32 b (o + 8)) count].

Definition is_protective (p : Partition) : bool := type p =? 0xee.

Definition decode (b : bytes) : Result Table :=
  if zlen b <? 512 then fail corrupt "MBR sector truncated"
  else
    let ps := concat (entry b <$> [0; 1; 2; 3]) in
    let protect := zlen (filter (fun p => is_protective p = true) ps) in
    let nonprotect := zlen (filter (fun p => is_protective p = false) ps) in
    Ok (mkTable ((byte_at b 510 =? 0x55) && (byte_at b 511 =? 0xaa))
          (0 <? protect) ((0 <? protect) && (0 <? nonprotect)) (read_le32 b 440) ps).

(** The ranges [validate] collects. *)
Fixpoint collect (ps : list Partition) (disk_sectors : Z) : Result (list (Z * Z)) :=
  match ps with
  | [] => Ok []
  | p :: ps =>
      if sectors p =? 0 then collect ps disk_sectors
      else if disk_sectors <=? last_lba p
      then fail invalid_argument "MBR partition exceeds disk"
      else
        let? rs := collect ps disk_sectors in
        Ok (if type p =? 0xee then rs else (first_lba p, last_lba p) :: rs)
  end.

Definition validate (t : Table) (disk_sectors : Z) : Result unit :=
  let? rs := collect (partitions t) disk_sectors in
  if neighbours_overlap (merge_sort pair_le rs)
  then fail invalid_argument "MBR partitions overlap"
  else Ok tt.

Definition read_table (dev : BlockDevice) : M Table :=
  b ← read_sector dev;
  t ← lift (decode b);
  if negb (signature_ok t) then failM unsupported "not an MBR partition table" else mret t.

(** The sector with the entry's first sector and count replaced. *)
Definition set_entry (b : bytes) (index first sectors : Z) : bytes :=
  let off := PART_OFF + (index - 1) * 16 in
  write_le32 (write_le32 b (off + 8) first) (off + 12) sectors.

(** The part of [resize_partition] under the destructor of [Cleanup]. *)
Definition publish_undo (temp path : string) (orig : bytes) : M unit :=
  backup ← create_file temp 512;
  write_exact backup 0 orig;;
  flush backup;;
  publish_file_noreplace temp path "MBR undo sector".

Definition resize_partition (dev : BlockDevice) (index first sectors : Z) (o : MutationOptions)
    : M unit :=
  if (index <? 1) || (4 <? index) || (sectors =? 0)
  then failM invalid_argument "invalid MBR resize arguments"
  else if bool_decide (backup_sector_path o = "")
  then failM invalid_argument "MBR mutation requires --backup-sector=FILE"
  else
    require_disk_offline_for_write dev;;
    ds ← inspect_device_safety dev;
    if block_device ds && negb (allow_block_device o)
    then failM unsafe "MBR mutation on block device requires --allow-block-device"
    else
      b ← read_sector dev;
      old ← lift (decode b);
      if negb (signature_ok old) then failM corrupt "MBR signature invalid"
      else if protective old || hybrid old
      then failM unsafe "refusing MBR mutation on protective/hybrid GPT media; use GPT commands"
      else if byte_at b (PART_OFF + (index - 1) * 16 + 4) =? 0
      then failM not_found "MBR partition entry unused"
      else
        let b := set_entry b index first sectors in
        nt ← lift (decode b);
        let ss := if logical_sector (geometry dev) =? 0 then 512 else logical_sector (geometry dev) in
        lift (validate nt (size_bytes (geometry dev) / ss));;
        orig ← read_sector dev;
        u ← random_uuid_v4;
        let temp := backup_sector_path o +:+ ".part." +:+ format_uuid u in
        r ← attempt (publish_undo temp (backup_sector_path o) orig);
        match r with
        | Err e => unlink_ignored temp;; raise e
        | Ok _ => write_exact dev 0 b;; flush dev
        end.

Definition restore_sector (dev : BlockDevice) (path : string) (allow : bool) : M unit :=
  require_disk_offline_for_write dev;;
  ds ← inspect_device_safety dev;
  if block_device ds && negb allow
  then failM unsafe "MBR restore on block device requires --allow-block-device"
  else
    b ← open_read path;
    if negb (size_bytes (geometry b) =? 512)
    then failM corrupt "MBR backup must contain exactly one 512-byte sector"
    else
      sec ← read_exact b 0 512;
      match decode sec with
      | Ok t =>
          if negb (signature_ok t) then failM corrupt "MBR backup sector is invalid"
          else write_exact dev 0 sec;; flush dev
      | Err _ => failM corrupt "MBR backup sector is invalid"
      end.

(** ** Decoding and checking *)

Lemma collect_spec ps n :
  match collect ps n with
  | Ok rs =>
      Forall (fun p => sectors p <> 0 -> last_lba p < n) ps /\
      rs = (fun p => (first_lba p, last_lba p)) <$>
             filter (fun p => sectors p <> 0 /\ type p <> 0xee) ps
  | Err e => code e = invalid_argument
  end.
Proof.
  induction ps as [|p ps IH]; [by split; [apply Forall_nil|]|]. cbn [collect].
  destruct (Z.eqb_spec (sectors p) 0) as [E|E].
  { destruct (collect ps n); [|done]. destruct IH as [H1 ->]. split.
    - apply Forall_cons. by split.
    - rewrite filter_cons_False by intuition. done. }
  destruct (Z.leb_spec n (last_lba p)); [done|].
  destruct (collect ps n) as [rs|]; cbn [bindR]; [|done]. destruct IH as [H1 ->]. split.
  - apply Forall_cons. by split.
  - destruct (Z.eqb_spec (type p) 0xee).
    + rewrite filter_cons_False by intuition. done.
    + rewrite filter_cons_True by intuition. done.
Qed.

Lemma decode_partitions b t : decode b = Ok t -> partitions t = concat (entry b <$> [0; 1; 2; 3]).
Proof.
  unfold decode. destruct (zlen b <? 512); [done|]. cbv zeta.
  set (ps := concat _). clearbody ps. by intros [= <-].
Qed.

(** The partitions of [t] lie on the disk and, protective ones apart, do not
    share a sector. *)
Definition table_ok (t : Table) (disk_sectors : Z) : Prop :=
  Forall (fun p => sectors p <> 0 -> last_lba p < disk_sectors) (partitions t) /\
  ForallOrdPairs apart_ranges
    ((fun p => (first_lba p, last_lba p)) <$>
       filter (fun p => sectors p <> 0 /\ type p <> 0xee) (partitions t)).

Definition counts_ok (t : Table) : Prop := Forall (fun p => 0 <= sectors p) (partitions t).

Lemma decode_counts b t : decode b = Ok t -> counts_ok t.
Proof.
  unfold decode. destruct (zlen b <? 512); [done|]. cbv zeta. intros [= <-]. unfold counts_ok.
  cbn [partitions]. assert (H : forall i, Forall (fun p => 0 <= sectors p) (entry b i)).
  { intros i. unfold entry. case_match; [by apply Forall_nil|].
    apply Forall_singleton. apply (read_le_bound 4). }
  cbn [fmap list_fmap concat]. rewrite !Forall_app. by split_and!.
Qed.

Lemma validate_ok t n : counts_ok t -> validate t n = Ok tt -> table_ok t n.
Proof.
  intros Hc. unfold validate. pose proof (collect_spec (partitions t) n) as H.
  destruct (collect _ _) as [rs|]; cbn [bindR]; [|done]. destruct H as [H1 ->].
  destruct (neighbours_overlap _) eqn:E; [done|]. intros _. split; [done|].
  apply sorted_overlap_spec in E; [done|].
  apply Forall_fmap. apply list.Forall_forall. intros p Hp.
  apply list_elem_of_filter in Hp as [[Hp1 _] Hp2].
  unfold counts_ok in Hc. rewrite list.Forall_forall in Hc. specialize (Hc p Hp2).
  cbn. unfold last_lba. rewrite (proj2 (Z.eqb_neq _ _) Hp1). lia.
Qed.

(** ** The undo file *)

(** The file that [path] durably names holds exactly [data], durably. *)
Definition saved (path : string) (data : bytes) (next : Z) (h : Host) : Prop :=
  exists fd f, next <= fd /\ h_durable_names h !! path = Some fd /\
    h_files h !! fd = Some f /\ f_durable f = data /\ f_pending f = [].

Lemma saved_device d path data next h h' :
  fd_ d < next -> saved path data next h -> only_device d h h' -> saved path data next h'.
Proof.
  intros Hd (fd & f & Hn & H1 & H2 & H3) (A1 & _ & A3 & _).
  exists fd, f. rewrite A3, A1 by lia. done.
Qed.

Lemma publish_undo_spec temp path orig h :
  temp <> path -> zlen orig = 512 ->
  wp (publish_undo temp path orig) h (fun o h' => o <> OutOfFuel /\ fresh_only h h' /\
    (o = Ret tt -> saved path orig (h_next h) h')).
Proof.
  intros Hne Hz. unfold publish_undo. apply wp_bind.
  eapply wp_mono; [by apply create_file_spec|]. intros o h1 (Hne1 & Hfr1 & Hdn1 & Hd).
  destruct o as [out|e|s|]; cbn [carry]; [|by split_and!..].
  destruct (Hd out eq_refl) as (Hfd & Hw & Hn1 & Hlt). rewrite <-Hfd.
  assert (Hfail : forall (o : Outcome unit) h', aborted o -> only_device out h1 h' ->
    o <> OutOfFuel /\ fresh_only h h' /\ (o = Ret tt -> saved path orig (fd_ out) h')).
  { intros o h' Ho Hod. split; [by destruct o|]. split; [|by intros ->].
    eapply fresh_only_device; [|exact Hfr1|exact Hod]. lia. }
  eapply wp_group_write; [exact Hw|lia| |by intros; eapply Hfail].
  intros h2 Hw2 Hod2. cbn [app] in Hw2. eapply wp_group_flush; [exact Hw2| |].
  2: { intros o h' Ho Hod _. eapply Hfail; [done|by eapply only_device_trans]. }
  intros h3 Hw3 Hod3. assert (Hod : only_device out h1 h3) by (by eapply only_device_trans).
  assert (Hfr3 : fresh_only h h3) by (eapply fresh_only_device; [|exact Hfr1|exact Hod]; lia).
  eapply wp_mono; [by apply publish_spec|]. intros o h4 (Hne4 & Hno & _ & Hok & _).
  split; [done|]. split; [by eapply fresh_only_trans, fresh_only_names|].
  intros ->. destruct (Hok eq_refl) as (fd & _ & Ht & _ & Hdur & _).
  destruct Hod as (_ & On & _). rewrite On, Hn1, lookup_insert_eq in Ht. injection Ht as <-.
  destruct Hw3 as [(f & [Hf _] & [Hfd3 Hp] & Hc) _ _].
  exists (fd_ out), f. split_and!; [lia|congruence|destruct Hno as (-> & _); done| |].
  - rewrite Hfd3. unfold put_all. cbn [foldl fst snd].
    apply list_eq. intros i. rewrite lookup_splice by (rewrite ?zlen_zeros; lia).
    rewrite decide_False by lia. case_decide.
    + by rewrite Nat.sub_0_r.
    + rewrite (proj2 (lookup_ge_None orig i)) by (unfold zlen in *; lia).
      apply lookup_ge_None. unfold zeros. rewrite length_replicate. lia.
  - destruct (f_pending f) as [|p ps]; [done|]. apply Forall_cons in Hp as [(a & b & Hin & _) _].
    by apply elem_of_nil in Hin.
Qed.

(** ** The new sector *)

Lemma zlen_set_entry b i f n : zlen (set_entry b i f n) = zlen b.
Proof. unfold set_entry, write_le32. by rewrite !zlen_write_le. Qed.

Lemma set_entry_entries b i f n j :
  zlen b = 512 -> 1 <= i <= 4 -> in_width 32 f -> in_width 32 n -> n <> 0 ->
  byte_at b (PART_OFF + (i - 1) * 16 + 4) <> 0 -> 0 <= j <= 3 ->
  entry (set_entry b i f n) j =
    if j =? i - 1
    then [mkPartition i (byte_at b (PART_OFF + j * 16) =? 0x80) (byte_at b (PART_OFF + j * 16 + 4)) f n]
    else entry b j.
Proof.
  intros Hz Hi Hf Hn Hn0 Ht Hj. unfold entry, set_entry, PART_OFF, write_le32 in *. cbv zeta.
  assert (Hb : forall o, 0 <= o < 446 + (i - 1) * 16 + 8 \/ 446 + (i - 1) * 16 + 16 <= o ->
    byte_at (write_le 4 (write_le 4 b (446 + (i - 1) * 16 + 8) f) (446 + (i - 1) * 16 + 12) n) o
    = byte_at b o).
  { intros o Ho. rewrite !byte_at_write_le_ne; rewrite ?zlen_write_le; lia. }
  destruct (Z.eqb_spec j (i - 1)) as [->|Hne].
  - rewrite !Hb by lia.
    rewrite read_write_le_eq by (rewrite ?zlen_write_le; done || lia).
    rewrite read_write_le_ne by (rewrite ?zlen_write_le; lia).
    rewrite read_write_le_eq by (done || lia).
    rewrite (proj2 (Z.eqb_neq _ _) Ht), (proj2 (Z.eqb_neq _ _) Hn0). cbn [orb].
    do 2 f_equal. lia.
  - rewrite !Hb by lia.
    rewrite !(read_write_le_ne 4 4); rewrite ?zlen_write_le; lia || done.
Qed.

(** ** Changing a partition *)

(** What a run of [resize_partition] leaves behind: [base] is the disk before
    it, [inode] the next free inode. *)
Definition resize_outcome (d : BlockDevice) (base : bytes) (inode i f n : Z) (path : string)
    (o : Outcome unit) (h : Host) : Prop :=
  let old := slice base 0 512 in
  let new := set_entry old i f n in
  let ss := if logical_sector (geometry d) =? 0 then 512 else logical_sector (geometry d) in
  o <> OutOfFuel /\
  ((forall img, crash_image (file_of h (fd_ d)) img -> img = base) \/
   saved path old inode h /\
   forall img, crash_image (file_of h (fd_ d)) img ->
     mixture [(0, new)] base img /\ splice img 0 old = base) /\
  (o = Ret tt -> exists t,
     decode new = Ok t /\ table_ok t (size_bytes (geometry d) / ss) /\
     partitions t = concat ((fun j => if j =? i - 1
       then [mkPartition i (byte_at old (PART_OFF + j * 16) =? 0x80)
               (byte_at old (PART_OFF + j * 16 + 4)) f n]
       else entry old j) <$> [0; 1; 2; 3]) /\
     forall img, crash_image (file_of h (fd_ d)) img -> img = splice base 0 new).

(** Putting the undo sector back restores the disk. *)
Lemma undo_restores base img new :
  512 <= zlen base -> zlen new = 512 -> mixture [(0, new)] base img ->
  splice img 0 (slice base 0 512) = base.
Proof.
  intros Hb Hn [Hl H]. assert (Hz : zlen (slice base 0 512) = 512) by (apply zlen_slice; lia).
  apply list_eq. intros k. rewrite lookup_splice by (unfold zlen in *; lia).
  rewrite decide_False by lia. case_decide.
  - rewrite lookup_slice, decide_True by lia. f_equal. lia.
  - destruct (H k) as [|(a & w & Hin & Hk & _)]; [done|].
    apply list_elem_of_singleton in Hin. injection Hin as -> ->. lia.
Qed.

Lemma sector_written d base inode i f n path t h :
  let old := slice base 0 512 in
  let new := set_entry old i f n in
  let ss := if logical_sector (geometry d) =? 0 then 512 else logical_sector (geometry d) in
  wstate d base [] h -> fd_ d < inode -> 512 <= zlen base -> saved path old inode h ->
  1 <= i <= 4 -> n <> 0 -> in_width 32 f -> in_width 32 n ->
  byte_at old (PART_OFF + (i - 1) * 16 + 4) <> 0 ->
  decode new = Ok t -> validate t (size_bytes (geometry d) / ss) = Ok tt ->
  wp (write_exact d 0 new;; flush d) h (resize_outcome d base inode i f n path).
Proof.
  intros old new ss Hw Hfd Hroom Hs Hi Hn0 Hf Hn Ht Hdec Hval.
  assert (Hzo : zlen old = 512) by (apply zlen_slice; lia).
  assert (Hzn : zlen new = 512) by (unfold new; by rewrite zlen_set_entry).
  set (ws := [(0, new)]). pose proof (put_all_snoc [] (0, new) base) as Hput. cbn [app fst snd] in Hput.
  assert (Hmid : forall (o : Outcome unit) h' ws', aborted o -> only_device d h h' -> ws' ⊆ ws ->
    unsettled d base ws' h' -> resize_outcome d base inode i f n path o h').
  { intros o h' ws' Ho Hod Hsub Hu. split; [by destruct o|]. split; [|by intros ->].
    right. split; [by eapply saved_device|]. intros img Himg.
    assert (Hm : mixture ws base img)
      by (eapply mixture_mono; [exact Hsub|by eapply unsettled_crash]).
    split; [exact Hm|]. by apply undo_restores in Hm. }
  assert (Hend : forall (o : Outcome unit) h', o <> OutOfFuel -> only_device d h h' ->
    wstate d (put_all ws base) [] h' -> resize_outcome d base inode i f n path o h').
  { intros o h' Hne Hod Hw'. split; [done|]. split.
    - right. split; [by eapply saved_device|]. intros img Himg.
      rewrite (settled_image _ _ _ _ Hw' Himg).
      assert (Hm : mixture ws base (put_all ws base))
        by (apply mixture_put_all, Forall_singleton; split; cbn [fst snd]; lia).
      split; [exact Hm|]. by apply undo_restores in Hm.
    - intros ->. exists t. split; [done|]. split; [apply validate_ok; [by eapply decode_counts|done]|].
      split.
      + rewrite (decode_partitions _ _ Hdec). f_equal. cbn [fmap list_fmap].
        unfold new. by rewrite !set_entry_entries by (done || lia).
      + intros img Himg. by rewrite (settled_image _ _ _ _ Hw' Himg). }
  eapply wp_group_write; [exact Hw|lia| |by intros; eapply Hmid].
  intros h1 Hw1 Hod1. cbn [app] in Hw1.
  eapply wp_mono; [by apply durable_flush|]. intros o h2 (Hne & Hod2 & Hok & Hst).
  assert (Hod : only_device d h h2) by (by eapply only_device_trans).
  destruct o as [[]|e|s|]; [|destruct Hst; [by eapply Hmid|by apply Hend]..|done].
  apply Hend; [done|done|by apply Hok].
Qed.


(** A disk of two sectors whose second one is a partition. *)
Definition demo_sector : bytes :=
  splice (write_le32 (write_le32 (splice (zeros 512) 450 [Byte.x83]) 454 1) 458 1) 510 [Byte.x55; Byte.xaa].
Definition demo_mbr_disk : bytes := demo_sector ++ zeros 1024.
Definition demo_mbr_device : BlockDevice :=
  mkDevice 1 "disk" (mkGeometry 1536 512 512 false false) true.
Definition demo_mbr_host : Host := demo_host (mkFile Regular demo_mbr_disk []) [].

