(* ===== verification/Scheduler.v ===== *)
(** The I/O scheduler (include/fsx/io_scheduler.hpp, src/io/scheduler.cpp).

    Tuning is a function of the device.  The worker pool is a transition
    system: every step is one critical section of the code, or the run of a
    task between two of them, in any interleaving of producers and workers.
    A task is the number of its submission; what it does is [read_task] or
    [write_task]. *)
From S2P Require Import Prelude Errors Host Device FileUtil Durable.
From stdpp Require Import sorting.
#[local] Open Scope Z_scope.

(** ** Tuning *)

Inductive DeviceClass := unknown | hdd | ssd | nvme | memory.
#[export] Instance DeviceClass_eq_dec : EqDecision DeviceClass.
Proof. solve_decision. Defined.

Record IoTuning := mkTuning {
  workers : Z;
  queue_depth : Z;
  large_io_bytes : Z
}.
Record DeviceProfile := mkProfile {
  device_class : DeviceClass;
  tuning : IoTuning;
  rationale : string
}.

Definition sane_workers (env : HostEnv) (c : DeviceClass) : Z :=
  let hc := Z.max 1 (hardware_concurrency env) in
  match c with
  | hdd => 2
  | ssd => Z.min 8 hc
  | nvme => Z.min 16 hc
  | memory => Z.min 8 hc
  | unknown => Z.min 4 hc
  end.

Definition linux_sysfs_class (dev : BlockDevice) : M DeviceClass :=
  st ← sys_fstat (native_fd dev);
  env ← ask_env;
  mret (match st with
        | inr (BlockNode rdev _ _ _) =>
            match rotational env rdev with
            | Some r => if r =? 1 then hdd else ssd
            | None => unknown
            end
        | _ => unknown
        end).

Definition device_class_name (c : DeviceClass) : string :=
  match c with
  | hdd => "hdd"
  | ssd => "ssd"
  | nvme => "nvme"
  | memory => "memory"
  | unknown => "unknown"
  end.

(** [s.find(sub) != npos]. *)
Definition contains (sub s : string) : bool :=
  match String.index 0 sub s with Some _ => true | None => false end.

Definition tuning_for (env : HostEnv) (c : DeviceClass) : IoTuning :=
  let w := sane_workers env c in
  match c with
  | hdd => mkTuning w 4 (4 * 1024 * 1024)
  | nvme => mkTuning w 64 (16 * 1024 * 1024)
  | ssd => mkTuning w 32 (8 * 1024 * 1024)
  | _ => mkTuning w 16 (4 * 1024 * 1024)
  end.

Definition profile_device (dev : BlockDevice) : M DeviceProfile :=
  p ← (if negb (is_block_device (geometry dev))
       then mret (memory, "regular file or non-block device"%string)
       else
         let path := path_ dev in
         if contains "nvme" path || contains "/nda" path || contains "/nvd" path
         then mret (nvme, "NVMe-style device path"%string)
         else
           c ← linux_sysfs_class dev;
           mret (c, if bool_decide (c = unknown) then "portable conservative fallback"%string
                    else "Linux rotational queue attribute"%string));
  env ← ask_env;
  mret (mkProfile p.1 (tuning_for env p.1) p.2).

(** ** Tasks *)

(** The bodies of the tasks of [submit_read] and [submit_write]. *)
Definition read_task (dev : BlockDevice) (offset length : Z) : M bytes :=
  stop ← cancel_requested;
  if (stop : bool) then failM unsafe "operation cancelled"
  else read_exact dev offset length.

Definition write_task (dev : BlockDevice) (offset : Z) (data : bytes) : M unit :=
  stop ← cancel_requested;
  if (stop : bool) then failM unsafe "operation cancelled"
  else write_exact dev offset data.

(** ** The worker pool *)

Record AsyncIoScheduler := mkScheduler {
  pool : nat;              (* [workers_.size()] *)
  depth : nat;             (* [tuning_.queue_depth] *)
  queue_ : list nat;
  stopping_ : bool;
  active_ : nat;
  next_task : nat;         (* number of submissions so far *)
  running : list nat;      (* tasks that workers hold outside the lock *)
  finished : list nat;     (* in the order in which they were completed *)
  rejected : list nat;
  exited : nat             (* workers that returned from [worker_loop] *)
}.

(** The constructor. *)
Definition scheduler (t : IoTuning) : AsyncIoScheduler :=
  let w := if workers t =? 0 then 1 else workers t in
  let q := if queue_depth t <? w then w else queue_depth t in
  mkScheduler (Z.to_nat w) (Z.to_nat q) [] false 0 0 [] [] [] 0.

(** Workers that wait for work. *)
Definition idle_workers (s : AsyncIoScheduler) : nat :=
  (pool s - length (running s) - exited s)%nat.

(** [submit_read] and [submit_write] up to their return: [None] while
    [enqueue] waits for space. *)
Definition submit (s : AsyncIoScheduler) : option AsyncIoScheduler :=
  let t := next_task s in
  if stopping_ s
  then Some (mkScheduler (pool s) (depth s) (queue_ s) (stopping_ s) (active_ s) (S t)
               (running s) (finished s) (rejected s ++ [t]) (exited s))
  else if (length (queue_ s) <? depth s)%nat
  then Some (mkScheduler (pool s) (depth s) (queue_ s ++ [t]) (stopping_ s) (active_ s) (S t)
               (running s) (finished s) (rejected s) (exited s))
  else None.

(** The first critical section of a round of [worker_loop]: take the oldest
    task, or return when stopping and the queue is empty; [None] while it
    waits. *)
Definition worker_take (s : AsyncIoScheduler) : option AsyncIoScheduler :=
  if (idle_workers s =? 0)%nat then None
  else match queue_ s with
       | t :: q =>
           Some (mkScheduler (pool s) (depth s) q (stopping_ s) (S (active_ s)) (next_task s)
                   (running s ++ [t]) (finished s) (rejected s) (exited s))
       | [] =>
           if stopping_ s
           then Some (mkScheduler (pool s) (depth s) [] (stopping_ s) (active_ s) (next_task s)
                        (running s) (finished s) (rejected s) (S (exited s)))
           else None
       end.

(** The end of the task [t] and the second critical section. *)
Definition worker_finish (s : AsyncIoScheduler) (t : nat) : option AsyncIoScheduler :=
  if bool_decide (t ∈ running s)
  then Some (mkScheduler (pool s) (depth s) (queue_ s) (stopping_ s) (active_ s - 1)%nat (next_task s)
               (list_difference (running s) [t]) (finished s ++ [t]) (rejected s) (exited s))
  else None.

(** [stop] up to the joins. *)
Definition request_stop (s : AsyncIoScheduler) : AsyncIoScheduler :=
  mkScheduler (pool s) (depth s) (queue_ s) true (active_ s) (next_task s) (running s)
    (finished s) (rejected s) (exited s).

(** The condition under which [drain] returns, and under which the joins of
    [stop] have all returned. *)
Definition drained (s : AsyncIoScheduler) : bool :=
  bool_decide (queue_ s = []) && (active_ s =? 0)%nat.
Definition joined (s : AsyncIoScheduler) : bool := stopping_ s && (exited s =? pool s)%nat.

Inductive worker_step : AsyncIoScheduler -> AsyncIoScheduler -> Prop :=
  | step_take s s' : worker_take s = Some s' -> worker_step s s'
  | step_finish s t s' : worker_finish s t = Some s' -> worker_step s s'.
Inductive sched_step : AsyncIoScheduler -> AsyncIoScheduler -> Prop :=
  | step_worker s s' : worker_step s s' -> sched_step s s'
  | step_submit s s' : submit s = Some s' -> sched_step s s'
  | step_stop s : sched_step s (request_stop s).

Definition reachable (t : IoTuning) : AsyncIoScheduler -> Prop := rtc sched_step (scheduler t).

(** ** The invariant of the pool *)

#[local] Arguments seq : simpl never.
Definition tasks (s : AsyncIoScheduler) : list nat :=
  queue_ s ++ running s ++ finished s ++ rejected s.

Record pool_ok (s : AsyncIoScheduler) : Prop := {
  ok_pool : (0 < pool s)%nat;
  ok_depth : (0 < depth s)%nat;
  ok_active : active_ s = length (running s);
  ok_workers : (length (running s) + exited s <= pool s)%nat;
  ok_queue : (length (queue_ s) <= depth s)%nat;
  ok_tasks : tasks s ≡ₚ seq 0 (next_task s);
  ok_exited : (0 < exited s)%nat -> stopping_ s = true /\ queue_ s = [];
  ok_rejected : stopping_ s = false -> rejected s = [];
  ok_order : forall t u, t ∈ queue_ s -> u ∈ running s ++ finished s -> (u < t)%nat;
  ok_fifo : StronglySorted lt (queue_ s)
}.

Lemma pool_ok_start t : 0 <= workers t -> pool_ok (scheduler t).
Proof.
  intros Hw. unfold scheduler. cbv zeta.
  assert (Hp : 0 < if workers t =? 0 then 1 else workers t)
    by (destruct (Z.eqb_spec (workers t) 0); lia).
  set (w := if workers t =? 0 then 1 else workers t) in *.
  assert (Hd : 0 < if queue_depth t <? w then w else queue_depth t)
    by (destruct (Z.ltb_spec (queue_depth t) w); lia).
  split; cbn; try done; try lia; try (intros; lia); try (intros ? ? []%elem_of_nil).
  constructor.
Qed.

Lemma task_bound s t : pool_ok s -> t ∈ tasks s -> (t < next_task s)%nat.
Proof.
  intros Hs Ht. rewrite (ok_tasks s Hs) in Ht. apply elem_of_seq in Ht. lia.
Qed.

Lemma tasks_nodup s : pool_ok s -> NoDup (tasks s).
Proof. intros Hs. rewrite (ok_tasks s Hs). apply NoDup_seq. Qed.

Lemma seq_snoc n : seq 0 (S n) = seq 0 n ++ [n].
Proof. by rewrite seq_S. Qed.

Lemma submit_ok s s' : pool_ok s -> submit s = Some s' -> pool_ok s'.
Proof.
  intros Hs. pose proof Hs as [H1 H2 H3 H4 H5 H6 H7 H8 H9 H10]. unfold submit.
  destruct (stopping_ s) eqn:Est; [|destruct (Nat.ltb_spec (length (queue_ s)) (depth s)); [|done]];
    intros [= <-].
  - split; cbn; try done; try (by rewrite Est).
    unfold tasks in *. cbn. rewrite seq_snoc, <-H6. by rewrite !app_assoc.
  - split; cbn; try done.
    + rewrite length_app. cbn. lia.
    + unfold tasks in *. cbn. rewrite seq_snoc, <-H6.
      rewrite <-!app_assoc. apply Permutation_app_head. rewrite Permutation_app_comm.
      by rewrite <-!app_assoc.
    + intros He. destruct (H7 He). congruence.
    + intros t u Ht Hu. apply elem_of_app in Ht as [Ht|Ht]; [by apply H9|].
      apply list_elem_of_singleton in Ht as ->. apply (task_bound s); [done|].
      unfold tasks. apply elem_of_app in Hu as [Hu|Hu]; rewrite !elem_of_app; tauto.
    + apply StronglySorted_app_2; [|done|by repeat constructor].
      intros x y Hx Hy%list_elem_of_singleton. subst y. apply (task_bound s); [done|].
      unfold tasks. rewrite !elem_of_app. tauto.
Qed.

Lemma take_ok s s' : pool_ok s -> worker_take s = Some s' -> pool_ok s'.
Proof.
  intros Hs. pose proof Hs as [H1 H2 H3 H4 H5 H6 H7 H8 H9 H10]. unfold worker_take, idle_workers.
  destruct (Nat.eqb_spec (pool s - length (running s) - exited s) 0) as [|Hi]; [done|].
  destruct (queue_ s) as [|t q] eqn:Eq.
  - destruct (stopping_ s) eqn:Est; [|done]. intros [= <-].
    split; cbn; try done; try lia; try (by rewrite Est).
    unfold tasks in *. cbn. by rewrite Eq in H6.
  - intros [= <-]. apply StronglySorted_inv in H10 as [Hq Hh].
    split; cbn; try done.
    + rewrite length_app. cbn. lia.
    + rewrite length_app. cbn. lia.
    + cbn in H5. lia.
    + unfold tasks in *. cbn. rewrite <-H6, Eq. cbn [app]. rewrite <-app_assoc. cbn [app].
      by rewrite (app_assoc q), <-Permutation_middle, <-app_assoc.
    + intros He. destruct (H7 He). done.
    + intros x u Hx Hu. rewrite <-app_assoc in Hu. apply elem_of_app in Hu as [Hu|Hu].
      { apply H9; [by right|]. apply elem_of_app. by left. }
      apply elem_of_app in Hu as [Hu|Hu].
      * apply list_elem_of_singleton in Hu as ->. rewrite list.Forall_forall in Hh. by apply Hh.
      * apply H9; [by right|]. apply elem_of_app. by right.
Qed.

Lemma difference_permutation (t : nat) (l : list nat) :
  NoDup l -> t ∈ l -> l ≡ₚ t :: list_difference l [t].
Proof.
  intros Hn Ht. apply NoDup_Permutation; [done| |].
  - constructor; [|by apply NoDup_list_difference].
    intros H. apply list_elem_of_difference in H as [_ H]. apply H. by left.
  - intros x. rewrite elem_of_cons, list_elem_of_difference, list_elem_of_singleton.
    destruct (decide (x = t)) as [->|]; [tauto|]. tauto.
Qed.

Lemma finish_ok s t s' : pool_ok s -> worker_finish s t = Some s' -> pool_ok s'.
Proof.
  intros Hs. pose proof Hs as [H1 H2 H3 H4 H5 H6 H7 H8 H9 H10]. unfold worker_finish.
  case_bool_decide as Ht; [|done]. intros [= <-].
  assert (Hn : NoDup (running s)).
  { pose proof (tasks_nodup s Hs) as Hn. unfold tasks in Hn.
    apply NoDup_app in Hn as (_ & _ & Hn). by apply NoDup_app in Hn as (Hn & _ & _). }
  pose proof (difference_permutation t (running s) Hn Ht) as Hp.
  pose proof (Permutation_length Hp) as Hl. cbn in Hl.
  split; cbn; try done; try lia.
  - unfold tasks in *. cbn. rewrite <-H6. apply Permutation_app_head.
    set (r := list_difference (running s) [t]) in *. rewrite Hp. cbn [app].
    rewrite <-app_assoc. cbn [app].
    by rewrite (app_assoc r), <-Permutation_middle, <-app_assoc.
  - intros x u Hx Hu. apply H9; [done|]. rewrite Hp. rewrite app_assoc in Hu.
    apply elem_of_app in Hu as [Hu|Hu].
    + cbn. by right.
    + apply list_elem_of_singleton in Hu as ->. cbn. by left.
Qed.

Lemma reachable_ok t s : 0 <= workers t -> reachable t s -> pool_ok s.
Proof.
  intros Hw. unfold reachable. apply rtc_ind_r; [by apply pool_ok_start|].
  intros x y _ Hstep IH. destruct Hstep as [x y [x' y' H|x' u y' H]|x y H|x].
  - by eapply take_ok.
  - by eapply finish_ok.
  - by eapply submit_ok.
  - destruct IH as [H1 H2 H3 H4 H5 H6 H7 H8 H9 H10]. split; cbn; try done.
    intros He. split; [done|by apply H7].
Qed.

(** ** Properties *)

(** C11: in every interleaving of submissions, workers and a stop, each task
    submitted so far is in exactly one place (queued, running, finished or
    rejected), a task is only rejected after a stop, workers take tasks in the
    order of submission, the queue never exceeds its depth, and when [drain]
    returns, or the joins of [stop] do, every accepted task is finished. *)
Theorem scheduler_loses_no_task (t : IoTuning) (s : AsyncIoScheduler)
    (Hw : 0 <= workers t) (Hr : reachable t s) :
  NoDup (tasks s) /\ (forall i, i ∈ tasks s <-> (i < next_task s)%nat) /\
  (rejected s <> [] -> stopping_ s = true) /\
  (length (queue_ s) <= depth s)%nat /\ (length (running s) <= pool s)%nat /\
  (forall i j, i ∈ queue_ s -> j ∈ running s ++ finished s -> (j < i)%nat) /\
  (drained s = true \/ joined s = true ->
   forall i, (i < next_task s)%nat -> i ∈ finished s \/ i ∈ rejected s).
Proof.
  pose proof (reachable_ok t s Hw Hr) as Hs. pose proof Hs as [H1 H2 H3 H4 H5 H6 H7 H8 H9 H10].
  split_and!; try done.
  - by apply tasks_nodup.
  - intros i. rewrite H6, elem_of_seq. lia.
  - intros Hrej. destruct (stopping_ s); [done|]. by destruct (Hrej (H8 eq_refl)).
  - lia.
  - intros Hd i Hi. assert (Hq : queue_ s = [] /\ running s = []).
    { unfold drained, joined in Hd. destruct Hd as [Hd|Hd]; apply andb_true_iff in Hd as [A B].
      - apply bool_decide_eq_true in A. apply Nat.eqb_eq in B. split; [done|].
        apply length_zero_iff_nil. lia.
      - apply Nat.eqb_eq in B. split; [apply H7; lia|]. apply length_zero_iff_nil. lia. }
    destruct Hq as [Eq Er]. assert (Ht : i ∈ tasks s) by (rewrite H6; apply elem_of_seq; lia).
    unfold tasks in Ht. rewrite Eq, Er in Ht. cbn [app] in Ht. by apply elem_of_app in Ht.
Qed.

(** The work left to the workers. *)
Definition work (s : AsyncIoScheduler) : nat :=
  (2 * length (queue_ s) + length (running s) + (pool s - exited s))%nat.

Lemma worker_step_work s s' : pool_ok s -> worker_step s s' -> pool_ok s' /\ (work s' < work s)%nat.
Proof.
  intros Hs Hstep. destruct Hstep as [s s' H|s t s' H].
  - split; [by eapply take_ok|]. revert H. unfold worker_take, work, idle_workers.
    destruct (Nat.eqb_spec (pool s - length (running s) - exited s) 0); [done|].
    destruct (queue_ s) as [|t q].
    + destruct (stopping_ s); [|done]. intros [= <-]. cbn. lia.
    + intros [= <-]. cbn. rewrite length_app. cbn. lia.
  - split; [by eapply finish_ok|]. revert H. unfold worker_finish, work.
    case_bool_decide as Ht; [|done]. intros [= <-]. cbn.
    assert (Hn : NoDup (running s)).
    { pose proof (tasks_nodup s Hs) as Hn. unfold tasks in Hn.
      apply NoDup_app in Hn as (_ & _ & Hn). by apply NoDup_app in Hn as (Hn & _ & _). }
    pose proof (Permutation_length (difference_permutation t (running s) Hn Ht)) as Hl.
    cbn in Hl. lia.
Qed.


(** One worker, three tasks, and a stop while one of them is queued. *)
Definition demo_tuning : IoTuning := mkTuning 1 2 4096.
Definition demo_pool : option AsyncIoScheduler :=
  s ← submit (scheduler demo_tuning);
  s ← submit s;
  s ← worker_take s;
  s ← submit s;
  s ← worker_finish s 0;
  Some (request_stop s).

Definition demo_state : AsyncIoScheduler := mkScheduler 1 2 [1; 2]%nat true 0 3 [] [0%nat] [] 0.

Lemma demo_pool_reachable : demo_pool = Some demo_state /\ reachable demo_tuning demo_state.
Proof.
  split; [reflexivity|]. unfold reachable.
  do 2 (eapply rtc_l; [apply step_submit; reflexivity|]).
  eapply rtc_l; [apply step_worker, step_take; reflexivity|].
  eapply rtc_l; [apply step_submit; reflexivity|].
  eapply rtc_l; [apply step_worker, (step_finish _ 0); reflexivity|].
  eapply rtc_l; [apply step_stop|]. exact (rtc_refl _ _).
Qed.

Lemma scheduler_loses_no_task_witness :
  drained demo_state = false /\ NoDup (tasks demo_state).
Proof.
  split; [reflexivity|].
  apply (scheduler_loses_no_task demo_tuning demo_state); [done|apply demo_pool_reachable].
Defined.

