(* ===== verification/Ext4.v ===== *)
(** ext2/3/4 superblocks, group descriptors and bitmaps (include/fsx/ext4.hpp,
    src/ext4/internal.hpp, src/ext4/internal.cpp, src/ext4/ext4.cpp).

    Progress callbacks only report and are left out. *)
From S2P Require Import Prelude Errors Endian Host Device Uuid Durable.
From Stdlib Require Import Ascii.
#[local] Open Scope Z_scope.

Definition EXT4_MAGIC : Z := 0xEF53.
Definition INCOMPAT_RECOVER : Z := 0x04.
Definition INCOMPAT_META_BG : Z := 0x10.
Definition INCOMPAT_64BIT : Z := 0x80.
Definition RO_COMPAT_BIGALLOC : Z := 0x200.
Definition RO_COMPAT_METADATA_CSUM : Z := 0x400.
Definition BG_INODE_UNINIT : Z := 0x0001.
Definition BG_BLOCK_UNINIT : Z := 0x0002.

(** [(x & flag) != 0]. *)
Definition has_flag (x flag : Z) : bool := negb (Z.land x flag =? 0).

Record Superblock := mkSuperblock {
  inodes_count : Z;
  blocks_count : Z;
  reserved_blocks : Z;
  free_blocks : Z;
  free_inodes : Z;
  first_data_block : Z;
  log_block_size : Z;
  blocks_per_group : Z;
  inodes_per_group : Z;
  state : Z;
  errors : Z;
  rev_level : Z;
  first_inode : Z;
  inode_size : Z;
  feature_compat : Z;
  feature_incompat : Z;
  feature_ro_compat : Z;
  desc_size : Z;
  magic : Z;
  volume_name : string;
  uuid : string
}.

Definition block_size (s : Superblock) : Z :=
  if log_block_size s <=? 6 then Z.shiftl 1024 (log_block_size s) else 0.
Definition sb_size_bytes (s : Superblock) : Z :=
  let bs := block_size s in
  if (bs =? 0) || (u64_max / bs <? blocks_count s) then u64_max else blocks_count s * bs.
Definition groups_count (s : Superblock) : Z :=
  let data_blocks := if first_data_block s <? blocks_count s
                     then blocks_count s - first_data_block s else 0 in
  if blocks_per_group s =? 0 then 0
  else data_blocks / blocks_per_group s
       + (if data_blocks mod blocks_per_group s =? 0 then 0 else 1).

Definition uuid_string (b : bytes) : string :=
  format_uuid b.

Fixpoint fixed_string (b : bytes) : string :=
  match b with
  | [] => ""
  | x :: b =>
      let c := byte.unsigned x in
      if c =? 0 then "" else String (ascii_of_nat (Z.to_nat c)) (fixed_string b)
  end.

Definition probe (dev : BlockDevice) : M bool :=
  b ← read_exact dev (1024 + 0x38) 2;
  mret (read_le16 b 0 =? EXT4_MAGIC).

(** [lo | (hi << 32)]. *)
Definition join32 (lo hi : Z) : Z := Z.lor lo (u64 (Z.shiftl hi 32)).

(** The fields of the 1024 bytes of a superblock. *)
Definition superblock_fields (b : bytes) : Superblock :=
  let incompat := read_le32 b 0x60 in
  let hi off := if has_flag incompat INCOMPAT_64BIT then read_le32 b off else 0 in
  mkSuperblock (read_le32 b 0x00) (join32 (read_le32 b 0x04) (hi 0x150))
    (join32 (read_le32 b 0x08) (hi 0x154)) (join32 (read_le32 b 0x0c) (hi 0x158))
    (read_le32 b 0x10) (read_le32 b 0x14) (read_le32 b 0x18) (read_le32 b 0x20)
    (read_le32 b 0x28) (read_le16 b 0x3a) (read_le16 b 0x3c) (read_le32 b 0x4c)
    (read_le32 b 0x54) (read_le16 b 0x58) (read_le32 b 0x5c) incompat (read_le32 b 0x64)
    (read_le16 b 0xfe) (read_le16 b 0x38) (fixed_string (slice b 0x78 16))
    (uuid_string (slice b 0x68 16)).

(** The conditions of [read_superblock], in their order. *)
Definition check_superblock (s : Superblock) (dev_bytes : Z) : Result unit :=
  let bs := block_size s in
  let ds := if 32 <=? desc_size s then desc_size s else 32 in
  let groups := groups_count s in
  let inode_groups := inodes_count s / inodes_per_group s
                      + (if inodes_count s mod inodes_per_group s =? 0 then 0 else 1) in
  if negb (magic s =? EXT4_MAGIC) then fail unsupported "not an ext2/3/4 filesystem"
  else if (bs <? 1024) || (65536 <? bs) || negb (Z.land bs (u64 (bs - 1)) =? 0)
  then fail corrupt "invalid ext block size"
  else if (blocks_per_group s =? 0) || (inodes_per_group s =? 0) || (blocks_count s =? 0)
          || (inodes_count s =? 0)
  then fail corrupt "invalid ext geometry"
  else if blocks_count s <=? first_data_block s
  then fail corrupt "ext first data block is outside filesystem"
  else if (bs * 8 <? blocks_per_group s) || (bs * 8 <? inodes_per_group s)
  then fail corrupt "ext group geometry exceeds one-block bitmap capacity"
  else if (inode_size s <? 128) || (bs <? inode_size s)
          || negb (Z.land (inode_size s) (u32 (inode_size s - 1)) =? 0)
  then fail corrupt "invalid ext inode size"
  else if (blocks_count s <? free_blocks s) || (inodes_count s <? free_inodes s)
          || (blocks_count s <? reserved_blocks s)
  then fail corrupt "ext free/reserved counters exceed filesystem geometry"
  else if has_flag (feature_incompat s) INCOMPAT_64BIT
          && ((ds <? 64) || (bs <? ds) || has_flag ds 7)
  then fail corrupt "invalid 64-bit ext group descriptor size"
  else if negb (has_flag (feature_incompat s) INCOMPAT_64BIT)
          && (negb (desc_size s =? 0)
              && ((desc_size s <? 32) || (bs <? desc_size s) || has_flag (desc_size s) 7))
  then fail corrupt "invalid ext group descriptor size"
  else if groups =? 0 then fail corrupt "ext filesystem has zero block groups"
  else if groups <? inode_groups
  then fail corrupt "ext inode geometry requires more groups than block geometry provides"
  else if negb (dev_bytes =? 0) && (dev_bytes / bs <? blocks_count s)
  then fail corrupt "filesystem is larger than containing device"
  else Ok tt.

Definition read_superblock (dev : BlockDevice) : M Superblock :=
  b ← read_exact dev 1024 1024;
  let s := superblock_fields b in
  lift (check_superblock s (size_bytes (geometry dev)));;
  mret s.

(** ** Groups *)

Record GroupDesc := mkGroupDesc {
  block_bitmap : Z;
  inode_bitmap : Z;
  inode_table : Z;
  g_free_blocks : Z;
  g_free_inodes : Z;
  used_dirs : Z;
  flags : Z
}.

(** The size of a descriptor on the disk. *)
Definition desc_bytes (s : Superblock) : Z := if 32 <=? desc_size s then desc_size s else 32.

(** The fields of a descriptor of [desc_bytes s] bytes. *)
Definition group_desc_fields (s : Superblock) (buf : bytes) : GroupDesc :=
  let wide := (64 <=? desc_bytes s) && has_flag (feature_incompat s) INCOMPAT_64BIT in
  let hi32 off := if wide then read_le32 buf off else 0 in
  let hi16 off := if wide then u32 (Z.shiftl (read_le16 buf off) 16) else 0 in
  mkGroupDesc (join32 (read_le32 buf 0) (hi32 32)) (join32 (read_le32 buf 4) (hi32 36))
    (join32 (read_le32 buf 8) (hi32 40)) (Z.lor (read_le16 buf 12) (hi16 44))
    (Z.lor (read_le16 buf 14) (hi16 46)) (Z.lor (read_le16 buf 16) (hi16 48)) (read_le16 buf 18).

(** The checks of [read_group_desc] behind the read. *)
Definition check_group_desc (s : Superblock) (g : GroupDesc) : Result unit :=
  let bs := block_size s in
  if (blocks_count s <=? block_bitmap g) || (blocks_count s <=? inode_bitmap g)
     || (blocks_count s <=? inode_table g)
  then fail corrupt "ext4 group metadata points outside filesystem"
  else
    let inode_bytes := inodes_per_group s * inode_size s in
    let inode_table_blocks := inode_bytes / bs + (if inode_bytes mod bs =? 0 then 0 else 1) in
    if (inode_table_blocks =? 0) || (blocks_count s - inode_table g <? inode_table_blocks)
    then fail corrupt "ext4 inode table extends beyond filesystem"
    else Ok tt.

Definition read_group_desc (dev : BlockDevice) (s : Superblock) (group : Z) : M GroupDesc :=
  let bs := block_size s in
  if bs =? 0 then failM corrupt "invalid ext4 block size"
  else if groups_count s <=? group
  then failM corrupt "ext4 group descriptor index is outside filesystem"
  else
    let ds := desc_bytes s in
    if (bs <? ds) || (1024 <? ds) then failM corrupt "invalid ext4 group descriptor size"
    else if u64_max / ds <? group
    then failM corrupt "ext4 group descriptor offset overflows"
    else
      let desc_off := group * ds in
      let table_block := if bs =? 1024 then 2 else 1 in
      if has_flag (feature_incompat s) INCOMPAT_META_BG && (bs <=? desc_off)
      then failM unsupported "ext4 meta_bg descriptor placement is not implemented yet"
      else if u64_max / bs <? table_block
      then failM corrupt "ext4 group descriptor table offset overflows"
      else
        let table_off := table_block * bs in
        if u64_max - table_off <? desc_off
        then failM corrupt "ext4 group descriptor address overflows"
        else
          buf ← read_exact dev (table_off + desc_off) ds;
          let g := group_desc_fields s buf in
          lift (check_group_desc s g);;
          mret g.

Definition read_block_bitmap (dev : BlockDevice) (s : Superblock) (gd : GroupDesc) : M bytes :=
  let bs := block_size s in
  if bs =? 0 then failM corrupt "invalid ext4 block size"
  else if blocks_count s <=? block_bitmap gd
  then failM corrupt "block bitmap points beyond filesystem"
  else if u64_max / bs <? block_bitmap gd
  then failM corrupt "block bitmap byte offset overflows"
  else read_exact dev (block_bitmap gd * bs) bs.

Definition read_inode_bitmap (dev : BlockDevice) (s : Superblock) (gd : GroupDesc) : M bytes :=
  let bs := block_size s in
  if bs =? 0 then failM corrupt "invalid ext4 block size"
  else if blocks_count s <=? inode_bitmap gd
  then failM corrupt "inode bitmap points beyond filesystem"
  else if u64_max / bs <? inode_bitmap gd
  then failM corrupt "inode bitmap byte offset overflows"
  else read_exact dev (inode_bitmap gd * bs) bs.

Definition bit_set (b : bytes) (bit : Z) : bool :=
  let byte := Z.shiftr bit 3 in
  (byte <? zlen b) && negb (Z.land (Z.shiftr (byte_at b byte) (Z.land bit 7)) 1 =? 0).

Definition group_start_block (s : Superblock) (g : Z) : Z :=
  if blocks_per_group s =? 0 then u64_max
  else if (u64_max - first_data_block s) / blocks_per_group s <? g then u64_max
  else first_data_block s + g * blocks_per_group s.

Definition group_block_count (s : Superblock) (g : Z) : Z :=
  let start := group_start_block s g in
  if start <? blocks_count s then Z.min (blocks_per_group s) (blocks_count s - start) else 0.

(** ** [check] *)

Record CheckReport := mkReport {
  clean : bool;
  groups_checked : Z;
  bitmap_allocated_blocks : Z;
  warnings : list string;
  r_errors : list string
}.
Definition add_warning (w : string) (r : CheckReport) : CheckReport :=
  mkReport (clean r) (groups_checked r) (bitmap_allocated_blocks r) (warnings r ++ [w]) (r_errors r).
Definition add_report_error (e : string) (r : CheckReport) : CheckReport :=
  mkReport (clean r) (groups_checked r) (bitmap_allocated_blocks r) (warnings r) (r_errors r ++ [e]).

(** The bits set among the first [n]. *)
Definition count_bits (bm : bytes) (n : Z) : Z :=
  zlen (filter (fun i => bit_set bm i = true) (seqZ 0 n)).

(** The loop over the groups: the report and the blocks counted so far. *)
Fixpoint check_groups (n : nat) (dev : BlockDevice) (s : Superblock) (g : Z)
    (r : CheckReport) (allocated : Z) : M (CheckReport * Z) :=
  match n with
  | O => mret (r, allocated)
  | S n =>
      stop ← cancel_requested;
      if (stop : bool) then failM unsafe "check cancelled"
      else
        gd ← attempt (read_group_desc dev s g);
        match gd with
        | Err e => mret (add_warning ("deep scan stopped: " +:+ message e) r, allocated)
        | Ok gd =>
            let r := if (blocks_count s <=? block_bitmap gd) || (blocks_count s <=? inode_bitmap gd)
                        || (blocks_count s <=? inode_table gd)
                     then add_report_error ("group " +:+ pretty g
                            +:+ " has metadata pointer outside filesystem") r
                     else r in
            bm ← attempt (read_block_bitmap dev s gd);
            match bm with
            | Err e => mret (add_report_error ("group " +:+ pretty g +:+ ": " +:+ message e) r, allocated)
            | Ok bm =>
                let group_start := u64 (first_data_block s + g * blocks_per_group s) in
                let group_blocks := Z.min (blocks_per_group s) (u64 (blocks_count s - group_start)) in
                check_groups n dev s (g + 1) r (allocated + count_bits bm group_blocks)
            end
        end
  end.

Definition check (dev : BlockDevice) : M CheckReport :=
  s ← read_superblock dev;
  let groups := groups_count s in
  let r := mkReport true groups 0 [] [] in
  let r := if state s =? 1 then r
           else add_warning "filesystem superblock is not marked clean" r in
  let r := if has_flag (feature_ro_compat s) RO_COMPAT_METADATA_CSUM
           then add_warning "metadata_csum present; use check metadata or check deep for checksum coverage" r
           else r in
  let r := if has_flag (feature_incompat s) INCOMPAT_META_BG
           then add_warning ("meta_bg present; deep group scan is limited until extended descriptor "
                             +:+ "placement support lands") r
           else r in
  p ← check_groups (Z.to_nat groups) dev s 0 r 0;
  let r := p.1 in
  mret (mkReport (bool_decide (r_errors r = [])) (groups_checked r) p.2 (warnings r) (r_errors r)).

(** ** Geometry of an accepted superblock *)

(** What the rest of the code relies on after [read_superblock]. *)
Record geometry_ok (s : Superblock) : Prop := {
  geo_log : 0 <= log_block_size s <= 6;
  geo_bpg : 1 <= blocks_per_group s <= 8 * block_size s;
  geo_ipg : 1 <= inodes_per_group s <= 8 * block_size s;
  geo_first : 0 <= first_data_block s < blocks_count s;
  geo_blocks : blocks_count s < 2 ^ 64;
  geo_inodes : 1 <= inodes_count s <= groups_count s * inodes_per_group s;
  geo_inode_size : 128 <= inode_size s <= block_size s
}.

Lemma join32_width lo hi : in_width 32 lo -> in_width 64 (join32 lo hi).
Proof.
  intros Hlo. unfold join32. split.
  - apply Z.lor_nonneg. split; [apply Hlo|]. by apply Z.mod_pos_bound.
  - destruct (Z.eq_dec (Z.lor lo (u64 (Z.shiftl hi 32))) 0) as [->|Hne]; [done|].
    assert (Hnn : 0 <= u64 (Z.shiftl hi 32) < 2 ^ 64) by (by apply Z.mod_pos_bound).
    assert (0 <= Z.lor lo (u64 (Z.shiftl hi 32))) by (apply Z.lor_nonneg; split; [apply Hlo|lia]).
    apply Z.log2_lt_pow2; [lia|]. rewrite Z.log2_lor by (apply Hlo || lia).
    assert (Hl : forall x, 0 <= x < 2 ^ 64 -> Z.log2 x < 64).
    { intros x Hx. destruct (Z.eq_dec x 0) as [->|]; [done|]. apply Z.log2_lt_pow2; lia. }
    unfold in_width in Hlo. pose proof (Hl lo). pose proof (Hl _ Hnn). lia.
Qed.

Lemma block_size_cases s : 0 <= log_block_size s <= 6 ->
  block_size s = 1024 * 2 ^ log_block_size s /\ 1024 <= block_size s <= 65536.
Proof.
  intros H. unfold block_size. rewrite (proj2 (Z.leb_le _ _)), Z.shiftl_mul_pow2 by lia.
  split; [done|].
  assert (2 ^ 0 <= 2 ^ log_block_size s <= 2 ^ 6) by (split; apply Z.pow_le_mono_r; lia). lia.
Qed.

Lemma ceil_groups n k : 0 < k -> 0 <= n ->
  let q := n / k + (if n mod k =? 0 then 0 else 1) in q * k - k < n <= q * k.
Proof.
  intros Hk Hn q. pose proof (Z.div_mod n k ltac:(lia)). pose proof (Z.mod_pos_bound n k Hk).
  unfold q. destruct (Z.eqb_spec (n mod k) 0); nia.
Qed.

Lemma groups_count_spec s :
  0 < blocks_per_group s -> 0 <= first_data_block s < blocks_count s ->
  1 <= groups_count s /\
  (groups_count s - 1) * blocks_per_group s < blocks_count s - first_data_block s
    <= groups_count s * blocks_per_group s.
Proof.
  intros Hb Hf. unfold groups_count.
  rewrite (proj2 (Z.ltb_lt _ _)), (proj2 (Z.eqb_neq _ _)) by lia.
  pose proof (ceil_groups (blocks_count s - first_data_block s) (blocks_per_group s) Hb ltac:(lia)) as H.
  cbv zeta in H. set (q := _ / _ + _) in *. nia.
Qed.

(** The widths of the fields read from the disk. *)
Lemma superblock_fields_width b :
  let s := superblock_fields b in
  in_width 32 (first_data_block s) /\ in_width 32 (blocks_per_group s) /\
  in_width 32 (inodes_per_group s) /\ in_width 32 (log_block_size s) /\
  in_width 64 (blocks_count s) /\ in_width 16 (inode_size s) /\ in_width 32 (inodes_count s).
Proof.
  cbv zeta. unfold superblock_fields. cbn [first_data_block blocks_per_group inodes_per_group
    log_block_size blocks_count inode_size inodes_count].
  split_and!; try apply (read_le_bound 4); try apply (read_le_bound 2).
  apply join32_width, (read_le_bound 4).
Qed.

Lemma check_superblock_geometry s n :
  in_width 32 (first_data_block s) -> in_width 32 (blocks_per_group s) ->
  in_width 32 (inodes_per_group s) -> in_width 32 (log_block_size s) ->
  in_width 64 (blocks_count s) -> in_width 16 (inode_size s) -> in_width 32 (inodes_count s) ->
  check_superblock s n = Ok tt ->
  geometry_ok s /\ (n <> 0 -> blocks_count s <= n / block_size s).
Proof.
  unfold in_width, check_superblock. intros W1 W2 W3 W4 W5 W6 W7.
  cbv zeta. set (ig := inodes_count s / _ + _).
  destruct (negb (magic s =? _)); [discriminate|].
  destruct ((block_size s <? 1024) || _ || _) eqn:E1; [discriminate|].
  destruct ((blocks_per_group s =? 0) || _ || _ || _) eqn:E2; [discriminate|].
  destruct (blocks_count s <=? first_data_block s) eqn:E3; [discriminate|].
  destruct ((_ <? blocks_per_group s) || _) eqn:E4; [discriminate|].
  destruct ((inode_size s <? 128) || _ || _) eqn:E5; [discriminate|].
  destruct ((_ <? free_blocks s) || _ || _); [discriminate|].
  destruct (has_flag (feature_incompat s) _ && _); [discriminate|].
  destruct (negb (has_flag (feature_incompat s) _) && _); [discriminate|].
  destruct (groups_count s =? 0) eqn:E6; [discriminate|].
  destruct (groups_count s <? ig) eqn:E7; [discriminate|].
  destruct (negb (n =? 0) && _) eqn:E8; [discriminate|]. intros _.
  assert (Hlog : 0 <= log_block_size s <= 6).
  { unfold block_size in E1. destruct (Z.leb_spec (log_block_size s) 6); [lia|]. cbn in E1. lia. }
  destruct (groups_count_spec s) as [G1 G2]; [lia|lia|].
  pose proof (ceil_groups (inodes_count s) (inodes_per_group s) ltac:(lia) ltac:(lia)) as G3.
  cbv zeta in G3. fold ig in G3.
  split; [|lia]. split; try lia. split; [lia|]. nia.
Qed.

Section Groups.
Context (s : Superblock) (Hs : geometry_ok s).

(** Groups start where the format says, without overflow. *)
Lemma group_start_spec g :
  0 <= g < groups_count s ->
  group_start_block s g = first_data_block s + g * blocks_per_group s /\
  group_start_block s g < blocks_count s.
Proof.
  intros Hg. destruct Hs as [H1 H2 H3 H4 H5 H6 H7].
  destruct (groups_count_spec s) as [G1 G2]; [lia|lia|].
  assert (Hlt : g * blocks_per_group s < blocks_count s - first_data_block s) by nia.
  unfold group_start_block. rewrite (proj2 (Z.eqb_neq _ _)) by lia.
  rewrite (proj2 (Z.ltb_ge _ _)); [lia|]. apply Z.div_le_lower_bound; lia.
Qed.

Lemma group_count_spec g :
  0 <= g < groups_count s ->
  1 <= group_block_count s g <= blocks_per_group s /\
  group_start_block s g + group_block_count s g <= blocks_count s /\
  (g < groups_count s - 1 -> group_block_count s g = blocks_per_group s) /\
  (g = groups_count s - 1 -> group_start_block s g + group_block_count s g = blocks_count s).
Proof.
  intros Hg. destruct (group_start_spec g Hg) as [E1 E2]. destruct Hs as [H1 H2 H3 H4 H5 H6 H7].
  destruct (groups_count_spec s) as [G1 G2]; [lia|lia|].
  unfold group_block_count. rewrite (proj2 (Z.ltb_lt _ _) E2). rewrite E1 in *.
  split_and!; [lia|lia|lia| |]; intros; nia.
Qed.

(** Every block behind the first data block is in exactly one group. *)
Lemma group_of_block blk :
  first_data_block s <= blk < blocks_count s ->
  let g := (blk - first_data_block s) / blocks_per_group s in
  0 <= g < groups_count s /\
  group_start_block s g <= blk < group_start_block s g + group_block_count s g /\
  forall g', 0 <= g' < groups_count s ->
    group_start_block s g' <= blk < group_start_block s g' + group_block_count s g' -> g' = g.
Proof.
  intros Hb g. pose proof Hs as [H1 H2 H3 H4 H5 H6 H7].
  destruct (groups_count_spec s) as [G1 G2]; [lia|lia|].
  set (x := blk - first_data_block s) in *.
  pose proof (Z.div_mod x (blocks_per_group s) ltac:(lia)) as Hd.
  pose proof (Z.mod_pos_bound x (blocks_per_group s) ltac:(lia)) as Hm. fold g in Hd.
  assert (Hg : 0 <= g < groups_count s) by (split; [apply Z.div_pos; lia|nia]).
  split; [done|]. split.
  - destruct (group_start_spec g Hg) as [E1 E2]. unfold group_block_count.
    rewrite (proj2 (Z.ltb_lt _ _) E2), E1. lia.
  - intros g' Hg' Hr. destruct (group_start_spec g' Hg') as [E1 _].
    destruct (group_count_spec g' Hg') as ((_ & Hle) & _). rewrite E1 in Hr.
    apply (Z.div_unique_pos x (blocks_per_group s) g' (x - g' * blocks_per_group s)); lia.
Qed.

End Groups.

(** C13: a superblock that [read_superblock] accepts has a geometry on which
    no later computation overflows or leaves the device: the block size is a
    power of two of 1 KiB to 64 KiB, one bitmap block covers each group, the
    groups partition the blocks behind the first data block, the groups hold
    all inodes, and the file system fits in a device of known size. *)
Theorem superblock_geometry_sound (b : bytes) (dev_bytes : Z) (s : Superblock)
    (Hfields : s = superblock_fields b) (Hdev : in_width 64 dev_bytes)
    (Hcheck : check_superblock s dev_bytes = Ok tt) :
  let bs := block_size s in
  bs = 2 ^ (10 + log_block_size s) /\ 1024 <= bs <= 65536 /\
  (forall g, 0 <= g < groups_count s ->
     group_start_block s g = first_data_block s + g * blocks_per_group s /\
     1 <= group_block_count s g <= 8 * bs /\
     group_start_block s g + group_block_count s g <= blocks_count s) /\
  (forall blk, first_data_block s <= blk < blocks_count s -> exists g,
     0 <= g < groups_count s /\
     group_start_block s g <= blk < group_start_block s g + group_block_count s g /\
     forall g', 0 <= g' < groups_count s ->
       group_start_block s g' <= blk < group_start_block s g' + group_block_count s g' -> g' = g) /\
  inodes_count s <= groups_count s * inodes_per_group s /\
  (dev_bytes <> 0 -> sb_size_bytes s = blocks_count s * bs /\ sb_size_bytes s <= dev_bytes).
Proof.
  destruct (superblock_fields_width b) as (W1 & W2 & W3 & W4 & W5 & W6 & W7).
  cbv zeta in *. rewrite <-Hfields in *.
  destruct (check_superblock_geometry s dev_bytes W1 W2 W3 W4 W5 W6 W7 Hcheck) as [Hg Hfit].
  pose proof Hg as [G1 G2 G3 G4 G5 G6 G7]. destruct (block_size_cases s G1) as [Hbs Hbr].
  split; [rewrite Hbs, Z.pow_add_r by lia; change (2 ^ 10) with 1024; lia|]. split; [done|].
  split_and!.
  - intros g Hr. destruct (group_start_spec s Hg g Hr). destruct (group_count_spec s Hg g Hr) as (? & ? & _).
    split_and!; try done; lia.
  - intros blk Hblk. eexists. by apply group_of_block.
  - lia.
  - intros Hn. specialize (Hfit Hn). unfold in_width in Hdev.
    assert (blocks_count s * block_size s <= dev_bytes).
    { pose proof (Z.mul_div_le dev_bytes (block_size s) ltac:(lia)). nia. }
    unfold sb_size_bytes. rewrite (proj2 (Z.eqb_neq _ _)) by lia. cbn [orb].
    rewrite (proj2 (Z.ltb_ge _ _)) by (apply Z.div_le_lower_bound; lia). lia.
Qed.

(** A file system of 64 blocks of 1 KiB. *)
Definition demo_superblock : bytes :=
  write_le16 (write_le16 (write_le32 (write_le32 (write_le32 (write_le32 (write_le32
    (zeros 1024) 0x00 16) 0x04 64) 0x14 1) 0x20 8192) 0x28 16) 0x38 0xEF53) 0x58 128.

Lemma superblock_geometry_sound_witness :
  check_superblock (superblock_fields demo_superblock) 65536 = Ok tt /\
  inodes_count (superblock_fields demo_superblock) <= groups_count (superblock_fields demo_superblock)
    * inodes_per_group (superblock_fields demo_superblock).
Proof.
  split; [vm_compute; reflexivity|].
  pose proof (superblock_geometry_sound demo_superblock 65536 _ eq_refl ltac:(by split)
    ltac:(vm_compute; reflexivity)) as (_ & _ & _ & _ & H & _). exact H.
Defined.

(** ** What the readers return *)

(** The descriptor of a group in an image. *)
Definition desc_at (img : bytes) (s : Superblock) (group : Z) : GroupDesc :=
  let table_block := if block_size s =? 1024 then 2 else 1 in
  group_desc_fields s (slice img (table_block * block_size s + group * desc_bytes s) (desc_bytes s)).

Lemma reader_checked {A} d base ws off n (k : bytes -> A) (chk : A -> Result unit) h :
  wstate d base ws h -> 0 <= off -> 0 <= n ->
  wp (b ← read_exact d off n; lift (chk (k b));; mret (k b)) h (fun o h' => quiet h h' /\
    o <> OutOfFuel /\
    forall a, o = Ret a -> a = k (slice (put_all ws base) off n) /\ chk a = Ok tt /\
      off + n <= zlen base).
Proof.
  intros Hw Ho Hn. apply wp_bind. eapply wp_mono; [by apply durable_read|].
  intros o h1 (Hne & Hq & Hv). destruct o as [b|e|s|]; cbn [carry]; try done.
  destruct (Hv b eq_refl) as (-> & _ & Hroom). set (a := k _).
  destruct (chk a) as [[]|e] eqn:E; apply wp_bind; cbn; [|by split_and!].
  split_and!; [done|done|]. by intros ? [= <-].
Qed.

Lemma read_superblock_spec d base ws h :
  wstate d base ws h ->
  wp (read_superblock d) h (fun o h' => quiet h h' /\ o <> OutOfFuel /\
    forall s, o = Ret s -> s = superblock_fields (slice (put_all ws base) 1024 1024) /\
      check_superblock s (size_bytes (geometry d)) = Ok tt /\ 2048 <= zlen base).
Proof.
  intros Hw. unfold read_superblock.
  apply (reader_checked d base ws 1024 1024 superblock_fields
           (fun s => check_superblock s (size_bytes (geometry d)))); [done|lia|lia].
Qed.

Lemma read_group_desc_spec d base ws s g h :
  wstate d base ws h -> 0 <= g ->
  wp (read_group_desc d s g) h (fun o h' => quiet h h' /\ o <> OutOfFuel /\
    forall gd, o = Ret gd -> gd = desc_at (put_all ws base) s g /\ check_group_desc s gd = Ok tt /\
      zlen base > 0).
Proof.
  intros Hw Hg. unfold read_group_desc, desc_at. cbv zeta.
  destruct (Z.eqb_spec (block_size s) 0); [by split_and!|].
  destruct (_ <=? g); [by split_and!|]. destruct (_ || _); [by split_and!|].
  destruct (_ <? g); [by split_and!|]. destruct (_ && _); [by split_and!|].
  destruct (u64_max / _ <? _); [by split_and!|]. destruct (_ <? _); [by split_and!|].
  assert (0 <= block_size s).
  { unfold block_size in *. destruct (_ <=? 6); [|lia]. apply Z.shiftl_nonneg. lia. }
  assert (32 <= desc_bytes s) by (unfold desc_bytes; destruct (Z.leb_spec 32 (desc_size s)); lia).
  set (off := _ + g * desc_bytes s).
  assert (Hoff : 0 <= off) by (unfold off; destruct (block_size s =? 1024); nia).
  eapply wp_mono; [apply (reader_checked d base ws off (desc_bytes s) (group_desc_fields s)
    (check_group_desc s) h Hw Hoff); lia|].
  intros o h' (H1 & H2 & H3). split_and!; [done|done|]. intros gd Hgd.
  destruct (H3 gd Hgd) as (? & ? & ?). split_and!; [done|done|lia].
Qed.

Lemma reader_superblock d : reader d (read_superblock d).
Proof.
  unfold read_superblock. apply reader_bind; [apply reader_read; lia|]. intros b.
  apply reader_bind; [apply reader_lift|]. intros _. apply reader_ret.
Qed.
