(* ===== verification/Allocation.v ===== *)
(** The allocation graph of an ext file system and the plan that moves blocks
    below a target (include/fsx/allocation.hpp, src/ext4/allocation.cpp, and
    [plan_shrink] of src/ext4/ext4.cpp).

    Bitmaps are read by the tasks of a scheduler, in any order; here a read
    runs when its result is taken, which is the same for a device that nobody
    writes. *)
From S2P Require Import Prelude Ranges Errors Endian Host Device FileUtil Durable Scheduler Ext4.
#[local] Open Scope Z_scope.

Record BlockExtent := mkExtent {
  e_start : Z;
  e_length : Z
}.
Definition e_end (e : BlockExtent) : Z := u64 (e_start e + e_length e).

Record AllocationGraph := mkGraph {
  g_block_size : Z;
  total_blocks : Z;
  allocated_blocks : Z;
  graph_free_blocks : Z;
  allocated : list BlockExtent;
  free : list BlockExtent
}.

Record Move := mkMove {
  source : BlockExtent;
  destination : BlockExtent
}.
Record RelocationGeometry := mkRelocation {
  target_blocks : Z;
  source_blocks : Z;
  destination_blocks : Z;
  largest_source_extent : Z;
  largest_destination_extent : Z;
  moves : list Move;
  capacity_ok : bool
}.

Definition append_run (out : list BlockExtent) (start len : Z) : list BlockExtent :=
  if len =? 0 then out
  else match last out with
       | Some e =>
           if e_end e =? start
           then take (length out - 1) out ++ [mkExtent (e_start e) (u64 (e_length e + len))]
           else out ++ [mkExtent start len]
       | None => out ++ [mkExtent start len]
       end.

(** The locals of the scan: the open run and the graph. *)
Record Scan := mkScan {
  have_state : bool;
  current_used : bool;
  run_start : Z;
  run_len : Z;
  graph : AllocationGraph
}.

Definition flush_run (s : Scan) : AllocationGraph :=
  let g := graph s in
  if negb (have_state s) || (run_len s =? 0) then g
  else if current_used s
  then mkGraph (g_block_size g) (total_blocks g) (allocated_blocks g) (graph_free_blocks g)
         (append_run (allocated g) (run_start s) (run_len s)) (free g)
  else mkGraph (g_block_size g) (total_blocks g) (allocated_blocks g) (graph_free_blocks g)
         (allocated g) (append_run (free g) (run_start s) (run_len s)).

Definition count_block (used : bool) (g : AllocationGraph) : AllocationGraph :=
  mkGraph (g_block_size g) (total_blocks g)
    (if used then allocated_blocks g + 1 else allocated_blocks g)
    (if used then graph_free_blocks g else graph_free_blocks g + 1) (allocated g) (free g).

(** One round of the loop over the bits of a group. *)
Definition scan_block (s : Scan) (block : Z) (used : bool) : Scan :=
  let s :=
    if negb (have_state s) then mkScan true used block 1 (graph s)
    else if Bool.eqb used (current_used s) && (u64 (run_start s + run_len s) =? block)
    then mkScan true (current_used s) (run_start s) (run_len s + 1) (graph s)
    else mkScan true used block 1 (flush_run s) in
  mkScan (have_state s) (current_used s) (run_start s) (run_len s) (count_block used (graph s)).

Definition scan_group (sb : Superblock) (g : Z) (bm : bytes) (s : Scan) : Scan :=
  foldl (fun s i => scan_block s (u64 (group_start_block sb g + i)) (bit_set bm i)) s
    (seqZ 0 (group_block_count sb g)).

(** The loop that reads the descriptors. *)
Fixpoint read_descs (n : nat) (dev : BlockDevice) (sb : Superblock) (g : Z) : M (list GroupDesc) :=
  match n with
  | O => mret []
  | S n =>
      gd ← read_group_desc dev sb g;
      if has_flag (flags gd) BG_BLOCK_UNINIT
      then failM unsupported ("block-uninitialized ext4 groups require reconstructed bitmap "
                              +:+ "support before destructive planning")
      else ds ← read_descs n dev sb (g + 1); mret (gd :: ds)
  end.

(** [submit_one]: the bitmap's block, whose read is queued. *)
Definition submit_one (sb : Superblock) (descs : list GroupDesc) (g : Z) : Result (Z * Z) :=
  let block := default 0 (block_bitmap <$> descs !! Z.to_nat g) in
  if blocks_count sb <=? block then fail corrupt "block bitmap points beyond filesystem"
  else Ok (g, block).

(** The loop that fills the window; the queue and the next group. *)
Fixpoint fill_window (n : nat) (sb : Superblock) (descs : list GroupDesc) (window groups : Z)
    (pending : list (Z * Z)) (next_group : Z) : Result (list (Z * Z) * Z) :=
  match n with
  | O => Ok (pending, next_group)
  | S n =>
      if (next_group <? groups) && (zlen pending <? window)
      then let? q := submit_one sb descs next_group in
           fill_window n sb descs window groups (pending ++ [q]) (next_group + 1)
      else Ok (pending, next_group)
  end.

(** The loop over the pending reads. *)
Fixpoint scan_pending (fuel : nat) (dev : BlockDevice) (sb : Superblock) (descs : list GroupDesc)
    (groups : Z) (pending : list (Z * Z)) (next_group completed : Z) (s : Scan) : M Scan :=
  match pending with
  | [] => mret s
  | (g, block) :: pending =>
      match fuel with
      | O => fun h => (OutOfFuel, h)
      | S fuel =>
          stop ← cancel_requested;
          if (stop : bool) then failM unsafe "scan cancelled"
          else
            bm ← read_task dev (u64 (block * block_size sb)) (block_size sb);
            if negb (g =? completed)
            then failM internal "allocation bitmap pipeline lost group ordering"
            else
              let s := scan_group sb g bm s in
              if next_group <? groups
              then
                q ← lift (submit_one sb descs next_group);
                scan_pending fuel dev sb descs groups (pending ++ [q]) (next_group + 1)
                  (completed + 1) s
              else scan_pending fuel dev sb descs groups pending next_group (completed + 1) s
      end
  end.

(** [build_allocation_graph] behind the superblock. *)
Definition graph_of_superblock (dev : BlockDevice) (requested : option IoTuning) (sb : Superblock)
    : M AllocationGraph :=
  if has_flag (feature_incompat sb) INCOMPAT_META_BG
  then failM unsupported "allocation graph does not yet support ext4 meta_bg descriptor placement"
  else if has_flag (feature_ro_compat sb) RO_COMPAT_BIGALLOC
  then failM unsupported "bigalloc uses cluster allocation; block-granularity relocation is refused"
  else
    pr ← profile_device dev;
    let t := default (tuning pr) requested in
    let w := Z.max 1 (workers t) in
    let groups := groups_count sb in
    descs ← read_descs (Z.to_nat groups) dev sb 0;
    let window := Z.max 1 (queue_depth t + w) in
    p ← lift (fill_window (Z.to_nat groups) sb descs window groups [] 0);
    let g0 := mkGraph (block_size sb) (blocks_count sb) 0 0 [] [] in
    s ← scan_pending (Z.to_nat groups) dev sb descs groups p.1 p.2 0 (mkScan false false 0 0 g0);
    mret (flush_run s).

Definition build_allocation_graph (dev : BlockDevice) (requested : option IoTuning)
    : M AllocationGraph :=
  sb ← read_superblock dev;
  graph_of_superblock dev requested sb.

(** ** [build_relocation_geometry] *)

Section Geometry.
(** [std::sort] with the order of falling lengths, whatever it does with
    extents of equal length. *)
Context (sort_desc : list BlockExtent -> list BlockExtent).

Definition sources_of (l : list BlockExtent) (target : Z) : list BlockExtent :=
  concat ((fun e => if e_end e <=? target then []
                    else let s := Z.max (e_start e) target in [mkExtent s (e_end e - s)]) <$> l).

Fixpoint dests_of (l : list BlockExtent) (target : Z) : list BlockExtent :=
  match l with
  | [] => []
  | e :: l =>
      if target <=? e_start e then []
      else
        let stop := Z.min (e_end e) target in
        if e_start e <? stop then mkExtent (e_start e) (stop - e_start e) :: dests_of l target
        else dests_of l target
  end.

Definition sum_lengths (l : list BlockExtent) : Z := foldl (fun n e => u64 (n + e_length e)) 0 l.
Definition largest (l : list BlockExtent) : Z := foldl (fun n e => Z.max n (e_length e)) 0 l.

(** The inner [while (di < dests.size() && dused == dests[di].length)]; the
    suffix of [dests] behind [di]. *)
Fixpoint skip_used (dests : list BlockExtent) (dused : Z) : list BlockExtent * Z :=
  match dests with
  | d :: ds => if dused =? e_length d then skip_used ds 0 else (dests, dused)
  | [] => ([], dused)
  end.

(** [while (soff < s.length)]; [None] when the fuel is used up. *)
Fixpoint place (fuel : nat) (s : BlockExtent) (soff : Z) (dests : list BlockExtent) (dused : Z)
    (out : list Move) : option (Result (list BlockExtent * Z * list Move)) :=
  if e_length s <=? soff then Some (Ok (dests, dused, out))
  else
    match fuel with
    | O => None
    | S fuel =>
        match skip_used dests dused with
        | ([], _) => Some (fail internal "relocation geometry exhausted destination extents")
        | (d :: ds, dused) =>
            let n := Z.min (e_length s - soff) (e_length d - dused) in
            place fuel s (soff + n) (d :: ds) (dused + n)
              (out ++ [mkMove (mkExtent (e_start s + soff) n) (mkExtent (e_start d + dused) n)])
        end
    end.

Fixpoint place_all (fuel : nat) (sources dests : list BlockExtent) (dused : Z) (out : list Move)
    : option (Result (list Move)) :=
  match sources with
  | [] => Some (Ok out)
  | s :: sources =>
      match place fuel s 0 dests dused out with
      | None => None
      | Some (Err e) => Some (Err e)
      | Some (Ok (dests, dused, out)) => place_all fuel sources dests dused out
      end
  end.

Definition build_relocation_geometry (g : AllocationGraph) (target : Z)
    : option (Result RelocationGeometry) :=
  if (target =? 0) || (total_blocks g <=? target)
  then Some (fail invalid_argument "relocation target must be inside filesystem")
  else
    let sources := sort_desc (sources_of (allocated g) target) in
    let dests := sort_desc (dests_of (free g) target) in
    let sb := sum_lengths sources in
    let db := sum_lengths dests in
    let r ms ok := mkRelocation target sb db (largest sources) (largest dests) ms ok in
    if db <? sb then Some (Ok (r [] false))
    else
      match place_all (length dests + 1) sources dests 0 [] with
      | None => None
      | Some (Err e) => Some (Err e)
      | Some (Ok ms) => Some (Ok (r ms true))
      end.

End Geometry.

(** ** [plan_shrink] *)

Record ResizePlan := mkPlan {
  current_bytes : Z;
  target_bytes : Z;
  plan_target_blocks : Z;
  plan_block_size : Z;
  allocated_blocks_above_target : Z;
  allocated_bytes_above_target : Z;
  metadata_blocks_above_target : Z;
  free_blocks_below_target : Z;
  highest_allocated_block : Z;
  allocated_extent_count : Z;
  free_extent_count : Z;
  relocation_move_count : Z;
  largest_relocation_extent_blocks : Z;
  target_possible_by_capacity : bool;
  requires_relocation : bool;
  notes : list string
}.

(** The loop over the allocated extents: blocks above the target, highest block. *)
Definition above_target (l : list BlockExtent) (target : Z) : Z * Z :=
  foldl (fun '(above, highest) e =>
    let highest := if e_length e =? 0 then highest else Z.max highest (u64 (e_end e - 1)) in
    (if target <? e_end e then u64 (above + (e_end e - Z.max (e_start e) target)) else above, highest))
    (0, 0) l.

Fixpoint free_below (l : list BlockExtent) (target n : Z) : Z :=
  match l with
  | [] => n
  | e :: l => if target <=? e_start e then n
              else free_below l target (u64 (n + (Z.min (e_end e) target - e_start e)))
  end.

(** The metadata blocks of a group that lie above the target. *)
Definition metadata_above (sb : Superblock) (target : Z) (gd : GroupDesc) : Z :=
  let mark b := if target <=? b then 1 else 0 in
  let bs := block_size sb in
  let it_blocks := (inodes_per_group sb * inode_size sb + bs - 1) / bs in
  mark (block_bitmap gd) + mark (inode_bitmap gd)
  + (if target <=? inode_table gd then it_blocks
     else if target <? inode_table gd + it_blocks then inode_table gd + it_blocks - target else 0).

Fixpoint scan_metadata (n : nat) (dev : BlockDevice) (sb : Superblock) (target g acc : Z) : M Z :=
  match n with
  | O => mret acc
  | S n =>
      stop ← cancel_requested;
      if (stop : bool) then failM unsafe "resize plan cancelled"
      else
        gd ← read_group_desc dev sb g;
        scan_metadata n dev sb target (g + 1) (acc + metadata_above sb target gd)
  end.

Definition plan_shrink (sort_desc : list BlockExtent -> list BlockExtent) (dev : BlockDevice)
    (target : Z) : M ResizePlan :=
  sb ← read_superblock dev;
  let bs := block_size sb in
  let current := sb_size_bytes sb in
  if current <=? target then failM invalid_argument "target is not smaller than filesystem"
  else
    let tb := target / bs in
    if tb <=? first_data_block sb then failM invalid_argument "target is too small"
    else
      g ← build_allocation_graph dev None;
      let '(above, highest) := above_target (allocated g) tb in
      let below := free_below (free g) tb 0 in
      meta ← scan_metadata (Z.to_nat (groups_count sb)) dev sb tb 0 0;
      match build_relocation_geometry sort_desc g tb with
      | None => fun h => (OutOfFuel, h)
      | Some (Err e) => raise e
      | Some (Ok r) =>
          let ns := if has_flag (feature_incompat sb) INCOMPAT_META_BG
                    then ["meta_bg requires extended descriptor relocation support before destructive shrink can be enabled"%string]
                    else [] in
          mret (mkPlan current target tb bs above (u64 (above * bs)) meta below highest
                  (zlen (allocated g)) (zlen (free g)) (zlen (moves r)) (largest_source_extent r)
                  (capacity_ok r && (allocated_blocks g <=? tb)) ((0 <? above) || (0 <? meta))
                  (ns ++ ["geometry plan only; use plan relocate for owner-aware relocation and shrink readiness"%string]))
      end.

(** ** The blocks of a list of extents *)

Definition blocks_of (l : list BlockExtent) : list Z :=
  concat ((fun e => seqZ (e_start e) (e_length e)) <$> l).

Lemma blocks_of_app l1 l2 : blocks_of (l1 ++ l2) = blocks_of l1 ++ blocks_of l2.
Proof. unfold blocks_of. by rewrite fmap_app, concat_app. Qed.
Lemma blocks_of_cons e l : blocks_of (e :: l) = seqZ (e_start e) (e_length e) ++ blocks_of l.
Proof. done. Qed.
Lemma blocks_of_snoc l e : blocks_of (l ++ [e]) = blocks_of l ++ seqZ (e_start e) (e_length e).
Proof. by rewrite blocks_of_app, blocks_of_cons, app_nil_r. Qed.

Lemma blocks_of_permute l l' : l ≡ₚ l' -> blocks_of l ≡ₚ blocks_of l'.
Proof. apply concat_fmap_permute. Qed.

(** An extent whose end is a block number. *)
Definition extent_ok (n : Z) (e : BlockExtent) : Prop :=
  0 <= e_start e /\ 0 < e_length e /\ e_start e + e_length e <= n.

Lemma e_end_ok n e : n < 2 ^ 64 -> extent_ok n e -> e_end e = e_start e + e_length e.
Proof. intros Hn (H1 & H2 & H3). unfold e_end, wrap. apply Z.mod_small. lia. Qed.

Lemma zlen_blocks_of n l : Forall (extent_ok n) l ->
  zlen (blocks_of l) = foldr (fun e k => e_length e + k) 0 l.
Proof.
  induction l as [|e l IH]; intros H; [done|]. apply Forall_cons in H as [(H1 & H2 & _) H].
  rewrite blocks_of_cons, zlen_app, IH by done. cbn [foldr]. f_equal.
  unfold zlen. rewrite length_seqZ. lia.
Qed.

(** ** The scan *)

Lemma seqZ_snoc m n : 0 <= n -> seqZ m (n + 1) = seqZ m n ++ [m + n].
Proof. intros. by rewrite seqZ_app by lia. Qed.

Lemma last_split {A} (l : list A) x : last l = Some x -> l = take (length l - 1) l ++ [x].
Proof.
  destruct l as [|y l _] using rev_ind; [done|]. rewrite last_snoc. intros [= ->].
  rewrite length_app. cbn. rewrite Nat.add_sub, take_app_length. done.
Qed.

Lemma append_run_spec n l start len :
  n < 2 ^ 64 -> Forall (extent_ok n) l -> 0 <= start -> 0 < len -> start + len <= n ->
  blocks_of (append_run l start len) = blocks_of l ++ seqZ start len /\
  Forall (extent_ok n) (append_run l start len).
Proof.
  intros Hn Hl Hs Hlen Hend. unfold append_run. rewrite (proj2 (Z.eqb_neq _ _)) by lia.
  assert (Hpush : blocks_of (l ++ [mkExtent start len]) = blocks_of l ++ seqZ start len /\
    Forall (extent_ok n) (l ++ [mkExtent start len])).
  { rewrite blocks_of_snoc. split; [done|]. apply Forall_app. split; [done|].
    apply Forall_singleton. by split_and!. }
  destruct (last l) as [e|] eqn:El; [|done]. apply last_split in El.
  set (k := take (length l - 1) l) in *. rewrite El in Hl.
  apply Forall_app in Hl as [Hk [He _]%Forall_cons].
  rewrite (e_end_ok n e Hn He). destruct (Z.eqb_spec (e_start e + e_length e) start) as [E|]; [|done].
  destruct He as (H1 & H2 & H3).
  assert (Hu : u64 (e_length e + len) = e_length e + len) by (apply Z.mod_small; lia).
  rewrite Hu. rewrite El, !blocks_of_snoc, <-app_assoc. cbn [e_start e_length]. split.
  - by rewrite (seqZ_app _ (e_length e) len), E by lia.
  - apply Forall_app. split; [done|]. apply Forall_singleton. split_and!; cbn; lia.
Qed.

Definition used_in (u : Z -> bool) (b : bool) (blk : Z) : Prop := u blk = b.
#[local] Instance used_in_dec u b blk : Decision (used_in u b blk).
Proof. unfold used_in. apply _. Defined.

(** The blocks of [first, cur) that are used, or free. *)
Definition chosen (u : Z -> bool) (b : bool) (first cur : Z) : list Z :=
  filter (used_in u b) (seqZ first (cur - first)).

Lemma chosen_snoc u b first cur :
  first <= cur -> chosen u b first (cur + 1) = chosen u b first cur ++ (if Bool.eqb (u cur) b then [cur] else []).
Proof.
  intros H. unfold chosen. replace (cur + 1 - first) with (cur - first + 1) by lia.
  rewrite seqZ_snoc, filter_app by lia. f_equal. replace (first + (cur - first)) with cur by lia.
  destruct (Bool.eqb (u cur) b) eqn:E.
  - apply eqb_prop in E. by rewrite filter_cons_True.
  - rewrite filter_cons_False; [done|]. unfold used_in. intros Hu. rewrite Hu in E.
    by rewrite eqb_reflx in E.
Qed.

(** The part of the open run that has state [b]. *)
Definition open_run (s : Scan) (b : bool) : list Z :=
  if have_state s && Bool.eqb (current_used s) b then seqZ (run_start s) (run_len s) else [].
Definition side (g : AllocationGraph) (b : bool) : list BlockExtent :=
  if b then allocated g else free g.

Record scan_ok (u : Z -> bool) (first cur : Z) (s : Scan) : Prop := {
  scan_lists : forall b, blocks_of (side (graph s) b) ++ open_run s b = chosen u b first cur;
  scan_extents : forall b, Forall (extent_ok cur) (side (graph s) b);
  scan_used : allocated_blocks (graph s) = zlen (chosen u true first cur);
  scan_free : graph_free_blocks (graph s) = zlen (chosen u false first cur);
  scan_open : if have_state s then 0 <= run_start s /\ 0 < run_len s /\ run_start s + run_len s = cur
              else cur = first
}.

Lemma extents_mono n n' l : n <= n' -> Forall (extent_ok n) l -> Forall (extent_ok n') l.
Proof.
  intros H Hl. eapply Forall_impl; [exact Hl|]. intros e (? & ? & ?). split_and!; lia.
Qed.

Lemma flush_run_spec u first cur s :
  cur < 2 ^ 64 -> scan_ok u first cur s ->
  (forall b, blocks_of (side (flush_run s) b) = chosen u b first cur /\
             Forall (extent_ok cur) (side (flush_run s) b)) /\
  allocated_blocks (flush_run s) = allocated_blocks (graph s) /\
  graph_free_blocks (flush_run s) = graph_free_blocks (graph s) /\
  total_blocks (flush_run s) = total_blocks (graph s) /\
  g_block_size (flush_run s) = g_block_size (graph s).
Proof.
  intros Hc [Hl He _ _ Ho]. unfold flush_run, open_run in *.
  destruct (have_state s); cbn [negb orb andb] in *.
  2: { split; [|done]. intros b. rewrite <-Hl, app_nil_r. split; [done|apply He]. }
  destruct Ho as (H1 & H2 & H3). rewrite (proj2 (Z.eqb_neq _ _)) by lia.
  assert (Hrun : forall b, blocks_of (append_run (side (graph s) b) (run_start s) (run_len s))
      = blocks_of (side (graph s) b) ++ seqZ (run_start s) (run_len s) /\
    Forall (extent_ok cur) (append_run (side (graph s) b) (run_start s) (run_len s)))
    by (intros b; apply append_run_spec; [done|apply He|lia..]).
  destruct (current_used s); (split; [|done]); intros b; specialize (Hl b); specialize (Hrun b);
    destruct b; cbn [side allocated free Bool.eqb] in *;
    rewrite ?app_nil_r in Hl; rewrite <-?Hl; first [exact Hrun | by split; [|apply (He true)] | by split; [|apply (He false)]].
Qed.

Lemma scan_block_spec u first cur s :
  0 <= first <= cur -> cur + 1 < 2 ^ 64 -> scan_ok u first cur s ->
  scan_ok u first (cur + 1) (scan_block s cur (u cur)) /\
  total_blocks (graph (scan_block s cur (u cur))) = total_blocks (graph s) /\
  g_block_size (graph (scan_block s cur (u cur))) = g_block_size (graph s).
Proof.
  intros Hf Hc Hs. pose proof Hs as [Hl He Hu Hfr Ho].
  destruct (flush_run_spec u first cur s ltac:(lia) Hs) as (Hfl & Ea & Eb & Et & Eg).
  assert (Hcnt : forall g, allocated_blocks g = allocated_blocks (graph s) ->
    graph_free_blocks g = graph_free_blocks (graph s) ->
    allocated_blocks (count_block (u cur) g) = zlen (chosen u true first (cur + 1)) /\
    graph_free_blocks (count_block (u cur) g) = zlen (chosen u false first (cur + 1))).
  { intros g E1 E2. rewrite !chosen_snoc, !zlen_app by lia. unfold count_block. cbn.
    rewrite E1, E2, Hu, Hfr. destruct (u cur); cbn; change (zlen [cur]) with 1; change (zlen []) with 0; lia. }
  assert (Hside : forall g b, side (count_block (u cur) g) b = side g b) by (by intros g []).
  unfold scan_block. destruct (have_state s) eqn:Eh; cbn [negb].
  2: { (* the first block *)
    destruct (Hcnt (graph s) eq_refl eq_refl) as [C1 C2]. split; [|done].
    split; cbn [graph have_state current_used run_start run_len]; try done; [| |lia].
    - intros b. rewrite Hside, chosen_snoc, <-Hl by lia. unfold open_run. rewrite Eh. cbn [andb].
      rewrite app_nil_r. f_equal.
    - intros b. rewrite Hside. apply (extents_mono cur); [lia|apply He]. }
  destruct Ho as (H1 & H2 & H3).
  assert (Hw : u64 (run_start s + run_len s) = cur) by (rewrite H3; apply Z.mod_small; lia).
  rewrite Hw, Z.eqb_refl, andb_true_r.
  destruct (Bool.eqb (u cur) (current_used s)) eqn:Eq.
  - apply eqb_prop in Eq. destruct (Hcnt (graph s) eq_refl eq_refl) as [C1 C2]. split; [|done].
    split; cbn [graph have_state current_used run_start run_len]; try done; [| |lia].
    + intros b. rewrite Hside, chosen_snoc, <-Hl by lia. unfold open_run. rewrite Eh, Eq. cbn.
      destruct (Bool.eqb (current_used s) b).
      * by rewrite seqZ_snoc, H3, app_assoc by lia.
      * by rewrite !app_nil_r.
    + intros b. rewrite Hside. apply (extents_mono cur); [lia|apply He].
  - destruct (Hcnt (flush_run s) Ea Eb) as [C1 C2]. split; [|done].
    split; cbn [graph have_state current_used run_start run_len]; try done; [| |lia].
    + intros b. rewrite Hside, chosen_snoc by lia. rewrite (proj1 (Hfl b)). f_equal.
    + intros b. rewrite Hside. apply (extents_mono cur); [lia|apply Hfl].
Qed.

(** ** The graph is the bitmaps *)

(** The state of a block in an image. *)
Definition block_used (img : bytes) (sb : Superblock) (blk : Z) : bool :=
  let g := (blk - first_data_block sb) / blocks_per_group sb in
  bit_set (slice img (block_bitmap (desc_at img sb g) * block_size sb) (block_size sb))
    (blk - (first_data_block sb + g * blocks_per_group sb)).

Lemma reader_profile d : reader d (profile_device d).
Proof.
  unfold profile_device. apply reader_bind.
  - case_match; [apply reader_ret|]. cbv zeta. case_match; [apply reader_ret|].
    apply reader_bind; [|intros c; apply reader_ret]. unfold linux_sysfs_class.
    apply reader_bind; [apply reader_fstat|]. intros st.
    apply reader_bind; [apply reader_env|]. intros env. apply reader_ret.
  - intros p. apply reader_bind; [apply reader_env|]. intros env. apply reader_ret.
Qed.

Section Scan.
Context (d : BlockDevice) (base : bytes) (sb : Superblock).
Context (Hgeo : geometry_ok sb).
Let first := first_data_block sb.
Let groups := groups_count sb.
Let u := block_used base sb.
Let bm g := block_bitmap (desc_at base sb g).

(** Where the scan stands before the group [g]. *)
Definition cursor (g : Z) : Z := if g <? groups then group_start_block sb g else blocks_count sb.

Lemma cursor_step g : 0 <= g < groups ->
  cursor (g + 1) = group_start_block sb g + group_block_count sb g /\
  first <= group_start_block sb g.
Proof.
  intros Hg. destruct (group_start_spec sb Hgeo g Hg) as [E1 E2].
  destruct (group_count_spec sb Hgeo g Hg) as (H1 & H2 & H3 & H4).
  pose proof Hgeo as [G1 G2 G3 G4 G5 G6 G7].
  split; [|unfold first; nia]. unfold cursor. destruct (Z.ltb_spec (g + 1) groups) as [Hlt|Hge].
  - destruct (group_start_spec sb Hgeo (g + 1)) as [E3 _]; [unfold groups in Hlt; lia|].
    fold groups in H3. rewrite H3 by lia. lia.
  - fold groups in H4. rewrite H4 by lia. done.
Qed.

Lemma used_in_group g i :
  0 <= g < groups -> 0 <= i < group_block_count sb g ->
  u (group_start_block sb g + i) = bit_set (slice base (bm g * block_size sb) (block_size sb)) i.
Proof.
  intros Hg Hi. destruct (group_start_spec sb Hgeo g Hg) as [E1 E2].
  destruct (group_count_spec sb Hgeo g Hg) as ((H0 & H1) & _). pose proof Hgeo as [G1 G2 G3 G4 G5 G6 G7].
  unfold u, block_used. rewrite E1. fold first.
  assert (Hq : (first + g * blocks_per_group sb + i - first) / blocks_per_group sb = g).
  { symmetry. apply (Z.div_unique_pos _ _ g i); lia. }
  rewrite Hq. unfold bm. f_equal. lia.
Qed.

Lemma scan_group_spec g s :
  0 <= g < groups -> scan_ok u first (cursor g) s ->
  let s' := scan_group sb g (slice base (bm g * block_size sb) (block_size sb)) s in
  scan_ok u first (cursor (g + 1)) s' /\
  total_blocks (graph s') = total_blocks (graph s) /\ g_block_size (graph s') = g_block_size (graph s).
Proof.
  intros Hg Hs. destruct (cursor_step g Hg) as [-> Hfirst].
  destruct (group_count_spec sb Hgeo g Hg) as ((H0 & H1) & H2 & _).
  pose proof Hgeo as [G1 G2 G3 G4 G5 G6 G7].
  unfold cursor in Hs. rewrite (proj2 (Z.ltb_lt _ _)) in Hs by (apply Hg).
  set (st := group_start_block sb g) in *. unfold scan_group. fold st.
  assert (Hfold : forall n : nat, Z.of_nat n <= group_block_count sb g ->
    let s' := foldl (fun s i => scan_block s (u64 (st + i))
      (bit_set (slice base (bm g * block_size sb) (block_size sb)) i)) s (seqZ 0 (Z.of_nat n)) in
    scan_ok u first (st + Z.of_nat n) s' /\ total_blocks (graph s') = total_blocks (graph s) /\
    g_block_size (graph s') = g_block_size (graph s)).
  { induction n as [|n IH]; intros Hn; cbv zeta.
    - cbn. rewrite Z.add_0_r. done.
    - rewrite seqZ_S, foldl_app. cbn [foldl]. rewrite Z.add_0_l.
      destruct IH as (IH1 & IH2 & IH3); [lia|]. rewrite <-used_in_group by lia. fold st.
      assert (Hw : u64 (st + Z.of_nat n) = st + Z.of_nat n)
        by (apply Z.mod_small; unfold first in Hfirst; lia).
      rewrite Hw. set (s1 := foldl _ _ _) in *.
      destruct (scan_block_spec u first (st + Z.of_nat n) s1) as (S1 & S2 & S3);
        [unfold first in *; lia|lia|exact IH1|].
      replace (st + Z.of_nat (S n)) with (st + Z.of_nat n + 1) by lia.
      split; [exact S1|]. by rewrite S2, S3. }
  specialize (Hfold (Z.to_nat (group_block_count sb g))). rewrite Z2Nat.id in Hfold by lia.
  apply Hfold. lia.
Qed.

Lemma read_descs_spec n g h :
  wstate d base [] h -> 0 <= g ->
  wp (read_descs n d sb g) h (fun o h' => quiet h h' /\ o <> OutOfFuel /\
    forall ds, o = Ret ds -> ds = desc_at base sb <$> seqZ g (Z.of_nat n) /\
      Forall (fun gd => check_group_desc sb gd = Ok tt) ds).
Proof.
  revert g h. induction n as [|n IH]; intros g h Hw Hg; cbn [read_descs].
  { apply wp_ret. split_and!; [apply quiet_refl|done|]. intros ds [= <-]. by split; [|apply Forall_nil]. }
  apply wp_bind. eapply wp_mono; [by apply read_group_desc_spec|]. intros o h1 (Hq & Hne & Hv).
  destruct o as [gd|e|s|]; cbn [carry]; try done. destruct (Hv gd eq_refl) as (-> & Hchk & _).
  cbn [put_all foldl] in *. destruct (has_flag _ _); [done|].
  assert (Hw1 : wstate d base [] h1) by (by eapply wstate_quiet).
  apply wp_bind. eapply wp_mono; [apply IH; [exact Hw1|lia]|]. intros o h2 (Hq2 & Hne2 & Hv2).
  assert (Hq' : quiet h h2) by (by eapply quiet_trans).
  destruct o as [ds|e|s|]; cbn [carry]; try done. apply wp_ret. split_and!; [done|done|].
  intros ds' [= <-]. destruct (Hv2 ds eq_refl) as [-> Hall].
  split; [|by apply Forall_cons]. rewrite (seqZ_cons g (Z.of_nat (S n))) by lia.
  rewrite fmap_cons. by replace (Z.pred (Z.of_nat (S n))) with (Z.of_nat n) by lia.
Qed.

Let descs := desc_at base sb <$> seqZ 0 groups.

(** The queue of the pipeline. *)
Definition queued (g : Z) : Z * Z := (g, bm g).
Definition in_flight (completed next : Z) : list (Z * Z) := queued <$> seqZ completed (next - completed).

Lemma submit_one_spec g : 0 <= g < groups ->
  submit_one sb descs g = if blocks_count sb <=? bm g
                          then fail corrupt "block bitmap points beyond filesystem" else Ok (queued g).
Proof.
  intros Hg. unfold submit_one, descs, queued. rewrite list_lookup_fmap, lookup_seqZ_lt by lia.
  cbn. replace (Z.of_nat (Z.to_nat g)) with g by lia. by fold (bm g).
Qed.

Lemma in_flight_snoc completed next :
  completed <= next -> in_flight completed (next + 1) = in_flight completed next ++ [queued next].
Proof.
  intros. unfold in_flight. replace (next + 1 - completed) with (next - completed + 1) by lia.
  rewrite seqZ_snoc, fmap_app by lia. cbn. do 3 f_equal. lia.
Qed.

Lemma fill_window_spec n window next p :
  0 <= next <= groups -> 1 <= window ->
  fill_window n sb descs window groups (in_flight 0 next) next = Ok p ->
  p.1 = in_flight 0 p.2 /\ next <= p.2 <= groups /\ (next < groups -> (0 < n)%nat -> next = 0 -> 0 < p.2).
Proof.
  revert next. induction n as [|n IH]; intros next Hn Hw; cbn [fill_window].
  { intros [= <-]. cbn. split_and!; [done|lia|lia|lia]. }
  destruct ((next <? groups) && _) eqn:E.
  - rewrite submit_one_spec by lia. destruct (_ <=? bm next); cbn [bindR]; [done|].
    rewrite <-in_flight_snoc by lia. intros H. apply IH in H as (H1 & H2 & H3); [|lia|done].
    split_and!; [done|lia|lia|lia].
  - intros [= <-]. cbn. split_and!; [done|lia|lia|]. intros Hlt _ ->.
    apply andb_false_iff in E as [E|E]; [lia|]. apply Z.ltb_ge in E.
    change (zlen (in_flight 0 0)) with 0 in E. lia.
Qed.

Lemma scan_pending_spec fuel completed next s h :
  wstate d base [] h -> 0 <= completed <= next -> next <= groups ->
  (next < groups -> completed < next) -> (Z.to_nat (groups - completed) <= fuel)%nat ->
  (forall g, 0 <= g < groups -> bm g < blocks_count sb -> u64 (bm g * block_size sb) = bm g * block_size sb) ->
  (forall g, 0 <= g < groups -> 0 <= bm g < blocks_count sb) ->
  scan_ok u first (cursor completed) s ->
  wp (scan_pending fuel d sb descs groups (in_flight completed next) next completed s) h
    (fun o h' => quiet h h' /\ o <> OutOfFuel /\
      forall s', o = Ret s' -> scan_ok u first (blocks_count sb) s' /\
        total_blocks (graph s') = total_blocks (graph s) /\ g_block_size (graph s') = g_block_size (graph s)).
Proof.
  revert completed next s h. induction fuel as [|fuel IH];
    intros completed next s h Hw Hc Hn Hlt Hfuel Hoff Hbm Hs.
  { assert (completed = groups) as -> by lia. assert (next = groups) as -> by lia.
    unfold in_flight. rewrite Z.sub_diag. apply wp_ret. split_and!; [apply quiet_refl|done|].
    intros s' [= <-]. unfold cursor in Hs. by rewrite Z.ltb_irrefl in Hs. }
  destruct (Z.eq_dec completed next) as [<-|Hne].
  { assert (completed = groups) as -> by lia. unfold in_flight. rewrite Z.sub_diag. apply wp_ret.
    split_and!; [apply quiet_refl|done|].
    intros s' [= <-]. unfold cursor in Hs. by rewrite Z.ltb_irrefl in Hs. }
  unfold in_flight. rewrite seqZ_cons by lia. rewrite fmap_cons. unfold queued at 1.
  replace (Z.succ completed) with (completed + 1) by lia.
  replace (Z.pred (next - completed)) with (next - (completed + 1)) by lia.
  cbn [scan_pending]. fold (in_flight (completed + 1) next).
  pose proof Hw as [(f & Hf & _) _ _]. apply wp_bind.
  eapply wp_mono; [exact (reader_cancel d h f Hf)|]. intros o h1 [Hq1 Hne1].
  destruct o as [[]|e|st|]; cbn [carry]; try done.
  assert (Hw1 : wstate d base [] h1) by (by eapply wstate_quiet). clear f Hf.
  rewrite Hoff by (try apply Hbm; lia). unfold read_task.
  apply wp_bind, wp_bind. pose proof Hw1 as [(f & Hf & _) _ _].
  eapply wp_mono; [exact (reader_cancel d h1 f Hf)|]. intros o h2 [Hq2 Hne2].
  assert (Hq12 : quiet h h2) by (by eapply quiet_trans).
  destruct o as [[]|e|st|]; cbn [carry]; try done.
  assert (Hw2 : wstate d base [] h2) by (by eapply wstate_quiet). clear f Hf Hw1.
  assert (Hbs0 : 0 < block_size sb) by (destruct (block_size_cases sb); [apply Hgeo|lia]).
  pose proof (Hbm completed ltac:(lia)) as Hb0.
  eapply wp_mono; [apply durable_read; [exact Hw2|nia|lia]|]. intros o h3 (Hne3 & Hq3 & Hv3).
  assert (Hq : quiet h h3) by (by eapply quiet_trans).
  destruct o as [bmp|e|st|]; cbn [carry]; try done. destruct (Hv3 bmp eq_refl) as (-> & _ & _).
  cbn [put_all foldl]. rewrite Z.eqb_refl. cbn [negb].
  assert (Hw3 : wstate d base [] h3) by (by eapply wstate_quiet).
  destruct (scan_group_spec completed s ltac:(lia) Hs) as (S1 & S2 & S3).
  set (s1 := scan_group _ _ _ _) in *.
  assert (Hrec : forall next', completed + 1 <= next' <= groups -> (next' < groups -> completed + 1 < next') ->
    wp (scan_pending fuel d sb descs groups (in_flight (completed + 1) next') next' (completed + 1) s1) h3
      (fun o h' => quiet h h' /\ o <> OutOfFuel /\
        forall s', o = Ret s' -> scan_ok u first (blocks_count sb) s' /\
        total_blocks (graph s') = total_blocks (graph s) /\ g_block_size (graph s') = g_block_size (graph s))).
  { intros next' Hn' Hlt'. eapply wp_mono; [apply IH; try done; lia|]. intros o h4 (Hq4 & Hne4 & Hv4).
    split_and!; [by eapply quiet_trans|done|]. rewrite <-S2, <-S3. exact Hv4. }
  destruct (Z.ltb_spec next groups); [|apply Hrec; lia].
  rewrite submit_one_spec by lia. destruct (_ <=? bm next).
  { apply wp_bind. by split_and!. }
  apply wp_bind, wp_ret. cbn [carry]. rewrite <-in_flight_snoc by lia. apply Hrec; lia.
Qed.

End Scan.

(** What the graph of an image says of its blocks. *)
Definition exact_graph (base : bytes) (sb : Superblock) (g : AllocationGraph) : Prop :=
  let blocks := seqZ (first_data_block sb) (blocks_count sb - first_data_block sb) in
  g_block_size g = block_size sb /\ total_blocks g = blocks_count sb /\
  blocks_of (allocated g) = filter (fun b => block_used base sb b = true) blocks /\
  blocks_of (free g) = filter (fun b => block_used base sb b = false) blocks /\
  allocated_blocks g = zlen (blocks_of (allocated g)) /\
  graph_free_blocks g = zlen (blocks_of (free g)) /\
  Forall (extent_ok (blocks_count sb)) (allocated g) /\
  Forall (extent_ok (blocks_count sb)) (free g).

Lemma graph_of_superblock_spec d base requested sb h1 :
  wstate d base [] h1 -> geometry_ok sb -> 2048 <= zlen base < 2 ^ 63 ->
  blocks_count sb <= zlen base / block_size sb ->
  wp (graph_of_superblock d requested sb) h1 (fun o h' => quiet h1 h' /\ o <> OutOfFuel /\
    forall g, o = Ret g -> exact_graph base sb g).
Proof.
  intros Hw1 Hgeo [Hroom Hoff] Hfit. unfold graph_of_superblock.
  destruct (has_flag _ _); [done|]. destruct (has_flag _ _); [done|].
  pose proof Hw1 as [(f & Hf & _) _ _].
  apply wp_bind. eapply wp_mono; [exact (reader_profile d h1 f Hf)|]. intros o h2 [Hq2 Hne2].
  
  destruct o as [pr|e|st|]; cbn [carry]; try done. cbv zeta.
  assert (Hw2 : wstate d base [] h2) by exact (wstate_quiet _ _ _ _ _ Hq2 Hw1). clear f Hf Hw1.
  apply wp_bind. eapply wp_mono; [apply (read_descs_spec d base sb _ 0 h2 Hw2); lia|].
  intros o h3 (Hq3 & Hne3 & Hv3). assert (Hq : quiet h1 h3) by exact (quiet_trans _ _ _ Hq2 Hq3).
  destruct o as [ds|e|st|]; cbn [carry]; try done. destruct (Hv3 ds eq_refl) as [Eds Hall].
  assert (Hw3 : wstate d base [] h3) by exact (wstate_quiet _ _ _ _ _ Hq3 Hw2). clear Hw2.
  pose proof Hgeo as [G1 G2 G3 G4 G5 G6 G7]. destruct (block_size_cases sb G1) as [_ Hbs].
  destruct (groups_count_spec sb) as [Hgc _]; [lia|lia|].
  rewrite Z2Nat.id in Eds by lia.
  assert (Hbm : forall g, 0 <= g < groups_count sb -> 0 <= block_bitmap (desc_at base sb g) < blocks_count sb).
  { intros g Hg. split; [apply (join32_width _ _ (read_le_bound 4 _ 0))|].
    rewrite Eds, Forall_fmap, list.Forall_forall in Hall.
    specialize (Hall g ltac:(apply elem_of_seqZ; lia)). cbn in Hall. unfold check_group_desc in Hall.
    destruct ((blocks_count sb <=? block_bitmap _) || _ || _) eqn:E; [done|]. lia. }
  destruct (fill_window _ _ _ _ _ _ _) as [p|e] eqn:Ew; apply wp_bind; cbn [lift];
    [|by split_and!].
  apply wp_ret. cbn [carry]. subst ds.
  apply (fill_window_spec base sb _ _ 0 p) in Ew as (E1 & E2 & E3); [|lia|lia].
  assert (Hoffs : forall g, 0 <= g < groups_count sb -> block_bitmap (desc_at base sb g) < blocks_count sb ->
    u64 (block_bitmap (desc_at base sb g) * block_size sb) = block_bitmap (desc_at base sb g) * block_size sb).
  { intros g Hg Hlt. apply Z.mod_small. specialize (Hbm g Hg).
    pose proof (Z.mul_div_le (zlen base) (block_size sb) ltac:(lia)). nia. }
  set (g0 := mkGraph _ _ _ _ _ _).
  assert (Hs0 : scan_ok (block_used base sb) (first_data_block sb) (cursor sb 0) (mkScan false false 0 0 g0)).
  { unfold cursor. rewrite (proj2 (Z.ltb_lt _ _)) by lia.
    destruct (group_start_spec sb Hgeo 0) as [-> _]; [lia|].
    replace (first_data_block sb + 0 * blocks_per_group sb) with (first_data_block sb) by lia.
    assert (Hc : forall b, chosen (block_used base sb) b (first_data_block sb) (first_data_block sb) = [])
      by (intros b; unfold chosen; by rewrite Z.sub_diag).
    split; cbn [graph have_state]; rewrite ?Hc; try done; intros []; rewrite ?Hc; done || by apply Forall_nil. }
  rewrite E1. apply wp_bind. eapply wp_mono;
    [apply (scan_pending_spec d base sb Hgeo _ 0 p.2 _ h3 Hw3); [lia|lia|lia|lia|exact Hoffs|exact Hbm|exact Hs0]|].
  intros o h4 (Hq4 & Hne4 & Hv4). assert (Hq' : quiet h1 h4) by exact (quiet_trans _ _ _ Hq Hq4).
  destruct o as [s|e|st|]; cbn [carry]; try done. apply wp_ret. split_and!; [done|done|].
  intros g Hg. apply ret_inj in Hg as <-. destruct (Hv4 s eq_refl) as (Hs & Et & Eg).
  destruct (flush_run_spec _ _ _ _ G5 Hs) as (Hfl & Ea & Eb & Et' & Eg').
  destruct (Hfl true) as [A1 A2]. destruct (Hfl false) as [B1 B2]. cbn [side] in A1, A2, B1, B2.
  unfold exact_graph. cbv zeta. rewrite Eg', Eg, Et', Et, Ea, Eb, A1, B1, (scan_used _ _ _ _ Hs), (scan_free _ _ _ _ Hs).
  split_and!; [reflexivity|reflexivity|reflexivity|reflexivity|reflexivity|reflexivity|exact A2|exact B2].
Qed.

Lemma build_allocation_graph_spec (d : BlockDevice) (base : bytes) (requested : option IoTuning)
    (h : Host) (Hw : wstate d base [] h) (Hoff : zlen base < 2 ^ 63) :
  wp (build_allocation_graph d requested) h (fun o h' => quiet h h' /\ o <> OutOfFuel /\
    forall g, o = Ret g -> exact_graph base (superblock_fields (slice base 1024 1024)) g).
Proof.
  pose proof Hw as [_ Hlen _]. unfold build_allocation_graph. apply wp_bind.
  eapply wp_mono; [by apply read_superblock_spec|]. intros o h1 (Hq1 & Hne1 & Hv1).
  destruct o as [sb|e|st|]; cbn [carry]; try done.
  destruct (Hv1 sb eq_refl) as (Esb & Hchk & Hroom). cbn [put_all foldl] in Esb.
  destruct (superblock_fields_width (slice base 1024 1024)) as (W1 & W2 & W3 & W4 & W5 & W6 & W7).
  rewrite <-Esb in W1, W2, W3, W4, W5, W6, W7 |- *. rewrite <-Hlen in Hchk.
  destruct (check_superblock_geometry sb _ W1 W2 W3 W4 W5 W6 W7 Hchk) as [Hgeo Hfit].
  eapply wp_mono; [apply (graph_of_superblock_spec d base requested sb h1); try done|].
  - exact (wstate_quiet _ _ _ _ _ Hq1 Hw).
  - apply Hfit. lia.
  - intros o h2 (Hq2 & Hne2 & Hg). split_and!; [by eapply quiet_trans|done|done].
Qed.

(** C14: when [build_allocation_graph] succeeds its graph is exactly the
    allocation bitmaps on the disk: the allocated extents list the used blocks
    and the free extents the others, each in order and once, the counters are
    their numbers, and every extent lies inside the file system.  The result
    does not depend on the tuning, and the pipeline always ends. *)
Theorem allocation_graph_exact (d : BlockDevice) (base : bytes) (requested : option IoTuning)
    (h : Host) (Hw : wstate d base [] h) (Hoff : zlen base < 2 ^ 63) :
  wp (build_allocation_graph d requested) h (fun o h' => quiet h h' /\ o <> OutOfFuel /\
    forall g, o = Ret g -> exact_graph base (superblock_fields (slice base 1024 1024)) g).
Proof. by apply build_allocation_graph_spec. Qed.

(** A file system of 16 blocks of 1 KiB; the blocks 1 to 6 and 10 are used. *)
Definition demo_ext4 : bytes :=
  zeros 1024 ++
  write_le16 (write_le16 (write_le32 (write_le32 (write_le32 (write_le32 (write_le32
    (zeros 1024) 0x00 16) 0x04 16) 0x14 1) 0x20 8192) 0x28 16) 0x38 0xEF53) 0x58 128 ++
  write_le32 (write_le32 (write_le32 (zeros 1024) 0 3) 4 4) 8 5 ++
  splice (zeros 1024) 0 [Byte.x3f; Byte.x02] ++ zeros 12288.
Definition demo_ext4_device : BlockDevice :=
  mkDevice 1 "fs" (mkGeometry 16384 512 512 false false) true.
Definition demo_ext4_host : Host := demo_host (mkFile Regular demo_ext4 []) [].

Lemma allocation_graph_exact_witness :
  wp (build_allocation_graph demo_ext4_device None) demo_ext4_host (fun o h' =>
    quiet demo_ext4_host h' /\ o <> OutOfFuel /\
    forall g, o = Ret g -> exact_graph demo_ext4 (superblock_fields (slice demo_ext4 1024 1024)) g).
Proof.
  assert (Hz : zlen demo_ext4 = 16384) by (vm_compute; reflexivity).
  apply (allocation_graph_exact demo_ext4_device demo_ext4 None demo_ext4_host); [|by rewrite Hz].
  apply (wstate_start demo_ext4_device demo_ext4_host (mkFile Regular demo_ext4 [])); [|done].
  split; [reflexivity|]. split; [exact Hz|by apply Forall_nil].
Defined.
