(* ===== verification/Clone.v ===== *)
(** Copying a device (include/fsx/clone.hpp, src/ops/clone.cpp).

    The chunks of a batch are copied by the tasks of the pool; [sched] says for
    each batch in which order their operations run.  The measured times of the
    report and the progress callback are left out. *)
From S2P Require Import Prelude Words Errors Host Device Safety Durable Converge TaskPool Scheduler Allocation.
#[local] Open Scope Z_scope.

Record CloneOptions := mkCloneOptions {
  co_chunk_bytes : Z;
  verify_after : bool;
  co_allow_block_device : bool;
  allow_live_source : bool
}.
Record CloneReport := mkCloneReport {
  bytes_copied : Z;
  bytes_verified : Z;
  chunks : Z;
  c_verified : bool
}.

Definition copy_chunk (source target : BlockDevice) (off len : Z) : Task unit :=
  call (read_exact source off len) (fun b => call (write_exact target off b) (fun _ => Done (Ok tt))).

Definition verify_chunk (source target : BlockDevice) (off len : Z) : Task unit :=
  call (read_exact source off len) (fun a =>
  call (read_exact target off len) (fun b =>
  Done (if bool_decide (a = b) then Ok tt
        else fail corrupt ("clone verification mismatch at byte " +:+ pretty off)))).

(** [std::clamp]. *)
Definition clamp (x lo hi : Z) : Z := if x <? lo then lo else if hi <? x then hi else x.

Definition chunk_size (o : CloneOptions) (large_io source_sector target_sector : Z) : Z :=
  let chunk := if co_chunk_bytes o =? 0 then large_io else co_chunk_bytes o in
  let chunk := clamp chunk (256 * 1024) (64 * 1024 * 1024) in
  let align := Z.max 1 (Z.max source_sector target_sector) in
  let chunk := chunk - chunk mod align in
  if chunk =? 0 then align else chunk.

(** The offset and length of a chunk. *)
Definition chunk_range (chunk bytes idx : Z) : Z * Z :=
  let off := u64 (idx * chunk) in (off, Z.min chunk (bytes - off)).

(** The loop over batches, with the task of a chunk; [total] is the report's
    counter.  The copy and the verification differ in the task. *)
Fixpoint chunk_loop (fuel : nat) (sched : Z -> list nat) (task : Z -> Z -> Task unit) (cancelled : string)
    (workers chunk bytes chunks next total : Z) : M Z :=
  match fuel with
  | O => fun h => (OutOfFuel, h)
  | S fuel =>
      if chunks <=? next then mret total
      else
        stop ← cancel_requested;
        if (stop : bool) then failM unsafe cancelled
        else
          let batch_n := Z.min workers (chunks - next) in
          let jobs := (fun j => chunk_range chunk bytes (next + j)) <$> seqZ 0 batch_n in
          rs ← run_tasks (sched next) ((fun p => task p.1 p.2) <$> jobs);
          lift (results rs);;
          chunk_loop fuel sched task cancelled workers chunk bytes chunks (next + batch_n)
            (foldl (fun n p => u64 (n + p.2)) total jobs)
  end.

Definition clone_device (fuel : nat) (sched sched_verify : Z -> list nat) (source target : BlockDevice)
    (o : CloneOptions) : M CloneReport :=
  require_nonoverlapping_devices fuel source target;;
  if size_bytes (geometry source) =? 0 then failM invalid_argument "source device has zero size"
  else
    (if is_block_device (geometry source) && negb (allow_live_source o)
     then
       s ← inspect_device_safety source;
       if mounted s || active_swap s || descendant_mounted s || descendant_swap s || has_holders s
       then failM unsafe ("clone source is active; use --allow-live-source only if "
                          +:+ "a crash-consistent live clone is acceptable")
       else mret tt
     else mret tt);;
    if size_bytes (geometry target) <? size_bytes (geometry source)
    then failM unsafe "clone target is smaller than source"
    else if is_block_device (geometry target) && negb (co_allow_block_device o)
    then failM unsafe "clone to block device requires --allow-block-device"
    else
      require_offline_for_write target;;
      p ← profile_device target;
      let chunk := chunk_size o (large_io_bytes (tuning p)) (logical_sector (geometry source))
                     (logical_sector (geometry target)) in
      let workers := Z.max 1 (workers (tuning p)) in
      let bytes := size_bytes (geometry source) in
      let chunks := u64 (bytes + chunk - 1) / chunk in
      copied ← chunk_loop (S (Z.to_nat chunks)) sched (copy_chunk source target)
        "clone cancelled; target contains a partial clone" workers chunk bytes chunks 0 0;
      flush target;;
      if verify_after o
      then
        verified ← chunk_loop (S (Z.to_nat chunks)) sched_verify (verify_chunk source target)
          "clone verification cancelled" workers chunk bytes chunks 0 0;
        mret (mkCloneReport copied verified chunks true)
      else mret (mkCloneReport copied 0 chunks false).

(** ** The loop over batches *)

Section Loop.
Context (Inv : places -> Host -> Prop) (sched : Z -> list nat) (task : Z -> Z -> Task unit).
Context (cancelled : string) (workers chunk bytes : Z) (P : Z -> places -> Prop).
Context (Hquiet : forall D h h', quiet h h' -> Inv D h -> Inv D h').
Context (Hworkers : 1 <= workers) (Hchunk : 0 < chunk) (Hbytes : 0 < bytes < 2 ^ 63).
Context (HP : forall idx D D', within D D' -> P idx D -> P idx D').
Let chunks := (bytes + chunk - 1) / chunk.
Context (Htask : forall idx D, 0 <= idx < chunks ->
  task_ok within Inv (fun _ D' => P idx D') D
    (task (idx * chunk) (Z.min chunk (bytes - idx * chunk)))).

Lemma chunks_cover idx : 0 <= idx < chunks -> 0 <= idx * chunk < bytes.
Proof.
  unfold chunks. intros Hi. split; [nia|].
  pose proof (Z.div_mod (bytes + chunk - 1) chunk ltac:(lia)).
  pose proof (Z.mod_pos_bound (bytes + chunk - 1) chunk ltac:(lia)). nia.
Qed.

Lemma chunks_end : bytes <= chunks * chunk.
Proof.
  unfold chunks. pose proof (Z.div_mod (bytes + chunk - 1) chunk ltac:(lia)).
  pose proof (Z.mod_pos_bound (bytes + chunk - 1) chunk ltac:(lia)). nia.
Qed.

Lemma chunk_range_spec idx : 0 <= idx < chunks ->
  chunk_range chunk bytes idx = (idx * chunk, Z.min chunk (bytes - idx * chunk)).
Proof.
  intros Hi. pose proof (chunks_cover idx Hi). unfold chunk_range. cbv zeta.
  rewrite (wrap_id 64 (idx * chunk)) by (unfold in_width; lia). done.
Qed.

(** The counter after [k] chunks. *)
Definition counted (k : Z) : Z := Z.min (k * chunk) bytes.

Lemma count_batch next n :
  0 <= next -> next + Z.of_nat n <= chunks ->
  foldl (fun t p => u64 (t + p.2)) (counted next)
    ((fun j => chunk_range chunk bytes (next + j)) <$> seqZ 0 (Z.of_nat n)) = counted (next + Z.of_nat n).
Proof.
  intros Hn. induction n as [|n IH]; intros Hle; [by rewrite Z.add_0_r|].
  rewrite seqZ_S, fmap_app, foldl_app, IH by lia. cbn [fmap list_fmap foldl snd].
  rewrite Z.add_0_l, chunk_range_spec by lia. cbn [snd]. unfold counted.
  pose proof (chunks_cover (next + Z.of_nat n) ltac:(lia)).
  rewrite wrap_id by (unfold in_width; lia). lia.
Qed.

Lemma batch_tasks next n D :
  0 <= next -> next + Z.of_nat n <= chunks ->
  batch_ok within Inv ((fun j (_ : unit) D' => P (next + j) D') <$> seqZ 0 (Z.of_nat n)) D
    ((fun p => task p.1 p.2) <$> ((fun j => chunk_range chunk bytes (next + j)) <$> seqZ 0 (Z.of_nat n))).
Proof.
  intros Hn Hle. unfold batch_ok. rewrite <-list_fmap_compose. apply Forall2_fmap, Forall_Forall2_diag.
  apply list.Forall_forall. intros j Hj%elem_of_seqZ. unfold compose. rewrite chunk_range_spec by lia. cbn [fst snd].
  apply Htask. lia.
Qed.

Lemma chunk_loop_spec fuel next D h :
  0 <= next <= chunks -> Inv D h -> (forall idx, 0 <= idx < next -> P idx D) ->
  (Z.to_nat (chunks - next) < fuel)%nat ->
  wp (chunk_loop fuel sched task cancelled workers chunk bytes chunks next (counted next)) h (fun o h' =>
    match o with
    | Ret n => n = bytes /\ exists D', within D D' /\ Inv D' h' /\ forall idx, 0 <= idx < chunks -> P idx D'
    | Fail _ | Exit _ => exists D', within D D' /\ Inv D' h'
    | OutOfFuel => False
    end).
Proof.
  revert next D h. induction fuel as [|fuel IH]; intros next D h Hn Hi Hdone Hfuel; [lia|].
  cbn [chunk_loop]. destruct (Z.leb_spec chunks next) as [Hend|Hlt].
  { apply wp_ret. assert (next = chunks) as -> by lia. pose proof chunks_end. split; [unfold counted; lia|].
    by exists D. }
  eapply wp_quiet_step; [apply cancel_spec| |].
  2: { intros o h' Ho Hq. destruct o; try done; exists D; (split; [done|by eapply Hquiet]). }
  intros b h1 _ Hq. assert (Hi1 : Inv D h1) by (by eapply Hquiet). destruct b; [by exists D|].
  cbv zeta. set (n := Z.min workers (chunks - next)). assert (Hpos : 0 < n <= chunks - next) by (unfold n; lia).
  clearbody n. rewrite <-(Z2Nat.id n) by lia. set (k := Z.to_nat n).
  rewrite count_batch by (unfold k; lia).
  apply wp_bind. eapply wp_mono; [apply (run_tasks_spec within Inv
    ((fun j (_ : unit) D' => P (next + j) D') <$> seqZ 0 (Z.of_nat k)) (sched next) _ D h1);
    [apply (batch_tasks next k D); unfold k; lia|exact Hi1]|].
  intros o h2. destruct o as [rs|e|s|]; cbn [carry grows]; [|done|done|done].
  intros (D2 & H2 & Hi2 & Hrs). apply wp_bind. destruct (results rs) as [l|e] eqn:Er; cbn [lift].
  2: { exists D2. by split. }
  apply wp_ret. cbn [carry].
  assert (Hnew : forall idx, 0 <= idx < next + Z.of_nat k -> P idx D2).
  { intros idx Hidx. destruct (Z.lt_ge_cases idx next); [apply (HP idx D); [done|apply Hdone; lia]|].
    apply results_ok in Er. rewrite Forall2_fmap_l in Hrs.
    assert (Ej : seqZ 0 (Z.of_nat k) !! Z.to_nat (idx - next) = Some (idx - next))
      by (apply lookup_seqZ; lia).
    destruct (Forall2_lookup_l _ _ _ _ _ Hrs Ej) as (r & Elr & Hr).
    destruct (Forall2_lookup_l _ _ _ _ _ Er Elr) as (u & _ & ->).
    replace idx with (next + (idx - next)) by lia. by apply (Hr u eq_refl D2). }
  eapply wp_mono; [apply (IH (next + Z.of_nat k) D2 h2); [unfold k; lia|exact Hi2|exact Hnew|unfold k; lia]|].
  intros o h3. destruct o as [m|e|s|]; [|intros (D3 & H3 & Hi3); exists D3; split; [by trans D2|done]..|done].
  intros (-> & D3 & H3 & Hi3 & Hall). split; [done|]. exists D3. split_and!; [by trans D2|done|done].
Qed.
End Loop.

(** ** The copy *)

(** [img] is the target [tbase] with some of the source's bytes. *)
Definition clone_image (sbase tbase img : bytes) : Prop :=
  zlen img = zlen tbase /\
  forall i : nat, img !! i = tbase !! i \/ Z.of_nat i < zlen sbase /\ img !! i = sbase !! i.

(** [img] is the target [tbase] with all of the source's bytes. *)
Definition cloned_image (sbase tbase img : bytes) : Prop :=
  slice img 0 (zlen sbase) = sbase /\
  forall o n, zlen sbase <= o -> slice img o n = slice tbase o n.

Section Copy.
Context (source target : BlockDevice) (sbase tbase : bytes) (h0 : Host).
Context (Hne : fd_ source <> fd_ target) (Hsize : 0 < zlen sbase < 2 ^ 63).
Context (Hfit : zlen sbase <= zlen tbase).
Let T : bytes := splice tbase 0 sbase.
Let R : places := span_of 0 (zlen sbase).

Lemma target_slice off n : 0 <= off -> off + n <= zlen sbase -> slice T off n = slice sbase off n.
Proof. intros. unfold T. rewrite slice_splice_sub by lia. by rewrite Z.sub_0_r. Qed.

Lemma target_lookup (i : nat) : Z.of_nat i < zlen sbase -> T !! i = sbase !! i.
Proof.
  intros Hi. unfold T. rewrite lookup_splice by lia. rewrite decide_False, decide_True by lia. f_equal. lia.
Qed.

(** The source is untouched; the target is filled. *)
Definition clone_inv (E D : places) (h : Host) : Prop :=
  only_device target h0 h /\ wstate source sbase [] h /\ filling target tbase T R D E h.

Lemma clone_inv_quiet E D h h' : quiet h h' -> clone_inv E D h -> clone_inv E D h'.
Proof.
  intros Hq (H1 & H2 & H3). split_and!.
  - eapply only_device_trans; [done|by apply only_device_quiet].
  - by eapply wstate_quiet.
  - by eapply filling_quiet.
Qed.

Lemma clone_inv_target E D D' E' h h' :
  clone_inv E D h -> only_device target h h' -> filling target tbase T R D' E' h' -> clone_inv E' D' h'.
Proof.
  intros (H1 & H2 & H3) Ho Hf. split_and!; [by eapply only_device_trans| |done].
  by eapply wstate_other.
Qed.

Lemma copy_chunk_ok E off len D :
  0 <= off -> 0 <= len -> off + len <= zlen sbase ->
  task_ok within (clone_inv E) (fun _ D' => within (span_of off len) D') D (copy_chunk source target off len).
Proof.
  intros Ho Hl Hr. apply task_ok_call. intros D1 h _ Hi. pose proof Hi as (_ & Hs & _).
  eapply wp_mono; [by apply (yields_read source sbase [])|].
  intros o h1 (Hq & Hnf & Hv). pose proof (clone_inv_quiet _ _ _ _ Hq Hi) as Hi1.
  destruct o as [b|e|s|]; [|by exists D1..|done]. destruct (Hv b eq_refl) as (-> & Hz & _).
  exists D1. split; [done|]. split; [done|]. cbn [put_all foldl] in *. clear h h1 Hq Hi Hi1 Hs Hv Hnf.
  apply task_ok_call. intros D2 h H2 Hi. pose proof Hi as (_ & _ & Hfl).
  eapply wp_mono; [apply (filling_write target tbase T R D2 E off _ h Hfl Ho)|].
  - rewrite Hz. symmetry. by apply target_slice.
  - rewrite Hz. intros i Hi'. unfold R, span_of in *. lia.
  - rewrite Hz. intros o h' (Hnf & Hod & Hf1 & Hok).
    pose proof (clone_inv_target _ _ _ _ _ _ Hi Hod Hf1) as Hi1.
    destruct o as [[]|e|s|]; [|by exists D2..|done]. destruct (Hok eq_refl) as [Hf2 _].
    exists (either D2 (span_of off len)). split; [by left|].
    split; [by apply (clone_inv_target _ _ _ _ _ _ Hi Hod Hf2)|].
    intros u _ D3 H3 i Hin. apply H3. by right.
Qed.

Lemma verify_chunk_ok E off len D :
  0 <= off -> 0 <= len ->
  task_ok within (clone_inv E) (fun _ _ => True) D (verify_chunk source target off len).
Proof.
  intros Ho Hl. apply task_ok_call. intros D1 h _ Hi. pose proof Hi as (_ & Hs & _).
  eapply wp_mono; [by apply (yields_read source sbase [])|].
  intros o h1 (Hq & Hnf & _). pose proof (clone_inv_quiet _ _ _ _ Hq Hi) as Hi1.
  destruct o as [b|e|s|]; [|by exists D1..|done]. exists D1. split; [done|]. split; [done|].
  clear h h1 Hq Hi Hi1 Hs Hnf. apply task_ok_call. intros D2 h _ Hi. pose proof Hi as (_ & _ & Hfl).
  eapply wp_mono; [by apply (filling_read target tbase T R D2 E)|].
  intros o h1 (Hq & Hnf & _). pose proof (clone_inv_quiet _ _ _ _ Hq Hi) as Hi1.
  destruct o as [c|e|s|]; [|by exists D2..|done]. exists D2. split; [done|]. by split.
Qed.

Lemma clone_inv_crash E D h img :
  clone_inv E D h -> crash_image (file_of h (fd_ target)) img -> clone_image sbase tbase img.
Proof.
  intros (_ & _ & Hf) Hc. destruct (filling_crash _ _ _ _ _ _ _ _ Hf Hc) as (Hz & Hb & _).
  split; [done|]. intros i. destruct (Hb i) as [|[HR E1]]; [by left|right].
  unfold R, span_of in HR. rewrite target_lookup in E1 by lia. split; [lia|done].
Qed.

Lemma clone_inv_done E D h img :
  within R E -> clone_inv E D h -> crash_image (file_of h (fd_ target)) img -> cloned_image sbase tbase img.
Proof.
  intros HE (_ & _ & Hf) Hc. destruct (filling_crash _ _ _ _ _ _ _ _ Hf Hc) as (Hz & Hb & Ha). split.
  - apply list_eq. intros i. rewrite lookup_slice by lia. case_decide.
    + change (Z.to_nat 0 + i)%nat with i. rewrite Ha by (apply HE; unfold R, span_of; lia).
      by apply target_lookup.
    + symmetry. apply lookup_ge_None_2. unfold zlen in *. lia.
  - intros o n Ho. apply list_eq. intros i. rewrite !lookup_slice by lia. case_decide; [|done].
    destruct (Hb (Z.to_nat o + i)%nat) as [|[HR _]]; [done|]. unfold R, span_of in HR. lia.
Qed.
End Copy.

Lemma chunk_size_pos o l a b :
  in_width 32 a -> in_width 32 b -> 0 < chunk_size o l a b < 2 ^ 32.
Proof.
  intros Ha Hb. unfold chunk_size. cbv zeta. set (x := clamp _ _ _).
  assert (Hx : 256 * 1024 <= x <= 64 * 1024 * 1024) by (unfold x, clamp; repeat case_match; lia).
  set (al := Z.max 1 (Z.max a b)). assert (Hal : 1 <= al < 2 ^ 32) by (unfold al, in_width in *; lia).
  pose proof (Z.mod_pos_bound x al ltac:(lia)). pose proof (Z.mod_le x al ltac:(lia) ltac:(lia)).
  destruct (Z.eqb_spec (x - x mod al) 0); lia.
Qed.

(** Where a copy may end. *)
Definition clone_post (source target : BlockDevice) (sbase tbase : bytes) (o : CloneOptions) (h : Host)
    (out : Outcome CloneReport) (h' : Host) : Prop :=
  out <> OutOfFuel /\ only_device target h h' /\
  forall img, crash_image (file_of h' (fd_ target)) img ->
    clone_image sbase tbase img /\
    forall r, out = Ret r -> cloned_image sbase tbase img /\ bytes_copied r = zlen sbase /\
      c_verified r = verify_after o /\ (verify_after o = true -> bytes_verified r = zlen sbase).

Section Device.
Context (source target : BlockDevice) (sbase tbase : bytes) (o : CloneOptions).

Lemma clone_post_quiet (out : Outcome CloneReport) h h' :
  wstate target tbase [] h -> aborted out -> quiet h h' -> clone_post source target sbase tbase o h out h'.
Proof.
  intros Hw Ho Hq. split; [by destruct out|]. split; [by apply only_device_quiet|].
  intros img Hc. rewrite (settled_image _ _ _ _ (wstate_quiet _ _ _ _ _ Hq Hw) Hc).
  split; [split; [done|by left]|]. by intros r ->.
Qed.

Lemma clone_post_inv (out : Outcome CloneReport) h h' E D :
  fd_ source <> fd_ target -> 0 < zlen sbase < 2 ^ 63 -> zlen sbase <= zlen tbase ->
  clone_inv source target sbase tbase h E D h' -> aborted out -> clone_post source target sbase tbase o h out h'.
Proof.
  intros Hne Hs Hf Hi Ho. split; [by destruct out|]. split; [apply Hi|].
  intros img Hc. split; [|by intros r ->]. by eapply clone_inv_crash.
Qed.

(** The part behind the checks. *)
Lemma clone_body_spec (sched sched_verify : Z -> list nat) (workers chunk : Z) h0 h :
  fd_ source <> fd_ target -> 0 < zlen sbase < 2 ^ 63 -> zlen sbase <= zlen tbase ->
  1 <= workers -> 0 < chunk < 2 ^ 32 -> quiet h0 h ->
  wstate source sbase [] h -> wstate target tbase [] h ->
  let chunks := u64 (zlen sbase + chunk - 1) / chunk in
  wp (copied ← chunk_loop (S (Z.to_nat chunks)) sched (copy_chunk source target)
        "clone cancelled; target contains a partial clone" workers chunk (zlen sbase) chunks 0 0;
      flush target;;
      if verify_after o
      then
        verified ← chunk_loop (S (Z.to_nat chunks)) sched_verify (verify_chunk source target)
          "clone verification cancelled" workers chunk (zlen sbase) chunks 0 0;
        mret (mkCloneReport copied verified chunks true)
      else mret (mkCloneReport copied 0 chunks false)) h (clone_post source target sbase tbase o h0).
Proof.
  intros Hne Hs Hfit Hwk Hch Hq Hsrc Htgt. rewrite (wrap_id 64) by (unfold in_width; lia). cbv zeta.
  pose proof (chunks_end chunk (zlen sbase) ltac:(lia)) as Hend.
  pose proof (chunks_cover chunk (zlen sbase) ltac:(lia)) as Hcov.
  set (n := (zlen sbase + chunk - 1) / chunk) in *.
  assert (Hn0 : 0 <= n) by (apply Z.div_pos; lia).
  assert (Hc0 : counted chunk (zlen sbase) 0 = 0) by (unfold counted; lia).
  assert (Hi : clone_inv source target sbase tbase h0 nowhere nowhere h).
  { split; [by apply only_device_quiet|]. split; [done|]. apply filling_start; [done|].
    apply zlen_splice; lia. }
  set (P := fun idx D => within (span_of (idx * chunk) (Z.min chunk (zlen sbase - idx * chunk))) D).
  assert (HP : forall idx D D', within D D' -> P idx D -> P idx D') by (unfold P; intros idx D D' H1 H2; by trans D).
  pose proof (chunk_loop_spec (clone_inv source target sbase tbase h0 nowhere) sched (copy_chunk source target)
    "clone cancelled; target contains a partial clone" workers chunk (zlen sbase) P
    (clone_inv_quiet _ _ _ _ _ _) Hwk ltac:(lia) Hs HP) as Hloop. fold n in Hloop.
  specialize (Hloop ltac:(intros idx D Hidx; specialize (Hcov idx Hidx); apply copy_chunk_ok; lia || done)
    (S (Z.to_nat n)) 0 nowhere h ltac:(lia) Hi ltac:(lia) ltac:(lia)). rewrite Hc0 in Hloop.
  apply wp_bind. eapply wp_mono; [exact Hloop|]. clear Hloop.
  intros out h1. destruct out as [copied|e|st|]; cbn [carry];
    [|intros (D1 & _ & Hi1); by eapply clone_post_inv..|done].
  intros (-> & D1 & _ & Hi1 & Hall).
  assert (HR : within (span_of 0 (zlen sbase)) D1).
  { intros i Hir. unfold span_of in Hir.
    pose proof (Z.div_mod i chunk ltac:(lia)). pose proof (Z.mod_pos_bound i chunk ltac:(lia)).
    assert (0 <= i / chunk < n) by (split; [apply Z.div_pos; lia|apply Z.div_lt_upper_bound; lia]).
    apply (Hall (i / chunk)); [done|]. unfold span_of. lia. }
  clear Hall Hi. apply wp_bind. eapply wp_mono; [apply filling_flush, Hi1|].
  intros out h2 (Hnf & Hod & Hf2 & Hok).
  pose proof (clone_inv_target _ _ _ _ _ Hne _ _ _ _ _ _ Hi1 Hod Hf2) as Hi2.
  destruct out as [[]|e|st|]; cbn [carry]; [|by eapply clone_post_inv..|done].
  pose proof (clone_inv_target _ _ _ _ _ Hne _ _ _ _ _ _ Hi1 Hod (Hok eq_refl)) as Hi3.
  assert (HE : within (span_of 0 (zlen sbase)) (either D1 nowhere)) by (intros i Hir; left; auto).
  assert (Hdone : forall h3 D3 r, clone_inv source target sbase tbase h0 (either D1 nowhere) D3 h3 ->
    r = mkCloneReport (zlen sbase) (if verify_after o then zlen sbase else 0) n (verify_after o) ->
    clone_post source target sbase tbase o h0 (Ret r) h3).
  { intros h3 D3 r Hi' ->. split; [done|]. split; [apply Hi'|]. intros img Hc.
    split; [by eapply clone_inv_crash|]. intros r [= <-].
    split; [by eapply clone_inv_done|]. cbn. split_and!; [done|done|]. by intros ->. }
  destruct (verify_after o) eqn:Ev; [|apply wp_ret; by eapply Hdone].
  pose proof (chunk_loop_spec (clone_inv source target sbase tbase h0 (either D1 nowhere)) sched_verify
    (verify_chunk source target) "clone verification cancelled" workers chunk (zlen sbase) (fun _ _ => True)
    (clone_inv_quiet _ _ _ _ _ _) Hwk ltac:(lia) Hs ltac:(done)) as Hloop. fold n in Hloop.
  specialize (Hloop ltac:(intros idx D Hidx; specialize (Hcov idx Hidx); apply verify_chunk_ok; lia)
    (S (Z.to_nat n)) 0 D1 h2 ltac:(lia) Hi3 ltac:(done) ltac:(lia)). rewrite Hc0 in Hloop.
  apply wp_bind. eapply wp_mono; [exact Hloop|]. intros out h3.
  destruct out as [verified|e|st|]; cbn [carry]; [|intros (D3 & _ & Hi4); by eapply clone_post_inv..|done].
  intros (-> & D3 & _ & Hi4 & _). apply wp_ret. by eapply Hdone.
Qed.
End Device.

(** C33: a copy that reports success has put every byte of the source durably
    at its place in the target and changed nothing behind it, with counters
    that say so; a copy that fails, and a power cut at any point, leaves in
    every place the target's old byte or the source's.  The source and all
    other files are untouched.  This holds for every failure of the host and
    every order in which the pool runs the operations of its tasks, and the
    copy always ends. *)
Theorem clone_copies_source (fuel : nat) (U : gset sysfs_path) (sched sched_verify : Z -> list nat)
    (source target : BlockDevice) (o : CloneOptions) (sbase tbase : bytes) (h : Host)
    (Hsrc : wstate source sbase [] h) (Htgt : wstate target tbase [] h) (Hsize : zlen sbase < 2 ^ 63)
    (Hss : in_width 32 (logical_sector (geometry source)))
    (Hts : in_width 32 (logical_sector (geometry target)))
    (HU : slaves_within (h_env h) U) (Hfuel : (size U < fuel)%nat)
    (Hall : forall d, sysfs_device_path (h_env h) d.1 d.2 ∈ U \/
                      sysfs_device_path (h_env h) d.1 d.2 = []) :
  wp (clone_device fuel sched sched_verify source target o) h (clone_post source target sbase tbase o h).
Proof.
  pose proof (zlen_nonneg sbase) as Hz. unfold clone_device. pose proof (ws_len _ _ _ _ Hsrc) as Hsl.
  pose proof (ws_len _ _ _ _ Htgt) as Htl. rewrite <-Hsl, <-Htl. clear Hsl Htl.
  assert (Hstop : forall (out : Outcome CloneReport) h', aborted out -> quiet h h' ->
    clone_post source target sbase tbase o h out h') by (intros; by apply clone_post_quiet).
  apply wp_bind. destruct (require_nonoverlapping_devices fuel source target h) as [out h1] eqn:E.
  destruct (copy_check_spec fuel U source target h out h1 HU Hfuel Hall E) as (Hq1 & Hnf & Hdis).
  unfold wp at 1. rewrite E. cbn [fst snd].
  destruct out as [[]|e|st|]; cbn [carry]; [|by apply Hstop..|done]. destruct (Hdis eq_refl) as [Hne _].
  destruct (Z.eqb_spec (zlen sbase) 0) as [|Hz0]; [by apply Hstop|].
  assert (Hw1 : wstate target tbase [] h1) by (by eapply wstate_quiet).
  eapply (wp_reader target tbase []); [exact Hw1| | |].
  { destruct (_ && _); [|apply reader_ret].
    apply reader_bind; [apply reader_inspect|]. intros s. destruct (_ || _); [apply reader_failM|apply reader_ret]. }
  2: { intros out h2 Ho Hq _. apply Hstop; [done|by eapply quiet_trans]. }
  intros [] h2 _ Hq2 Hw2. pose proof (quiet_trans _ _ _ Hq1 Hq2) as Hq.
  destruct (Z.ltb_spec (zlen tbase) (zlen sbase)); [by apply Hstop|].
  destruct (_ && _); [by apply Hstop|].
  eapply (wp_reader target tbase []); [exact Hw2|apply (reader_offline target target)| |].
  2: { intros out h3 Ho Hq3 _. apply Hstop; [done|by eapply quiet_trans]. }
  intros [] h3 _ Hq3 Hw3. pose proof (quiet_trans _ _ _ Hq Hq3) as Hq'.
  eapply (wp_reader target tbase []); [exact Hw3|apply reader_profile| |].
  2: { intros out h4 Ho Hq4 _. apply Hstop; [done|by eapply quiet_trans]. }
  intros p h4 _ Hq4 Hw4. pose proof (quiet_trans _ _ _ Hq' Hq4) as Hq''.
  pose proof (chunk_size_pos o (large_io_bytes (tuning p)) _ _ Hss Hts).
  apply clone_body_spec; try done || lia. by eapply wstate_quiet.
Qed.

(** Two regular files; the write of the copy is interrupted after one byte. *)
Definition demo_files : Host :=
  mkHost {[1 := mkFile Regular [Byte.x01; Byte.x02; Byte.x03] [];
           2 := mkFile Regular (zeros 5) []]}
    (∅ : gmap string Z) ∅ 3 [Sys_ok; Sys_ok; Sys_ok; Sys_ok; Sys_ok; Sys_ok; Sys_short 1] demo_fault [] [] 0
    (mkEnv (fun _ => ""%string) 1 (Some []) (Some []) (fun p => Some p) (fun _ => None)
        (fun _ => None) (fun _ => None) (fun _ => None) (fun _ => None) 1).
Definition demo_source : BlockDevice := mkDevice 1 "a" (mkGeometry 3 512 512 false false) false.
Definition demo_target : BlockDevice := mkDevice 2 "b" (mkGeometry 5 512 512 false false) true.

Definition demo_clone_options : CloneOptions := mkCloneOptions 0 true false false.

Lemma clone_copies_source_witness :
  let r := clone_device 1 (fun _ => []) (fun _ => []) demo_source demo_target demo_clone_options demo_files in
  r.1 = Ret (mkCloneReport 3 3 1 true) /\
  clone_post demo_source demo_target [Byte.x01; Byte.x02; Byte.x03] (zeros 5) demo_clone_options demo_files r.1 r.2.
Proof.
  split; [vm_compute; reflexivity|].
  assert (Hw : forall d f, h_files demo_files !! fd_ d = Some f -> f_pending f = [] ->
    size_bytes (geometry d) = zlen (f_durable f) -> wstate d (f_durable f) [] demo_files).
  { intros d f Hf Hp Hz. apply (wstate_start d demo_files f); [|done]. split; [done|].
    split; [done|]. rewrite Hp. by apply Forall_nil. }
  apply (clone_copies_source 1 ∅ (fun _ => []) (fun _ => []) demo_source demo_target demo_clone_options
    [Byte.x01; Byte.x02; Byte.x03] (zeros 5) demo_files).
  - by apply (Hw demo_source (mkFile Regular [Byte.x01; Byte.x02; Byte.x03] [])).
  - by apply (Hw demo_target (mkFile Regular (zeros 5) [])).
  - by vm_compute.
  - by vm_compute.
  - by vm_compute.
  - intros p c H. set_solver.
  - vm_compute. lia.
  - intros d. right. reflexivity.
Defined.
