(* ===== verification/Relocation.v ===== *)
(** The relocation geometry: which blocks move where.

    Proofs about [build_relocation_geometry] of Allocation.v: its loops end,
    and the moves take every used block above the target to a free block of
    its own below it. *)
From S2P Require Import Prelude Errors Endian Host Device FileUtil Durable Scheduler Ext4 Allocation.
From stdpp Require Import sorting.
#[local] Open Scope Z_scope.

(** ** Clipping at the target *)

Lemma filter_all {A} (P : A -> Prop) `{!forall x, Decision (P x)} l : Forall P l -> filter P l = l.
Proof.
  induction l as [|x l IH]; intros HP; [done|]. apply Forall_cons in HP as [Hx Hl].
  rewrite filter_cons_True by done. by rewrite IH.
Qed.
Lemma filter_none {A} (P : A -> Prop) `{!forall x, Decision (P x)} l :
  Forall (fun x => ~ P x) l -> filter P l = [].
Proof.
  induction l as [|x l IH]; intros HP; [done|]. apply Forall_cons in HP as [Hx Hl].
  rewrite filter_cons_False by done. by rewrite IH.
Qed.

Lemma filter_ge_seqZ s n t : 0 <= n ->
  filter (fun b => t <= b) (seqZ s n) = seqZ (Z.max s t) (s + n - Z.max s t).
Proof.
  intros Hn. destruct (Z.le_gt_cases (s + n) t).
  - rewrite (seqZ_nil (Z.max s t)) by lia. apply filter_none, Forall_seqZ. intros x Hx. lia.
  - set (k := Z.max s t - s). replace n with (k + (n - k)) at 1 by lia.
    rewrite seqZ_app, filter_app by lia. rewrite filter_none by (apply Forall_seqZ; intros; lia).
    cbn [app]. replace (s + k) with (Z.max s t) by lia. replace (n - k) with (s + n - Z.max s t) by lia.
    apply filter_all, Forall_seqZ. intros x Hx. lia.
Qed.

Lemma filter_lt_seqZ s n t : 0 <= n -> s < t ->
  filter (fun b => b < t) (seqZ s n) = seqZ s (Z.min (s + n) t - s).
Proof.
  intros Hn Hs. set (k := Z.min (s + n) t - s). replace n with (k + (n - k)) at 1 by lia.
  rewrite seqZ_app, filter_app by lia.
  rewrite (filter_none _ (seqZ (s + k) _)) by (apply Forall_seqZ; intros; lia).
  rewrite app_nil_r. apply filter_all, Forall_seqZ. intros x Hx. lia.
Qed.

Lemma sources_of_spec n l t :
  n < 2 ^ 64 -> 0 <= t -> Forall (extent_ok n) l ->
  blocks_of (sources_of l t) = filter (fun b => t <= b) (blocks_of l) /\
  Forall (extent_ok n) (sources_of l t).
Proof.
  intros Hn Ht. induction l as [|e l IH]; intros H; [by split; [|apply Forall_nil]|].
  apply Forall_cons in H as [He Hl]. destruct (IH Hl) as [IH1 IH2].
  unfold sources_of. rewrite fmap_cons. cbn [concat]. fold (sources_of l t).
  rewrite (e_end_ok n e Hn He). pose proof He as (H1 & H2 & H3).
  rewrite blocks_of_cons, filter_app, filter_ge_seqZ by lia.
  destruct (Z.leb_spec (e_start e + e_length e) t); cbn [app].
  - rewrite (seqZ_nil (Z.max _ t)) by lia. by split.
  - rewrite blocks_of_cons, IH1. cbn [e_start e_length]. split; [done|].
    apply Forall_cons. split; [|done]. split_and!; cbn; lia.
Qed.

Lemma dests_of_spec n l t :
  n < 2 ^ 64 -> Forall (extent_ok n) l -> StronglySorted Z.lt (blocks_of l) ->
  blocks_of (dests_of l t) = filter (fun b => b < t) (blocks_of l) /\
  Forall (extent_ok n) (dests_of l t).
Proof.
  intros Hn. induction l as [|e l IH]; intros H Hs; [by split; [|apply Forall_nil]|].
  apply Forall_cons in H as [He Hl]. rewrite blocks_of_cons in *.
  apply StronglySorted_app in Hs as (Hlt & _ & Hs). destruct (IH Hl Hs) as [IH1 IH2].
  pose proof He as (H1 & H2 & H3). cbn [dests_of]. rewrite (e_end_ok n e Hn He).
  rewrite filter_app. destruct (Z.leb_spec t (e_start e)).
  - split; [|by apply Forall_nil]. rewrite !filter_none; [done| |].
    + apply list.Forall_forall. intros b Hb. specialize (Hlt (e_start e) b).
      rewrite elem_of_seqZ in Hlt. specialize (Hlt ltac:(lia) Hb). lia.
    + apply Forall_seqZ. intros; lia.
  - rewrite filter_lt_seqZ by lia. rewrite (proj2 (Z.ltb_lt _ _)) by lia.
    rewrite blocks_of_cons, IH1. cbn [e_start e_length]. split; [done|].
    apply Forall_cons. split; [|done]. split_and!; cbn; lia.
Qed.

(** ** Handing out destinations *)

(** The blocks that [dests] still offers when [dused] blocks of the first
    extent are gone. *)
Definition avail (dests : list BlockExtent) (dused : Z) : list Z :=
  match dests with
  | [] => []
  | d :: ds => seqZ (e_start d + dused) (e_length d - dused) ++ blocks_of ds
  end.
Definition used_ok (dests : list BlockExtent) (dused : Z) : Prop :=
  0 <= dused /\ match dests with [] => True | d :: _ => dused <= e_length d end.

Lemma avail_0 l : avail l 0 = blocks_of l.
Proof. destruct l as [|d ds]; [done|]. cbn. by rewrite Z.add_0_r, Z.sub_0_r. Qed.

Lemma skip_used_spec n l k :
  Forall (extent_ok n) l -> used_ok l k ->
  let '(l', k') := skip_used l k in
  avail l' k' = avail l k /\ used_ok l' k' /\ Forall (extent_ok n) l' /\ (length l' <= length l)%nat /\
  (length l' = length l -> k' = k) /\
  match l' with [] => True | d :: _ => k' < e_length d end.
Proof.
  revert k. induction l as [|d ds IH]; intros k Hl Hk; [by split_and!|]. cbn [skip_used].
  apply Forall_cons in Hl as [Hd Hl]. destruct Hk as [Hk1 Hk2].
  destruct (Z.eqb_spec k (e_length d)) as [->|].
  - assert (H0 : used_ok ds 0).
    { split; [done|]. destruct ds as [|d' ds]; [done|]. apply Forall_cons in Hl as [(? & ? & _) _]. lia. }
    specialize (IH 0 Hl H0). destruct (skip_used ds 0) as [l' k'].
    destruct IH as (I1 & I2 & I3 & I4 & I5 & I6). split_and!; try done; [|cbn; lia|cbn; lia].
    rewrite I1, avail_0. cbn [avail]. by rewrite Z.sub_diag.
  - split_and!; try done; try lia. by apply Forall_cons.
Qed.

(** Moves pair extents of the same positive length. *)
Definition move_ok (m : Move) : Prop :=
  e_length (source m) = e_length (destination m) /\ 0 < e_length (source m).

Lemma take_drop_seqZ s n m l : 0 <= m <= n ->
  take (Z.to_nat m) (seqZ s n ++ l) = seqZ s m /\
  drop (Z.to_nat m) (seqZ s n ++ l) = seqZ (s + m) (n - m) ++ l.
Proof.
  intros H. replace n with (m + (n - m)) at 1 2 by lia. rewrite seqZ_app, <-!app_assoc by lia.
  assert (Hl : length (seqZ s m) = Z.to_nat m) by apply length_seqZ.
  split; [rewrite <-Hl; apply take_app_length|rewrite <-Hl; apply drop_app_length].
Qed.

Lemma place_spec n fuel s soff dests dused out :
  Forall (extent_ok n) dests -> used_ok dests dused -> 0 <= soff <= e_length s ->
  e_length s - soff <= zlen (avail dests dused) ->
  e_length s <= soff \/ (length (skip_used dests dused).1 <= fuel)%nat ->
  exists dests' dused' new,
    place fuel s soff dests dused out = Some (Ok (dests', dused', out ++ new)) /\
    Forall (extent_ok n) dests' /\ used_ok dests' dused' /\ (length dests' <= length dests)%nat /\
    blocks_of (source <$> new) = seqZ (e_start s + soff) (e_length s - soff) /\
    blocks_of (destination <$> new) = take (Z.to_nat (e_length s - soff)) (avail dests dused) /\
    avail dests' dused' = drop (Z.to_nat (e_length s - soff)) (avail dests dused) /\
    Forall move_ok new.
Proof.
  revert soff dests dused out. induction fuel as [|fuel IH]; intros soff dests dused out Hd Hu Hs Hroom Hf.
  all: pose proof (skip_used_spec n dests dused Hd Hu) as Hskip; cbn [place];
    destruct (Z.leb_spec (e_length s) soff).
  1, 3: exists dests, dused, []; rewrite app_nil_r;
    replace (Z.to_nat (e_length s - soff)) with 0%nat by lia;
    rewrite (seqZ_nil _ (e_length s - soff)) by lia; by split_and!.
  all: destruct (skip_used dests dused) as [l' k']; cbn [fst] in *;
    destruct Hskip as (E1 & E2 & E3 & E4 & E5 & E6); rewrite <-E1 in Hroom |- *;
    destruct l' as [|d ds]; [cbn in Hroom; change (zlen []) with 0 in Hroom; lia|].
  { cbn in Hf. lia. }
  destruct Hf as [Hf|Hf]; [lia|].
  set (m := Z.min (e_length s - soff) (e_length d - k')).
  destruct E2 as [Ek1 Ek2]. assert (Hm : 0 < m) by lia.
  destruct (take_drop_seqZ (e_start d + k') (e_length d - k') m (blocks_of ds)) as [T1 T2]; [lia|].
  fold (avail (d :: ds) k') in T1, T2.
  assert (Eav : avail (d :: ds) (k' + m) = drop (Z.to_nat m) (avail (d :: ds) k')).
  { rewrite T2. cbn [avail]. by replace (e_length d - (k' + m)) with (e_length d - k' - m) by lia;
      replace (e_start d + (k' + m)) with (e_start d + k' + m) by lia. }
  destruct (IH (soff + m) (d :: ds) (k' + m)
    (out ++ [mkMove (mkExtent (e_start s + soff) m) (mkExtent (e_start d + k') m)]))
    as (dests' & dused' & new & P1 & P2 & P3 & P4 & P5 & P6 & P7 & P8); try done; try lia.
  - split; lia.
  - rewrite Eav. unfold zlen in *. rewrite length_drop. lia.
  - destruct (Z.le_gt_cases (e_length s) (soff + m)) as [|Hmore]; [by left|right].
    assert (Hk : k' + m = e_length d) by lia. rewrite Hk. cbn [skip_used]. rewrite Z.eqb_refl.
    apply Forall_cons in E3 as [_ E3].
    assert (H0 : used_ok ds 0).
    { split; [done|]. destruct ds as [|d' ds']; [done|]. apply Forall_cons in E3 as [(? & ? & _) _]. lia. }
    pose proof (skip_used_spec n ds 0 E3 H0) as Hs0. destruct (skip_used ds 0) as [l'' k''].
    destruct Hs0 as (_ & _ & _ & Hlen & _). cbn [fst length] in *. lia.
  - exists dests', dused', (mkMove (mkExtent (e_start s + soff) m) (mkExtent (e_start d + k') m) :: new).
    rewrite P1, <-app_assoc. split_and!; [done|done|done|cbn [length] in *; lia| | | |].
    + rewrite fmap_cons, blocks_of_cons, P5. cbn [source e_start e_length].
      replace (e_length s - soff) with (m + (e_length s - (soff + m))) by lia.
      by rewrite seqZ_app, Z.add_assoc by lia.
    + rewrite fmap_cons, blocks_of_cons, P6. cbn [destination e_start e_length].
      rewrite Eav, <-T1. replace (Z.to_nat (e_length s - soff)) with (Z.to_nat m + Z.to_nat (e_length s - (soff + m)))%nat by lia.
      by rewrite take_take_drop.
    + rewrite P7, Eav, drop_drop. f_equal. lia.
    + apply Forall_cons. split; [|done]. by split.
Qed.

Lemma place_all_spec n fuel ss dests dused out :
  Forall (extent_ok n) ss -> Forall (extent_ok n) dests -> used_ok dests dused ->
  zlen (blocks_of ss) <= zlen (avail dests dused) -> (length dests <= fuel)%nat ->
  exists new,
    place_all fuel ss dests dused out = Some (Ok (out ++ new)) /\
    blocks_of (source <$> new) = blocks_of ss /\
    blocks_of (destination <$> new) = take (length (blocks_of ss)) (avail dests dused) /\
    Forall move_ok new.
Proof.
  revert dests dused out. induction ss as [|s ss IH]; intros dests dused out Hss Hd Hu Hroom Hf.
  { exists []. cbn. rewrite app_nil_r. by split_and!; [| | |apply Forall_nil]. }
  apply Forall_cons in Hss as [(S1 & S2 & S3) Hss]. rewrite blocks_of_cons, zlen_app in Hroom.
  assert (Hl : zlen (seqZ (e_start s) (e_length s)) = e_length s) by (unfold zlen; rewrite length_seqZ; lia).
  pose proof (zlen_nonneg (blocks_of ss)).
  pose proof (skip_used_spec n dests dused Hd Hu) as Hskip.
  destruct (place_spec n fuel s 0 dests dused out Hd Hu) as (d' & k' & new & P1 & P2 & P3 & P4 & P5 & P6 & P7 & P8);
    [lia|lia| |].
  { right. destruct (skip_used dests dused). cbn. destruct Hskip as (_ & _ & _ & ? & _). lia. }
  rewrite Z.sub_0_r, Z.add_0_r in *.
  destruct (IH d' k' (out ++ new) Hss P2 P3) as (new2 & Q1 & Q2 & Q3 & Q4); [|lia|].
  { rewrite P7. unfold zlen in *. rewrite length_drop. lia. }
  exists (new ++ new2). cbn [place_all]. rewrite P1, Q1, <-app_assoc. split_and!; [done| | |].
  - by rewrite fmap_app, blocks_of_app, P5, Q2, blocks_of_cons.
  - rewrite fmap_app, blocks_of_app, P6, Q3, P7, blocks_of_cons, length_app.
    rewrite length_seqZ. by rewrite take_take_drop.
  - by apply Forall_app.
Qed.

(** ** Counting *)

Lemma zlen_nodup_bound l n : NoDup l -> Forall (fun b => 0 <= b < n) l -> zlen l <= Z.max 0 n.
Proof.
  intros Hn Hl. assert (Hsub : (length l <= length (seqZ 0 n))%nat).
  { apply submseteq_length, NoDup_submseteq; [done|]. intros x Hx.
    rewrite list.Forall_forall in Hl. specialize (Hl x Hx). apply elem_of_seqZ. lia. }
  rewrite length_seqZ in Hsub. unfold zlen. lia.
Qed.

Lemma blocks_of_range n l : Forall (extent_ok n) l -> Forall (fun b => 0 <= b < n) (blocks_of l).
Proof.
  induction l as [|e l IH]; intros H; [by apply Forall_nil|]. apply Forall_cons in H as [(H1 & H2 & H3) H].
  rewrite blocks_of_cons. apply Forall_app. split; [|by apply IH]. apply Forall_seqZ. intros. lia.
Qed.

Lemma sum_lengths_spec n l :
  n < 2 ^ 64 -> 0 <= n -> Forall (extent_ok n) l -> NoDup (blocks_of l) ->
  sum_lengths l = zlen (blocks_of l).
Proof.
  intros Hn Hn0. unfold sum_lengths. induction l as [|e l IH] using rev_ind; intros H Hd; [done|].
  apply Forall_app in H as [H [(H1 & H2 & H3) _]%Forall_cons]. rewrite blocks_of_snoc in *.
  pose proof (zlen_nodup_bound _ n Hd) as Hb.
  apply NoDup_app in Hd as (Hd & _ & _). rewrite foldl_app. cbn [foldl]. rewrite IH by done.
  rewrite zlen_app in *. assert (Hl : zlen (seqZ (e_start e) (e_length e)) = e_length e)
    by (unfold zlen; rewrite length_seqZ; lia).
  rewrite Hl in *. pose proof (zlen_nonneg (blocks_of l)). apply Z.mod_small. split; [lia|].
  assert (zlen (blocks_of l) + e_length e <= Z.max 0 n); [|lia]. apply Hb.
  apply Forall_app. split; [by apply blocks_of_range|]. apply Forall_seqZ. intros. lia.
Qed.

Lemma seqZ_sorted m n : StronglySorted Z.lt (seqZ m n).
Proof.
  destruct (Z.le_gt_cases n 0) as [|Hn]; [rewrite seqZ_nil by done; constructor|].
  revert m. assert (H : forall k m, StronglySorted Z.lt (seqZ m (Z.of_nat k))).
  { induction k as [|k IH]; intros m; [constructor|].
    rewrite seqZ_cons by lia. constructor; [by replace (Z.pred (Z.of_nat (S k))) with (Z.of_nat k) by lia|].
    apply Forall_seqZ. intros. lia. }
  intros m. rewrite <-(Z2Nat.id n) by lia. apply H.
Qed.
Lemma filter_sorted (P : Z -> Prop) `{!forall x, Decision (P x)} l :
  StronglySorted Z.lt l -> StronglySorted Z.lt (filter P l).
Proof.
  induction 1 as [|x l Hl IH Hx]; [constructor|]. destruct (decide (P x)).
  - rewrite filter_cons_True by done. constructor; [done|].
    apply list.Forall_forall. intros y [_ Hy]%list_elem_of_filter.
    rewrite list.Forall_forall in Hx. by apply Hx.
  - by rewrite filter_cons_False.
Qed.

(** C15: for a graph that is exact and a target inside the file system the
    relocation geometry is always computed: it counts the used blocks at or
    above the target and the free blocks below it, and says whether the second
    number is enough.  When it is, the moves take each used block at or above
    the target exactly once to a free block below the target, no two to the
    same one, in pieces of equal length; otherwise there are no moves.  This
    holds whatever the sort does with extents of equal length. *)
Theorem relocation_geometry_exact (sort_desc : list BlockExtent -> list BlockExtent)
    (base : bytes) (sb : Superblock) (g : AllocationGraph) (target : Z)
    (Hsort : forall l, sort_desc l ≡ₚ l) (Hg : exact_graph base sb g)
    (Hn : blocks_count sb < 2 ^ 64) (Ht : 0 < target < blocks_count sb) :
  let blocks := seqZ (first_data_block sb) (blocks_count sb - first_data_block sb) in
  let stranded := filter (fun b => block_used base sb b = true /\ target <= b) blocks in
  let room := filter (fun b => block_used base sb b = false /\ b < target) blocks in
  exists r, build_relocation_geometry sort_desc g target = Some (Ok r) /\
    source_blocks r = zlen stranded /\ destination_blocks r = zlen room /\
    capacity_ok r = (zlen stranded <=? zlen room) /\
    (capacity_ok r = false -> moves r = []) /\
    (capacity_ok r = true ->
       blocks_of (source <$> moves r) ≡ₚ stranded /\
       NoDup (blocks_of (destination <$> moves r)) /\
       (forall b, b ∈ blocks_of (destination <$> moves r) -> b ∈ room) /\
       Forall move_ok (moves r)).
Proof.
  intros blocks stranded room. destruct Hg as (_ & Et & Ea & Ef & _ & _ & Oa & Of).
  fold blocks in Ea, Ef. unfold build_relocation_geometry.
  rewrite Et, (proj2 (Z.eqb_neq _ _)), (proj2 (Z.leb_gt _ _)) by lia. cbn [orb].
  set (src := sort_desc (sources_of _ _)). set (dst := sort_desc (dests_of _ _)).
  destruct (sources_of_spec (blocks_count sb) (allocated g) target Hn ltac:(lia) Oa) as [S1 S2].
  destruct (dests_of_spec (blocks_count sb) (free g) target Hn Of) as [D1 D2].
  { rewrite Ef. apply filter_sorted, seqZ_sorted. }
  assert (Ps : blocks_of src ≡ₚ stranded).
  { unfold src. rewrite (blocks_of_permute _ _ (Hsort _)), S1, Ea, list_filter_filter.
    unfold stranded. apply reflexive_eq, list_filter_iff. intros x. tauto. }
  assert (Pd : blocks_of dst ≡ₚ room).
  { unfold dst. rewrite (blocks_of_permute _ _ (Hsort _)), D1, Ef, list_filter_filter.
    unfold room. apply reflexive_eq, list_filter_iff. intros x. tauto. }
  assert (Os : Forall (extent_ok (blocks_count sb)) src) by (unfold src; by rewrite Hsort).
  assert (Od : Forall (extent_ok (blocks_count sb)) dst) by (unfold dst; by rewrite Hsort).
  assert (Ns : NoDup (blocks_of src)) by (rewrite Ps; apply NoDup_filter, NoDup_seqZ).
  assert (Nd : NoDup (blocks_of dst)) by (rewrite Pd; apply NoDup_filter, NoDup_seqZ).
  clearbody src dst.
  rewrite !(sum_lengths_spec (blocks_count sb)) by (done || lia).
  assert (Zs : zlen (blocks_of src) = zlen stranded) by (unfold zlen; by rewrite Ps).
  assert (Zd : zlen (blocks_of dst) = zlen room) by (unfold zlen; by rewrite Pd).
  rewrite Zs, Zd. destruct (Z.ltb_spec (zlen room) (zlen stranded)).
  { eexists. split; [reflexivity|]. cbn. rewrite (proj2 (Z.leb_gt _ _)) by lia. by split_and!. }
  destruct (place_all_spec (blocks_count sb) (length dst + 1) src dst 0 [] Os Od) as (ms & P1 & P2 & P3 & P4).
  { split; [done|]. destruct dst as [|x dst]; [done|]. apply Forall_cons in Od as [(? & ? & _) _]. lia. }
  { rewrite avail_0. lia. }
  { lia. }
  rewrite P1. eexists. split; [reflexivity|].
  cbn [source_blocks destination_blocks capacity_ok moves app]. rewrite (proj2 (Z.leb_le _ _)) by lia.
  rewrite avail_0 in P3. split_and!; try done. intros _.
  rewrite P2, P3. split_and!; [done| | |done].
  - rewrite <-(take_drop (length (blocks_of src)) (blocks_of dst)) in Nd. by apply NoDup_app in Nd as [Nd _].
  - intros b Hb. rewrite <-Pd. by apply elem_of_take in Hb as (i & Hb & _); apply list_elem_of_lookup_2 in Hb.
Qed.

(** The demo file system with the target 8: block 10 moves to block 7. *)
Definition demo_graph : AllocationGraph :=
  mkGraph 1024 16 7 8 [mkExtent 1 6; mkExtent 10 1] [mkExtent 7 3; mkExtent 11 5].

Lemma demo_graph_exact : exact_graph demo_ext4 (superblock_fields (slice demo_ext4 1024 1024)) demo_graph.
Proof.
  split_and!; try (vm_compute; reflexivity).
  - repeat constructor; vm_compute; try done; discriminate.
  - repeat constructor; vm_compute; try done; discriminate.
Qed.

Lemma relocation_geometry_exact_witness :
  exists r, build_relocation_geometry id demo_graph 8 = Some (Ok r) /\
    moves r = [mkMove (mkExtent 10 1) (mkExtent 7 1)] /\
    NoDup (blocks_of (destination <$> moves r)).
Proof.
  destruct (relocation_geometry_exact id demo_ext4 (superblock_fields (slice demo_ext4 1024 1024))
    demo_graph 8) as (r & H & _ & _ & _ & _ & H2);
    [done|apply demo_graph_exact|vm_compute; reflexivity|vm_compute; split; reflexivity|].
  exists r. split; [exact H|]. revert H H2. vm_compute build_relocation_geometry. intros [= <-] H2.
  split; [reflexivity|]. apply H2. reflexivity.
Defined.
