(* ===== verification/PartitionSync.v ===== *)
(** Shrinking a GPT partition to its ext file system
    (include/fsx/partition_sync.hpp, src/partition/sync.cpp).

    The decision which sectors the partition keeps is [plan_sync]; the
    progress callback only reports and is left out. *)
From S2P Require Import Prelude Errors Endian Host Device Uuid FileUtil Safety Durable.
From S2P Require Import JournalFormat Journal Ext4 Gpt GptWrite.
#[local] Open Scope Z_scope.

Record PartitionSyncOptions := mkSyncOptions {
  journal_path : string;
  so_allow_block_device : bool
}.
Record PartitionSyncReport := mkSyncReport {
  partition_index : Z;
  r_first_lba : Z;
  old_last_lba : Z;
  new_last_lba : Z;
  filesystem_bytes : Z;
  changed : bool;
  r_verified : bool;
  journal_completed : bool
}.

Definition find_partition (t : Table) (index : Z) : Result Partition :=
  match filter (fun p => p_index p = index) (partitions t) with
  | p :: _ => Ok p
  | [] => fail not_found "GPT partition index is unused"
  end.

Definition validate_journal (j : TransactionJournal) (sb : Superblock) (target : Z) : Result unit :=
  let? u := parse_uuid (uuid sb) in
  let st := status_ j in
  if negb (bool_decide (filesystem_uuid (identity st) = u))
  then fail unsafe "journal filesystem UUID does not match partition filesystem"
  else if negb (target_size (identity st) =? target)
  then fail unsafe "journal target size does not match current filesystem size"
  else if negb (bool_decide (phase st = filesystem_shrunk))
          && negb (bool_decide (phase st = partition_pending))
          && negb (bool_decide (phase st = complete))
  then fail unsafe "journal is not at the partition-resize phase"
  else Ok tt.

(** The checks between the two tables and the journal: the partition's number
    of sectors after the change and its new last sector. *)
Definition plan_sync (filesystem disk : DeviceGeometry) (fs_bytes : Z) (part : Partition)
    : Result (Z * Z) :=
  let sector := if logical_sector disk =? 0 then 512 else logical_sector disk in
  if negb (logical_sector filesystem =? 0) && negb (logical_sector filesystem =? sector)
     && is_block_device filesystem
  then fail unsafe "filesystem and parent disk report different logical sector sizes"
  else
    let sectors := u64 (u64 (last_lba part - first_lba part) + 1) in
    if u64_max / sector <? sectors then fail corrupt "GPT partition byte size overflows"
    else
      let partition_bytes := sectors * sector in
      if negb (size_bytes filesystem =? partition_bytes)
      then fail unsafe ("selected GPT partition size does not match filesystem device geometry; "
                        +:+ "wrong disk/index pair or stale kernel table")
      else if partition_bytes <? fs_bytes
      then fail corrupt "filesystem is larger than selected GPT partition"
      else if negb (fs_bytes mod sector =? 0)
      then fail unsupported "filesystem size is not aligned to parent disk logical sectors"
      else
        let new_sectors := fs_bytes / sector in
        if new_sectors =? 0 then fail corrupt "filesystem has zero partition sectors"
        else if u64_max - (new_sectors - 1) <? first_lba part
        then fail corrupt "new GPT partition endpoint overflows"
        else
          let new_last := first_lba part + new_sectors - 1 in
          if last_lba part <? new_last
          then fail unsafe "partition synchronization only shrinks to the current filesystem size"
          else Ok (new_sectors, new_last).

(** The record around the change of the table. *)
Definition sync_record (t : JournalRecordType) (part : Partition) (index new_sectors new_last : Z)
    : JournalRecord :=
  mkRecord t 0 1 (last_lba part) new_last new_sectors index (first_lba part) 0 0.

(** [if (journal) { append; checkpoint }]. *)
Definition journal_step (j : option TransactionJournal) (r : JournalRecord) (ph : OperationPhase)
    : M (option TransactionJournal) :=
  match j with
  | None => mret None
  | Some j =>
      j ← run_on (append r) j;
      j ← run_on (checkpoint ph) j;
      mret (Some j)
  end.

Definition open_journal (path : string) (sb : Superblock) (target : Z)
    : M (option TransactionJournal) :=
  if bool_decide (path = "") then mret None
  else
    j ← Journal.open path true;
    lift (validate_journal j sb target);;
    mret (Some j).

(** The part of [sync_gpt_partition_to_ext4] behind the plan. *)
Definition apply_sync (disk : BlockDevice) (index : Z) (o : PartitionSyncOptions) (sb : Superblock)
    (part : Partition) (fs_bytes new_sectors new_last : Z) : M PartitionSyncReport :=
  let report := mkSyncReport index (first_lba part) (last_lba part) new_last fs_bytes in
  j ← open_journal (journal_path o) sb fs_bytes;
  let at_complete := match j with Some j => bool_decide (phase (status_ j) = complete) | None => false end in
  if at_complete
  then if negb (new_last =? last_lba part)
       then failM unsafe "journal says operation is complete but GPT still has old geometry"
       else mret (report false true true)
  else if new_last =? last_lba part
  then match j with
       | None => mret (report false true false)
       | Some j => run_on (checkpoint complete) j;; mret (report false true true)
       end
  else
    let pending := match j with Some j => bool_decide (phase (status_ j) = partition_pending) | None => false end in
    j ← (if pending then mret j
         else journal_step j (sync_record partition_intent part index new_sectors new_last) partition_pending);
    r ← resize_partition disk index (first_lba part) new_last
          (mkOptions (so_allow_block_device o) true);
    if negb (verified r) then failM io "GPT resize did not pass post-write verification"
    else
      j ← journal_step j (sync_record partition_committed part index new_sectors new_last) complete;
      mret (report true true (match j with Some _ => true | None => false end)).

Definition sync_gpt_partition_to_ext4 (filesystem disk : BlockDevice) (index : Z)
    (o : PartitionSyncOptions) : M PartitionSyncReport :=
  require_offline_for_write filesystem;;
  require_disk_offline_for_write disk;;
  ds ← inspect_device_safety disk;
  if block_device ds && negb (so_allow_block_device o)
  then failM unsafe "GPT synchronization on a real disk requires --allow-block-device"
  else
    sb ← read_superblock filesystem;
    if Z.land (state sb) 1 =? 0
    then failM unsafe "filesystem is not marked clean; partition synchronization refused"
    else
      t ← read_redundant_table disk;
      if negb (table_verified t)
      then failM corrupt "both GPT copies must be valid before partition synchronization"
      else
        part ← lift (find_partition t index);
        p ← lift (plan_sync (geometry filesystem) (geometry disk) (sb_size_bytes sb) part);
        apply_sync disk index o sb part (sb_size_bytes sb) p.1 p.2.

(** ** The plan *)

(** [a / b] bounds what may be multiplied by [b]. *)
Lemma mul_no_overflow a b : 0 < b -> (u64_max / b <? a) = false -> a * b <= u64_max.
Proof. intros Hb H%Z.ltb_ge. pose proof (Z.mul_div_le u64_max b Hb). nia. Qed.

Lemma u64_sectors first last :
  in_width 64 first -> in_width 64 last ->
  let n := u64 (u64 (last - first) + 1) in
  0 <= n /\ (first <= last -> last - first + 1 <= u64_max -> n = last - first + 1) /\
  (first <= last -> last - first = u64_max -> n = 0).
Proof.
  intros Hf Hl n. unfold n, u64, wrap, in_width in *. split; [by apply Z.mod_pos_bound|].
  split; intros H1 H2; rewrite (Z.mod_small (last - first)) by lia; [apply Z.mod_small; lia|].
  by rewrite H2.
Qed.

(** What the plan promises: the partition is the file system's device, sector
    for sector, and its first [n] sectors, up to [l], are the file system. *)
Record sync_plan (filesystem disk : DeviceGeometry) (fs_bytes : Z) (part : Partition) (n l : Z) : Prop := {
  plan_sector : let ss := if logical_sector disk =? 0 then 512 else logical_sector disk in
    is_block_device filesystem = true ->
    logical_sector filesystem = 0 \/ logical_sector filesystem = ss;
  plan_device : let ss := if logical_sector disk =? 0 then 512 else logical_sector disk in
    size_bytes filesystem = (last_lba part - first_lba part + 1) * ss;
  plan_exact : let ss := if logical_sector disk =? 0 then 512 else logical_sector disk in
    fs_bytes = n * ss;
  plan_last : l = first_lba part + n - 1;
  plan_range : 1 <= n /\ l <= last_lba part
}.

Section Plan.
Context (filesystem disk : DeviceGeometry) (fs_bytes : Z) (part : Partition).
Context (Hss : 0 <= logical_sector disk < 2 ^ 32) (Hbytes : in_width 64 fs_bytes).
Context (Hdev : in_width 64 (size_bytes filesystem)).
Context (Hf : in_width 64 (first_lba part)) (Hl : in_width 64 (last_lba part)).

Let ss := if logical_sector disk =? 0 then 512 else logical_sector disk.

Lemma plan_ss : 0 < ss.
Proof. unfold ss. destruct (Z.eqb_spec (logical_sector disk) 0); lia. Qed.

Lemma plan_sync_sound n l :
  plan_sync filesystem disk fs_bytes part = Ok (n, l) -> sync_plan filesystem disk fs_bytes part n l.
Proof.
  pose proof plan_ss as Hpos. pose proof (u64_sectors _ _ Hf Hl) as (Hn & Hsec & Hfull).
  unfold plan_sync. cbv zeta. fold ss. destruct (_ && _ && _) eqn:E1; [discriminate|].
  set (k := u64 (u64 _ + 1)) in *. destruct (_ <? k) eqn:E2; [discriminate|].
  destruct (negb (size_bytes filesystem =? _)) eqn:E3; [discriminate|]. destruct (_ <? fs_bytes) eqn:E4; [discriminate|].
  destruct (negb (_ mod _ =? 0)) eqn:E5; [discriminate|].
  destruct (fs_bytes / ss =? 0) eqn:E6; [discriminate|].
  destruct (_ <? first_lba part) eqn:E7; [discriminate|].
  destruct (last_lba part <? _) eqn:E8; [discriminate|]. intros [= <- <-].
  apply negb_false_iff, Z.eqb_eq in E3. apply Z.ltb_ge in E4.
  apply negb_false_iff, Z.eqb_eq in E5. apply Z.eqb_neq in E6. apply Z.ltb_ge in E8.
  pose proof (Z.div_mod fs_bytes ss ltac:(lia)) as Hd.
  assert (Hq : 0 <= fs_bytes / ss) by (apply Z.div_pos; unfold in_width in Hbytes; lia).
  assert (Hle : first_lba part <= last_lba part) by lia.
  assert (Hk : k = last_lba part - first_lba part + 1).
  { destruct (Z.eq_dec (last_lba part - first_lba part) u64_max) as [Hm|Hm].
    - rewrite (Hfull Hle Hm) in E4. nia.
    - apply Hsec; unfold in_width in *; lia. }
  split; cbv zeta; fold ss; [|by rewrite E3, Hk|lia|lia|lia].
  intros Hb. rewrite Hb in E1. lia.
Qed.

Lemma plan_sync_complete n l :
  sync_plan filesystem disk fs_bytes part n l -> plan_sync filesystem disk fs_bytes part = Ok (n, l).
Proof.
  pose proof plan_ss as Hpos. pose proof (u64_sectors _ _ Hf Hl) as (Hn & Hsec & Hfull).
  intros [P1 P2 P3 P4 P5]. cbv zeta in *. fold ss in P1, P2, P3.
  unfold plan_sync. cbv zeta. fold ss.
  assert (E1 : negb (logical_sector filesystem =? 0) && negb (logical_sector filesystem =? ss)
               && is_block_device filesystem = false).
  { destruct (is_block_device filesystem); [|by rewrite andb_false_r]. specialize (P1 eq_refl). lia. }
  rewrite E1. assert (Hm : last_lba part - first_lba part + 1 <= u64_max).
  { unfold in_width in *. nia. }
  rewrite Hsec by lia. rewrite <-P2, Z.eqb_refl.
  rewrite (proj2 (Z.ltb_ge _ _))
    by (apply Z.div_le_lower_bound; [lia|]; unfold in_width in *; lia).
  cbn [negb]. rewrite (proj2 (Z.ltb_ge _ _)) by nia.
  rewrite P3, Z.mod_mul, Z.eqb_refl, Z.div_mul by lia. cbn [negb].
  rewrite (proj2 (Z.eqb_neq n 0)) by lia.
  rewrite !(proj2 (Z.ltb_ge _ _)) by (unfold in_width in *; lia). by rewrite P4.
Qed.

End Plan.

(** C17: the checks between the partition, its device and the file system accept
    exactly the partitions that are the file system's device and hold a file
    system of whole sectors, and compute its sectors without any overflow of
    the 64-bit arithmetic, for every value of the fields. *)
Theorem partition_plan_exact (filesystem disk : DeviceGeometry) (fs_bytes : Z) (part : Partition)
    (Hss : 0 <= logical_sector disk < 2 ^ 32) (Hbytes : in_width 64 fs_bytes)
    (Hdev : in_width 64 (size_bytes filesystem))
    (Hf : in_width 64 (first_lba part)) (Hl : in_width 64 (last_lba part)) (n l : Z) :
  plan_sync filesystem disk fs_bytes part = Ok (n, l) <-> sync_plan filesystem disk fs_bytes part n l.
Proof. split; [by apply plan_sync_sound|by apply plan_sync_complete]. Qed.

Definition demo_part : Partition := mkPartition 1 10 20 0 [] [] "".

Lemma partition_plan_exact_witness :
  sync_plan (mkGeometry 5632 512 512 true false) (mkGeometry 51200 512 512 false false) 4096 demo_part 8 17.
Proof.
  apply (partition_plan_exact (mkGeometry 5632 512 512 true false)
           (mkGeometry 51200 512 512 false false) 4096 demo_part); [by split..|reflexivity].
Defined.

(** ** The whole synchronization *)

Lemma redundant_table_primary d base p h :
  wstate d base [] h -> 0 < sector_of d -> side_at base (sector_of d) 1 = Ok p ->
  side_valid p = true ->
  wp (read_redundant_table d) h (fun o h' => quiet h h' /\ o <> OutOfFuel /\
    forall t, o = Ret t -> partitions t = partitions (table_from_side p true)).
Proof.
  intros Hw Hss Hp Hv. unfold read_redundant_table. cbv zeta.
  destruct (_ <? 2) eqn:Et; [by split_and!|]. apply Z.ltb_ge in Et.
  apply wp_bind. eapply wp_mono; [apply (read_side_spec d base []); [done|done|lia]|].
  intros o h1 (Hq1 & Hne1 & Hs1). destruct o as [p'|er|st|]; cbn [carry]; [|by split_and!..|done].
  assert (p' = p) as -> by (specialize (Hs1 p' eq_refl); cbn [put_all foldl] in Hs1; congruence).
  assert (Hw1 : wstate d base [] h1) by (by eapply wstate_quiet). rewrite Hv. cbn [negb andb].
  eapply wp_reader; [exact Hw1|apply reader_read_side; lia| |].
  2: { intros o h2 Ho Hq2 _. split; [by eapply quiet_trans|]. by destruct o. }
  intros b h2 _ Hq2 Hw2. pose proof (quiet_trans _ _ _ Hq1 Hq2) as Hq.
  apply wp_bind. destruct (validate_entries p); cbn [lift]; [|by split_and!].
  unfold wp at 1. cbn [fst snd carry mret M_ret].
  eapply wp_reader; [exact Hw2|case_match; [apply reader_lift|apply reader_ret]| |].
  2: { intros o h3 Ho Hq3 _. split; [by eapply quiet_trans|]. by destruct o. }
  intros [] h3 _ Hq3 Hw3. pose proof (quiet_trans _ _ _ Hq Hq3) as Hq'.
  destruct (_ && _); [by split_and!|].
  eapply wp_reader; [exact Hw3|by apply reader_pmbr| |].
  2: { intros o h4 Ho Hq4 _. split; [by eapply quiet_trans|]. by destruct o. }
  intros pm h4 _ Hq4 _. apply wp_ret. split; [by eapply quiet_trans|]. split; [done|].
  intros t Ht. apply ret_inj in Ht as <-. done.
Qed.

Lemma find_partition_spec t index part :
  find_partition t index = Ok part -> part ∈ partitions t /\ p_index part = index.
Proof.
  unfold find_partition. destruct (filter _ _) as [|q l] eqn:E; [discriminate|]. intros [= ->].
  assert (Hin : part ∈ filter (fun p => p_index p = index) (partitions t)) by (rewrite E; by left).
  by apply list_elem_of_filter in Hin as [? ?].
Qed.

Lemma table_partition_width s pm part :
  part ∈ partitions (table_from_side s pm) ->
  in_width 64 (first_lba part) /\ in_width 64 (last_lba part).
Proof.
  unfold table_from_side. cbn [partitions]. intros H.
  apply list_elem_of_In, in_concat in H as (ps & Hin & Hps).
  apply list_elem_of_In, list_elem_of_fmap in Hin as (i & -> & _).
  revert Hps. unfold partition_of. destruct (zero_guid _); [done|].
  intros [<-|[]]. split; apply (read_le_bound 8).
Qed.

(** [f..l] starts where the partition [index] of [p] starts, lies inside it and
    is as long as the file system. *)
Definition fitted (p : RawSide) (index ss fs_bytes f l : Z) : Prop :=
  exists part, part ∈ partitions (table_from_side p true) /\ p_index part = index /\
    f = first_lba part /\ f <= l <= last_lba part /\ fs_bytes = (l - f + 1) * ss.

(** What a synchronization without a journal leaves on a disk whose bytes
    were [base] and whose primary copy was [p]. *)
Definition sync_outcome (disk : BlockDevice) (base : bytes) (p : RawSide) (index fs_bytes : Z)
    (o : Outcome PartitionSyncReport) (h' : Host) : Prop :=
  let ss := sector_of disk in
  let last := zlen base / ss - 1 in
  o <> OutOfFuel /\
  (forall img, crash_image (file_of h' (fd_ disk)) img ->
     side_at img ss 1 = Ok p \/
     exists b f l, side_at img ss last = Ok b /\ fitted p index ss fs_bytes f l /\
       resized p index f l b) /\
  forall r, o = Ret r ->
    fitted p index ss fs_bytes (r_first_lba r) (new_last_lba r) /\
    if changed r then both_copies disk p index (r_first_lba r) (new_last_lba r) last h'
    else wstate disk base [] h' /\ new_last_lba r = old_last_lba r.

Section Sync.
Context (filesystem disk : BlockDevice) (fbase base : bytes) (p : RawSide) (index : Z).
Context (options : PartitionSyncOptions) (Hnoj : journal_path options = "").
Context (Hss : 0 < sector_of disk < 2 ^ 32) (Hoff : zlen base < 2 ^ 63).
Context (Hp : side_at base (sector_of disk) 1 = Ok p) (Hv : side_valid p = true).
Context (Hlay : standard_layout p (zlen base / sector_of disk) (sector_of disk)).
Context (Hi : in_width 32 index).

Lemma settled_outcome o h fs_bytes :
  aborted o -> wstate disk base [] h -> sync_outcome disk base p index fs_bytes o h.
Proof.
  intros Ho Hw. split; [by destruct o|]. split; [|by intros r ->].
  intros img Himg. left. by rewrite (settled_crash _ _ _ _ (wstate_unsettled _ _ _ _ Hw) Himg).
Qed.

Lemma apply_sync_spec sb part fs_bytes n l h :
  wstate disk base [] h -> part ∈ partitions (table_from_side p true) -> p_index part = index ->
  in_width 64 (last_lba part) -> in_width 64 (first_lba part) ->
  l = first_lba part + n - 1 -> 1 <= n -> l <= last_lba part -> fs_bytes = n * sector_of disk ->
  wp (apply_sync disk index options sb part fs_bytes n l) h (sync_outcome disk base p index fs_bytes).
Proof.
  intros Hw Hin Hidx Hwl Hwf Hl Hn Hle Hfs.
  assert (Hfit : fitted p index (sector_of disk) fs_bytes (first_lba part) l).
  { exists part. split_and!; [done|done|done|lia|lia|]. rewrite Hfs. f_equal. lia. }
  unfold apply_sync. cbv zeta. unfold open_journal.
  rewrite (bool_decide_eq_true_2 _ Hnoj).
  apply wp_bind. unfold wp at 1. cbn [fst snd carry mret M_ret].
  destruct (Z.eqb_spec l (last_lba part)) as [E|E].
  { apply wp_ret. split; [done|]. split.
    - intros img Himg. left. by rewrite (settled_crash _ _ _ _ (wstate_unsettled _ _ _ _ Hw) Himg).
    - intros r Hr. apply ret_inj in Hr as <-. by split. }
  apply wp_bind. unfold wp at 1. cbn [fst snd carry mret M_ret journal_step].
  apply wp_bind. eapply wp_mono.
  { apply (resize_partition_spec disk base p index (first_lba part) l); try done.
    unfold in_width in *. lia. }
  intros o h1 (Hne & Hone & Hboth).
  assert (Hcrash : forall img, crash_image (file_of h1 (fd_ disk)) img ->
    side_at img (sector_of disk) 1 = Ok p \/
    exists b f l, side_at img (sector_of disk) (zlen base / sector_of disk - 1) = Ok b /\
      fitted p index (sector_of disk) fs_bytes f l /\ resized p index f l b).
  { intros img Himg. destruct (Hone img Himg) as [|(b & ? & ?)]; [by left|right].
    by exists b, (first_lba part), l. }
  destruct o as [m|e|st|]; cbn [carry]; [|by split..|done].
  destruct (negb (verified m)); [by split|].
  apply wp_bind. unfold wp at 1. cbn [fst snd carry mret M_ret].
  apply wp_ret. split; [done|]. split; [exact Hcrash|].
  intros r Hr. apply ret_inj in Hr as <-. cbn [changed r_first_lba new_last_lba]. split; [done|].
  by apply (Hboth m).
Qed.

End Sync.

Lemma sb_size_width s : in_width 64 (blocks_count s) -> in_width 64 (sb_size_bytes s).
Proof.
  intros H. unfold sb_size_bytes.
  assert (Hb : 0 <= block_size s).
  { unfold block_size. destruct (_ <=? 6); [|lia]. apply Z.shiftl_nonneg. lia. }
  destruct (Z.eqb_spec (block_size s) 0); cbn [orb]; [by split|].
  destruct (_ <? _) eqn:E; [by split|]. apply mul_no_overflow in E; [|lia].
  unfold in_width in *. nia.
Qed.

(** C16: synchronizing a partition with its file system, without a journal,
    survives a power cut at every point and every failure of the host.  In
    every image the disk can be left with, the old primary copy is intact or
    the backup copy is good and gives the partition exactly the sectors of the
    file system.  A report says those sectors; when it says that the table
    changed both copies on the disk have them, otherwise the disk is untouched
    and the partition already ended there. *)
Theorem partition_sync_power_safe (filesystem disk : BlockDevice) (fbase base : bytes) (p : RawSide)
    (index : Z) (options : PartitionSyncOptions) (h : Host)
    (Hfs : wstate filesystem fbase [] h) (Hflen : zlen fbase < 2 ^ 63)
    (Hw : wstate disk base [] h) (Hss : 0 < sector_of disk < 2 ^ 32) (Hoff : zlen base < 2 ^ 63)
    (Hp : side_at base (sector_of disk) 1 = Ok p) (Hv : side_valid p = true)
    (Hlay : standard_layout p (zlen base / sector_of disk) (sector_of disk))
    (Hi : in_width 32 index) (Hnoj : journal_path options = "") :
  wp (sync_gpt_partition_to_ext4 filesystem disk index options) h
     (sync_outcome disk base p index
        (sb_size_bytes (superblock_fields (slice fbase 1024 1024)))).
Proof.
  set (fs_bytes := sb_size_bytes _).
  assert (Hab : forall (o : Outcome PartitionSyncReport) h', aborted o -> quiet h h' ->
    sync_outcome disk base p index fs_bytes o h').
  { intros o h' Ho Hq. apply settled_outcome; try done. exact (wstate_quiet _ _ _ _ _ Hq Hw). }
  unfold sync_gpt_partition_to_ext4.
  eapply wp_reader; [exact Hw|apply reader_offline|intros _ h1 _ Q1 Hw1|intros; by apply Hab].
  eapply wp_reader; [exact Hw1|apply reader_offline|intros _ h2 _ Q2 Hw2|].
  2: { intros o h' Ho Hq _. apply Hab; [done|]. by eapply quiet_trans. }
  pose proof (quiet_trans _ _ _ Q1 Q2) as Q3. clear Q1 Q2 Hw1.
  eapply wp_reader; [exact Hw2|apply reader_inspect|intros ds h3 _ Q4 Hw3|].
  2: { intros o h' Ho Hq _. apply Hab; [done|]. by eapply quiet_trans. }
  pose proof (quiet_trans _ _ _ Q3 Q4) as Q5. clear Q3 Q4 Hw2.
  destruct (_ && _); [exact (Hab (Fail _) h3 I Q5)|].
  apply wp_bind. eapply wp_mono.
  { apply (read_superblock_spec filesystem fbase []). exact (wstate_quiet _ _ _ _ _ Q5 Hfs). }
  intros o h4 (Q6 & Hne & Hsb). pose proof (quiet_trans _ _ _ Q5 Q6) as Q7. clear Q5 Q6.
  destruct o as [sb|e|st|]; cbn [carry]; [|by apply Hab..|done].
  destruct (Hsb sb eq_refl) as (Esb & _). cbn [put_all foldl] in Esb. clear Hsb Hne.
  assert (Hsize : sb_size_bytes sb = fs_bytes) by (by rewrite Esb).
  assert (Hsw : in_width 64 (sb_size_bytes sb)).
  { apply sb_size_width. rewrite Esb. by destruct (superblock_fields_width (slice fbase 1024 1024)) as (_ & _ & _ & _ & ? & _). }
  clearbody fs_bytes. clear Esb.
  destruct (_ =? 0); [exact (Hab (Fail _) h4 I Q7)|].
  pose proof (wstate_quiet _ _ _ _ _ Q7 Hw) as Hw4.
  apply wp_bind. eapply wp_mono; [apply (redundant_table_primary disk base p); [done|lia|done..]|].
  intros o h5 (Q8 & Hne & Ht). pose proof (quiet_trans _ _ _ Q7 Q8) as Q9. clear Q7 Q8.
  destruct o as [t|e|st|]; cbn [carry]; [|by apply Hab..|done].
  specialize (Ht t eq_refl).
  destruct (negb _); [exact (Hab (Fail _) h5 I Q9)|].
  destruct (find_partition t index) as [part|e] eqn:Ef;
    apply wp_bind; cbn [lift]; [|exact (Hab (Fail e) h5 I Q9)].
  unfold wp at 1. cbn [fst snd carry mret M_ret].
  apply find_partition_spec in Ef as [Hin Hidx]. rewrite Ht in Hin.
  destruct (table_partition_width _ _ _ Hin) as [Wf Wl].
  destruct (plan_sync _ _ _ _) as [[n l]|e] eqn:Epl;
    apply wp_bind; cbn [lift]; [|exact (Hab (Fail e) h5 I Q9)].
  unfold wp at 1. cbn [fst snd carry mret M_ret].
  assert (Hls : 0 <= logical_sector (geometry disk) < 2 ^ 32).
  { unfold sector_of in Hss. destruct (Z.eqb_spec (logical_sector (geometry disk)) 0); lia. }
  apply plan_sync_sound in Epl as [_ _ P3 P4 P5]; [|done|done| |done|done].
  2: { destruct Hfs as [_ <- _]. unfold in_width. pose proof (zlen_nonneg fbase). lia. }
  rewrite Hsize in *. apply apply_sync_spec; try done; try lia.
  exact (wstate_quiet _ _ _ _ _ Q9 Hw).
Qed.

(** A clean file system of five blocks on the eleven sectors of the
    demonstration disk's partition. *)
Definition demo_fs_image : bytes :=
  zeros 1024 ++
  write_le16 (write_le32 (write_le32 (write_le32 demo_superblock 0x04 5) 0x20 8192) 0x28 16) 0x3a 1
  ++ zeros 3584.
Definition demo_fs_device : BlockDevice :=
  mkDevice 0 "part" (mkGeometry 5632 512 512 false false) true.
Definition demo_sync_host : Host :=
  set_files (<[0 := mkFile Regular demo_fs_image []]> (h_files demo_gpt_host)) demo_gpt_host.

Lemma demo_sync_states :
  wstate demo_fs_device demo_fs_image [] demo_sync_host /\
  wstate demo_gpt_device demo_gpt_disk [] demo_sync_host /\ zlen demo_fs_image = 5632.
Proof.
  assert (Hz : zlen demo_fs_image = 5632).
  { unfold demo_fs_image. rewrite !zlen_app, !zlen_zeros by lia. reflexivity. }
  destruct demo_gpt_layout as [Hd _]. split; [|split; [|exact Hz]].
  - apply (wstate_start demo_fs_device demo_sync_host (mkFile Regular demo_fs_image []));
      [|reflexivity].
    split; [reflexivity|]. split; [exact Hz|by apply Forall_nil].
  - apply (wstate_start demo_gpt_device demo_sync_host (mkFile Regular demo_gpt_disk []));
      [|reflexivity].
    split; [reflexivity|]. split; [exact Hd|by apply Forall_nil].
Qed.

Lemma partition_sync_power_safe_witness :
  wp (sync_gpt_partition_to_ext4 demo_fs_device demo_gpt_device 1 (mkSyncOptions "" false)) demo_sync_host
     (sync_outcome demo_gpt_device demo_gpt_disk demo_primary 1
        (sb_size_bytes (superblock_fields (slice demo_fs_image 1024 1024)))).
Proof.
  destruct demo_sync_states as (H1 & H2 & Hz). pose proof demo_gpt_layout as [Hd Hs].
  apply (partition_sync_power_safe demo_fs_device demo_gpt_device demo_fs_image demo_gpt_disk demo_primary).
  - exact H1.
  - rewrite Hz. reflexivity.
  - exact H2.
  - by split.
  - rewrite Hd. reflexivity.
  - exact Hs.
  - reflexivity.
  - rewrite Hd. unfold standard_layout. vm_compute. split_and!; [discriminate|discriminate|reflexivity].
  - by split.
  - reflexivity.
Defined.
