(* ===== verification/Metadata.v ===== *)
(** Checksums of the ext metadata and their verification
    (include/fsx/ext4_metadata.hpp, src/ext4/metadata.cpp).

    The progress callback of [verify_metadata] only reports and is left out. *)
From S2P Require Import Prelude Words Errors Endian Crc Host Device Durable Ext4.
#[local] Open Scope Z_scope.

Definition RO_GDT_CSUM : Z := 0x0010.
Definition RO_METADATA_CSUM : Z := 0x0400.
Definition INCOMPAT_CSUM_SEED : Z := 0x2000.
Definition SB_CHECKSUM_OFF : Z := 0x3fc.
Definition SB_CHECKSUM_SEED_OFF : Z := 0x270.
Definition GD_BLOCK_CSUM_LO : Z := 0x18.
Definition GD_INODE_CSUM_LO : Z := 0x1a.
Definition GD_CHECKSUM : Z := 0x1e.
Definition GD_BLOCK_CSUM_HI : Z := 0x38.
Definition GD_INODE_CSUM_HI : Z := 0x3a.
Definition INODE_CSUM_LO : Z := 0x7c.
Definition INODE_EXTRA_ISIZE : Z := 0x80.
Definition INODE_CSUM_HI : Z := 0x82.

Record MetadataContext := mkContext {
  sb : Superblock;
  c_uuid : bytes;
  checksum_seed : Z;
  metadata_csum : bool;
  gdt_csum : bool;
  csum_seed_feature : bool
}.

Definition crc16_bit (crc : Z) : Z :=
  if Z.land crc 1 =? 0 then Z.shiftr crc 1 else Z.lxor (Z.shiftr crc 1) 0xa001.
Definition crc16_ibm (data : bytes) (seed : Z) : Z :=
  foldl (fun crc b => Nat.iter 8 crc16_bit (Z.lxor crc (byte.unsigned b))) seed data.

Definition le32_bytes (v : Z) : bytes := write_le32 (zeros 4) 0 v.

Definition metadata_seed (raw_sb : bytes) : Z :=
  if has_flag (read_le32 raw_sb 0x60) INCOMPAT_CSUM_SEED then read_le32 raw_sb SB_CHECKSUM_SEED_OFF
  else crc32c (slice raw_sb 0x68 16) 0xffffffff.

Definition bitmap_checksum (ctx : MetadataContext) (bitmap : bytes) (n : Z) : Z :=
  crc32c (slice bitmap 0 (Z.min n (zlen bitmap))) (checksum_seed ctx).

Definition descriptor_bitmap_checksum (gd : bytes) (inode : bool) : Z :=
  let lo := read_le16 gd (if inode then GD_INODE_CSUM_LO else GD_BLOCK_CSUM_LO) in
  let hi_off := if inode then GD_INODE_CSUM_HI else GD_BLOCK_CSUM_HI in
  if hi_off + 2 <=? zlen gd then Z.lor lo (u32 (Z.shiftl (read_le16 gd hi_off) 16)) else lo.

Definition inode_offset (dev : BlockDevice) (ctx : MetadataContext) (inode : Z) : M Z :=
  let s := sb ctx in
  if (inode =? 0) || (inodes_count s <? inode)
  then failM invalid_argument "inode number outside filesystem"
  else
    let z := inode - 1 in
    let group := z / inodes_per_group s in
    let index := z mod inodes_per_group s in
    gd ← read_group_desc dev s group;
    let bs := block_size s in
    if (bs =? 0) || (u64_max / bs <? inode_table gd)
    then failM corrupt "inode table byte offset overflows"
    else
      let table_off := inode_table gd * bs in
      let size := inode_size s in
      if u64_max / size <? index then failM corrupt "inode entry offset overflows"
      else
        let rel := index * size in
        if u64_max - table_off <? rel then failM corrupt "inode absolute offset overflows"
        else
          let off := table_off + rel in
          let fs_bytes := sb_size_bytes s in
          if (fs_bytes <? off) || (fs_bytes - off <? size)
          then failM corrupt "inode table entry lies beyond filesystem"
          else mret off.

Definition inode_has_hi_checksum (inode : bytes) : bool :=
  if (zlen inode <=? 128) || (zlen inode <? INODE_CSUM_HI + 2) then false
  else if zlen inode <? INODE_EXTRA_ISIZE + 2 then false
  else 4 <=? read_le16 inode INODE_EXTRA_ISIZE.

(** The checksum and the buffer, into which the old fields are put back. *)
Definition compute_inode_checksum (ctx : MetadataContext) (inode_no : Z) (inode : bytes) : Z * bytes :=
  let has_lo := INODE_CSUM_LO + 2 <=? zlen inode in
  let old_lo := if has_lo then read_le16 inode INODE_CSUM_LO else 0 in
  let has_hi := inode_has_hi_checksum inode in
  let old_hi := if has_hi then read_le16 inode INODE_CSUM_HI else 0 in
  let b := if has_lo then write_le16 inode INODE_CSUM_LO 0 else inode in
  let b := if has_hi then write_le16 b INODE_CSUM_HI 0 else b in
  let ino := le32_bytes (u32 inode_no) in
  let gen := le32_bytes (read_le32 b 0x64) in
  let crc := crc32c b (crc32c gen (crc32c ino (checksum_seed ctx))) in
  let b := if has_lo then write_le16 b INODE_CSUM_LO old_lo else b in
  let b := if has_hi then write_le16 b INODE_CSUM_HI old_hi else b in
  (crc, b).

(** The offset of the checksum behind the entries of an extent block. *)
Definition extent_tail (block : bytes) : Z := 12 + read_le16 block 4 * 12.

Definition compute_extent_checksum (ctx : MetadataContext) (inode generation : Z) (block : bytes)
    : Result Z :=
  if zlen block <? 12 then fail corrupt "extent block too small"
  else if negb (read_le16 block 0 =? 0xf30a) then fail corrupt "invalid extent block magic"
  else
    let tail := extent_tail block in
    if zlen block <? tail + 4 then fail corrupt "extent checksum tail lies outside block"
    else
      let ino := le32_bytes (u32 inode) in
      let gen := le32_bytes generation in
      Ok (crc32c (slice block 0 tail) (crc32c gen (crc32c ino (checksum_seed ctx)))).

(** ** The superblock *)

Definition read_raw_superblock (dev : BlockDevice) : M bytes := read_exact dev 1024 1024.

Definition write_raw_superblock (dev : BlockDevice) (raw : bytes) : M unit :=
  if negb (zlen raw =? 1024)
  then failM invalid_argument "ext superblock write requires exactly 1024 bytes"
  else write_exact dev 1024 raw.

Definition verify_superblock_checksum (raw : bytes) : bool :=
  if zlen raw <? 1024 then false
  else if negb (has_flag (read_le32 raw 0x64) RO_METADATA_CSUM) then true
  else read_le32 raw SB_CHECKSUM_OFF =? crc32c (slice raw 0 SB_CHECKSUM_OFF) 0xffffffff.

Definition update_superblock_checksum (raw : bytes) : Result bytes :=
  if zlen raw <? 1024 then fail invalid_argument "superblock buffer is too small"
  else if negb (has_flag (read_le32 raw 0x64) RO_METADATA_CSUM) then Ok raw
  else Ok (write_le32 raw SB_CHECKSUM_OFF (crc32c (slice raw 0 SB_CHECKSUM_OFF) 0xffffffff)).

Definition context_of (s : Superblock) (raw : bytes) : MetadataContext :=
  let mc := has_flag (feature_ro_compat s) RO_METADATA_CSUM in
  mkContext s (slice raw 0x68 16) (metadata_seed raw) mc
    (has_flag (feature_ro_compat s) RO_GDT_CSUM || mc)
    (has_flag (feature_incompat s) INCOMPAT_CSUM_SEED).

Definition load_metadata_context (dev : BlockDevice) (tolerate_bad_superblock_checksum : bool)
    : M MetadataContext :=
  s ← read_superblock dev;
  raw ← read_raw_superblock dev;
  let c := context_of s raw in
  if metadata_csum c && negb (verify_superblock_checksum raw) && negb tolerate_bad_superblock_checksum
  then failM corrupt "ext4 superblock checksum mismatch"
  else mret c.

(** ** Group descriptors *)

Definition read_group_descriptor_raw (dev : BlockDevice) (ctx : MetadataContext) (group : Z)
    : M bytes :=
  let s := sb ctx in
  if groups_count s <=? group then failM invalid_argument "group number outside filesystem"
  else
    let bs := block_size s in
    let ds := desc_bytes s in
    if (bs =? 0) || (ds =? 0) || (bs <? ds) then failM corrupt "invalid ext4 descriptor geometry"
    else if u64_max / ds <? group then failM corrupt "group descriptor offset overflows"
    else
      let desc_off := group * ds in
      if has_flag (feature_incompat s) INCOMPAT_META_BG && (bs <=? desc_off)
      then failM unsupported "meta_bg descriptor placement is not supported by the write engine yet"
      else
        let table_block := if bs =? 1024 then 2 else 1 in
        let table_off := table_block * bs in
        if u64_max - table_off <? desc_off
        then failM corrupt "group descriptor address overflows"
        else read_exact dev (table_off + desc_off) ds.

Definition write_group_descriptor_raw (dev : BlockDevice) (ctx : MetadataContext) (group : Z)
    (raw : bytes) : M unit :=
  let s := sb ctx in
  let bs := block_size s in
  let ds := desc_bytes s in
  if (bs =? 0) || (ds =? 0) || (bs <? ds) then failM corrupt "invalid ext4 descriptor geometry"
  else if negb (zlen raw =? ds)
  then failM invalid_argument "group descriptor buffer has wrong size"
  else if groups_count s <=? group then failM invalid_argument "group number outside filesystem"
  else if u64_max / ds <? group then failM corrupt "group descriptor offset overflows"
  else
    let desc_off := group * ds in
    if has_flag (feature_incompat s) INCOMPAT_META_BG && (bs <=? desc_off)
    then failM unsupported "meta_bg descriptor writes are not supported yet"
    else
      let table_block := if bs =? 1024 then 2 else 1 in
      let table_off := table_block * bs in
      if u64_max - table_off <? desc_off
      then failM corrupt "group descriptor address overflows"
      else write_exact dev (table_off + desc_off) raw.

(** The checksum of a descriptor whose checksum field is zero; the two
    routines below compute it in the same way. *)
Definition group_checksum (ctx : MetadataContext) (group : Z) (cleared : bytes) : Z :=
  let gb := le32_bytes (u32 group) in
  if metadata_csum ctx
  then Z.land (crc32c cleared (crc32c gb (checksum_seed ctx))) 0xffff
  else
    let crc := crc16_ibm (slice cleared 0 30) (crc16_ibm gb (crc16_ibm (c_uuid ctx) 0xffff)) in
    if 32 <? zlen cleared then crc16_ibm (drop 32 cleared) crc else crc.

Definition verify_group_descriptor_checksum (ctx : MetadataContext) (group : Z) (raw : bytes)
    : Result bool :=
  if negb (gdt_csum ctx) then Ok true
  else if zlen raw <? 32 then fail corrupt "group descriptor too short"
  else Ok (read_le16 raw GD_CHECKSUM =? group_checksum ctx group (write_le16 raw GD_CHECKSUM 0)).

Definition update_group_descriptor_checksum (ctx : MetadataContext) (group : Z) (raw : bytes)
    : Result bytes :=
  if negb (gdt_csum ctx) then Ok raw
  else if zlen raw <? 32 then fail corrupt "group descriptor too short"
  else
    let raw := write_le16 raw GD_CHECKSUM 0 in
    Ok (write_le16 raw GD_CHECKSUM (group_checksum ctx group raw)).

(** ** Bitmaps *)

(** The routines for the two bitmaps differ in the number of items of a group
    and in the fields of the descriptor. *)
Definition bitmap_bytes (ctx : MetadataContext) (inode : bool) : Z :=
  ((if inode then inodes_per_group (sb ctx) else blocks_per_group (sb ctx)) + 7) / 8.

Definition verify_bitmap_checksum (inode : bool) (ctx : MetadataContext) (gd bitmap : bytes)
    : Result bool :=
  if negb (metadata_csum ctx) then Ok true
  else
    let got := bitmap_checksum ctx bitmap (bitmap_bytes ctx inode) in
    let stored := descriptor_bitmap_checksum gd inode in
    let hi_off := if inode then GD_INODE_CSUM_HI else GD_BLOCK_CSUM_HI in
    Ok (if hi_off + 2 <=? zlen gd then stored =? got
        else Z.land stored 0xffff =? Z.land got 0xffff).

Definition update_bitmap_checksum (inode : bool) (ctx : MetadataContext) (gd bitmap : bytes) : bytes :=
  if negb (metadata_csum ctx) then gd
  else
    let c := bitmap_checksum ctx bitmap (bitmap_bytes ctx inode) in
    let lo_off := if inode then GD_INODE_CSUM_LO else GD_BLOCK_CSUM_LO in
    let hi_off := if inode then GD_INODE_CSUM_HI else GD_BLOCK_CSUM_HI in
    let gd := write_le16 gd lo_off (u16 c) in
    if hi_off + 2 <=? zlen gd then write_le16 gd hi_off (u16 (Z.shiftr c 16)) else gd.

Definition verify_block_bitmap_checksum := verify_bitmap_checksum false.
Definition verify_inode_bitmap_checksum := verify_bitmap_checksum true.
Definition update_block_bitmap_checksum := update_bitmap_checksum false.
Definition update_inode_bitmap_checksum := update_bitmap_checksum true.

(** ** Inodes and extent blocks *)

Definition read_inode_raw (dev : BlockDevice) (ctx : MetadataContext) (inode : Z) : M bytes :=
  off ← inode_offset dev ctx inode;
  read_exact dev off (inode_size (sb ctx)).

Definition write_inode_raw (dev : BlockDevice) (ctx : MetadataContext) (inode : Z) (raw : bytes)
    : M unit :=
  if negb (zlen raw =? inode_size (sb ctx))
  then failM invalid_argument "inode buffer has wrong size"
  else
    off ← inode_offset dev ctx inode;
    write_exact dev off raw.

Definition verify_inode_checksum (ctx : MetadataContext) (inode : Z) (raw : bytes) : Result bool :=
  if negb (metadata_csum ctx) then Ok true
  else if zlen raw <? 128 then fail corrupt "inode buffer too short"
  else
    let stored_lo := read_le16 raw INODE_CSUM_LO in
    let hi := inode_has_hi_checksum raw in
    let stored_hi := if hi then read_le16 raw INODE_CSUM_HI else 0 in
    let expected := (compute_inode_checksum ctx inode raw).1 in
    let stored := Z.lor stored_lo (u32 (Z.shiftl stored_hi 16)) in
    Ok (if hi then stored =? expected else Z.land stored 0xffff =? Z.land expected 0xffff).

Definition update_inode_checksum (ctx : MetadataContext) (inode : Z) (raw : bytes) : Result bytes :=
  if negb (metadata_csum ctx) then Ok raw
  else if zlen raw <? 128 then fail corrupt "inode buffer too short"
  else
    let (c, raw) := compute_inode_checksum ctx inode raw in
    let raw := write_le16 raw INODE_CSUM_LO (u16 c) in
    Ok (if inode_has_hi_checksum raw then write_le16 raw INODE_CSUM_HI (u16 (Z.shiftr c 16)) else raw).

Definition verify_extent_block_checksum (ctx : MetadataContext) (inode generation : Z) (block : bytes)
    : Result bool :=
  if negb (metadata_csum ctx) then Ok true
  else
    let? c := compute_extent_checksum ctx inode generation block in
    Ok (read_le32 block (extent_tail block) =? c).

Definition update_extent_block_checksum (ctx : MetadataContext) (inode generation : Z) (block : bytes)
    : Result bytes :=
  if negb (metadata_csum ctx) then Ok block
  else
    let? c := compute_extent_checksum ctx inode generation block in
    Ok (write_le32 block (extent_tail block) c).

(** ** What an update writes is what a verification reads *)

Lemma crc32c_width data seed : in_width 32 seed -> in_width 32 (crc32c data seed).
Proof. intros. rewrite crc32c_ref by done. apply crc_ref_width; eauto with fsx. Qed.

Lemma le32_bytes_len v : zlen (le32_bytes v) = 4.
Proof. unfold le32_bytes, write_le32. by rewrite zlen_write_le, zlen_zeros by lia. Qed.

(** A 32-bit value is the pair of its halves. *)
Lemma halves_join c :
  in_width 32 c -> Z.lor (u16 c) (u32 (Z.shiftl (u16 (Z.shiftr c 16)) 16)) = c.
Proof.
  intros Hc. unfold wrap. apply Z.bits_inj'. intros n Hn.
  rewrite Z.lor_spec, !Z.testbit_mod_pow2 by lia.
  destruct (Z.ltb_spec n 16); cbn [andb].
  - rewrite Z.shiftl_spec_low by lia. by rewrite andb_false_r, orb_false_r.
  - destruct (Z.ltb_spec n 32); cbn [andb orb].
    + rewrite Z.shiftl_spec, Z.testbit_mod_pow2, Z.shiftr_spec by lia.
      rewrite (proj2 (Z.ltb_lt _ _)) by lia. cbn [andb]. f_equal. lia.
    + symmetry. destruct (Z.eq_dec c 0) as [->|]; [apply Z.testbit_0_l|].
      unfold in_width in Hc. apply Z.bits_above_log2; [lia|].
      assert (Z.log2 c < 32) by (apply Z.log2_lt_pow2; lia). lia.
Qed.

Lemma land_ffff x : Z.land x 0xffff = u16 x.
Proof. unfold wrap. change 0xffff with (Z.ones 16). apply Z.land_ones. lia. Qed.

Lemma u16_width x : in_width 16 (u16 x).
Proof. apply Z.mod_pos_bound. lia. Qed.
#[local] Hint Resolve u16_width : core.

(** The flag of the checksums lies outside the superblock's checksum. *)
Lemma superblock_roundtrip raw raw' :
  update_superblock_checksum raw = Ok raw' ->
  verify_superblock_checksum raw' = true /\ zlen raw' = zlen raw /\
  forall o n, 0 <= o -> o + n <= SB_CHECKSUM_OFF \/ SB_CHECKSUM_OFF + 4 <= o ->
    slice raw' o n = slice raw o n.
Proof.
  unfold update_superblock_checksum. destruct (Z.ltb_spec (zlen raw) 1024) as [|Hl]; [done|].
  destruct (negb _) eqn:Ef; intros H; res_inv.
  { unfold verify_superblock_checksum. rewrite (proj2 (Z.ltb_ge _ _)), Ef by lia. done. }
  unfold SB_CHECKSUM_OFF in *. set (c := crc32c _ _).
  assert (Hc : in_width 32 c) by by apply crc32c_width.
  split; [|split; [apply zlen_write_le|]].
  - unfold verify_superblock_checksum, write_le32. rewrite zlen_write_le.
    rewrite (proj2 (Z.ltb_ge _ _)) by lia. unfold SB_CHECKSUM_OFF.
    rewrite read_write_le_ne, Ef by lia.
    rewrite read_write_le_eq by (done || lia). rewrite slice_write_le_ne by lia. apply Z.eqb_refl.
  - intros o n Ho Hd. apply slice_write_le_ne; lia.
Qed.

(** ** Inodes *)

Lemma has_hi_room raw : inode_has_hi_checksum raw = true -> 132 <= zlen raw.
Proof. 
  unfold inode_has_hi_checksum, INODE_CSUM_HI.
  destruct (Z.ltb_spec (zlen raw) (0x82 + 2)); [by rewrite orb_true_r|]. lia.
Qed.

(** Whether there is a high half does not depend on the checksum fields. *)
Lemma has_hi_write_lo raw v :
  128 <= zlen raw -> inode_has_hi_checksum (write_le16 raw INODE_CSUM_LO v) = inode_has_hi_checksum raw.
Proof.
  intros Hl. unfold inode_has_hi_checksum, INODE_CSUM_HI, INODE_EXTRA_ISIZE, INODE_CSUM_LO, write_le16.
  rewrite zlen_write_le. destruct (_ || _) eqn:E; [done|]. destruct (zlen raw <? 0x80 + 2) eqn:E2; [done|].
  by rewrite read_write_le_ne by lia.
Qed.
Lemma has_hi_write_hi raw v :
  132 <= zlen raw -> inode_has_hi_checksum (write_le16 raw INODE_CSUM_HI v) = inode_has_hi_checksum raw.
Proof.
  intros Hl. unfold inode_has_hi_checksum, INODE_CSUM_HI, INODE_EXTRA_ISIZE, write_le16.
  rewrite zlen_write_le. destruct (_ || _) eqn:E; [done|]. destruct (zlen raw <? 0x80 + 2) eqn:E2; [done|].
  by rewrite read_write_le_ne by lia.
Qed.

(** The inode with its checksum fields zero, on which the checksum is taken. *)
Definition inode_cleared (raw : bytes) : bytes :=
  let b := write_le16 raw INODE_CSUM_LO 0 in
  if inode_has_hi_checksum raw then write_le16 b INODE_CSUM_HI 0 else b.
Definition inode_crc (ctx : MetadataContext) (ino : Z) (raw : bytes) : Z :=
  let b := inode_cleared raw in
  crc32c b (crc32c (le32_bytes (read_le32 b 0x64)) (crc32c (le32_bytes (u32 ino)) (checksum_seed ctx))).

(** The computation leaves the buffer as it was. *)
Lemma compute_inode_spec ctx ino raw :
  128 <= zlen raw -> compute_inode_checksum ctx ino raw = (inode_crc ctx ino raw, raw).
Proof.
  intros Hl. unfold compute_inode_checksum, inode_crc, inode_cleared.
  rewrite (proj2 (Z.leb_le _ _)) by (unfold INODE_CSUM_LO; lia).
  destruct (inode_has_hi_checksum raw) eqn:Eh; f_equal; unfold INODE_CSUM_LO, INODE_CSUM_HI, write_le16.
  - apply has_hi_room in Eh.
    rewrite (write_le_comm 2 2 (write_le 2 raw 124 0) 124 130) by (rewrite ?zlen_write_le; lia).
    rewrite write_le_back by lia. apply write_le_back; lia.
  - apply write_le_back; lia.
Qed.

Lemma inode_crc_width ctx ino raw : in_width 32 (checksum_seed ctx) -> in_width 32 (inode_crc ctx ino raw).
Proof. intros. by repeat apply crc32c_width. Qed.

(** The checksum does not depend on the fields that hold it. *)
Lemma inode_cleared_lo raw v :
  128 <= zlen raw -> inode_cleared (write_le16 raw INODE_CSUM_LO v) = inode_cleared raw.
Proof.
  intros Hl. unfold inode_cleared. rewrite has_hi_write_lo by done.
  unfold write_le16, INODE_CSUM_LO. by rewrite write_le_twice by lia.
Qed.
Lemma inode_cleared_hi raw v :
  inode_has_hi_checksum raw = true -> inode_cleared (write_le16 raw INODE_CSUM_HI v) = inode_cleared raw.
Proof.
  intros Eh. pose proof (has_hi_room _ Eh). unfold inode_cleared. rewrite has_hi_write_hi, Eh by done.
  unfold write_le16, INODE_CSUM_LO, INODE_CSUM_HI.
  rewrite (write_le_comm 2 2 raw 124 130) by lia. by rewrite write_le_twice by (rewrite ?zlen_write_le; lia).
Qed.

(** Verification compares the stored halves with the checksum. *)
Lemma verify_inode_spec ctx ino raw :
  metadata_csum ctx = true -> 128 <= zlen raw ->
  verify_inode_checksum ctx ino raw = Ok
    (let hi := inode_has_hi_checksum raw in
     let stored := Z.lor (read_le16 raw INODE_CSUM_LO)
       (u32 (Z.shiftl (if hi then read_le16 raw INODE_CSUM_HI else 0) 16)) in
     if hi then stored =? inode_crc ctx ino raw else u16 stored =? u16 (inode_crc ctx ino raw)).
Proof.
  intros Hm Hl. unfold verify_inode_checksum. rewrite Hm. cbn [negb].
  destruct (Z.ltb_spec (zlen raw) 128); [lia|]. rewrite compute_inode_spec by done. cbn [fst].
  by rewrite !land_ffff.
Qed.

Lemma inode_roundtrip ctx ino raw raw' :
  in_width 32 (checksum_seed ctx) -> update_inode_checksum ctx ino raw = Ok raw' ->
  verify_inode_checksum ctx ino raw' = Ok true /\ zlen raw' = zlen raw /\
  inode_cleared raw' = inode_cleared raw.
Proof.
  intros Hs. unfold update_inode_checksum.
  destruct (metadata_csum ctx) eqn:Em; cbn [negb];
    [|intros [= <-]; unfold verify_inode_checksum; by rewrite Em].
  destruct (Z.ltb_spec (zlen raw) 128) as [|Hl]; [done|].
  rewrite compute_inode_spec, has_hi_write_lo by lia.
  pose proof (inode_crc_width ctx ino raw Hs) as Hc. set (c := inode_crc ctx ino raw) in *.
  set (b := write_le16 raw INODE_CSUM_LO (u16 c)).
  assert (Hb : zlen b = zlen raw) by apply zlen_write_le.
  assert (Hbh : inode_has_hi_checksum b = inode_has_hi_checksum raw) by (apply has_hi_write_lo; lia).
  assert (Hbc : inode_cleared b = inode_cleared raw) by (apply inode_cleared_lo; lia).
  assert (Hbr : read_le16 b INODE_CSUM_LO = u16 c)
    by (apply read_write_le_eq; [done|unfold INODE_CSUM_LO; lia|done]).
  clearbody b. destruct (inode_has_hi_checksum raw) eqn:Eh; intros [= <-].
  - pose proof (has_hi_room _ Eh) as Hr.
    assert (E : inode_cleared (write_le16 b INODE_CSUM_HI (u16 (Z.shiftr c 16))) = inode_cleared raw)
      by (by rewrite inode_cleared_hi).
    split; [|by split; [rewrite <-Hb; apply zlen_write_le|]].
    rewrite verify_inode_spec by (unfold write_le16; rewrite ?zlen_write_le; done || lia). cbv zeta.
    rewrite has_hi_write_hi, Hbh by lia. unfold inode_crc. rewrite E. fold (inode_crc ctx ino raw). fold c.
    unfold write_le16 at 2, INODE_CSUM_HI. rewrite read_write_le_eq by (done || lia).
    unfold write_le16. rewrite read_write_le_ne by (unfold INODE_CSUM_LO; lia).
    by rewrite Hbr, halves_join, Z.eqb_refl.
  - split; [|done]. rewrite verify_inode_spec by (done || lia). cbv zeta.
    rewrite Hbh, Hbr. unfold inode_crc. rewrite Hbc. fold (inode_crc ctx ino raw). fold c.
    rewrite Z.shiftl_0_l, Z.lor_0_r. unfold wrap. by rewrite Z.mod_mod, Z.eqb_refl by lia.
Qed.

(** ** Extent blocks *)

Lemma extent_roundtrip ctx ino gen block block' :
  in_width 32 (checksum_seed ctx) -> update_extent_block_checksum ctx ino gen block = Ok block' ->
  verify_extent_block_checksum ctx ino gen block' = Ok true /\ zlen block' = zlen block /\
  (metadata_csum ctx = true -> slice block' 0 (extent_tail block) = slice block 0 (extent_tail block)).
Proof.
  intros Hs. unfold update_extent_block_checksum, verify_extent_block_checksum.
  destruct (metadata_csum ctx) eqn:Em; cbn [negb]; [|by intros [= <-]].
  unfold compute_extent_checksum. destruct (Z.ltb_spec (zlen block) 12) as [|Hl]; [done|].
  destruct (negb (_ =? 0xf30a)) eqn:Emg; [done|]. cbv zeta.
  destruct (Z.ltb_spec (zlen block) (extent_tail block + 4)) as [|Hr]; [done|]. cbn [bindR].
  set (c := crc32c _ _). intros [= <-].
  assert (Hc : in_width 32 c) by (repeat apply crc32c_width; exact Hs).
  pose proof (read_le_bound 2 block 4) as Hm.
  assert (Ht : 12 <= extent_tail block) by (unfold extent_tail, in_width in *; lia).
  assert (Et : extent_tail (write_le32 block (extent_tail block) c) = extent_tail block).
  { unfold extent_tail at 1, write_le32. by rewrite read_write_le_ne by lia. }
  rewrite Et. unfold write_le32. rewrite zlen_write_le.
  rewrite read_write_le_ne by lia. rewrite Emg.
  destruct (Z.ltb_spec (zlen block) 12); [lia|].
  destruct (Z.ltb_spec (zlen block) (extent_tail block + 4)); [lia|]. cbn [bindR].
  rewrite (slice_write_le_ne 4 block _ _ 0) by lia. fold c.
  rewrite read_write_le_eq by (done || lia). by rewrite Z.eqb_refl.
Qed.

(** ** Bitmaps *)

Definition lo_off (inode : bool) : Z := if inode then GD_INODE_CSUM_LO else GD_BLOCK_CSUM_LO.
Definition hi_off (inode : bool) : Z := if inode then GD_INODE_CSUM_HI else GD_BLOCK_CSUM_HI.

(** The verification reads two fields of the descriptor. *)
Lemma verify_bitmap_ext inode ctx gd gd' bm :
  zlen gd = zlen gd' -> read_le16 gd (lo_off inode) = read_le16 gd' (lo_off inode) ->
  (hi_off inode + 2 <= zlen gd -> read_le16 gd (hi_off inode) = read_le16 gd' (hi_off inode)) ->
  verify_bitmap_checksum inode ctx gd bm = verify_bitmap_checksum inode ctx gd' bm.
Proof.
  intros Hz Hlo Hhi. unfold verify_bitmap_checksum, descriptor_bitmap_checksum. cbv zeta.
  fold (lo_off inode) (hi_off inode). rewrite Hlo, <-Hz.
  destruct (Z.leb_spec (hi_off inode + 2) (zlen gd)); [|done]. by rewrite Hhi.
Qed.

Lemma bitmap_checksum_width ctx bm n : in_width 32 (checksum_seed ctx) -> in_width 32 (bitmap_checksum ctx bm n).
Proof. apply crc32c_width. Qed.

Lemma zlen_update_bitmap inode ctx gd bm : zlen (update_bitmap_checksum inode ctx gd bm) = zlen gd.
Proof.
  unfold update_bitmap_checksum, write_le16. destruct (negb _); [done|]. cbv zeta.
  case_match; rewrite ?zlen_write_le; done.
Qed.

Lemma bitmap_roundtrip inode ctx gd bm :
  in_width 32 (checksum_seed ctx) -> 32 <= zlen gd ->
  verify_bitmap_checksum inode ctx (update_bitmap_checksum inode ctx gd bm) bm = Ok true.
Proof.
  intros Hs Hl. unfold verify_bitmap_checksum.
  rewrite zlen_update_bitmap. unfold update_bitmap_checksum, descriptor_bitmap_checksum.
  destruct (metadata_csum ctx); cbn [negb]; [|done]. cbv zeta.
  fold (lo_off inode) (hi_off inode).
  set (c := bitmap_checksum _ _ _). assert (Hc : in_width 32 c) by by apply bitmap_checksum_width.
  assert (Hlo : 0 <= lo_off inode /\ lo_off inode + 2 <= hi_off inode /\ lo_off inode + 2 <= 32)
    by (destruct inode; unfold lo_off, hi_off, GD_INODE_CSUM_LO, GD_BLOCK_CSUM_LO, GD_INODE_CSUM_HI,
          GD_BLOCK_CSUM_HI; lia).
  unfold write_le16. rewrite zlen_write_le. destruct (Z.leb_spec (hi_off inode + 2) (zlen gd)) as [Hh|Hh].
  - rewrite !zlen_write_le. rewrite (proj2 (Z.leb_le _ _) Hh).
    rewrite (read_write_le_ne 2 2) by (rewrite ?zlen_write_le; lia).
    rewrite !read_write_le_eq by (rewrite ?zlen_write_le; lia || apply u16_width).
    by rewrite halves_join, Z.eqb_refl.
  - rewrite zlen_write_le, (proj2 (Z.leb_gt _ _) Hh).
    rewrite read_write_le_eq by (lia || apply u16_width).
    rewrite !land_ffff. unfold wrap. by rewrite Z.mod_mod, Z.eqb_refl by lia.
Qed.

(** Fields that the update of one bitmap leaves alone. *)
Lemma update_bitmap_read inode ctx gd bm o :
  32 <= zlen gd -> 0 <= o -> o + 2 <= zlen gd ->
  o + 2 <= lo_off inode \/ lo_off inode + 2 <= o -> o + 2 <= hi_off inode \/ hi_off inode + 2 <= o ->
  read_le16 (update_bitmap_checksum inode ctx gd bm) o = read_le16 gd o.
Proof.
  intros Hl Ho Hr H1 H2. unfold update_bitmap_checksum. destruct (negb _); [done|]. cbv zeta.
  fold (lo_off inode) (hi_off inode).
  assert (Hlo : 0 <= lo_off inode /\ lo_off inode + 2 <= 32 /\ 0 <= hi_off inode)
    by (destruct inode; unfold lo_off, hi_off, GD_INODE_CSUM_LO, GD_BLOCK_CSUM_LO, GD_INODE_CSUM_HI,
          GD_BLOCK_CSUM_HI; lia).
  unfold write_le16. rewrite zlen_write_le. destruct (Z.leb_spec (hi_off inode + 2) (zlen gd)).
  - rewrite !read_write_le_ne; rewrite ?zlen_write_le; done || lia.
  - rewrite read_write_le_ne; done || lia.
Qed.

(** ** Group descriptors *)

Lemma crc16_bit_width c : in_width 16 c -> in_width 16 (crc16_bit c).
Proof.
  intros Hc. unfold in_width in *. assert (Hs : 0 <= Z.shiftr c 1 < 2 ^ 16).
  { rewrite Z.shiftr_div_pow2 by lia. split; [apply Z.div_pos; lia|].
    apply Z.div_lt_upper_bound; lia. }
  unfold crc16_bit. destruct (_ =? 0); [exact Hs|]. apply lxor_width; [lia|exact Hs|done].
Qed.

Lemma crc16_width data seed : in_width 16 seed -> in_width 16 (crc16_ibm data seed).
Proof.
  unfold crc16_ibm. revert seed. induction data as [|b data IH]; intros seed Hs; [done|].
  cbn [foldl]. apply IH. assert (H0 : in_width 16 (Z.lxor seed (byte.unsigned b))).
  { apply lxor_width; [lia|done|]. pose proof (byte.unsigned_range b). unfold in_width. lia. }
  clear -H0. generalize 8%nat as n. induction n as [|n IHn]; [done|]. cbn. by apply crc16_bit_width.
Qed.

Lemma group_checksum_width ctx g raw : in_width 16 (group_checksum ctx g raw).
Proof.
  unfold group_checksum. destruct (metadata_csum ctx); [rewrite land_ffff; apply u16_width|].
  case_match; by repeat apply crc16_width.
Qed.

Lemma group_roundtrip ctx g raw raw' :
  update_group_descriptor_checksum ctx g raw = Ok raw' ->
  verify_group_descriptor_checksum ctx g raw' = Ok true /\ zlen raw' = zlen raw /\
  ((zlen raw <? 32) = false -> forall o, 0 <= o -> o + 2 <= zlen raw ->
     o + 2 <= GD_CHECKSUM \/ GD_CHECKSUM + 2 <= o -> read_le16 raw' o = read_le16 raw o).
Proof.
  unfold update_group_descriptor_checksum, verify_group_descriptor_checksum.
  destruct (gdt_csum ctx); cbn [negb]; [|by intros [= <-]].
  destruct (Z.ltb_spec (zlen raw) 32) as [|Hl]; [done|]. cbv zeta. intros [= <-].
  unfold GD_CHECKSUM, write_le16. rewrite !zlen_write_le.
  rewrite (proj2 (Z.ltb_ge _ _)) by lia. rewrite write_le_twice by (rewrite ?zlen_write_le; lia).
  rewrite write_le_twice by lia.
  rewrite read_write_le_eq by (rewrite ?zlen_write_le; lia || apply group_checksum_width).
  rewrite Z.eqb_refl. split_and!; [done|done|]. intros _ o Ho Hr Hd.
  by rewrite !read_write_le_ne by (rewrite ?zlen_write_le; lia).
Qed.

(** The routines on a group's descriptor do not disturb each other. *)
Lemma descriptor_roundtrip ctx g gd bb ib gd' :
  in_width 32 (checksum_seed ctx) -> 32 <= zlen gd ->
  update_group_descriptor_checksum ctx g
    (update_inode_bitmap_checksum ctx (update_block_bitmap_checksum ctx gd bb) ib) = Ok gd' ->
  verify_group_descriptor_checksum ctx g gd' = Ok true /\
  verify_block_bitmap_checksum ctx gd' bb = Ok true /\
  verify_inode_bitmap_checksum ctx gd' ib = Ok true.
Proof.
  intros Hs Hl H. apply group_roundtrip in H as (Hv & Hz & Hread).
  unfold update_block_bitmap_checksum, update_inode_bitmap_checksum in *.
  set (gd1 := update_bitmap_checksum false ctx gd bb) in *.
  assert (Hz1 : zlen gd1 = zlen gd) by apply zlen_update_bitmap.
  rewrite zlen_update_bitmap in Hz, Hread.
  rewrite (proj2 (Z.ltb_ge _ _)) in Hread by lia. specialize (Hread eq_refl).
  split; [exact Hv|].
  assert (Hk : forall inode, 0 <= lo_off inode /\ lo_off inode + 2 <= GD_CHECKSUM /\
    GD_CHECKSUM + 2 <= hi_off inode /\ hi_off inode < 1024)
    by (intros []; unfold lo_off, hi_off, GD_CHECKSUM, GD_INODE_CSUM_LO, GD_BLOCK_CSUM_LO,
          GD_INODE_CSUM_HI, GD_BLOCK_CSUM_HI; lia).
  assert (Hd : lo_off false + 2 <= lo_off true /\ hi_off false + 2 <= hi_off true /\ lo_off true + 2 <= hi_off false)
    by (unfold lo_off, hi_off, GD_INODE_CSUM_LO, GD_BLOCK_CSUM_LO, GD_INODE_CSUM_HI, GD_BLOCK_CSUM_HI; lia).
  pose proof (Hk true). pose proof (Hk false). clear Hk.
  assert (Hc : GD_CHECKSUM + 2 <= 32) by (unfold GD_CHECKSUM; lia). split.
  + rewrite <-(bitmap_roundtrip false ctx gd bb) by done. fold gd1.
    apply verify_bitmap_ext; [lia|..]; intros; rewrite Hread, update_bitmap_read by lia; done.
  + rewrite <-(bitmap_roundtrip true ctx gd1 ib) by (done || lia).
    apply verify_bitmap_ext; [by rewrite zlen_update_bitmap, Hz|..]; intros; rewrite Hread by lia; done.
Qed.

(** C18: for every kind of checksummed metadata, what the update routine writes
    is accepted by the verification, whatever the buffer held; the routines on
    a group's descriptor do not disturb each other, in the order in which the
    code applies them; and an inode keeps everything but its checksum. *)
Theorem metadata_checksums_agree (ctx : MetadataContext) (Hs : in_width 32 (checksum_seed ctx)) :
  (forall raw raw', update_superblock_checksum raw = Ok raw' -> verify_superblock_checksum raw' = true) /\
  (forall ino raw raw', update_inode_checksum ctx ino raw = Ok raw' ->
     verify_inode_checksum ctx ino raw' = Ok true /\ inode_cleared raw' = inode_cleared raw) /\
  (forall ino gen block block', update_extent_block_checksum ctx ino gen block = Ok block' ->
     verify_extent_block_checksum ctx ino gen block' = Ok true) /\
  (forall g gd bb ib gd', 32 <= zlen gd ->
     update_group_descriptor_checksum ctx g
       (update_inode_bitmap_checksum ctx (update_block_bitmap_checksum ctx gd bb) ib) = Ok gd' ->
     verify_group_descriptor_checksum ctx g gd' = Ok true /\
     verify_block_bitmap_checksum ctx gd' bb = Ok true /\
     verify_inode_bitmap_checksum ctx gd' ib = Ok true).
Proof.
  split; [|split; [|split]].
  - intros raw raw' H. by apply superblock_roundtrip in H as [? _].
  - intros ino raw raw' H. by apply inode_roundtrip in H as (? & _ & ?).
  - intros ino gen b b' H. by apply extent_roundtrip in H as [? _].
  - intros g gd bb ib gd' Hl H. by apply descriptor_roundtrip in H.
Qed.

Definition demo_context : MetadataContext :=
  context_of (superblock_fields (write_le32 demo_superblock 0x64 0x400)) (write_le32 demo_superblock 0x64 0x400).

Lemma metadata_checksums_agree_witness :
  in_width 32 (checksum_seed demo_context) /\
  let block := write_le16 (write_le16 (zeros 40) 0 0xf30a) 4 2 in
  exists block', update_extent_block_checksum demo_context 12 7 block = Ok block' /\
    verify_extent_block_checksum demo_context 12 7 block' = Ok true.
Proof.
  assert (Hs : in_width 32 (checksum_seed demo_context)) by (vm_compute; split; [discriminate|reflexivity]).
  split; [exact Hs|]. eexists. split; [vm_compute; reflexivity|].
  apply (metadata_checksums_agree demo_context Hs) with (block := write_le16 (write_le16 (zeros 40) 0 0xf30a) 4 2).
  vm_compute. reflexivity.
Defined.

(** ** Damage *)

(** Two checksummed ranges that differ inside a window of four bytes. *)
Lemma crc32c_window pre x y post c n :
  in_width 32 c -> length x = length y -> (length x <= 4)%nat ->
  zlen pre + zlen x <= n ->
  crc32c (slice (pre ++ x ++ post) 0 n) c = crc32c (slice (pre ++ y ++ post) 0 n) c -> x = y.
Proof.
  intros Hc Hxy H4 Hn E. assert (Hz : zlen x = zlen y) by (unfold zlen; lia).
  pose proof (zlen_nonneg pre). pose proof (zlen_nonneg x).
  assert (Hs : forall z, zlen z = zlen x ->
    slice (pre ++ z ++ post) 0 n = pre ++ z ++ slice post 0 (n - zlen pre - zlen x)).
  { intros z Hzx. unfold slice. rewrite !drop_0, !take_app.
    unfold zlen in *. rewrite !take_ge by lia. do 3 f_equal. lia. }
  rewrite !Hs in E by lia. rewrite !crc32c_ref in E by done.
  destruct (decide (x = y)) as [|Hne]; [done|]. exfalso. revert E.
  apply crc_ref_burst; eauto with fsx.
Qed.

(** A read behind the window. *)
Lemma read_behind w pre x y post n :
  zlen x = zlen y -> zlen pre + zlen x <= n -> n + Z.of_nat w <= zlen (pre ++ x ++ post) ->
  read_le w (pre ++ x ++ post) n = read_le w (pre ++ y ++ post) n.
Proof.
  intros Hz Hn Hl. pose proof (zlen_nonneg pre). pose proof (zlen_nonneg x). rewrite !zlen_app in Hl.
  apply read_le_ext; rewrite ?zlen_app; try lia.
  rewrite !app_assoc, !slice_app_r by (rewrite zlen_app; lia). by rewrite !zlen_app, Hz.
Qed.


