(* ===== verification/MetadataCheck.v ===== *)
(** The verification of a whole file system's metadata ([verify_metadata] of
    src/ext4/metadata.cpp).

    The progress callback only reports and is left out; so are the fields of
    the report that nothing sets. *)
From S2P Require Import Prelude Errors Endian Crc Host Device Durable Ext4 Allocation Metadata.
#[local] Open Scope Z_scope.

Record MetadataIntegrityReport := mkIntegrity {
  m_clean : bool;
  superblock_checksum_present : bool;
  superblock_checksum_valid : bool;
  m_groups_checked : Z;
  group_desc_checksum_failures : Z;
  block_bitmap_checksum_failures : Z;
  inode_bitmap_checksum_failures : Z;
  block_count_mismatches : Z;
  inode_count_mismatches : Z;
  inode_checksums_checked : Z;
  inode_checksum_failures : Z;
  allocated_blocks_from_bitmaps : Z;
  allocated_inodes_from_bitmaps : Z;
  m_errors : list string
}.

(** The counters of the report that come with a message. *)
Inductive Mistake :=
  | wrong_group_desc | wrong_block_bitmap | wrong_inode_bitmap
  | wrong_block_count | wrong_inode_count | wrong_inode.
#[export] Instance Mistake_eq_dec : EqDecision Mistake.
Proof. solve_decision. Defined.

(** [++counter; out.errors.push_back(msg)]. *)
Definition note (w : Mistake) (msg : string) (r : MetadataIntegrityReport) : MetadataIntegrityReport :=
  let inc v n := if bool_decide (w = v) then n + 1 else n in
  mkIntegrity (m_clean r) (superblock_checksum_present r) (superblock_checksum_valid r)
    (m_groups_checked r) (inc wrong_group_desc (group_desc_checksum_failures r))
    (inc wrong_block_bitmap (block_bitmap_checksum_failures r))
    (inc wrong_inode_bitmap (inode_bitmap_checksum_failures r))
    (inc wrong_block_count (block_count_mismatches r))
    (inc wrong_inode_count (inode_count_mismatches r)) (inode_checksums_checked r)
    (inc wrong_inode (inode_checksum_failures r)) (allocated_blocks_from_bitmaps r)
    (allocated_inodes_from_bitmaps r) (m_errors r ++ [msg]).
Definition note_if (b : bool) (w : Mistake) (msg : string) (r : MetadataIntegrityReport) :=
  if b then note w msg r else r.
Definition count_inode (r : MetadataIntegrityReport) : MetadataIntegrityReport :=
  mkIntegrity (m_clean r) (superblock_checksum_present r) (superblock_checksum_valid r)
    (m_groups_checked r) (group_desc_checksum_failures r) (block_bitmap_checksum_failures r)
    (inode_bitmap_checksum_failures r) (block_count_mismatches r) (inode_count_mismatches r)
    (inode_checksums_checked r + 1) (inode_checksum_failures r) (allocated_blocks_from_bitmaps r)
    (allocated_inodes_from_bitmaps r) (m_errors r).

(** The first inode of a group and the number of its inodes. *)
Definition first_inode_of (s : Superblock) (g : Z) : Z := g * inodes_per_group s + 1.
Definition group_inode_count (s : Superblock) (g : Z) : Z :=
  let first := first_inode_of s g in
  let remain := if first <=? inodes_count s then inodes_count s - first + 1 else 0 in
  Z.min (inodes_per_group s) remain.

(** The loop over the inodes of a group. *)
Fixpoint verify_inodes (n : nat) (dev : BlockDevice) (ctx : MetadataContext) (ib : bytes)
    (first i : Z) (r : MetadataIntegrityReport) : M MetadataIntegrityReport :=
  match n with
  | O => mret r
  | S n =>
      if negb (bit_set ib i) then verify_inodes n dev ctx ib first (i + 1) r
      else
        let ino := first + i in
        inode ← read_inode_raw dev ctx ino;
        if read_le16 inode 0 =? 0 then verify_inodes n dev ctx ib first (i + 1) r
        else
          ok ← lift (verify_inode_checksum ctx ino inode);
          let r := note_if (negb ok) wrong_inode ("inode " +:+ pretty ino +:+ " checksum mismatch")
                     (count_inode r) in
          verify_inodes n dev ctx ib first (i + 1) r
  end.

(** One round of the loop over the groups: the report, the used blocks and the
    used inodes of the group. *)
Definition verify_group (dev : BlockDevice) (ctx : MetadataContext) (scan_inodes : bool) (g : Z)
    (r : MetadataIntegrityReport) : M (MetadataIntegrityReport * Z * Z) :=
  let s := sb ctx in
  let name := "group " +:+ pretty g in
  gd_raw ← read_group_descriptor_raw dev ctx g;
  gd_ok ← lift (verify_group_descriptor_checksum ctx g gd_raw);
  let r := note_if (negb gd_ok) wrong_group_desc (name +:+ " descriptor checksum mismatch") r in
  gd ← read_group_desc dev s g;
  bb ← read_block_bitmap dev s gd;
  ib ← read_inode_bitmap dev s gd;
  bbc ← lift (verify_block_bitmap_checksum ctx gd_raw bb);
  let r := note_if (negb bbc) wrong_block_bitmap (name +:+ " block bitmap checksum mismatch") r in
  ibc ← lift (verify_inode_bitmap_checksum ctx gd_raw ib);
  let r := note_if (negb ibc) wrong_inode_bitmap (name +:+ " inode bitmap checksum mismatch") r in
  let gb := group_block_count s g in
  let ba := count_bits bb gb in
  let r := note_if (negb (gb - ba =? g_free_blocks gd)) wrong_block_count
             (name +:+ " free-block count mismatch") r in
  let icount := group_inode_count s g in
  let ia := count_bits ib icount in
  let r := note_if (negb (icount - ia =? g_free_inodes gd)) wrong_inode_count
             (name +:+ " free-inode count mismatch") r in
  r ← (if scan_inodes && metadata_csum ctx && negb (has_flag (flags gd) BG_INODE_UNINIT)
       then verify_inodes (Z.to_nat icount) dev ctx ib (first_inode_of s g) 0 r
       else mret r);
  mret (r, ba, ia).

Fixpoint verify_groups (n : nat) (dev : BlockDevice) (ctx : MetadataContext) (scan_inodes : bool)
    (g : Z) (r : MetadataIntegrityReport) (blocks inodes : Z) : M (MetadataIntegrityReport * Z * Z) :=
  match n with
  | O => mret (r, blocks, inodes)
  | S n =>
      stop ← cancel_requested;
      if (stop : bool) then failM unsafe "metadata verification cancelled"
      else
        p ← verify_group dev ctx scan_inodes g r;
        verify_groups n dev ctx scan_inodes (g + 1) p.1.1 (blocks + p.1.2) (inodes + p.2)
  end.

Definition verify_metadata (dev : BlockDevice) (scan_inodes : bool) : M MetadataIntegrityReport :=
  raw ← read_raw_superblock dev;
  s ← read_superblock dev;
  let valid := verify_superblock_checksum raw in
  let groups_of r n := mkIntegrity (m_clean r) (superblock_checksum_present r)
    (superblock_checksum_valid r) n 0 0 0 0 0 0 0 0 0 (m_errors r) in
  let r := mkIntegrity valid (has_flag (feature_ro_compat s) RO_METADATA_CSUM) valid 0 0 0 0 0 0 0 0 0 0
             (if valid then [] else ["superblock checksum mismatch"%string]) in
  ctx ← load_metadata_context dev false;
  let s := sb ctx in
  let groups := groups_count s in
  p ← verify_groups (Z.to_nat groups) dev ctx scan_inodes 0 (groups_of r groups) 0 0;
  let r := note_if (negb (p.1.2 =? u64 (blocks_count s - free_blocks s))) wrong_block_count
             "superblock free-block count disagrees with allocation bitmaps" p.1.1 in
  let r := note_if (negb (u64 (inodes_count s - free_inodes s) =? p.2)) wrong_inode_count
             "superblock free-inode count disagrees with inode bitmaps" r in
  mret (mkIntegrity (bool_decide (m_errors r = [])) (superblock_checksum_present r)
          (superblock_checksum_valid r) (m_groups_checked r) (group_desc_checksum_failures r)
          (block_bitmap_checksum_failures r) (inode_bitmap_checksum_failures r)
          (block_count_mismatches r) (inode_count_mismatches r) (inode_checksums_checked r)
          (inode_checksum_failures r) p.1.2 p.2 (m_errors r)).

(** ** What the verification decides of an image *)

Definition desc_off (s : Superblock) (g : Z) : Z :=
  let table_block := if block_size s =? 1024 then 2 else 1 in
  table_block * block_size s + g * desc_bytes s.
Definition raw_desc (base : bytes) (s : Superblock) (g : Z) : bytes :=
  slice base (desc_off s g) (desc_bytes s).
Definition block_bitmap_at (base : bytes) (s : Superblock) (g : Z) : bytes :=
  slice base (block_bitmap (desc_at base s g) * block_size s) (block_size s).
Definition inode_bitmap_at (base : bytes) (s : Superblock) (g : Z) : bytes :=
  slice base (inode_bitmap (desc_at base s g) * block_size s) (block_size s).
Definition inode_off (base : bytes) (s : Superblock) (ino : Z) : Z :=
  let z := ino - 1 in
  inode_table (desc_at base s (z / inodes_per_group s)) * block_size s
  + z mod inodes_per_group s * inode_size s.
Definition inode_at (base : bytes) (s : Superblock) (ino : Z) : bytes :=
  slice base (inode_off base s ino) (inode_size s).
Definition used_blocks_of (base : bytes) (s : Superblock) (g : Z) : Z :=
  count_bits (block_bitmap_at base s g) (group_block_count s g).
Definition used_inodes_of (base : bytes) (s : Superblock) (g : Z) : Z :=
  count_bits (inode_bitmap_at base s g) (group_inode_count s g).
(** The total of [f] over the groups. *)
Definition over_groups (f : Z -> Z) (g n : Z) : Z := foldr (fun k a => f k + a) 0 (seqZ g n).

Definition inode_sound (ctx : MetadataContext) (base : bytes) (ib : bytes) (first i : Z) : Prop :=
  let inode := inode_at base (sb ctx) (first + i) in
  bit_set ib i = true -> read_le16 inode 0 <> 0 -> verify_inode_checksum ctx (first + i) inode = Ok true.

(** The checksums and the counters of a group agree with its contents. *)
Record group_sound (ctx : MetadataContext) (scan_inodes : bool) (base : bytes) (g : Z) : Prop := {
  sound_desc : verify_group_descriptor_checksum ctx g (raw_desc base (sb ctx) g) = Ok true;
  sound_blocks : verify_block_bitmap_checksum ctx (raw_desc base (sb ctx) g)
                   (block_bitmap_at base (sb ctx) g) = Ok true;
  sound_inodes : verify_inode_bitmap_checksum ctx (raw_desc base (sb ctx) g)
                   (inode_bitmap_at base (sb ctx) g) = Ok true;
  sound_block_count : group_block_count (sb ctx) g - used_blocks_of base (sb ctx) g
                      = g_free_blocks (desc_at base (sb ctx) g);
  sound_inode_count : group_inode_count (sb ctx) g - used_inodes_of base (sb ctx) g
                      = g_free_inodes (desc_at base (sb ctx) g);
  sound_table : scan_inodes && metadata_csum ctx
                && negb (has_flag (flags (desc_at base (sb ctx) g)) BG_INODE_UNINIT) = true ->
    forall i, 0 <= i < group_inode_count (sb ctx) g ->
      inode_sound ctx base (inode_bitmap_at base (sb ctx) g) (first_inode_of (sb ctx) g) i
}.

(** [r'] is [r] with a message exactly when [P] fails. *)
Definition adds (r : MetadataIntegrityReport) (P : Prop) (r' : MetadataIntegrityReport) : Prop :=
  (m_errors r' = [] <-> m_errors r = [] /\ P) /\
  superblock_checksum_valid r' = superblock_checksum_valid r.

Lemma adds_refl r P : P -> adds r P r.
Proof. intros HP. split; [tauto|done]. Qed.
Lemma adds_weaken r r' P Q : adds r P r' -> (P <-> Q) -> adds r Q r'.
Proof. intros [H ?] HPQ. split; [|done]. rewrite H, HPQ. done. Qed.
Lemma adds_trans r r1 r2 P Q : adds r P r1 -> adds r1 Q r2 -> adds r (P /\ Q) r2.
Proof. intros [H1 E1] [H2 E2]. split; [|congruence]. rewrite H2, H1. tauto. Qed.
Lemma adds_note_if (b : bool) w msg r : adds r (b = false) (note_if b w msg r).
Proof.
  destruct b; cbn [note_if]; [|by apply adds_refl]. split; [|done]. cbn [note m_errors].
  split; [by intros []%app_nil|by intros [_ ?]].
Qed.
Lemma adds_count r P r' : adds (count_inode r) P r' -> adds r P r'.
Proof. done. Qed.
(** A check that returned [Ok ok] is noted when [ok] is false. *)
Lemma adds_checked (v : Result bool) ok w msg r : v = Ok ok -> adds r (v = Ok true) (note_if (negb ok) w msg r).
Proof. intros ->. eapply adds_weaken; [apply adds_note_if|]. destruct ok; cbn; split; congruence. Qed.

(** What the readers of a group return, also while writes are pending. *)
Section Readers.
Context (d : BlockDevice) (dur : bytes) (ws : list (Z * bytes)) (ctx : MetadataContext).
Context (Hgeo : geometry_ok (sb ctx)).

Let s := sb ctx.
Let base := put_all ws dur.

Lemma geo_block_size : 1024 <= block_size s <= 65536.
Proof. destruct Hgeo. by apply block_size_cases. Qed.

Lemma desc_bytes_pos : 32 <= desc_bytes s.
Proof. unfold desc_bytes. destruct (Z.leb_spec 32 (desc_size s)); lia. Qed.

Lemma desc_at_nonneg img g : 0 <= block_bitmap (desc_at img s g) /\ 0 <= inode_bitmap (desc_at img s g) /\
  0 <= inode_table (desc_at img s g).
Proof. split_and!; apply (join32_width _ _ (read_le_bound 4 _ _)). Qed.

Lemma reads_descriptor g h :
  wstate d dur ws h -> 0 <= g ->
  yields (read_group_descriptor_raw d ctx g) h (fun raw =>
    raw = raw_desc base s g /\ zlen raw = desc_bytes s /\ desc_off s g + desc_bytes s <= zlen dur).
Proof.
  intros Hw Hg. pose proof geo_block_size. pose proof desc_bytes_pos. unfold read_group_descriptor_raw.
  cbv zeta. fold s. repeat (case_match; [apply yields_failM|]).
  eapply yields_mono; [apply (yields_read d dur ws); [done|..]|done].
  all: case_match; nia.
Qed.

Lemma reads_desc g h :
  wstate d dur ws h -> 0 <= g ->
  yields (read_group_desc d s g) h (fun gd =>
    gd = desc_at base s g /\ check_group_desc s gd = Ok tt).
Proof.
  intros Hw Hg. eapply wp_mono; [by apply (read_group_desc_spec d dur ws)|].
  intros o h' (? & ? & Hv). split_and!; [done|done|]. intros gd ->. by destruct (Hv gd eq_refl) as (-> & ? & _).
Qed.

Lemma reads_block_bitmap g h :
  wstate d dur ws h ->
  yields (read_block_bitmap d s (desc_at base s g)) h (fun b =>
    b = block_bitmap_at base s g /\ zlen b = block_size s /\
    block_bitmap (desc_at base s g) * block_size s + block_size s <= zlen dur).
Proof.
  intros Hw. pose proof geo_block_size. destruct (desc_at_nonneg base g) as (? & _).
  unfold read_block_bitmap. cbv zeta. repeat (case_match; [apply yields_failM|]).
  eapply yields_mono; [apply (yields_read d dur ws); [done|nia|lia]|done].
Qed.
Lemma reads_inode_bitmap g h :
  wstate d dur ws h ->
  yields (read_inode_bitmap d s (desc_at base s g)) h (fun b => b = inode_bitmap_at base s g).
Proof.
  intros Hw. pose proof geo_block_size. destruct (desc_at_nonneg base g) as (_ & ? & _).
  unfold read_inode_bitmap. cbv zeta. repeat (case_match; [apply yields_failM|]).
  eapply yields_mono; [apply (yields_read d dur ws); [done|nia|lia]|by intros raw (-> & _)].
Qed.

Lemma reads_inode_offset ino h :
  wstate d dur ws h -> 0 < ino ->
  yields (inode_offset d ctx ino) h (fun off => off = inode_off base s ino /\ 0 <= off).
Proof.
  intros Hw Hi. pose proof geo_block_size. pose proof Hgeo as [_ _ G3 _ _ _ G7]. fold s in G3, G7.
  pose proof (Z.mod_pos_bound (ino - 1) (inodes_per_group s) ltac:(lia)).
  assert (0 <= (ino - 1) / inodes_per_group s) by (apply Z.div_pos; lia).
  set (z := (ino - 1) / inodes_per_group s) in *.
  destruct (desc_at_nonneg base z) as (_ & _ & ?).
  unfold inode_offset. cbv zeta. fold s. case_match; [apply yields_failM|]. fold z.
  step Hw by (by apply reads_desc) as gd Hgd. destruct Hgd as [-> _].
  repeat (case_match; [apply yields_failM|]). apply yields_ret. split; [done|nia].
Qed.

Lemma reads_inode ino h :
  wstate d dur ws h -> 0 < ino ->
  yields (read_inode_raw d ctx ino) h (fun b => b = inode_at base s ino /\
    zlen b = inode_size s /\ inode_off base s ino + inode_size s <= zlen dur).
Proof.
  intros Hw Hi. pose proof geo_block_size. pose proof Hgeo as [_ _ _ _ _ _ G7]. fold s in G7.
  unfold read_inode_raw. fold s. step Hw by (by apply reads_inode_offset) as off Ho. destruct Ho as [-> ?].
  eapply yields_mono; [apply (yields_read d dur ws); [done|lia|lia]|done].
Qed.

End Readers.

Section Verify.
Context (d : BlockDevice) (base : bytes) (ctx : MetadataContext).
Context (Hgeo : geometry_ok (sb ctx)).

Let s := sb ctx.

Lemma yields_descriptor g h :
  wstate d base [] h -> 0 <= g -> yields (read_group_descriptor_raw d ctx g) h (fun raw => raw = raw_desc base s g).
Proof. intros. eapply yields_mono; [by apply (reads_descriptor d base [])|by intros ? [-> _]]. Qed.
Lemma yields_desc g h :
  wstate d base [] h -> 0 <= g -> yields (read_group_desc d s g) h (fun gd => gd = desc_at base s g).
Proof. intros. eapply yields_mono; [by apply (reads_desc d base [])|by intros ? [-> _]]. Qed.
Lemma yields_block_bitmap g h :
  wstate d base [] h ->
  yields (read_block_bitmap d s (desc_at base s g)) h (fun b => b = block_bitmap_at base s g).
Proof. intros. eapply yields_mono; [by apply (reads_block_bitmap d base [])|by intros ? [-> _]]. Qed.
Lemma yields_inode_bitmap g h :
  wstate d base [] h ->
  yields (read_inode_bitmap d s (desc_at base s g)) h (fun b => b = inode_bitmap_at base s g).
Proof. by apply (reads_inode_bitmap d base []). Qed.
Lemma yields_inode ino h :
  wstate d base [] h -> 0 < ino -> yields (read_inode_raw d ctx ino) h (fun b => b = inode_at base s ino).
Proof. intros. eapply yields_mono; [by apply (reads_inode d base [])|by intros ? [-> _]]. Qed.

Lemma first_inode_pos g : 0 <= g -> 0 < first_inode_of s g.
Proof. intros. pose proof Hgeo as [_ _ G3 _ _ _ _]. fold s in G3. unfold first_inode_of. nia. Qed.

Lemma verify_inodes_spec n ib first i r h :
  wstate d base [] h -> 0 < first -> 0 <= i ->
  yields (verify_inodes n d ctx ib first i r) h
    (adds r (forall j, i <= j < i + Z.of_nat n -> inode_sound ctx base ib first j)).
Proof.
  revert i r h. induction n as [|n IH]; intros i r h Hw Hf Hi; cbn [verify_inodes].
  { apply yields_ret, adds_refl. lia. }
  assert (Hrest : forall r1 (P : Prop) h1, wstate d base [] h1 -> adds r P r1 ->
    (P <-> inode_sound ctx base ib first i) ->
    yields (verify_inodes n d ctx ib first (i + 1) r1) h1
      (adds r (forall j, i <= j < i + Z.of_nat (S n) -> inode_sound ctx base ib first j))).
  { intros r1 P h1 Hw1 Ha HP. eapply yields_mono; [apply IH; [exact Hw1|done|lia]|].
    intros r2 Hr2. eapply adds_weaken; [exact (adds_trans _ _ _ _ _ Ha Hr2)|]. rewrite HP. split.
    - intros [H0 Hn] j Hj. destruct (Z.eq_dec j i) as [->|]; [done|]. apply Hn. lia.
    - intros H. split; [apply H; lia|]. intros j Hj. apply H. lia. }
  destruct (bit_set ib i) eqn:Eb; cbn [negb].
  2: { apply (Hrest r True h Hw); [by apply adds_refl|]. split; [|done]. intros _ Hb. congruence. }
  step Hw by (apply yields_inode; [exact Hw|lia]) as inode Hin. subst inode.
  destruct (Z.eqb_spec (read_le16 (inode_at base s (first + i)) 0) 0) as [E0|E0].
  { eapply (Hrest r True); [exact Hw|by apply adds_refl|]. split; [|done]. by intros _ _ Hn. }
  step Hw by (apply yields_lift; intros ok Hok; exact Hok) as ok Hok.
  eapply Hrest; [exact Hw|apply adds_count, adds_checked, Hok|].
  unfold inode_sound. cbv zeta. fold s. tauto.
Qed.

Lemma verify_table_spec (c : bool) ib g r h :
  wstate d base [] h -> 0 <= g ->
  yields (if c then verify_inodes (Z.to_nat (group_inode_count s g)) d ctx ib (first_inode_of s g) 0 r
          else mret r) h
    (adds r (c = true -> forall i, 0 <= i < group_inode_count s g ->
       inode_sound ctx base ib (first_inode_of s g) i)).
Proof.
  intros Hw Hg. destruct c; [|by apply yields_ret, adds_refl].
  eapply yields_mono; [apply verify_inodes_spec; [exact Hw|by apply first_inode_pos|lia]|].
  intros r' Ha. eapply adds_weaken; [exact Ha|]. split.
  - intros H _ i Hi. apply H. lia.
  - intros H i Hi. apply H; [done|]. lia.
Qed.

Lemma verify_group_spec scan g r h :
  wstate d base [] h -> 0 <= g ->
  yields (verify_group d ctx scan g r) h (fun p =>
    adds r (group_sound ctx scan base g) p.1.1 /\
    p.1.2 = used_blocks_of base s g /\ p.2 = used_inodes_of base s g).
Proof.
  intros Hw Hg. unfold verify_group. cbv zeta. fold s.
  step Hw by (by apply yields_descriptor) as raw Hraw. subst raw.
  step Hw by (apply yields_lift; intros v Hv; exact Hv) as ok1 H1.
  step Hw by (by apply yields_desc) as gd Hgd. subst gd.
  step Hw by (by apply yields_block_bitmap) as bb Hbb. subst bb.
  step Hw by (by apply yields_inode_bitmap) as ib Hib. subst ib.
  step Hw by (apply yields_lift; intros v Hv; exact Hv) as ok2 H2.
  step Hw by (apply yields_lift; intros v Hv; exact Hv) as ok3 H3.
  fold (used_blocks_of base s g) (used_inodes_of base s g).
  set (r1 := note_if (negb ok1) _ _ r). assert (A1 := adds_checked _ ok1 _ _ r H1 : adds r _ r1).
  set (r2 := note_if (negb ok2) _ _ r1). assert (A2 := adds_checked _ ok2 _ _ r1 H2 : adds r1 _ r2).
  set (r3 := note_if (negb ok3) _ _ r2). assert (A3 := adds_checked _ ok3 _ _ r2 H3 : adds r2 _ r3).
  set (r4 := note_if (negb (_ =? g_free_blocks _)) _ _ r3). assert (A4 := adds_note_if _ _ _ r3 : adds r3 _ r4).
  set (r5 := note_if (negb (_ =? g_free_inodes _)) _ _ r4). assert (A5 := adds_note_if _ _ _ r4 : adds r4 _ r5).
  pose proof (adds_trans _ _ _ _ _ A1 (adds_trans _ _ _ _ _ A2 (adds_trans _ _ _ _ _ A3
    (adds_trans _ _ _ _ _ A4 A5)))) as A.
  step Hw by (apply verify_table_spec; [exact Hw|done]) as r6 A6.
  apply yields_ret. cbn [fst snd]. split; [|done].
  eapply adds_weaken; [exact (adds_trans _ _ _ _ _ A A6)|]. rewrite !negb_false_iff, !Z.eqb_eq. split.
  - intros ((B1 & B2 & B3 & B4 & B5) & B6). by split.
  - intros [B1 B2 B3 B4 B5 B6]. by split_and!.
Qed.

Lemma over_groups_S f g n : 0 <= n -> over_groups f g (n + 1) = f g + over_groups f (g + 1) n.
Proof.
  intros. unfold over_groups. rewrite (seqZ_cons g) by lia. cbn [foldr].
  by replace (Z.pred (n + 1)) with n by lia.
Qed.

Lemma verify_groups_spec n scan g r blocks inodes h :
  wstate d base [] h -> 0 <= g ->
  yields (verify_groups n d ctx scan g r blocks inodes) h (fun p =>
    adds r (forall j, g <= j < g + Z.of_nat n -> group_sound ctx scan base j) p.1.1 /\
    p.1.2 = blocks + over_groups (used_blocks_of base s) g (Z.of_nat n) /\
    p.2 = inodes + over_groups (used_inodes_of base s) g (Z.of_nat n)).
Proof.
  revert g r blocks inodes h. induction n as [|n IH]; intros g r blocks inodes h Hw Hg; cbn [verify_groups].
  { apply yields_ret. assert (E : forall f, over_groups f g (Z.of_nat 0) = 0) by done.
    rewrite !E. cbn [fst snd]. split_and!; [apply adds_refl; lia|lia|lia]. }
  step Hw by (eapply yields_cancel, Hw) as stop Hst. destruct stop; [apply yields_failM|].
  step Hw by (by apply verify_group_spec) as q Hq. destruct q as [[r1 b1] i1]. cbn [fst snd] in *.
  destruct Hq as (A1 & -> & ->).
  eapply yields_mono; [apply IH; [exact Hw|lia]|]. intros p (A2 & -> & ->).
  replace (Z.of_nat (S n)) with (Z.of_nat n + 1) by lia. rewrite !over_groups_S by lia.
  split_and!; [|lia|lia]. eapply adds_weaken; [exact (adds_trans _ _ _ _ _ A1 A2)|]. split.
  - intros [H0 Hn] j Hj. destruct (Z.eq_dec j g) as [->|]; [done|]. apply Hn. lia.
  - intros H. split; [apply H; lia|]. intros j Hj. apply H. lia.
Qed.

End Verify.

Lemma ro_compat_field b : feature_ro_compat (superblock_fields b) = read_le32 b 0x64.
Proof. reflexivity. Qed.

Lemma context_valid s b :
  zlen b = 1024 -> feature_ro_compat s = read_le32 b 0x64 ->
  metadata_csum (context_of s b) && negb (verify_superblock_checksum b) && negb false = false ->
  verify_superblock_checksum b = true.
Proof.
  intros Hz Hro E. rewrite andb_true_r in E. unfold context_of in E. cbn [metadata_csum] in E.
  rewrite Hro in E. unfold verify_superblock_checksum in *. rewrite Hz in *.
  destruct (has_flag _ _); cbn [negb andb] in *; [|done]. by destruct (_ =? _).
Qed.

Lemma superblock_geometry b dev_bytes :
  check_superblock (superblock_fields b) dev_bytes = Ok tt -> geometry_ok (superblock_fields b).
Proof.
  intros Hchk. destruct (superblock_fields_width b) as (W1 & W2 & W3 & W4 & W5 & W6 & W7).
  exact (proj1 (check_superblock_geometry _ _ W1 W2 W3 W4 W5 W6 W7 Hchk)).
Qed.

Lemma yields_context d base h :
  wstate d base [] h ->
  yields (load_metadata_context d false) h (fun ctx =>
    let raw := slice base 1024 1024 in
    ctx = context_of (superblock_fields raw) raw /\ geometry_ok (sb ctx) /\
    verify_superblock_checksum raw = true).
Proof.
  intros Hw. unfold load_metadata_context, read_raw_superblock. cbv zeta.
  step Hw by (exact (read_superblock_spec d base [] h Hw)) as s Hs. destruct Hs as (-> & Hchk & Hroom).
  cbn [put_all foldl] in *.
  step Hw by (apply (yields_read d base [] 1024 1024); [exact Hw|lia|lia]) as raw Hraw.
  destruct Hraw as (-> & Hz & _). cbn [put_all foldl] in *.
  set (b := slice base 1024 1024) in *.
  pose proof (superblock_geometry b _ Hchk) as Hgeo. pose proof (ro_compat_field b) as Hro.
  set (s := superblock_fields b) in *. clearbody s. clear Hchk.
  destruct (_ && _ && _) eqn:E; [apply yields_failM|]. apply yields_ret.
  split; [done|]. split; [exact Hgeo|]. by apply (context_valid s).
Qed.

Lemma verify_metadata_spec (d : BlockDevice) (base : bytes) (scan_inodes : bool) (h : Host)
    (Hw : wstate d base [] h) :
  let raw := slice base 1024 1024 in
  let s := superblock_fields raw in
  let n := groups_count s in
  yields (verify_metadata d scan_inodes) h (fun r =>
    superblock_checksum_valid r = true /\
    allocated_blocks_from_bitmaps r = over_groups (used_blocks_of base s) 0 n /\
    allocated_inodes_from_bitmaps r = over_groups (used_inodes_of base s) 0 n /\
    (m_clean r = true <->
      (forall g, 0 <= g < n -> group_sound (context_of s raw) scan_inodes base g) /\
      over_groups (used_blocks_of base s) 0 n = u64 (blocks_count s - free_blocks s) /\
      over_groups (used_inodes_of base s) 0 n = u64 (inodes_count s - free_inodes s))).
Proof.
  cbv zeta. unfold verify_metadata, read_raw_superblock.
  step Hw by (apply (yields_read d base [] 1024 1024); [exact Hw|lia|lia]) as raw Hraw.
  destruct Hraw as (-> & _). cbn [put_all foldl] in *.
  step Hw by (exact (read_superblock_spec d base [] _ Hw)) as s Hs. destruct Hs as (Es & Hchk & _).
  cbn [put_all foldl] in *. rewrite <-Es.
  assert (Hgeo : geometry_ok s) by (subst s; by eapply superblock_geometry). clear Hchk.
  step Hw by (by apply yields_context) as ctx Hctx. destruct Hctx as (-> & _ & Hvalid). rewrite <-Es.
  set (b := slice base 1024 1024) in *. set (ctx := context_of s b).
  clear Es. change (sb ctx) with s.
  assert (Hn : 0 <= groups_count s).
  { destruct Hgeo as [_ G2 _ G4 G5 G6 _]. destruct (groups_count_spec s); lia. }
  rewrite Hvalid. cbv zeta.
  step Hw by (apply (verify_groups_spec d base ctx Hgeo); [exact Hw|lia]) as p Hp.
  destruct Hp as (A & E1 & E2). rewrite Z2Nat.id, Z.add_0_l in * by done.
  change (sb ctx) with s in *. rewrite E1, E2. cbn [m_clean superblock_checksum_present
    superblock_checksum_valid m_errors] in A.
  set (r1 := note_if (negb (over_groups _ 0 _ =? _)) _ _ p.1.1).
  assert (A1 := adds_note_if _ _ _ p.1.1 : adds p.1.1 _ r1).
  set (r2 := note_if _ _ _ r1). assert (A2 := adds_note_if _ _ _ r1 : adds r1 _ r2).
  pose proof (adds_trans _ _ _ _ _ A (adds_trans _ _ _ _ _ A1 A2)) as [Ae Av].
  apply yields_ret. cbn [m_clean superblock_checksum_valid allocated_blocks_from_bitmaps
    allocated_inodes_from_bitmaps]. cbn [superblock_checksum_valid m_errors] in Av, Ae.
  split; [exact Av|]. split; [done|]. split; [done|].
  rewrite bool_decide_eq_true, Ae, !negb_false_iff, !Z.eqb_eq. split.
  - intros (_ & H1 & H2 & H3). by split_and!.
  - intros (H1 & H2 & H3). by split_and!.
Qed.


