(* ===== verification/Extents.v ===== *)
(** The extent trees of inodes (include/fsx/extents.hpp, src/ext4/extents.cpp).

    [std::sort] is a parameter [sort_by key] of the scans: some permutation
    ordered by the key.  The progress callback only reports and is left out. *)
From S2P Require Import Prelude Errors Endian Crc Host Device Durable Ext4 Metadata MetadataCheck.
#[local] Open Scope Z_scope.

Definition EXT4_EXTENTS_FL : Z := 0x00080000.
Definition EXTENT_MAGIC : Z := 0xf30a.
Definition INODE_I_BLOCK_OFF : Z := 40.
Definition INODE_I_BLOCK_LEN : Z := 60.
Definition INODE_FLAGS_OFF : Z := 32.
Definition INODE_GENERATION_OFF : Z := 100.

Inductive ExtentRefKind := inode_root | extent_block.

Record ExtentReference := mkReference {
  kind : ExtentRefKind;
  container_byte_offset : Z;
  container_block : Z;
  entry_offset : Z;
  tree_depth : Z
}.
Record OwnedExtent := mkOwned {
  o_inode : Z;
  logical_block : Z;
  physical_block : Z;
  o_length : Z;
  inode_generation : Z;
  unwritten : bool;
  reference : ExtentReference
}.
Record ExtentTreeBlock := mkTreeBlock {
  tb_inode : Z;
  tb_physical_block : Z;
  parent_container_byte_offset : Z;
  parent_entry_offset : Z;
  tb_depth : Z
}.
Record OwnerScan := mkScanOut {
  inodes_examined : Z;
  allocated_inodes : Z;
  extent_inodes : Z;
  legacy_blockmap_inodes : Z;
  total_extent_records : Z;
  retained_extent_blocks : Z;
  retained_tree_blocks : Z;
  extents : list OwnedExtent;
  tree_blocks : list ExtentTreeBlock
}.
Definition o_end (e : OwnedExtent) : Z := u64 (physical_block e + o_length e).

Record ParseCtx := mkCtx {
  c_dev : BlockDevice;
  c_sb : Superblock;
  c_inode : Z;
  generation : Z;
  retain_from : Z;
  metadata : MetadataContext
}.
(** What the parse changes: [c.visited] and [c.out]. *)
Record ParseState := mkParse {
  visited : gset Z;
  out : OwnerScan
}.

Definition inode_error {A} (c : ParseCtx) (msg : string) : Result A :=
  fail corrupt ("inode " +:+ pretty (c_inode c) +:+ msg).

(** The entry [i] of a node starts here. *)
Definition entry_off (i : Z) : Z := 12 + i * 12.

(** The fields of a leaf entry. *)
Definition leaf_entry (c : ParseCtx) (node : bytes) (i : Z) (container block : Z) (k : ExtentRefKind)
    : OwnedExtent :=
  let off := entry_off i in
  let raw_len := read_le16 node (off + 4) in
  mkOwned (c_inode c) (read_le32 node off) (join32 (read_le32 node (off + 8)) (read_le16 node (off + 6)))
    (if 32768 <? raw_len then raw_len - 32768 else raw_len) (generation c) (32768 <? raw_len)
    (mkReference k container block off 0).

Definition add_extent (c : ParseCtx) (e : OwnedExtent) (o : OwnerScan) : OwnerScan :=
  let keep := retain_from c <? o_end e in
  mkScanOut (inodes_examined o) (allocated_inodes o) (extent_inodes o) (legacy_blockmap_inodes o)
    (total_extent_records o + 1)
    (if keep then retained_extent_blocks o + o_length e else retained_extent_blocks o)
    (retained_tree_blocks o) (if keep then extents o ++ [e] else extents o) (tree_blocks o).

(** The loop over the entries of a leaf; [prev] is [last_logical_end], unset
    before the first entry. *)
Fixpoint leaf_loop (n : nat) (c : ParseCtx) (node : bytes) (i : Z) (container block : Z)
    (k : ExtentRefKind) (prev : option Z) (o : OwnerScan) : Result OwnerScan :=
  match n with
  | O => Ok o
  | S n =>
      let e := leaf_entry c node i container block k in
      let blocks := blocks_count (c_sb c) in
      if read_le16 node (entry_off i + 4) =? 0
      then inode_error c " contains zero-length extent"
      else if (physical_block e =? 0) || (blocks <=? physical_block e)
              || (blocks - physical_block e <? o_length e)
      then inode_error c " extent points outside filesystem"
      else if match prev with Some last => logical_block e <? last | None => false end
      then inode_error c " extent tree is not logically ordered"
      else leaf_loop n c node (i + 1) container block k (Some (logical_block e + o_length e))
             (add_extent c e o)
  end.

(** The child an index entry points to. *)
Definition index_child (node : bytes) (i : Z) : Z :=
  join32 (read_le32 node (entry_off i + 4)) (read_le16 node (entry_off i + 8)).

Definition add_tree_block (c : ParseCtx) (child container i depth : Z) (o : OwnerScan) : OwnerScan :=
  if retain_from c <=? child
  then mkScanOut (inodes_examined o) (allocated_inodes o) (extent_inodes o) (legacy_blockmap_inodes o)
         (total_extent_records o) (retained_extent_blocks o) (retained_tree_blocks o + 1) (extents o)
         (tree_blocks o ++ [mkTreeBlock (c_inode c) child container (entry_off i) (depth - 1)])
  else o.

(** The loop over the entries of an index node; [parse] is the recursive call
    for a child. *)
Fixpoint index_loop (parse : bytes -> Z -> Z -> ParseState -> M ParseState) (n : nat) (c : ParseCtx)
    (node : bytes) (depth i container : Z) (prev : option Z) (s : ParseState) : M ParseState :=
  match n with
  | O => mret s
  | S n =>
      let logical := read_le32 node (entry_off i) in
      let child := index_child node i in
      let bs := block_size (c_sb c) in
      if match prev with Some last => logical <=? last | None => false end
      then lift (inode_error c " extent index is not strictly ordered")
      else if (child =? 0) || (blocks_count (c_sb c) <=? child)
      then lift (inode_error c " extent index points outside filesystem")
      else if bool_decide (child ∈ visited s)
      then lift (inode_error c " extent tree contains a cycle")
      else
        let s := mkParse ({[child]} ∪ visited s) (add_tree_block c child container i depth (out s)) in
        buf ← read_exact (c_dev c) (u64 (child * bs)) bs;
        s ← parse buf (u64 (child * bs)) child s;
        index_loop parse n c node depth (i + 1) container (Some logical) s
  end.

(** The checks of a node before its entries are read. *)
Definition check_node (c : ParseCtx) (node : bytes) (expected_depth : Z) (k : ExtentRefKind)
    : Result unit :=
  if zlen node <? 12 then fail corrupt "extent node is truncated"
  else
    let? _ := match k with
              | extent_block =>
                  if metadata_csum (metadata c)
                  then
                    let? ok := verify_extent_block_checksum (metadata c) (c_inode c) (generation c) node in
                    if (ok : bool) then Ok tt else inode_error c " extent block checksum mismatch"
                  else Ok tt
              | inode_root => Ok tt
              end in
    let entries := read_le16 node 2 in
    let depth := read_le16 node 6 in
    if negb (read_le16 node 0 =? EXTENT_MAGIC) then inode_error c " has invalid extent magic"
    else if negb (depth =? expected_depth) then inode_error c " extent depth mismatch"
    else if 5 <? depth then inode_error c " extent tree depth is unreasonable"
    else if (read_le16 node 4 <? entries) || ((zlen node - 12) / 12 <? entries)
    then inode_error c " extent entry count exceeds node capacity"
    else Ok tt.

(** The recursion is on [expected_depth]. *)
Fixpoint parse_extent_node (depth : nat) (c : ParseCtx) (node : bytes) (container block : Z)
    (k : ExtentRefKind) (s : ParseState) : M ParseState :=
  lift (check_node c node (Z.of_nat depth) k);;
  let n := Z.to_nat (read_le16 node 2) in
  match depth with
  | O =>
      o ← lift (leaf_loop n c node 0 container block k None (out s));
      mret (mkParse (visited s) o)
  | S d =>
      index_loop (fun buf off child => parse_extent_node d c buf off child extent_block)
        n c node (Z.of_nat depth) 0 container None s
  end.

(** ** Scans *)

Definition empty_scan : OwnerScan := mkScanOut 0 0 0 0 0 0 0 [] [].

Definition inode_allocated (bm : bytes) (index : Z) : bool := bit_set bm index.

(** The root node inside an inode, and the parse that starts there. *)
Definition parse_inode (c : ParseCtx) (inode : bytes) (inode_abs : Z) (o : OwnerScan) : M OwnerScan :=
  let root := slice inode INODE_I_BLOCK_OFF INODE_I_BLOCK_LEN in
  let depth := if 8 <=? zlen root then read_le16 root 6 else 65535 in
  s ← parse_extent_node (Z.to_nat depth) c root (inode_abs + INODE_I_BLOCK_OFF) 0 inode_root
        (mkParse ∅ o);
  mret (out s).

(** [++out.x], ... of the scans. *)
Definition set_counts (examined allocated extent legacy : Z) (o : OwnerScan) : OwnerScan :=
  mkScanOut (inodes_examined o + examined) (allocated_inodes o + allocated) (extent_inodes o + extent)
    (legacy_blockmap_inodes o + legacy) (total_extent_records o) (retained_extent_blocks o)
    (retained_tree_blocks o) (extents o) (tree_blocks o).
Definition set_extents (es : list OwnedExtent) (o : OwnerScan) : OwnerScan :=
  mkScanOut (inodes_examined o) (allocated_inodes o) (extent_inodes o) (legacy_blockmap_inodes o)
    (total_extent_records o) (retained_extent_blocks o) (retained_tree_blocks o) es (tree_blocks o).

Definition has_extents (inode : bytes) : bool :=
  has_flag (read_le32 inode INODE_FLAGS_OFF) EXT4_EXTENTS_FL.
Definition inactive (inode : bytes) : bool :=
  (read_le16 inode 0 =? 0) || (read_le16 inode 26 =? 0).

Section Scans.
Context (sort_by : (OwnedExtent -> Z) -> list OwnedExtent -> list OwnedExtent).

Definition scan_specific_inode (dev : BlockDevice) (s : Superblock) (ino retain : Z) : M OwnerScan :=
  if (ino =? 0) || (inodes_count s <? ino)
  then failM invalid_argument "inode number outside filesystem"
  else
    let z := ino - 1 in
    let group := z / inodes_per_group s in
    let idx := z mod inodes_per_group s in
    gd ← read_group_desc dev s group;
    if has_flag (flags gd) BG_INODE_UNINIT then failM not_found "inode group is uninitialized"
    else
      ib ← read_inode_bitmap dev s gd;
      if negb (inode_allocated ib idx) then failM not_found "inode is not allocated"
      else
        let inode_abs := u64 (inode_table gd * block_size s + idx * inode_size s) in
        inode ← read_exact dev inode_abs (inode_size s);
        if inactive inode then failM not_found "inode is allocated but inactive"
        else
          mctx ← load_metadata_context dev false;
          if negb (has_extents inode) then mret (set_counts 1 1 0 1 empty_scan)
          else
            let c := mkCtx dev s ino (read_le32 inode INODE_GENERATION_OFF) retain mctx in
            o ← parse_inode c inode inode_abs (set_counts 1 1 1 0 empty_scan);
            mret (set_extents (sort_by logical_block (extents o)) o).

(** The loop over the inodes of a group's table. *)
Fixpoint owner_inodes (n : nat) (dev : BlockDevice) (s : Superblock) (mctx : MetadataContext)
    (retain : Z) (ib table : bytes) (table_abs first idx : Z) (o : OwnerScan) : M OwnerScan :=
  match n with
  | O => mret o
  | S n =>
      let next := owner_inodes n dev s mctx retain ib table table_abs first (idx + 1) in
      if negb (inode_allocated ib idx) then next (set_counts 1 0 0 0 o)
      else
        let off := idx * inode_size s in
        let inode := slice table off (inode_size s) in
        if inactive inode then next (set_counts 1 1 0 0 o)
        else if negb (has_extents inode) then next (set_counts 1 1 0 1 o)
        else
          let c := mkCtx dev s (first + idx) (read_le32 inode INODE_GENERATION_OFF) retain mctx in
          o ← parse_inode c inode (u64 (table_abs + off)) (set_counts 1 1 1 0 o);
          next o
  end.

Fixpoint owner_groups (n : nat) (dev : BlockDevice) (s : Superblock) (mctx : MetadataContext)
    (retain g : Z) (o : OwnerScan) : M OwnerScan :=
  match n with
  | O => mret o
  | S n =>
      stop ← cancel_requested;
      if (stop : bool) then failM unsafe "owner scan cancelled"
      else
        gd ← read_group_desc dev s g;
        if has_flag (flags gd) BG_INODE_UNINIT then owner_groups n dev s mctx retain (g + 1) o
        else
          ib ← read_inode_bitmap dev s gd;
          let count := group_inode_count s g in
          let table_bytes := count * inode_size s in
          let table_abs := u64 (inode_table gd * block_size s) in
          if u64_max <? table_bytes
          then failM unsupported "inode table is too large for address space"
          else
            table ← (if table_bytes =? 0 then mret [] else read_exact dev table_abs table_bytes);
            o ← owner_inodes (Z.to_nat count) dev s mctx retain ib table table_abs (first_inode_of s g) 0 o;
            owner_groups n dev s mctx retain (g + 1) o
  end.

(** The checks both scans make of a superblock. *)
Definition check_scan (s : Superblock) : Result unit :=
  if (inode_size s <? 128) || (block_size s <? inode_size s)
  then fail unsupported "unsupported ext inode size"
  else if has_flag (feature_incompat s) INCOMPAT_META_BG
  then fail unsupported "owner scan does not yet support meta_bg descriptor placement"
  else Ok tt.

Definition scan_extent_owners (dev : BlockDevice) (retain : Z) : M OwnerScan :=
  s ← read_superblock dev;
  mctx ← load_metadata_context dev false;
  lift (check_scan s);;
  let retain := Z.min retain (blocks_count s) in
  o ← owner_groups (Z.to_nat (groups_count s)) dev s mctx retain 0 empty_scan;
  mret (set_extents (sort_by physical_block (extents o)) o).

Definition scan_inode_extent_tree (dev : BlockDevice) (inode retain : Z) : M OwnerScan :=
  s ← read_superblock dev;
  lift (check_scan s);;
  scan_specific_inode dev s inode (Z.min retain (blocks_count s)).

Definition find_inode_extent (dev : BlockDevice) (inode logical : Z) : M OwnedExtent :=
  scan ← scan_inode_extent_tree dev inode 0;
  match List.find (fun e => (logical_block e <=? logical) && (logical <? logical_block e + o_length e))
          (extents scan) with
  | Some e => mret e
  | None => failM not_found "logical block is not covered by an extent"
  end.

End Scans.
