(* ===== verification/ExtentScan.v ===== *)
(** What the scans of extent trees return (proofs on [Extents.v]): the entries
    of the trees on the disk, listed by reference functions of the image. *)
From S2P Require Import Prelude Errors Endian Crc Host Device Durable Ext4 Allocation Metadata.
From S2P Require Import MetadataCheck Extents.
From stdpp Require Import sorting.
#[local] Open Scope Z_scope.

(** ** The trees of an image *)

Definition node_at (base : bytes) (s : Superblock) (block : Z) : bytes :=
  slice base (u64 (block * block_size s)) (block_size s).
Definition node_entries (node : bytes) : list Z := seqZ 0 (read_le16 node 2).

(** The extents below a node, in the order of their entries. *)
Fixpoint tree_extents (depth : nat) (c : ParseCtx) (base node : bytes) (container block : Z)
    (k : ExtentRefKind) : list OwnedExtent :=
  match depth with
  | O => (fun i => leaf_entry c node i container block k) <$> node_entries node
  | S d =>
      concat ((fun i =>
        let child := index_child node i in
        tree_extents d c base (node_at base (c_sb c) child) (u64 (child * block_size (c_sb c))) child
          extent_block) <$> node_entries node)
  end.

(** The blocks of the nodes below a node. *)
Fixpoint tree_children (depth : nat) (c : ParseCtx) (base node : bytes) (container : Z)
    : list ExtentTreeBlock :=
  match depth with
  | O => []
  | S d =>
      concat ((fun i =>
        let child := index_child node i in
        mkTreeBlock (c_inode c) child container (entry_off i) (Z.of_nat d)
        :: tree_children d c base (node_at base (c_sb c) child)
             (u64 (child * block_size (c_sb c)))) <$> node_entries node)
  end.

(** An extent of at least one block inside a file system of [blocks] blocks,
    behind its first block. *)
Definition extent_inside (blocks : Z) (e : OwnedExtent) : Prop :=
  0 < physical_block e /\ 0 < o_length e /\ physical_block e + o_length e <= blocks.

Definition kept_extents (retain : Z) (xs : list OwnedExtent) : list OwnedExtent :=
  filter (fun e => retain < o_end e) xs.
Definition kept_trees (retain : Z) (ts : list ExtentTreeBlock) : list ExtentTreeBlock :=
  filter (fun t => retain <= tb_physical_block t) ts.

Definition total_length (xs : list OwnedExtent) : Z := foldr (fun e n => o_length e + n) 0 xs.

(** [o'] is [o] with the extents [xs] and the tree blocks [ts] scanned. *)
Record collected (retain : Z) (xs : list OwnedExtent) (ts : list ExtentTreeBlock) (o o' : OwnerScan)
    : Prop := {
  col_extents : extents o' = extents o ++ kept_extents retain xs;
  col_total : total_extent_records o' = total_extent_records o + zlen xs;
  col_blocks : retained_extent_blocks o' = retained_extent_blocks o + total_length (kept_extents retain xs);
  col_trees : tree_blocks o' = tree_blocks o ++ kept_trees retain ts;
  col_ntrees : retained_tree_blocks o' = retained_tree_blocks o + zlen (kept_trees retain ts)
}.

Lemma total_length_app xs ys : total_length (xs ++ ys) = total_length xs + total_length ys.
Proof. unfold total_length. induction xs; cbn in *; lia. Qed.

Lemma collected_nil retain o : collected retain [] [] o o.
Proof. split; cbn; rewrite ?app_nil_r; change (zlen []) with 0; try lia; done. Qed.
Lemma collected_app retain xs ts ys us o o1 o2 :
  collected retain xs ts o o1 -> collected retain ys us o1 o2 -> collected retain (xs ++ ys) (ts ++ us) o o2.
Proof.
  intros [A1 A2 A3 A4 A5] [B1 B2 B3 B4 B5]. unfold kept_extents, kept_trees in *.
  split; unfold kept_extents, kept_trees; rewrite ?filter_app, ?total_length_app, ?zlen_app.
  - by rewrite B1, A1, app_assoc.
  - lia.
  - lia.
  - by rewrite B4, A4, app_assoc.
  - lia.
Qed.

Lemma collected_extent c e o : collected (retain_from c) [e] [] o (add_extent c e o).
Proof.
  unfold add_extent. destruct (Z.ltb_spec (retain_from c) (o_end e)); split;
    unfold kept_extents, kept_trees; cbn -[filter];
    rewrite ?(filter_cons_True _ _ []), ?(filter_cons_False _ _ []) by lia; cbn;
    rewrite ?app_nil_r; change (zlen []) with 0; try lia; done.
Qed.

Lemma collected_tree c child container i depth o :
  collected (retain_from c) [] [mkTreeBlock (c_inode c) child container (entry_off i) (depth - 1)]
    o (add_tree_block c child container i depth o).
Proof.
  unfold add_tree_block. destruct (Z.leb_spec (retain_from c) child); split;
    unfold kept_extents, kept_trees; cbn -[filter];
    rewrite ?(filter_cons_True _ _ []), ?(filter_cons_False _ _ []) by (cbn; lia); cbn;
    rewrite ?app_nil_r; change (zlen []) with 0; try lia; done.
Qed.

(** ** Nodes *)

(** The entry of an extent lies inside its node, before the node's checksum. *)
Definition entry_room (base : bytes) (s : Superblock) (e : OwnedExtent) : Prop :=
  let off := entry_offset (reference e) in
  12 <= off /\
  match kind (reference e) with
  | inode_root => off + 12 <= INODE_I_BLOCK_LEN
  | extent_block =>
      off + 12 <= block_size s /\ off + 12 <= extent_tail (node_at base s (container_block (reference e)))
  end.

(** A parse of the subtrees with the extents [xs] and the nodes [ts]. *)
Record parsed (base : bytes) (c : ParseCtx) (xs : list OwnedExtent) (ts : list ExtentTreeBlock) (s s' : ParseState)
    : Prop := {
  par_out : collected (retain_from c) xs ts (out s) (out s');
  par_inside : Forall (extent_inside (blocks_count (c_sb c))) xs;
  par_room : Forall (entry_room base (c_sb c)) xs;
  par_nodes : Forall (fun t => 0 < tb_physical_block t < blocks_count (c_sb c)) ts;
  par_visited : visited s' = list_to_set (tb_physical_block <$> ts) ∪ visited s;
  par_once : NoDup (tb_physical_block <$> ts) /\
    forall b, b ∈ tb_physical_block <$> ts -> b ∉ visited s
}.

Lemma parsed_nil base c s : parsed base c [] [] s s.
Proof.
  split; [apply collected_nil|by apply Forall_nil..|cbn; by rewrite union_empty_l_L|].
  split; [apply NoDup_nil_2|]. intros b Hb. cbn in Hb. by apply elem_of_nil in Hb.
Qed.

Lemma parsed_app base c xs ts ys us s s1 s2 :
  parsed base c xs ts s s1 -> parsed base c ys us s1 s2 -> parsed base c (xs ++ ys) (ts ++ us) s s2.
Proof.
  intros [A1 A2 A2' A3 A4 [A5 A6]] [B1 B2 B2' B3 B4 [B5 B6]]. split.
  - by eapply collected_app.
  - by apply Forall_app.
  - by apply Forall_app.
  - by apply Forall_app.
  - rewrite B4, A4, fmap_app, list_to_set_app_L. apply set_eq. intros b. rewrite !elem_of_union. tauto.
  - rewrite fmap_app. split.
    + apply NoDup_app. split_and!; [done| |done]. intros b Hb Hb'. apply (B6 b Hb'). rewrite A4.
      by apply elem_of_union_l, elem_of_list_to_set.
    + intros b [Hb|Hb]%elem_of_app; [by apply A6|]. specialize (B6 b Hb). rewrite A4 in B6.
      intros Hv. by apply B6, elem_of_union_r.
Qed.

Lemma leaf_loop_spec n c node i container block k prev o o' :
  0 <= i -> blocks_count (c_sb c) < 2 ^ 64 ->
  leaf_loop n c node i container block k prev o = Ok o' ->
  let xs := (fun i => leaf_entry c node i container block k) <$> seqZ i (Z.of_nat n) in
  collected (retain_from c) xs [] o o' /\ Forall (extent_inside (blocks_count (c_sb c))) xs.
Proof.
  intros Hi Hb. revert i prev o Hi. induction n as [|n IH]; intros i prev o Hi; cbn [leaf_loop]; cbv zeta.
  { intros [= <-]. split; [apply collected_nil|by apply Forall_nil]. }
  rewrite (seqZ_cons i) by lia. replace (Z.pred (Z.of_nat (S n))) with (Z.of_nat n) by lia.
  change (Z.succ i) with (i + 1). rewrite fmap_cons. set (e := leaf_entry _ _ _ _ _ _).
  destruct (Z.eqb_spec (read_le16 node (entry_off i + 4)) 0) as [|Hn0]; [done|].
  destruct (_ || _) eqn:Eb; [done|]. destruct (match prev with Some _ => _ | None => _ end); [done|].
  intros H. apply IH in H as [H1 H2]; [|lia]. split.
  - change (?x :: ?l) with ([x] ++ l). change (@nil ExtentTreeBlock) with (@nil ExtentTreeBlock ++ []).
    eapply collected_app; [apply collected_extent|exact H1].
  - apply Forall_cons. split; [|exact H2].
    pose proof (read_le_bound 2 node (entry_off i + 4)) as Hw. unfold in_width in Hw.
    pose proof (join32_width (read_le32 node (entry_off i + 8)) (read_le16 node (entry_off i + 6))
      (read_le_bound 4 _ _)) as Hj. unfold in_width in Hj.
    apply orb_false_iff in Eb as [Eb E3]. apply orb_false_iff in Eb as [E1 E2].
    apply Z.eqb_neq in E1. apply Z.leb_gt in E2. apply Z.ltb_ge in E3.
    unfold extent_inside. split; [|split; [|lia]].
    + change (physical_block e) with (join32 (read_le32 node (entry_off i + 8)) (read_le16 node (entry_off i + 6))) in *.
      lia.
    + change (o_length e) with (if 32768 <? read_le16 node (entry_off i + 4)
        then read_le16 node (entry_off i + 4) - 32768 else read_le16 node (entry_off i + 4)).
      destruct (Z.ltb_spec 32768 (read_le16 node (entry_off i + 4))); lia.
Qed.

Section Parse.
Context (c : ParseCtx) (base : bytes) (Hb : blocks_count (c_sb c) < 2 ^ 64).
Context (Hbs : 0 < block_size (c_sb c)).

(** The state a parse of [node] leaves. *)
Definition parse_post (depth : nat) (node : bytes) (container block : Z) (k : ExtentRefKind) (s : ParseState) :
    ParseState -> Prop :=
  parsed base c (tree_extents depth c base node container block k) (tree_children depth c base node container) s.

(** The bytes of a node: a root inside an inode, or a block. *)
Definition node_of (k : ExtentRefKind) (block : Z) (node : bytes) : Prop :=
  match k with
  | inode_root => zlen node <= INODE_I_BLOCK_LEN
  | extent_block => node = node_at base (c_sb c) block /\ zlen node = block_size (c_sb c)
  end.

Lemma check_node_room node depth k container block u i :
  check_node c node depth k = Ok u -> node_of k block node -> 0 <= i < read_le16 node 2 ->
  entry_room base (c_sb c) (leaf_entry c node i container block k).
Proof.
  unfold check_node. intros Hc Hn Hi. destruct (zlen node <? 12) eqn:Ez; [done|]. apply Z.ltb_ge in Ez.
  destruct (match k with extent_block => _ | inode_root => _ end) as [[]|]; [|done]. cbn [bindR] in Hc. cbv zeta in Hc.
  destruct (negb _); [done|]. destruct (negb _); [done|]. destruct (5 <? _); [done|].
  destruct (_ || _) eqn:E; [done|]. apply orb_false_iff in E as [E1%Z.ltb_ge E2%Z.ltb_ge].
  pose proof (Z.mul_div_le (zlen node - 12) 12 ltac:(lia)).
  unfold entry_room. cbv zeta. cbn [reference leaf_entry kind entry_offset container_block].
  unfold entry_off. split; [lia|]. destruct k; cbn [node_of] in Hn; [lia|].
  destruct Hn as [-> Hz]. unfold extent_tail. lia.
Qed.

Lemma index_loop_spec d parse n node i container prev s h :
  0 <= i -> wstate (c_dev c) base [] h ->
  (forall buf off child s h, wstate (c_dev c) base [] h -> node_of extent_block child buf ->
     yields (parse buf off child s) h (parse_post d buf off child extent_block s)) ->
  yields (index_loop parse n c node (Z.of_nat (S d)) i container prev s) h
    (parsed base c
       (concat ((fun i => tree_extents d c base (node_at base (c_sb c) (index_child node i))
          (u64 (index_child node i * block_size (c_sb c))) (index_child node i) extent_block)
          <$> seqZ i (Z.of_nat n)))
       (concat ((fun i => mkTreeBlock (c_inode c) (index_child node i) container (entry_off i) (Z.of_nat d)
          :: tree_children d c base (node_at base (c_sb c) (index_child node i))
               (u64 (index_child node i * block_size (c_sb c)))) <$> seqZ i (Z.of_nat n))) s).
Proof.
  intros Hi Hw Hparse. revert i prev s h Hi Hw.
  induction n as [|n IH]; intros i prev s h Hi Hw; cbn [index_loop].
  { apply yields_ret, parsed_nil. }
  rewrite (seqZ_cons i) by lia. replace (Z.pred (Z.of_nat (S n))) with (Z.of_nat n) by lia.
  change (Z.succ i) with (i + 1). rewrite !fmap_cons. cbn [concat]. cbv zeta.
  set (child := index_child node i). set (bs := block_size (c_sb c)) in *.
  destruct (match prev with Some _ => _ | None => _ end); [by apply yields_lift|].
  destruct (_ || _) eqn:Ec; [by apply yields_lift|].
  case_bool_decide as Ev; [by apply yields_lift|].
  set (s1 := mkParse _ _).
  assert (P1 : parsed base c [] [mkTreeBlock (c_inode c) child container (entry_off i) (Z.of_nat d)] s s1).
  { replace (Z.of_nat d) with (Z.of_nat (S d) - 1) by lia. split; cbn.
    - apply collected_tree.
    - by apply Forall_nil.
    - by apply Forall_nil.
    - apply Forall_singleton. cbn.
      pose proof (join32_width (read_le32 node (entry_off i + 4)) (read_le16 node (entry_off i + 8))
        (read_le_bound 4 _ _)) as Hj. unfold in_width in Hj. fold (index_child node i) in Hj. fold child in Hj. lia.
    - by rewrite union_empty_r_L.
    - split; [by apply NoDup_singleton|]. by intros b ->%list_elem_of_singleton. }
  assert (Hoff : 0 <= u64 (child * bs)) by (apply Z.mod_pos_bound; lia).
  step Hw by (apply (yields_read (c_dev c) base []); [exact Hw|exact Hoff|lia]) as buf Hbuf.
  destruct Hbuf as (-> & Hzb & _). cbn [put_all foldl] in *.
  change (slice base (u64 (child * bs)) bs) with (node_at base (c_sb c) child) in *.
  step Hw by (by apply Hparse) as s2 P2.
  eapply yields_mono; [apply IH; [lia|exact Hw]|]. intros s3 P3. fold bs child in P3.
  pose proof (parsed_app base c _ _ _ _ _ _ _ P1 P2) as P12.
  exact (parsed_app base c _ _ _ _ _ _ _ P12 P3).
Qed.

Lemma parse_extent_node_spec depth node container block k s h :
  wstate (c_dev c) base [] h -> node_of k block node ->
  yields (parse_extent_node depth c node container block k s) h (parse_post depth node container block k s).
Proof.
  revert node container block k s h. induction depth as [|d IH]; intros node container block k s h Hw Hnode;
    cbn [parse_extent_node]; (step Hw by (apply yields_lift; intros u Hu; exact Hu) as u Hu);
    cbv zeta; pose proof (proj1 (read_le_bound 2 node 2)) as Hn.
  - step Hw by (apply yields_lift; intros o Ho; exact Ho) as o Ho. apply yields_ret.
    apply leaf_loop_spec in Ho as [H1 H2]; [|lia|done]. cbn [out] in H1.
    rewrite Z2Nat.id in H1, H2 by exact Hn.
    split; [exact H1|exact H2| |by apply Forall_nil|cbn; by rewrite union_empty_l_L|].
    + apply list.Forall_forall. intros e (i & -> & Hi%elem_of_seqZ)%list_elem_of_fmap.
      apply (check_node_room node 0 k container block u); [exact Hu|done|lia].
    + split; [apply NoDup_nil_2|]. cbn. by intros b []%elem_of_nil.
  - clear u Hu. eapply yields_mono; [apply (index_loop_spec d); [lia|exact Hw|]|].
    + intros buf off child s' h' Hw' Hb'. by apply IH.
    + rewrite Z2Nat.id by exact Hn. done.
Qed.

End Parse.

(** ** Inodes *)

Definition root_node (inode : bytes) : bytes := slice inode INODE_I_BLOCK_OFF INODE_I_BLOCK_LEN.
Definition root_depth (inode : bytes) : nat :=
  Z.to_nat (if 8 <=? zlen (root_node inode) then read_le16 (root_node inode) 6 else 65535).
(** The extents and the tree blocks of an inode at the offset [abs]. *)
Definition inode_extents (base : bytes) (c : ParseCtx) (inode : bytes) (abs : Z) : list OwnedExtent :=
  tree_extents (root_depth inode) c base (root_node inode) (abs + INODE_I_BLOCK_OFF) 0 inode_root.
Definition inode_trees (base : bytes) (c : ParseCtx) (inode : bytes) (abs : Z) : list ExtentTreeBlock :=
  tree_children (root_depth inode) c base (root_node inode) (abs + INODE_I_BLOCK_OFF).

(** A tree block inside the file system. *)
Definition tree_inside (blocks : Z) (t : ExtentTreeBlock) : Prop := 0 < tb_physical_block t < blocks.

(** A scan of subtrees, between states of the whole scan. *)
Definition scanned (blocks retain : Z) (xs : list OwnedExtent) (ts : list ExtentTreeBlock) (o o' : OwnerScan)
    : Prop :=
  collected retain xs ts o o' /\ Forall (extent_inside blocks) xs /\ Forall (tree_inside blocks) ts.

Lemma scanned_nil blocks retain o : scanned blocks retain [] [] o o.
Proof. split; [apply collected_nil|by split; apply Forall_nil]. Qed.
Lemma scanned_app blocks retain xs ts ys us o o1 o2 :
  scanned blocks retain xs ts o o1 -> scanned blocks retain ys us o1 o2 ->
  scanned blocks retain (xs ++ ys) (ts ++ us) o o2.
Proof.
  intros (A1 & A2 & A3) (B1 & B2 & B3). split; [by eapply collected_app|]. split; by apply Forall_app.
Qed.
Lemma scanned_counts blocks retain xs ts a b e l o o' :
  scanned blocks retain xs ts (set_counts a b e l o) o' -> scanned blocks retain xs ts o o'.
Proof. intros ([A1 A2 A3 A4 A5] & A6). by split. Qed.

Lemma parse_inode_spec c base inode abs o h :
  wstate (c_dev c) base [] h -> blocks_count (c_sb c) < 2 ^ 64 -> 0 < block_size (c_sb c) ->
  yields (parse_inode c inode abs o) h
    (fun o' => scanned (blocks_count (c_sb c)) (retain_from c) (inode_extents base c inode abs)
                 (inode_trees base c inode abs) o o' /\
               Forall (entry_room base (c_sb c)) (inode_extents base c inode abs)).
Proof.
  intros Hw Hb Hbs. unfold parse_inode. cbv zeta.
  assert (Hroot : node_of c base inode_root 0 (slice inode INODE_I_BLOCK_OFF INODE_I_BLOCK_LEN))
    by (apply zlen_slice_le; unfold INODE_I_BLOCK_LEN; lia).
  step Hw by (by apply (parse_extent_node_spec c base Hb Hbs)) as s [A1 A2 A2' A3 _ _].
  apply yields_ret. by split_and!.
Qed.

(** Some list of every used inode with extents, over all groups. *)
Section Owners.
Context (dev : BlockDevice) (base : bytes) (s : Superblock) (mctx : MetadataContext) (retain : Z).
Context (Hgeo : geometry_ok s).

Definition table_of_group (g : Z) : Z := u64 (inode_table (desc_at base s g) * block_size s).
Definition inode_bytes (g idx : Z) : bytes :=
  slice base (table_of_group g + idx * inode_size s) (inode_size s).
Definition inode_ctx (g idx : Z) : ParseCtx :=
  mkCtx dev s (first_inode_of s g + idx) (read_le32 (inode_bytes g idx) INODE_GENERATION_OFF) retain mctx.

Definition of_inode {A} (f : ParseCtx -> bytes -> Z -> list A) (g idx : Z) : list A :=
  let inode := inode_bytes g idx in
  if negb (inode_allocated (inode_bitmap_at base s g) idx) || inactive inode || negb (has_extents inode)
  then []
  else f (inode_ctx g idx) inode (u64 (table_of_group g + idx * inode_size s)).
Definition of_group {A} (f : ParseCtx -> bytes -> Z -> list A) (g : Z) : list A :=
  if has_flag (flags (desc_at base s g)) BG_INODE_UNINIT then []
  else concat (of_inode f g <$> seqZ 0 (group_inode_count s g)).
Definition of_all {A} (f : ParseCtx -> bytes -> Z -> list A) : list A :=
  concat (of_group f <$> seqZ 0 (groups_count s)).

Let blocks := blocks_count s.

Lemma owner_inodes_spec n g idx o h :
  wstate dev base [] h -> 0 <= idx -> idx + Z.of_nat n = group_inode_count s g ->
  yields (owner_inodes n dev s mctx retain (inode_bitmap_at base s g)
            (slice base (table_of_group g) (group_inode_count s g * inode_size s)) (table_of_group g)
            (first_inode_of s g) idx o) h
    (scanned blocks retain (concat (of_inode (inode_extents base) g <$> seqZ idx (Z.of_nat n)))
       (concat (of_inode (inode_trees base) g <$> seqZ idx (Z.of_nat n))) o).
Proof.
  pose proof Hgeo as [G1 G2 G3 G4 G5 G6 G7]. destruct (block_size_cases s G1) as [_ Hbs].
  revert idx o h. induction n as [|n IH]; intros idx o h Hw Hi Hn; cbn [owner_inodes]; cbv zeta.
  { apply yields_ret, scanned_nil. }
  rewrite (seqZ_cons idx) by lia. replace (Z.pred (Z.of_nat (S n))) with (Z.of_nat n) by lia.
  change (Z.succ idx) with (idx + 1). rewrite !fmap_cons. cbn [concat].
  assert (Ht : 0 <= table_of_group g) by (apply Z.mod_pos_bound; lia).
  assert (Hsl : slice (slice base (table_of_group g) (group_inode_count s g * inode_size s))
                  (idx * inode_size s) (inode_size s) = inode_bytes g idx).
  { rewrite slice_slice by nia. done. }
  rewrite Hsl. unfold of_inode at 1 3. cbv zeta.
  assert (Hskip : forall a b e l, yields (owner_inodes n dev s mctx retain (inode_bitmap_at base s g)
      (slice base (table_of_group g) (group_inode_count s g * inode_size s)) (table_of_group g)
      (first_inode_of s g) (idx + 1) (set_counts a b e l o)) h
      (scanned blocks retain ([] ++ concat (of_inode (inode_extents base) g <$> seqZ (idx + 1) (Z.of_nat n)))
        ([] ++ concat (of_inode (inode_trees base) g <$> seqZ (idx + 1) (Z.of_nat n))) o)).
  { intros a b e l. eapply yields_mono; [apply IH; [exact Hw|lia|lia]|]. intros o' Ho'.
    by eapply scanned_counts. }
  destruct (inode_allocated _ idx); cbn [negb orb]; [|apply Hskip].
  destruct (inactive _); cbn [orb]; [apply Hskip|].
  destruct (has_extents _); cbn [negb orb]; [|apply Hskip].
  change (mkCtx dev s (first_inode_of s g + idx) _ retain mctx) with (inode_ctx g idx).
  step Hw by (apply (parse_inode_spec (inode_ctx g idx) base); [exact Hw|exact G5|cbn; lia]) as o1 [H1 _].
  cbn [inode_ctx c_sb retain_from] in H1. apply scanned_counts in H1.
  eapply yields_mono; [apply IH; [exact Hw|lia|lia]|]. intros o2 H2. by eapply scanned_app.
Qed.

Lemma owner_groups_spec n g o h :
  wstate dev base [] h -> 0 <= g ->
  yields (owner_groups n dev s mctx retain g o) h
    (scanned blocks retain (concat (of_group (inode_extents base) <$> seqZ g (Z.of_nat n)))
       (concat (of_group (inode_trees base) <$> seqZ g (Z.of_nat n))) o).
Proof.
  pose proof Hgeo as [G1 G2 G3 G4 G5 G6 G7]. destruct (block_size_cases s G1) as [_ Hbs].
  revert g o h. induction n as [|n IH]; intros g o h Hw Hg; cbn [owner_groups].
  { apply yields_ret, scanned_nil. }
  rewrite (seqZ_cons g) by lia. replace (Z.pred (Z.of_nat (S n))) with (Z.of_nat n) by lia.
  change (Z.succ g) with (g + 1). rewrite !fmap_cons. cbn [concat].
  step Hw by (eapply yields_cancel, Hw) as stop Hst. destruct stop; [apply yields_failM|].
  step Hw by (apply (yields_desc dev base (context_of s base)); [exact Hw|done]) as gd Hgd.
  cbn [sb context_of] in Hgd. subst gd.
  unfold of_group at 1 3. destruct (has_flag _ BG_INODE_UNINIT).
  { apply IH; [exact Hw|lia]. }
  step Hw by (apply (yields_inode_bitmap dev base (context_of s base) Hgeo); exact Hw) as ib Hib.
  cbn [sb context_of] in Hib. subst ib. cbv zeta.
  change (u64 (inode_table (desc_at base s g) * block_size s)) with (table_of_group g).
  destruct (_ <? _); [apply yields_failM|].
  assert (Hc : 0 <= group_inode_count s g).
  { unfold group_inode_count. case_match; lia. }
  assert (Ht : 0 <= table_of_group g) by (apply Z.mod_pos_bound; lia).
  assert (Hinodes : forall table h1, wstate dev base [] h1 ->
    table = slice base (table_of_group g) (group_inode_count s g * inode_size s) ->
    yields (o ← owner_inodes (Z.to_nat (group_inode_count s g)) dev s mctx retain (inode_bitmap_at base s g)
              table (table_of_group g) (first_inode_of s g) 0 o;
            owner_groups n dev s mctx retain (g + 1) o) h1
      (scanned blocks retain
        (concat (of_inode (inode_extents base) g <$> seqZ 0 (group_inode_count s g)) ++
         concat (of_group (inode_extents base) <$> seqZ (g + 1) (Z.of_nat n)))
        (concat (of_inode (inode_trees base) g <$> seqZ 0 (group_inode_count s g)) ++
         concat (of_group (inode_trees base) <$> seqZ (g + 1) (Z.of_nat n))) o)).
  { intros table hx Hw1 ->.
    step Hw1 by (apply owner_inodes_spec; [exact Hw1|lia|lia]) as o1 H1. rewrite Z2Nat.id in H1 by done.
    eapply yields_mono; [apply IH; [exact Hw1|lia]|]. intros o2 H2. by eapply scanned_app. }
  destruct (Z.eqb_spec (group_inode_count s g * inode_size s) 0) as [E0|E0].
  - apply (Hinodes [] _ Hw). rewrite E0. symmetry. apply slice_nonpos. lia.
  - step Hw by (apply (yields_read dev base []); [exact Hw|done|nia]) as table Htab.
    destruct Htab as (-> & _). by apply Hinodes.
Qed.

End Owners.

(** [std::sort] by a key: some ordered permutation. *)
Definition sorts (sort_by : (OwnedExtent -> Z) -> list OwnedExtent -> list OwnedExtent) : Prop :=
  forall key l, sort_by key l ≡ₚ l /\ StronglySorted (fun a b => key a <= key b) (sort_by key l).

Lemma check_scan_room s u : check_scan s = Ok u -> 128 <= inode_size s <= block_size s.
Proof. unfold check_scan. destruct (_ || _) eqn:E; [done|]. lia. Qed.

Lemma scan_extent_owners_spec (sort_by : (OwnedExtent -> Z) -> list OwnedExtent -> list OwnedExtent)
    (dev : BlockDevice) (base : bytes) (retain : Z) (h : Host)
    (Hsort : sorts sort_by) (Hw : wstate dev base [] h) :
  let raw := slice base 1024 1024 in
  let s := superblock_fields raw in
  let from := Z.min retain (blocks_count s) in
  let all := of_all dev base s (context_of s raw) from (inode_extents base) in
  let trees := of_all dev base s (context_of s raw) from (inode_trees base) in
  yields (scan_extent_owners sort_by dev retain) h (fun o =>
    extents o ≡ₚ kept_extents from all /\
    StronglySorted (fun a b => physical_block a <= physical_block b) (extents o) /\
    tree_blocks o = kept_trees from trees /\
    total_extent_records o = zlen all /\
    retained_extent_blocks o = total_length (kept_extents from all) /\
    Forall (extent_inside (blocks_count s)) all /\ Forall (tree_inside (blocks_count s)) trees).
Proof.
  cbv zeta. unfold scan_extent_owners.
  step Hw by (exact (read_superblock_spec dev base [] _ Hw)) as s Hs. destruct Hs as (Es & Hchk & _).
  cbn [put_all foldl] in *. rewrite <-Es.
  assert (Hgeo : geometry_ok s) by (subst s; by eapply superblock_geometry). clear Hchk.
  step Hw by (by apply yields_context) as mctx Hctx. destruct Hctx as (-> & _). rewrite <-Es.
  set (raw := slice base 1024 1024) in *. clear Es.
  step Hw by (apply yields_lift; intros u Hu; exact Hu) as u Hu. clear u Hu. cbv zeta.
  set (from := Z.min retain (blocks_count s)). set (mctx := context_of s raw).
  assert (Hn : 0 <= groups_count s).
  { destruct Hgeo as [_ G2 _ G4 _ _ _]. destruct (groups_count_spec s); lia. }
  step Hw by (apply (owner_groups_spec dev base s mctx from Hgeo _ 0); [exact Hw|lia]) as o Ho.
  rewrite Z2Nat.id in Ho by done. destruct Ho as ([A1 A2 A3 A4 A5] & A6 & A7).
  apply yields_ret. cbn [set_extents extents tree_blocks total_extent_records retained_extent_blocks].
  destruct (Hsort physical_block (extents o)) as [Hp Hs]. cbn [empty_scan extents total_extent_records
    retained_extent_blocks tree_blocks app] in *.
  unfold of_all. split_and!; [by rewrite Hp, A1|exact Hs|exact A4|lia|lia|exact A6|exact A7].
Qed.

(** C21: the scan of a file system's owners ends on every host, reads only, and
    returns exactly the extents of the trees of all used inodes that reach
    beyond the first block to keep, each once and ordered by its place on the
    disk, and the blocks of the trees' nodes there; every extent and
    every node of every tree lies inside the file system. *)
Theorem owner_scan_exact (sort_by : (OwnedExtent -> Z) -> list OwnedExtent -> list OwnedExtent)
    (dev : BlockDevice) (base : bytes) (retain : Z) (h : Host)
    (Hsort : sorts sort_by) (Hw : wstate dev base [] h) :
  let raw := slice base 1024 1024 in
  let s := superblock_fields raw in
  let from := Z.min retain (blocks_count s) in
  let all := of_all dev base s (context_of s raw) from (inode_extents base) in
  let trees := of_all dev base s (context_of s raw) from (inode_trees base) in
  yields (scan_extent_owners sort_by dev retain) h (fun o =>
    extents o ≡ₚ kept_extents from all /\
    StronglySorted (fun a b => physical_block a <= physical_block b) (extents o) /\
    tree_blocks o = kept_trees from trees /\
    total_extent_records o = zlen all /\
    retained_extent_blocks o = total_length (kept_extents from all) /\
    Forall (extent_inside (blocks_count s)) all /\ Forall (tree_inside (blocks_count s)) trees).
Proof. by apply scan_extent_owners_spec. Qed.

(** The extents a scan of the inode [ino] may return. *)
Definition inode_offset_at (base : bytes) (s : Superblock) (ino : Z) : Z :=
  let z := ino - 1 in
  u64 (inode_table (desc_at base s (z / inodes_per_group s)) * block_size s
       + z mod inodes_per_group s * inode_size s).
Definition used_inode (base : bytes) (s : Superblock) (ino : Z) : Prop :=
  let z := ino - 1 in
  let inode := slice base (inode_offset_at base s ino) (inode_size s) in
  1 <= ino <= inodes_count s /\
  inode_allocated (inode_bitmap_at base s (z / inodes_per_group s)) (z mod inodes_per_group s) = true /\
  inactive inode = false.
Definition extents_of (dev : BlockDevice) (base : bytes) (s : Superblock) (mctx : MetadataContext)
    (retain ino : Z) : list OwnedExtent :=
  let inode := slice base (inode_offset_at base s ino) (inode_size s) in
  if has_extents inode
  then inode_extents base (mkCtx dev s ino (read_le32 inode INODE_GENERATION_OFF) retain mctx) inode
         (inode_offset_at base s ino)
  else [].

Lemma scan_specific_spec sort_by dev base s ino retain h :
  sorts sort_by -> wstate dev base [] h -> geometry_ok s -> 0 <= ino ->
  s = superblock_fields (slice base 1024 1024) ->
  yields (scan_specific_inode sort_by dev s ino retain) h (fun o =>
    let all := extents_of dev base s (context_of s (slice base 1024 1024)) retain ino in
    used_inode base s ino /\ extents o = sort_by logical_block (kept_extents retain all) /\
    Forall (extent_inside (blocks_count s)) all /\ Forall (entry_room base s) all).
Proof.
  intros Hsort Hw Hgeo Hino Hsb. pose proof Hgeo as [G1 G2 G3 G4 G5 G6 G7].
  destruct (block_size_cases s G1) as [_ Hbs].
  unfold scan_specific_inode. cbv zeta.
  destruct (_ || _) eqn:Ei; [apply yields_failM|].
  assert (Hg : 0 <= (ino - 1) / inodes_per_group s) by (apply Z.div_pos; lia).
  step Hw by (apply (yields_desc dev base (context_of s base)); [exact Hw|exact Hg]) as gd Hgd.
  cbn [sb context_of] in Hgd. subst gd. destruct (has_flag _ BG_INODE_UNINIT); [apply yields_failM|].
  step Hw by (apply (yields_inode_bitmap dev base (context_of s base) Hgeo); exact Hw) as ib Hib.
  cbn [sb context_of] in Hib. subst ib.
  destruct (negb _) eqn:Ea; [apply yields_failM|]. apply negb_false_iff in Ea.
  change (u64 _) with (inode_offset_at base s ino).
  assert (Habs : 0 <= inode_offset_at base s ino) by (apply Z.mod_pos_bound; lia).
  step Hw by (apply (yields_read dev base []); [exact Hw|exact Habs|lia]) as inode Hinode.
  destruct Hinode as (-> & _). cbn [put_all foldl].
  destruct (inactive _) eqn:Eact; [apply yields_failM|].
  step Hw by (by apply yields_context) as mctx Hctx. destruct Hctx as (-> & _). rewrite <-Hsb.
  assert (Hused : used_inode base s ino) by (split_and!; [lia|lia|exact Ea|exact Eact]).
  unfold extents_of. destruct (has_extents _) eqn:Ex; cbn [negb].
  2: { apply yields_ret. cbn. split_and!; [exact Hused| |by apply Forall_nil..].
       destruct (Hsort logical_block []) as [Hp _]. by apply Permutation_nil_r in Hp as ->. }
  step Hw by (apply (parse_inode_spec (mkCtx dev s ino _ retain _) base); [exact Hw|exact G5|cbn; lia]) as o Ho.
  destruct Ho as [Ho A7]. apply scanned_counts in Ho as ([A1 _ _ _ _] & A6 & _). cbn [c_sb retain_from extents empty_scan app] in A1, A6.
  apply yields_ret. cbn [set_extents extents]. split_and!; [exact Hused|by rewrite A1|exact A6|exact A7].
Qed.

(** The extent of an image that covers a logical block of an inode: the first
    one in the order of the sort. *)
Definition extent_found (sort_by : (OwnedExtent -> Z) -> list OwnedExtent -> list OwnedExtent)
    (dev : BlockDevice) (base : bytes) (ino logical : Z) : option OwnedExtent :=
  let raw := slice base 1024 1024 in
  let s := superblock_fields raw in
  List.find (fun e => (logical_block e <=? logical) && (logical <? logical_block e + o_length e))
    (sort_by logical_block (kept_extents 0 (extents_of dev base s (context_of s raw) 0 ino))).

Lemma extent_found_in sort_by dev base ino logical e :
  sorts sort_by -> extent_found sort_by dev base ino logical = Some e ->
  let raw := slice base 1024 1024 in
  let s := superblock_fields raw in
  e ∈ extents_of dev base s (context_of s raw) 0 ino /\
  logical_block e <= logical < logical_block e + o_length e.
Proof.
  intros Hsort. unfold extent_found. cbv zeta. generalize (extents_of dev base (superblock_fields (slice base 1024 1024))
    (context_of (superblock_fields (slice base 1024 1024)) (slice base 1024 1024)) 0 ino). intros all Ef.
  apply List.find_some in Ef as [He Hc]. apply list_elem_of_In in He.
  destruct (Hsort logical_block (kept_extents 0 all)) as [Hp _].
  rewrite Hp in He. unfold kept_extents in He. apply list_elem_of_filter in He as [_ He].
  split; [done|lia].
Qed.

Lemma find_extent_spec sort_by dev base ino logical h :
  sorts sort_by -> wstate dev base [] h -> 0 <= ino ->
  let raw := slice base 1024 1024 in
  let s := superblock_fields raw in
  let all := extents_of dev base s (context_of s raw) 0 ino in
  yields (find_inode_extent sort_by dev ino logical) h (fun e =>
    extent_found sort_by dev base ino logical = Some e /\ used_inode base s ino /\
    Forall (extent_inside (blocks_count s)) all /\ Forall (entry_room base s) all).
Proof.
  intros Hsort Hw Hino. cbv zeta. unfold find_inode_extent, scan_inode_extent_tree.
  apply yields_assoc.
  step Hw by (exact (read_superblock_spec dev base [] _ Hw)) as s Hs. destruct Hs as (Es & Hchk & _).
  cbn [put_all foldl] in *. rewrite <-Es. apply yields_assoc.
  step Hw by (apply yields_lift; intros u Hu; exact Hu) as u Hu. clear u Hu.
  assert (Hgeo : geometry_ok s) by (subst s; by eapply superblock_geometry).
  assert (Hmin : Z.min 0 (blocks_count s) = 0) by (destruct Hgeo; lia). rewrite Hmin.
  step Hw by (by apply (scan_specific_spec sort_by dev base s ino 0)) as o Ho.
  destruct Ho as (Hused & Hp & Hin & Hroom). clear Hchk.
  destruct (List.find _ _) as [e|] eqn:Ef; [|apply yields_failM]. apply yields_ret.
  split_and!; [|done|done|done]. unfold extent_found. cbv zeta. by rewrite <-Es, <-Hp.
Qed.

(** An extent that is found for a logical block of an inode is an entry of
    the tree of that inode, which is allocated and in use; it covers the block
    and lies inside the file system.  No failure of the host and no image
    makes the search run for ever or change anything. *)
Theorem find_extent_sound (sort_by : (OwnedExtent -> Z) -> list OwnedExtent -> list OwnedExtent)
    (dev : BlockDevice) (base : bytes) (ino logical : Z) (h : Host)
    (Hsort : sorts sort_by) (Hw : wstate dev base [] h) (Hino : 0 <= ino) :
  let raw := slice base 1024 1024 in
  let s := superblock_fields raw in
  yields (find_inode_extent sort_by dev ino logical) h (fun e =>
    used_inode base s ino /\ e ∈ extents_of dev base s (context_of s raw) 0 ino /\
    logical_block e <= logical < logical_block e + o_length e /\
    extent_inside (blocks_count s) e).
Proof.
  eapply yields_mono; [by apply find_extent_spec|]. intros e (Hf & Hu & Hin & _).
  destruct (extent_found_in _ _ _ _ _ _ Hsort Hf) as [He Hc]. split_and!; [done|done|lia|lia|].
  by apply (proj1 (Forall_forall _ _) Hin).
Qed.

(** A sort with the law. *)
Definition key_le (key : OwnedExtent -> Z) (a b : OwnedExtent) : Prop := key a <= key b.
#[local] Instance key_le_dec key a b : Decision (key_le key a b).
Proof. unfold key_le. apply _. Defined.
#[local] Instance key_le_total key : Total (key_le key).
Proof. intros a b. unfold key_le. lia. Qed.
#[local] Instance key_le_trans key : Transitive (key_le key).
Proof. intros a b c. unfold key_le. lia. Qed.
Definition merge_by (key : OwnedExtent -> Z) : list OwnedExtent -> list OwnedExtent :=
  merge_sort (key_le key).

Lemma merge_by_sorts : sorts merge_by.
Proof.
  intros key l. split; [apply merge_sort_Permutation|].
  exact (StronglySorted_merge_sort (key_le key) l).
Qed.

Lemma demo_ext4_state : wstate demo_ext4_device demo_ext4 [] demo_ext4_host.
Proof.
  apply (wstate_start demo_ext4_device demo_ext4_host (mkFile Regular demo_ext4 [])); [|done].
  split; [reflexivity|]. split; [vm_compute; reflexivity|by apply Forall_nil].
Qed.

Lemma owner_scan_exact_witness :
  sorts merge_by /\
  yields (scan_extent_owners merge_by demo_ext4_device 4) demo_ext4_host (fun o =>
    StronglySorted (fun a b => physical_block a <= physical_block b) (extents o)).
Proof.
  split; [exact merge_by_sorts|].
  eapply yields_mono;
    [exact (owner_scan_exact merge_by demo_ext4_device demo_ext4 4 demo_ext4_host merge_by_sorts demo_ext4_state)|].
  intros o (_ & H & _). exact H.
Defined.

Lemma find_extent_sound_witness :
  sorts merge_by /\
  yields (find_inode_extent merge_by demo_ext4_device 12 0) demo_ext4_host (fun e =>
    logical_block e <= 0 < logical_block e + o_length e).
Proof.
  split; [exact merge_by_sorts|].
  eapply yields_mono;
    [exact (find_extent_sound merge_by demo_ext4_device demo_ext4 12 0 demo_ext4_host merge_by_sorts
              demo_ext4_state ltac:(lia))|].
  intros e (_ & _ & H & _). exact H.
Defined.
