(* ===== verification/RelocatePlan.v ===== *)
(** The owner-aware relocation plan (include/fsx/relocate.hpp,
    src/ext4/relocate.cpp, [build_owner_relocation_plan]).

    [std::sort] is a parameter for each of its uses.  The progress callback
    only reports and is left out. *)
From S2P Require Import Prelude Ranges Errors Host Device Durable Scheduler Ext4 Metadata MetadataCheck Allocation Relocation Extents ExtentScan.
From stdpp Require Import sorting.
#[local] Open Scope Z_scope.

Inductive RelocationKind := data_extent | extent_tree_block.
#[export] Instance RelocationKind_eq_dec : EqDecision RelocationKind.
Proof. solve_decision. Defined.

Record OwnerMove := mkOwnerMove {
  mv_kind : RelocationKind;
  mv_transaction_id : Z;
  mv_inode : Z;
  mv_logical_block : Z;
  mv_source_block : Z;
  mv_destination_block : Z;
  mv_block_count : Z;
  mv_unwritten : bool;
  mv_tree_depth : Z
}.

Record OwnerRelocationPlan := mkOwnerPlan {
  pl_block_size : Z;
  pl_target_blocks : Z;
  pl_target_bytes : Z;
  data_blocks_to_move : Z;
  tree_blocks_to_move : Z;
  unknown_allocated_blocks_above_target : Z;
  fixed_metadata_blocks_above_target : Z;
  pl_legacy_blockmap_inodes : Z;
  pl_allocated_inodes : Z;
  pl_extent_inodes : Z;
  complete_owner_coverage : bool;
  destinations_available : bool;
  pl_moves : list OwnerMove
}.

Record FreeSlot := mkSlot {
  slot_start : Z;
  slot_length : Z
}.

(** The loop of [allocate_best_fit]: [i] counts the slots, [best] and [waste]
    are its locals. *)
Fixpoint best_loop (slots : list FreeSlot) (length i best waste : Z) : Z :=
  match slots with
  | [] => best
  | s :: slots =>
      if slot_length s <? length then best_loop slots length (i + 1) best waste
      else
        let w := slot_length s - length in
        if w <? waste then
          if w =? 0 then i else best_loop slots length (i + 1) i w
        else best_loop slots length (i + 1) best waste
  end.

(** [None] is [false]; else the slots left and [out]. *)
Definition allocate_best_fit (slots : list FreeSlot) (length : Z) : option (list FreeSlot * Z) :=
  let best := best_loop slots length 0 (zlen slots) u64_max in
  if best =? zlen slots then None
  else
    s ← slots !! Z.to_nat best;
    let s' := mkSlot (u64 (slot_start s + length)) (slot_length s - length) in
    Some (if slot_length s' =? 0
          then take (Z.to_nat best) slots ++ drop (S (Z.to_nat best)) slots
          else <[Z.to_nat best := s']> slots, slot_start s).

Definition sum_tail_overlap (extents : list OwnedExtent) (target : Z) : Z :=
  foldl (fun n e => if o_end e <=? target then n
                    else u64 (n + (o_end e - Z.max (physical_block e) target))) 0 extents.

(** [std::lower_bound] with [e.end() <= block] on extents in order. *)
Fixpoint skip_before (l : list BlockExtent) (start : Z) : list BlockExtent :=
  match l with
  | e :: l' => if e_end e <=? start then skip_before l' start else l
  | [] => []
  end.
(** The loop that extends [covered]. *)
Fixpoint cover (l : list BlockExtent) (covered stop : Z) : bool :=
  match l with
  | e :: l =>
      if e_start e <=? covered then
        let covered := if covered <? e_end e then e_end e else covered in
        if stop <=? covered then true else cover l covered stop
      else false
  | [] => false
  end.
Definition range_fully_allocated (allocated : list BlockExtent) (start length : Z) : bool :=
  if length =? 0 then true
  else if u64_max - start <? length then false
  else cover (skip_before allocated start) start (start + length).

(** The struct [R] of [validate_owner_ranges]. *)
Record OwnerRange := mkRange {
  r_start : Z;
  r_end : Z;
  r_inode : Z;
  r_tree : bool
}.
Definition range_lt (a b : OwnerRange) : bool :=
  if negb (r_start a =? r_start b) then r_start a <? r_start b
  else if negb (r_end a =? r_end b) then r_end a <? r_end b
  else if negb (r_inode a =? r_inode b) then r_inode a <? r_inode b
  else negb (r_tree a) && r_tree b.

Fixpoint check_ranges (prev : OwnerRange) (l : list OwnerRange) : Result unit :=
  match l with
  | [] => Ok tt
  | r :: l =>
      if r_start r <? r_end prev
      then fail corrupt ("physical block ownership overlaps between inode "
                         +:+ pretty (r_inode prev) +:+ " and inode " +:+ pretty (r_inode r))
      else check_ranges r l
  end.

Definition owner_ranges (owners : OwnerScan) : list OwnerRange :=
  ((fun e => mkRange (physical_block e) (o_end e) (o_inode e) false) <$> extents owners)
  ++ ((fun t => mkRange (tb_physical_block t) (tb_physical_block t + 1) (tb_inode t) true)
      <$> tree_blocks owners).

(** The free extents below the target. *)
Fixpoint free_slots (l : list BlockExtent) (target : Z) : list FreeSlot :=
  match l with
  | [] => []
  | e :: l =>
      if target <=? e_start e then []
      else
        let stop := Z.min (e_end e) target in
        if e_start e <? stop then mkSlot (e_start e) (stop - e_start e) :: free_slots l target
        else free_slots l target
  end.

(** A group's blocks of fixed metadata beyond the target; an error when they
    are not allocated. *)
Definition inode_table_blocks (sb : Superblock) : Z :=
  (inodes_per_group sb * inode_size sb + block_size sb - 1) / block_size sb.
Definition fixed_of_group (sb : Superblock) (allocated : list BlockExtent) (target g : Z)
    (gd : GroupDesc) (count : Z) : Result Z :=
  let mark b n := if target <=? b then u64 (n + 1) else n in
  let count := mark (inode_bitmap gd) (mark (block_bitmap gd) count) in
  let it_blocks := inode_table_blocks sb in
  if negb (range_fully_allocated allocated (block_bitmap gd) 1)
     || negb (range_fully_allocated allocated (inode_bitmap gd) 1)
     || negb (range_fully_allocated allocated (inode_table gd) it_blocks)
  then fail corrupt ("group " +:+ pretty g
                     +:+ " fixed metadata is not fully allocated in block bitmap")
  else Ok (if target <=? inode_table gd then u64 (count + it_blocks)
           else if target <? u64 (inode_table gd + it_blocks)
           then u64 (count + (inode_table gd + it_blocks - target))
           else count).

Fixpoint fixed_metadata (n : nat) (dev : BlockDevice) (sb : Superblock)
    (allocated : list BlockExtent) (target g count : Z) : M Z :=
  match n with
  | O => mret count
  | S n =>
      gd ← read_group_desc dev sb g;
      count ← lift (fixed_of_group sb allocated target g gd count);
      fixed_metadata n dev sb allocated target (g + 1) count
  end.

(** The locals of the placement loops. *)
Record Placing := mkPlacing {
  slots_left : list FreeSlot;
  next_txn : Z;
  placed_moves : list OwnerMove;
  blocks_moved : Z
}.

(** The loop over the extents, and the one over the tree blocks; [false] when
    no slot was large enough. *)
Fixpoint place_data (data : list OwnedExtent) (p : Placing) : Placing * bool :=
  match data with
  | [] => (p, true)
  | e :: data =>
      match allocate_best_fit (slots_left p) (o_length e) with
      | None => (p, false)
      | Some (slots, dest) =>
          place_data data
            (mkPlacing slots (next_txn p + 1)
               (placed_moves p ++ [mkOwnerMove data_extent (next_txn p) (o_inode e) (logical_block e)
                                     (physical_block e) dest (o_length e) (unwritten e) 0])
               (u64 (blocks_moved p + o_length e)))
      end
  end.
Fixpoint place_trees (trees : list ExtentTreeBlock) (p : Placing) : Placing * bool :=
  match trees with
  | [] => (p, true)
  | t :: trees =>
      match allocate_best_fit (slots_left p) 1 with
      | None => (p, false)
      | Some (slots, dest) =>
          place_trees trees
            (mkPlacing slots (next_txn p + 1)
               (placed_moves p ++ [mkOwnerMove extent_tree_block (next_txn p) (tb_inode t) 0
                                     (tb_physical_block t) dest 1 false (tb_depth t)])
               (u64 (blocks_moved p + 1)))
      end
  end.

Definition allocated_tail (l : list BlockExtent) (target : Z) : Z :=
  foldl (fun n e => if target <? e_end e then u64 (n + (e_end e - Z.max (e_start e) target)) else n)
        0 l.

Section Plan.
Context (sort_by : (OwnedExtent -> Z) -> list OwnedExtent -> list OwnedExtent).
Context (sort_ranges : list OwnerRange -> list OwnerRange).
Context (sort_slots : list FreeSlot -> list FreeSlot).
Context (sort_data : list OwnedExtent -> list OwnedExtent).

Definition validate_owner_ranges (owners : OwnerScan) : Result unit :=
  match sort_ranges (owner_ranges owners) with
  | [] => Ok tt
  | r :: l => check_ranges r l
  end.

(** The plan behind the scans. *)
Definition plan_moves (sb : Superblock) (graph : AllocationGraph) (owners : OwnerScan)
    (target fixed : Z) : OwnerRelocationPlan :=
  let free := sort_slots (free_slots (free graph) target) in
  let data := sort_data (List.filter (fun e => target <? o_end e) (extents owners)) in
  let trees := List.filter (fun t => target <=? tb_physical_block t) (tree_blocks owners) in
  let '(p, ok) := place_data data (mkPlacing free 1 [] 0) in
  let data_moved := blocks_moved p in
  let '(p, ok) := if (ok : bool)
                  then place_trees trees (mkPlacing (slots_left p) (next_txn p) (placed_moves p) 0)
                  else (mkPlacing (slots_left p) (next_txn p) (placed_moves p) 0, false) in
  let tail := allocated_tail (allocated graph) target in
  let known := Z.min tail (u64 (u64 (sum_tail_overlap (extents owners) target + zlen trees) + fixed)) in
  let unknown := tail - known in
  mkOwnerPlan (block_size sb) target (u64 (target * block_size sb)) data_moved (blocks_moved p)
    unknown fixed (legacy_blockmap_inodes owners) (allocated_inodes owners) (extent_inodes owners)
    (ok && (legacy_blockmap_inodes owners =? 0) && (unknown =? 0)) ok (placed_moves p).

Definition build_owner_relocation_plan (dev : BlockDevice) (target_bytes : Z) : M OwnerRelocationPlan :=
  sb ← read_superblock dev;
  if sb_size_bytes sb <=? target_bytes
  then failM invalid_argument "target is not smaller than filesystem"
  else
    let target := target_bytes / block_size sb in
    if target <=? first_data_block sb then failM invalid_argument "target is too small"
    else
      graph ← build_allocation_graph dev None;
      owners ← scan_extent_owners sort_by dev target;
      lift (validate_owner_ranges owners);;
      fixed ← fixed_metadata (Z.to_nat (groups_count sb)) dev sb (allocated graph) target 0 0;
      mret (plan_moves sb graph owners target fixed).
End Plan.

(** ** Best fit *)

Definition slot_ok (t : Z) (s : FreeSlot) : Prop :=
  0 <= slot_start s /\ 0 < slot_length s /\ slot_start s + slot_length s <= t.
Definition slot_blocks (l : list FreeSlot) : list Z :=
  concat ((fun s => seqZ (slot_start s) (slot_length s)) <$> l).

Lemma best_loop_spec slots n i best waste :
  let r := best_loop slots n i best waste in
  (r = best /\ forall s, s ∈ slots -> n <= slot_length s -> waste <= slot_length s - n) \/
  (exists k s, r = i + Z.of_nat k /\ slots !! k = Some s /\ n <= slot_length s /\
     slot_length s - n < waste /\
     forall s', s' ∈ slots -> n <= slot_length s' -> slot_length s <= slot_length s').
Proof.
  revert i best waste. induction slots as [|s slots IH]; intros i best waste; cbn [best_loop]; cbv zeta.
  { left. split; [done|]. intros s Hs. by apply elem_of_nil in Hs. }
  destruct (Z.ltb_spec (slot_length s) n) as [Hs|Hs].
  { destruct (IH (i + 1) best waste) as [[-> H]|(k & x & -> & Hk & H1 & H2 & H3)].
    - left. split; [done|]. intros s' [->|Hs']%elem_of_cons; [lia|by apply H].
    - right. exists (S k), x. split_and!; [lia|done|done|done|].
      intros s' [->|Hs']%elem_of_cons; [lia|by apply H3]. }
  destruct (Z.ltb_spec (slot_length s - n) waste) as [Hw|Hw].
  2: { destruct (IH (i + 1) best waste) as [[-> H]|(k & x & -> & Hk & H1 & H2 & H3)].
       - left. split; [done|]. intros s' [->|Hs']%elem_of_cons; [lia|by apply H].
       - right. exists (S k), x. split_and!; [lia|done|done|done|].
         intros s' [->|Hs']%elem_of_cons; [lia|by apply H3]. }
  right. destruct (Z.eqb_spec (slot_length s - n) 0) as [E|_].
  { exists 0%nat, s. split_and!; [lia|done|lia|lia|]. intros s' _ ?. lia. }
  destruct (IH (i + 1) i (slot_length s - n)) as [[-> H]|(k & x & -> & Hk & H1 & H2 & H3)].
  - exists 0%nat, s. split_and!; [lia|done|lia|lia|].
    intros s' [->|Hs']%elem_of_cons ?; [lia|]. specialize (H s' Hs'). lia.
  - exists (S k), x. split_and!; [lia|done|done|lia|].
    intros s' [->|Hs']%elem_of_cons ?; [lia|by apply H3].
Qed.

(** What [allocate_best_fit] promises. *)
Definition best_fit (t : Z) (slots : list FreeSlot) (n : Z) (r : option (list FreeSlot * Z)) : Prop :=
  match r with
  | None => Forall (fun s => slot_length s < n) slots
  | Some (slots', d) =>
      exists s, s ∈ slots /\ d = slot_start s /\ n <= slot_length s /\
        (forall s', s' ∈ slots -> n <= slot_length s' -> slot_length s <= slot_length s') /\
        slot_blocks slots ≡ₚ seqZ d n ++ slot_blocks slots' /\ Forall (slot_ok t) slots'
  end.

Lemma slot_blocks_app l l' : slot_blocks (l ++ l') = slot_blocks l ++ slot_blocks l'.
Proof. apply concat_fmap_app. Qed.

Lemma allocate_best_fit_spec t slots n :
  t < 2 ^ 64 -> 0 < n -> Forall (slot_ok t) slots ->
  best_fit t slots n (allocate_best_fit slots n).
Proof.
  intros Ht Hn Hok. unfold allocate_best_fit.
  destruct (best_loop_spec slots n 0 (zlen slots) u64_max) as [[-> H]|(k & s & -> & Hk & H1 & H2 & H3)].
  - rewrite Z.eqb_refl. cbn. apply list.Forall_forall. intros s Hs.
    rewrite list.Forall_forall in Hok. destruct (Hok s Hs) as (? & ? & ?).
    destruct (Z.lt_ge_cases (slot_length s) n); [done|]. specialize (H s Hs). lia.
  - pose proof (lookup_lt_Some _ _ _ Hk). rewrite (proj2 (Z.eqb_neq _ _)) by zl.
    replace (Z.to_nat (0 + Z.of_nat k)) with k by lia. rewrite Hk. cbn [mbind option_bind].
    destruct (proj1 (list.Forall_forall _ _) Hok s (list_elem_of_lookup_2 _ _ _ Hk)) as (K1 & K2 & K3).
    exists s. split; [by eapply list_elem_of_lookup_2|]. split; [done|]. split; [done|]. split; [done|].
    pose proof (take_drop_middle slots k s Hk) as Hs.
    assert (Hok' : Forall (slot_ok t) (take k slots) /\ Forall (slot_ok t) (drop (S k) slots))
      by (split; [by apply Forall_take|by apply Forall_drop]).
    assert (Hb : slot_blocks slots ≡ₚ seqZ (slot_start s) n ++
      slot_blocks (take k slots) ++ seqZ (slot_start s + n) (slot_length s - n) ++ slot_blocks (drop (S k) slots)).
    { rewrite <-Hs at 1. rewrite slot_blocks_app. change (s :: drop (S k) slots) with ([s] ++ drop (S k) slots).
      rewrite slot_blocks_app. unfold slot_blocks at 2. cbn [fmap list_fmap concat]. rewrite app_nil_r.
      replace (slot_length s) with (n + (slot_length s - n)) at 1 by lia. rewrite seqZ_app by lia.
      rewrite !app_assoc. do 2 f_equiv. apply Permutation_app_comm. }
    rewrite Hb. cbn [slot_length]. destruct (Z.eqb_spec (slot_length s - n) 0) as [E|E].
    + rewrite E. cbn [seqZ app]. rewrite slot_blocks_app. split; [done|]. by apply Forall_app.
    + rewrite insert_take_drop by done. rewrite slot_blocks_app.
      change (?x :: drop (S k) slots) with ([x] ++ drop (S k) slots). rewrite slot_blocks_app.
      unfold slot_blocks at 4. cbn [fmap list_fmap concat slot_start slot_length]. rewrite app_nil_r.
      assert (Hu : u64 (slot_start s + n) = slot_start s + n) by (apply Z.mod_small; lia).
      rewrite Hu. split; [done|]. apply Forall_app. split; [apply Hok'|]. apply Forall_cons.
      split; [|apply Hok']. split_and!; cbn [slot_start slot_length]; lia.
Qed.

(** ** Placement *)

Definition destinations (ms : list OwnerMove) : list Z :=
  concat ((fun m => seqZ (mv_destination_block m) (mv_block_count m)) <$> ms).
Definition sources (ms : list OwnerMove) : list Z :=
  concat ((fun m => seqZ (mv_source_block m) (mv_block_count m)) <$> ms).

(** A move takes an extent, or a tree block, as the scan found it. *)
Definition moves_extent (e : OwnedExtent) (m : OwnerMove) : Prop :=
  mv_kind m = data_extent /\ mv_inode m = o_inode e /\ mv_logical_block m = logical_block e /\
  mv_source_block m = physical_block e /\ mv_block_count m = o_length e /\ mv_unwritten m = unwritten e.
Definition moves_tree (t : ExtentTreeBlock) (m : OwnerMove) : Prop :=
  mv_kind m = extent_tree_block /\ mv_inode m = tb_inode t /\
  mv_source_block m = tb_physical_block t /\ mv_block_count m = 1 /\ mv_tree_depth m = tb_depth t.

(** What the placement keeps: the blocks of the slots are handed out once, and
    the transactions are numbered. *)
Record placing_ok (t : Z) (free : list FreeSlot) (p : Placing) : Prop := {
  pc_blocks : slot_blocks free ≡ₚ destinations (placed_moves p) ++ slot_blocks (slots_left p);
  pc_slots : Forall (slot_ok t) (slots_left p);
  pc_next : next_txn p = 1 + zlen (placed_moves p);
  pc_txns : mv_transaction_id <$> placed_moves p = seqZ 1 (zlen (placed_moves p))
}.

Lemma placing_step t free p slots n m :
  t < 2 ^ 64 -> 0 < n -> placing_ok t free p ->
  allocate_best_fit (slots_left p) n = Some (slots, mv_destination_block m) ->
  mv_block_count m = n -> mv_transaction_id m = next_txn p ->
  forall k, placing_ok t free (mkPlacing slots (next_txn p + 1) (placed_moves p ++ [m]) k).
Proof.
  intros Ht Hn [P1 P2 P3 P4] Ha Hc Hx k.
  pose proof (allocate_best_fit_spec t _ n Ht Hn P2) as H. rewrite Ha in H.
  destruct H as (s & _ & _ & _ & _ & Hb & Hs).
  split; cbn [slots_left next_txn placed_moves].
  - rewrite P1, Hb. unfold destinations. rewrite concat_fmap_app. cbn [fmap list_fmap concat].
    rewrite app_nil_r, Hc. by rewrite !app_assoc.
  - done.
  - rewrite zlen_app. change (zlen [m]) with 1. lia.
  - rewrite fmap_app, P4, zlen_app. change (zlen [m]) with 1. pose proof (zlen_nonneg (placed_moves p)).
    rewrite seqZ_snoc by done. cbn [fmap list_fmap]. by rewrite Hx, P3.
Qed.

Lemma place_data_spec t free data p :
  t < 2 ^ 64 -> placing_ok t free p -> Forall (fun e => 0 < o_length e) data ->
  let '(p', ok) := place_data data p in
  placing_ok t free p' /\
  exists done rest ms, data = done ++ rest /\ placed_moves p' = placed_moves p ++ ms /\
    Forall2 moves_extent done ms /\
    match rest with
    | [] => ok = true
    | e :: _ => ok = false /\ Forall (fun s => slot_length s < o_length e) (slots_left p')
    end.
Proof.
  intros Ht. revert p. induction data as [|e data IH]; intros p Hp Hd; cbn [place_data].
  { split; [done|]. exists [], [], []. rewrite !app_nil_r. split_and!; done || constructor. }
  apply Forall_cons in Hd as [He Hd].
  destruct (allocate_best_fit (slots_left p) (o_length e)) as [[slots dest]|] eqn:Ea.
  - set (m := mkOwnerMove _ _ _ _ _ _ _ _ _).
    pose proof (placing_step t free p slots (o_length e) m Ht He Hp Ea eq_refl eq_refl) as Hs.
    specialize (IH _ (Hs (u64 (blocks_moved p + o_length e))) Hd).
    destruct (place_data data _) as [p' ok]. destruct IH as [Hp' (d & r & ms & -> & E & F & Hr)].
    split; [done|]. exists (e :: d), r, (m :: ms). split_and!; [done| |by constructor|done].
    rewrite E. cbn [placed_moves]. by rewrite <-app_assoc.
  - split; [done|]. exists [], (e :: data), []. rewrite !app_nil_r. split_and!; try (done || constructor).
    pose proof (allocate_best_fit_spec t _ (o_length e) Ht He (pc_slots _ _ _ Hp)) as H.
    by rewrite Ea in H.
Qed.

Lemma place_trees_spec t free trees p :
  t < 2 ^ 64 -> placing_ok t free p ->
  let '(p', ok) := place_trees trees p in
  placing_ok t free p' /\
  exists done rest ms, trees = done ++ rest /\ placed_moves p' = placed_moves p ++ ms /\
    Forall2 moves_tree done ms /\ (ok = true <-> rest = []).
Proof.
  intros Ht. revert p. induction trees as [|e trees IH]; intros p Hp; cbn [place_trees].
  { split; [done|]. exists [], [], []. rewrite !app_nil_r. split_and!; done || constructor. }
  destruct (allocate_best_fit (slots_left p) 1) as [[slots dest]|] eqn:Ea.
  - set (m := mkOwnerMove _ _ _ _ _ _ _ _ _).
    pose proof (placing_step t free p slots 1 m Ht ltac:(lia) Hp Ea eq_refl eq_refl) as Hs.
    specialize (IH _ (Hs (u64 (blocks_moved p + 1)))).
    destruct (place_trees trees _) as [p' ok]. destruct IH as [Hp' (d & r & ms & -> & E & F & Hr)].
    split; [done|]. exists (e :: d), r, (m :: ms). split_and!; [done| |by constructor|done].
    rewrite E. cbn [placed_moves]. by rewrite <-app_assoc.
  - split; [done|]. exists [], (e :: trees), []. rewrite !app_nil_r. split_and!; done || constructor; done.
Qed.

(** ** Ownership *)

Definition range_blocks (l : list OwnerRange) : list Z :=
  concat ((fun r => seqZ (r_start r) (r_end r - r_start r)) <$> l).

Lemma check_ranges_disjoint prev l :
  r_start prev < r_end prev -> Forall (fun r => r_start r < r_end r) l ->
  check_ranges prev l = Ok tt ->
  NoDup (range_blocks (prev :: l)) /\ Forall (fun b => r_start prev <= b) (range_blocks (prev :: l)).
Proof.
  revert prev. induction l as [|r l IH]; intros prev Hp Hl Hc; cbn [check_ranges] in Hc.
  - unfold range_blocks. cbn [fmap list_fmap concat]. rewrite !app_nil_r. split; [apply NoDup_seqZ|].
    apply Forall_seqZ. intros; lia.
  - destruct (Z.ltb_spec (r_start r) (r_end prev)); [done|]. apply Forall_cons in Hl as [Hr Hl].
    destruct (IH r Hr Hl Hc) as [Hn Hf].
    change (range_blocks (prev :: r :: l))
      with (seqZ (r_start prev) (r_end prev - r_start prev) ++ range_blocks (r :: l)).
    split.
    + apply NoDup_app. split_and!; [apply NoDup_seqZ| |done]. intros b Hb Hb'.
      apply elem_of_seqZ in Hb. rewrite list.Forall_forall in Hf. specialize (Hf b Hb'). lia.
    + apply Forall_app. split; [apply Forall_seqZ; intros; lia|].
      eapply Forall_impl; [exact Hf|]. cbn. intros; lia.
Qed.

Lemma validate_owner_ranges_nodup sort_ranges owners :
  (forall l, sort_ranges l ≡ₚ l) ->
  Forall (fun r => r_start r < r_end r) (owner_ranges owners) ->
  validate_owner_ranges sort_ranges owners = Ok tt -> NoDup (range_blocks (owner_ranges owners)).
Proof.
  intros Hsort Hpos. unfold validate_owner_ranges. intros Hv.
  unfold range_blocks. rewrite <-(concat_fmap_permute _ _ _ (Hsort (owner_ranges owners))).
  rewrite <-Hsort in Hpos. destruct (sort_ranges (owner_ranges owners)) as [|r l]; [apply NoDup_nil_2|].
  apply Forall_cons in Hpos as [Hr Hl]. by apply check_ranges_disjoint.
Qed.

(** On sorted ranges the check is exact: an error means that a block has two
    owners. *)
Definition ranges_sorted (l : list OwnerRange) : Prop :=
  StronglySorted (fun a b => range_lt b a = false) l.

Lemma range_lt_start a b : range_lt b a = false -> r_start a <= r_start b.
Proof.
  unfold range_lt. destruct (Z.eqb_spec (r_start b) (r_start a)) as [->|]; cbn [negb]; [lia|].
  destruct (Z.ltb_spec (r_start b) (r_start a)); [done|lia].
Qed.

Lemma check_ranges_complete prev l :
  ranges_sorted (prev :: l) -> Forall (fun r => r_start r < r_end r) (prev :: l) ->
  NoDup (range_blocks (prev :: l)) -> check_ranges prev l = Ok tt.
Proof.
  revert prev. induction l as [|r l IH]; intros prev Hs Hp Hd; [done|]. cbn [check_ranges].
  apply StronglySorted_inv in Hs as [Hs Hle]. apply Forall_cons in Hle as [Hle _].
  apply range_lt_start in Hle. apply Forall_cons in Hp as [Hp0 Hp]. pose proof Hp as [Hr _]%Forall_cons.
  change (range_blocks (prev :: r :: l))
    with (seqZ (r_start prev) (r_end prev - r_start prev) ++ range_blocks (r :: l)) in Hd.
  apply NoDup_app in Hd as (_ & Hx & Hd). destruct (Z.ltb_spec (r_start r) (r_end prev)); [|by apply IH].
  destruct (Hx (r_start r)); [apply elem_of_seqZ; lia|].
  apply elem_of_app. left. apply elem_of_seqZ. lia.
Qed.

Lemma validate_owner_ranges_exact sort_ranges owners :
  (forall l, sort_ranges l ≡ₚ l /\ ranges_sorted (sort_ranges l)) ->
  Forall (fun r => r_start r < r_end r) (owner_ranges owners) ->
  validate_owner_ranges sort_ranges owners = Ok tt <-> NoDup (range_blocks (owner_ranges owners)).
Proof.
  intros Hsort Hpos. split; [apply validate_owner_ranges_nodup; [apply Hsort|done]|].
  destruct (Hsort (owner_ranges owners)) as [Hp Hs]. intros Hd. unfold validate_owner_ranges.
  rewrite <-Hp in Hpos. unfold range_blocks in Hd. rewrite <-(concat_fmap_permute _ _ _ Hp) in Hd.
  destruct (sort_ranges (owner_ranges owners)) as [|r l]; [done|]. by apply check_ranges_complete.
Qed.

(** ** Slots *)

Lemma free_slots_dests l t :
  free_slots l t = (fun e => mkSlot (e_start e) (e_length e)) <$> dests_of l t.
Proof.
  induction l as [|e l IH]; [done|]. cbn [free_slots dests_of].
  destruct (t <=? e_start e); [done|]. cbv zeta. destruct (_ <? Z.min _ _); [|done].
  by rewrite IH.
Qed.

Lemma free_slots_spec n l t :
  n < 2 ^ 64 -> t <= n -> Forall (extent_ok n) l -> StronglySorted Z.lt (blocks_of l) ->
  slot_blocks (free_slots l t) = filter (fun b => b < t) (blocks_of l) /\
  Forall (slot_ok n) (free_slots l t).
Proof.
  intros Hn Ht Hl Hs. destruct (dests_of_spec n l t Hn Hl Hs) as [H1 H2].
  rewrite free_slots_dests. split.
  - rewrite <-H1. unfold slot_blocks, blocks_of. by rewrite <-list_fmap_compose.
  - apply Forall_fmap. eapply Forall_impl; [exact H2|]. by intros e (? & ? & ?).
Qed.

(** ** The plan *)

Definition extent_blocks (l : list OwnedExtent) : list Z :=
  concat ((fun e => seqZ (physical_block e) (o_length e)) <$> l).

Lemma sources_extents es ms : Forall2 moves_extent es ms -> sources ms = extent_blocks es.
Proof.
  induction 1 as [|e m es ms (_ & _ & _ & Hs & Hc & _) _ IH]; [done|].
  unfold sources, extent_blocks in *. cbn [fmap list_fmap concat]. by rewrite IH, Hs, Hc.
Qed.

Lemma sources_trees ts ms : Forall2 moves_tree ts ms -> sources ms = tb_physical_block <$> ts.
Proof.
  induction 1 as [|t m ts ms (_ & _ & Hs & Hc & _) _ IH]; [done|].
  unfold sources in *. cbn [fmap list_fmap concat]. by rewrite IH, Hs, Hc.
Qed.

Lemma o_end_inside n e : n < 2 ^ 64 -> extent_inside n e -> o_end e = physical_block e + o_length e.
Proof. intros Hn (H1 & H2 & H3). apply Z.mod_small. lia. Qed.

Lemma owner_ranges_blocks n owners :
  n < 2 ^ 64 -> Forall (extent_inside n) (extents owners) ->
  range_blocks (owner_ranges owners)
  = extent_blocks (extents owners) ++ (tb_physical_block <$> tree_blocks owners) /\
  Forall (fun r => r_start r < r_end r) (owner_ranges owners).
Proof.
  intros Hn Hin. unfold owner_ranges, range_blocks. rewrite concat_fmap_app. split.
  - f_equal.
    + unfold extent_blocks. f_equal. rewrite <-list_fmap_compose.
      apply list_fmap_ext. intros i e He. cbn.
      rewrite list.Forall_lookup in Hin. rewrite (o_end_inside n e Hn) by by eapply Hin.
      f_equal. lia.
    + induction (tree_blocks owners) as [|t ts IH]; [done|]. cbn [fmap list_fmap concat].
      rewrite IH. cbn [r_start r_end]. by replace (_ + 1 - _) with 1 by lia.
  - apply Forall_app. split; apply Forall_fmap.
    + eapply Forall_impl; [exact Hin|]. intros e He. cbn. rewrite (o_end_inside n e Hn He).
      destruct He as (_ & ? & _). lia.
    + apply list.Forall_forall. intros t _. cbn. lia.
Qed.

Lemma filter_true {A} (f : A -> bool) l : Forall (fun x => f x = true) l -> List.filter f l = l.
Proof. induction 1 as [|x l H _ IH]; [done|]. cbn. by rewrite H, IH. Qed.

(** What is left to say of a plan once its owners [es] and [ts] are known. *)
Record plan_of (base : bytes) (sb : Superblock) (target : Z) (es : list OwnedExtent)
    (ts : list ExtentTreeBlock) (p : OwnerRelocationPlan) : Prop := {
  po_destinations : NoDup (destinations (pl_moves p));
  po_free : Forall (fun b => first_data_block sb <= b < target /\ block_used base sb b = false)
              (destinations (pl_moves p));
  po_sources : NoDup (sources (pl_moves p));
  po_txns : mv_transaction_id <$> pl_moves p = seqZ 1 (zlen (pl_moves p));
  po_owners : exists es' ts' ms ns,
    pl_moves p = ms ++ ns /\ Forall2 moves_extent es' ms /\ Forall2 moves_tree ts' ns /\
    es' ⊆+ es /\ ts' ⊆+ ts /\
    (destinations_available p = true <-> es' ≡ₚ es /\ ts' ≡ₚ ts)
}.

Lemma moves_nodup es' ts' ms ns es ts :
  Forall2 moves_extent es' ms -> Forall2 moves_tree ts' ns -> es' ⊆+ es -> ts' ⊆+ ts ->
  NoDup (extent_blocks es ++ (tb_physical_block <$> ts)) -> NoDup (sources (ms ++ ns)).
Proof.
  intros He Ht [re Hre]%submseteq_Permutation [rt Hrt]%submseteq_Permutation Hn.
  unfold sources. rewrite concat_fmap_app. fold (sources ms) (sources ns).
  rewrite (sources_extents _ _ He), (sources_trees _ _ Ht).
  assert (Hp : extent_blocks es ++ (tb_physical_block <$> ts) ≡ₚ
    (extent_blocks es' ++ (tb_physical_block <$> ts')) ++ extent_blocks re ++ (tb_physical_block <$> rt)).
  { rewrite Hrt, fmap_app. unfold extent_blocks at 1.
    rewrite (concat_fmap_permute _ _ _ Hre), concat_fmap_app. fold (extent_blocks es') (extent_blocks re).
    rewrite <-!app_assoc. f_equiv. rewrite !app_assoc. f_equiv. apply Permutation_app_comm. }
  rewrite Hp in Hn. by apply NoDup_app in Hn as [Hn _].
Qed.

Lemma placing_start t free : Forall (slot_ok t) free -> placing_ok t free (mkPlacing free 1 [] 0).
Proof. intros H. by split. Qed.

Lemma nodup_slots n l t :
  n < 2 ^ 64 -> t <= n -> Forall (extent_ok n) l -> StronglySorted Z.lt (blocks_of l) ->
  NoDup (blocks_of l) -> NoDup (slot_blocks (free_slots l t)).
Proof.
  intros Hn Ht Hl Hs Hd. destruct (free_slots_spec n l t Hn Ht Hl Hs) as [-> _]. by apply NoDup_filter.
Qed.

Lemma plan_moves_spec base sb g owners target fixed sort_slots sort_data :
  blocks_count sb < 2 ^ 64 -> target < blocks_count sb -> exact_graph base sb g ->
  (forall l, sort_slots l ≡ₚ l) -> (forall l, sort_data l ≡ₚ l) ->
  Forall (extent_inside (blocks_count sb)) (extents owners) ->
  Forall (fun e => target < o_end e) (extents owners) ->
  Forall (fun t => target <= tb_physical_block t) (tree_blocks owners) ->
  NoDup (range_blocks (owner_ranges owners)) ->
  plan_of base sb target (extents owners) (tree_blocks owners)
    (plan_moves sort_slots sort_data sb g owners target fixed).
Proof.
  intros Hn Ht (_ & _ & _ & Ef & _ & _ & _ & Of) Hss Hsd Hin Hend Htree Hdis.
  destruct (owner_ranges_blocks _ _ Hn Hin) as [Hr _]. rewrite Hr in Hdis.
  assert (Hsorted : StronglySorted Z.lt (blocks_of (free g)))
    by (rewrite Ef; apply filter_sorted, seqZ_sorted).
  destruct (free_slots_spec (blocks_count sb) (free g) target Hn ltac:(lia) Of Hsorted) as [Fb Fo].
  set (free0 := free_slots (free g) target) in *.
  assert (Hfo : Forall (slot_ok (blocks_count sb)) (sort_slots free0)) by (by rewrite Hss).
  unfold plan_moves. fold free0.
  rewrite (filter_true (fun e => target <? o_end e)) by (eapply Forall_impl; [exact Hend|]; cbn; lia).
  rewrite (filter_true (fun t => target <=? tb_physical_block t))
    by (eapply Forall_impl; [exact Htree|]; cbn; lia).
  pose proof (place_data_spec _ (sort_slots free0) (sort_data (extents owners)) _ Hn
    (placing_start _ _ Hfo)) as Hd.
  destruct (place_data _ _) as [p ok]. destruct Hd as [Hp (es & er & ms & Ee & Em & Fe & Hok)].
  { rewrite Hsd. eapply Forall_impl; [exact Hin|]. by intros e (_ & ? & _). }
  cbn [placed_moves app] in Em.
  assert (Hes : es ⊆+ extents owners)
    by (rewrite <-(Hsd (extents owners)), Ee; apply submseteq_inserts_r; reflexivity).
  assert (Hp' : placing_ok (blocks_count sb) (sort_slots free0)
    (mkPlacing (slots_left p) (next_txn p) (placed_moves p) 0)) by (destruct Hp; by split).
  (* the tree blocks *)
  assert (Hq : exists q ok' ts ns,
    (if ok then place_trees (tree_blocks owners) (mkPlacing (slots_left p) (next_txn p) (placed_moves p) 0)
     else (mkPlacing (slots_left p) (next_txn p) (placed_moves p) 0, false)) = (q, ok') /\
    placing_ok (blocks_count sb) (sort_slots free0) q /\ placed_moves q = ms ++ ns /\
    Forall2 moves_tree ts ns /\ ts ⊆+ tree_blocks owners /\
    (ok' = true <-> er = [] /\ ts ≡ₚ tree_blocks owners)).
  { destruct er as [|e er].
    - subst ok. pose proof (place_trees_spec _ (sort_slots free0) (tree_blocks owners) _ Hn Hp') as H.
      destruct (place_trees _ _) as [q ok']. destruct H as [Hq (ts & tr & ns & Et & En & Ft & Hiff)].
      exists q, ok', ts, ns. split_and!; try done.
      + by rewrite En, <-Em.
      + rewrite Et. apply submseteq_inserts_r. reflexivity.
      + rewrite Hiff. split; [intros ->; split; [done|]; by rewrite Et, app_nil_r|].
        intros [_ E]. apply Permutation_length in E. rewrite Et, length_app in E.
        apply nil_length_inv. lia.
    - destruct Hok as [-> _]. eexists _, false, [], []. split_and!; try done.
      + by rewrite app_nil_r.
      + apply submseteq_nil_l.
      + split; [done|]. by intros [? _]. }
  destruct Hq as (q & ok' & ts & ns & -> & [Q1 Q2 Q3 Q4] & Qm & Ft & Hts & Hiff).
  assert (Hfree : slot_blocks (sort_slots free0) ≡ₚ filter (fun b => b < target) (blocks_of (free g)))
    by (rewrite <-Fb; apply concat_fmap_permute, Hss).
  assert (Hnd : NoDup (destinations (placed_moves q) ++ slot_blocks (slots_left q))).
  { rewrite <-Q1, Hfree, Ef. apply NoDup_filter, NoDup_filter, NoDup_seqZ. }
  split; cbn [pl_moves destinations_available].
  - by apply NoDup_app in Hnd as [Hnd _].
  - apply list.Forall_forall. intros b Hb.
    assert (Hb' : b ∈ filter (fun b => b < target) (blocks_of (free g)))
      by (rewrite <-Hfree, Q1; apply elem_of_app; by left).
    rewrite Ef in Hb'. apply list_elem_of_filter in Hb' as [Hlt Hb'].
    apply list_elem_of_filter in Hb' as [Hu Hb']. apply elem_of_seqZ in Hb'. split; [lia|done].
  - rewrite Qm. by eapply moves_nodup.
  - exact Q4.
  - exists es, ts, ms, ns. split_and!; try done. rewrite Hiff.
    assert (Hl : (length es + length er = length (extents owners))%nat)
      by (rewrite <-length_app, <-Ee; by rewrite Hsd).
    split; intros [P1 P2]; (split; [|exact P2]).
    + subst er. rewrite app_nil_r in Ee. by rewrite <-Ee, Hsd.
    + apply nil_length_inv. rewrite P1 in Hl. lia.
Qed.

(** ** The whole operation *)

Lemma fixed_metadata_reads dev base sb allocated target n g count h :
  wstate dev base [] h -> 0 <= g ->
  yields (fixed_metadata n dev sb allocated target g count) h (fun _ => True).
Proof.
  revert g count h. induction n as [|n IH]; intros g count h Hw Hg; cbn [fixed_metadata];
    [by apply yields_ret|].
  step Hw by (exact (read_group_desc_spec dev base [] sb g _ Hw Hg)) as gd Hgd.
  step Hw by (apply yields_lift; intros c Hc; exact Hc) as c Hc. apply IH; [done|lia].
Qed.

Lemma plan_of_permute base sb target es es' ts p :
  es ≡ₚ es' -> plan_of base sb target es ts p -> plan_of base sb target es' ts p.
Proof.
  intros He [H1 H2 H3 H4 (a & b & ms & ns & E & F1 & F2 & S1 & S2 & Hd)].
  split; try done. exists a, b, ms, ns. split_and!; try done; [by rewrite <-He|].
  by rewrite Hd, He.
Qed.


