(* ===== verification/JournalUse.v ===== *)
(** Clients of the transaction journal.

    No code of its own.  An operation on a file system keeps a journal beside
    it; what it needs to know of the journal's methods is that they end, leave
    every other file alone and keep the journal usable.  [K] is the set of the
    files that must be left alone: [leaves K m h P] says that [m] does so
    wherever it stops, and returns with [P] if it returns. *)
From S2P Require Import Prelude Errors Host Device Uuid FileUtil JournalFormat Journal Safety Durable.
#[local] Open Scope Z_scope.
#[local] Opaque encode_header decode_header encode_record decode_record slice load_image.

(** ** Methods of a journal *)

(** A method whose value the caller uses. *)
Definition query {A} (m : J A) (j : TransactionJournal) : M (A * TransactionJournal) :=
  rj ← m j; match rj with (Ok a, j') => mret (a, j') | (Err e, _) => raise e end.


(** The journal's file is there and plain. *)
Definition usable (j : TransactionJournal) (h : Host) : Prop :=
  0 <= record_count (status_ j) /\ exists f, dev_file h (device_ j) f /\ f_kind f = Regular.

Lemma usable_same j h h' :
  h_files h' !! fd_ (device_ j) = h_files h !! fd_ (device_ j) -> usable j h -> usable j h'.
Proof.
  intros E (H2 & f & [Hf Hok] & Hk). split; [done|]. exists f.
  split; [split; [by rewrite E|done]|done].
Qed.

(** A method called on [j] that keeps the journal usable. *)
Definition safe {A} (m : J A) (j : TransactionJournal) : Prop :=
  forall h, usable j h ->
    runs (device_ j) (m j) h (fun _ => True) (fun rj h' => device_ rj.2 = device_ j /\ usable rj.2 h').

Lemma safe_ret {A} (a : A) j : safe (mret a) j.
Proof. intros h Hh. by apply runs_ret. Qed.
Lemma safe_err {A} e j : safe (errJ (A:=A) e) j.
Proof. intros h Hh. by apply runs_ret. Qed.
Lemma safe_fail {A} c msg j : safe (failJ (A:=A) c msg) j.
Proof. intros h Hh. by apply runs_ret. Qed.
Lemma safe_bind {A B} (m : J A) (k : A -> J B) j :
  safe m j -> (forall a j', safe (k a) j') -> safe (m ≫= k) j.
Proof.
  intros Hm Hk h Hh. unfold mbind, J_bind. eapply runs_bind; [by apply Hm|].
  intros [[a|e] j'] h' _ [Ed Hh']; cbn in Ed, Hh'; [rewrite <-Ed; by apply Hk|by apply runs_ret].
Qed.
Lemma safe_this {A} (k : TransactionJournal -> J A) j :
  (0 <= record_count (status_ j) -> safe (k j) j) -> safe (this ≫= k) j.
Proof. intros Hk h Hh. exact (Hk (proj1 Hh) h Hh). Qed.
Lemma safe_update f j :
  (0 <= record_count (status_ j) -> 0 <= record_count (f (status_ j))) -> safe (update f) j.
Proof. intros Hf h (H2 & H3). apply runs_ret. split; [done|]. split; [by apply Hf|done]. Qed.

(** What an operation on the journal's own device has to do. *)
Lemma safe_dev {A} (m : BlockDevice -> M A) j :
  (forall h f, dev_file h (device_ j) f -> f_kind f = Regular ->
     wp (m (device_ j)) h (fun o h' => o <> OutOfFuel /\ only_device (device_ j) h h' /\
       exists f', dev_file h' (device_ j) f' /\ f_kind f' = Regular)) ->
  safe (dev m) j.
Proof.
  intros Hm h (H2 & f & Hf & Hk). unfold dev. apply wp_bind, wp_attempt.
  eapply wp_mono; [by apply (Hm h f)|]. intros o h' (Hne & Ho & Hf').
  destruct o as [a|e|s|]; [by split_and!..|by split|done].
Qed.
Lemma safe_read off n j : 0 <= off -> 0 <= n -> safe (dev (fun d => read_exact d off n)) j.
Proof.
  intros Ho Hn. apply safe_dev. intros h f Hf Hk.
  eapply wp_mono; [by apply (read_exact_spec _ off n h f)|]. intros o h' (Hq & Hne & _).
  split_and!; [done|by apply only_device_quiet|]. exists f. split; [by eapply dev_file_quiet|done].
Qed.
Lemma safe_write off data j : 0 <= off -> safe (dev (fun d => write_exact d off data)) j.
Proof.
  intros Ho. apply safe_dev. intros h f Hf Hk. pose proof Hf as [Hfile Hok].
  eapply wp_mono; [by apply (write_exact_spec _ off data h f)|].
  intros o h' ((Hne & ws & Hch & Hfs & _) & _ & Hin).
  split_and!; [done|by eapply only_device_files|].
  destruct Hin as [Hin|Hq]; [|exists f; split; [by eapply dev_file_quiet|done]].
  exists (add_writes ws f). split; [|done]. split; [|by eapply file_ok_add_writes].
  destruct Hfs as (-> & _). apply lookup_insert_eq.
Qed.
Lemma safe_flush j : safe (dev Device.flush) j.
Proof.
  apply safe_dev. intros h f Hf Hk. eapply wp_mono; [apply (flush_spec _ h f), Hf|].
  intros o h' (Hne & [Hfs|[Hq _]]); (split; [done|]).
  - split; [by eapply only_device_files|]. exists (synced f). split; [|done].
    destruct Hf as [_ Hok]. split; [|by apply file_ok_synced].
    destruct Hfs as (-> & _). apply lookup_insert_eq.
  - split; [by apply only_device_quiet|]. exists f. split; [by eapply dev_file_quiet|done].
Qed.

Lemma count_noted rs s : record_count (foldl note_record s rs) = record_count s.
Proof. revert s. induction rs as [|r rs IH]; intros s; cbn [foldl]; [done|]. by rewrite IH. Qed.

Lemma safe_write_header slot seq ph n j : 0 <= slot -> safe (write_header slot seq ph n) j.
Proof.
  intros Hs. apply safe_this. intros _. destruct (negb _); [apply safe_fail|].
  apply safe_write. unfold header_bytes. lia.
Qed.

Lemma safe_write_records rs i j : 0 <= i -> safe (write_records rs i) j.
Proof.
  revert i j. induction rs as [|r rs IH]; intros i j Hi; cbn [write_records]; [apply safe_ret|].
  apply safe_this. intros Hc. apply safe_bind; [apply safe_write; unfold records_offset, header_bytes, record_bytes; nia|].
  intros _ j'. apply IH. lia.
Qed.

Lemma slot_nonneg x : 0 <= Z.land x 1.
Proof. destruct (slot_bit x) as [->| ->]; lia. Qed.

Lemma safe_append_batch rs j : safe (append_batch rs) j.
Proof.
  apply safe_this. intros Hc. destruct (negb _); [apply safe_fail|].
  destruct rs as [|r rs]; [apply safe_ret|]. cbv zeta. destruct (_ || _); [apply safe_fail|].
  apply safe_bind; [by apply safe_write_records|]. intros _ j1.
  apply safe_bind; [apply safe_flush|]. intros _ j2.
  apply safe_bind; [apply safe_write_header, slot_nonneg|]. intros _ j3.
  apply safe_bind; [apply safe_flush|]. intros _ j4.
  apply safe_update. intros _. rewrite count_noted. cbn [record_count with_sequence].
  pose proof (zlen_nonneg (r :: rs)). lia.
Qed.

Lemma safe_checkpoint ph j : safe (checkpoint ph) j.
Proof.
  apply safe_this. intros _. destruct (negb _); [apply safe_fail|].
  apply safe_bind; [apply safe_append_batch|]. intros _ j1. apply safe_this. intros _. cbv zeta.
  apply safe_bind; [apply safe_write_header, slot_nonneg|]. intros _ j3.
  apply safe_bind; [apply safe_flush|]. intros _ j4. by apply safe_update.
Qed.

Lemma safe_records j : safe records j.
Proof.
  apply safe_this. intros _. generalize (Z.to_nat (record_count (status_ j))). intros n.
  assert (Hi : 0 <= 0) by lia. revert Hi. generalize 0 at 2 3. intros i. revert i j.
  induction n as [|n IH]; intros i j Hi; cbn [read_records]; [apply safe_ret|].
  apply safe_bind; [apply safe_read; unfold records_offset, header_bytes, record_bytes; nia|].
  intros b j1. destruct (decode_record b); [|apply safe_err].
  apply safe_bind; [apply IH; lia|]. intros rs j2. apply safe_ret.
Qed.

Lemma run_on_spec (m : J unit) j h :
  safe m j -> usable j h ->
  runs (device_ j) (run_on m j) h (fun _ => True) (fun j' h' => device_ j' = device_ j /\ usable j' h').
Proof.
  intros Hm Hh. eapply runs_bind; [by apply Hm|]. intros [[u|e] j'] h' _ Hh'; [by apply runs_ret|].
  by split.
Qed.
Lemma query_spec {A} (m : J A) j h :
  safe m j -> usable j h ->
  runs (device_ j) (query m j) h (fun _ => True) (fun p h' => device_ p.2 = device_ j /\ usable p.2 h').
Proof.
  intros Hm Hh. eapply runs_bind; [by apply Hm|]. intros [[a|e] j'] h' _ Hh'; [by apply runs_ret|].
  by split.
Qed.

Lemma flush_usable j h :
  usable j h ->
  runs (device_ j) (Device.flush (device_ j)) h (fun _ => True) (fun _ h' => usable j h').
Proof.
  intros (Hc & f & Hf & Hk). eapply wp_mono; [apply (flush_spec _ h f), Hf|].
  intros o h' (Hne & Hcase).
  assert (Hu : only_device (device_ j) h h' /\ usable j h').
  { destruct Hcase as [Hfs|[Hq _]].
    - split; [by eapply only_device_files|]. split; [done|]. exists (synced f). split; [|done].
      destruct Hf as [_ Hok]. split; [|by apply file_ok_synced].
      destruct Hfs as (-> & _). apply lookup_insert_eq.
    - split; [by apply only_device_quiet|]. split; [done|]. exists f.
      split; [by eapply dev_file_quiet|done]. }
  destruct Hu as [Ho Hu]. split; [done|]. by destruct o.
Qed.

(** ** Files left alone *)

Section Use.
Context (K : Z -> Prop).

Definition spares (h h' : Host) : Prop :=
  (forall fd, K fd -> h_files h' !! fd = h_files h !! fd) /\ h_next h <= h_next h'.

Lemma spares_refl h : spares h h.
Proof. done. Qed.
Lemma spares_trans h1 h2 h3 : spares h1 h2 -> spares h2 h3 -> spares h1 h3.
Proof.
  intros [A1 A2] [B1 B2]. split; [|lia]. intros fd Hfd. by rewrite (B1 fd Hfd), (A1 fd Hfd).
Qed.
Lemma spares_quiet h h' : quiet h h' -> spares h h'.
Proof. intros (Hf & _ & _ & Hn & _). split; [by rewrite Hf|lia]. Qed.
Lemma spares_device d h h' : ~ K (fd_ d) -> only_device d h h' -> spares h h'.
Proof. intros Hk (Hf & _ & _ & Hn & _). split; [|lia]. intros fd Hfd. apply Hf. by intros ->. Qed.
Lemma spares_fresh h h' : (forall fd, K fd -> fd < h_next h) -> fresh_only h h' -> spares h h'.
Proof. intros Hk (Hf & Hn & _). split; [|done]. intros fd Hfd. by apply Hf, Hk. Qed.
Lemma spares_names h h' : names_only h h' -> spares h h'.
Proof. intros (Hf & Hn & _). split; [by rewrite Hf|lia]. Qed.

Definition leaves {A} (m : M A) (h : Host) (P : A -> Host -> Prop) : Prop :=
  wp m h (fun o h' => spares h h' /\
    match o with Ret a => P a h' | OutOfFuel => False | Fail _ | Exit _ => True end).

Lemma leaves_ret {A} (a : A) h (P : A -> Host -> Prop) : P a h -> leaves (mret a) h P.
Proof. by split. Qed.
Lemma leaves_raise {A} e h (P : A -> Host -> Prop) : leaves (raise e) h P.
Proof. by split. Qed.
Lemma leaves_failM {A} c msg h (P : A -> Host -> Prop) : leaves (failM c msg) h P.
Proof. by split. Qed.
Lemma leaves_lift {A} (r : Result A) h (P : A -> Host -> Prop) :
  (forall a, r = Ok a -> P a h) -> leaves (lift r) h P.
Proof. destruct r as [a|e]; intros H; [by apply leaves_ret, H|by split]. Qed.
Lemma leaves_mono {A} (m : M A) h (P Q : A -> Host -> Prop) :
  leaves m h P -> (forall a h', spares h h' -> P a h' -> Q a h') -> leaves m h Q.
Proof.
  unfold leaves. intros H HQ. eapply wp_mono; [exact H|]. intros o h' [Hs Ho]. split; [done|].
  destruct o; try done. by apply HQ.
Qed.
Lemma leaves_bind {A B} (m : M A) (k : A -> M B) h (P : A -> Host -> Prop) (Q : B -> Host -> Prop) :
  leaves m h P -> (forall a h', spares h h' -> P a h' -> leaves (k a) h' Q) -> leaves (m ≫= k) h Q.
Proof.
  unfold leaves. intros H HQ. apply wp_bind. eapply wp_mono; [exact H|]. intros o h' [Hs Ho].
  destruct o as [a|e|s|]; cbn [carry]; [|by split..|done].
  eapply wp_mono; [by apply (HQ a h')|]. intros o h2 [Hs2 Ho2].
  split; [by eapply spares_trans|done].
Qed.
Lemma leaves_quiet {A} (m : M A) h (P : A -> Host -> Prop) :
  wp m h (fun o h' => quiet h h' /\ o <> OutOfFuel /\ forall a, o = Ret a -> P a h') -> leaves m h P.
Proof.
  unfold leaves. intros H. eapply wp_mono; [exact H|]. intros o h' (Hq & Hne & Hv). split; [by apply spares_quiet|].
  destruct o; try done. by apply Hv.
Qed.

(** A journal whose file is not one of [K]. *)
Definition held (j : TransactionJournal) (h : Host) : Prop := ~ K (fd_ (device_ j)) /\ usable j h.

Lemma held_same j h h' :
  h_files h' !! fd_ (device_ j) = h_files h !! fd_ (device_ j) -> held j h -> held j h'.
Proof. intros E [H1 H2]. split; [done|by eapply usable_same]. Qed.

Lemma runs_leaves {A} d (m : M A) h (P : A -> Host -> Prop) :
  ~ K (fd_ d) -> runs d m h (fun _ => True) P -> leaves m h (fun a h' => only_device d h h' /\ P a h').
Proof.
  intros Hk H. apply runs_wp in H. unfold leaves. eapply wp_mono; [exact H|].
  intros o h' [Ho Hp]. split; [by eapply spares_device|]. by destruct o.
Qed.

Lemma run_on_leaves (m : J unit) j h : safe m j -> held j h -> leaves (run_on m j) h held.
Proof.
  intros Hm [Hk Hh]. eapply leaves_mono; [eapply runs_leaves; [exact Hk|by apply run_on_spec]|].
  intros j' h' _ (_ & E & H). split; [by rewrite E|done].
Qed.
Lemma query_leaves {A} (m : J A) j h :
  safe m j -> held j h -> leaves (query m j) h (fun p h' => held p.2 h').
Proof.
  intros Hm [Hk Hh]. eapply leaves_mono; [eapply runs_leaves; [exact Hk|by apply query_spec]|].
  intros j' h' _ (_ & E & H). split; [by rewrite E|done].
Qed.

(** ** Opening and creating a journal *)

(** A name of a usable file: a plain file that is not one of [K]. *)
Definition plain_name (path : string) (h : Host) : Prop :=
  forall fd, h_names h !! path = Some fd -> ~ K fd /\
    exists f, h_files h !! fd = Some f /\ f_kind f = Regular /\ file_ok (zlen (f_durable f)) f.

Lemma plain_name_quiet path h h' : quiet h h' -> plain_name path h -> plain_name path h'.
Proof. intros (Hf & Hn & _). unfold plain_name. by rewrite Hf, Hn. Qed.

Lemma open_device_leaves path write h :
  plain_name path h ->
  leaves (open_device_impl path write) h (fun d h' => quiet h h' /\ ~ K (fd_ d) /\
    exists f, dev_file h' d f /\ f_kind f = Regular).
Proof.
  intros Hp. apply leaves_quiet. unfold open_device_impl. apply wp_bind. apply sys_call_res_spec.
  { intros e h1 Hq. by split_and!. }
  intros h1 Hq. pose proof (plain_name_quiet _ _ _ Hq Hp) as Hp1.
  destruct (h_names h1 !! path) as [fd|] eqn:En; cbn [fst snd carry]; [|by split_and!].
  destruct (Hp1 fd En) as (Hk & f & Hf & Hr & Hok). apply wp_bind.
  unfold geometry_for. apply wp_bind. apply sys_call_spec.
  { intros e h2 Hq2. cbn [carry]. split_and!; [by eapply quiet_trans|done|done]. }
  intros h2 Hq2. cbn [fst snd carry].
  assert (Hf2 : h_files h2 !! fd = Some f) by (destruct Hq2 as (-> & _); done).
  assert (Ef : file_of h2 fd = f) by (unfold file_of; by rewrite Hf2).
  rewrite Ef, Hr. cbv zeta. cbn [is_block_device negb orb]. apply wp_bind.
  unfold wp at 1, get_host. cbn [fst snd carry]. apply wp_ret. cbn [carry]. apply wp_ret.
  assert (Hq3 : quiet h h2) by (by eapply quiet_trans).
  split_and!; [done|done|]. intros d [= <-]. split_and!; [done|done|]. exists f. split; [|done].
  split; [done|]. cbn [geometry size_bytes]. rewrite Ef, (zlen_content _ _ Hok).
  destruct Hok as [_ Hin]. by split.
Qed.

Lemma select_header_nonneg a b h :
  select_header (decode_header a) (decode_header b) = Ok h -> 0 <= dh_record_count h.
Proof.
  unfold select_header.
  destruct (decode_header a) as [ha|] eqn:Ea; destruct (decode_header b) as [hb|] eqn:Eb; [| | |done].
  - destruct (_ || _); [done|]. intros [= <-]. apply decode_header_ok_fields in Ea as (_ & _ & Ha & _).
    apply decode_header_ok_fields in Eb as (_ & _ & Hb & _). by destruct (_ <=? _).
  - intros [= <-]. by apply decode_header_ok_fields in Ea as (_ & _ & Ha & _).
  - intros [= <-]. by apply decode_header_ok_fields in Eb as (_ & _ & Hb & _).
Qed.

Lemma load_image_nonneg img hd rs : load_image img = Ok (hd, rs) -> 0 <= dh_record_count hd.
Proof.
  Transparent load_image. unfold load_image, slot_header. Opaque load_image. intros Hl.
  destruct (select_header _ _) as [hd'|] eqn:Es; [|done]. cbn [bindR] in Hl.
  destruct (_ <? _); [done|]. destruct (scan_records _ _ _); [|done]. injection Hl as -> _.
  by eapply select_header_nonneg.
Qed.

Lemma open_leaves path writable h :
  plain_name path h -> leaves (Journal.open path writable) h held.
Proof.
  intros Hp. unfold Journal.open.
  assert (Hd : leaves (if writable then open_write path else open_read path) h (fun d h' =>
    ~ K (fd_ d) /\ exists f, dev_file h' d f /\ f_kind f = Regular)).
  { destruct writable; (eapply leaves_mono; [by apply open_device_leaves|]); by intros d h' _ (_ & H). }
  eapply leaves_bind; [exact Hd|]. intros d h1 _ (Hk & f & Hf & Hr).
  unfold run_on. eapply leaves_bind.
  { apply leaves_quiet. eapply wp_mono; [by apply (load_spec _ h1 f)|].
    intros o h2 Hpost. unfold load_post in Hpost. destruct Hpost as (Hq & Hne & _ & Hok).
    split_and!; [done|done|].
    intros rj ->. instantiate (1 := fun rj h2 => forall j, rj = (Ok tt, j) -> held j h2).
    intros j' ->. destruct (Hok j' eq_refl) as (hd & rs & Hl & ->). split; [done|]. split.
    - cbn [status_ set_status]. unfold loaded_status. rewrite count_noted.
      cbn [record_count with_records_valid with_header]. by eapply load_image_nonneg.
    - exists f. split; [by eapply dev_file_quiet|done]. }
  intros [[[]|e] j'] h2 _ Hj; [|apply leaves_raise]. apply leaves_ret. by apply Hj.
Qed.


(** A new journal is usable, and the journal's name is its. *)
Lemma create_temp_leaves temp path id cap h :
  (forall fd, K fd -> fd < h_next h) -> 0 <= cap -> temp <> path ->
  leaves (create_temp temp path id cap) h (fun j h' => usable j h' /\ plain_name path h').
Proof.
  intros Hk Hcap Hne. unfold create_temp. eapply leaves_bind.
  { eapply wp_mono; [by apply create_file_fresh|]. intros o h1 (Hno & Hfr & _ & Hd).
    split; [by apply spares_fresh|]. destruct o as [d| | |]; [|done|done|done].
    exact (Hd d eq_refl). }
  intros d h1 _ (Ed & Hlt & Hn & Hsz & Hf). cbv zeta. set (j := mkJournal d (fresh_status id) true).
  assert (Hnk : ~ K (fd_ d)) by (intros Hx%Hk; lia).
  assert (Hj : usable j h1).
  { split; [cbn; lia|]. exists (mkFile Regular (zeros cap) []). split; [|done]. split; [exact Hf|]. cbn [f_durable f_pending device_ j].
    rewrite Hsz. split; [by apply zlen_zeros|by apply Forall_nil]. }
  assert (Hdev : device_ j = d) by done. clearbody j. rewrite <-Hdev in *. clear Hdev d.
  eapply leaves_bind; [eapply runs_leaves; [exact Hnk|by apply run_on_spec; [apply safe_write_header|]]|].
  intros j1 h2 _ (Ho1 & Hd1 & Hu1). rewrite <-Hd1 in *.
  eapply leaves_bind; [eapply runs_leaves; [exact Hnk|by apply run_on_spec; [apply safe_write_header|]]|].
  intros j2 h3 _ (Ho2 & Hd2 & Hu2). rewrite <-Hd2 in *.
  eapply leaves_bind; [eapply runs_leaves; [exact Hnk|by apply flush_usable]|]. intros [] h4 _ [Ho3 Hu3].
  assert (Hn4 : h_names h4 = <[temp := fd_ (device_ j2)]> (h_names h)).
  { destruct Ho1 as (_ & A1 & _), Ho2 as (_ & A2 & _), Ho3 as (_ & A3 & _). by rewrite A3, A2, A1, Hn, Ed. }
  eapply leaves_bind.
  { eapply wp_mono; [by apply publish_spec|]. intros o h5 (Hno & Hnm & _ & Hpub & _).
    split; [by apply spares_names|]. destruct o as [u| | |]; [|done|done|done].
    assert (E : Ret u = Ret tt) by (by destruct u). exact (conj Hnm (Hpub E)). }
  intros [] h5 _ ((Hf5 & _) & fd & _ & Et & Ep & _ & _).
  rewrite Hn4, lookup_insert_eq in Et. injection Et as <-.
  apply leaves_ret. split; [eapply usable_same; [by rewrite Hf5|done]|].
  intros fd Efd. rewrite Ep in Efd. injection Efd as <-. split; [done|].
  destruct Hu3 as (_ & f & [Hff [Hz Hin]] & Hr). exists f. rewrite Hf5.
  split_and!; [done|done|]. split; [done|]. by rewrite Hz.
Qed.

Lemma create_leaves path id cap h :
  (forall fd, K fd -> fd < h_next h) -> leaves (Journal.create path id cap) h held.
Proof.
  intros Hk. unfold Journal.create. destruct (Z.ltb_spec cap (records_offset + record_bytes * 16)) as [|Hcap];
    [apply leaves_failM|]. unfold records_offset, header_bytes, record_bytes in Hcap.
  eapply leaves_bind.
  { instantiate (1 := fun _ _ => True). apply leaves_quiet.
    apply sys_call_spec; [intros e h1 Hq|intros h1 Hq]; by split_and!. }
  intros ex h1 Hs1 _. destruct ex as [e|[]]; [|apply leaves_failM|].
  { eapply leaves_bind; [instantiate (1 := fun _ _ => True); by apply leaves_quiet|].
    intros env h2 _ _. apply leaves_failM. }
  eapply leaves_bind.
  { instantiate (1 := fun _ _ => True). apply leaves_quiet.
    eapply wp_mono; [apply random_uuid_spec|]. intros o h2 (Hq & u & -> & _). by split_and!. }
  intros u h2 Hs2 _. eapply leaves_bind; [instantiate (1 := fun _ _ => True); by apply leaves_quiet|].
  intros env h3 Hs3 _. cbv zeta. set (temp := (path +:+ _)%string).
  assert (Hne : temp <> path) by (by apply string_app_ne). clearbody temp.
  assert (Hk3 : forall fd, K fd -> fd < h_next h3).
  { intros fd Hfd%Hk. destruct Hs1 as [_ ?], Hs2 as [_ ?], Hs3 as [_ ?]. lia. }
  eapply leaves_bind.
  { instantiate (1 := fun r h' => (forall fd, K fd -> fd < h_next h') /\
      match r with Ok j => usable j h' /\ plain_name path h' | Err _ => True end).
    unfold leaves. apply wp_attempt. eapply wp_mono; [apply (create_temp_leaves temp path id cap); [done|lia|done]|].
    intros o h4 [Hs4 Ho]. assert (Hk4 : forall fd, K fd -> fd < h_next h4).
    { intros fd Hfd%Hk3. destruct Hs4 as [_ ?]. lia. }
    by destruct o as [j|e|s|]. }
  intros r h4 _ [Hk4 Hr]. destruct r as [j|e].
  2: { eapply leaves_bind; [|intros []; intros; apply leaves_raise].
       instantiate (1 := fun _ _ => True).
       eapply wp_mono; [apply unlink_ignored_spec|]. intros o h5 (-> & Hfr & _). split; [by apply spares_fresh|done]. }
  destruct Hr as [Hu Hp]. eapply leaves_bind; [by apply open_device_leaves|].
  intros d h5 _ (_ & Hkd & f & Hf & Hreg). apply leaves_ret. split; [done|]. split; [apply Hu|]. by exists f.
Qed.
End Use.

(** ** Computations that change the file system and its journal *)

(** [m] ends; it returns with [P], or stops in a host with [S]. *)
Definition ends {A} (m : M A) (h : Host) (S : Host -> Prop) (P : A -> Host -> Prop) : Prop :=
  wp m h (fun o h' => match o with Ret a => P a h' | OutOfFuel => False | Fail _ | Exit _ => S h' end).

Lemma ends_ret {A} (a : A) h (S : Host -> Prop) (P : A -> Host -> Prop) : P a h -> ends (mret a) h S P.
Proof. done. Qed.
Lemma ends_fail {A} c msg h (S : Host -> Prop) (P : A -> Host -> Prop) : S h -> ends (failM c msg) h S P.
Proof. done. Qed.
Lemma ends_mono {A} (m : M A) h (S S' : Host -> Prop) (P P' : A -> Host -> Prop) :
  ends m h S P -> (forall h', S h' -> S' h') -> (forall a h', P a h' -> P' a h') -> ends m h S' P'.
Proof. intros H HS HP. unfold ends in *. eapply wp_mono; [exact H|]. intros [a|e|c|] h'; auto. Qed.
Lemma ends_bind {A B} (m : M A) (k : A -> M B) h (S : Host -> Prop) (P : A -> Host -> Prop)
    (Q : B -> Host -> Prop) :
  ends m h S P -> (forall a h', P a h' -> ends (k a) h' S Q) -> ends (m ≫= k) h S Q.
Proof.
  intros H HP. unfold ends in *. apply wp_bind. eapply wp_mono; [exact H|].
  intros [a|e|c|] h' H1; cbn [carry]; [by apply HP|done..].
Qed.
Lemma ends_runs {A} d (m : M A) h (S : Host -> Prop) (P : A -> Host -> Prop) :
  runs d m h S P -> ends m h S (fun a h' => only_device d h h' /\ P a h').
Proof. intros H. unfold ends, runs in *. eapply wp_mono; [exact H|]. intros [a|e|c|] h' [Ho H1]; by try split. Qed.
Lemma ends_yields {A} (m : M A) h (S : Host -> Prop) (P : A -> Prop) :
  yields m h P -> (forall h', quiet h h' -> S h') -> ends m h S (fun a h' => P a /\ quiet h h').
Proof.
  intros H HS. unfold ends, yields in *. eapply wp_mono; [exact H|]. intros [a|e|c|] h' (Hq & Hne & HP); auto.
Qed.

Section Ready.
Context (dev : BlockDevice).

(** The device holds [img] durably, the journal [j] lies on another file. *)
Definition ready (img : bytes) (j : TransactionJournal) (h : Host) : Prop :=
  wstate dev img [] h /\ usable j h /\ fd_ (device_ j) <> fd_ dev.

Lemma ready_quiet img j h h' : ready img j h -> quiet h h' -> ready img j h'.
Proof.
  intros (Hw & Hu & Hd) Hq. split_and!; [by eapply wstate_quiet| |done].
  eapply usable_same; [|exact Hu]. by destruct Hq as (-> & _).
Qed.
Lemma ready_device img img' j h h' : ready img j h -> only_device dev h h' -> wstate dev img' [] h' -> ready img' j h'.
Proof.
  intros (_ & Hu & Hd) [Hf _] Hw'. split_and!; [done| |done]. eapply usable_same; [|exact Hu]. by apply Hf.
Qed.

(** A record or a checkpoint of the journal. *)
Lemma ready_journal img (m : J unit) j h (S : Host -> Prop) :
  ready img j h -> safe m j -> (forall h', wstate dev img [] h' -> S h') ->
  ends (run_on m j) h S (ready img).
Proof.
  intros (Hw & Hu & Hd) Hm HS. unfold ends.
  eapply wp_mono; [apply runs_wp, (run_on_spec m j h); done|]. intros [j'|e|c|] h' [Ho H].
  - destruct H as [Ed Hu']. split_and!; [|done|by rewrite Ed]. eapply wstate_other; [|exact Ho|exact Hw]. done.
  - apply HS. eapply wstate_other; [|exact Ho|exact Hw]. done.
  - apply HS. eapply wstate_other; [|exact Ho|exact Hw]. done.
  - done.
Qed.
End Ready.

(** One reading step from a ready state. *)
Tactic Notation "estep" hyp(Hr) "by" tactic3(H) "stop" tactic3(HS) "as" ident(a) simple_intropattern(Ha) :=
  let h := fresh "h" in let Hq := fresh "Hq" in
  eapply ends_bind; [eapply ends_yields; [H|intros h Hq; HS]|]; intros a h; cbv beta;
  intros [Ha Hq]; apply (ready_quiet _ _ _ _ _ Hr) in Hq; clear Hr; rename Hq into Hr.
