(* ===== verification/Stage.v ===== *)
(** Staging a relocation: copying the extents of a plan to their destinations
    (include/fsx/relocate.hpp, src/ext4/relocate.cpp).

    The copies of a batch are tasks of the pool; [sched] gives the order of
    their operations.  The progress callback only reports and is left out. *)
From S2P Require Import Prelude Words Ranges Errors Crc Host Device Uuid FileUtil Safety Durable Converge TaskPool.
From S2P Require Import JournalFormat Journal JournalUse Scheduler Ext4 Allocation Metadata MetadataCheck ExtentScan RelocatePlan.
#[local] Open Scope Z_scope.

Record CopyResult := mkCopyResult {
  cp_crc : Z;
  cp_bytes : Z
}.
Record StageOptions := mkStageOptions {
  sg_journal_path : string;
  sg_allow_block_device : bool;
  verify_after_write : bool
}.
Record StageReport := mkStageReport {
  sg_moves_total : Z;
  sg_moves_completed : Z;
  sg_bytes_copied : Z;
  sg_bytes_verified : Z;
  sg_paused : bool;
  sg_complete : bool
}.

Definition byte_range (dev : BlockDevice) (block count bs : Z) : Result (Z * Z) :=
  if (bs =? 0) || (count =? 0)
  then fail invalid_argument "invalid zero-sized relocation range"
  else if (u64_max / bs <? block) || (u64_max / bs <? count)
  then fail corrupt "relocation byte geometry overflows"
  else
    let start := block * bs in
    let total := count * bs in
    let size := size_bytes (geometry dev) in
    if (size <? start) || (size - start <? total)
    then fail corrupt "relocation range lies outside containing device"
    else Ok (start, total).

(** A task that is cut by the model; proved not to run. *)
Definition stuck {A} : Task A := Op (X := unit) (fun h => (OutOfFuel, h)) (fun _ => Done (fail internal "")).

(** Rounds for [total] bytes in buffers of [buf]. *)
Definition buffer_fuel (total buf : Z) : nat := Z.to_nat (total / buf) + 2.

Fixpoint copy_loop (fuel : nat) (dev : BlockDevice) (src dst total buf done crc : Z) : Task CopyResult :=
  match fuel with
  | O => stuck
  | S fuel =>
      if total <=? done then Done (Ok (mkCopyResult (Z.lxor crc 0xffffffff) total))
      else
        call cancel_requested (fun stop : bool =>
        if stop then Done (fail unsafe "relocation cancellation requested")
        else
          let n := Z.min buf (total - done) in
          call (read_exact dev (src + done) n) (fun span =>
          let crc := crc32c span crc in
          call (write_exact dev (dst + done) span) (fun _ =>
          copy_loop fuel dev src dst total buf (done + n) crc)))
  end.

Definition copy_one (dev : BlockDevice) (m : OwnerMove) (bs chunk_bytes : Z) : Task CopyResult :=
  if mv_unwritten m then Done (Ok (mkCopyResult 0 0))
  else
    match byte_range dev (mv_source_block m) (mv_block_count m) bs with
    | Err e => Done (Err e)
    | Ok src =>
        match byte_range dev (mv_destination_block m) (mv_block_count m) bs with
        | Err e => Done (Err e)
        | Ok dst =>
            let buf := Z.max bs chunk_bytes in
            copy_loop (buffer_fuel src.2 buf) dev src.1 dst.1 src.2 buf 0 0xffffffff
        end
    end.

(** The checksum of [total] bytes at [start]. *)
Fixpoint crc_loop (fuel : nat) (dev : BlockDevice) (start total buf done crc : Z) : Task Z :=
  match fuel with
  | O => stuck
  | S fuel =>
      if total <=? done then Done (Ok (Z.lxor crc 0xffffffff))
      else
        let n := Z.min buf (total - done) in
        call (read_exact dev (start + done) n) (fun span =>
        crc_loop fuel dev start total buf (done + n) (crc32c span crc))
  end.

Definition verify_one (dev : BlockDevice) (m : OwnerMove) (bs chunk_bytes : Z) : Task Z :=
  if mv_unwritten m then Done (Ok 0)
  else
    match byte_range dev (mv_destination_block m) (mv_block_count m) bs with
    | Err e => Done (Err e)
    | Ok dst =>
        let buf := Z.max bs chunk_bytes in
        crc_loop (buffer_fuel dst.2 buf) dev dst.1 dst.2 buf 0 0xffffffff
    end.

(** ** The journal of the operation *)

(** An exception that nothing catches ends the process ([std::terminate]);
    the throwing [std::filesystem::exists] raises one when it cannot tell. *)
Definition terminate {A} : M A := fun h => (Exit 134, h).
Definition exists_or_throw (path : string) : M bool :=
  ex ← sys_exists path; match ex with inr b => mret b | inl _ => terminate end.

Definition kind_code (k : RelocationKind) : Z :=
  match k with data_extent => 1 | extent_tree_block => 2 end.

(** The record of a move. *)
Definition stage_record (t : JournalRecordType) (crc : Z) (m : OwnerMove) : JournalRecord :=
  mkRecord t 0 (mv_transaction_id m) (mv_source_block m) (mv_destination_block m) (mv_block_count m)
    (mv_inode m) (mv_logical_block m) crc (kind_code (mv_kind m)).

Definition create_stage_journal (dev : BlockDevice) (plan : OwnerRelocationPlan) (path : string)
    (fs_uuid : bytes) : M TransactionJournal :=
  op ← random_uuid_v4;
  let id := mkIdentity op fs_uuid (size_bytes (geometry dev)) (pl_target_bytes plan) in
  let move_count := zlen (pl_moves plan) in
  if (u64_max - 4096) / 8 <? move_count
  then failM unsupported "relocation plan is too large for journal accounting"
  else
    let records_needed := move_count * 8 + 4096 in
    if (u64_max - records_offset) / record_bytes <? records_needed
    then failM unsupported "relocation journal size overflows"
    else
      let required := records_offset + records_needed * record_bytes in
      Journal.create path id (Z.max (16 * 2 ^ 20) required).

(** The journal, and whether it was there. *)
Definition open_stage_journal (dev : BlockDevice) (plan : OwnerRelocationPlan) (path : string)
    (fs_uuid : bytes) : M (TransactionJournal * bool) :=
  ex ← exists_or_throw path;
  j ← (if (ex : bool) then Journal.open path true else create_stage_journal dev plan path fs_uuid);
  let id := identity (status_ j) in
  if negb (bool_decide (filesystem_uuid id = fs_uuid))
  then failM unsafe "journal filesystem UUID does not match target"
  else if negb (device_size id =? size_bytes (geometry dev))
  then failM unsafe "journal device size does not match target"
  else if negb (target_size id =? pl_target_bytes plan)
  then failM unsafe "journal target size does not match plan"
  else mret (j, ex).

(** The records of a type by transaction; the last one counts. *)
Definition records_by_id (t : JournalRecordType) (rs : list JournalRecord) : gmap Z JournalRecord :=
  foldl (fun m r => if decide (rtype r = t) then <[transaction_id r := r]> m else m) ∅ rs.

Definition same_relocation (r : JournalRecord) (m : OwnerMove) : bool :=
  (source_block r =? mv_source_block m) && (destination_block r =? mv_destination_block m)
  && (block_count r =? mv_block_count m) && (inode r =? mv_inode m).

(** The loop over the moves of a resumed plan: the transactions whose copies
    still have the recorded checksum. *)
Fixpoint resume_moves (dev : BlockDevice) (bs chunk : Z) (intents done : gmap Z JournalRecord)
    (moves : list OwnerMove) (verified : gset Z) : M (gset Z) :=
  match moves with
  | [] => mret verified
  | m :: moves =>
      match intents !! mv_transaction_id m with
      | None => failM unsafe "resume journal is missing relocation intent"
      | Some r =>
          if negb (same_relocation r m)
          then failM unsafe "resume plan differs from journaled relocation geometry"
          else
            match done !! mv_transaction_id m with
            | None => resume_moves dev bs chunk intents done moves verified
            | Some vr =>
                r ← finish (verify_one dev m bs chunk);
                crc ← lift r;
                resume_moves dev bs chunk intents done moves
                  (if crc =? data_crc32c vr then {[mv_transaction_id m]} ∪ verified else verified)
            end
      end
  end.

Definition stage_phase (p : OperationPhase) : bool :=
  bool_decide (p = prepared) || bool_decide (p = relocating) || bool_decide (p = paused)
  || bool_decide (p = staged).

(** The journal is resumed, or gets the intents of the plan. *)
Definition start_stage (dev : BlockDevice) (plan : OwnerRelocationPlan) (chunk : Z) (existing : bool)
    (j : TransactionJournal) : M (TransactionJournal * gset Z) :=
  if existing then
    if negb (stage_phase (phase (status_ j)))
    then failM unsafe "journal phase is not valid for relocation staging"
    else
      p ← query records j;
      let intents := records_by_id relocation_intent p.1 in
      if negb (Z.of_nat (size intents) =? zlen (pl_moves plan))
      then failM unsafe "resume journal relocation count differs from current plan"
      else
        v ← resume_moves dev (pl_block_size plan) chunk intents (records_by_id copy_verified p.1)
              (pl_moves plan) ∅;
        mret (p.2, v)
  else
    j ← run_on (append_batch (stage_record relocation_intent 0 <$> pl_moves plan)) j;
    j ← run_on (checkpoint relocating) j;
    mret (j, ∅).

(** ** The batches *)

(** [++report.moves_completed; report.bytes_copied += n; ...]. *)
Definition complete_move (n : Z) (r : StageReport) : StageReport :=
  mkStageReport (sg_moves_total r) (sg_moves_completed r + 1) (u64 (sg_bytes_copied r + n))
    (u64 (sg_bytes_verified r + n)) (sg_paused r) (sg_complete r).

Definition resumed_report (plan : OwnerRelocationPlan) (verified : gset Z) : StageReport :=
  foldl (fun r m =>
    if bool_decide (mv_transaction_id m ∈ verified)
    then complete_move (if mv_unwritten m then 0 else u64 (mv_block_count m * pl_block_size plan)) r
    else r) (mkStageReport (zlen (pl_moves plan)) 0 0 0 false false) (pl_moves plan).

Definition is_verified (verified : gset Z) (m : OwnerMove) : bool :=
  bool_decide (mv_transaction_id m ∈ verified).

(** The moves from the first one that is not verified. *)
Fixpoint skip_verified (verified : gset Z) (moves : list OwnerMove) : list OwnerMove :=
  match moves with
  | m :: l => if is_verified verified m then skip_verified verified l else moves
  | [] => []
  end.

(** At most [n] moves that are not verified, and the moves behind them. *)
Fixpoint take_batch (n : nat) (verified : gset Z) (moves : list OwnerMove) : list OwnerMove * list OwnerMove :=
  match moves with
  | m :: l =>
      match n with
      | O => ([], moves)
      | S n' =>
          if is_verified verified m then take_batch n verified l
          else let p := take_batch n' verified l in (m :: p.1, p.2)
      end
  | [] => ([], [])
  end.

(** The checksums the verification read, against those of the copies. *)
Fixpoint compare_crcs (batch : list OwnerMove) (copied : list CopyResult) (checks : list (Result Z))
    : Result unit :=
  match batch, copied, checks with
  | m :: batch, c :: copied, r :: checks =>
      let? crc := r in
      if negb (crc =? cp_crc c)
      then fail io ("relocation verification checksum mismatch for transaction "
                    +:+ pretty (mv_transaction_id m))
      else compare_crcs batch copied checks
  | _, _, _ => Ok tt
  end.

Definition sum_copied (copied : list CopyResult) (r : StageReport) : StageReport :=
  foldl (fun r c => complete_move (cp_bytes c) r) r copied.

(** The loop over the batches; [sched k] are the orders in which the copies and
    the checks of the batch run that starts with [k] moves left. *)
Fixpoint stage_batches (fuel : nat) (sched : nat -> list nat * list nat) (dev : BlockDevice)
    (plan : OwnerRelocationPlan) (o : StageOptions) (workers : nat) (chunk : Z) (j : TransactionJournal)
    (moves : list OwnerMove) (verified : gset Z) (report : StageReport)
    : M (TransactionJournal * StageReport) :=
  match fuel with
  | O => fun h => (OutOfFuel, h)
  | S fuel =>
      match skip_verified verified moves with
      | [] => mret (j, report)
      | moves =>
          stop ← cancel_requested;
          if (stop : bool) then
            j ← run_on (checkpoint paused) j;
            mret (j, mkStageReport (sg_moves_total report) (sg_moves_completed report)
                       (sg_bytes_copied report) (sg_bytes_verified report) true (sg_complete report))
          else
            let p := take_batch workers verified moves in
            let batch := p.1 in
            rs ← run_tasks (sched (length moves)).1
                   ((fun m => copy_one dev m (pl_block_size plan) chunk) <$> batch);
            match results rs with
            | Err e => attempt (run_on (checkpoint paused) j);; raise e
            | Ok copied =>
                Device.flush dev;;
                (if verify_after_write o
                 then
                   cs ← run_tasks (sched (length moves)).2
                          ((fun m => verify_one dev m (pl_block_size plan) chunk) <$> batch);
                   lift (compare_crcs batch copied cs)
                 else mret tt);;
                j ← run_on (append_batch (zip_with (fun m c => stage_record copy_verified (cp_crc c) m)
                                            batch copied)) j;
                stage_batches fuel sched dev plan o workers chunk j p.2
                  (list_to_set (mv_transaction_id <$> batch) ∪ verified) (sum_copied copied report)
            end
      end
  end.

Definition stage_relocation (sched : nat -> list nat * list nat) (dev : BlockDevice)
    (plan : OwnerRelocationPlan) (o : StageOptions) : M StageReport :=
  if bool_decide (sg_journal_path o = "")
  then failM invalid_argument "staging requires --journal=FILE"
  else
    require_offline_for_write dev;;
    ds ← inspect_device_safety dev;
    if block_device ds && negb (sg_allow_block_device o)
    then failM unsafe "block-device staging requires explicit --allow-block-device"
    else if bool_decide (pl_moves plan = []) then mret (mkStageReport 0 0 0 0 false true)
    else
      sb ← read_superblock dev;
      if negb (state sb =? 1)
      then failM unsafe "filesystem is not marked clean; relocation staging is refused"
      else if has_flag (feature_incompat sb) INCOMPAT_RECOVER
      then failM unsafe "filesystem journal requires recovery; replay it before offline staging"
      else
        (if has_flag (feature_ro_compat sb) RO_COMPAT_METADATA_CSUM
         then
           r ← verify_metadata dev false;
           if m_clean r then mret tt
           else failM corrupt "metadata checksum/count verification failed before staging"
         else mret tt);;
        fu ← lift (parse_uuid (uuid sb));
        prof ← profile_device dev;
        let workers := Z.max 1 (workers (tuning prof)) in
        let chunk := Z.max (pl_block_size plan) (large_io_bytes (tuning prof)) in
        p ← open_stage_journal dev plan (sg_journal_path o) fu;
        q ← start_stage dev plan chunk p.2 p.1;
        r ← stage_batches (S (length (pl_moves plan))) sched dev plan o (Z.to_nat workers) chunk q.1
              (pl_moves plan) q.2 (resumed_report plan q.2);
        if sg_paused r.2 then mret r.2
        else
          run_on (checkpoint staged) r.1;;
          mret (mkStageReport (sg_moves_total r.2) (sg_moves_completed r.2) (sg_bytes_copied r.2)
                  (sg_bytes_verified r.2) false true).

(** ** What is copied where *)

(** The bytes [(source, destination, length)] of a move; a move that has no
    data or whose range is refused has none. *)
Definition copy_of (dev : BlockDevice) (bs : Z) (m : OwnerMove) : option (Z * Z * Z) :=
  if mv_unwritten m then None
  else match byte_range dev (mv_source_block m) (mv_block_count m) bs,
             byte_range dev (mv_destination_block m) (mv_block_count m) bs with
       | Ok s, Ok d => Some (s.1, d.1, s.2)
       | _, _ => None
       end.

(** A plan that can be carried out in any order: the moves write distinct
    blocks, none of them the source of a move. *)
Record stageable (plan : OwnerRelocationPlan) : Prop := {
  sp_widths : Forall (fun m => 0 <= mv_source_block m /\ 0 <= mv_destination_block m /\ 0 <= mv_block_count m)
                (pl_moves plan);
  sp_block : 0 <= pl_block_size plan;
  sp_once : NoDup (destinations (pl_moves plan));
  sp_apart : forall b, b ∈ sources (pl_moves plan) -> b ∉ destinations (pl_moves plan);
  sp_ids : NoDup (mv_transaction_id <$> pl_moves plan)
}.

(** [img] is [base] where some bytes of the destinations are those of their
    sources. *)
Definition staged_image (base : bytes) (plan : OwnerRelocationPlan) (img : bytes) : Prop :=
  let bs := pl_block_size plan in
  zlen img = zlen base /\
  forall i : nat, img !! i = base !! i \/
    exists m, m ∈ pl_moves plan /\ mv_unwritten m = false /\
      let o := Z.of_nat i - mv_destination_block m * bs in
      0 <= o < mv_block_count m * bs /\
      img !! i = base !! Z.to_nat (mv_source_block m * bs + o).

(** The move's destination holds what its source held. *)
Definition copied (base : bytes) (bs : Z) (img : bytes) (m : OwnerMove) : Prop :=
  mv_unwritten m = true \/
  slice img (mv_destination_block m * bs) (mv_block_count m * bs)
  = slice base (mv_source_block m * bs) (mv_block_count m * bs).

Lemma byte_range_spec dev block count bs r :
  0 <= block -> 0 <= bs -> byte_range dev block count bs = Ok r ->
  r = (block * bs, count * bs) /\ 0 < bs /\ count <> 0 /\
  block * bs + count * bs <= size_bytes (geometry dev).
Proof.
  intros Hb Hbs. unfold byte_range.
  destruct (Z.eqb_spec bs 0); [done|]. destruct (Z.eqb_spec count 0); [done|]. cbn [orb].
  destruct (_ || _); [done|]. cbv zeta.
  destruct (Z.ltb_spec (size_bytes (geometry dev)) (block * bs)); [done|]. cbn [orb].
  destruct (Z.ltb_spec (size_bytes (geometry dev) - block * bs) (count * bs)); [done|].
  intros [= <-]. split_and!; [done|lia|done|lia].
Qed.

Lemma in_blocks (a n bs i : Z) :
  0 < bs -> a * bs <= i < a * bs + n * bs -> i / bs ∈ seqZ a n.
Proof.
  intros Hbs Hi. apply elem_of_seqZ.
  assert (i / bs < a + n) by (apply Z.div_lt_upper_bound; lia).
  assert (a <= i / bs) by (apply Z.div_le_lower_bound; lia). lia.
Qed.

(** Which moves a batch takes. *)
Lemma skip_verified_spec V l m :
  m ∈ l -> m ∈ skip_verified V l \/ mv_transaction_id m ∈ V.
Proof.
  induction l as [|x l IH]; cbn [skip_verified]; [set_solver|]. unfold is_verified.
  case_bool_decide as E; [|by left]. intros [->|Hm]%elem_of_cons; [by right|by apply IH].
Qed.
Lemma skip_verified_sub V l : skip_verified V l ⊆ l /\ (length (skip_verified V l) <= length l)%nat.
Proof.
  induction l as [|x l [IH1 IH2]]; cbn [skip_verified]; [done|]. destruct (is_verified V x); [|done].
  split; [set_solver|cbn; lia].
Qed.
Lemma take_batch_spec n V l :
  (take_batch n V l).1 ⊆ l /\ (take_batch n V l).2 ⊆ l /\
  (length (take_batch n V l).2 <= length l)%nat /\
  forall m, m ∈ l -> m ∈ (take_batch n V l).1 \/ m ∈ (take_batch n V l).2 \/ mv_transaction_id m ∈ V.
Proof.
  revert n. induction l as [|x l IH]; intros n; cbn [take_batch]; [by split_and!; [..|set_solver]|].
  destruct n as [|n]; [cbn; split_and!; [set_solver|done|done|by right; left]|].
  unfold is_verified. case_bool_decide as Ev.
  - destruct (IH (S n)) as (I1 & I2 & I3 & I4).
    split_and!; [intros y Hy; right; by apply I1|intros y Hy; right; by apply I2|cbn; lia|].
    intros m [->|Hm]%elem_of_cons; [by right; right|by apply I4].
  - cbn [fst snd]. destruct (IH n) as (I1 & I2 & I3 & I4).
    split_and!; [|intros y Hy; right; by apply I2|cbn; lia|].
    + intros y [->|Hy]%elem_of_cons; [left|right; by apply I1].
    + intros m [->|Hm]%elem_of_cons; [left; left|]. destruct (I4 m Hm) as [?|?]; [left; by right|by right].
Qed.
Lemma take_batch_less n V x l : (0 < n)%nat -> (length (take_batch n V (x :: l)).2 <= length l)%nat.
Proof.
  intros Hn. destruct n as [|n]; [lia|]. cbn [take_batch]. destruct (is_verified V x); cbn [snd];
    apply take_batch_spec.
Qed.

Lemma sum_copied_complete l r : sg_complete (sum_copied l r) = sg_complete r.
Proof. unfold sum_copied. revert r. induction l as [|c l IH]; intros r; cbn [foldl]; [done|]. by rewrite IH. Qed.

(** The fuel of the copies. *)
Lemma fuel_step (fuel : nat) done total buf :
  0 < buf -> done < total -> total <= done + (Z.of_nat (S fuel) - 1) * buf ->
  total <= done + Z.min buf (total - done) + (Z.of_nat fuel - 1) * buf.
Proof.
  intros Hb Hd Hf. assert (1 <= Z.of_nat fuel) by (destruct fuel; lia).
  destruct (Z.min_spec buf (total - done)) as [[_ ->]|[_ ->]]; nia.
Qed.

Lemma buffer_fuel_enough total buf : 0 < buf -> 0 <= total -> total <= (Z.of_nat (buffer_fuel total buf) - 1) * buf.
Proof.
  intros Hb Ht. unfold buffer_fuel. pose proof (Z.div_pos total buf Ht Hb).
  pose proof (Z.mul_succ_div_gt total buf Hb). nia.
Qed.

Section Target.
Context (dev : BlockDevice) (base : bytes) (plan : OwnerRelocationPlan).
Context (Hlen : zlen base = size_bytes (geometry dev)) (Hplan : stageable plan).
Let bs := pl_block_size plan.
Let moves := pl_moves plan.

Definition copy_write (c : Z * Z * Z) : Z * bytes := (c.1.2, slice base c.1.1 c.2).
Definition copies : list (Z * Z * Z) := omap (copy_of dev bs) moves.
(** The device when everything is copied, and the bytes that change. *)
Definition stage_target : bytes := put_all (copy_write <$> copies) base.
Definition stage_region : places := fun i => exists c, c ∈ copies /\ span_of c.1.2 c.2 i.

Lemma copy_of_spec m c :
  m ∈ moves -> copy_of dev bs m = Some c ->
  c = (mv_source_block m * bs, mv_destination_block m * bs, mv_block_count m * bs) /\
  0 < bs /\ mv_unwritten m = false /\ 0 <= c.1.1 /\ 0 <= c.1.2 /\ 0 < c.2 /\
  c.1.1 + c.2 <= zlen base /\ c.1.2 + c.2 <= zlen base.
Proof.
  intros Hm. destruct Hplan as [Hw Hb _ _ _]. rewrite list.Forall_forall in Hw.
  destruct (Hw m Hm) as (Hs & Hd & Hn). fold bs in Hb. unfold copy_of.
  destruct (mv_unwritten m) eqn:Hu; [done|].
  destruct (byte_range dev (mv_source_block m) _ _) as [s|] eqn:Es; [|done].
  destruct (byte_range dev (mv_destination_block m) _ _) as [d|] eqn:Ed; [|done]. intros [= <-].
  apply byte_range_spec in Es as (-> & ? & ? & ?); [|done..].
  apply byte_range_spec in Ed as (-> & ? & ? & ?); [|done..]. cbn [fst snd].
  split_and!; try done; try lia; nia.
Qed.

Lemma elem_of_copies c : c ∈ copies <-> exists m, m ∈ moves /\ copy_of dev bs m = Some c.
Proof. apply list_elem_of_omap. Qed.

Lemma copy_destination m c i :
  m ∈ moves -> copy_of dev bs m = Some c -> span_of c.1.2 c.2 i ->
  i / bs ∈ seqZ (mv_destination_block m) (mv_block_count m).
Proof.
  intros Hm Hc Hi. destruct (copy_of_spec m c Hm Hc) as (-> & Hb & _). by apply in_blocks.
Qed.

Lemma region_outside m c :
  m ∈ moves -> copy_of dev bs m = Some c -> within (span_of c.1.1 c.2) (fun i => ~ stage_region i).
Proof.
  intros Hm Hc i Hi (c' & (m' & Hm' & Hc')%elem_of_copies & Hi').
  destruct (copy_of_spec m c Hm Hc) as (-> & Hb & _). destruct Hplan as [_ _ _ Hap _].
  apply (Hap (i / bs)).
  - unfold sources. apply list_elem_of_In, in_concat. setoid_rewrite <-list_elem_of_In.
    exists (seqZ (mv_source_block m) (mv_block_count m)). split; [|by apply in_blocks].
    apply list_elem_of_fmap. by exists m.
  - unfold destinations. apply list_elem_of_In, in_concat. setoid_rewrite <-list_elem_of_In.
    exists (seqZ (mv_destination_block m') (mv_block_count m')). split; [|by eapply copy_destination].
    apply list_elem_of_fmap. by exists m'.
Qed.

Lemma copies_inside : Forall (inside (zlen base)) (copy_write <$> copies).
Proof.
  apply list.Forall_forall. intros w (c & -> & (m & Hm & Hc)%elem_of_copies)%list_elem_of_fmap.
  destruct (copy_of_spec m c Hm Hc) as (_ & _ & _ & H1 & H2 & H3 & H4). unfold inside, copy_write. cbn [fst snd].
  pose proof (zlen_slice_le base c.1.1 c.2). destruct (Z.le_gt_cases 0 c.2); [lia|].
  unfold slice. replace (Z.to_nat c.2) with 0%nat by lia. cbn. lia.
Qed.

Lemma zlen_target : zlen stage_target = zlen base.
Proof. apply zlen_put_all, copies_inside. Qed.

(** The destinations of two moves have no byte in common. *)
Lemma destinations_apart l1 m l2 m' c c' :
  moves = l1 ++ m :: l2 -> m' ∈ l2 -> copy_of dev bs m = Some c -> copy_of dev bs m' = Some c' ->
  c.1.2 + c.2 <= c'.1.2 \/ c'.1.2 + c'.2 <= c.1.2.
Proof.
  intros Hl Hm' Hc Hc'. destruct (Z.le_gt_cases (c.1.2 + c.2) c'.1.2) as [|H1]; [by left|].
  destruct (Z.le_gt_cases (c'.1.2 + c'.2) c.1.2) as [|H2]; [by right|]. exfalso.
  assert (Hm : m ∈ moves) by (rewrite Hl; set_solver).
  assert (Hmm : m' ∈ moves) by (rewrite Hl; set_solver).
  destruct (copy_of_spec m c Hm Hc) as (_ & _ & _ & _ & _ & ? & _).
  destruct (copy_of_spec m' c' Hmm Hc') as (_ & _ & _ & _ & _ & ? & _).
  set (i := Z.max c.1.2 c'.1.2).
  assert (Hi : i / bs ∈ seqZ (mv_destination_block m) (mv_block_count m))
    by (apply (copy_destination m c); [done..|unfold span_of, i; lia]).
  assert (Hi' : i / bs ∈ seqZ (mv_destination_block m') (mv_block_count m'))
    by (apply (copy_destination m' c'); [done..|unfold span_of, i; lia]).
  pose proof (sp_once _ Hplan) as Hnd. fold moves in Hnd. rewrite Hl in Hnd. unfold destinations in Hnd.
  rewrite concat_fmap_app in Hnd. apply NoDup_app in Hnd as (_ & _ & Hnd).
  cbn [fmap list_fmap concat] in Hnd. apply NoDup_app in Hnd as (_ & Hnd & _). apply (Hnd _ Hi).
  apply list_elem_of_In, in_concat. setoid_rewrite <-list_elem_of_In.
  eexists. split; [apply list_elem_of_fmap; by exists m'|done].
Qed.

(** The target holds a source's bytes at its destination. *)
Lemma target_copy m c :
  m ∈ moves -> copy_of dev bs m = Some c -> slice stage_target c.1.2 c.2 = slice base c.1.1 c.2.
Proof.
  intros Hm Hc. destruct (copy_of_spec m c Hm Hc) as (Ec & Hb & _ & H1 & H2 & H0 & H3 & H4).
  pose proof copies_inside as Hin. unfold stage_target, copies in *.
  apply list_elem_of_split in Hm as (l1 & l2 & Hl). rewrite Hl in Hin |- *.
  rewrite omap_app in Hin |- *. cbn [omap list_omap] in Hin |- *. rewrite Hc in Hin |- *.
  rewrite fmap_app, fmap_cons in Hin |- *.
  assert (Ez : forall m c, m ∈ moves -> copy_of dev bs m = Some c -> zlen (slice base c.1.1 c.2) = c.2).
  { intros m1 c1 Hm1 Hc1. destruct (copy_of_spec m1 c1 Hm1 Hc1) as (_ & _ & _ & ? & ? & ? & ? & ?).
    apply zlen_slice; lia. }
  assert (Em : m ∈ moves) by (rewrite Hl; set_solver).
  pose proof (slice_put_all_write _ (copy_write c) _ base Hin) as Hp. cbn [fst snd copy_write] in Hp.
  rewrite (Ez m c Em Hc) in Hp. apply Hp. apply list.Forall_forall.
  intros w (c' & -> & (m' & Hm' & Hc')%list_elem_of_omap)%list_elem_of_fmap.
  unfold apart, copy_write. cbn [fst snd]. rewrite (Ez m' c'); [|rewrite Hl; set_solver|done].
  by eapply destinations_apart.
Qed.

Lemma agreed_copy m c E img :
  m ∈ moves -> copy_of dev bs m = Some c -> within (span_of c.1.2 c.2) E -> agrees stage_target E img ->
  slice img (mv_destination_block m * bs) (mv_block_count m * bs)
  = slice base (mv_source_block m * bs) (mv_block_count m * bs).
Proof.
  intros Hm Hc HE Ha. pose proof (target_copy m c Hm Hc) as Ht.
  destruct (copy_of_spec m c Hm Hc) as (Ec & _ & _ & H1 & H2 & H0 & _). rewrite Ec in *. cbn [fst snd] in *.
  rewrite <-Ht. apply list_eq. intros i. rewrite !lookup_slice by lia. case_decide; [|done].
  apply Ha, HE. unfold span_of. lia.
Qed.

(** An image between the old one and the target is a staged one. *)
Lemma between_staged img :
  zlen img = zlen base -> between base stage_target stage_region img -> staged_image base plan img.
Proof.
  intros Hz Hb. split; [done|]. intros i. destruct (Hb i) as [|[(c & (m & Hm & Hc)%elem_of_copies & Hi) E]];
    [by left|right]. destruct (copy_of_spec m c Hm Hc) as (Ec & Hbs & Hu & H1 & H2 & H0 & H3 & H4).
  exists m. split; [done|]. split; [done|]. cbv zeta. rewrite Ec in *. cbn [fst snd] in *. fold bs.
  unfold span_of in Hi. split; [lia|]. rewrite E. pose proof (target_copy m c Hm ltac:(by rewrite Ec)) as Ht.
  rewrite Ec in Ht. cbn [fst snd] in Ht.
  apply (f_equal (fun l => l !! (i - Z.to_nat (mv_destination_block m * bs))%nat)) in Ht.
  rewrite !lookup_slice, !decide_True in Ht by lia.
  replace (Z.to_nat (mv_destination_block m * bs) + (i - Z.to_nat (mv_destination_block m * bs)))%nat with i in Ht by lia.
  rewrite Ht. f_equal. lia.
Qed.
End Target.

(** ** The tasks *)

Section Staged.
Context (dev : BlockDevice) (base : bytes) (plan : OwnerRelocationPlan) (h0 : Host) (path : string).
Context (Hlen : zlen base = size_bytes (geometry dev)) (Hplan : stageable plan).
Context (Hfd : fd_ dev < h_next h0) (Hname : h_names h0 !! path <> Some (fd_ dev)).
Let bs := pl_block_size plan.
Let moves := pl_moves plan.
Let T := stage_target dev base plan.
Let R := stage_region dev plan.

(** The files of the start that are not the journal, and those that are not
    the device either. *)
Definition not_journal (fd : Z) : Prop := fd < h_next h0 /\ h_names h0 !! path <> Some fd.
Definition bystander (fd : Z) : Prop := not_journal fd /\ fd <> fd_ dev.

Definition stage_inv (E D : places) (h : Host) : Prop :=
  spares bystander h0 h /\ filling dev base T R D E h.

Lemma stage_inv_journal E D h h' : spares not_journal h h' -> stage_inv E D h -> stage_inv E D h'.
Proof.
  intros Hs [H1 H2]. split.
  - eapply spares_trans; [exact H1|]. destruct Hs as [Hs Hn]. split; [|done]. intros fd [Hk _]. by apply Hs.
  - eapply filling_same; [|exact H2]. by apply Hs.
Qed.
Lemma stage_inv_quiet E D h h' : quiet h h' -> stage_inv E D h -> stage_inv E D h'.
Proof. intros Hq. by apply stage_inv_journal, spares_quiet. Qed.
Lemma stage_inv_device E D E' D' h h' :
  only_device dev h h' -> filling dev base T R D' E' h' -> stage_inv E D h -> stage_inv E' D' h'.
Proof.
  intros Ho Hf [H1 H2]. split; [|done]. eapply spares_trans; [exact H1|].
  eapply spares_device; [|exact Ho]. by intros [_ ?].
Qed.
Lemma held_device j h h' : only_device dev h h' -> held not_journal j h -> held not_journal j h'.
Proof. intros (Hf & _) H. eapply held_same; [|exact H]. apply Hf. intros E.
  destruct H as [H _]. apply H. rewrite E. by split.
Qed.

(** What the tasks of a batch keep. *)
Definition task_inv (E : places) (j : TransactionJournal) (D : places) (h : Host) : Prop :=
  stage_inv E D h /\ held not_journal j h.

Lemma task_inv_quiet E j D h h' : quiet h h' -> task_inv E j D h -> task_inv E j D h'.
Proof.
  intros Hq [H1 H2]. split; [by eapply stage_inv_quiet|]. eapply held_same; [|exact H2]. by destruct Hq as (-> & _).
Qed.

(** An operation of a task that changes nothing. *)
Lemma quiet_task {A} {X : Set} (E : places) j (P : A -> places -> Prop) D (m : M X) (k : X -> Task A) :
  (forall D1 h, within D D1 -> task_inv E j D1 h ->
     wp m h (fun o h' => quiet h h' /\ o <> OutOfFuel /\
       forall x, o = Ret x -> task_ok within (task_inv E j) P D1 (k x))) ->
  task_ok within (task_inv E j) P D (call m k).
Proof.
  intros Hm. apply task_ok_call. intros D1 h HD Hi. eapply wp_mono; [by apply (Hm D1 h)|].
  intros o h' (Hq & Hne & Hk). pose proof (task_inv_quiet _ _ _ _ _ Hq Hi) as Hi'.
  destruct o as [x|e|s|]; [|by exists D1..|done]. exists D1. split_and!; [done|done|by apply Hk].
Qed.

Lemma read_task {A} E j (P : A -> places -> Prop) D off n (k : bytes -> Task A) :
  0 <= off -> 0 <= n ->
  (forall D1 b, within D D1 -> zlen b = n -> (within (span_of off n) (fun i => ~ R i) -> b = slice base off n) ->
     task_ok within (task_inv E j) P D1 (k b)) ->
  task_ok within (task_inv E j) P D (call (read_exact dev off n) k).
Proof.
  intros Ho Hn Hk. apply quiet_task. intros D1 h HD [[_ Hf] _].
  eapply wp_mono; [by apply (filling_read dev base T R D1 E)|]. intros o h' (Hq & Hne & Hv).
  split_and!; [done|done|]. intros b ->. destruct (Hv b eq_refl) as (Hz & _ & Hs & _). by apply Hk.
Qed.

Lemma copy_loop_ok fuel E j m c D done crc buf :
  m ∈ moves -> copy_of dev bs m = Some c -> 0 < buf -> 0 <= done <= c.2 ->
  c.2 <= done + (Z.of_nat fuel - 1) * buf -> within (span_of c.1.2 done) D ->
  task_ok within (task_inv E j) (fun _ D' => within (span_of c.1.2 c.2) D') D
    (copy_loop fuel dev c.1.1 c.1.2 c.2 buf done crc).
Proof.
  intros Hm Hc Hbuf. destruct (copy_of_spec dev base plan Hlen Hplan m c Hm Hc) as (Ec & Hbs & _ & H1 & H2 & H0 & H3 & H4).
  revert D done crc. induction fuel as [|fuel IH]; intros D done crc Hd Hf HD; [lia|].
  cbn [copy_loop]. destruct (Z.leb_spec c.2 done) as [Hend|Hlt].
  { intros a _ D' HD'. trans D; [|done]. by replace c.2 with done by lia. }
  apply quiet_task. intros D1 h HD1 _. eapply wp_mono; [apply cancel_spec|]. intros o h' [Hq Hne].
  split_and!; [done|done|]. intros stop _. destruct stop; [by intros a|]. cbv zeta.
  set (n := Z.min buf (c.2 - done)). assert (Hn : 0 < n <= c.2 - done) by (unfold n; lia).
  assert (Hfuel : c.2 <= done + n + (Z.of_nat fuel - 1) * buf) by (by apply fuel_step). clearbody n.
  apply read_task; [lia..|]. intros D2 b HD2 Hz Hb.
  assert (Eb : b = slice base (c.1.1 + done) n).
  { apply Hb. intros i Hi. apply (region_outside dev base plan Hlen Hplan m c Hm Hc). unfold span_of in *. lia. }
  clear Hb. apply task_ok_call. intros D3 h3 HD3 [Hi Hh]. pose proof Hi as [_ Hfl].
  eapply wp_mono; [apply (filling_write dev base T R D3 E (c.1.2 + done) b h3 Hfl); [lia| |]|].
  - rewrite Hz. unfold T. pose proof (target_copy dev base plan Hlen Hplan m c Hm Hc) as Ht.
    apply (f_equal (fun l => slice l done n)) in Ht. rewrite !slice_slice in Ht by lia. by rewrite Ht, Eb.
  - rewrite Hz. intros i Hi'. exists c. split; [apply elem_of_copies; by exists m|]. unfold span_of in *. lia.
  - rewrite Hz. intros o4 h4 (Hnf & Ho & Hf1 & Hok).
    assert (Hi4 : task_inv E j D3 h4) by (split; [by eapply stage_inv_device|by eapply held_device]).
    destruct o4 as [[]|e|s|]; [|by exists D3..|done]. destruct (Hok eq_refl) as [Hf2 _].
    exists (either D3 (span_of (c.1.2 + done) n)). split; [by left|].
    split; [split; [by eapply stage_inv_device|by eapply held_device]|].
    apply IH; [lia|lia|]. intros i Hi'. unfold span_of in *.
    destruct (Z.lt_ge_cases i (c.1.2 + done)); [left; apply HD3, HD2, HD1, HD; lia|right; lia].
Qed.

Lemma crc_loop_ok fuel E j D start total done crc buf :
  0 <= start -> 0 < buf -> 0 <= done <= total -> total <= done + (Z.of_nat fuel - 1) * buf ->
  task_ok within (task_inv E j) (fun _ _ => True) D (crc_loop fuel dev start total buf done crc).
Proof.
  intros Hs Hbuf. revert D done crc. induction fuel as [|fuel IH]; intros D done crc Hd Hf; [lia|].
  cbn [crc_loop]. destruct (Z.leb_spec total done) as [Hend|Hlt]; [done|]. cbv zeta.
  set (n := Z.min buf (total - done)). assert (Hn : 0 < n <= total - done) by (unfold n; lia).
  assert (Hfuel : total <= done + n + (Z.of_nat fuel - 1) * buf) by (by apply fuel_step). clearbody n.
  apply read_task; [lia..|]. intros D2 b HD2 Hz _. apply IH; lia.
Qed.

(** The move's bytes are among [D], or it has none. *)
Definition written (m : OwnerMove) (D : places) : Prop :=
  mv_unwritten m = true \/ exists c, copy_of dev bs m = Some c /\ within (span_of c.1.2 c.2) D.

Lemma written_mono m D D' : within D D' -> written m D -> written m D'.
Proof. intros HD [H|(c & Hc & Hw)]; [by left|right]. exists c. split; [done|by trans D]. Qed.

Lemma copy_one_ok E j m D chunk :
  m ∈ moves -> task_ok within (task_inv E j) (fun _ D' => written m D') D (copy_one dev m bs chunk).
Proof.
  intros Hm. unfold copy_one. destruct (mv_unwritten m) eqn:Hu; [intros a _ D' _; by left|].
  destruct (byte_range dev (mv_source_block m) _ _) as [s|] eqn:Es; [|by intros a].
  destruct (byte_range dev (mv_destination_block m) _ _) as [d|] eqn:Ed; [|by intros a].
  assert (Hc : copy_of dev bs m = Some (s.1, d.1, s.2)) by (unfold copy_of; by rewrite Hu, Es, Ed).
  destruct (copy_of_spec dev base plan Hlen Hplan m _ Hm Hc) as (_ & Hbs & _ & H1 & H2 & H0 & _). cbn [fst snd] in *.
  eapply task_ok_weaken; [|apply (copy_loop_ok (buffer_fuel s.2 (Z.max bs chunk)) E j m _ D 0 0xffffffff
    (Z.max bs chunk) Hm Hc); cbn [fst snd]; [lia|lia| |intros i Hi; unfold span_of in Hi; lia]].
  - intros a D' HD'. right. by exists (s.1, d.1, s.2).
  - rewrite Z.add_0_l. apply buffer_fuel_enough; lia.
Qed.

Lemma verify_one_ok E j m D chunk :
  m ∈ moves -> task_ok within (task_inv E j) (fun _ _ => True) D (verify_one dev m bs chunk).
Proof.
  intros Hm. unfold verify_one. destruct (mv_unwritten m) eqn:Hu; [done|].
  destruct (byte_range dev (mv_destination_block m) _ _) as [d|] eqn:Ed; [|done].
  pose proof Hplan as [Hw Hb _ _ _]. rewrite list.Forall_forall in Hw. destruct (Hw m Hm) as (Hs & Hd & Hn).
  fold bs in Hb. apply byte_range_spec in Ed as (-> & ? & ? & ?); [|done..]. cbn [fst snd].
  apply crc_loop_ok; [nia|lia|nia|]. rewrite Z.add_0_l. apply buffer_fuel_enough; [lia|nia].
Qed.

(** ** The batches *)

(** [m] ends with the device filled as far as it got, and returns with [Q]. *)
Definition staging {A} (m : M A) (h : Host) (Q : A -> Host -> Prop) : Prop :=
  wp m h (fun o h' => (exists E D, stage_inv E D h') /\
    match o with Ret a => Q a h' | OutOfFuel => False | Fail _ | Exit _ => True end).

Lemma staging_ret {A} (a : A) E D h (Q : A -> Host -> Prop) : stage_inv E D h -> Q a h -> staging (mret a) h Q.
Proof. intros Hi HQ. split; [by exists E, D|done]. Qed.
Lemma staging_raise {A} e E D h (Q : A -> Host -> Prop) : stage_inv E D h -> staging (raise e) h Q.
Proof. intros Hi. split; [by exists E, D|done]. Qed.
Lemma staging_fail {A} c msg E D h (Q : A -> Host -> Prop) : stage_inv E D h -> staging (failM c msg) h Q.
Proof. apply staging_raise. Qed.
Lemma staging_bind {A B} (m : M A) (k : A -> M B) h (P : A -> Host -> Prop) (Q : B -> Host -> Prop) :
  staging m h P -> (forall a h', P a h' -> staging (k a) h' Q) -> staging (m ≫= k) h Q.
Proof.
  unfold staging. intros Hm Hk. apply wp_bind. eapply wp_mono; [exact Hm|]. intros o h' [Hi Ho].
  destruct o as [a|e|s|]; cbn [carry]; [by apply Hk|done..].
Qed.
Lemma staging_leaves {A} (m : M A) E D h (P : A -> Host -> Prop) :
  stage_inv E D h -> leaves not_journal m h P -> staging m h (fun a h' => stage_inv E D h' /\ P a h').
Proof.
  unfold leaves, staging. intros Hi Hm. eapply wp_mono; [exact Hm|]. intros o h' [Hs Ho].
  assert (Hi' : stage_inv E D h') by (by eapply stage_inv_journal). split; [by exists E, D|]. by destruct o.
Qed.
Lemma staging_quiet {A} (m : M A) E D h (P : A -> Prop) :
  stage_inv E D h -> yields m h P -> staging m h (fun a h' => stage_inv E D h' /\ P a /\ quiet h h').
Proof.
  intros Hi Hm. unfold staging. unfold yields in Hm. eapply wp_mono; [exact Hm|]. intros o h' (Hq & Hne & Hv).
  pose proof (stage_inv_quiet _ _ _ _ Hq Hi). split; [by exists E, D|]. destruct o as [a| | |]; try done.
  split_and!; [done|by apply Hv|done].
Qed.
Lemma staging_grows {A} (m : M A) E j D h (Q : A -> places -> Prop) :
  wp m h (grows within (task_inv E j) D Q) ->
  task_inv E j D h ->
  staging m h (fun a h' => exists D', within D D' /\ task_inv E j D' h' /\ Q a D').
Proof.
  intros Hm Hi. unfold staging. eapply wp_mono; [exact Hm|]. intros o h'. destruct o as [a|e|s|]; cbn [grows]; try done.
  - intros (D' & H1 & H2 & H3). split; [exists E, D'; apply H2|]. by exists D'.
  - intros (D' & H1 & H2). split; [exists E, D'; apply H2|done].
Qed.
Lemma staging_lift {A} (r : Result A) E D h (Q : A -> Host -> Prop) :
  stage_inv E D h -> (forall a, r = Ok a -> Q a h) -> staging (lift r) h Q.
Proof. intros Hi HQ. destruct r as [a|e]; [by eapply staging_ret, HQ|by eapply staging_raise]. Qed.

Lemma flush_staging E D j h :
  task_inv E j D h -> staging (Device.flush dev) h (fun _ h' => task_inv (either D E) j D h').
Proof.
  intros [Hi Hh]. pose proof Hi as [_ Hf]. unfold staging.
  eapply wp_mono; [apply (filling_flush dev base T R D E h Hf)|]. intros o h' (Hne & Ho & Hf1 & Hok).
  pose proof (stage_inv_device _ _ _ _ _ _ Ho Hf1 Hi). split; [by exists E, D|].
  destruct o as [[]| | |]; try done. split; [eapply stage_inv_device; [exact Ho|by apply Hok|exact Hi]|by eapply held_device].
Qed.

Lemma staging_mono {A} (m : M A) h (P Q : A -> Host -> Prop) :
  staging m h P -> (forall a h', P a h' -> Q a h') -> staging m h Q.
Proof.
  unfold staging. intros Hm HPQ. eapply wp_mono; [exact Hm|]. intros o h' [Hi Ho]. split; [done|].
  destruct o; auto.
Qed.

(** The copies of a batch, and the reads that check them. *)
Lemma copies_staging sched E D j batch chunk h :
  Forall (fun m => m ∈ moves) batch -> task_inv E j D h ->
  staging (run_tasks sched ((fun m => copy_one dev m bs chunk) <$> batch)) h (fun rs h' =>
    exists D', task_inv E j D' h' /\ forall l, results rs = Ok l -> Forall (fun m => written m D') batch).
Proof.
  intros Hb Hi. eapply staging_mono.
  { eapply staging_grows; [|exact Hi].
    apply (run_tasks_spec within (task_inv E j) ((fun m (_ : CopyResult) D' => written m D') <$> batch));
      [|exact Hi]. unfold batch_ok. apply Forall2_fmap, Forall_Forall2_diag.
    eapply list.Forall_impl; [exact Hb|]. intros m Hm. by apply copy_one_ok. }
  cbv beta. intros rs h' (D' & _ & Hi' & Hrs). exists D'. split; [done|]. intros l Hl%results_ok.
  rewrite Forall2_fmap_l in Hrs. apply list.Forall_forall. intros m Hm.
  apply list_elem_of_lookup in Hm as [k Ek].
  destruct (Forall2_lookup_l _ _ _ _ _ Hrs Ek) as (r & Er & Hr).
  destruct (Forall2_lookup_l _ _ _ _ _ Hl Er) as (a & _ & ->). by apply (Hr a eq_refl D').
Qed.

Lemma checks_staging sched E D j batch chunk h :
  Forall (fun m => m ∈ moves) batch -> task_inv E j D h ->
  staging (run_tasks sched ((fun m => verify_one dev m bs chunk) <$> batch)) h (fun rs h' =>
    exists D', task_inv E j D' h').
Proof.
  intros Hb Hi. eapply staging_mono.
  { eapply staging_grows; [|exact Hi].
    apply (run_tasks_spec within (task_inv E j) ((fun _ (_ : Z) _ => True) <$> batch));
      [|exact Hi]. unfold batch_ok. apply Forall2_fmap, Forall_Forall2_diag.
    eapply list.Forall_impl; [exact Hb|]. intros m Hm. by apply verify_one_ok. }
  cbv beta. intros rs h' (D' & _ & Hi' & _). by exists D'.
Qed.

Lemma same_transaction m m' : m ∈ moves -> m' ∈ moves -> mv_transaction_id m = mv_transaction_id m' -> m = m'.
Proof.
  intros [i Hi]%list_elem_of_lookup [k Hk]%list_elem_of_lookup E. pose proof (sp_ids _ Hplan) as Hnd.
  fold moves in Hnd. assert (i = k) as ->; [|congruence].
  eapply NoDup_lookup; [exact Hnd|rewrite list_lookup_fmap, Hi; reflexivity|].
  rewrite list_lookup_fmap, Hk. cbn. by rewrite E.
Qed.

(** What the loop keeps: the verified moves that were not verified at the
    start are durable, and the others are still to come. *)
Definition batches_inv (V0 V : gset Z) (E : places) (rest : list OwnerMove) : Prop :=
  rest ⊆ moves /\
  (forall m, m ∈ moves -> m ∈ rest \/ mv_transaction_id m ∈ V) /\
  (forall m, m ∈ moves -> mv_transaction_id m ∈ V -> mv_transaction_id m ∈ V0 \/ written m E).

Lemma batches_skip V0 V E rest :
  batches_inv V0 V E rest -> batches_inv V0 V E (skip_verified V rest).
Proof.
  intros (H1 & H2 & H3). split_and!; [|intros m Hm|done].
  - etrans; [apply skip_verified_sub|done].
  - destruct (H2 m Hm) as [Hr|]; [by apply skip_verified_spec|by right].
Qed.

Lemma batches_take V0 V E E' rest n :
  batches_inv V0 V E rest -> within E E' ->
  Forall (fun m => written m E') (take_batch n V rest).1 ->
  batches_inv V0 (list_to_set (mv_transaction_id <$> (take_batch n V rest).1) ∪ V) E' (take_batch n V rest).2.
Proof.
  intros (H1 & H2 & H3) HE Hw. destruct (take_batch_spec n V rest) as (B1 & B2 & _ & B4).
  set (batch := (take_batch n V rest).1) in *. split_and!; [by etrans| |].
  - intros m Hm. destruct (H2 m Hm) as [Hr|Hv]; [|right; set_solver].
    destruct (B4 m Hr) as [Hb|[Hb|Hv]]; [right|by left|right; set_solver].
    apply elem_of_union_l, elem_of_list_to_set, list_elem_of_fmap. by exists m.
  - intros m Hm [Hb|Hv]%elem_of_union.
    + right. apply elem_of_list_to_set, list_elem_of_fmap in Hb as (m' & Em & Hb).
      assert (m = m') as -> by (apply same_transaction; [done|by apply H1, B1|done]).
      rewrite list.Forall_forall in Hw. by apply Hw.
    + destruct (H3 m Hm Hv) as [|Hd]; [by left|right; by eapply written_mono].
Qed.

(** What the loop returns: the operation is paused, or everything is there. *)
Definition batches_post (V0 : gset Z) (r : TransactionJournal * StageReport) (h : Host) : Prop :=
  sg_complete r.2 = false /\ exists E D, task_inv E r.1 D h /\
  (sg_paused r.2 = true \/ forall m, m ∈ moves -> mv_transaction_id m ∈ V0 \/ written m E).

Lemma stage_batches_spec fuel sched o workers chunk j rest V0 V report E D h :
  (length rest < fuel)%nat -> (0 < workers)%nat -> sg_complete report = false ->
  batches_inv V0 V E rest -> task_inv E j D h ->
  staging (stage_batches fuel sched dev plan o workers chunk j rest V report) h (batches_post V0).
Proof.
  revert j rest V report E D h. induction fuel as [|fuel IH]; intros j rest V report E D h Hfuel Hwk Hrep Hb Hi; [lia|].
  cbn [stage_batches]. pose proof Hi as [Hs Hh]. pose proof (batches_skip _ _ _ _ Hb) as Hb1.
  pose proof (proj2 (skip_verified_sub V rest)) as Hless. clear Hb.
  destruct (skip_verified V rest) as [|x l] eqn:El.
  { eapply staging_ret; [exact Hs|]. split; [done|]. exists E, D. split; [done|]. right. intros m Hm.
    destruct Hb1 as (_ & H2 & H3). destruct (H2 m Hm) as [Hn|Hv]; [by apply elem_of_nil in Hn|by apply H3]. }
  set (rest1 := x :: l) in *. assert (Hlt : (length (take_batch workers V rest1).2 < fuel)%nat).
  { pose proof (take_batch_less workers V x l Hwk). cbn in Hless. unfold rest1. lia. }
  pose proof Hb1 as (Hsub & _). clearbody rest1. clear El Hless x l.
  eapply staging_bind; [eapply (staging_quiet _ E D _ (fun _ => True)); [exact Hs|]|].
  { eapply wp_mono; [apply cancel_spec|]. intros o' h' [Hq Hne]. by split_and!. }
  intros stop h1 (Hs1 & _ & Hq). assert (Hi1 : task_inv E j D h1) by (by eapply task_inv_quiet). clear h Hs Hh Hi Hq.
  destruct stop.
  { eapply staging_bind; [eapply staging_leaves; [exact Hs1|apply run_on_leaves; [apply safe_checkpoint|apply Hi1]]|].
    intros j' h' [Hs' Hh']. eapply staging_ret; [exact Hs'|]. split; [done|]. exists E, D. split; [done|by left]. }
  cbv zeta. set (p := take_batch workers V rest1) in *.
  assert (Hbm : Forall (fun m => m ∈ moves) p.1).
  { apply list.Forall_forall. intros m Hm. apply Hsub.
    destruct (take_batch_spec workers V rest1) as (B1 & _). by apply B1. }
  eapply staging_bind; [by apply (copies_staging _ E D j)|]. intros rs h2 (D2 & Hi2 & Hres).
  destruct (results rs) as [copies'|e] eqn:Er.
  2: { apply (staging_bind _ _ _ (fun _ h' => exists E D, stage_inv E D h'));
         [|intros r h3 (E3 & D3 & H3); eapply staging_raise; exact H3].
       unfold staging. apply wp_attempt. eapply wp_mono.
       - apply (staging_leaves _ E D2); [apply Hi2|apply run_on_leaves; [apply safe_checkpoint|apply Hi2]].
       - intros o' h3 [Hx Ho]. destruct o' as [a|e'|s|]; [by split..|done|done]. }
  pose proof (Hres _ eq_refl) as Hw. clear Hres.
  eapply staging_bind; [by apply flush_staging|]. intros [] h3 Hi3.
  assert (Hw3 : Forall (fun m => written m (either D2 E)) p.1).
  { eapply list.Forall_impl; [exact Hw|]. intros m. apply written_mono. intros i. by left. }
  assert (Hb3 := batches_take V0 V E (either D2 E) rest1 workers Hb1 (fun i Hi => or_intror Hi) Hw3). fold p in Hb3.
  eapply (staging_bind _ _ _ (fun _ h' => exists D', task_inv (either D2 E) j D' h')).
  { destruct (verify_after_write o); [|eapply staging_ret; [apply Hi3|by exists D2]].
    eapply staging_bind; [by apply (checks_staging _ (either D2 E) D2 j)|]. intros cs h4 (D4 & Hi4).
    eapply staging_lift; [apply Hi4|]. intros _ _. by exists D4. }
  intros [] h4 (D4 & [Hs4 Hh4]).
  eapply staging_bind; [eapply staging_leaves; [exact Hs4|by apply run_on_leaves; [apply safe_append_batch|]]|].
  intros j5 h5 Hi5. apply (IH _ _ _ _ (either D2 E) D4); [done..| |done|exact Hi5].
  by rewrite sum_copied_complete.
Qed.

(** ** The journal and the operation *)

Lemma resume_moves_staging chunk intents done l V E j D h :
  l ⊆ moves -> task_inv E j D h ->
  staging (resume_moves dev bs chunk intents done l V) h (fun _ h' => exists D', task_inv E j D' h').
Proof.
  revert V D h. induction l as [|m l IH]; intros V D h Hl Hi; cbn [resume_moves].
  { eapply staging_ret; [apply Hi|by exists D]. }
  assert (Hm : m ∈ moves) by (apply Hl; left). assert (Hl' : l ⊆ moves) by (intros y Hy; apply Hl; by right).
  destruct (intents !! _) as [r|]; [|eapply staging_fail, Hi].
  destruct (negb _); [eapply staging_fail, Hi|]. destruct (done !! _) as [vr|]; [|by apply (IH _ D)].
  eapply staging_bind.
  { eapply staging_grows; [|exact Hi]. eapply (finish_spec within); [by apply verify_one_ok|exact Hi]. }
  intros rc h1 (D1 & _ & Hi1 & _). eapply (staging_bind _ _ _ (fun _ h' => task_inv E j D1 h')).
  { eapply staging_lift; [apply Hi1|done]. }
  intros crc h2 Hi2. by apply (IH _ D1).
Qed.

Lemma start_stage_staging chunk existing E j D h :
  task_inv E j D h ->
  staging (start_stage dev plan chunk existing j) h (fun q h' =>
    (exists D', task_inv E q.1 D' h') /\ (existing = false -> q.2 = ∅)).
Proof.
  intros [Hs Hh]. unfold start_stage. destruct existing.
  - destruct (negb _); [by eapply staging_fail|].
    eapply staging_bind; [eapply staging_leaves; [exact Hs|apply query_leaves; [apply safe_records|exact Hh]]|].
    intros p h1 [Hs1 Hh1]. cbv zeta. destruct (negb _); [by eapply staging_fail|].
    eapply staging_bind; [by apply (resume_moves_staging _ _ _ _ _ E p.2 D)|].
    intros v h2 (D2 & Hi2). eapply staging_ret; [apply Hi2|]. split; [by exists D2|done].
  - eapply staging_bind; [eapply staging_leaves; [exact Hs|apply run_on_leaves; [apply safe_append_batch|exact Hh]]|].
    intros j1 h1 [Hs1 Hh1].
    eapply staging_bind; [eapply staging_leaves; [exact Hs1|apply run_on_leaves; [apply safe_checkpoint|exact Hh1]]|].
    intros j2 h2 Hi2. eapply staging_ret; [apply Hi2|]. split; [by exists D|done].
Qed.

(** The journal's name is free or names a plain file with its writes inside. *)
Definition journal_place (p : string) (h : Host) : Prop :=
  forall fd, h_names h !! p = Some fd ->
    exists f, h_files h !! fd = Some f /\ f_kind f = Regular /\ file_ok (zlen (f_durable f)) f.

Lemma open_stage_journal_staging fs_uuid E D h :
  journal_place path h0 -> quiet h0 h -> stage_inv E D h ->
  staging (open_stage_journal dev plan path fs_uuid) h (fun p h' =>
    task_inv E p.1 D h' /\ (h_names h0 !! path = None -> p.2 = false)).
Proof.
  intros Hj Hq Hs. unfold open_stage_journal.
  assert (Hplain : plain_name not_journal path h0).
  { intros fd Efd. split; [by intros [_ ?]|]. by apply Hj. }
  eapply (staging_bind _ _ _ (fun b h' => stage_inv E D h' /\ quiet h0 h' /\
            (h_names h0 !! path = None -> b = false))).
  { eapply (staging_bind _ _ _ (fun r h' => stage_inv E D h' /\ quiet h0 h' /\
      forall b, r = inr b -> h_names h0 !! path = None -> b = false)).
    - unfold sys_exists. unfold staging. apply sys_call_spec; [intros e h1 Hq1|intros h1 Hq1]; cbn [fst snd].
      + assert (Hq' : quiet h0 h1) by (by eapply quiet_trans).
        assert (Hs' : stage_inv E D h1) by (by apply (stage_inv_quiet _ _ h)). split; [by exists E, D|].
        split_and!; [done|done|by intros b].
      + assert (Hq' : quiet h0 h1) by (by eapply quiet_trans).
        assert (Hs' : stage_inv E D h1) by (by apply (stage_inv_quiet _ _ h)). split; [by exists E, D|].
        split_and!; [done|done|]. intros b [= <-] Hn. destruct Hq' as (_ & -> & _). by rewrite Hn.
    - intros [e|b] h1 (Hs1 & Hq1 & Hb); [split; [by exists E, D|done]|].
      eapply staging_ret; [exact Hs1|]. split_and!; [done|done|by apply Hb]. }
  intros ex h1 (Hs1 & Hq1 & Hex). eapply (staging_bind _ _ _ (fun j h' => task_inv E j D h')).
  { destruct ex.
    - eapply staging_leaves; [exact Hs1|]. apply open_leaves. eapply plain_name_quiet; [exact Hq1|exact Hplain].
    - unfold create_stage_journal.
      eapply staging_bind; [eapply (staging_quiet _ E D _ (fun _ => True)); [exact Hs1|]|].
      { unfold yields. eapply wp_mono; [apply random_uuid_spec|]. intros o h2 (Hq2 & u & -> & _). by split_and!. }
      intros op h2 (Hs2 & _ & Hq2). cbv zeta. destruct (_ <? _); [by eapply staging_fail|].
      destruct (_ <? _); [by eapply staging_fail|]. eapply staging_leaves; [exact Hs2|].
      apply create_leaves. intros fd [Hk _]. destruct Hq1 as (_ & _ & _ & E1 & _), Hq2 as (_ & _ & _ & E2 & _). lia. }
  intros j h2 Hi2. cbv zeta. destruct (negb _); [eapply staging_fail, Hi2|].
  destruct (negb _); [eapply staging_fail, Hi2|]. destruct (negb _); [eapply staging_fail, Hi2|].
  eapply staging_ret; [apply Hi2|]. by split.
Qed.

(** The checks before the journal only read. *)
Lemma staging_check {A B} (m : M A) (k : A -> M B) h (P : A -> Prop) (Q : B -> Host -> Prop) :
  quiet h0 h -> wstate dev base [] h -> yields m h P ->
  (forall a h', P a -> quiet h0 h' -> wstate dev base [] h' -> staging (k a) h' Q) ->
  staging (m ≫= k) h Q.
Proof.
  intros Hq Hw Hm Hk. eapply staging_bind; [eapply (staging_quiet _ nowhere nowhere); [|exact Hm]|].
  - split; [by apply spares_quiet|]. apply filling_start; [done|]. by apply zlen_target.
  - intros a h' (_ & Ha & Hq'). apply Hk; [done|by eapply quiet_trans|by eapply wstate_quiet].
Qed.

Lemma started h : quiet h0 h -> wstate dev base [] h -> stage_inv nowhere nowhere h.
Proof.
  intros Hq Hw. split; [by apply spares_quiet|]. apply filling_start; [done|]. by apply zlen_target.
Qed.

(** What a call of [stage_relocation] leaves. *)
Definition staged_report (r : StageReport) (h : Host) : Prop :=
  sg_complete r = true -> h_names h0 !! path = None ->
  exists E D, stage_inv E D h /\ forall m, m ∈ moves -> written m E.

Lemma stage_run o workers chunk p h :
  (0 < workers)%nat -> (exists D, task_inv nowhere p.1 D h) -> (h_names h0 !! path = None -> p.2 = false) ->
  forall sched,
  staging (q ← start_stage dev plan chunk p.2 p.1;
           r ← stage_batches (S (length moves)) sched dev plan o workers chunk q.1 moves q.2
                 (resumed_report plan q.2);
           if sg_paused r.2 then mret r.2
           else
             run_on (checkpoint staged) r.1;;
             mret (mkStageReport (sg_moves_total r.2) (sg_moves_completed r.2) (sg_bytes_copied r.2)
                     (sg_bytes_verified r.2) false true)) h staged_report.
Proof.
  intros Hwk [D Hi] Hfresh sched. eapply staging_bind; [by apply (start_stage_staging _ _ nowhere _ D)|].
  intros q h1 [[D1 Hi1] Hq]. eapply staging_bind.
  { apply (stage_batches_spec _ _ _ _ _ _ _ q.2 q.2 _ nowhere D1); [lia|done| | |exact Hi1].
    - unfold resumed_report.
      assert (Hc : sg_complete (mkStageReport (zlen (pl_moves plan)) 0 0 0 false false) = false) by done.
      revert Hc. generalize (mkStageReport (zlen (pl_moves plan)) 0 0 0 false false).
      induction (pl_moves plan) as [|m l IH]; intros r Hc; cbn [foldl]; [done|]. apply IH. by case_bool_decide.
    - split_and!; [done|by left|by left]. }
  intros r h2 (Hc & E & D2 & Hi2 & Hall). destruct (sg_paused r.2) eqn:Ep.
  { eapply staging_ret; [apply Hi2|]. intros Hc'. congruence. }
  eapply staging_bind; [eapply staging_leaves; [apply Hi2|apply run_on_leaves; [apply safe_checkpoint|apply Hi2]]|].
  intros j' h3 [Hs3 _]. eapply staging_ret; [exact Hs3|]. intros _ Hn. exists E, D2. split; [done|].
  intros m Hm. destruct Hall as [|Hall]; [done|]. destruct (Hall m Hm) as [Hv|]; [|done].
  rewrite (Hq (Hfresh Hn)) in Hv. set_solver.
Qed.

Lemma stage_relocation_staging sched o :
  sg_journal_path o = path -> wstate dev base [] h0 -> journal_place path h0 ->
  staging (stage_relocation sched dev plan o) h0 staged_report.
Proof.
  intros Ep Hw Hj. assert (Hq : quiet h0 h0) by done. unfold stage_relocation.
  assert (Hfail : forall c msg h, quiet h0 h -> wstate dev base [] h ->
    staging (failM (A:=StageReport) c msg) h staged_report).
  { intros. by eapply staging_fail, started. }
  case_bool_decide; [by apply Hfail|].
  eapply staging_check; [done|done|apply (yields_reader dev base []); [done|apply (reader_offline dev dev)|]|].
  { intros a. exact I. }
  intros [] h1 _ Hq1 Hw1.
  eapply staging_check; [done|done|apply (yields_reader dev base []); [done|apply reader_inspect|]|].
  { intros a. exact I. }
  intros ds h2 _ Hq2 Hw2. destruct (_ && _); [by apply Hfail|]. case_bool_decide as Em.
  { eapply staging_ret; [by apply started|]. intros _ _. exists nowhere, nowhere. split; [by apply started|].
    unfold moves. rewrite Em. intros m Hm. by apply elem_of_nil in Hm. }
  eapply staging_check; [done|done|by apply (read_superblock_spec dev base [])|].
  intros sb h3 _ Hq3 Hw3. destruct (negb _); [by apply Hfail|]. destruct (has_flag _ _); [by apply Hfail|].
  eapply (staging_check _ _ _ (fun _ => True)); [done|done| |].
  { destruct (has_flag _ _); [|by apply yields_ret].
    eapply yields_bind; [by apply (verify_metadata_spec dev base)|]. intros r h' _ _. destruct (m_clean r); [by apply yields_ret|].
    apply yields_failM. }
  intros [] h4 _ Hq4 Hw4.
  eapply staging_check; [done|done|by apply (yields_lift _ _ (fun _ => True))|]. intros fu h5 _ Hq5 Hw5.
  eapply staging_check; [done|done|apply (yields_reader dev base []); [done|apply reader_profile|]|].
  { intros a. exact I. }
  intros prof h6 _ Hq6 Hw6. cbv zeta. rewrite Ep.
  eapply staging_bind; [eapply open_stage_journal_staging; [done|exact Hq6|by apply started]|].
  intros p h7 [Hi7 Hfr]. apply stage_run; [lia|by exists nowhere|done].
Qed.
End Staged.

(** C25: staging a relocation ends on every host whatever the order in which
    the pool runs its copies, and it touches no file but the device and the
    journal.  At every power cut after it stopped, each byte of the device is
    the old one or, at a destination of the plan, the byte of its source; no
    source has changed.  When it reports that a new operation is complete,
    every destination durably holds what its source held. *)
Theorem staging_copies_sources (sched : nat -> list nat * list nat) (dev : BlockDevice) (base : bytes)
    (plan : OwnerRelocationPlan) (o : StageOptions) (h : Host)
    (Hw : wstate dev base [] h) (Hfd : fd_ dev < h_next h) (Hplan : stageable plan)
    (Hname : h_names h !! sg_journal_path o <> Some (fd_ dev)) (Hj : journal_place (sg_journal_path o) h) :
  wp (stage_relocation sched dev plan o) h (fun out h' =>
    out <> OutOfFuel /\
    (forall fd, fd < h_next h -> fd <> fd_ dev -> h_names h !! sg_journal_path o <> Some fd ->
       h_files h' !! fd = h_files h !! fd) /\
    forall img, crash_image (file_of h' (fd_ dev)) img ->
      staged_image base plan img /\
      forall r, out = Ret r -> sg_complete r = true -> h_names h !! sg_journal_path o = None ->
        forall m, m ∈ pl_moves plan -> copied base (pl_block_size plan) img m).
Proof.
  pose proof (ws_len _ _ _ _ Hw) as Hlen.
  pose proof (stage_relocation_staging dev base plan h _ Hlen Hplan Hfd Hname sched o eq_refl Hw Hj) as H.
  unfold staging in H. eapply wp_mono; [exact H|]. intros out h' [(E & D & [Hs _] & Hfl) Ho].
  split; [by intros ->|]. split.
  { intros fd H1 H2 H3. apply Hs. by split_and!. }
  intros img Hc. destruct (filling_crash _ _ _ _ _ _ _ _ Hfl Hc) as (Hz & Hb & _).
  split; [by apply (between_staged dev)|]. intros r -> Hr Hn m Hm.
  destruct (Ho Hr Hn) as (E' & D' & [_ Hfl'] & Hall). destruct (Hall m Hm) as [Hu|(c & Hcp & Hin)]; [by left|right].
  destruct (filling_crash _ _ _ _ _ _ _ _ Hfl' Hc) as (_ & _ & Ha).
  by eapply (agreed_copy dev base plan).
Qed.

Definition demo_plan : OwnerRelocationPlan :=
  mkOwnerPlan 1024 10 10240 2 0 0 0 0 1 1 true true [mkOwnerMove data_extent 1 12 0 12 7 2 false 0].
Definition demo_stage_options : StageOptions := mkStageOptions "d/journal" false true.

Lemma staging_copies_sources_witness :
  let r := stage_relocation (fun _ => ([], [])) demo_ext4_device demo_plan demo_stage_options demo_ext4_host in
  stageable demo_plan /\ r.1 <> OutOfFuel /\
  forall img, crash_image (file_of r.2 1) img -> staged_image demo_ext4 demo_plan img.
Proof.
  assert (Hp : stageable demo_plan).
  { split; cbn [pl_moves demo_plan pl_block_size].
    - apply Forall_singleton. cbn. lia.
    - lia.
    - apply (bool_decide_unpack _). by vm_compute.
    - apply list.Forall_forall, (bool_decide_unpack _). by vm_compute.
    - apply NoDup_singleton. }
  split; [exact Hp|].
  destruct (staging_copies_sources (fun _ => ([], [])) demo_ext4_device demo_ext4 demo_plan demo_stage_options
    demo_ext4_host demo_ext4_state ltac:(vm_compute; reflexivity) Hp ltac:(by vm_compute) ltac:(done)) as (H1 & _ & H3).
  split; [exact H1|]. intros img Hi. apply (H3 img Hi).
Defined.
