(* ===== verification/AllocUpdate.v ===== *)
(** Changing the allocation bitmaps of an ext file system
    (src/ext4/mutate.cpp, up to [set_allocation_range]).

    [alloc_updated] says what a change of a range of blocks does to an image;
    the code implements it one group at a time, with a single flush behind the
    last group. *)
From S2P Require Import Prelude Words Errors Endian Crc Host Device Durable Ext4 Metadata Allocation MetadataCheck.
#[local] Open Scope Z_scope.

Record RangeState := mkRangeState {
  all_set : bool;
  all_clear : bool
}.

Definition set_desc_free_blocks (gd : bytes) (v : Z) : bytes :=
  let gd := write_le16 gd 12 (u16 v) in
  if 46 <=? zlen gd then write_le16 gd 44 (u16 (Z.shiftr v 16)) else gd.

Definition set_bitmap_bit (bm : bytes) (bit : Z) (value : bool) : bytes :=
  let byte := Z.shiftr bit 3 in
  let shift := Z.land bit 7 in
  let v := byte_at bm byte in
  let v := if value then u8 (Z.lor v (u8 (Z.shiftl 1 shift)))
           else u8 (Z.land v (u8 (Z.lnot (Z.shiftl 1 shift)))) in
  <[Z.to_nat byte := byte.of_Z v]> bm.

(** The part of a range that starts at [pos] which lies in the group of [pos]:
    the group, the index of [pos] in it and the number of blocks, at most
    [left].  Both loops over ranges walk the groups in this way. *)
Definition range_step (s : Superblock) (pos left : Z) : Z * Z * Z :=
  let group := (pos - first_data_block s) / blocks_per_group s in
  let idx := u64 (pos - group_start_block s group) in
  (group, idx, Z.min left (u64 (group_block_count s group - idx))).

(** Every round but the last ends at the end of a group. *)
Definition range_fuel (s : Superblock) : nat := Z.to_nat (groups_count s) + 1.

Fixpoint allocation_loop (fuel : nat) (dev : BlockDevice) (s : Superblock) (pos left : Z)
    (out : RangeState) : M RangeState :=
  match fuel with
  | O => fun h => (OutOfFuel, h)
  | S fuel =>
      if left =? 0 then mret out
      else if pos <? first_data_block s
      then failM unsafe "allocation range reaches reserved pre-data blocks"
      else
        let '(group, idx, n) := range_step s pos left in
        gd ← read_group_desc dev s group;
        bm ← read_block_bitmap dev s gd;
        let out := foldl (fun out i =>
          let set := bit_set bm (idx + i) in
          mkRangeState (all_set out && set) (all_clear out && negb set)) out (seqZ 0 n) in
        allocation_loop fuel dev s (pos + n) (left - n) out
  end.

Definition allocation_state (dev : BlockDevice) (ctx : MetadataContext) (start length : Z)
    : M RangeState :=
  let s := sb ctx in
  if (length =? 0) || (blocks_count s <=? start) || (blocks_count s - start <? length)
  then failM invalid_argument "allocation range lies outside filesystem"
  else allocation_loop (range_fuel s) dev s start length (mkRangeState true true).

Definition set_bits (bm : bytes) (first count : Z) (allocate : bool) : bytes :=
  foldl (fun bm i => set_bitmap_bit bm (first + i) allocate) bm (seqZ 0 count).

Definition rewrite_group_bitmap (dev : BlockDevice) (ctx : MetadataContext)
    (group first count : Z) (allocate : bool) : M unit :=
  let s := sb ctx in
  gd ← read_group_desc dev s group;
  gd_raw ← read_group_descriptor_raw dev ctx group;
  gd_ok ← lift (verify_group_descriptor_checksum ctx group gd_raw);
  if negb gd_ok
  then failM corrupt "group descriptor checksum mismatch before allocation update"
  else
    bm ← read_block_bitmap dev s gd;
    bm_ok ← lift (verify_block_bitmap_checksum ctx gd_raw bm);
    if negb bm_ok
    then failM corrupt "block bitmap checksum mismatch before allocation update"
    else
      let valid := group_block_count s group in
      if (valid <? first) || (valid - first <? count)
      then failM corrupt "bitmap update exceeds valid group blocks"
      else
        let bm := set_bits bm first count allocate in
        let free := valid - count_bits bm valid in
        if 0xffffffff <? free then failM internal "group free count overflow"
        else
          let gd_raw := set_desc_free_blocks gd_raw (u32 free) in
          let gd_raw := update_block_bitmap_checksum ctx gd_raw bm in
          gd_raw ← lift (update_group_descriptor_checksum ctx group gd_raw);
          write_exact dev (block_bitmap gd * block_size s) bm;;
          write_group_descriptor_raw dev ctx group gd_raw.

Fixpoint set_allocation_loop (fuel : nat) (dev : BlockDevice) (ctx : MetadataContext)
    (pos left : Z) (allocate : bool) : M unit :=
  match fuel with
  | O => fun h => (OutOfFuel, h)
  | S fuel =>
      if left =? 0 then mret tt
      else if pos <? first_data_block (sb ctx)
      then failM unsafe "allocation update reaches reserved pre-data blocks"
      else
        let '(group, idx, n) := range_step (sb ctx) pos left in
        rewrite_group_bitmap dev ctx group idx n allocate;;
        set_allocation_loop fuel dev ctx (pos + n) (left - n) allocate
  end.

Definition set_allocation_range (dev : BlockDevice) (ctx : MetadataContext)
    (start length : Z) (allocate : bool) : M unit :=
  if length =? 0 then mret tt
  else
    set_allocation_loop (range_fuel (sb ctx)) dev ctx start length allocate;;
    flush dev.

(** ** Bits *)

(** Case analysis on the integer tests of the goal. *)
Ltac ztests :=
  repeat match goal with
    | |- context [?a <=? ?b] => destruct (Z.leb_spec a b)
    | |- context [?a <? ?b] => destruct (Z.ltb_spec a b)
    | |- context [?a =? ?b] => destruct (Z.eqb_spec a b)
    end; cbn [andb orb negb]; (done || lia).

Lemma bit_set_testbit b i :
  0 <= i < 8 * zlen b -> bit_set b i = Z.testbit (byte_at b (i / 8)) (i mod 8).
Proof.
  intros Hi. unfold bit_set. rewrite Z.shiftr_div_pow2 by lia. change (2 ^ 3) with 8.
  change 7 with (Z.ones 3). rewrite Z.land_ones by lia. change (2 ^ 3) with 8.
  rewrite (proj2 (Z.ltb_lt _ _)) by (apply Z.div_lt_upper_bound; lia). cbn [andb].
  pose proof (Z.mod_pos_bound i 8 ltac:(lia)).
  set (x := byte_at b (i / 8)). set (k := i mod 8) in *.
  change 1 with (Z.ones 1) at 1. rewrite Z.land_ones by lia. change (2 ^ 1) with 2.
  rewrite Zmod_odd, <-Z.bit0_odd, Z.shiftr_spec, Z.add_0_l by lia. by destruct (Z.testbit x k).
Qed.

Lemma zlen_set_bitmap_bit bm b v : zlen (set_bitmap_bit bm b v) = zlen bm.
Proof. unfold set_bitmap_bit. unfold zlen. by rewrite length_insert. Qed.

Lemma byte_at_insert bm k x i :
  0 <= k < zlen bm -> 0 <= i ->
  byte_at (<[Z.to_nat k := byte.of_Z x]> bm) i = if i =? k then u8 x else byte_at bm i.
Proof.
  intros Hk Hi. destruct (Z.eqb_spec i k) as [->|Hne].
  - erewrite byte_at_lookup; [apply byte.unsigned_of_Z|].
    apply list_lookup_insert_eq. unfold zlen in Hk. lia.
  - unfold byte_at. rewrite !nth_lookup, list_lookup_insert_ne by lia. done.
Qed.

Lemma bit_set_set_bitmap_bit bm b v i :
  0 <= b < 8 * zlen bm -> 0 <= i < 8 * zlen bm ->
  bit_set (set_bitmap_bit bm b v) i = if i =? b then v else bit_set bm i.
Proof.
  intros Hb Hi. rewrite !bit_set_testbit by (rewrite ?zlen_set_bitmap_bit; lia).
  unfold set_bitmap_bit. rewrite Z.shiftr_div_pow2 by lia. change (2 ^ 3) with 8.
  change 7 with (Z.ones 3). rewrite Z.land_ones by lia. change (2 ^ 3) with 8.
  assert (Hk : 0 <= b / 8 < zlen bm).
  { split; [apply Z.div_pos; lia|apply Z.div_lt_upper_bound; lia]. }
  pose proof (Z.mod_pos_bound i 8 ltac:(lia)). pose proof (Z.mod_pos_bound b 8 ltac:(lia)).
  pose proof (Z.div_mod i 8 ltac:(lia)). pose proof (Z.div_mod b 8 ltac:(lia)).
  rewrite byte_at_insert by (done || apply Z.div_pos; lia).
  set (x := byte_at bm (b / 8)).
  destruct (Z.eqb_spec (i / 8) (b / 8)) as [E|E].
  2: { destruct (Z.eqb_spec i b) as [->|]; [lia|done]. }
  rewrite E. fold x. set (k := i mod 8) in *. set (m := b mod 8) in *.
  assert (Hx : forall y, Z.testbit (u8 y) k = Z.testbit y k).
  { intros y. unfold wrap. apply Z.mod_pow2_bits_low. lia. }
  assert (Hs : Z.testbit (Z.shiftl 1 m) k = (k =? m)).
  { rewrite Z.shiftl_1_l. rewrite Z.pow2_bits_eqb by lia. apply Z.eqb_sym. }
  replace (i =? b) with (k =? m) by (destruct (Z.eqb_spec k m), (Z.eqb_spec i b); lia).
  destruct v.
  - rewrite !Hx, Z.lor_spec, Hx, Hs. by destruct (k =? m), (Z.testbit x k).
  - rewrite !Hx, Z.land_spec, Hx, Z.lnot_spec, Hs by lia. by destruct (k =? m), (Z.testbit x k).
Qed.

Lemma set_bits_spec bm first count v :
  0 <= first -> first + count <= 8 * zlen bm ->
  zlen (set_bits bm first count v) = zlen bm /\
  forall i, 0 <= i < 8 * zlen bm ->
    bit_set (set_bits bm first count v) i
    = if (first <=? i) && (i <? first + count) then v else bit_set bm i.
Proof.
  intros Hf. unfold set_bits. destruct (Z.le_gt_cases count 0) as [Hc|Hc].
  { rewrite seqZ_nil by lia. cbn. intros _. split; [done|]. intros i Hi.
    ztests. }
  rewrite <-(Z2Nat.id count) by lia. generalize (Z.to_nat count) as n. clear Hc count.
  induction n as [|n IH]; intros Hn.
  { cbn. split; [done|]. intros i Hi.
    ztests. }
  rewrite seqZ_S, foldl_app. cbn [foldl]. destruct IH as [IH1 IH2]; [lia|]. rewrite Z.add_0_l.
  split; [by rewrite zlen_set_bitmap_bit|]. intros i Hi.
  rewrite bit_set_set_bitmap_bit by (rewrite IH1; lia). rewrite IH2 by done.
  ztests.
Qed.

(** ** The descriptor of a group *)

Lemma count_bits_bound bm n : 0 <= n -> 0 <= count_bits bm n <= n.
Proof.
  intros. unfold count_bits. split; [apply zlen_nonneg|].
  etrans; [apply Nat2Z.inj_le, length_filter|]. rewrite length_seqZ. lia.
Qed.

(** The free counter has 32 bits, or every count fits in 16. *)
Definition counter_fits (s : Superblock) : Prop :=
  (64 <=? desc_bytes s) && has_flag (feature_incompat s) INCOMPAT_64BIT = true \/
  blocks_per_group s < 65536.

(** What the code writes over the descriptor [raw] of a group. *)
Definition rewritten (ctx : MetadataContext) (g : Z) (raw bm : bytes) (free : Z) (raw' : bytes) : Prop :=
  update_group_descriptor_checksum ctx g
    (update_block_bitmap_checksum ctx (set_desc_free_blocks raw (u32 free)) bm) = Ok raw'.

Lemma zlen_set_desc raw v : zlen (set_desc_free_blocks raw v) = zlen raw.
Proof. unfold set_desc_free_blocks, write_le16. case_match; rewrite ?zlen_write_le; done. Qed.

Lemma foldl_ext_in {A B} (f f' : A -> B -> A) l x :
  (forall a b, b ∈ l -> f a b = f' a b) -> foldl f x l = foldl f' x l.
Proof.
  revert x. induction l as [|b l IH]; intros x H; cbn [foldl]; [done|].
  rewrite (H x b) by left. apply IH. intros a' b' Hb. apply H. by right.
Qed.

Lemma read_byte b o : read_le 1 b o = byte_at b o.
Proof.
  unfold read_le. cbn [seq foldl]. rewrite Z.shiftl_0_r, Z.lor_0_l, Z.add_0_r.
  apply wrap_id. pose proof (byte_at_bound b o). unfold in_width. lia.
Qed.

Lemma byte_at_beyond b i : zlen b <= i -> byte_at b i = 0.
Proof. intros Hi. unfold byte_at. rewrite nth_overflow; [done|]. unfold zlen in Hi. lia. Qed.

(** [raw'] is the descriptor [raw] but for the counter of free blocks and the
    checksums. *)
Definition desc_like (raw raw' : bytes) : Prop :=
  zlen raw' = zlen raw /\
  forall o, 0 <= o -> Forall (fun p => o < p \/ p + 2 <= o) [12; 24; 30; 44; 56] ->
    byte_at raw' o = byte_at raw o.

(** The descriptor with another number of free blocks. *)
Definition with_free (free : Z) (gd : GroupDesc) : GroupDesc :=
  mkGroupDesc (block_bitmap gd) (inode_bitmap gd) (inode_table gd) free (g_free_inodes gd)
    (used_dirs gd) (flags gd).

Lemma desc_like_field raw raw' w o :
  desc_like raw raw' -> 0 <= o ->
  Forall (fun p => o + Z.of_nat w <= p \/ p + 2 <= o) [12; 24; 30; 44; 56] ->
  read_le w raw' o = read_le w raw o.
Proof.
  intros [_ Hb] Ho Hall. unfold read_le. f_equal. apply foldl_ext_in. intros wide i Hi%elem_of_seq. do 2 f_equal.
  apply Hb; [lia|]. eapply list.Forall_impl; [exact Hall|]. cbn. lia.
Qed.

Lemma desc_like_fields s raw raw' :
  desc_like raw raw' ->
  group_desc_fields s raw' = with_free (g_free_blocks (group_desc_fields s raw')) (group_desc_fields s raw).
Proof.
  intros Hl. unfold group_desc_fields, with_free. cbv zeta.
  cbn [block_bitmap inode_bitmap inode_table g_free_blocks g_free_inodes used_dirs flags].
  assert (Hf : forall w o, 0 <= o ->
    Forall (fun p => o + Z.of_nat w <= p \/ p + 2 <= o) [12; 24; 30; 44; 56] ->
    read_le w raw' o = read_le w raw o) by (intros; by apply desc_like_field).
  rewrite (Hf 4%nat 0), (Hf 4%nat 4), (Hf 4%nat 8), (Hf 4%nat 32), (Hf 4%nat 36), (Hf 4%nat 40),
    (Hf 2%nat 14), (Hf 2%nat 16), (Hf 2%nat 18), (Hf 2%nat 46), (Hf 2%nat 48)
    by (lia || (rewrite !Forall_cons; split_and!; [cbn; lia..|by apply Forall_nil])). done.
Qed.

Section Descriptor.
Context (ctx : MetadataContext) (g : Z) (raw bm raw' : bytes) (free : Z).
Context (Hs : in_width 32 (checksum_seed ctx)) (Hlen : 32 <= zlen raw).
Context (Hr : rewritten ctx g raw bm free raw').

Lemma rewritten_valid :
  zlen raw' = zlen raw /\
  verify_group_descriptor_checksum ctx g raw' = Ok true /\
  verify_block_bitmap_checksum ctx raw' bm = Ok true.
Proof.
  unfold rewritten in Hr. pose proof (zlen_set_desc raw (u32 free)) as Hz.
  set (r1 := set_desc_free_blocks raw (u32 free)) in *.
  pose proof (zlen_update_bitmap false ctx r1 bm) as Hz2.
  unfold update_block_bitmap_checksum in Hr. set (r2 := update_bitmap_checksum false ctx r1 bm) in *.
  destruct (group_roundtrip _ _ _ _ Hr) as (H1 & H2 & H3).
  split; [lia|]. split; [done|]. unfold verify_block_bitmap_checksum.
  rewrite (verify_bitmap_ext false ctx raw' r2 bm).
  - apply bitmap_roundtrip; [done|lia].
  - lia.
  - apply H3; [apply Z.ltb_ge; lia|..]; unfold lo_off, GD_BLOCK_CSUM_LO, GD_CHECKSUM; lia.
  - intros Hh. apply H3; [apply Z.ltb_ge; lia|..]; unfold hi_off, GD_BLOCK_CSUM_HI, GD_CHECKSUM in *; lia.
Qed.

(** A field apart from the counter and the checksums. *)
Lemma rewritten_field w o :
  0 <= o -> o + Z.of_nat w <= zlen raw ->
  Forall (fun p => o + Z.of_nat w <= p \/ p + 2 <= o) [12; 24; 30; 44; 56] ->
  read_le w raw' o = read_le w raw o.
Proof.
  intros Ho Hw Hall. repeat apply Forall_cons in Hall as [? Hall].
  revert Hr. unfold rewritten, update_group_descriptor_checksum, update_block_bitmap_checksum,
    update_bitmap_checksum, set_desc_free_blocks, write_le16, GD_CHECKSUM, GD_BLOCK_CSUM_LO,
    GD_BLOCK_CSUM_HI. cbv zeta. rewrite !zlen_write_le.
  destruct (Z.leb_spec 46 (zlen raw)), (Z.leb_spec (56 + 2) (zlen raw));
    destruct (negb (gdt_csum ctx)), (negb (metadata_csum ctx)); rewrite ?zlen_write_le;
    repeat case_match; try done; intros [= <-]; rd; done.
Qed.

Lemma rewritten_counter :
  0 <= free < 2 ^ 32 ->
  read_le16 raw' 12 = u16 free /\
  (46 <= zlen raw -> read_le16 raw' 44 = u16 (Z.shiftr free 16)).
Proof.
  intros Hf. assert (Hw : forall x, in_width (8 * Z.of_nat 2) (u16 x)) by (intros; apply wrap_width; lia).
  unfold rewritten in Hr. rewrite (wrap_id 32 free) in Hr by done.
  pose proof (zlen_set_desc raw free) as Hz. set (r1 := set_desc_free_blocks raw free) in *.
  pose proof (zlen_update_bitmap false ctx r1 bm) as Hz2.
  destruct (group_roundtrip _ _ _ _ Hr) as (_ & _ & H3). unfold update_block_bitmap_checksum in H3.
  assert (Hpeel : forall o, o = 12 \/ o = 44 -> o + 2 <= zlen raw -> read_le16 raw' o = read_le16 r1 o).
  { intros o Ho Ho2. rewrite H3; [apply update_bitmap_read|apply Z.ltb_ge|..];
      unfold lo_off, hi_off, GD_BLOCK_CSUM_LO, GD_BLOCK_CSUM_HI, GD_CHECKSUM; lia. }
  assert (Hr1 : r1 = if 46 <=? zlen raw
                     then write_le 2 (write_le 2 raw 12 (u16 free)) 44 (u16 (Z.shiftr free 16))
                     else write_le 2 raw 12 (u16 free)).
  { unfold r1, set_desc_free_blocks, write_le16. by rewrite zlen_write_le. }
  rewrite Hpeel by lia. rewrite Hr1. split.
  - case_match; [rewrite read_write_le_ne by (rewrite ?zlen_write_le; lia)|];
      by rewrite read_write_le_eq by (done || lia).
  - intros H46. rewrite Hpeel, Hr1 by lia. rewrite (proj2 (Z.leb_le _ _)) by done.
    by rewrite read_write_le_eq by (rewrite ?zlen_write_le; done || lia).
Qed.

Lemma rewritten_like : desc_like raw raw'.
Proof.
  split; [apply rewritten_valid|]. intros o Ho Hall. destruct (Z.lt_ge_cases o (zlen raw)) as [Hlt|Hge].
  - pose proof (rewritten_field 1 o Ho ltac:(lia)) as E. rewrite !read_byte in E. apply E.
    eapply list.Forall_impl; [exact Hall|]. cbn. lia.
  - rewrite !byte_at_beyond; [done|lia|]. destruct rewritten_valid as [-> _]. lia.
Qed.

Lemma rewritten_fields s :
  zlen raw = desc_bytes s -> counter_fits s -> 0 <= free < 2 ^ 32 -> free <= blocks_per_group s ->
  group_desc_fields s raw' = with_free free (group_desc_fields s raw).
Proof.
  intros Hz Hfit Hf Hb. destruct (rewritten_counter Hf) as [E12 E44].
  rewrite (desc_like_fields s raw raw' rewritten_like). f_equal.
  unfold group_desc_fields. cbv zeta. cbn [g_free_blocks].
  destruct ((64 <=? desc_bytes s) && _) eqn:Ew.
  - apply andb_true_iff in Ew as [Ew _]. apply Z.leb_le in Ew. rewrite E12, E44 by lia. by apply halves_join.
  - destruct Hfit as [Hfit|Hfit]; [congruence|]. rewrite E12, Z.lor_0_r.
    apply wrap_id. unfold in_width. lia.
Qed.
End Descriptor.

(** ** Images *)

(** The block of a group's bitmap. *)
Definition bitmap_off (s : Superblock) (img : bytes) (g : Z) : Z :=
  block_bitmap (desc_at img s g) * block_size s.

Definition of_group (s : Superblock) (g : Z) : Prop := 0 <= g < groups_count s.

(** The bitmaps lie apart from each other and from the descriptors. *)
Record alloc_layout (s : Superblock) (img : bytes) : Prop := {
  lay_descs : forall g g', of_group s g -> of_group s g' ->
    desc_off s g' + desc_bytes s <= bitmap_off s img g \/
    bitmap_off s img g + block_size s <= desc_off s g';
  lay_bitmaps : forall g g', of_group s g -> of_group s g' ->
    block_bitmap (desc_at img s g) = block_bitmap (desc_at img s g') -> g = g'
}.

(** The blocks [lo..hi) reach into the group. *)
Definition touched (s : Superblock) (lo hi g : Z) : Prop :=
  of_group s g /\ group_start_block s g < hi /\ lo < group_start_block s g + group_block_count s g.

(** The bitmap [d] of a group, in which the blocks outside [lo..hi) are as
    in [img]. *)
Definition bitmap_like (s : Superblock) (img : bytes) (lo hi g : Z) (d : bytes) : Prop :=
  zlen d = block_size s /\
  forall i, 0 <= i < group_block_count s g -> ~ lo <= group_start_block s g + i < hi ->
    bit_set d i = bit_set (block_bitmap_at img s g) i.

(** A write of the bitmap or of the descriptor of a touched group. *)
Definition alloc_write (s : Superblock) (img : bytes) (lo hi : Z) (w : Z * bytes) : Prop :=
  exists g, touched s lo hi g /\
    (w.1 = bitmap_off s img g /\ bitmap_like s img lo hi g w.2 \/
     w.1 = desc_off s g /\ desc_like (raw_desc img s g) w.2).

(** The checksums of a group's descriptor and bitmap, and its free counter. *)
Record alloc_sound (ctx : MetadataContext) (img : bytes) (g : Z) : Prop := {
  as_desc : verify_group_descriptor_checksum ctx g (raw_desc img (sb ctx) g) = Ok true;
  as_bitmap : verify_block_bitmap_checksum ctx (raw_desc img (sb ctx) g)
                (block_bitmap_at img (sb ctx) g) = Ok true;
  as_free : g_free_blocks (desc_at img (sb ctx) g)
            = group_block_count (sb ctx) g - used_blocks_of img (sb ctx) g
}.

(** [img'] is [img] with the blocks [lo..hi) allocated or free, as [v] says. *)
Record alloc_updated (ctx : MetadataContext) (img img' : bytes) (lo hi : Z) (v : bool) : Prop := {
  au_used : forall blk, first_data_block (sb ctx) <= blk < blocks_count (sb ctx) ->
    block_used img' (sb ctx) blk
    = if (lo <=? blk) && (blk <? hi) then v else block_used img (sb ctx) blk;
  au_sound : forall g, touched (sb ctx) lo hi g -> alloc_sound ctx img' g;
  au_desc : forall g, of_group (sb ctx) g ->
    desc_at img' (sb ctx) g
    = with_free (g_free_blocks (desc_at img' (sb ctx) g)) (desc_at img (sb ctx) g);
  au_others : forall g, of_group (sb ctx) g -> ~ touched (sb ctx) lo hi g ->
    raw_desc img' (sb ctx) g = raw_desc img (sb ctx) g /\
    block_bitmap_at img' (sb ctx) g = block_bitmap_at img (sb ctx) g
}.

Lemma desc_at_raw img s g : desc_at img s g = group_desc_fields s (raw_desc img s g).
Proof. done. Qed.

Section Images.
Context (ctx : MetadataContext) (Hgeo : geometry_ok (sb ctx)).
Let s := sb ctx.

Lemma desc_off_pos g' : of_group s g' -> 0 <= desc_off s g'.
Proof.
  intros [? _]. pose proof (geo_block_size ctx Hgeo). pose proof (desc_bytes_pos ctx).
  unfold desc_off, s. case_match; nia.
Qed.
Lemma bitmap_off_pos i g' : 0 <= bitmap_off s i g'.
Proof.
  pose proof (geo_block_size ctx Hgeo). destruct (desc_at_nonneg ctx i g') as (? & _).
  unfold bitmap_off, s. nia.
Qed.

Lemma used_at img g i :
  of_group s g -> 0 <= i < group_block_count s g ->
  block_used img s (group_start_block s g + i) = bit_set (block_bitmap_at img s g) i.
Proof. intros. by apply used_in_group. Qed.

Lemma group_block blk :
  first_data_block s <= blk < blocks_count s -> exists g i,
    of_group s g /\ 0 <= i < group_block_count s g /\ blk = group_start_block s g + i.
Proof.
  intros Hb. destruct (group_of_block s Hgeo blk Hb) as (Hg & Hin & _).
  eexists _, (blk - group_start_block s ((blk - first_data_block s) / blocks_per_group s)).
  split; [exact Hg|]. lia.
Qed.

(** A block of one group is in no other. *)
Lemma group_unique g g' i i' :
  of_group s g -> of_group s g' -> 0 <= i < group_block_count s g -> 0 <= i' < group_block_count s g' ->
  group_start_block s g + i = group_start_block s g' + i' -> g = g'.
Proof.
  intros Hg Hg' Hi Hi' E. destruct (group_start_spec s Hgeo g Hg) as [E1 _].
  destruct (group_start_spec s Hgeo g' Hg') as [E2 _].
  destruct (group_count_spec s Hgeo g Hg) as ((_ & H1) & _).
  destruct (group_count_spec s Hgeo g' Hg') as ((_ & H2) & _).
  pose proof Hgeo as [_ G2 _ _ _ _ _]. fold s in G2. nia.
Qed.

(** The part of a range in the group of its first block. *)
Lemma range_step_spec pos left :
  first_data_block s <= pos -> 0 < left -> pos + left <= blocks_count s ->
  let '(g, idx, n) := range_step s pos left in
  of_group s g /\ 0 <= idx /\ pos = group_start_block s g + idx /\
  0 < n <= left /\ idx + n <= group_block_count s g /\
  (n = left \/ pos + n = group_start_block s (g + 1) /\ of_group s (g + 1) /\
               (pos + n - first_data_block s) / blocks_per_group s = g + 1) /\
  g = (pos - first_data_block s) / blocks_per_group s.
Proof.
  intros Hp Hl He. unfold range_step. set (g := (pos - first_data_block s) / blocks_per_group s).
  destruct (group_of_block s Hgeo pos) as (Hg & Hin & _); [lia|]. fold g in Hg, Hin.
  destruct (group_start_spec s Hgeo g Hg) as [E1 E2].
  destruct (group_count_spec s Hgeo g Hg) as ((H0 & H1) & H2 & H3 & H4).
  pose proof Hgeo as [_ G2 _ G4 G5 _ _]. fold s in G2, G4, G5.
  assert (Hu : forall x, 0 <= x <= blocks_count s -> u64 x = x) by (intros; apply wrap_id; unfold in_width; lia).
  assert (E3 : u64 (pos - group_start_block s g) = pos - group_start_block s g) by (apply Hu; nia).
  rewrite E3, Hu by nia. set (i := pos - group_start_block s g) in *.
  split; [exact Hg|]. split; [lia|]. split; [lia|].
  destruct (Z.le_gt_cases left (group_block_count s g - i)) as [Hle|Hgt].
  { rewrite Z.min_l by lia. split_and!; lia || done. }
  rewrite Z.min_r by lia. split_and!; try lia. right.
  assert (Hlt : g < groups_count s - 1).
  { destruct (Z.eq_dec g (groups_count s - 1)) as [E|]; [|unfold of_group in *; lia].
    specialize (H4 E). lia. }
  specialize (H3 Hlt). assert (Hg1 : of_group s (g + 1)) by (unfold of_group; lia).
  destruct (group_start_spec s Hgeo (g + 1) Hg1) as [E4 _].
  split; [rewrite E4; lia|]. split; [done|].
  symmetry. apply (Z.div_unique_pos _ _ _ 0); lia.
Qed.

Lemma layout_updated img img' lo hi v :
  alloc_updated ctx img img' lo hi v -> alloc_layout s img ->
  alloc_layout s img' /\ forall g, of_group s g -> bitmap_off s img' g = bitmap_off s img g.
Proof.
  intros [_ _ Hd _] [L1 L2].
  assert (Hb : forall g, of_group s g -> block_bitmap (desc_at img' s g) = block_bitmap (desc_at img s g)).
  { intros g Hg. unfold s. by rewrite (Hd g Hg). }
  assert (Ho : forall g, of_group s g -> bitmap_off s img' g = bitmap_off s img g).
  { intros g Hg. unfold bitmap_off. by rewrite Hb. }
  split; [|done]. split; intros g g' Hg Hg'; [rewrite Ho by done; by apply L1|].
  rewrite !Hb by done. by apply L2.
Qed.

Lemma alloc_sound_ext img img' g :
  raw_desc img' s g = raw_desc img s g -> block_bitmap_at img' s g = block_bitmap_at img s g ->
  alloc_sound ctx img g -> alloc_sound ctx img' g.
Proof.
  unfold s. intros E1 E2 [A B C]. split; [by rewrite E1|by rewrite E1, E2|].
  rewrite desc_at_raw, E1, <-desc_at_raw, C. unfold used_blocks_of. by rewrite E2.
Qed.

(** Two ranges that meet at the start of a group. *)
Lemma alloc_updated_trans img1 img2 img3 lo mid hi g v :
  lo <= mid <= hi -> of_group s g -> mid = group_start_block s g ->
  alloc_updated ctx img1 img2 lo mid v -> alloc_updated ctx img2 img3 mid hi v ->
  alloc_updated ctx img1 img3 lo hi v.
Proof.
  intros Hm Hg -> [U1 S1 D1 O1] [U2 S2 D2 O2].
  assert (Hcase : forall g', touched s lo hi g' ->
    touched s (group_start_block s g) hi g' \/
    touched s lo (group_start_block s g) g' /\ ~ touched s (group_start_block s g) hi g').
  { intros g' (Hg' & H1 & H2). destruct (group_start_spec s Hgeo g Hg) as [E1 _].
    destruct (group_start_spec s Hgeo g' Hg') as [E2 _].
    destruct (group_count_spec s Hgeo g' Hg') as ((? & H3) & _).
    pose proof Hgeo as [_ G2 _ _ _ _ _]. fold s in G2.
    destruct (Z.le_gt_cases g g').
    - left. split; [done|]. nia.
    - right. split; [split; [done|nia]|]. intros (_ & _ & H4). nia. }
  split.
  - intros blk Hb. rewrite U2, U1 by done. ztests.
  - intros g' Ht. destruct (Hcase g' Ht) as [H2|[H1 H2]]; [by apply S2|].
    destruct (O2 g' (proj1 H1) H2) as [E1 E2]. by apply (alloc_sound_ext img2), S1.
  - intros g' Hg'. rewrite (D2 g' Hg') at 1. by rewrite (D1 g' Hg').
  - intros g' Hg' Hnt. destruct (O2 g' Hg') as [E1 E2].
    { intros (? & ? & ?). apply Hnt. split; [done|]. destruct (group_count_spec s Hgeo g' Hg'). lia. }
    destruct (O1 g' Hg') as [E3 E4]; [|by rewrite E1, E2].
    intros (? & ? & ?). apply Hnt. split; [done|]. lia.
Qed.
End Images.

(** ** One group *)

Section OneGroup.
Context (ctx : MetadataContext) (Hgeo : geometry_ok (sb ctx)).
Context (Hseed : in_width 32 (checksum_seed ctx)) (Hfit : counter_fits (sb ctx)).
Let s := sb ctx.
Context (img : bytes) (Hlay : alloc_layout s img) (g : Z) (Hg : of_group s g).
Context (Hd : desc_off s g + desc_bytes s <= zlen img).
Context (Hb : bitmap_off s img g + block_size s <= zlen img).
Context (first count : Z) (v : bool) (Hf : 0 <= first) (Hc : 0 < count).
Context (Hv : first + count <= group_block_count s g).
Let bm := block_bitmap_at img s g.
Let bm' := set_bits bm first count v.
Let free := group_block_count s g - count_bits bm' (group_block_count s g).
Context (raw' : bytes) (Hr : rewritten ctx g (raw_desc img s g) bm' free raw').
Let ws := [(bitmap_off s img g, bm'); (desc_off s g, raw')].
Let img' := put_all ws img.

Lemma zlen_bm : zlen bm = block_size s.
Proof.
  pose proof (geo_block_size ctx Hgeo). pose proof (bitmap_off_pos ctx Hgeo img g).
  apply zlen_slice; fold (bitmap_off s img g); unfold s in *; lia.
Qed.

Lemma group_bits : group_block_count s g <= 8 * block_size s /\ 0 < group_block_count s g.
Proof.
  destruct (group_count_spec s Hgeo g Hg) as ((? & ?) & _). destruct Hgeo as [_ G2 _ _ _ _ _].
  fold s in G2. lia.
Qed.

Lemma zlen_bm' : zlen bm' = block_size s.
Proof. pose proof group_bits. unfold bm'. rewrite (proj1 (set_bits_spec bm first count v Hf ltac:(rewrite zlen_bm; lia))). apply zlen_bm. Qed.

Lemma zlen_raw : zlen (raw_desc img s g) = desc_bytes s.
Proof.
  pose proof (desc_bytes_pos ctx). pose proof (desc_off_pos ctx Hgeo g Hg). apply zlen_slice; unfold s in *; lia.
Qed.

Lemma rewritten_ok :
  zlen raw' = desc_bytes s /\ verify_group_descriptor_checksum ctx g raw' = Ok true /\
  verify_block_bitmap_checksum ctx raw' bm' = Ok true /\
  group_desc_fields s raw' = with_free free (desc_at img s g).
Proof.
  pose proof (desc_bytes_pos ctx) as Hp. fold s in Hp. pose proof zlen_raw as Hz. pose proof group_bits as [G1 G2].
  destruct (rewritten_valid ctx g _ _ _ _ Hseed ltac:(rewrite Hz; lia) Hr) as (E1 & E2 & E3).
  split; [lia|]. split; [done|]. split; [done|].
  pose proof (geo_block_size ctx Hgeo) as Hbs. fold s in Hbs.
  pose proof (count_bits_bound bm' (group_block_count s g) ltac:(lia)).
  destruct (group_count_spec s Hgeo g Hg) as ((_ & H1) & _).
  apply (rewritten_fields ctx g _ _ _ _ Hseed ltac:(rewrite Hz; lia) Hr); [done|done|unfold free; lia|unfold free; lia].
Qed.

(** What the two writes hold. *)
Lemma rewritten_likes :
  let lo := group_start_block s g + first in
  bitmap_like s img lo (lo + count) g bm' /\ desc_like (raw_desc img s g) raw'.
Proof.
  cbv zeta. pose proof zlen_bm as Hz. pose proof group_bits as [G1 G2].
  pose proof (desc_bytes_pos ctx) as Hp. fold s in Hp. pose proof zlen_raw as Hzr. split.
  - split; [apply zlen_bm'|]. intros i Hi Hout.
    unfold bm'. rewrite (proj2 (set_bits_spec bm first count v Hf ltac:(lia)) i ltac:(lia)). unfold bm. ztests.
  - by apply (rewritten_like ctx g _ _ _ _ Hseed ltac:(rewrite Hzr; lia) Hr).
Qed.

Lemma update_inside : Forall (inside (zlen img)) ws.
Proof.
  pose proof (desc_off_pos ctx Hgeo g Hg). pose proof (bitmap_off_pos ctx Hgeo img g). destruct rewritten_ok as [Hz _].
  unfold ws. rewrite !Forall_cons. unfold inside. cbn [fst snd]. rewrite Hz, zlen_bm'.
  by split_and!; [..|apply Forall_nil].
Qed.

(** The places of the other groups are not written. *)
Lemma update_keeps o n :
  0 <= o -> o + n <= bitmap_off s img g \/ bitmap_off s img g + block_size s <= o ->
  o + n <= desc_off s g \/ desc_off s g + desc_bytes s <= o -> slice img' o n = slice img o n.
Proof.
  intros Ho H1 H2. destruct rewritten_ok as [Hz _]. apply (slice_put_all ws img); [apply update_inside|done|].
  unfold ws. rewrite !Forall_cons. unfold apart. cbn [fst snd]. rewrite Hz, zlen_bm'. by split_and!; [| |apply Forall_nil].
Qed.

Lemma update_raw : raw_desc img' s g = raw'.
Proof.
  destruct rewritten_ok as [Hz _]. unfold raw_desc. rewrite <-Hz.
  apply (slice_put_all_write [(bitmap_off s img g, bm')] (desc_off s g, raw') []);
    [apply update_inside|by apply Forall_nil].
Qed.

Lemma update_desc_other g' : of_group s g' -> g' <> g -> raw_desc img' s g' = raw_desc img s g'.
Proof.
  intros Hg' Hne. pose proof (desc_bytes_pos ctx) as Hp. fold s in Hp.
  apply update_keeps; [by apply (desc_off_pos ctx Hgeo)|by apply (lay_descs s img Hlay)|].
  unfold desc_off. case_match; nia.
Qed.

Lemma update_block_bitmap g' : of_group s g' -> block_bitmap (desc_at img' s g') = block_bitmap (desc_at img s g').
Proof.
  intros Hg'. rewrite !desc_at_raw. destruct (Z.eq_dec g' g) as [->|Hne].
  - destruct rewritten_ok as (_ & _ & _ & E). by rewrite update_raw, E.
  - by rewrite update_desc_other.
Qed.

Lemma update_bitmap_other g' : of_group s g' -> g' <> g -> block_bitmap_at img' s g' = block_bitmap_at img s g'.
Proof.
  intros Hg' Hne. unfold block_bitmap_at. rewrite update_block_bitmap by done.
  fold (bitmap_off s img g'). apply update_keeps; [apply (bitmap_off_pos ctx Hgeo)| |].
  - pose proof (geo_block_size ctx Hgeo) as Hbs. fold s in Hbs.
    assert (block_bitmap (desc_at img s g') <> block_bitmap (desc_at img s g)) by (intros ?; by apply Hne, (lay_bitmaps s img Hlay)).
    unfold bitmap_off. nia.
  - destruct (lay_descs s img Hlay g' g Hg' Hg); [by right|by left].
Qed.

Lemma update_bitmap : block_bitmap_at img' s g = bm'.
Proof.
  unfold block_bitmap_at. rewrite update_block_bitmap by done. fold (bitmap_off s img g).
  rewrite <-zlen_bm'. apply (slice_put_all_write [] (bitmap_off s img g, bm') [(desc_off s g, raw')]);
    [apply update_inside|]. apply Forall_singleton. unfold apart. cbn [fst snd].
  destruct rewritten_ok as [Hz _]. rewrite Hz, zlen_bm'.
  destruct (lay_descs s img Hlay g g Hg Hg); [by right|by left].
Qed.

Lemma group_updated :
  let st := group_start_block s g in
  alloc_updated ctx img img' (st + first) (st + first + count) v.
Proof.
  cbv zeta. pose proof group_bits as [G1 G2]. destruct rewritten_ok as (Hz & E1 & E2 & E3).
  assert (Honly : forall g', touched s (group_start_block s g + first) (group_start_block s g + first + count) g' -> g' = g).
  { intros g' (Hg' & H1 & H2). destruct (group_start_spec s Hgeo g Hg) as [S1 _].
    destruct (group_start_spec s Hgeo g' Hg') as [S2 _].
    destruct (group_count_spec s Hgeo g' Hg') as ((? & H3) & _).
    destruct (group_count_spec s Hgeo g Hg) as ((? & H4) & _).
    pose proof Hgeo as [_ G3 _ _ _ _ _]. fold s in G3. nia. }
  split; fold s.
  - intros blk Hblk. destruct (group_block ctx Hgeo blk Hblk) as (g' & i & Hg' & Hi & ->). fold s in Hg', Hi |- *.
    unfold s. rewrite !(used_at ctx Hgeo) by done. fold s. destruct (Z.eq_dec g' g) as [->|Hne].
    + rewrite update_bitmap. unfold bm'.
      rewrite (proj2 (set_bits_spec bm first count v Hf ltac:(rewrite zlen_bm; lia))) by (rewrite zlen_bm; lia).
      fold bm. ztests.
    + rewrite update_bitmap_other by done.
      destruct ((_ <=? _) && _) eqn:E; [|done]. exfalso. apply Hne.
      apply (group_unique ctx Hgeo g' g i (group_start_block s g' + i - group_start_block s g)); unfold s in *; lia || done.
  - intros g' ->%Honly. split; fold s.
    + by rewrite update_raw.
    + by rewrite update_raw, update_bitmap.
    + rewrite desc_at_raw, update_raw, E3. cbn [with_free g_free_blocks]. unfold used_blocks_of.
      by rewrite update_bitmap.
  - intros g' Hg'. rewrite (desc_at_raw img'). destruct (Z.eq_dec g' g) as [->|Hne].
    + by rewrite update_raw, E3.
    + rewrite update_desc_other by done. rewrite <-desc_at_raw. by destruct (desc_at img s g').
  - intros g' Hg' Hnt. assert (g' <> g).
    { intros ->. apply Hnt. split; [done|]. lia. }
    by rewrite update_desc_other, update_bitmap_other.
Qed.
End OneGroup.

(** ** The operations *)

(** Where a change of the blocks [lo..hi) may stop: writes of the touched
    groups are pending over the durable bytes. *)
Definition alloc_stop (dev : BlockDevice) (s : Superblock) (dur img : bytes)
    (ws : list (Z * bytes)) (lo hi : Z) (h' : Host) : Prop :=
  exists ws', Forall (fun w => w ∈ ws \/ alloc_write s img lo hi w) ws' /\ unsettled dev dur ws' h'.

Section Operations.
Context (dev : BlockDevice) (ctx : MetadataContext) (Hgeo : geometry_ok (sb ctx)).
Context (Hseed : in_width 32 (checksum_seed ctx)) (Hfit : counter_fits (sb ctx)).
Context (dur : bytes).
Let s := sb ctx.

Lemma alloc_stop_quiet img ws lo hi h h' :
  wstate dev dur ws h -> quiet h h' -> alloc_stop dev s dur img ws lo hi h'.
Proof.
  intros Hw Hq. exists ws. split; [apply list.Forall_forall; auto|].
  by apply wstate_unsettled, (wstate_quiet _ _ _ h).
Qed.

Lemma rewrite_group_spec ws g first count v h :
  let img := put_all ws dur in
  let lo := group_start_block s g + first in
  wstate dev dur ws h -> of_group s g -> 0 <= first -> 0 < count ->
  first + count <= group_block_count s g -> alloc_layout s img ->
  runs dev (rewrite_group_bitmap dev ctx g first count v) h
    (alloc_stop dev s dur img ws lo (lo + count)) (fun _ h' =>
      exists ws', wstate dev dur (ws ++ ws') h' /\
        Forall (alloc_write s img lo (lo + count)) ws' /\
        alloc_updated ctx img (put_all (ws ++ ws') dur) lo (lo + count) v).
Proof.
  intros img lo Hw Hg Hf Hc Hv Hlay. pose proof (ws_inside _ _ _ _ Hw) as Hin.
  pose proof (zlen_put_all ws dur Hin : zlen img = _) as Hz.
  unfold rewrite_group_bitmap. cbv zeta. fold s.
  assert (HS : forall h1 h2, wstate dev dur ws h1 -> quiet h1 h2 ->
    alloc_stop dev s dur img ws lo (lo + count) h2) by (intros; by eapply alloc_stop_quiet).
  rstep Hw by (apply (reads_desc dev dur ws ctx g _ Hw (proj1 Hg))) stop (by eapply HS) as gd Hgd.
  destruct Hgd as [-> Hchk]. fold s img.
  rstep Hw by (apply (reads_descriptor dev dur ws ctx Hgeo g _ Hw (proj1 Hg))) stop (by eapply HS) as raw Hraw.
  destruct Hraw as (-> & Hzr & Hdr). fold s img in Hzr, Hdr |- *.
  eapply runs_bind; [apply (runs_lift _ _ _ _ (fun _ h' => wstate dev dur ws h'));
    [by intros|eapply HS; [exact Hw|apply quiet_refl]]|]. clear Hw. intros ok h3 _ Hw.
  assert (HS0 : forall h1, wstate dev dur ws h1 -> alloc_stop dev s dur img ws lo (lo + count) h1)
    by (intros; eapply HS; [done|apply quiet_refl]).
  destruct ok; cbn [negb]; [|apply runs_failM; auto].
  rstep Hw by (apply (reads_block_bitmap dev dur ws ctx Hgeo g _ Hw)) stop (by eapply HS) as bm Hbm.
  destruct Hbm as (-> & Hzb & Hbr). fold s img in Hzb, Hbr |- *.
  eapply runs_bind; [apply (runs_lift _ _ _ _ (fun _ h' => wstate dev dur ws h'));
    [by intros|by apply HS0]|]. clear Hw. intros ok h5 _ Hw.
  destruct ok; cbn [negb]; [|apply runs_failM; auto].
  destruct (_ || _) eqn:E1; [apply runs_failM; auto|].
  set (bm' := set_bits (block_bitmap_at img s g) first count v).
  set (free := group_block_count s g - count_bits bm' (group_block_count s g)).
  destruct (0xffffffff <? free); [apply runs_failM; auto|].
  eapply runs_bind; [apply (runs_lift _ _ _ _ (fun raw' h' => wstate dev dur ws h' /\
    rewritten ctx g (raw_desc img s g) bm' free raw')); [by intros|by apply HS0]|].
  clear Hw. intros raw' h6 _ [Hw Hr].
  assert (Hd' : desc_off s g + desc_bytes s <= zlen img) by (rewrite Hz; exact Hdr).
  assert (Hb' : bitmap_off s img g + block_size s <= zlen img) by (rewrite Hz; exact Hbr).
  destruct (rewritten_ok ctx Hgeo Hseed Hfit img g Hg Hd' first count v raw' Hr) as (Hzr' & _).
  pose proof (zlen_bm' ctx Hgeo img g Hg Hb' first count v Hf Hv : zlen bm' = block_size s) as Hzb'.
  assert (Ht : touched s lo (lo + count) g) by (split; [done|]; unfold lo; lia).
  destruct (rewritten_likes ctx Hgeo Hseed img g Hg Hd' Hb' first count v Hf Hc Hv raw' Hr) as [Hl1 Hl2].
  assert (Hw1 : alloc_write s img lo (lo + count) (bitmap_off s img g, bm'))
    by (exists g; split; [exact Ht|by left]).
  assert (Hw2 : alloc_write s img lo (lo + count) (desc_off s g, raw'))
    by (exists g; split; [exact Ht|by right]).
  assert (Hstop : forall ws1 ws' h', ws' ⊆ ws ++ ws1 -> Forall (alloc_write s img lo (lo + count)) ws1 ->
    unsettled dev dur ws' h' -> alloc_stop dev s dur img ws lo (lo + count) h').
  { intros ws1 ws' h' Hsub Hall Hun. exists ws'. split; [|exact Hun]. apply list.Forall_forall.
    intros w Hin'. apply Hsub, elem_of_app in Hin' as [?|Hin']; [by left|right].
    rewrite list.Forall_forall in Hall. by apply Hall. }
  change (block_bitmap (desc_at img s g) * block_size s) with (bitmap_off s img g).
  eapply runs_bind; [apply (runs_write dev dur ws); [exact Hw|apply (bitmap_off_pos ctx Hgeo)|]|].
  { intros h' ws' Hsub. apply (Hstop [(bitmap_off s img g, bm')]); [done|by apply Forall_singleton]. }
  clear Hw. intros _ h7 _ [Hw _].
  assert (HS7 : alloc_stop dev s dur img ws lo (lo + count) h7).
  { apply (Hstop [(bitmap_off s img g, bm')] (ws ++ [(bitmap_off s img g, bm')]));
      [done|by apply Forall_singleton|by apply wstate_unsettled]. }
  unfold write_group_descriptor_raw. cbv zeta. fold s.
  repeat (case_match; [by apply runs_failM|]).
  fold (desc_off s g).
  eapply runs_mono; [apply (runs_write dev dur (ws ++ [(bitmap_off s img g, bm')])
    ((if block_size s =? 1024 then 2 else 1) * block_size s + g * desc_bytes s) raw'); [exact Hw|
    by apply (desc_off_pos ctx Hgeo)|]|by intros|].
  { intros h' ws' Hsub. rewrite <-app_assoc in Hsub. eapply Hstop; [exact Hsub|].
    cbn [app]. rewrite !Forall_cons. by split_and!; [| |apply Forall_nil]. }
  cbv beta. intros _ h8 _ [Hw8 _]. rewrite <-app_assoc in Hw8. eexists. split; [exact Hw8|].
  cbn [app]. split; [rewrite !Forall_cons; by split_and!; [| |apply Forall_nil]|].
  rewrite put_all_app.
  by apply (group_updated ctx Hgeo Hseed Hfit img Hlay g Hg Hd' Hb' first count v Hf Hc Hv raw' Hr).
Qed.

(** The groups that a range touches are in [img] as in [img']. *)
Definition same_groups (img img' : bytes) (lo hi : Z) : Prop :=
  forall g, touched s lo hi g ->
    raw_desc img s g = raw_desc img' s g /\ block_bitmap_at img s g = block_bitmap_at img' s g.

Lemma alloc_write_mono img img' lo hi lo' hi' w :
  lo' <= lo -> hi <= hi' -> same_groups img img' lo hi ->
  alloc_write s img lo hi w -> alloc_write s img' lo' hi' w.
Proof.
  intros Hlo Hhi Hb (g & Ht & Hw). destruct (Hb g Ht) as [Er Eb]. destruct Ht as (Hg & ? & ?).
  exists g. split; [split; [done|lia]|]. rewrite <-Er.
  assert (Eo : bitmap_off s img g = bitmap_off s img' g) by (unfold bitmap_off; by rewrite !desc_at_raw, Er).
  rewrite <-Eo. destruct Hw as [[? [Hz Hbits]]|Hw]; [left|by right]. split; [done|]. split; [done|].
  intros i Hi Hout. rewrite <-Eb. apply Hbits; [done|lia].
Qed.

Lemma alloc_stop_mono img img' ws ws' lo hi lo' hi' h :
  lo' <= lo -> hi <= hi' -> same_groups img img' lo hi ->
  Forall (alloc_write s img' lo' hi') ws' ->
  alloc_stop dev s dur img (ws ++ ws') lo hi h -> alloc_stop dev s dur img' ws lo' hi' h.
Proof.
  intros Hlo Hhi Hb Hall (wz & Hz & Hun). exists wz. split; [|exact Hun].
  eapply list.Forall_impl; [exact Hz|]. intros w [Hin|Hw].
  - apply elem_of_app in Hin as [?|Hin]; [by left|right]. rewrite list.Forall_forall in Hall. auto.
  - right. by apply (alloc_write_mono img img' lo hi).
Qed.

Lemma same_groups_refl img lo hi : same_groups img img lo hi.
Proof. by intros g. Qed.

(** A range that ends before a group does not touch it. *)
Lemma same_groups_behind img img' lo mid hi g v :
  of_group s g -> mid = group_start_block s g ->
  alloc_updated ctx img img' lo mid v -> same_groups img' img mid hi.
Proof.
  intros Hg Em Hu g' (Hg' & H1 & H2). apply (au_others _ _ _ _ _ _ Hu); [done|]. intros (_ & H3 & H4).
  destruct (group_start_spec s Hgeo g Hg) as [Eg _]. destruct (group_start_spec s Hgeo g' Hg') as [Eg' _].
  destruct (group_count_spec s Hgeo g' Hg') as (Hc & _). pose proof (geo_bpg s Hgeo).
  unfold s in *. assert (g' * blocks_per_group (sb ctx) < g * blocks_per_group (sb ctx)) by lia.
  assert (g' < g) by nia. nia.
Qed.

Lemma set_allocation_loop_spec fuel ws pos left v h :
  let img := put_all ws dur in
  wstate dev dur ws h -> first_data_block s <= pos -> 0 < left -> pos + left <= blocks_count s ->
  alloc_layout s img ->
  (Z.to_nat (groups_count s - (pos - first_data_block s) / blocks_per_group s) + 1 <= fuel)%nat ->
  runs dev (set_allocation_loop fuel dev ctx pos left v) h
    (alloc_stop dev s dur img ws pos (pos + left)) (fun _ h' =>
      exists ws', wstate dev dur (ws ++ ws') h' /\
        Forall (alloc_write s img pos (pos + left)) ws' /\
        alloc_updated ctx img (put_all (ws ++ ws') dur) pos (pos + left) v).
Proof.
  revert ws pos left h. induction fuel as [|fuel IH]; intros ws pos left h img Hw Hp Hl He Hlay Hfuel; [lia|].
  cbn [set_allocation_loop]. fold s. rewrite (proj2 (Z.eqb_neq left 0)), (proj2 (Z.ltb_ge pos _)) by lia.
  pose proof (range_step_spec ctx Hgeo pos left Hp Hl He) as Hstep. fold s in Hstep.
  destruct (range_step s pos left) as [[g idx] n].
  destruct Hstep as (Hg & Hi & Epos & Hn & Hcnt & Hnext & Eg). rewrite <-Eg in Hfuel.
  assert (Hfuel' : (1 <= fuel)%nat) by (unfold of_group in Hg; lia).
  pose proof (rewrite_group_spec ws g idx n v h Hw Hg Hi ltac:(lia) Hcnt Hlay) as Hone.
  cbv zeta in Hone. fold img in Hone. rewrite <-Epos in Hone.
  eapply runs_bind; [eapply runs_mono; [exact Hone| |intros a h' _ Ha; exact Ha]|].
  { intros h' _ Hst. rewrite <-(app_nil_r ws) in Hst. revert Hst.
    apply alloc_stop_mono; [lia|lia|apply same_groups_refl|by apply Forall_nil]. }
  intros _ h1 _ (ws1 & Hw1 & Hall1 & Hup1).
  destruct Hnext as [->|(Hend & Hg1 & Eg1)].
  { rewrite Z.sub_diag. destruct fuel as [|fuel]; [lia|]. cbn [set_allocation_loop Z.eqb].
    apply runs_ret. by exists ws1. }
  destruct (Z.eq_dec n left) as [->|Hne].
  { rewrite Z.sub_diag. destruct fuel as [|fuel]; [lia|]. cbn [set_allocation_loop Z.eqb].
    apply runs_ret. by exists ws1. }
  destruct (layout_updated ctx img _ _ _ _ Hup1 Hlay) as [Hlay1 Hoff]. fold s in Hlay1, Hoff.
  set (img1 := put_all (ws ++ ws1) dur) in *.
  assert (Hall1' : Forall (alloc_write s img pos (pos + left)) ws1).
  { eapply list.Forall_impl; [exact Hall1|]. intros w. apply alloc_write_mono; [lia|lia|apply same_groups_refl]. }
  assert (Hsame : same_groups img1 img (pos + n) (pos + n + (left - n)))
    by (by apply (same_groups_behind img img1 pos _ _ (g + 1) v)).
  eapply runs_mono.
  { apply (IH (ws ++ ws1) (pos + n) (left - n) h1 Hw1); [lia|lia|lia|exact Hlay1|].
    rewrite Eg1. unfold of_group in *. lia. }
  - intros h' _. apply alloc_stop_mono; [lia|lia|done|done].
  - cbv beta. fold img1. intros [] h' _ (ws2 & Hw2 & Hall2 & Hup2). rewrite <-app_assoc in Hw2, Hup2.
    exists (ws1 ++ ws2). split; [exact Hw2|]. split.
    + apply Forall_app. split; [exact Hall1'|]. eapply list.Forall_impl; [exact Hall2|].
      intros w. apply alloc_write_mono; [lia|lia|done].
    + replace (pos + n + (left - n)) with (pos + left) in Hup2 by lia.
      apply (alloc_updated_trans ctx Hgeo img img1 _ pos (pos + n) (pos + left) (g + 1) v); done || lia.
Qed.

Lemma groups_fuel pos :
  first_data_block s <= pos -> 
  (Z.to_nat (groups_count s - (pos - first_data_block s) / blocks_per_group s) + 1 <= range_fuel s)%nat.
Proof.
  intros Hp. pose proof Hgeo as [_ G2 _ _ _ _ _]. fold s in G2.
  assert (0 <= (pos - first_data_block s) / blocks_per_group s) by (apply Z.div_pos; lia).
  unfold range_fuel. lia.
Qed.

(** The change of a range, with its flush, on a settled device: where it may
    stop, and what it leaves. *)
Definition update_stop (start length : Z) (v : bool) (h' : Host) : Prop :=
  exists ws, Forall (alloc_write s dur start (start + length)) ws /\ Forall (inside (zlen dur)) ws /\
    (unsettled dev dur ws h' \/
     unsettled dev (put_all ws dur) [] h' /\
     alloc_updated ctx dur (put_all ws dur) start (start + length) v).

Lemma set_allocation_range_spec start length v h :
  wstate dev dur [] h -> first_data_block s <= start -> 0 < length ->
  start + length <= blocks_count s -> alloc_layout s dur ->
  runs dev (set_allocation_range dev ctx start length v) h (update_stop start length v)
    (fun _ h' => exists ws, wstate dev (put_all ws dur) [] h' /\
       Forall (alloc_write s dur start (start + length)) ws /\ Forall (inside (zlen dur)) ws /\
       alloc_updated ctx dur (put_all ws dur) start (start + length) v).
Proof.
  intros Hw Hs Hl He Hlay. unfold set_allocation_range. rewrite (proj2 (Z.eqb_neq length 0)) by lia.
  eapply runs_bind.
  { eapply runs_mono; [apply (set_allocation_loop_spec _ [] start length v h Hw Hs Hl He Hlay);
      by apply groups_fuel| |intros a h' _ Ha; exact Ha].
    intros h' _ (ws & Hall & Hun). exists ws. pose proof Hun as (Hin & _). split_and!; [|done|by left].
    eapply list.Forall_impl; [exact Hall|]. intros w [Hin'|]; [by apply elem_of_nil in Hin'|done]. }
  intros _ h1 _ (ws & Hw1 & Hall & Hup). cbn [app put_all foldl] in *.
  pose proof (ws_inside _ _ _ _ Hw1) as Hin.
  eapply runs_mono; [apply (runs_flush dev dur ws h1); [exact Hw1|intros h' Hun; exact Hun]| |].
  - intros h' _ [Hun|Hun]; exists ws; (split_and!; [done|done|]); [by left|by right].
  - intros [] h' _ Hw2. exists ws. by split_and!.
Qed.

(** [allocation_state] reads the bits of the range. *)
Lemma allocation_loop_spec fuel pos left out h :
  wstate dev dur [] h -> first_data_block s <= pos -> 0 < left -> pos + left <= blocks_count s ->
  (Z.to_nat (groups_count s - (pos - first_data_block s) / blocks_per_group s) + 1 <= fuel)%nat ->
  yields (allocation_loop fuel dev s pos left out) h (fun st =>
    let used v := forallb (fun blk => Bool.eqb (block_used dur s blk) v) (seqZ pos left) in
    st = mkRangeState (all_set out && used true) (all_clear out && used false)).
Proof.
  revert pos left out h. induction fuel as [|fuel IH]; intros pos left out h Hw Hp Hl He Hfuel; [lia|].
  cbn [allocation_loop]. rewrite (proj2 (Z.eqb_neq left 0)), (proj2 (Z.ltb_ge pos _)) by lia.
  pose proof (range_step_spec ctx Hgeo pos left Hp Hl He) as Hstep. fold s in Hstep.
  destruct (range_step s pos left) as [[g idx] n].
  destruct Hstep as (Hg & Hi & Epos & Hn & Hcnt & Hnext & Eg). rewrite <-Eg in Hfuel.
  step Hw by (apply (reads_desc dev dur [] ctx g _ Hw (proj1 Hg))) as gd Hgd. destruct Hgd as [-> _].
  step Hw by (apply (reads_block_bitmap dev dur [] ctx Hgeo g _ Hw)) as bm Hbm. destruct Hbm as [-> _].
  cbn [put_all foldl]. fold s.
  set (out1 := foldl _ out _).
  assert (E1 : out1 = mkRangeState
    (all_set out && forallb (fun blk => Bool.eqb (block_used dur s blk) true) (seqZ pos n))
    (all_clear out && forallb (fun blk => Bool.eqb (block_used dur s blk) false) (seqZ pos n))).
  { unfold out1. clear out1 Hnext. assert (Hn0 : 0 <= n) by lia. clear Hn. revert Hcnt.
    rewrite <-(Z2Nat.id n) by lia. generalize (Z.to_nat n) as k. clear Hn0.
    induction k as [|k IHk]; intros Hcnt.
    { cbn. rewrite !andb_true_r. by destruct out. }
    rewrite !seqZ_S, foldl_app. cbn [foldl]. rewrite IHk by lia.
    rewrite !forallb_app. cbn [forallb all_set all_clear].
    assert (E : block_used dur s (pos + Z.of_nat k) = bit_set (block_bitmap_at dur s g) (idx + (0 + Z.of_nat k))).
    { rewrite Epos, <-Z.add_assoc. unfold s. rewrite Z.add_0_l. apply (used_at ctx Hgeo); [done|]. fold s. lia. }
    rewrite E, !andb_true_r, !andb_assoc. by destruct (bit_set _ _). }
  assert (Hsplit : forall v, forallb (fun blk => Bool.eqb (block_used dur s blk) v) (seqZ pos left)
    = forallb (fun blk => Bool.eqb (block_used dur s blk) v) (seqZ pos n)
      && forallb (fun blk => Bool.eqb (block_used dur s blk) v) (seqZ (pos + n) (left - n))).
  { intros v. rewrite <-forallb_app, <-seqZ_app by lia. by replace (n + (left - n)) with left by lia. }
  destruct (Z.eq_dec n left) as [->|Hne].
  - rewrite Z.sub_diag. destruct fuel as [|fuel]; [unfold of_group in *; lia|].
    cbn [allocation_loop Z.eqb]. apply yields_ret. exact E1.
  - destruct Hnext as [->|(_ & Hg1 & Eg1)]; [lia|].
    eapply yields_mono; [apply (IH (pos + n) (left - n) out1 _ Hw); [lia|lia|lia|]|].
    + rewrite Eg1. unfold of_group in *. lia.
    + cbv beta zeta. intros st ->. rewrite E1, !Hsplit. cbn [all_set all_clear]. by rewrite !andb_assoc.
Qed.

Lemma allocation_state_spec start length h :
  wstate dev dur [] h -> first_data_block s <= start -> 0 <= length ->
  yields (allocation_state dev ctx start length) h (fun st =>
    0 < length /\ start + length <= blocks_count s /\
    let used v := forallb (fun blk => Bool.eqb (block_used dur s blk) v) (seqZ start length) in
    st = mkRangeState (used true) (used false)).
Proof.
  intros Hw Hs Hl. unfold allocation_state. cbv zeta. fold s. destruct (_ || _) eqn:E; [apply yields_failM|].
  eapply yields_mono; [apply (allocation_loop_spec _ _ _ _ _ Hw Hs); [lia|lia|by apply groups_fuel]|].
  cbv beta zeta. intros st ->. split_and!; [lia|lia|done].
Qed.
End Operations.

(** ** Images with some of the writes *)

(** [img] is [dur] but for a change of the blocks [lo..hi) that may have
    stopped anywhere: outside the bitmaps and descriptors of the groups that
    the range touches nothing has changed, the descriptors keep their fields
    but for the counter and the checksums, and the blocks outside the range
    keep their states. *)
Record alloc_confined (s : Superblock) (dur : bytes) (lo hi : Z) (img : bytes) : Prop := {
  ac_len : zlen img = zlen dur;
  ac_outside : forall o n, 0 <= o ->
    (forall g, touched s lo hi g ->
       (o + n <= bitmap_off s dur g \/ bitmap_off s dur g + block_size s <= o) /\
       (o + n <= desc_off s g \/ desc_off s g + desc_bytes s <= o)) ->
    slice img o n = slice dur o n;
  ac_desc : forall g, of_group s g -> desc_like (raw_desc dur s g) (raw_desc img s g);
  ac_used : forall blk, first_data_block s <= blk < blocks_count s -> ~ lo <= blk < hi ->
    block_used img s blk = block_used dur s blk
}.

Lemma zlen_slice_same {A} (l l' : list A) o n : zlen l = zlen l' -> zlen (slice l o n) = zlen (slice l' o n).
Proof. intros E. unfold slice, zlen in *. rewrite !length_take, !length_drop. lia. Qed.

Lemma byte_at_slice_full b o n i :
  0 <= o -> 0 <= i -> byte_at (slice b o n) i = if i <? n then byte_at b (o + i) else 0.
Proof.
  intros Ho Hi. destruct (Z.ltb_spec i n); [by apply byte_at_slice|].
  apply byte_at_beyond. unfold slice, zlen. rewrite length_take. lia.
Qed.

Lemma torn_byte ws c img i :
  mixture ws c img -> 0 <= i ->
  byte_at img i = byte_at c i \/
  exists w, w ∈ ws /\ w.1 <= i < w.1 + zlen w.2 /\ (0 <= w.1 -> byte_at img i = byte_at w.2 (i - w.1)).
Proof.
  intros [_ Hm] Hi. unfold byte_at. setoid_rewrite nth_lookup.
  destruct (Hm (Z.to_nat i)) as [->|(o & d & Hin & Ho & ->)]; [by left|right].
  exists (o, d). cbn [fst snd]. split_and!; [done|lia|lia|]. intros H0. do 3 f_equal. lia.
Qed.

Section Torn.
Context (ctx : MetadataContext) (Hgeo : geometry_ok (sb ctx)).
Let s := sb ctx.
Context (dur : bytes) (Hlay : alloc_layout s dur) (lo hi : Z) (ws : list (Z * bytes)) (img : bytes).
Context (Hall : Forall (alloc_write s dur lo hi) ws) (Hin : Forall (inside (zlen dur)) ws).
Context (Hm : mixture ws dur img).

Lemma torn_desc g : of_group s g -> desc_like (raw_desc dur s g) (raw_desc img s g).
Proof.
  intros Hg. split; [by apply zlen_slice_same, (mixture_zlen ws)|]. intros o Ho Hapart.
  pose proof (desc_off_pos ctx Hgeo g Hg) as Hp. fold s in Hp. pose proof (desc_bytes_pos ctx) as Hdb. fold s in Hdb.
  unfold raw_desc. rewrite !byte_at_slice_full by done. destruct (Z.ltb_spec o (desc_bytes s)) as [Hlt|]; [|done].
  destruct (torn_byte _ _ _ (desc_off s g + o) Hm ltac:(lia)) as [|(w & Hw & Hr & E)]; [done|].
  rewrite list.Forall_forall in Hall. destruct (Hall w Hw) as (g' & (Hg' & _) & [[E1 [Ez _]]|[E1 [Ez Eb]]]).
  - destruct (lay_descs _ _ Hlay g' g Hg' Hg); lia.
  - pose proof (zlen_slice_le dur (desc_off s g') (desc_bytes s) ltac:(lia)) as Hle. fold (raw_desc dur s g') in Hle.
    assert (g' = g) as ->.
    { revert Hr Hle. rewrite E1, Ez. unfold desc_off. intros. nia. }
    rewrite E by lia. rewrite E1. replace (desc_off s g + o - desc_off s g) with o by lia. rewrite (Eb o Ho Hapart).
    unfold raw_desc. rewrite byte_at_slice_full by done. rewrite (proj2 (Z.ltb_lt _ _) Hlt). done.
Qed.

Lemma torn_bitmap_off g : of_group s g -> bitmap_off s img g = bitmap_off s dur g.
Proof.
  intros Hg. unfold bitmap_off. rewrite !desc_at_raw, (desc_like_fields s _ _ (torn_desc g Hg)). done.
Qed.

Lemma torn_bit g i :
  of_group s g -> 0 <= i < group_block_count s g -> ~ lo <= group_start_block s g + i < hi ->
  bit_set (block_bitmap_at img s g) i = bit_set (block_bitmap_at dur s g) i.
Proof.
  intros Hg Hi Hout. pose proof (bitmap_off_pos ctx Hgeo dur g) as Hp. fold s in Hp.
  pose proof (geo_block_size ctx Hgeo) as Hbs. fold s in Hbs.
  change (block_bitmap_at img s g) with (slice img (bitmap_off s img g) (block_size s)).
  change (block_bitmap_at dur s g) with (slice dur (bitmap_off s dur g) (block_size s)).
  rewrite (torn_bitmap_off g Hg).
  assert (Hz : zlen (slice img (bitmap_off s dur g) (block_size s)) = zlen (slice dur (bitmap_off s dur g) (block_size s)))
    by (by apply zlen_slice_same, (mixture_zlen ws)).
  assert (Hq : 0 <= Z.shiftr i 3) by (rewrite Z.shiftr_div_pow2 by lia; apply Z.div_pos; lia).
  destruct (torn_byte _ _ _ (bitmap_off s dur g + Z.shiftr i 3) Hm ltac:(lia)) as [E|(w & Hw & Hr & E)].
  { unfold bit_set. cbv zeta. rewrite Hz, !byte_at_slice_full, E by done. done. }
  pose proof (proj1 (list.Forall_forall _ _) Hall w Hw) as (g' & (Hg' & _) & [[E1 [Ez Eb]]|[E1 [Ez _]]]).
  - pose proof (bitmap_off_pos ctx Hgeo dur g') as Hp'. fold s in Hp'.
    destruct (Z.le_gt_cases (block_size s) (Z.shiftr i 3)) as [Hge|Hlt].
    { destruct (group_count_spec s Hgeo g Hg) as ((_ & ?) & _). pose proof (geo_bpg s Hgeo).
      rewrite Z.shiftr_div_pow2 in Hge by lia. change (2 ^ 3) with 8 in Hge.
      assert (i / 8 < block_size s) by (apply Z.div_lt_upper_bound; lia). lia. }
    assert (g' = g) as ->.
    { apply (lay_bitmaps _ _ Hlay); [done|done|]. revert Hr. rewrite E1, Ez. unfold bitmap_off. intros. nia. }
    pose proof (proj1 (list.Forall_forall _ _) Hin w Hw) as [_ Hins]. rewrite E1, Ez in Hins.
    assert (Ezb : zlen (slice dur (bitmap_off s dur g) (block_size s)) = block_size s) by (apply zlen_slice; lia).
    pose proof (Eb i Hi Hout) as Ebit.
    change (block_bitmap_at dur s g) with (slice dur (bitmap_off s dur g) (block_size s)) in Ebit.
    rewrite <-Ebit. unfold bit_set. cbv zeta. rewrite Hz, Ezb, Ez. f_equal. do 4 f_equal.
    rewrite byte_at_slice_full by done. rewrite (proj2 (Z.ltb_lt _ _) Hlt), E by lia. f_equal. lia.
  - pose proof (desc_bytes_pos ctx) as Hdb. fold s in Hdb.
    pose proof (zlen_slice_le dur (desc_off s g') (desc_bytes s) ltac:(lia)) as Hle.
    fold (raw_desc dur s g') in Hle.
    destruct (group_count_spec s Hgeo g Hg) as ((_ & ?) & _). pose proof (geo_bpg s Hgeo).
    rewrite Z.shiftr_div_pow2 in Hr, Hq by lia. change (2 ^ 3) with 8 in Hr, Hq.
    assert (i / 8 < block_size s) by (apply Z.div_lt_upper_bound; lia).
    destruct (lay_descs _ _ Hlay g g' Hg Hg'); lia.
Qed.

Lemma confined_mixture : alloc_confined s dur lo hi img.
Proof.
  split; [by apply (mixture_zlen ws)| |exact torn_desc|].
  - intros o n Ho Hap. apply (mixture_slice ws); [done|done|]. eapply list.Forall_impl; [exact Hall|].
    intros w (g & Ht & Hw). destruct (Hap g Ht) as [H1 H2]. unfold apart.
    destruct Hw as [[-> [-> _]]|[-> [-> _]]]; [lia|].
    pose proof (desc_bytes_pos ctx) as Hp. fold s in Hp.
    pose proof (zlen_slice_le dur (desc_off s g) (desc_bytes s) ltac:(lia)). unfold raw_desc. lia.
  - intros blk Hb Hout. destruct (group_block ctx Hgeo blk Hb) as (g & i & Hg & Hi & ->). fold s in Hg, Hi, Hout |- *.
    rewrite !(used_at ctx Hgeo) by done. by apply torn_bit.
Qed.
End Torn.

Lemma update_stop_crash dev ctx dur start length v h' img :
  geometry_ok (sb ctx) -> alloc_layout (sb ctx) dur ->
  update_stop dev ctx dur start length v h' -> crash_image (file_of h' (fd_ dev)) img ->
  alloc_confined (sb ctx) dur start (start + length) img.
Proof.
  intros Hgeo Hlay (ws & Hall & Hin & Hun) Hc. apply (confined_mixture ctx Hgeo dur Hlay _ _ ws); [done|done|].
  destruct Hun as [Hun|[Hun _]]; [by eapply unsettled_crash|].
  rewrite (settled_crash _ _ _ _ Hun Hc). by apply mixture_put_all.
Qed.

(** C26: allocating or freeing a range of blocks changes exactly the bits of
    that range.  When [set_allocation_range] returns, the device durably holds
    an image in which every block of the range has the wanted state, every
    other block its old one, each touched group has a descriptor and a bitmap
    with valid checksums and a free counter that is the number of its free
    blocks, and no descriptor has changed in another field; [allocation_state]
    then reports the new state.  Whatever fails, and wherever the power is cut,
    nothing but the bitmaps and descriptors of the touched groups has changed,
    no block outside the range has another state, no descriptor another field
    than its counter and checksums, and the loop over the groups always ends. *)
Theorem allocation_update_exact (dev : BlockDevice) (ctx : MetadataContext) (dur : bytes)
    (start length : Z) (v : bool) (h : Host)
    (Hw : wstate dev dur [] h) (Hgeo : geometry_ok (sb ctx))
    (Hseed : in_width 32 (checksum_seed ctx)) (Hfit : counter_fits (sb ctx))
    (Hlay : alloc_layout (sb ctx) dur)
    (Hs : first_data_block (sb ctx) <= start) (Hl : 0 < length)
    (He : start + length <= blocks_count (sb ctx)) :
  wp (set_allocation_range dev ctx start length v) h (fun o h' =>
    o <> OutOfFuel /\ only_device dev h h' /\
    (forall img, crash_image (file_of h' (fd_ dev)) img ->
       alloc_confined (sb ctx) dur start (start + length) img) /\
    (o = Ret tt -> exists img,
       wstate dev img [] h' /\ alloc_updated ctx dur img start (start + length) v /\
       yields (allocation_state dev ctx start length) h' (fun st => st = mkRangeState v (negb v)))).
Proof.
  eapply wp_mono; [apply runs_wp, (set_allocation_range_spec dev ctx Hgeo Hseed Hfit dur start length v h Hw Hs Hl He Hlay)|].
  intros o h' [Hod Hm]. split; [by destruct o|]. split; [exact Hod|]. split.
  - intros img Hc. destruct o as [u|e|c|]; [|by eapply update_stop_crash..|done].
    destruct Hm as (ws & Hw' & Hall & Hin & _). rewrite (settled_image _ _ _ _ Hw' Hc).
    by apply (confined_mixture ctx Hgeo dur Hlay _ _ ws), mixture_put_all.
  - intros ->. destruct Hm as (ws & Hw' & _ & _ & Hup). eexists. split; [exact Hw'|]. split; [exact Hup|].
    eapply yields_mono; [apply (allocation_state_spec dev ctx Hgeo _ start length h' Hw' Hs); lia|].
    cbv beta zeta. intros st (_ & _ & ->).
    assert (E : forall u, forallb (fun blk => Bool.eqb (block_used (put_all ws dur) (sb ctx) blk) u)
      (seqZ start length) = Bool.eqb v u).
    { intros u. assert (Hall : forall blk, blk ∈ seqZ start length ->
        block_used (put_all ws dur) (sb ctx) blk = v).
      { intros blk Hb%elem_of_seqZ. rewrite (au_used _ _ _ _ _ _ Hup) by lia. ztests. }
      destruct (Bool.eqb v u) eqn:Eu.
      - apply forallb_forall. intros blk Hb. by rewrite Hall by by apply list_elem_of_In.
      - apply not_true_iff_false. rewrite forallb_forall. intros H.
        assert (Hin : start ∈ seqZ start length) by (apply elem_of_seqZ; lia).
        specialize (H start ltac:(by apply list_elem_of_In)). rewrite Hall, Eu in H by done. discriminate H. }
    rewrite !E. by destruct v.
Qed.

Definition demo_ext4_context : MetadataContext :=
  context_of (superblock_fields (slice demo_ext4 1024 1024)) (slice demo_ext4 1024 1024).

(** Reserving the blocks 7 to 9 of the file system of [demo_ext4]. *)
Lemma allocation_update_exact_witness :
  let r := set_allocation_range demo_ext4_device demo_ext4_context 7 3 true demo_ext4_host in
  r.1 = Ret tt /\ exists img, wstate demo_ext4_device img [] r.2 /\
    alloc_updated demo_ext4_context demo_ext4 img 7 10 true.
Proof.
  assert (Hz : zlen demo_ext4 = 16384) by (vm_compute; reflexivity).
  assert (Hw : wstate demo_ext4_device demo_ext4 [] demo_ext4_host).
  { apply (wstate_start demo_ext4_device demo_ext4_host (mkFile Regular demo_ext4 [])); [|done].
    split; [reflexivity|]. split; [exact Hz|by apply Forall_nil]. }
  assert (Hgeo : geometry_ok (sb demo_ext4_context)).
  { apply (superblock_geometry _ 16384). vm_compute. reflexivity. }
  assert (Hlay : alloc_layout (sb demo_ext4_context) demo_ext4).
  { assert (Hg : forall g, of_group (sb demo_ext4_context) g -> g = 0).
    { intros g Hg. change (0 <= g < 1) in Hg. lia. }
    split; intros g g' ->%Hg ->%Hg; [|done]. left. vm_compute. discriminate. }
  assert (Hr : (set_allocation_range demo_ext4_device demo_ext4_context 7 3 true demo_ext4_host).1 = Ret tt)
    by (vm_compute; reflexivity).
  split; [exact Hr|].
  destruct (allocation_update_exact demo_ext4_device demo_ext4_context demo_ext4 7 3 true demo_ext4_host
    Hw Hgeo ltac:(vm_compute; by split) ltac:(right; by vm_compute) Hlay ltac:(vm_compute; discriminate)
    ltac:(lia) ltac:(vm_compute; discriminate)) as (_ & _ & _ & Hok).
  destruct (Hok Hr) as (img & H1 & H2 & _). exists img. split; [exact H1|exact H2].
Defined.
