(* ===== verification/OwnerUpdate.v ===== *)
(** Switching the owners of blocks (src/ext4/mutate.cpp, from [extent_crc] to
    [refresh_tree_copy]): the entry of an extent tree that points to an extent
    or to a node of the tree is made to point to its copy. *)
From S2P Require Import Prelude Words Errors Endian Crc Host Device TaskPool Ext4 Metadata Extents RelocatePlan Stage.
#[local] Open Scope Z_scope.

Definition EXTENT_START_HI : Z := 6.
Definition EXTENT_START_LO : Z := 8.
Definition INDEX_LEAF_LO : Z := 4.
Definition INDEX_LEAF_HI : Z := 8.

(** The checksum of an extent, read in buffers of at most four mebibytes. *)
Definition extent_crc (dev : BlockDevice) (block count bs : Z) : M Z :=
  let chunk := 4 * 1024 * 1024 in
  if bs =? 0 then failM corrupt "zero block size while checksumming extent"
  else if count =? 0 then mret (Z.lxor (crc32c [] 0xffffffff) 0xffffffff)
  else if (u64_max / bs <? count) || (u64_max / bs <? block)
  then failM corrupt "extent byte geometry overflows"
  else
    let total := count * bs in
    let start := block * bs in
    let dev_size := size_bytes (geometry dev) in
    if (dev_size <? start) || (dev_size - start <? total)
    then failM corrupt "extent lies outside containing device"
    else
      let buffer_bytes := Z.min chunk total in
      if buffer_bytes =? 0 then failM internal "invalid zero-sized extent checksum buffer"
      else
        r ← finish (crc_loop (buffer_fuel total buffer_bytes) dev start total buffer_bytes 0 0xffffffff);
        lift r.

Definition mark_filesystem_state (dev : BlockDevice) (clean : bool) : M unit :=
  raw ← read_raw_superblock dev;
  let state := read_le16 raw 0x3a in
  let state := if clean then u16 (Z.lor state 1) else u16 (Z.land state (Z.lnot 1)) in
  let raw := write_le16 raw 0x3a state in
  raw ← lift (update_superblock_checksum raw);
  write_raw_superblock dev raw;;
  flush dev.

(** The start of an extent entry, and the child of an index entry. *)
Definition set_extent_start (b : bytes) (off block : Z) : bytes :=
  let hi := u16 (Z.shiftr block 32) in
  let lo := u32 block in
  write_le32 (write_le16 b (off + EXTENT_START_HI) hi) (off + EXTENT_START_LO) lo.
Definition set_index_child (b : bytes) (off block : Z) : bytes :=
  let hi := u16 (Z.shiftr block 32) in
  let lo := u32 block in
  write_le16 (write_le32 b (off + INDEX_LEAF_LO) lo) (off + INDEX_LEAF_HI) hi.

(** An entry of the root of a tree, inside the inode. *)
Definition update_inode_entry (dev : BlockDevice) (ctx : MetadataContext) (inode entry : Z)
    (set : bytes -> Z -> Z -> bytes) (new_block : Z) (beyond : string) : M unit :=
  raw ← read_inode_raw dev ctx inode;
  let off := INODE_I_BLOCK_OFF + entry in
  if zlen raw <? off + 12 then failM corrupt beyond
  else
    raw ← lift (update_inode_checksum ctx inode (set raw off new_block));
    write_inode_raw dev ctx inode raw.

(** An entry of a node that has a block of its own, which starts at [pos]. *)
Definition update_node_entry (dev : BlockDevice) (ctx : MetadataContext) (inode generation pos entry : Z)
    (set : bytes -> Z -> Z -> bytes) (new_block : Z) (mismatch beyond : string) : M unit :=
  block ← read_exact dev pos (block_size (sb ctx));
  ok ← lift (verify_extent_block_checksum ctx inode generation block);
  if negb (ok : bool) then failM corrupt mismatch
  else if zlen block <? entry + 12 then failM corrupt beyond
  else
    block ← lift (update_extent_block_checksum ctx inode generation (set block entry new_block));
    write_exact dev pos block.

Section Owners.
Context (sort_by : (OwnedExtent -> Z) -> list OwnedExtent -> list OwnedExtent).

Definition update_data_owner (dev : BlockDevice) (ctx : MetadataContext) (move : OwnerMove)
    (new_block : Z) : M unit :=
  e ← find_inode_extent sort_by dev (mv_inode move) (mv_logical_block move);
  if negb (logical_block e =? mv_logical_block move) || negb (o_length e =? mv_block_count move)
  then failM unsafe "extent geometry changed since relocation plan"
  else if physical_block e =? new_block then mret tt
  else if negb (physical_block e =? mv_source_block move)
  then failM unsafe "extent owner points to neither source nor destination"
  else
    let entry := entry_offset (reference e) in
    match kind (reference e) with
    | inode_root =>
        update_inode_entry dev ctx (mv_inode move) entry set_extent_start new_block
          "extent entry exceeds inode"
    | extent_block =>
        update_node_entry dev ctx (mv_inode move) (inode_generation e)
          (u64 (container_block (reference e) * block_size (sb ctx))) entry set_extent_start new_block
          "extent block checksum mismatch before owner switch" "extent entry exceeds extent block"
    end;;
    flush dev.

Definition current_data_owner (dev : BlockDevice) (move : OwnerMove) : M Z :=
  e ← find_inode_extent sort_by dev (mv_inode move) (mv_logical_block move);
  if negb (logical_block e =? mv_logical_block move) || negb (o_length e =? mv_block_count move)
  then failM unsafe "extent geometry changed since plan"
  else mret (physical_block e).

Record TreeLocation := mkTreeLocation {
  tl_ref : ExtentTreeBlock;
  tl_generation : Z
}.

(** The first node of the tree that is the move's source or destination. *)
Definition find_tree_location (dev : BlockDevice) (ctx : MetadataContext) (move : OwnerMove)
    : M TreeLocation :=
  scan ← scan_inode_extent_tree sort_by dev (mv_inode move) 0;
  match List.find (fun t => (tb_physical_block t =? mv_source_block move)
                            || (tb_physical_block t =? mv_destination_block move)) (tree_blocks scan) with
  | Some t =>
      inode ← read_inode_raw dev ctx (mv_inode move);
      mret (mkTreeLocation t (read_le32 inode 0x64))
  | None => failM not_found "extent tree block is not reachable from inode"
  end.

Definition update_tree_parent (dev : BlockDevice) (ctx : MetadataContext) (move : OwnerMove)
    (new_block : Z) : M unit :=
  loc ← find_tree_location dev ctx move;
  let t := tl_ref loc in
  if tb_physical_block t =? new_block then mret tt
  else if negb (tb_physical_block t =? mv_source_block move)
  then failM unsafe "tree owner points to neither source nor destination"
  else
    let bs := block_size (sb ctx) in
    let parent_abs := parent_container_byte_offset t in
    let entry := parent_entry_offset t in
    (if parent_abs mod bs =? 0
     then update_node_entry dev ctx (mv_inode move) (tl_generation loc) parent_abs entry set_index_child
            new_block "parent extent block checksum mismatch" "extent index exceeds parent block"
     else update_inode_entry dev ctx (mv_inode move) entry set_index_child new_block
            "extent index exceeds inode root");;
    flush dev.

Definition current_tree_owner (dev : BlockDevice) (ctx : MetadataContext) (move : OwnerMove) : M Z :=
  loc ← find_tree_location dev ctx move;
  mret (tb_physical_block (tl_ref loc)).

(** The node as it is now, copied over the staged copy. *)
Definition refresh_tree_copy (dev : BlockDevice) (ctx : MetadataContext) (move : OwnerMove) : M unit :=
  let bs := block_size (sb ctx) in
  b ← read_exact dev (u64 (mv_source_block move * bs)) bs;
  inode ← read_inode_raw dev ctx (mv_inode move);
  let gen := read_le32 inode 0x64 in
  ok ← lift (verify_extent_block_checksum ctx (mv_inode move) gen b);
  if negb (ok : bool) then failM corrupt "source extent tree block checksum mismatch"
  else
    write_exact dev (u64 (mv_destination_block move * bs)) b;;
    flush dev;;
    v ← read_exact dev (u64 (mv_destination_block move * bs)) bs;
    if bool_decide (v = b) then mret tt
    else failM io "extent tree block verification mismatch".
End Owners.
