(* ===== verification/OwnerSwitch.v ===== *)
(** What the switch of an extent's owner does to an image (proofs on
    [OwnerUpdate.v]): one entry of one node of the inode's tree is written, in
    a single write of its inode or block. *)
From S2P Require Import Prelude Words Errors Endian Crc Host Device Durable TaskPool Ext4 Metadata MetadataCheck Stage.
From S2P Require Import Extents ExtentScan RelocatePlan AllocUpdate OwnerUpdate.
From coqutil Require Import Word.LittleEndianList.
#[local] Open Scope Z_scope.

(** ** Entries and the places that hold them *)

(** The block the entry at [pos] points to. *)
Definition pointer_at (img : bytes) (pos : Z) : Z :=
  join32 (read_le32 img (pos + 8)) (read_le16 img (pos + 6)).
(** The six bytes of an entry that point to [block]. *)
Definition start_bytes (block : Z) : bytes := slice (set_extent_start (zeros 12) 0 block) 6 6.

Definition entry_pos (e : OwnedExtent) : Z :=
  container_byte_offset (reference e) + entry_offset (reference e).

(** The inode or the block that holds the entry of an extent. *)
Definition container_start (e : OwnedExtent) : Z :=
  match kind (reference e) with
  | inode_root => container_byte_offset (reference e) - INODE_I_BLOCK_OFF
  | extent_block => container_byte_offset (reference e)
  end.
Definition container_len (s : Superblock) (e : OwnedExtent) : Z :=
  match kind (reference e) with inode_root => inode_size s | extent_block => block_size s end.

(** A write that makes the entry of [e] point to [block]: it covers the
    container and keeps the entry's logical block and length. *)
Record owner_write (s : Superblock) (img : bytes) (e : OwnedExtent) (block : Z) (w : Z * bytes) : Prop := {
  ow_place : w.1 = container_start e /\ zlen w.2 = container_len s e;
  ow_inside : inside (zlen img) w;
  ow_room : w.1 <= entry_pos e /\ entry_pos e + 12 <= w.1 + zlen w.2;
  ow_entry : slice w.2 (entry_pos e - w.1) 6 = slice img (entry_pos e) 6;
  ow_start : slice w.2 (entry_pos e - w.1 + 6) 6 = start_bytes block
}.

(** A field of a window of bytes, also where the window is cut short. *)
Lemma read_le_window w b o n off :
  0 <= o -> 0 <= off -> off + Z.of_nat w <= n ->
  read_le w (slice b o n) off = read_le w b (o + off).
Proof.
  intros Ho Hoff Hn. unfold read_le. f_equal. apply foldl_ext_in. intros wide i Hi%elem_of_seq. do 2 f_equal.
  rewrite byte_at_slice_full by lia. rewrite (proj2 (Z.ltb_lt _ _)) by lia. f_equal. lia.
Qed.

Lemma set_extent_start_bytes b off block :
  0 <= off -> off + 12 <= zlen b ->
  let b' := set_extent_start b off block in
  zlen b' = zlen b /\ slice b' (off + 6) 6 = start_bytes block /\
  forall o n, 0 <= o -> o + n <= off + 6 \/ off + 12 <= o -> slice b' o n = slice b o n.
Proof.
  intros Ho Hr. unfold set_extent_start, write_le16, write_le32, EXTENT_START_HI, EXTENT_START_LO. cbv zeta.
  assert (Hs : forall b off, 0 <= off -> off + 12 <= zlen b ->
    slice (write_le 4 (write_le 2 b (off + 6) (u16 (Z.shiftr block 32))) (off + 8) (u32 block)) (off + 6) 6
    = le_split 2 (u16 (Z.shiftr block 32)) ++ le_split 4 (u32 block)).
  { clear. intros b off Ho Hr. change 6 with (2 + 4) at 3. rewrite slice_split by lia. f_equal.
    - rewrite slice_write_le_ne by (wr_len; lia). rewrite write_le_splice by lia.
      by rewrite slice_splice_eq by (wr_len; lia).
    - rewrite write_le_splice by (wr_len; lia). replace (off + 6 + 2) with (off + 8) by lia.
      by rewrite slice_splice_eq by (wr_len; lia). }
  split; [by wr_len|]. split.
  - rewrite Hs by done. unfold start_bytes, set_extent_start, write_le16, write_le32, EXTENT_START_HI, EXTENT_START_LO.
    symmetry. apply (Hs (zeros 12) 0); [lia|]. rewrite zlen_zeros; lia.
  - intros o n Hon Hap. by rewrite !slice_write_le_ne by (wr_len; lia).
Qed.

(** ** Trees *)

Lemma elem_of_concat_fmap {A B} (f : A -> list B) l x :
  x ∈ concat (f <$> l) <-> exists a, a ∈ l /\ x ∈ f a.
Proof.
  rewrite list_elem_of_In, in_concat. setoid_rewrite <-list_elem_of_In. setoid_rewrite list_elem_of_fmap.
  split; [intros (y & (a & -> & ?) & ?)|intros (a & ? & ?)]; eauto.
Qed.

Section Trees.
Context (c : ParseCtx) (base : bytes).
Let s := c_sb c.

(** The leaf that holds the extent: the root of the tree, or one of its
    blocks. *)
Lemma tree_leaf depth node container block k e :
  e ∈ tree_extents depth c base node container block k ->
  exists node' i container' block' k', 0 <= i /\ e = leaf_entry c node' i container' block' k' /\
    ((node', container', block', k') = (node, container, block, k) \/
     (node', container', k') = (node_at base s block', u64 (block' * block_size s), extent_block) /\
     block' ∈ tb_physical_block <$> tree_children depth c base node container).
Proof.
  revert node container block k. induction depth as [|d IH]; intros node container block k; cbn [tree_extents tree_children].
  - intros (i & -> & Hi%elem_of_seqZ)%list_elem_of_fmap. eexists node, i, container, block, k.
    split_and!; [lia|done|by left].
  - intros (i & Hi & He)%elem_of_concat_fmap. cbv zeta in He.
    destruct (IH _ _ _ _ He) as (node' & j & cont' & block' & k' & Hj & -> & Hc).
    exists node', j, cont', block', k'. split_and!; [done|done|]. right.
    assert (Hin : forall b, b = index_child node i \/ b ∈ tb_physical_block <$> tree_children d c base
        (node_at base (c_sb c) (index_child node i)) (u64 (index_child node i * block_size (c_sb c))) ->
      b ∈ tb_physical_block <$> concat ((fun i => mkTreeBlock (c_inode c) (index_child node i) container (entry_off i)
        (Z.of_nat d) :: tree_children d c base (node_at base (c_sb c) (index_child node i))
          (u64 (index_child node i * block_size (c_sb c)))) <$> node_entries node)).
    { intros b Hb. apply list_elem_of_fmap. destruct Hb as [->|(t & -> & Ht)%list_elem_of_fmap].
      - eexists. split; [|apply elem_of_concat_fmap; exists i; split; [done|by left]]. done.
      - exists t. split; [done|]. apply elem_of_concat_fmap. exists i. split; [done|by right]. }
    destruct Hc as [[= -> -> -> ->]|[E Hc]].
    + split; [done|]. apply Hin. by left.
    + split; [done|]. apply Hin. by right.
Qed.

(** The extents of a tree only depend on its blocks. *)
Lemma tree_agree img depth node container block k :
  Forall (fun t => node_at img s (tb_physical_block t) = node_at base s (tb_physical_block t))
    (tree_children depth c base node container) ->
  tree_extents depth c img node container block k = tree_extents depth c base node container block k.
Proof.
  revert node container block k. induction depth as [|d IH]; intros node container block k; [done|].
  cbn [tree_extents tree_children]. intros H. f_equal. revert H. generalize (node_entries node) as l.
  induction l as [|i l IHl]; [done|]. rewrite !fmap_cons. cbn [concat]. cbv zeta.
  intros [H1 H2]%Forall_app. apply Forall_cons in H1 as [Hc Ht]. cbn [tb_physical_block] in Hc.
  f_equal; [|by apply IHl]. fold s. rewrite Hc. by apply IH.
Qed.
End Trees.

(** The blocks of the tree of an inode. *)
Definition trees_of (dev : BlockDevice) (base : bytes) (s : Superblock) (mctx : MetadataContext) (ino : Z)
    : list ExtentTreeBlock :=
  let inode := slice base (inode_offset_at base s ino) (inode_size s) in
  if has_extents inode
  then inode_trees base (mkCtx dev s ino (read_le32 inode INODE_GENERATION_OFF) 0 mctx) inode
         (inode_offset_at base s ino)
  else [].

(** Where the entry of an extent lies, and what it holds. *)
Lemma found_place dev base s mctx ino e :
  128 <= inode_size s -> 0 < block_size s ->
  e ∈ extents_of dev base s mctx 0 ino -> entry_room base s e ->
  physical_block e = pointer_at base (entry_pos e) /\
  0 <= container_start e <= entry_pos e /\ entry_pos e + 12 <= container_start e + container_len s e /\
  match kind (reference e) with
  | inode_root =>
      container_start e = inode_offset_at base s ino /\
      entry_pos e = container_start e + (INODE_I_BLOCK_OFF + entry_offset (reference e)) /\
      12 <= entry_offset (reference e) <= 48
  | extent_block =>
      container_start e = u64 (container_block (reference e) * block_size s) /\
      entry_pos e = container_start e + entry_offset (reference e) /\
      12 <= entry_offset (reference e) /\
      entry_offset (reference e) + 12 <= extent_tail (node_at base s (container_block (reference e))) /\
      container_block (reference e) ∈ tb_physical_block <$> trees_of dev base s mctx ino
  end.
Proof.
  intros His Hbs. unfold extents_of, trees_of. cbv zeta. destruct (has_extents _); [|by intros ?%elem_of_nil].
  set (inode := slice base _ _). set (c := mkCtx _ _ _ _ _ _). intros He Hroom.
  apply tree_leaf in He as (node & i & cont & block & k & Hi & -> & Hc).
  assert (Hio : 0 <= inode_offset_at base s ino) by (apply Z.mod_pos_bound; lia).
  unfold entry_room in Hroom. cbv zeta in Hroom. unfold entry_pos, container_start, container_len, pointer_at.
  cbn [reference leaf_entry kind entry_offset container_block container_byte_offset physical_block] in *.
  unfold INODE_I_BLOCK_LEN, INODE_I_BLOCK_OFF in *. destruct Hroom as [Hr1 Hr2].
  destruct Hc as [[= -> -> -> ->]|[[= -> -> ->] Hb]].
  - split.
    + unfold root_node, INODE_I_BLOCK_OFF, INODE_I_BLOCK_LEN, inode. rewrite slice_slice by lia.
      rewrite !read_le_window by lia. f_equal; f_equal; lia.
    + split_and!; lia.
  - cbn [c_sb c] in *. assert (0 <= u64 (block * block_size s)) by (apply Z.mod_pos_bound; lia).
    split.
    + unfold node_at. rewrite !read_le_window by lia. f_equal; f_equal; lia.
    + split_and!; [lia..|exact Hb].
Qed.

(** ** The writes *)

Lemma runs_pure {A B} d (r : Result A) (k : A -> M B) h (S : Host -> Prop) (Q : B -> Host -> Prop) :
  S h -> (forall a, r = Ok a -> runs d (k a) h S Q) -> runs d (lift r ≫= k) h S Q.
Proof.
  intros HS Hk. eapply runs_bind; [by apply (runs_lift d r h S (fun a h' => r = Ok a /\ h' = h))|].
  intros a h' _ [Hr ->]. by apply Hk.
Qed.

(** A superblock with another state field. *)
Definition with_state (st : Z) (s : Superblock) : Superblock :=
  mkSuperblock (inodes_count s) (blocks_count s) (reserved_blocks s) (free_blocks s) (free_inodes s)
    (first_data_block s) (log_block_size s) (blocks_per_group s) (inodes_per_group s) st (errors s)
    (rev_level s) (first_inode s) (inode_size s) (feature_compat s) (feature_incompat s)
    (feature_ro_compat s) (desc_size s) (magic s) (volume_name s) (uuid s).

Lemma geometry_state st s : geometry_ok s -> geometry_ok (with_state st s).
Proof. intros []. by split. Qed.

Lemma state_inode_off img st s ino : inode_off img (with_state st s) ino = inode_off img s ino.
Proof. done. Qed.
Lemma state_inode_size st s : inode_size (with_state st s) = inode_size s.
Proof. done. Qed.
Lemma state_block_size st s : block_size (with_state st s) = block_size s.
Proof. done. Qed.

Lemma inode_offset_fits img s ino :
  0 <= inode_off img s ino < 2 ^ 63 -> inode_offset_at img s ino = inode_off img s ino.
Proof. unfold inode_offset_at, inode_off. cbv zeta. intros H. apply wrap_id. unfold in_width. lia. Qed.

(** A checksum that is put into an inode lies behind its tree. *)
Lemma update_inode_keeps ctx ino raw raw' :
  in_width 32 (checksum_seed ctx) -> update_inode_checksum ctx ino raw = Ok raw' ->
  zlen raw' = zlen raw /\ forall o n, 0 <= o -> o + n <= INODE_CSUM_LO -> slice raw' o n = slice raw o n.
Proof.
  intros Hs Hu. split; [by destruct (inode_roundtrip _ _ _ _ Hs Hu) as (_ & ? & _)|].
  revert Hu. unfold update_inode_checksum. destruct (negb _); [by intros [= <-]|].
  destruct (Z.ltb_spec (zlen raw) 128); [done|]. rewrite compute_inode_spec by lia.
  intros [= <-] o n Ho Hn. unfold INODE_CSUM_LO, INODE_CSUM_HI, write_le16 in *.
  destruct (inode_has_hi_checksum _) eqn:Eh;
    [apply has_hi_room in Eh; rewrite zlen_write_le in Eh|]; by rewrite !slice_write_le_ne by (wr_len; lia).
Qed.

(** The checksum of a block lies behind its entries. *)
Lemma update_extent_keeps ctx ino gen block block' :
  update_extent_block_checksum ctx ino gen block = Ok block' ->
  zlen block' = zlen block /\
  forall o n, 0 <= o -> o + n <= extent_tail block -> slice block' o n = slice block o n.
Proof.
  unfold update_extent_block_checksum. destruct (negb _); [by intros [= <-]|].
  unfold compute_extent_checksum. destruct (Z.ltb_spec (zlen block) 12) as [|Hl]; [done|].
  destruct (negb _); [done|]. cbv zeta. destruct (Z.ltb_spec (zlen block) (extent_tail block + 4)) as [|Hr]; [done|].
  cbn [bindR]. intros [= <-]. pose proof (read_le_bound 2 block 4) as Hm.
  assert (12 <= extent_tail block) by (unfold extent_tail, in_width in *; lia).
  split; [apply zlen_write_le|]. intros o n Ho Hn. unfold write_le32. apply slice_write_le_ne; lia.
Qed.

Section Writes.
Context (dev : BlockDevice) (ctx : MetadataContext) (cur : bytes).
Context (Hgeo : geometry_ok (sb ctx)) (Hseed : in_width 32 (checksum_seed ctx)).
Let s := sb ctx.

(** Where a switch of the owner of [e] may stop. *)
Definition switch_stop (e : OwnedExtent) (block : Z) (h : Host) : Prop :=
  unsettled dev cur [] h \/
  exists w, owner_write s cur e block w /\
    (unsettled dev cur [w] h \/ unsettled dev (put_all [w] cur) [] h).

Lemma stop_quiet e block h h' : wstate dev cur [] h -> quiet h h' -> switch_stop e block h'.
Proof. intros Hw Hq. left. by eapply wstate_unsettled, wstate_quiet. Qed.

(** The write of a container with the changed entry. *)
Lemma write_owner e block w h :
  wstate dev cur [] h -> owner_write s cur e block w ->
  runs dev (write_exact dev w.1 w.2) h (switch_stop e block)
    (fun _ h' => exists w, owner_write s cur e block w /\ wstate dev cur [w] h').
Proof.
  intros Hw How. pose proof (ow_inside _ _ _ _ _ How) as [Hw1 Hw2].
  eapply runs_mono; [apply (runs_write dev cur [] w.1 w.2 h (switch_stop e block) Hw Hw1)|done|].
  - intros h' ws' Hsub Hun. right. exists w. split; [exact How|]. left. destruct w as [o d].
    eapply unsettled_mono; [exact Hsub|by apply Forall_singleton|exact Hun].
  - intros [] h' _ [Hw' _]. exists w. split; [exact How|]. by destruct w.
Qed.

Lemma inode_off_pos ino : 0 < ino -> 0 <= inode_off cur s ino.
Proof.
  intros Hi. pose proof (geo_block_size ctx Hgeo) as Hb. destruct (desc_at_nonneg ctx cur ((ino - 1) / inodes_per_group s)) as (_ & _ & Ht).
  pose proof Hgeo as [_ _ G3 _ _ _ G7]. fold s in Hb, G3, G7, Ht. unfold inode_off. cbv zeta.
  pose proof (Z.mod_pos_bound (ino - 1) (inodes_per_group s) ltac:(lia)). nia.
Qed.

Lemma update_inode_spec ino e block msg h :
  wstate dev cur [] h -> 0 < ino -> kind (reference e) = inode_root ->
  (inode_off cur s ino + inode_size s <= zlen cur -> container_start e = inode_off cur s ino) ->
  entry_pos e = container_start e + (INODE_I_BLOCK_OFF + entry_offset (reference e)) ->
  12 <= entry_offset (reference e) <= 48 ->
  runs dev (update_inode_entry dev ctx ino (entry_offset (reference e)) set_extent_start block msg) h
    (switch_stop e block) (fun _ h' => exists w, owner_write s cur e block w /\ wstate dev cur [w] h').
Proof.
  intros Hw Hi Hk Hc Hp He. unfold update_inode_entry. cbv zeta. pose proof (inode_off_pos ino Hi) as Hoff.
  set (entry := entry_offset (reference e)) in *. unfold INODE_I_BLOCK_OFF in *.
  rstep Hw by (by apply (reads_inode dev cur [] ctx Hgeo)) stop (by eapply stop_quiet) as raw Hraw.
  destruct Hraw as (-> & Hz & Hin). cbn [put_all foldl] in *. fold s in Hz, Hin |- *. specialize (Hc Hin).
  destruct (Z.ltb_spec (zlen (inode_at cur s ino)) (40 + entry + 12)) as [|Hroom];
    [apply runs_failM; by eapply stop_quiet|].
  destruct (set_extent_start_bytes (inode_at cur s ino) (40 + entry) block) as (B1 & B2 & B3); [lia|lia|].
  apply runs_pure; [by eapply stop_quiet|]. intros raw' Hu. apply update_inode_keeps in Hu as [U1 U2]; [|done].
  unfold write_inode_raw. destruct (negb _) eqn:Ez; [apply runs_failM; by eapply stop_quiet|]. clear Ez.
  rstep Hw by (by apply (reads_inode_offset dev cur [] ctx Hgeo)) stop (by eapply stop_quiet) as off Ho.
  destruct Ho as [-> _]. cbn [put_all foldl]. fold s.
  apply (write_owner e block (inode_off cur s ino, raw')); [done|].
  assert (Hs : inode_at cur s ino = slice cur (inode_off cur s ino) (inode_size s)) by done.
  unfold INODE_CSUM_LO in U2. rewrite Hz in *.
  split; cbn [fst snd]; unfold container_len; rewrite ?Hk, ?U1, ?B1, ?Hp, ?Hc.
  - lia.
  - split; cbn [fst snd]; lia.
  - lia.
  - replace (_ - _) with (40 + entry) by lia. rewrite U2, B3, Hs, slice_slice by lia. f_equal; lia.
  - replace (_ - _ + 6) with (40 + entry + 6) by lia. by rewrite U2, B2 by lia.
Qed.

Lemma update_node_spec ino gen e block m1 m2 h :
  wstate dev cur [] h ->
  let pos := u64 (container_block (reference e) * block_size s) in
  kind (reference e) = extent_block -> container_start e = pos ->
  entry_pos e = container_start e + entry_offset (reference e) ->
  12 <= entry_offset (reference e) ->
  entry_offset (reference e) + 12 <= extent_tail (slice cur pos (block_size s)) ->
  runs dev (update_node_entry dev ctx ino gen pos (entry_offset (reference e)) set_extent_start block m1 m2) h
    (switch_stop e block) (fun _ h' => exists w, owner_write s cur e block w /\ wstate dev cur [w] h').
Proof.
  intros Hw pos Hk Hc Hp He Ht. unfold update_node_entry. cbv zeta. fold s.
  set (entry := entry_offset (reference e)) in *. pose proof (geo_block_size ctx Hgeo) as Hbs. fold s in Hbs.
  assert (Hpos : 0 <= pos) by (apply Z.mod_pos_bound; lia).
  rstep Hw by (apply (yields_read dev cur []); [exact Hw|exact Hpos|lia]) stop (by eapply stop_quiet) as node Hn.
  destruct Hn as (-> & Hz & Hin). cbn [put_all foldl] in *. set (node := slice cur pos (block_size s)) in *.
  apply runs_pure; [by eapply stop_quiet|]. intros ok _. destruct (negb ok); [apply runs_failM; by eapply stop_quiet|].
  destruct (Z.ltb_spec (zlen node) (entry + 12)) as [|Hroom]; [apply runs_failM; by eapply stop_quiet|].
  destruct (set_extent_start_bytes node entry block) as (B1 & B2 & B3); [lia|lia|].
  assert (Et : extent_tail (set_extent_start node entry block) = extent_tail node).
  { unfold extent_tail. do 2 f_equal. apply read_le_ext; [lia..|]. cbn. apply B3; lia. }
  apply runs_pure; [by eapply stop_quiet|]. intros node' Hu. apply update_extent_keeps in Hu as [U1 U2]. rewrite Et in U2.
  apply (write_owner e block (pos, node')); [done|].
  split; cbn [fst snd]; unfold container_len; rewrite ?Hk, ?U1, ?B1, ?Hp, ?Hc.
  - lia.
  - split; cbn [fst snd]; lia.
  - lia.
  - replace (_ - _) with entry by lia. rewrite U2, B3 by lia. unfold node. rewrite slice_slice by lia. done.
  - replace (_ - _ + 6) with (entry + 6) by lia. by rewrite U2, B2 by lia.
Qed.
End Writes.

(** ** The switch of the owner of an extent *)

(** The write of the entry of an extent that was found, and its flush. *)
Lemma switch_entry_spec dev ctx cur s st ino e block h :
  wstate dev cur [] h -> geometry_ok s -> in_width 32 (checksum_seed ctx) ->
  sb ctx = with_state st s -> zlen cur < 2 ^ 63 -> 0 < ino ->
  e ∈ extents_of dev cur s (context_of s (slice cur 1024 1024)) 0 ino -> entry_room cur s e ->
  runs dev
    (match kind (reference e) with
     | inode_root =>
         update_inode_entry dev ctx ino (entry_offset (reference e)) set_extent_start block
           "extent entry exceeds inode"
     | extent_block =>
         update_node_entry dev ctx ino (inode_generation e)
           (u64 (container_block (reference e) * block_size (sb ctx))) (entry_offset (reference e)) set_extent_start block
           "extent block checksum mismatch before owner switch" "extent entry exceeds extent block"
     end;; flush dev) h (switch_stop dev ctx cur e block)
    (fun _ h' => exists w, owner_write (sb ctx) cur e block w /\ wstate dev (put_all [w] cur) [] h').
Proof.
  intros Hw Hgeo Hseed Hsb Hlen Hino Hin Hr.
  assert (Hgeo' : geometry_ok (sb ctx)) by (rewrite Hsb; by apply geometry_state).
  pose proof Hgeo as [G1 _ _ _ _ _ G7]. destruct (block_size_cases s G1) as [_ Hbs].
  destruct (found_place dev cur s _ _ e ltac:(lia) ltac:(lia) Hin Hr) as (_ & _ & _ & Hk).
  eapply (runs_bind _ _ _ _ _ (fun _ h' => exists w, owner_write (sb ctx) cur e block w /\ wstate dev cur [w] h')).
  - destruct (kind (reference e)) eqn:Ek.
    + destruct Hk as (K1 & K2 & K3). apply (update_inode_spec dev ctx cur Hgeo' Hseed); [done..| |exact K2|exact K3].
      intros Hfit. pose proof (inode_off_pos ctx cur Hgeo' ino Hino) as Hpos.
      rewrite K1. rewrite Hsb, state_inode_off in Hpos |- *. rewrite Hsb, state_inode_off, state_inode_size in Hfit.
      apply inode_offset_fits. lia.
    + destruct Hk as (K1 & K2 & K3 & K4 & _). apply (update_node_spec dev ctx cur Hgeo');
        [exact Hw|exact Ek|by rewrite Hsb, state_block_size|exact K2|exact K3|by rewrite Hsb, state_block_size].
  - intros _ h1 _ (w & How & Hw1).
    eapply runs_mono; [apply (runs_flush dev cur [w] h1 (switch_stop dev ctx cur e block) Hw1)|done|].
    + intros h' Hu. right. by exists w.
    + intros [] h' _ Hw2. by exists w.
Qed.

Lemma update_data_owner_spec sort_by dev ctx cur st m block h :
  let s := superblock_fields (slice cur 1024 1024) in
  let found := extent_found sort_by dev cur (mv_inode m) (mv_logical_block m) in
  sorts sort_by -> wstate dev cur [] h -> geometry_ok s -> in_width 32 (checksum_seed ctx) ->
  sb ctx = with_state st s -> zlen cur < 2 ^ 63 -> 0 <= mv_inode m ->
  runs dev (update_data_owner sort_by dev ctx m block) h
    (fun h' => unsettled dev cur [] h' \/
       exists e, found = Some e /\ physical_block e = mv_source_block m /\
         switch_stop dev ctx cur e block h')
    (fun _ h' => exists e, found = Some e /\
       logical_block e = mv_logical_block m /\ o_length e = mv_block_count m /\
       (physical_block e = block /\ wstate dev cur [] h' \/
        physical_block e = mv_source_block m /\
        exists w, owner_write (sb ctx) cur e block w /\ wstate dev (put_all [w] cur) [] h')).
Proof.
  intros s found Hsort Hw Hgeo Hseed Hsb Hlen Hino.
  assert (Hq : forall (P : Prop) h h', wstate dev cur [] h -> quiet h h' -> unsettled dev cur [] h' \/ P).
  { intros P h1 h' Hw1 Hq. left. by eapply wstate_unsettled, wstate_quiet. }
  unfold update_data_owner.
  rstep Hw by (by apply (find_extent_spec sort_by dev cur)) stop (by eapply Hq) as e He.
  destruct He as (Hf & Hused & _ & Hroom). change (found = Some e) in Hf. fold s in Hused, Hroom.
  destruct (_ || _) eqn:Eg; [apply runs_failM; by eapply Hq|].
  apply orb_false_iff in Eg as [Eg1%negb_false_iff%Z.eqb_eq Eg2%negb_false_iff%Z.eqb_eq].
  destruct (Z.eqb_spec (physical_block e) block) as [Eb|Hne].
  { apply runs_ret. exists e. split_and!; [done|done|done|]. by left. }
  destruct (Z.eqb_spec (physical_block e) (mv_source_block m)) as [Esrc|]; cbn [negb]; [|apply runs_failM; by eapply Hq].
  destruct (extent_found_in sort_by dev cur _ _ e Hsort Hf) as [Hin _].
  pose proof (proj1 (list.Forall_forall _ _) Hroom e Hin) as Hr.
  eapply runs_mono; [apply (switch_entry_spec dev ctx cur s st); try eassumption; destruct Hused; lia| |].
  - intros h' _ Hs. right. by exists e.
  - intros [] h' _ Hs. exists e. split_and!; [done|done|done|]. right. by split.
Qed.

(** ** Bitmaps and trees apart *)

(** The range holds no bitmap and no descriptor. *)
Definition meta_apart (s : Superblock) (img : bytes) (o n : Z) : Prop :=
  0 <= o /\ forall g, of_group s g ->
    (o + n <= bitmap_off s img g \/ bitmap_off s img g + block_size s <= o) /\
    (o + n <= desc_off s g \/ desc_off s g + desc_bytes s <= o).

(** The superblock, the inode and the blocks of its tree hold none. *)
Record tree_layout (dev : BlockDevice) (s : Superblock) (img : bytes) (ino : Z) : Prop := {
  tl_super : meta_apart s img 1024 1024;
  tl_inode : meta_apart s img (inode_offset_at img s ino) (inode_size s);
  tl_nodes : Forall (fun t => meta_apart s img (u64 (tb_physical_block t * block_size s)) (block_size s))
    (trees_of dev img s (context_of s (slice img 1024 1024)) ino)
}.

(** [img'] is [img] but for its bitmaps and the counters and checksums of its
    descriptors. *)
Record meta_same (s : Superblock) (img img' : bytes) : Prop := {
  ms_len : zlen img' = zlen img;
  ms_slice : forall o n, meta_apart s img o n -> slice img' o n = slice img o n;
  ms_desc : forall g, of_group s g -> desc_like (raw_desc img s g) (raw_desc img' s g)
}.

Lemma meta_apart_sub s img o n o' n' :
  meta_apart s img o n -> o <= o' -> o' + n' <= o + n -> meta_apart s img o' n'.
Proof. intros [Ho H] H1 H2. split; [lia|]. intros g Hg. destruct (H g Hg). lia. Qed.

Lemma confined_same st s img lo hi img' :
  alloc_confined (with_state st s) img lo hi img' -> meta_same s img img'.
Proof.
  intros [H1 H2 H3 _]. split; [exact H1| |exact H3]. intros o n [Ho Hap]. apply H2; [done|].
  intros g [Hg _]. exact (Hap g Hg).
Qed.

Section Same.
Context (dev : BlockDevice) (s : Superblock) (img img' : bytes) (Hgeo : geometry_ok s).
Context (Hsame : meta_same s img img').

Lemma same_desc g : of_group s g -> desc_at img' s g = with_free (g_free_blocks (desc_at img' s g)) (desc_at img s g).
Proof. intros Hg. rewrite !desc_at_raw. apply desc_like_fields. by apply Hsame. Qed.

Lemma same_bitmap_off g : of_group s g -> bitmap_off s img' g = bitmap_off s img g.
Proof. intros Hg. unfold bitmap_off. by rewrite (same_desc g Hg). Qed.

Lemma same_apart o n : meta_apart s img o n -> meta_apart s img' o n.
Proof. intros [Ho H]. split; [done|]. intros g Hg. rewrite (same_bitmap_off g Hg). by apply H. Qed.

Lemma same_layout : alloc_layout s img -> alloc_layout s img'.
Proof.
  intros [H1 H2]. split.
  - intros g g' Hg Hg'. rewrite (same_bitmap_off g Hg). by apply H1.
  - intros g g' Hg Hg'. rewrite (same_desc g Hg), (same_desc g' Hg'). by apply H2.
Qed.

Context (ino : Z) (Hino : 1 <= ino <= inodes_count s) (Hlay : tree_layout dev s img ino).

Lemma same_super : slice img' 1024 1024 = slice img 1024 1024.
Proof. apply Hsame, Hlay. Qed.

Lemma same_inode_offset : inode_offset_at img' s ino = inode_offset_at img s ino.
Proof.
  unfold inode_offset_at. cbv zeta. pose proof Hgeo as [_ _ G3 _ _ G6 _].
  rewrite (same_desc ((ino - 1) / inodes_per_group s)); [done|]. split; [apply Z.div_pos; lia|].
  apply Z.div_lt_upper_bound; nia.
Qed.

Lemma same_extents :
  extents_of dev img' s (context_of s (slice img' 1024 1024)) 0 ino
  = extents_of dev img s (context_of s (slice img 1024 1024)) 0 ino.
Proof.
  pose proof (tl_nodes _ _ _ _ Hlay) as Hnodes. rewrite same_super. revert Hnodes.
  unfold extents_of, trees_of. cbv zeta. rewrite same_inode_offset.
  rewrite (ms_slice _ _ _ Hsame _ _ (tl_inode _ _ _ _ Hlay)). destruct (has_extents _); [|done].
  set (inode := slice img _ (inode_size s)). set (c := mkCtx _ _ _ _ _ _). intros Hnodes.
  apply (tree_agree c img img'). eapply list.Forall_impl; [exact Hnodes|]. intros t Ht. unfold node_at.
  by apply (ms_slice _ _ _ Hsame).
Qed.

Lemma same_found sort_by logical :
  superblock_fields (slice img 1024 1024) = s ->
  extent_found sort_by dev img' ino logical = extent_found sort_by dev img ino logical.
Proof.
  intros Hs. unfold extent_found. cbv zeta. pose proof same_extents as E. rewrite same_super, Hs in *. by rewrite E.
Qed.
End Same.

Lemma container_apart dev s img ino e :
  geometry_ok s -> tree_layout dev s img ino ->
  e ∈ extents_of dev img s (context_of s (slice img 1024 1024)) 0 ino -> entry_room img s e ->
  meta_apart s img (container_start e) (container_len s e).
Proof.
  intros Hgeo Hlay He Hr. pose proof Hgeo as [G1 _ _ _ _ _ G7]. destruct (block_size_cases s G1) as [_ Hbs].
  destruct (found_place dev img s _ _ e ltac:(lia) ltac:(lia) He Hr) as (_ & _ & _ & Hk).
  unfold container_len. destruct (kind (reference e)).
  - destruct Hk as (-> & _). apply Hlay.
  - destruct Hk as (-> & _ & _ & _ & (t & -> & Ht)%list_elem_of_fmap).
    exact (proj1 (list.Forall_forall _ _) (tl_nodes _ _ _ _ Hlay) t Ht).
Qed.

(** ** The image of a switched entry *)

Lemma join32_halves block :
  0 <= block < 2 ^ 48 -> join32 (u32 block) (u16 (Z.shiftr block 32)) = block.
Proof.
  intros Hb. unfold join32. rewrite Z.lor_comm. rewrite Z.shiftr_div_pow2 by lia.
  assert (Hh : 0 <= block / 2 ^ 32 < 2 ^ 16) by (split; [apply Z.div_pos; lia|apply Z.div_lt_upper_bound; lia]).
  rewrite (wrap_id 16) by (unfold in_width; lia).
  rewrite (wrap_id 64) by (unfold in_width; rewrite Z.shiftl_mul_pow2 by lia; lia).
  unfold wrap. rewrite lor_add by (try apply Z.mod_pos_bound; lia).
  pose proof (Z.div_mod block (2 ^ 32) ltac:(lia)). lia.
Qed.

Lemma pointer_start img pos block :
  0 <= pos -> 0 <= block < 2 ^ 48 -> slice img (pos + 6) 6 = start_bytes block -> pointer_at img pos = block.
Proof.
  intros Hp Hb E. unfold pointer_at.
  replace (read_le32 img (pos + 8)) with (read_le32 (start_bytes block) 2)
    by (rewrite <-E, read_le_window by lia; f_equal; lia).
  replace (read_le16 img (pos + 6)) with (read_le16 (start_bytes block) 0)
    by (rewrite <-E, read_le_window by lia; f_equal; lia).
  unfold start_bytes. rewrite !read_le_window by lia.
  unfold set_extent_start, EXTENT_START_HI, EXTENT_START_LO. cbv zeta.
  assert (zlen (zeros 12) = 12) by (apply zlen_zeros; lia).
  unfold write_le16, write_le32. rewrite read_write_le_eq by (wr_len; lia || apply Z.mod_pos_bound; lia).
  rewrite read_write_le_ne by (wr_len; lia). rewrite read_write_le_eq by (wr_len; lia || apply Z.mod_pos_bound; lia).
  by apply join32_halves.
Qed.

Lemma same_pointer img img' pos :
  0 <= pos -> slice img' pos 12 = slice img pos 12 -> pointer_at img' pos = pointer_at img pos.
Proof.
  intros Hp E. unfold pointer_at.
  assert (H : forall w o, 0 <= o -> o + Z.of_nat w <= 12 -> read_le w img' (pos + o) = read_le w img (pos + o)).
  { intros w o Ho Hw. by rewrite <-(read_le_window w img' pos 12 o), E, read_le_window by lia. }
  by rewrite !H by lia.
Qed.

Section Written.
Context (s : Superblock) (img : bytes) (e : OwnedExtent) (block : Z) (w : Z * bytes).
Context (How : owner_write s img e block w) (Hap : meta_apart s img (container_start e) (container_len s e)).
Let pos := entry_pos e.

Lemma written_apart o n :
  o + n <= container_start e \/ container_start e + container_len s e <= o -> Forall (apart o n) [w].
Proof. intros H. destruct (ow_place _ _ _ _ _ How) as [E1 E2]. apply Forall_singleton. unfold apart. lia. Qed.

Context (img' : bytes) (Hm : mixture [w] img img').

Lemma written_slice o n :
  0 <= o -> o + n <= container_start e \/ container_start e + container_len s e <= o ->
  slice img' o n = slice img o n.
Proof. intros Ho H. apply (mixture_slice [w]); [done|done|by apply written_apart]. Qed.

Lemma written_groups g :
  of_group s g -> 0 <= desc_off s g -> 0 <= bitmap_off s img g ->
  raw_desc img' s g = raw_desc img s g /\ bitmap_off s img' g = bitmap_off s img g /\
  block_bitmap_at img' s g = block_bitmap_at img s g.
Proof.
  intros Hg Hd Hb. destruct Hap as [H0 H1]. destruct (H1 g Hg) as [A1 A2].
  assert (E : raw_desc img' s g = raw_desc img s g) by (apply written_slice; [done|lia]).
  assert (Eo : bitmap_off s img' g = bitmap_off s img g) by (unfold bitmap_off; by rewrite !desc_at_raw, E).
  split_and!; [done|done|]. unfold block_bitmap_at. fold (bitmap_off s img' g) (bitmap_off s img g).
  rewrite Eo. apply written_slice; [done|lia].
Qed.

(** Each byte of the entry's pointer is old or new, the rest of the entry is
    as it was. *)
Lemma written_entry :
  slice img' pos 6 = slice img pos 6 /\
  forall i, 0 <= i < 6 ->
    byte_at img' (pos + 6 + i) = byte_at img (pos + 6 + i) \/
    byte_at img' (pos + 6 + i) = byte_at (start_bytes block) i.
Proof.
  destruct How as [[E1 E2] [I1 I2] [R1 R2] Hent Hst]. fold pos in R1, R2, Hent, Hst. split.
  - apply list_eq. intros k. rewrite !lookup_slice by lia. case_decide as Hk; [|done].
    destruct Hm as [_ Hl]. destruct (Hl (Z.to_nat pos + k)%nat) as [->|(o & d & Hin%list_elem_of_singleton & Hr & ->)]; [done|].
    subst w. cbn [fst snd] in *. assert (Hsl := f_equal (fun l => l !! k) Hent). cbn beta in Hsl.
    rewrite !lookup_slice, !decide_True in Hsl by lia. rewrite <-Hsl. f_equal. lia.
  - intros i Hi. destruct (torn_byte [w] img img' (pos + 6 + i) Hm ltac:(lia)) as [|(w' & ->%list_elem_of_singleton & Hr & E)];
      [by left|right]. rewrite E by done. rewrite <-Hst, byte_at_slice by lia. f_equal. lia.
Qed.
End Written.

Lemma written_settled s img e block w :
  owner_write s img e block w ->
  mixture [w] img (put_all [w] img) /\ slice (put_all [w] img) (entry_pos e + 6) 6 = start_bytes block.
Proof.
  intros [[E1 E2] Hin [R1 R2] _ Hst]. split; [by apply mixture_put_all, Forall_singleton|].
  destruct Hin as [I1 I2]. cbn [put_all foldl]. rewrite slice_splice_sub by lia. rewrite <-Hst. f_equal. lia.
Qed.

Lemma owner_write_state st s img e block w : owner_write (with_state st s) img e block w -> owner_write s img e block w.
Proof. intros [H1 H2 H3 H4 H5]. by split. Qed.
