(* ===== verification/Commit.v ===== *)
(** Committing a staged relocation (include/fsx/ext4_mutate.hpp,
    src/ext4/mutate.cpp, from [move_record]): the destinations are allocated,
    the owners switched to the copies, and the sources freed, one move after
    the other.  The progress callback only reports and is left out. *)
From S2P Require Import Prelude Words Errors Host Device Uuid Safety JournalFormat Journal JournalUse.
From S2P Require Import Ext4 Metadata MetadataCheck Extents RelocatePlan Stage AllocUpdate OwnerUpdate.
#[local] Open Scope Z_scope.

Record CommitOptions := mkCommitOptions {
  cm_journal_path : string;
  cm_allow_block_device : bool;
  verify_metadata_after : bool;
  leave_filesystem_dirty : bool
}.
Record CommitReport := mkCommitReport {
  cm_moves_total : Z;
  destinations_reserved : Z;
  owners_switched : Z;
  sources_released : Z;
  moves_committed : Z;
  bytes_relocated : Z;
  cm_paused : bool;
  cm_complete : bool;
  filesystem_clean : bool
}.

Definition move_record (t : JournalRecordType) (m : OwnerMove) : JournalRecord := stage_record t 0 m.
(** [OwnerMove{}]. *)
Definition no_move : OwnerMove := mkOwnerMove data_extent 0 0 0 0 0 0 false 0.

(** The order of the moves: data first, by transaction, then the nodes of the
    trees, the roots' children first.  [std::stable_sort] keeps the order of
    equal moves. *)
Definition move_lt (a b : OwnerMove) : bool :=
  if negb (bool_decide (mv_kind a = mv_kind b)) then bool_decide (mv_kind a = data_extent)
  else if bool_decide (mv_kind a = extent_tree_block) then mv_tree_depth a <? mv_tree_depth b
  else mv_transaction_id a <? mv_transaction_id b.
Fixpoint insert_move (m : OwnerMove) (l : list OwnerMove) : list OwnerMove :=
  match l with
  | x :: l' => if move_lt x m then x :: insert_move m l' else m :: l
  | [] => [m]
  end.
Definition stable_sort (l : list OwnerMove) : list OwnerMove := foldr insert_move [] l.

(** [++report.x] of the four counters, which every committed move counts, and
    its bytes. *)
Definition count_commit (bytes : Z) (r : CommitReport) : CommitReport :=
  mkCommitReport (cm_moves_total r) (destinations_reserved r + 1) (owners_switched r + 1)
    (sources_released r + 1) (moves_committed r + 1) (u64 (bytes_relocated r + bytes))
    (cm_paused r) (cm_complete r) (filesystem_clean r).
Definition set_paused (r : CommitReport) : CommitReport :=
  mkCommitReport (cm_moves_total r) (destinations_reserved r) (owners_switched r) (sources_released r)
    (moves_committed r) (bytes_relocated r) true (cm_complete r) (filesystem_clean r).
Definition set_done (clean : bool) (r : CommitReport) : CommitReport :=
  mkCommitReport (cm_moves_total r) (destinations_reserved r) (owners_switched r) (sources_released r)
    (moves_committed r) (bytes_relocated r) (cm_paused r) true clean.

Section Commit.
Context (sort_by : (OwnedExtent -> Z) -> list OwnedExtent -> list OwnedExtent).
Context (dev : BlockDevice) (ctx : MetadataContext).

Definition current_owner (m : OwnerMove) : M Z :=
  match mv_kind m with
  | data_extent => current_data_owner sort_by dev m
  | extent_tree_block => current_tree_owner sort_by dev ctx m
  end.

(** The destination's blocks are allocated, before its owner is switched. *)
Definition reserve_destination (dst : RangeState) (m : OwnerMove) (j : TransactionJournal)
    : M TransactionJournal :=
  if all_set dst then mret j
  else if negb (all_clear dst)
  then failM corrupt "destination allocation range is partially allocated"
  else
    set_allocation_range dev ctx (mv_destination_block m) (mv_block_count m) true;;
    run_on (append (move_record destination_reserved m)) j.

(** The owner points to the copy; the copy of data is checked once more, the
    copy of a node is made again. *)
Definition switch_owner (bs crc : Z) (m : OwnerMove) (j : TransactionJournal) : M TransactionJournal :=
  match mv_kind m with
  | data_extent =>
      (if mv_unwritten m then mret tt
       else
         c ← extent_crc dev (mv_destination_block m) (mv_block_count m) bs;
         if negb (c =? crc) then failM io "staged destination checksum changed before metadata commit"
         else mret tt);;
      update_data_owner sort_by dev ctx m (mv_destination_block m)
  | extent_tree_block =>
      refresh_tree_copy dev ctx m;;
      update_tree_parent sort_by dev ctx m (mv_destination_block m)
  end;;
  run_on (append (move_record owner_switched m)) j.

(** The source's blocks are freed, after nothing points to them. *)
Definition release_source (m : OwnerMove) (j : TransactionJournal) : M TransactionJournal :=
  src ← allocation_state dev ctx (mv_source_block m) (mv_block_count m);
  if all_clear src then mret j
  else if negb (all_set src)
  then failM corrupt "source allocation range is partially released"
  else
    set_allocation_range dev ctx (mv_source_block m) (mv_block_count m) false;;
    run_on (append (move_record source_released m)) j.

(** The body of the loop over the moves; [crc] is the checksum in the journal. *)
Definition commit_move (bs crc : Z) (m : OwnerMove) (j : TransactionJournal) : M TransactionJournal :=
  src ← allocation_state dev ctx (mv_source_block m) (mv_block_count m);
  dst ← allocation_state dev ctx (mv_destination_block m) (mv_block_count m);
  owner ← current_owner m;
  if negb (owner =? mv_source_block m) && negb (owner =? mv_destination_block m)
  then failM unsafe "owner mapping is inconsistent with relocation journal"
  else if (owner =? mv_source_block m) && negb (all_set src)
  then failM corrupt "authoritative source extent is not fully allocated"
  else if (owner =? mv_destination_block m) && negb (all_set dst)
  then failM corrupt "authoritative destination extent is not fully allocated"
  else
    j ← reserve_destination dst m j;
    j ← (if owner =? mv_source_block m then switch_owner bs crc m j else mret j);
    j ← release_source m j;
    run_on (append (move_record metadata_committed m)) j.

(** The loop; the journal and the report, whose flag says it was paused. *)
Fixpoint commit_moves (bs : Z) (verified : gmap Z JournalRecord) (moves : list OwnerMove)
    (j : TransactionJournal) (r : CommitReport) : M (TransactionJournal * CommitReport) :=
  match moves with
  | [] => mret (j, r)
  | m :: moves =>
      stop ← cancel_requested;
      if (stop : bool) then
        j ← run_on (checkpoint metadata_paused) j;
        mret (j, set_paused r)
      else
        j ← commit_move bs (default 0 (data_crc32c <$> verified !! mv_transaction_id m)) m j;
        commit_moves bs verified moves j (count_commit (u64 (mv_block_count m * bs)) r)
  end.

(** Every move of the plan has a record of a verified copy. *)
Definition copies_verified (verified : gmap Z JournalRecord) (moves : list OwnerMove) : Result unit :=
  if Z.of_nat (size verified) <? zlen moves
  then fail unsafe "not every relocation has a durable verified-copy record"
  else if forallb (fun m => match verified !! mv_transaction_id m with
                            | Some r => same_relocation r m | None => false end) moves
  then Ok tt
  else fail unsafe "journal relocation geometry differs from current plan".

Definition commit_phase (p : OperationPhase) : bool :=
  bool_decide (p = staged) || bool_decide (p = metadata_finalize) || bool_decide (p = metadata_paused)
  || bool_decide (p = compacted).

Definition check_commit_journal (fs_uuid : bytes) (plan : OwnerRelocationPlan) (j : TransactionJournal)
    : Result unit :=
  let id := identity (status_ j) in
  if negb (bool_decide (filesystem_uuid id = fs_uuid))
  then fail unsafe "journal filesystem UUID does not match target"
  else if negb (device_size id =? size_bytes (geometry dev))
  then fail unsafe "journal device size does not match target"
  else if negb (target_size id =? pl_target_bytes plan)
  then fail unsafe "journal target differs from current plan"
  else if negb (commit_phase (phase (status_ j)))
  then fail unsafe "journal is not in a metadata-commit compatible phase"
  else Ok tt.

(** The report of an operation whose journal says it is compacted. *)
Definition compacted_report (plan : OwnerRelocationPlan) : CommitReport :=
  let n := zlen (pl_moves plan) in
  mkCommitReport n n n n n
    (foldl (fun b m => u64 (b + u64 (mv_block_count m * pl_block_size plan))) 0 (pl_moves plan))
    false true (Z.land (state (sb ctx)) 1 =? 1).

(** The changes, from the first mark in the superblock to the last. *)
Definition commit_changes (plan : OwnerRelocationPlan) (o : CommitOptions)
    (verified : gmap Z JournalRecord) (j : TransactionJournal) : M CommitReport :=
  j ← (if negb (Z.land (state (sb ctx)) 1 =? 0)
       then mark_filesystem_state dev false;; run_on (append (move_record filesystem_marked_dirty no_move)) j
       else mret j);
  j ← run_on (checkpoint metadata_finalize) j;
  p ← commit_moves (pl_block_size plan) verified (stable_sort (pl_moves plan)) j
        (mkCommitReport (zlen (pl_moves plan)) 0 0 0 0 0 false false false);
  let (j, report) := (p : TransactionJournal * CommitReport) in
  if cm_paused report then mret report
  else
    (if verify_metadata_after o
     then
       v ← verify_metadata dev false;
       if negb (m_clean v)
       then failM corrupt "post-commit metadata verification failed; filesystem intentionally left unclean"
       else mret tt
     else mret tt);;
    j ← (if negb (leave_filesystem_dirty o)
         then mark_filesystem_state dev true;; run_on (append (move_record filesystem_marked_clean no_move)) j
         else mret j);
    run_on (checkpoint compacted) j;;
    mret (set_done (negb (leave_filesystem_dirty o)) report).
End Commit.

Definition commit_staged_relocation (sort_by : (OwnedExtent -> Z) -> list OwnedExtent -> list OwnedExtent)
    (dev : BlockDevice) (plan : OwnerRelocationPlan) (o : CommitOptions) : M CommitReport :=
  if bool_decide (cm_journal_path o = "")
  then failM invalid_argument "commit requires --journal=FILE"
  else
    require_offline_for_write dev;;
    ds ← inspect_device_safety dev;
    if block_device ds && negb (cm_allow_block_device o)
    then failM unsafe "block-device metadata commit requires explicit --allow-block-device"
    else
      ctx ← load_metadata_context dev false;
      if has_flag (feature_ro_compat (sb ctx)) RO_COMPAT_BIGALLOC
      then failM unsupported "bigalloc metadata mutation is not supported"
      else if has_flag (feature_incompat (sb ctx)) INCOMPAT_META_BG
      then failM unsupported "meta_bg metadata mutation is not supported"
      else if has_flag (feature_incompat (sb ctx)) INCOMPAT_RECOVER
      then failM unsafe "filesystem journal recovery is required before metadata commit"
      else
        ex ← exists_or_throw (cm_journal_path o);
        if negb (ex : bool) then failM not_found "relocation journal does not exist"
        else
          j ← Journal.open (cm_journal_path o) true;
          fu ← lift (parse_uuid (uuid (sb ctx)));
          lift (check_commit_journal dev fu plan j);;
          p ← query records j;
          let verified := records_by_id copy_verified p.1 in
          lift (copies_verified verified (pl_moves plan));;
          if bool_decide (phase (status_ p.2) = compacted) then mret (compacted_report ctx plan)
          else commit_changes sort_by dev ctx plan o verified p.2.
