(* ===== verification/CommitMove.v ===== *)
(** What the commit of one move of data leaves at a power cut (proofs on
    [Commit.v]): a copy of the extent that its owner points to is allocated at
    every moment. *)
From S2P Require Import Prelude Errors Endian Crc Host Device Durable JournalFormat Journal JournalUse TaskPool.
From S2P Require Import Ext4 Allocation Metadata MetadataCheck Extents ExtentScan RelocatePlan Stage AllocUpdate.
From S2P Require Import OwnerUpdate OwnerSwitch Commit.
#[local] Open Scope Z_scope.

(** ** The move of an extent *)

(** The blocks of a range are all in the state [v]. *)
Definition range_state (s : Superblock) (img : bytes) (start n : Z) (v : bool) : Prop :=
  forall blk, start <= blk < start + n -> block_used img s blk = v.

(** Every other block has its old state. *)
Definition others_kept (s : Superblock) (base : bytes) (m : OwnerMove) (img : bytes) : Prop :=
  forall blk, first_data_block s <= blk < blocks_count s ->
    ~ mv_source_block m <= blk < mv_source_block m + mv_block_count m ->
    ~ mv_destination_block m <= blk < mv_destination_block m + mv_block_count m ->
    block_used img s blk = block_used base s blk.

(** The entry at [pos] points to allocated blocks: to the source's, or to the
    destination's; where the write of the entry itself was cut, each byte of
    its pointer is old or new, and both copies are allocated. *)
Definition copy_kept (s : Superblock) (base : bytes) (m : OwnerMove) (pos : Z) (img : bytes) : Prop :=
  let n := mv_block_count m in
  slice img pos 6 = slice base pos 6 /\
  (pointer_at img pos = mv_source_block m /\ range_state s img (mv_source_block m) n true \/
   pointer_at img pos = mv_destination_block m /\ range_state s img (mv_destination_block m) n true \/
   range_state s img (mv_source_block m) n true /\ range_state s img (mv_destination_block m) n true /\
   forall i, 0 <= i < 6 ->
     byte_at img (pos + 6 + i) = byte_at base (pos + 6 + i) \/
     byte_at img (pos + 6 + i) = byte_at (start_bytes (mv_destination_block m)) i).

(** A file system with the superblock [s] in which the move can be committed:
    the context is that of [s], up to the state field; bitmaps, descriptors, the superblock and the
    inode's tree lie apart; the source and the destination are apart, behind
    the reserved blocks, and within the 48 bits of a pointer. *)
Record move_setting (dev : BlockDevice) (ctx : MetadataContext) (base : bytes) (m : OwnerMove) (s : Superblock)
    : Prop := {
  mo_context : sb ctx = with_state (state (sb ctx)) s;
  mo_geometry : geometry_ok s;
  mo_seed : in_width 32 (checksum_seed ctx);
  mo_counter : counter_fits (sb ctx);
  mo_length : zlen base < 2 ^ 63;
  mo_alloc : alloc_layout s base;
  mo_tree : tree_layout dev s base (mv_inode m);
  mo_kind : mv_kind m = data_extent;
  mo_inode : 0 <= mv_inode m;
  mo_source : first_data_block s <= mv_source_block m;
  mo_destination : first_data_block s <= mv_destination_block m < 2 ^ 48;
  mo_count : 0 <= mv_block_count m;
  mo_apart : mv_source_block m + mv_block_count m <= mv_destination_block m \/
             mv_destination_block m + mv_block_count m <= mv_source_block m
}.

(** The checksum of an extent only reads. *)
Lemma crc_loop_yields fuel dev cur start total done crc buf h :
  wstate dev cur [] h -> 0 <= start -> 0 < buf -> 0 <= done <= total ->
  total <= done + (Z.of_nat fuel - 1) * buf ->
  yields (finish (crc_loop fuel dev start total buf done crc)) h (fun _ => True).
Proof.
  intros Hw Hs Hbuf. revert done crc h Hw. induction fuel as [|fuel IH]; intros done crc h Hw Hd Hf; [lia|].
  cbn [crc_loop]. destruct (Z.leb_spec total done) as [Hend|Hlt]; [by apply yields_ret|]. cbv zeta.
  set (k := Z.min buf (total - done)). assert (Hk : 0 < k <= total - done) by (unfold k; lia).
  assert (Hfuel : total <= done + k + (Z.of_nat fuel - 1) * buf) by (by apply fuel_step). clearbody k.
  cbn [finish call].
  step Hw by (apply (yields_attempt _ _ (fun _ => True)); [|done];
    eapply yields_mono; [apply (yields_read dev cur []); [exact Hw|lia|lia]|done]) as r Hr.
  destruct r as [b|err]; [|by apply yields_ret]. apply IH; [exact Hw|lia|lia].
Qed.

Lemma extent_crc_yields dev cur block count bs h :
  wstate dev cur [] h -> 0 <= block -> 0 <= count -> 0 <= bs ->
  yields (extent_crc dev block count bs) h (fun _ => True).
Proof.
  intros Hw Hb Hc Hbs. unfold extent_crc. cbv zeta. destruct (Z.eqb_spec bs 0); [apply yields_failM|].
  destruct (Z.eqb_spec count 0); [by apply yields_ret|]. destruct (_ || _); [apply yields_failM|].
  destruct (_ || _); [apply yields_failM|]. destruct (Z.eqb_spec (Z.min (4 * 1024 * 1024) (count * bs)) 0); [apply yields_failM|].
  step Hw by (apply (crc_loop_yields _ dev cur); [exact Hw|nia|nia|nia|
    rewrite Z.add_0_l; apply buffer_fuel_enough; nia]) as r Hr.
  by apply yields_lift.
Qed.

Section Move.
Context (sort_by : (OwnedExtent -> Z) -> list OwnedExtent -> list OwnedExtent) (Hsort : sorts sort_by).
Context (dev : BlockDevice) (ctx : MetadataContext) (base : bytes) (m : OwnerMove).
Context (s : Superblock) (st : Z).
Context (Hs : superblock_fields (slice base 1024 1024) = s) (Hsb : sb ctx = with_state st s).
Context (Hgeo : geometry_ok s) (Hseed : in_width 32 (checksum_seed ctx)) (Hfit : counter_fits (sb ctx)).
Context (Hlen : zlen base < 2 ^ 63) (Hlay : alloc_layout s base) (Htree : tree_layout dev s base (mv_inode m)).
Context (Hkind : mv_kind m = data_extent) (Hino : 0 <= mv_inode m).
Context (Hfirst : first_data_block s <= mv_source_block m).
Context (Hdst : first_data_block s <= mv_destination_block m < 2 ^ 48) (Hn : 0 < mv_block_count m).
Context (Hapart : mv_source_block m + mv_block_count m <= mv_destination_block m \/
                  mv_destination_block m + mv_block_count m <= mv_source_block m).
Context (Hsrc_in : mv_source_block m + mv_block_count m <= blocks_count s).
Context (Hdst_in : mv_destination_block m + mv_block_count m <= blocks_count s).

Abbreviation n := (mv_block_count m).
Abbreviation src := (mv_source_block m).
Abbreviation dst := (mv_destination_block m).

(** The extent that the inode's tree holds for the move. *)
Context (e : OwnedExtent).
Context (He : extent_found sort_by dev base (mv_inode m) (mv_logical_block m) = Some e).
Context (Hused : 1 <= mv_inode m <= inodes_count s).
Context (Hin : e ∈ extents_of dev base s (context_of s (slice base 1024 1024)) 0 (mv_inode m)).
Context (Hroom : entry_room base s e).
Let pos := entry_pos e.

Definition good (img : bytes) : Prop := copy_kept s base m pos img /\ others_kept s base m img.
(** A host in which every power cut leaves a good image. *)
Definition good_host (h : Host) : Prop := forall img, crash_image (file_of h (fd_ dev)) img -> good img.

(** Before the switch, with both copies allocated. *)
Record reserved (img : bytes) : Prop := {
  re_same : meta_same s base img;
  re_source : range_state s img src n true;
  re_destination : range_state s img dst n true;
  re_others : others_kept s base m img
}.
(** After the switch. *)
Record switched (img : bytes) : Prop := {
  sw_layout : alloc_layout s img;
  sw_entry : slice img pos 6 = slice base pos 6;
  sw_pointer : pointer_at img pos = dst;
  sw_apart : meta_apart s img pos 12;
  sw_destination : range_state s img dst n true;
  sw_others : others_kept s base m img
}.

Lemma entry_apart : meta_apart s base pos 12 /\ 0 <= pos.
Proof.
  pose proof Hgeo as [G1 _ _ _ _ _ G7]. destruct (block_size_cases s G1) as [_ Hbs].
  destruct (found_place dev base s _ _ e ltac:(lia) ltac:(lia) Hin Hroom) as (_ & H1 & H2 & _).
  split; [|unfold pos; lia].
  apply (meta_apart_sub s base _ _ _ _ (container_apart dev s base _ e Hgeo Htree Hin Hroom)); unfold pos; lia.
Qed.

Lemma entry_pointer : pointer_at base pos = physical_block e.
Proof.
  pose proof Hgeo as [G1 _ _ _ _ _ G7]. destruct (block_size_cases s G1) as [_ Hbs].
  by destruct (found_place dev base s _ _ e ltac:(lia) ltac:(lia) Hin Hroom) as (-> & _).
Qed.

Lemma entry_head (img img' : bytes) : slice img' pos 12 = slice img pos 12 -> slice img' pos 6 = slice img pos 6.
Proof.
  intros E. pose proof (proj2 entry_apart). apply (f_equal (fun b : bytes => slice b 0 6)) in E.
  rewrite !slice_slice, !Z.add_0_r in E by lia. exact E.
Qed.

Lemma reserved_good img : physical_block e = src -> reserved img -> good img.
Proof.
  intros Ee [Hsame H1 H2 H3]. split; [|done]. destruct entry_apart as [Ha Hp].
  pose proof (ms_slice _ _ _ Hsame pos 12 Ha) as E. split; [by apply entry_head|]. left. split; [|done].
  by rewrite (same_pointer base img pos Hp E), entry_pointer.
Qed.
Lemma switched_good img : switched img -> good img.
Proof. intros [_ H1 H2 _ H3 H4]. split; [|done]. split; [done|]. by right; left. Qed.

Lemma settled_good img h : wstate dev img [] h -> good img -> good_host h.
Proof. intros Hw Hg img' Hc. by rewrite (settled_image _ _ _ _ Hw Hc). Qed.

Lemma base_good : physical_block e = src -> range_state s base src n true -> good base.
Proof.
  intros Ee H. split; [|done]. split; [done|]. left. split; [|done]. by rewrite entry_pointer.
Qed.

(** A torn change of the destination's bits. *)
Lemma reserving_good img :
  physical_block e = src -> range_state s base src n true ->
  alloc_confined (sb ctx) base dst (dst + n) img -> good img.
Proof.
  rewrite Hsb. intros Ee Hu Hc. pose proof (ac_used _ _ _ _ _ Hc) as Hstate.
  pose proof (confined_same _ _ _ _ _ _ Hc) as Hsame. destruct entry_apart as [Ha Hp].
  pose proof (ms_slice _ _ _ Hsame pos 12 Ha) as E. split.
  - split; [by apply entry_head|]. left. split; [by rewrite (same_pointer base img pos Hp E), entry_pointer|].
    intros blk Hb. rewrite <-(Hu blk Hb). apply Hstate; cbn [first_data_block blocks_count with_state]; lia.
  - intros blk Hb _ Hd. by apply Hstate.
Qed.

(** A torn change of the source's bits, after the switch. *)
Lemma releasing_good cur img :
  switched cur -> alloc_confined (sb ctx) cur src (src + n) img -> good img.
Proof.
  rewrite Hsb. intros [H1 H2 H3 H4 H5 H6] Hc. pose proof (ac_used _ _ _ _ _ Hc) as Hstate.
  pose proof (confined_same _ _ _ _ _ _ Hc) as Hsame. destruct entry_apart as [_ Hp].
  pose proof (ms_slice _ _ _ Hsame pos 12 H4) as E. split.
  - split; [by rewrite <-H2; apply entry_head|]. right; left. split; [by rewrite (same_pointer cur img pos Hp E)|].
    intros blk Hb. rewrite <-(H5 blk Hb). apply Hstate; cbn [first_data_block blocks_count with_state]; lia.
  - intros blk Hb Hso Hd. rewrite <-(H6 blk Hb Hso Hd). by apply Hstate.
Qed.

(** The switch itself, where it may be cut. *)
Lemma group_places g : of_group s g -> 0 <= desc_off s g /\ forall img, 0 <= bitmap_off s img g.
Proof.
  intros Hg. assert (Hgeo' : geometry_ok (sb ctx)) by (rewrite Hsb; by apply geometry_state).
  pose proof (desc_off_pos ctx Hgeo' g) as H1. pose proof (fun img => bitmap_off_pos ctx Hgeo' img g) as H2.
  rewrite Hsb in H1, H2. split; [by apply H1|exact H2].
Qed.

Lemma written_used cur w img blk :
  owner_write s cur e dst w -> meta_apart s cur (container_start e) (container_len s e) -> mixture [w] cur img ->
  first_data_block s <= blk < blocks_count s -> block_used img s blk = block_used cur s blk.
Proof.
  intros How Hap Hm Hb. assert (Hgeo' : geometry_ok (sb ctx)) by (rewrite Hsb; by apply geometry_state).
  destruct (group_block ctx Hgeo' blk) as (g & i & Hg & Hi & ->); [by rewrite Hsb|].
  pose proof (used_at ctx Hgeo' img g i Hg Hi) as E1. pose proof (used_at ctx Hgeo' cur g i Hg Hi) as E2.
  rewrite Hsb in E1, E2, Hg. destruct (group_places g Hg) as [P1 P2].
  destruct (written_groups s cur e dst w How Hap img Hm g Hg P1 (P2 cur)) as (_ & _ & E).
  rewrite Hsb. etrans; [exact E1|]. etrans; [|symmetry; exact E2]. f_equal. exact E.
Qed.

Lemma reserved_container cur : reserved cur -> meta_apart s cur (container_start e) (container_len s e).
Proof.
  intros [Hsame _ _ _]. apply (same_apart s base cur Hsame).
  exact (container_apart dev s base _ e Hgeo Htree Hin Hroom).
Qed.

Lemma written_others cur w img :
  reserved cur -> owner_write s cur e dst w -> mixture [w] cur img ->
  range_state s img src n true /\ range_state s img dst n true /\ others_kept s base m img /\
  slice img pos 6 = slice base pos 6.
Proof.
  intros Hr How Hm. pose proof (reserved_container cur Hr) as Hap. destruct Hr as [Hsame H1 H2 H3].
  destruct entry_apart as [Ha _]. pose proof (ms_slice _ _ _ Hsame pos 12 Ha) as E.
  split_and!.
  - intros blk Hb. rewrite (written_used cur w) by (done || lia). by apply H1.
  - intros blk Hb. rewrite (written_used cur w) by (done || lia). by apply H2.
  - intros blk Hb Hso Hd. rewrite (written_used cur w) by (done || lia). by apply H3.
  - rewrite <-(entry_head base cur E). by apply (written_entry s cur e dst w How).
Qed.

Lemma switching_good cur w img :
  reserved cur -> owner_write s cur e dst w -> mixture [w] cur img -> good img.
Proof.
  intros Hr How Hm. destruct (written_others cur w img Hr How Hm) as (H1 & H2 & H3 & H4). split; [|done].
  split; [done|]. right; right. split_and!; [done|done|]. intros i Hi. destruct entry_apart as [Ha Hp].
  pose proof (ms_slice _ _ _ (re_same _ Hr) pos 12 Ha) as E.
  destruct (proj2 (written_entry s cur e dst w How img Hm) i Hi) as [Eb|Eb]; [left|by right].
  unfold pos in *. rewrite Eb. rewrite <-!Z.add_assoc.
  rewrite <-(byte_at_slice cur (entry_pos e) 12), <-(byte_at_slice base (entry_pos e) 12) by lia. by rewrite E.
Qed.

Lemma switched_write cur w : reserved cur -> owner_write s cur e dst w -> switched (put_all [w] cur).
Proof.
  intros Hr How. destruct (written_settled _ _ _ _ _ How) as [Hm Hst]. pose proof (reserved_container cur Hr) as Hap.
  destruct (written_others cur w _ Hr How Hm) as (_ & H2 & H3 & H4). destruct entry_apart as [Ha Hp].
  pose proof (same_layout s base cur (re_same _ Hr) Hlay) as [L1 L2].
  pose proof (same_apart s base cur (re_same _ Hr) pos 12 Ha) as [_ Ha'].
  assert (HG : forall g, of_group s g -> raw_desc (put_all [w] cur) s g = raw_desc cur s g /\
    bitmap_off s (put_all [w] cur) g = bitmap_off s cur g).
  { intros g Hg. destruct (group_places g Hg) as [P1 P2].
    by destruct (written_groups s cur e dst w How Hap _ Hm g Hg P1 (P2 cur)) as (? & ? & _). }
  split; [split|done| | |done|done].
  - intros g g' Hg Hg'. rewrite (proj2 (HG g Hg)). by apply L1.
  - intros g g' Hg Hg'. rewrite !desc_at_raw, (proj1 (HG g Hg)), (proj1 (HG g' Hg')). by apply L2.
  - pose proof (geo_first s Hgeo). apply pointer_start; [done|lia|exact Hst].
  - split; [done|]. intros g Hg. rewrite (proj2 (HG g Hg)). by apply Ha'.
Qed.

(** The four steps of the commit. *)

Lemma state_range img start (v : bool) :
  forallb (fun blk => Bool.eqb (block_used img (sb ctx) blk) v) (seqZ start n) = true <-> range_state s img start n v.
Proof.
  rewrite forallb_forall, Hsb. unfold range_state. split; intros H blk Hb.
  - apply eqb_prop. apply (H blk). apply list_elem_of_In, elem_of_seqZ. lia.
  - apply list_elem_of_In, elem_of_seqZ in Hb. apply eqb_true_iff. apply (H blk). lia.
Qed.

Lemma change_range cur start v j h :
  ready dev cur j h -> alloc_layout s cur -> first_data_block s <= start -> start + n <= blocks_count s ->
  (forall img, alloc_confined (sb ctx) cur start (start + n) img -> good img) ->
  ends (set_allocation_range dev ctx start n v) h good_host (fun _ h' => exists img, ready dev img j h' /\
    alloc_confined (sb ctx) cur start (start + n) img /\
    forall blk, first_data_block s <= blk < blocks_count s ->
      block_used img s blk = if (start <=? blk) && (blk <? start + n) then v else block_used cur s blk).
Proof.
  intros Hr Hl H1 H2 Hg. pose proof Hr as (Hw & _).
  assert (Hgeo' : geometry_ok (sb ctx)) by (rewrite Hsb; by apply geometry_state).
  assert (Hl' : alloc_layout (sb ctx) cur) by (rewrite Hsb; destruct Hl as [L1 L2]; by split).
  eapply ends_mono; [eapply ends_runs, (set_allocation_range_spec dev ctx Hgeo' Hseed Hfit cur start n v h Hw);
    [rewrite Hsb; exact H1|exact Hn|rewrite Hsb; exact H2|exact Hl']|..].
  - intros h' Hs' img Hc. apply Hg. by eapply update_stop_crash.
  - intros [] h' (Ho & ws & Hw' & Hall & Hins & Hup). eexists. split; [by eapply ready_device|]. split.
    + apply (confined_mixture ctx Hgeo' cur Hl' _ _ ws); [done|done|by apply mixture_put_all].
    + intros blk Hb. pose proof (au_used _ _ _ _ _ _ Hup) as Hu. rewrite Hsb in Hu. by apply Hu.
Qed.

Lemma journal_step cur (o : J unit) j h :
  ready dev cur j h -> safe o j -> good cur -> ends (run_on o j) h good_host (ready dev cur).
Proof. intros Hr Ho Hg. apply ready_journal; [done|done|]. intros h' Hw. by eapply settled_good. Qed.

Lemma reserve_spec j h :
  physical_block e = src -> ready dev base j h -> range_state s base src n true ->
  let st := mkRangeState (forallb (fun blk => Bool.eqb (block_used base (sb ctx) blk) true) (seqZ dst n))
              (forallb (fun blk => Bool.eqb (block_used base (sb ctx) blk) false) (seqZ dst n)) in
  ends (reserve_destination dev ctx st m j) h good_host (fun j' h' => exists cur, ready dev cur j' h' /\ reserved cur).
Proof.
  intros Ee Hr Hu. cbv zeta. unfold reserve_destination. cbn [all_set all_clear].
  pose proof (base_good Ee Hu) as Hg. pose proof Hr as (Hw & _).
  destruct (forallb _ _) eqn:Eset.
  { apply state_range in Eset. apply ends_ret. exists base. split; [done|]. split; [|done..].
    split; [done|done|]. intros g _. by split. }
  destruct (negb _); [apply ends_fail; by eapply settled_good|].
  eapply ends_bind; [apply (change_range base dst true j h Hr Hlay); [lia|lia|intros img; by apply reserving_good]|].
  intros _ h1 (cur & Hr1 & Hc & Hb). pose proof Hc as Hc'. rewrite Hsb in Hc'.
  assert (Hres : reserved cur).
  { split; [by eapply confined_same| | |].
    - intros blk Hblk. rewrite Hb by lia. destruct (_ && _); [done|]. by apply Hu.
    - intros blk Hblk. rewrite Hb by lia. destruct (_ && _) eqn:E; [done|lia].
    - intros blk Hblk Hso Hd. rewrite Hb by lia. destruct (_ && _) eqn:E; [lia|done]. }
  eapply ends_mono; [apply (journal_step cur); [done|by apply safe_append_batch|by apply reserved_good]|done|].
  intros j' h' Hr'. by exists cur.
Qed.

Lemma switch_spec bs crc cur j h :
  0 <= bs -> physical_block e = src -> ready dev cur j h -> reserved cur ->
  ends (switch_owner sort_by dev ctx bs crc m j) h good_host
    (fun j' h' => exists cur', ready dev cur' j' h' /\ switched cur').
Proof.
  intros Hbs Ee Hr Hres. unfold switch_owner. rewrite Hkind.
  pose proof (geo_first s Hgeo) as Hpos. pose proof (reserved_good cur Ee Hres) as Hg.
  assert (Hstop : forall h h', ready dev cur j h -> quiet h h' -> good_host h').
  { intros h1 h2 Hr1 Hq. eapply settled_good; [|exact Hg]. by apply (ready_quiet dev cur j h1). }
  eapply (ends_bind _ _ _ _ (fun _ h' => exists cur', ready dev cur' j h' /\ switched cur')).
  2: { intros _ h1 (cur' & Hr1 & Hsw). eapply ends_mono;
         [apply (journal_step cur'); [exact Hr1|apply safe_append_batch|by apply switched_good]|done|].
       intros j' h' Hr'. by exists cur'. }
  eapply (ends_bind _ _ _ _ (fun _ h' => ready dev cur j h')).
  { destruct (mv_unwritten m); [by apply ends_ret|].
    estep Hr by (apply (extent_crc_yields dev cur); [apply Hr|lia|lia|exact Hbs]) stop (by eapply Hstop) as c Hc.
    destruct (negb _); [apply ends_fail; by eapply (Hstop _ _ Hr), quiet_refl|by apply ends_ret]. }
  intros _ h1 Hr1. pose proof (re_same _ Hres) as Hsame.
  assert (Es : slice cur 1024 1024 = slice base 1024 1024) by (by apply (same_super dev s base cur Hsame (mv_inode m))).
  assert (Ef : extent_found sort_by dev cur (mv_inode m) (mv_logical_block m) = Some e).
  { rewrite <-He. by apply (same_found dev s base cur Hgeo Hsame). }
  eapply ends_mono; [eapply ends_runs, (update_data_owner_spec sort_by dev ctx cur st m dst h1)|..];
    try (rewrite Es, Hs; done); [exact Hsort|apply Hr1|exact Hseed|by rewrite (ms_len _ _ _ Hsame)|exact Hino|..].
  - intros h' [Hun|(e' & Ee' & _ & Hstop')] img Hc.
    + by rewrite (settled_crash _ _ _ _ Hun Hc).
    + rewrite Ef in Ee'. injection Ee' as <-. destruct Hstop' as [Hun|(w & How & Hun)].
      { by rewrite (settled_crash _ _ _ _ Hun Hc). }
      rewrite Hsb in How. apply owner_write_state in How. destruct Hun as [Hun|Hun].
      * apply (switching_good cur w); [done..|]. by eapply unsettled_crash.
      * rewrite (settled_crash _ _ _ _ Hun Hc). by apply switched_good, switched_write.
  - intros [] h' (Ho & e' & Ee' & _ & _ & [[Eb _]|(_ & w & How & Hw')]); rewrite Ef in Ee'; injection Ee' as <-; [lia|].
    rewrite Hsb in How. apply owner_write_state in How. exists (put_all [w] cur).
    split; [by eapply ready_device|by apply switched_write].
Qed.

Lemma release_spec cur j h :
  ready dev cur j h -> switched cur ->
  ends (release_source dev ctx m j) h good_host
    (fun j' h' => exists cur', ready dev cur' j' h' /\ switched cur' /\ range_state s cur' src n false).
Proof.
  intros Hr Hsw. unfold release_source. pose proof (switched_good cur Hsw) as Hg.
  assert (Hgeo' : geometry_ok (sb ctx)) by (rewrite Hsb; by apply geometry_state).
  assert (Hstop : forall h h', ready dev cur j h -> quiet h h' -> good_host h').
  { intros h1 h2 Hr1 Hq. eapply settled_good; [|exact Hg]. by apply (ready_quiet dev cur j h1). }
  estep Hr by (apply (allocation_state_spec dev ctx Hgeo' cur); [apply Hr|rewrite Hsb; exact Hfirst|lia])
    stop (by eapply Hstop) as st' Hst. destruct Hst as (_ & _ & ->). cbn [all_clear all_set].
  destruct (forallb _ _) eqn:Ec.
  { apply state_range in Ec. apply ends_ret. by exists cur. }
  destruct (negb _); [apply ends_fail; by eapply (Hstop _ _ Hr), quiet_refl|].
  eapply ends_bind; [apply (change_range cur src false j _ Hr (sw_layout _ Hsw) Hfirst Hsrc_in);
    intros img; by apply releasing_good|].
  intros _ h1 (cur' & Hr1 & Hc & Hb). pose proof Hc as Hc'. rewrite Hsb in Hc'.
  pose proof (confined_same _ _ _ _ _ _ Hc') as Hsame. destruct entry_apart as [_ Hp].
  destruct Hsw as [S1 S2 S3 S4 S5 S6]. pose proof (ms_slice _ _ _ Hsame pos 12 S4) as E.
  assert (Hsw' : switched cur').
  { split.
    - by apply (same_layout s cur cur').
    - rewrite <-S2. by apply entry_head.
    - by rewrite (same_pointer cur cur' pos Hp E).
    - by apply (same_apart s cur cur').
    - intros blk Hblk. rewrite Hb by lia. destruct (_ && _) eqn:Eb; [lia|]. by apply S5.
    - intros blk Hblk Hso Hd. rewrite Hb by lia. destruct (_ && _) eqn:Eb; [lia|]. by apply S6. }
  eapply ends_mono; [apply (journal_step cur'); [exact Hr1|apply safe_append_batch|by apply switched_good]|done|].
  intros j' h' Hr'. exists cur'. split_and!; [done|done|]. intros blk Hblk.
  rewrite Hb by lia. destruct (_ && _) eqn:Eb; [done|lia].
Qed.

(** The rest of the loop's body, once the states and the owner are read. *)
Lemma commit_rest_spec bs crc j h :
  0 <= bs -> ready dev base j h ->
  let st start := mkRangeState (forallb (fun blk => Bool.eqb (block_used base (sb ctx) blk) true) (seqZ start n))
                    (forallb (fun blk => Bool.eqb (block_used base (sb ctx) blk) false) (seqZ start n)) in
  let owner := physical_block e in
  ends
    (if negb (owner =? src) && negb (owner =? dst)
     then failM unsafe "owner mapping is inconsistent with relocation journal"
     else if (owner =? src) && negb (all_set (st src))
     then failM corrupt "authoritative source extent is not fully allocated"
     else if (owner =? dst) && negb (all_set (st dst))
     then failM corrupt "authoritative destination extent is not fully allocated"
     else
       j ← reserve_destination dev ctx (st dst) m j;
       j ← (if owner =? src then switch_owner sort_by dev ctx bs crc m j else mret j);
       j ← release_source dev ctx m j;
       run_on (append (move_record metadata_committed m)) j) h
    (fun h' => wstate dev base [] h' \/ good_host h')
    (fun j' h' => exists cur, ready dev cur j' h' /\ switched cur /\ range_state s cur src n false).
Proof.
  intros Hbs Hr. cbv zeta. cbn [all_set]. pose proof Hr as (Hw & _).
  destruct (negb _ && negb _) eqn:E1; [apply ends_fail; by left|].
  destruct ((_ =? src) && _) eqn:E2; [apply ends_fail; by left|].
  destruct ((_ =? dst) && _) eqn:E3; [apply ends_fail; by left|].
  eapply (ends_bind _ _ _ _ (fun j' h' => physical_block e = src /\ (exists cur, ready dev cur j' h' /\ reserved cur) \/
    physical_block e = dst /\ ready dev base j' h' /\ switched base)).
  { destruct (Z.eqb_spec (physical_block e) src) as [Es|Es].
    - cbn [andb] in E2. apply negb_false_iff, state_range in E2.
      eapply ends_mono; [by apply reserve_spec|by right|]. intros j' h' H. by left.
    - destruct (Z.eqb_spec (physical_block e) dst) as [Ed|Ed]; [|done]. cbn [andb] in E3. apply negb_false_iff in E3.
      unfold reserve_destination. cbn [all_set]. rewrite E3. apply ends_ret. right. split_and!; [done|done|].
      apply state_range in E3. destruct entry_apart as [Ha _]. split; [done|done|by rewrite entry_pointer|done|done|done]. }
  clear Hr Hw h. intros j1 h1 Hr1.
  eapply (ends_bind _ _ _ _ (fun j' h' => exists cur, ready dev cur j' h' /\ switched cur)).
  { destruct Hr1 as [(Es & cur & Hr1 & Hres)|(Ed & Hr1 & Hsw)].
    - rewrite (proj2 (Z.eqb_eq _ _) Es). eapply ends_mono; [by apply (switch_spec bs crc cur)|by right|done].
    - rewrite (proj2 (Z.eqb_neq _ _)) by lia. apply ends_ret. by exists base. }
  clear Hr1 h1. intros j2 h2 (cur & Hr2 & Hsw).
  eapply ends_bind; [eapply ends_mono; [by apply (release_spec cur)|by right|intros j' h' H; exact H]|].
  clear cur Hr2 Hsw h2. intros j3 h3 (cur & Hr3 & Hsw & Hfree).
  eapply ends_mono; [apply (journal_step cur); [exact Hr3|apply safe_append_batch|by apply switched_good]|by right|].
  intros j' h' Hr'. by exists cur.
Qed.
End Move.

Lemma find_extent_at sort_by dev base ino logical h s :
  sorts sort_by -> wstate dev base [] h -> 0 <= ino -> superblock_fields (slice base 1024 1024) = s ->
  yields (find_inode_extent sort_by dev ino logical) h (fun e =>
    extent_found sort_by dev base ino logical = Some e /\ used_inode base s ino /\
    e ∈ extents_of dev base s (context_of s (slice base 1024 1024)) 0 ino /\ entry_room base s e).
Proof.
  intros Hsort Hw Hino <-. eapply yields_mono; [by apply (find_extent_spec sort_by dev base)|].
  intros e (Hf & Hu & _ & Hr). destruct (extent_found_in sort_by dev base _ _ e Hsort Hf) as [Hin _].
  split_and!; [exact Hf|exact Hu|exact Hin|]. exact (proj1 (list.Forall_forall _ _) Hr e Hin).
Qed.

(** An extent as the move describes it. *)
Definition moved_extent (sort_by : (OwnedExtent -> Z) -> list OwnedExtent -> list OwnedExtent)
    (dev : BlockDevice) (base : bytes) (m : OwnerMove) (e : OwnedExtent) : Prop :=
  extent_found sort_by dev base (mv_inode m) (mv_logical_block m) = Some e /\
  logical_block e = mv_logical_block m /\ o_length e = mv_block_count m.

Section Whole.
Context (sort_by : (OwnedExtent -> Z) -> list OwnedExtent -> list OwnedExtent) (Hsort : sorts sort_by).
Context (dev : BlockDevice) (ctx : MetadataContext) (base : bytes) (m : OwnerMove) (s : Superblock).
Context (Hs : superblock_fields (slice base 1024 1024) = s).

(** Where the commit may stop, and what it leaves when it returns. *)
Definition move_stop (h' : Host) : Prop :=
  forall img, crash_image (file_of h' (fd_ dev)) img ->
    img = base \/ exists e, moved_extent sort_by dev base m e /\
      copy_kept s base m (entry_pos e) img /\ others_kept s base m img.
Definition move_done (j' : TransactionJournal) (h' : Host) : Prop :=
  exists e img, moved_extent sort_by dev base m e /\ ready dev img j' h' /\
    slice img (entry_pos e) 6 = slice base (entry_pos e) 6 /\
    pointer_at img (entry_pos e) = mv_destination_block m /\
    range_state s img (mv_destination_block m) (mv_block_count m) true /\
    range_state s img (mv_source_block m) (mv_block_count m) false /\
    others_kept s base m img.

Lemma settled_stop h h' j : ready dev base j h -> quiet h h' -> move_stop h'.
Proof.
  intros Hr Hq img Hc. left. destruct (ready_quiet dev base j h h' Hr Hq) as (Hw & _). by eapply settled_image.
Qed.

Lemma commit_move_spec bs crc j h :
  move_setting dev ctx base m s -> 0 <= bs -> ready dev base j h ->
  ends (commit_move sort_by dev ctx bs crc m j) h move_stop move_done.
Proof.
  intros [M1 M2 M3 M4 M5 M6 M7 M8 M9 M10 M11 M12 M13] Hbs Hr.
  assert (Hgeo : geometry_ok (sb ctx)) by (rewrite M1; by apply geometry_state).
  assert (F : first_data_block (sb ctx) = first_data_block s /\ blocks_count (sb ctx) = blocks_count s) by (by rewrite M1).
  destruct F as [F1 F2]. unfold commit_move.
  estep Hr by (apply (allocation_state_spec dev ctx Hgeo base); [apply Hr|lia|exact M12])
    stop (by eapply settled_stop) as st1 Hst1. destruct Hst1 as (Hn & Hb1 & ->).
  estep Hr by (apply (allocation_state_spec dev ctx Hgeo base); [apply Hr|lia|exact M12])
    stop (by eapply settled_stop) as st2 Hst2. destruct Hst2 as (_ & Hb2 & ->).
  eapply (ends_bind _ _ _ _ (fun owner h' => ready dev base j h' /\ exists e, moved_extent sort_by dev base m e /\
    owner = physical_block e /\ used_inode base s (mv_inode m) /\
    e ∈ extents_of dev base s (context_of s (slice base 1024 1024)) 0 (mv_inode m) /\ entry_room base s e)).
  { unfold current_owner. rewrite M8. unfold current_data_owner.
    estep Hr by (by apply (find_extent_at sort_by dev base _ _ _ s); try apply Hr) stop (by eapply settled_stop) as e He.
    destruct He as (Hf & Hused & Hin & Hroom).
    destruct (_ || _) eqn:Eg; [apply ends_fail; by eapply (settled_stop _ _ j Hr), quiet_refl|].
    apply orb_false_iff in Eg as [Eg1%negb_false_iff%Z.eqb_eq Eg2%negb_false_iff%Z.eqb_eq].
    apply ends_ret. split; [exact Hr|]. exists e. by split_and!. }
  clear Hr. intros owner hr (Hr & e & Hext & -> & Hused & Hin & Hroom).
  eapply ends_mono; [apply (commit_rest_spec sort_by Hsort dev ctx base m s (state (sb ctx)) Hs M1 M2 M3 M4 M5 M6 M7 M8 M9);
    first [exact (proj1 Hext)|exact (proj1 Hused)|exact Hin|exact Hroom|exact Hr|done|lia]|..].
  - intros h' [Hw|Hg] img Hc; [left; by eapply settled_image|]. right. exists e. split; [done|exact (Hg img Hc)].
  - intros j' h' (img & Hr' & [_ S2 S3 _ S5 S6] & Hfree). by exists e, img.
Qed.
End Whole.


(** The file system of [demo_ext4] with a file, the inode 12, of one block, the
    block 10, and its move to the block 7. *)
Definition demo_move_fs : bytes :=
  let put16 o v b := write_le16 b o v in
  let put32 o v b := write_le32 b o v in
  let inode := 5120 + 11 * 128 in
  put16 4097 8 (put16 inode 0x8180 (put16 (inode + 26) 1 (put32 (inode + 32) EXT4_EXTENTS_FL
    (put16 (inode + 40) EXTENT_MAGIC (put16 (inode + 42) 1 (put16 (inode + 44) 4
      (put16 (inode + 56) 1 (put32 (inode + 60) 10 demo_ext4)))))))).
Definition demo_move : OwnerMove := mkOwnerMove data_extent 1 12 0 10 7 1 false 0.
Definition demo_move_journal : TransactionJournal :=
  mkJournal (mkDevice 2 "j" (mkGeometry demo_size 512 512 false false) true) (fresh_status demo_identity) true.
Definition demo_move_host : Host :=
  mkHost {[1 := mkFile Regular demo_move_fs []; 2 := demo_journal_file]} ∅ ∅ 3 [] demo_fault [] [] 0 demo_env.
Definition demo_commit : M TransactionJournal :=
  commit_move merge_by demo_ext4_device demo_ext4_context 1024
    (Z.lxor (crc32c (zeros 1024) 0xffffffff) 0xffffffff) demo_move demo_move_journal.

Lemma demo_move_setting :
  move_setting demo_ext4_device demo_ext4_context demo_move_fs demo_move
    (superblock_fields (slice demo_move_fs 1024 1024)).
Proof.
  assert (Hg : forall g, of_group (superblock_fields (slice demo_move_fs 1024 1024)) g -> g = 0).
  { intros g Hg. assert (E : groups_count (superblock_fields (slice demo_move_fs 1024 1024)) = 1) by by vm_compute.
    unfold of_group in Hg. rewrite E in Hg. lia. }
  split.
  - by vm_compute.
  - apply (superblock_geometry _ 16384). by vm_compute.
  - by vm_compute.
  - right. by vm_compute.
  - by vm_compute.
  - split; intros g g' ->%Hg ->%Hg; [|done]. left. by vm_compute.
  - split.
    + split; [done|]. intros g ->%Hg. split; left; by vm_compute.
    + split; [by vm_compute|]. intros g ->%Hg. split; right; by vm_compute.
    + assert (E : trees_of demo_ext4_device demo_move_fs (superblock_fields (slice demo_move_fs 1024 1024))
        (context_of (superblock_fields (slice demo_move_fs 1024 1024)) (slice demo_move_fs 1024 1024)) 12 = [])
        by by vm_compute.
      change (mv_inode demo_move) with 12. rewrite E. by apply Forall_nil.
  - done.
  - done.
  - by vm_compute.
  - split; by vm_compute.
  - done.
  - by right.
Qed.

