(* ===== verification/Resize.v ===== *)
(** Changing the size of an ext file system inside its last block group
    (include/fsx/ext4_resize.hpp, src/ext4/resize.cpp).  The progress callbacks
    only report and are left out. *)
From S2P Require Import Prelude Words Errors Endian Crc Host Device Uuid Safety JournalFormat Journal JournalUse.
From S2P Require Import Ext4 Allocation Metadata MetadataCheck RelocatePlan.
#[local] Open Scope Z_scope.

Definition COMPAT_SPARSE_SUPER2 : Z := 0x0200.
Definition RO_SPARSE_SUPER : Z := 0x0001.

(** [n] is a power of [base]; every round divides [n] by at least 2. *)
Fixpoint is_power_loop (fuel : nat) (n base : Z) : bool :=
  match fuel with
  | O => n =? 1
  | S fuel => if n mod base =? 0 then is_power_loop fuel (n / base) base else n =? 1
  end.
Definition is_power (n base : Z) : bool :=
  if n <? 1 then false else is_power_loop (Z.to_nat (Z.log2 n) + 1) n base.

(** The groups that hold a copy of the superblock, as the superblock says. *)
Definition group_has_super (sb : bytes) (group : Z) : bool :=
  if group =? 0 then true
  else
    let compat := read_le32 sb 0x5c in
    let ro := read_le32 sb 0x64 in
    if has_flag compat COMPAT_SPARSE_SUPER2
    then (group =? read_le32 sb 0x24c) || (group =? read_le32 sb 0x250)
    else if negb (has_flag ro RO_SPARSE_SUPER) then true
    else if group =? 1 then true
    else is_power group 3 || is_power group 5 || is_power group 7.

Definition set_bit (bm : bytes) (bit : Z) : bytes :=
  let by_ := Z.shiftr bit 3 in
  let sh := Z.land bit 7 in
  <[Z.to_nat by_ := byte.of_Z (Z.lor (byte_at bm by_) (u8 (Z.shiftl 1 sh)))]> bm.
Definition clear_bit (bm : bytes) (bit : Z) : bytes :=
  let by_ := Z.shiftr bit 3 in
  let sh := Z.land bit 7 in
  <[Z.to_nat by_ := byte.of_Z (Z.land (byte_at bm by_) (u8 (Z.lnot (Z.shiftl 1 sh))))]> bm.

Definition desc_free (gd : bytes) : Z :=
  let v := read_le16 gd 12 in
  if 46 <=? zlen gd then Z.lor v (u32 (Z.shiftl (read_le16 gd 44) 16)) else v.
Definition set_desc_free (gd : bytes) (v : Z) : bytes :=
  let gd := write_le16 gd 12 (u16 v) in
  if 46 <=? zlen gd then write_le16 gd 44 (u16 (Z.shiftr v 16)) else gd.
Definition set_u64_lohi (b : bytes) (lo hi v : Z) : bytes :=
  write_le32 (write_le32 b lo (u32 v)) hi (u32 (Z.shiftr v 32)).

(** The loop over the groups behind the first that hold a copy. *)
Fixpoint super_copies (n : nat) (dev : BlockDevice) (ctx : MetadataContext) (primary : bytes) (g : Z)
    : M unit :=
  match n with
  | O => mret tt
  | S n =>
      (if negb (group_has_super primary g) then mret tt
       else
         let start := group_start_block (sb ctx) g in
         if (blocks_count (sb ctx) <=? start) || (u64_max / block_size (sb ctx) <? start)
         then failM corrupt "backup superblock address is outside filesystem"
         else
           copy ← lift (update_superblock_checksum (write_le16 primary 0x5a (u16 g)));
           write_exact dev (start * block_size (sb ctx)) copy);;
      super_copies n dev ctx primary (g + 1)
  end.

Definition write_super_copies (dev : BlockDevice) (ctx : MetadataContext) (primary : bytes) : M unit :=
  if block_size (sb ctx) =? 0
  then failM corrupt "invalid ext4 block size while updating backup superblocks"
  else
    write_raw_superblock dev primary;;
    super_copies (Z.to_nat (groups_count (sb ctx) - 1)) dev ctx primary 1;;
    Device.flush dev.

Fixpoint desc_backups (n : nat) (dev : BlockDevice) (ctx : MetadataContext) (super : bytes)
    (desc_off : Z) (desc : bytes) (g : Z) : M unit :=
  match n with
  | O => mret tt
  | S n =>
      (if negb (group_has_super super g) then mret tt
       else
         let bs := block_size (sb ctx) in
         let start := group_start_block (sb ctx) g in
         if (u64 (blocks_count (sb ctx) - 1) <=? start) || (u64_max / bs <? u64 (start + 1))
         then failM corrupt "backup descriptor table address is outside filesystem"
         else
           let base := u64 (start + 1) * bs in
           if u64_max - base <? desc_off then failM corrupt "backup descriptor address overflows"
           else write_exact dev (base + desc_off) desc);;
      desc_backups n dev ctx super desc_off desc (g + 1)
  end.

Definition write_group_desc_backups (dev : BlockDevice) (ctx : MetadataContext) (super : bytes)
    (desc_group : Z) (desc : bytes) : M unit :=
  let bs := block_size (sb ctx) in
  let ds := desc_bytes (sb ctx) in
  if (bs =? 0) || (ds =? 0) || (bs <? ds) then failM corrupt "invalid ext4 group descriptor geometry"
  else if u64_max / ds <? desc_group then failM corrupt "backup descriptor offset overflows"
  else desc_backups (Z.to_nat (groups_count (sb ctx) - 1)) dev ctx super (desc_group * ds) desc 1.

(** ** Readiness for a shrink *)

Record ShrinkReadiness := mkReadiness {
  current_blocks : Z;
  rd_target_blocks : Z;
  current_groups : Z;
  target_groups : Z;
  allocated_tail_blocks : Z;
  allocated_inodes_in_removed_groups : Z;
  fixed_metadata_tail_blocks : Z;
  requires_inode_relocation : bool;
  metadata_only_finalize_possible : bool;
  blockers : list string
}.
Record FinalizeOptions := mkFinalizeOptions {
  fo_journal_path : string;
  fo_allow_block_device : bool
}.
Record GrowOptions := mkGrowOptions {
  go_allow_block_device : bool;
  go_verify_after : bool
}.
Record GrowReport := mkGrowReport {
  old_blocks : Z;
  new_blocks : Z;
  blocks_added : Z;
  free_blocks_after : Z;
  verified : bool
}.

(** The groups that [blocks] blocks need. *)
Definition groups_for (s : Superblock) (blocks : Z) : Z :=
  let data := if first_data_block s <? blocks then blocks - first_data_block s else 0 in
  if blocks_per_group s =? 0 then 0 else u64 (data + blocks_per_group s - 1) / blocks_per_group s.

(** The used inodes of the groups that would be removed. *)
Fixpoint removed_inodes (n : nat) (dev : BlockDevice) (s : Superblock) (g count : Z) : M Z :=
  match n with
  | O => mret count
  | S n =>
      gd ← read_group_desc dev s g;
      if has_flag (flags gd) BG_INODE_UNINIT then removed_inodes n dev s (g + 1) count
      else
        ib ← read_inode_bitmap dev s gd;
        let base := u64 (g * inodes_per_group s + 1) in
        let remain := if base <=? inodes_count s then inodes_count s - base + 1 else 0 in
        let used := count_bits ib (Z.min (inodes_per_group s) remain) in
        removed_inodes n dev s (g + 1) (u64 (count + used))
  end.

(** The blocks of bitmaps and inode tables at or above the target. *)
Definition fixed_tail_of (s : Superblock) (target : Z) (gd : GroupDesc) (count : Z) : Z :=
  let mark b n := if (target <=? b) && (b <? blocks_count s) then u64 (n + 1) else n in
  let count := mark (inode_bitmap gd) (mark (block_bitmap gd) count) in
  let a := Z.max (inode_table gd) target in
  let z := Z.min (u64 (inode_table gd + inode_table_blocks s)) (blocks_count s) in
  if a <? z then u64 (count + (z - a)) else count.
Fixpoint fixed_tail (n : nat) (dev : BlockDevice) (s : Superblock) (target g count : Z) : M Z :=
  match n with
  | O => mret count
  | S n =>
      gd ← read_group_desc dev s g;
      fixed_tail n dev s target (g + 1) (fixed_tail_of s target gd count)
  end.

Definition analyze_shrink_readiness (dev : BlockDevice) (target_bytes : Z) : M ShrinkReadiness :=
  s ← read_superblock dev;
  if sb_size_bytes s <=? target_bytes
  then failM invalid_argument "target is not smaller than filesystem"
  else if negb (target_bytes mod block_size s =? 0)
  then failM invalid_argument "target must be aligned to filesystem block size"
  else
    let target := target_bytes / block_size s in
    let groups := groups_count s in
    let tgroups := groups_for s target in
    let removes := tgroups <? groups in
    inodes ← (if removes then removed_inodes (Z.to_nat (groups - tgroups)) dev s tgroups 0 else mret 0);
    let b1 := if removes
              then if negb (inodes =? 0)
                   then [pretty inodes +:+ " allocated inodes must be renumbered out of removed block groups"]
                   else ["target removes block groups; inode-table/group removal engine is not enabled yet"]
              else [] in
    graph ← build_allocation_graph dev None;
    let tail := allocated_tail (allocated graph) target in
    fixed ← fixed_tail (Z.to_nat groups) dev s target 0 0;
    let b2 := if negb (tail =? 0) then [pretty tail +:+ " allocated blocks remain at or above target"] else [] in
    let b3 := if negb (fixed =? 0)
              then [pretty fixed +:+ " fixed metadata blocks remain at or above target"] else [] in
    mret (mkReadiness (blocks_count s) target groups tgroups tail inodes fixed removes
            ((tgroups =? groups) && (tail =? 0) && (fixed =? 0)) (b1 ++ b2 ++ b3)).

(** ** The changes *)

(** [JournalRecord{}] with a type. *)
Definition plain_record (t : JournalRecordType) : JournalRecord := mkRecord t 0 0 0 0 0 0 0 0 0.

(** The superblock with another state, sealed. *)
Definition with_clean (sbraw : bytes) (st : Z) (clean : bool) : Result bytes :=
  update_superblock_checksum
    (write_le16 sbraw 0x3a (if clean then u16 (Z.lor st 1) else u16 (Z.land st (Z.lnot 1)))).

(** The last group's bitmap and descriptor, their backups, and a flush. *)
Definition write_last_group (dev : BlockDevice) (ctx : MetadataContext) (sbraw : bytes) (last : Z)
    (gd : GroupDesc) (gdr bm : bytes) : M unit :=
  let gdr := update_block_bitmap_checksum ctx gdr bm in
  gdr ← lift (update_group_descriptor_checksum ctx last gdr);
  write_exact dev (u64 (block_bitmap gd * block_size (sb ctx))) bm;;
  write_group_descriptor_raw dev ctx last gdr;;
  write_group_desc_backups dev ctx sbraw last gdr;;
  Device.flush dev.

(** The loop over the tail: the bits behind the target are set. *)
Fixpoint mark_tail (n : nat) (gs b : Z) (bm : bytes) : Result bytes :=
  match n with
  | O => Ok bm
  | S n =>
      if b <? gs then mark_tail n gs (b + 1) bm
      else if bit_set bm (b - gs)
      then fail corrupt "tail block became allocated after shrink readiness check"
      else mark_tail n gs (b + 1) (set_bit bm (b - gs))
  end.

(** The new sizes of the superblock of a shrink. *)
Definition shrunk_super (s : Superblock) (sbraw : bytes) (target removed : Z) : bytes :=
  let reserved := if target <? reserved_blocks s then target / 20 else reserved_blocks s in
  set_u64_lohi (set_u64_lohi (set_u64_lohi sbraw 0x04 0x150 target) 0x0c 0x158 (free_blocks s - removed))
    0x08 0x154 reserved.

(** The changes of a shrink, behind the checks. *)
Definition shrink_changes (dev : BlockDevice) (ctx : MetadataContext) (target_bytes : Z)
    (j : TransactionJournal) : M unit :=
  let s := sb ctx in
  sbraw ← read_raw_superblock dev;
  let st := read_le16 sbraw 0x3a in
  sbraw ← lift (with_clean sbraw st false);
  write_super_copies dev ctx sbraw;;
  j ← run_on (append (plain_record filesystem_marked_dirty)) j;
  j ← run_on (checkpoint metadata_finalize) j;
  let target := target_bytes / block_size s in
  let removed := u64 (blocks_count s - target) in
  let last := u64 (groups_count s - 1) in
  gd ← read_group_desc dev s last;
  gdr ← read_group_descriptor_raw dev ctx last;
  bm ← read_block_bitmap dev s gd;
  bm ← lift (mark_tail (Z.to_nat (blocks_count s - target)) (group_start_block s last) target bm);
  let oldfree := desc_free gdr in
  if oldfree <? removed then failM corrupt "last group free count is smaller than removed tail"
  else
    write_last_group dev ctx sbraw last gd (set_desc_free gdr (u32 (oldfree - removed))) bm;;
    if free_blocks s <? removed then failM corrupt "superblock free count smaller than shrink tail"
    else
      sbraw ← lift (with_clean (shrunk_super s sbraw target removed) st false);
      write_super_copies dev ctx sbraw;;
      v ← verify_metadata dev false;
      if negb (m_clean v)
      then failM corrupt "post-shrink metadata verification failed; filesystem intentionally left unclean"
      else
        sbraw ← lift (with_clean sbraw st true);
        write_super_copies dev ctx sbraw;;
        j ← run_on (append (plain_record filesystem_marked_clean)) j;
        run_on (checkpoint filesystem_shrunk) j;;
        mret tt.

Definition finalize_phase (p : OperationPhase) : bool :=
  bool_decide (p = compacted) || bool_decide (p = staged).

Definition finalize_metadata_only_shrink (dev : BlockDevice) (target_bytes : Z) (o : FinalizeOptions)
    : M unit :=
  if bool_decide (fo_journal_path o = "")
  then failM invalid_argument "shrink finalization requires --journal=FILE"
  else
    require_offline_for_write dev;;
    ds ← inspect_device_safety dev;
    if block_device ds && negb (fo_allow_block_device o)
    then failM unsafe "block-device shrink requires --allow-block-device"
    else
      ready ← analyze_shrink_readiness dev target_bytes;
      if negb (metadata_only_finalize_possible ready)
      then failM unsupported (match blockers ready with
                              | b :: _ => b
                              | [] => "target requires unsupported block-group relocation" end)
      else
        ctx ← load_metadata_context dev false;
        if has_flag (feature_incompat (sb ctx)) INCOMPAT_META_BG
           || has_flag (feature_ro_compat (sb ctx)) RO_COMPAT_BIGALLOC
        then failM unsupported "metadata-only shrink refuses meta_bg and bigalloc"
        else
          j ← Journal.open (fo_journal_path o) true;
          fu ← lift (parse_uuid (uuid (sb ctx)));
          let id := identity (status_ j) in
          if negb (bool_decide (filesystem_uuid id = fu)) || negb (target_size id =? target_bytes)
          then failM unsafe "journal identity does not match shrink target"
          else if negb (finalize_phase (phase (status_ j)))
          then failM unsafe "journal is not ready for filesystem-size finalization"
          else shrink_changes dev ctx target_bytes j.

(** The loop over the blocks that are added: none of them is metadata, and the
    bitmap marks them as unavailable. *)
Fixpoint check_grow_range (n : nat) (s : Superblock) (gd : GroupDesc) (bm : bytes) (gs b : Z) : Result unit :=
  match n with
  | O => Ok tt
  | S n =>
      let fixed := (b =? block_bitmap gd) || (b =? inode_bitmap gd)
                   || ((inode_table gd <=? b) && (b <? u64 (inode_table gd + inode_table_blocks s))) in
      if b <? gs then fail corrupt "grow range precedes last block group"
      else if fixed then fail unsafe "grow range intersects fixed ext4 metadata"
      else if negb (bit_set bm (b - gs))
      then fail corrupt "block beyond current filesystem is not marked unavailable in last-group bitmap"
      else check_grow_range n s gd bm gs (b + 1)
  end.

(** The checks of the target, before anything is read of the last group. *)
Definition check_grow_target (dev : BlockDevice) (s : Superblock) (target_bytes : Z) : Result unit :=
  let bs := block_size s in
  let target := target_bytes / bs in
  let last := u64 (groups_count s - 1) in
  if has_flag (feature_incompat s) INCOMPAT_META_BG then fail unsupported "same-group grow refuses meta_bg"
  else if has_flag (feature_ro_compat s) RO_COMPAT_BIGALLOC then fail unsupported "same-group grow refuses bigalloc"
  else if has_flag (feature_incompat s) INCOMPAT_RECOVER
  then fail unsafe "filesystem journal recovery is required before grow"
  else if Z.land (state s) 1 =? 0 then fail unsafe "filesystem is not marked clean; run a check before grow"
  else if target_bytes <=? sb_size_bytes s
  then fail invalid_argument "grow target must be larger than filesystem"
  else if size_bytes (geometry dev) <? target_bytes
  then fail invalid_argument "grow target exceeds containing device"
  else if negb (target_bytes mod bs =? 0)
  then fail invalid_argument "grow target must be aligned to filesystem block size"
  else if negb (groups_for s target =? groups_count s)
  then fail unsupported "grow would add ext4 block groups; this release only grows within the existing last group"
  else if u64 (group_start_block s last + blocks_per_group s) <? target
  then fail invalid_argument "grow target exceeds existing last block group"
  else Ok tt.

Definition grown_super (s : Superblock) (sbraw : bytes) (target added : Z) : bytes :=
  set_u64_lohi (set_u64_lohi sbraw 0x04 0x150 target) 0x0c 0x158 (free_blocks s + added).

(** The changes of a growth, behind the checks of its target. *)
Definition grow_changes (dev : BlockDevice) (ctx : MetadataContext) (target_bytes : Z) (o : GrowOptions)
    : M GrowReport :=
  let s := sb ctx in
  let target := target_bytes / block_size s in
  let last := u64 (groups_count s - 1) in
  let gs := group_start_block s last in
  gd ← read_group_desc dev s last;
  gdr ← read_group_descriptor_raw dev ctx last;
  bm ← read_block_bitmap dev s gd;
  lift (check_grow_range (Z.to_nat (target - blocks_count s)) s gd bm gs (blocks_count s));;
  sbraw ← read_raw_superblock dev;
  let original := read_le16 sbraw 0x3a in
  sbraw ← lift (with_clean sbraw original false);
  write_super_copies dev ctx sbraw;;
  let added := target - blocks_count s in
  let old_desc_free := desc_free gdr in
  if 0xffffffff <? old_desc_free + added then failM corrupt "group free-block counter would overflow"
  else
    let bm := foldl (fun bm b => clear_bit bm (b - gs)) bm (seqZ (blocks_count s) added) in
    write_last_group dev ctx sbraw last gd (set_desc_free gdr (u32 (old_desc_free + added))) bm;;
    if u64_max - added <? free_blocks s then failM corrupt "superblock free-block counter would overflow"
    else
      sbraw ← lift (with_clean (grown_super s sbraw target added) original false);
      write_super_copies dev ctx sbraw;;
      verified ← (if go_verify_after o
                  then
                    v ← verify_metadata dev false;
                    if negb (m_clean v)
                    then failM corrupt "post-grow metadata verification failed; filesystem intentionally left unclean"
                    else mret true
                  else mret false);
      sbraw ← lift (with_clean sbraw original true);
      write_super_copies dev ctx sbraw;;
      mret (mkGrowReport (blocks_count s) target added (free_blocks s + added) verified).

Definition grow_within_last_group (dev : BlockDevice) (target_bytes : Z) (o : GrowOptions) : M GrowReport :=
  require_offline_for_write dev;;
  ds ← inspect_device_safety dev;
  if block_device ds && negb (go_allow_block_device o)
  then failM unsafe "block-device grow requires --allow-block-device"
  else
    ctx ← load_metadata_context dev false;
    lift (check_grow_target dev (sb ctx) target_bytes);;
    grow_changes dev ctx target_bytes o.
