(* ===== verification/ResizeSafe.v ===== *)
(** What a change of the size of an ext file system leaves at a power cut
    (proofs on [Resize.v]). *)
From S2P Require Import Prelude Words Errors Endian Crc Host Device Durable JournalFormat Journal JournalUse.
From S2P Require Import Ext4 Allocation Metadata MetadataCheck AllocUpdate OwnerSwitch Resize.
#[local] Open Scope Z_scope.

(** ** Powers *)

Lemma is_power_loop_spec fuel n base :
  2 <= base -> 1 <= n -> n < base ^ (Z.of_nat fuel) ->
  is_power_loop fuel n base = true <-> exists k, 0 <= k /\ n = base ^ k.
Proof.
  intros Hb. revert n. induction fuel as [|fuel IH]; intros n Hn Hf; [cbn in Hf; lia|]. cbn [is_power_loop].
  destruct (Z.eqb_spec (n mod base) 0) as [E|E].
  - apply Z.div_exact in E; [|lia]. assert (Hq : 1 <= n / base) by nia.
    rewrite IH; [|done|apply Z.div_lt_upper_bound; [lia|]; rewrite Nat2Z.inj_succ, Z.pow_succ_r in Hf by lia; lia].
    split; intros (k & Hk & Ek).
    + exists (k + 1). split; [lia|]. rewrite Z.pow_add_r, Z.pow_1_r, <-Ek by lia. lia.
    + destruct (Z.eq_dec k 0) as [->|]; [rewrite Z.pow_0_r in Ek; nia|].
      exists (k - 1). split; [lia|]. rewrite Ek. replace k with (k - 1 + 1) at 1 by lia.
      rewrite Z.pow_add_r, Z.pow_1_r, Z.div_mul by lia. done.
  - rewrite Z.eqb_eq. split; [intros ->; by exists 0|]. intros (k & Hk & ->).
    destruct (Z.eq_dec k 0) as [->|]; [done|]. exfalso. apply E. replace k with (k - 1 + 1) by lia.
    rewrite Z.pow_add_r, Z.pow_1_r by lia. apply Z.mod_mul. lia.
Qed.

(** The loop ends, with the power test. *)
Lemma is_power_spec n base :
  2 <= base -> 0 <= n -> is_power n base = true <-> exists k, 0 <= k /\ n = base ^ k.
Proof.
  intros Hb Hn. unfold is_power. destruct (Z.ltb_spec n 1).
  - split; [done|]. intros (k & Hk & ->). pose proof (Z.pow_pos_nonneg base k). lia.
  - apply is_power_loop_spec; [done|lia|]. destruct (Z.log2_spec n) as [_ H2]; [lia|].
    pose proof (Z.log2_nonneg n). replace (Z.of_nat _) with (Z.succ (Z.log2 n)) by lia.
    eapply Z.lt_le_trans; [exact H2|]. apply Z.pow_le_mono_l. lia.
Qed.

(** ** Superblocks *)

(** Equal bytes but for the state and the checksum. *)
Definition super_like (b b' : bytes) : Prop :=
  zlen b' = zlen b /\ forall i, 0 <= i < 1020 -> ~ 58 <= i < 60 -> byte_at b' i = byte_at b i.

Lemma slice_bytes b b' o n :
  0 <= o -> zlen b' = zlen b -> (forall i, o <= i < o + n -> byte_at b' i = byte_at b i) -> slice b' o n = slice b o n.
Proof.
  intros Ho Hz H. apply list_eq. intros k. rewrite !lookup_slice by done. case_decide as Hk; [|done].
  specialize (H (o + Z.of_nat k) ltac:(lia)). unfold byte_at in H. rewrite !nth_lookup in H.
  replace (Z.to_nat (o + Z.of_nat k)) with (Z.to_nat o + k)%nat in H by lia.
  destruct (b !! (Z.to_nat o + k)%nat) as [x|] eqn:Ex.
  - destruct (lookup_lt_is_Some_2 b' (Z.to_nat o + k)%nat) as [y Ey].
    { apply lookup_lt_Some in Ex. unfold zlen in Hz. lia. }
    rewrite Ey in *. cbn in H. by apply byte.unsigned_inj in H as ->.
  - apply lookup_ge_None in Ex. apply lookup_ge_None. unfold zlen in Hz. lia.
Qed.

Lemma super_like_read b b' w o :
  super_like b b' -> 0 <= o -> o + Z.of_nat w <= 58 \/ 60 <= o /\ o + Z.of_nat w <= 1020 ->
  read_le w b' o = read_le w b o.
Proof.
  intros [_ H] Ho Hw. unfold read_le. f_equal. apply foldl_ext_in. intros wide i Hi%elem_of_seq. do 2 f_equal.
  apply H; lia.
Qed.

Lemma super_like_fields b b' :
  super_like b b' -> superblock_fields b' = with_state (read_le16 b' 0x3a) (superblock_fields b).
Proof.
  intros H. unfold superblock_fields, with_state. cbv zeta.
  cbn [inodes_count blocks_count reserved_blocks free_blocks free_inodes first_data_block log_block_size
    blocks_per_group inodes_per_group errors rev_level first_inode inode_size feature_compat feature_incompat
    feature_ro_compat desc_size magic volume_name uuid].
  assert (Hs : forall o n, 0 <= o -> 60 <= o -> o + n <= 1020 -> slice b' o n = slice b o n).
  { intros o n Ho H1 H2. apply slice_bytes; [done|apply H|]. intros i Hi. apply H; lia. }
  rewrite (Hs 0x78 16), (Hs 0x68 16) by lia.
  rewrite !(super_like_read b b' 4 0x60 H), !(super_like_read b b' 4 0x150 H), !(super_like_read b b' 4 0x154 H),
    !(super_like_read b b' 4 0x158 H), (super_like_read b b' 4 0x00 H), (super_like_read b b' 4 0x04 H),
    (super_like_read b b' 4 0x08 H), (super_like_read b b' 4 0x0c H), (super_like_read b b' 4 0x10 H),
    (super_like_read b b' 4 0x14 H), (super_like_read b b' 4 0x18 H), (super_like_read b b' 4 0x20 H),
    (super_like_read b b' 4 0x28 H), (super_like_read b b' 2 0x3c H), (super_like_read b b' 4 0x4c H),
    (super_like_read b b' 4 0x54 H), (super_like_read b b' 2 0x58 H), (super_like_read b b' 4 0x5c H),
    (super_like_read b b' 4 0x64 H), (super_like_read b b' 2 0xfe H), (super_like_read b b' 2 0x38 H)
    by (cbn; lia).
  done.
Qed.

Lemma has_super_like b b' g : super_like b b' -> group_has_super b' g = group_has_super b g.
Proof.
  intros H. unfold group_has_super.
  by rewrite !(super_like_read b b' 4 0x5c H), !(super_like_read b b' 4 0x64 H), !(super_like_read b b' 4 0x24c H),
    !(super_like_read b b' 4 0x250 H) by (cbn; lia).
Qed.

Lemma super_like_trans b b1 b2 : super_like b b1 -> super_like b1 b2 -> super_like b b2.
Proof. intros [H1 H2] [H3 H4]. split; [congruence|]. intros i Hi Hn. rewrite H4 by done. by apply H2. Qed.

(** Sealing a superblock with another state. *)
Lemma with_clean_spec b st c b' :
  zlen b = 1024 -> with_clean b st c = Ok b' ->
  super_like b b' /\ zlen b' = 1024 /\ read_le16 b' 0x3a = if c then u16 (Z.lor st 1) else u16 (Z.land st (Z.lnot 1)).
Proof.
  intros Hz Hc. unfold with_clean in Hc. set (v := if c then _ else _) in *.
  assert (Hv : in_width 16 v) by (unfold v; destruct c; apply u16_width).
  apply superblock_roundtrip in Hc as (_ & Hz' & Hs). unfold write_le16 in *. rewrite zlen_write_le in Hz'.
  unfold SB_CHECKSUM_OFF in Hs.
  assert (Hb : forall i, 0 <= i < 1020 -> byte_at b' i = byte_at (write_le 2 b 58 v) i).
  { intros i Hi. pose proof (f_equal (fun l : bytes => byte_at l 0) (Hs i 1 ltac:(lia) ltac:(lia))) as E.
    cbn beta in E. rewrite !byte_at_slice in E by lia. by rewrite !Z.add_0_r in E. }
  split; [|split; [lia|]].
  - split; [lia|]. intros i Hi Hn. rewrite Hb by lia. apply byte_at_write_le_ne; lia.
  - transitivity (read_le 2 (write_le 2 b 58 v) 58); [|by apply read_write_le_eq; [lia..|]].
    unfold read_le. f_equal. apply foldl_ext_in. intros wide i Hi%elem_of_seq. do 2 f_equal. apply Hb. lia.
Qed.

Lemma read16_bit0 b o : Z.land (read_le16 b o) 1 = Z.land (byte_at b o) 1.
Proof.
  unfold read_le. cbn [seq foldl]. rewrite Z.shiftl_0_r, Z.lor_0_l, Z.add_0_r.
  apply Z.bits_inj'. intros i Hi. rewrite !Z.land_spec. change 1 with (Z.ones 1).
  destruct (Z.eq_dec i 0) as [->|]; [|by rewrite Z.ones_spec_high, !andb_false_r by lia].
  f_equal. unfold wrap. rewrite Z.mod_pow2_bits_low, Z.lor_spec, Z.shiftl_spec_low by lia. apply orb_false_r.
Qed.

(** The file system is marked clean. *)
Definition is_clean (img : bytes) : bool := negb (Z.land (state (superblock_fields (slice img 1024 1024))) 1 =? 0).

Lemma is_clean_byte img : is_clean img = negb (Z.land (byte_at img 1082) 1 =? 0).
Proof.
  unfold is_clean. change (state (superblock_fields ?b)) with (read_le16 b 0x3a).
  by rewrite read16_bit0, byte_at_slice by lia.
Qed.

(** ** Groups of writes that a power cut may tear *)

(** Every power cut leaves some bytes of writes with [Q] over [cur]. *)
Definition mixed_stop (dev : BlockDevice) (Q : Z * bytes -> Prop) (cur : bytes) (h : Host) : Prop :=
  forall img, crash_image (file_of h (fd_ dev)) img -> exists ws, Forall Q ws /\ mixture ws cur img.

Section Mixed.
Context (dev : BlockDevice) (Q : Z * bytes -> Prop) (cur : bytes).

Lemma mixed_unsettled ws h : Forall Q ws -> unsettled dev cur ws h -> mixed_stop dev Q cur h.
Proof. intros HQ Hu img Hc. exists ws. split; [done|]. by eapply unsettled_crash. Qed.
Lemma mixed_settled ws h :
  Forall Q ws -> Forall (inside (zlen cur)) ws -> unsettled dev (put_all ws cur) [] h -> mixed_stop dev Q cur h.
Proof.
  intros HQ Hin Hu img Hc. exists ws. split; [done|]. rewrite (settled_crash _ _ _ _ Hu Hc). by apply mixture_put_all.
Qed.
Lemma mixed_quiet ws h h' : Forall Q ws -> wstate dev cur ws h -> quiet h h' -> mixed_stop dev Q cur h'.
Proof. intros HQ Hw Hq. eapply mixed_unsettled; [exact HQ|]. by eapply wstate_unsettled, wstate_quiet. Qed.

(** One write more. *)
Lemma mixed_write ws off data h :
  wstate dev cur ws h -> 0 <= off -> Forall Q ws -> Q (off, data) ->
  runs dev (write_exact dev off data) h (mixed_stop dev Q cur) (fun _ h' => wstate dev cur (ws ++ [(off, data)]) h').
Proof.
  intros Hw Ho HQ Hq. eapply runs_mono; [apply (runs_write dev cur ws off data h (mixed_stop dev Q cur) Hw Ho)|done|].
  - intros h' ws' Hsub Hun. eapply mixed_unsettled; [|exact Hun]. apply list.Forall_forall. intros w Hin%Hsub.
    apply elem_of_app in Hin as [Hin| ->%list_elem_of_singleton]; [|done].
    by apply (proj1 (list.Forall_forall _ _) HQ).
  - by intros [] h' _ [Hw' _].
Qed.
(** The flush behind the writes. *)
Lemma mixed_flush ws h :
  wstate dev cur ws h -> Forall Q ws ->
  runs dev (Device.flush dev) h (mixed_stop dev Q cur) (fun _ h' => wstate dev (put_all ws cur) [] h').
Proof.
  intros Hw HQ. apply (runs_flush dev cur ws h _ Hw). intros h' [Hu|Hu]; [by eapply mixed_unsettled|].
  eapply mixed_settled; [exact HQ|apply Hw|exact Hu].
Qed.
End Mixed.

Lemma mixed_mono dev (Q Q' : Z * bytes -> Prop) cur h :
  (forall w, Q w -> Q' w) -> mixed_stop dev Q cur h -> mixed_stop dev Q' cur h.
Proof.
  intros HQ Hm img Hc. destruct (Hm img Hc) as (ws & Hall & Hmix). exists ws. split; [|done].
  by eapply list.Forall_impl.
Qed.

(** ** The copies of the superblock *)

(** The group [g] holds a copy of the superblock [raw]. *)
Definition backup_at (s : Superblock) (raw : bytes) (g : Z) : Prop :=
  1 <= g < groups_count s /\ group_has_super raw g = true.
Definition backup_off (s : Superblock) (g : Z) : Z := group_start_block s g * block_size s.
(** A write of a copy in a group behind the first, or of the first. *)
Definition backup_write (s : Superblock) (raw : bytes) (w : Z * bytes) : Prop :=
  exists g, backup_at s raw g /\ w.1 = backup_off s g /\ zlen w.2 = 1024.
Definition super_write (s : Superblock) (raw : bytes) (w : Z * bytes) : Prop :=
  w = (1024, raw) \/ backup_write s raw w.

(** A write of a copy of the descriptor of the group [last]. *)
Definition desc_write (s : Superblock) (raw : bytes) (last : Z) (w : Z * bytes) : Prop :=
  exists g, backup_at s raw g /\ w.1 = (group_start_block s g + 1) * block_size s + last * desc_bytes s /\
    zlen w.2 = desc_bytes s.

Section Copies.
Context (dev : BlockDevice) (ctx : MetadataContext) (Hgeo : geometry_ok (sb ctx)) (raw : bytes).
Let s := sb ctx.

Lemma group_start_nonneg g : 0 <= g < groups_count s -> 0 <= group_start_block s g.
Proof.
  intros Hg. destruct (group_start_spec s Hgeo g Hg) as [-> _]. pose proof Hgeo as [_ G2 _ G4 _ _ _]. fold s in G2, G4. nia.
Qed.

Lemma super_copies_spec n g cur ws h :
  zlen raw = 1024 -> wstate dev cur ws h -> Forall (super_write s raw) ws -> 1 <= g ->
  g + Z.of_nat n <= groups_count s ->
  runs dev (super_copies n dev ctx raw g) h (mixed_stop dev (super_write s raw) cur) (fun _ h' => exists ws',
    Forall (backup_write s raw) ws' /\ wstate dev cur (ws ++ ws') h').
Proof.
  intros Hz. revert g ws h. induction n as [|n IH]; intros g ws h Hw HQ Hg Hn; cbn [super_copies].
  { apply runs_ret. exists []. split; [by apply Forall_nil|by rewrite app_nil_r]. }
  assert (Hstop : forall h', quiet h h' -> mixed_stop dev (super_write s raw) cur h').
  { intros h' Hq. by eapply mixed_quiet. }
  eapply (runs_bind _ _ _ _ _ (fun _ h' => exists ws', Forall (backup_write s raw) ws' /\ wstate dev cur (ws ++ ws') h')).
  { destruct (group_has_super raw g) eqn:Eg; cbn [negb].
    2: { apply runs_ret. exists []. split; [by apply Forall_nil|by rewrite app_nil_r]. }
    cbv zeta. fold s. destruct (_ || _); [apply runs_failM, Hstop, quiet_refl|].
    apply runs_pure; [apply Hstop, quiet_refl|]. intros copy Hc. apply superblock_roundtrip in Hc as (_ & Hzc & _).
    unfold write_le16 in Hzc. rewrite zlen_write_le in Hzc.
    assert (Hb : backup_write s raw (group_start_block s g * block_size s, copy)).
    { exists g. split; [split; [lia|done]|]. split; [done|cbn; lia]. }
    pose proof (group_start_nonneg g ltac:(lia)). pose proof (geo_block_size ctx Hgeo). fold s in H0.
    eapply runs_mono; [apply (mixed_write dev (super_write s raw) cur ws); [exact Hw|nia|exact HQ|by right]|done|].
    intros [] h' _ Hw'. eexists. split; [apply Forall_singleton; exact Hb|exact Hw']. }
  intros [] h1 _ (ws1 & HQ1 & Hw1).
  assert (HQ' : Forall (super_write s raw) (ws ++ ws1)).
  { apply Forall_app. split; [done|]. eapply list.Forall_impl; [exact HQ1|]. by right. }
  eapply runs_mono; [apply (IH (g + 1) (ws ++ ws1) h1 Hw1 HQ'); lia|done|].
  intros [] h' _ (ws2 & HQ2 & Hw2). exists (ws1 ++ ws2). split; [by apply Forall_app|by rewrite app_assoc].
Qed.

Lemma write_super_copies_spec cur h :
  zlen raw = 1024 -> wstate dev cur [] h ->
  runs dev (write_super_copies dev ctx raw) h (mixed_stop dev (super_write s raw) cur) (fun _ h' => exists ws,
    Forall (backup_write s raw) ws /\ Forall (inside (zlen cur)) ((1024, raw) :: ws) /\
    wstate dev (put_all ((1024, raw) :: ws) cur) [] h').
Proof.
  intros Hz Hw. unfold write_super_copies, write_raw_superblock. rewrite Hz, Z.eqb_refl. cbn [negb].
  destruct (_ =? 0); [apply runs_failM; by eapply mixed_quiet, quiet_refl|].
  eapply runs_bind; [apply (mixed_write dev (super_write s raw) cur []); [exact Hw|lia|by apply Forall_nil|by left]|].
  intros [] h1 _ Hw1. cbn [app] in Hw1. pose proof Hgeo as [_ _ G3 _ _ G6 _].
  assert (Hg1 : 1 <= groups_count (sb ctx)) by nia.
  eapply runs_bind; [apply (super_copies_spec _ 1 cur _ h1 Hz Hw1); [apply Forall_singleton; by left|lia|fold s in Hg1 |- *; lia]|].
  intros [] h2 _ (ws & HQ & Hw2). cbn [app] in Hw2.
  assert (HQ' : Forall (super_write s raw) ((1024, raw) :: ws)).
  { apply Forall_cons. split; [by left|]. eapply list.Forall_impl; [exact HQ|]. by right. }
  eapply runs_mono; [by apply (mixed_flush dev (super_write s raw) cur _ h2 Hw2)|done|].
  intros [] h' _ Hw'. exists ws. split_and!; [done|apply Hw2|done].
Qed.

Lemma desc_backups_spec (Q : Z * bytes -> Prop) last desc n g cur ws h :
  zlen desc = desc_bytes s -> wstate dev cur ws h -> Forall Q ws -> 1 <= g -> g + Z.of_nat n <= groups_count s ->
  0 <= last -> (forall w, desc_write s raw last w -> Q w) ->
  runs dev (desc_backups n dev ctx raw (last * desc_bytes s) desc g) h (mixed_stop dev Q cur) (fun _ h' => exists ws',
    Forall (desc_write s raw last) ws' /\ wstate dev cur (ws ++ ws') h').
Proof.
  intros Hz Hw HQ Hg Hn Hl Himp. revert g ws h Hw HQ Hg Hn.
  induction n as [|n IH]; intros g ws h Hw HQ Hg Hn; cbn [desc_backups].
  { apply runs_ret. exists []. split; [by apply Forall_nil|by rewrite app_nil_r]. }
  assert (Hstop : forall h', quiet h h' -> mixed_stop dev Q cur h') by (intros h' Hq; by eapply mixed_quiet).
  eapply (runs_bind _ _ _ _ _ (fun _ h' => exists ws', Forall (desc_write s raw last) ws' /\ wstate dev cur (ws ++ ws') h')).
  { destruct (group_has_super raw g) eqn:Eg; cbn [negb].
    2: { apply runs_ret. exists []. split; [by apply Forall_nil|by rewrite app_nil_r]. }
    cbv zeta. fold s. destruct ((u64 (blocks_count s - 1) <=? _) || _) eqn:Er; [apply runs_failM, Hstop, quiet_refl|].
    destruct (u64_max - _ <? _) eqn:Eo; [apply runs_failM, Hstop, quiet_refl|].
    pose proof (group_start_nonneg g ltac:(lia)) as Hst. pose proof (geo_block_size ctx Hgeo) as Hbs. fold s in Hbs.
    pose proof (desc_bytes_pos ctx) as Hdb. fold s in Hdb.
    apply orb_false_iff in Er as [Er _]. apply Z.leb_gt in Er. pose proof Hgeo as [_ _ _ G4 G5 _ _]. fold s in G4, G5.
    rewrite (wrap_id 64 (blocks_count s - 1)) in Er by (unfold in_width; lia).
    assert (Eu : u64 (group_start_block s g + 1) = group_start_block s g + 1) by (apply wrap_id; unfold in_width; lia).
    rewrite Eu in *.
    assert (Hb : desc_write s raw last ((group_start_block s g + 1) * block_size s + last * desc_bytes s, desc)).
    { exists g. split; [split; [lia|done]|]. by split. }
    eapply runs_mono; [apply (mixed_write dev Q cur ws); [exact Hw|nia|exact HQ|by apply Himp]|done|].
    intros [] h' _ Hw'. eexists. split; [apply Forall_singleton; exact Hb|exact Hw']. }
  intros [] h1 _ (ws1 & HQ1 & Hw1).
  assert (HQ' : Forall Q (ws ++ ws1)).
  { apply Forall_app. split; [done|]. eapply list.Forall_impl; [exact HQ1|done]. }
  eapply runs_mono; [apply (IH (g + 1) (ws ++ ws1) h1 Hw1 HQ'); lia|done|].
  intros [] h' _ (ws2 & HQ2 & Hw2). exists (ws1 ++ ws2). split; [by apply Forall_app|by rewrite app_assoc].
Qed.
End Copies.

(** ** The places of a file system *)

(** Bitmaps, descriptors, the superblock, its copies and the copies of the last
    descriptor lie apart. *)
Record resize_layout (s : Superblock) (raw base : bytes) : Prop := {
  rz_alloc : alloc_layout s base;
  rz_super : meta_apart s base 1024 1024;
  rz_backup : forall g, backup_at s raw g -> 2048 <= backup_off s g /\ meta_apart s base (backup_off s g) 1024;
  rz_desc : forall g, backup_at s raw g ->
    meta_apart s base ((group_start_block s g + 1) * block_size s + (groups_count s - 1) * desc_bytes s)
      (desc_bytes s)
}.

(** The place of the superblock and of its copies. *)
Definition super_place (s : Superblock) (raw : bytes) (p : Z * Z) : Prop :=
  p = (1024, 1024) \/ exists g, backup_at s raw g /\ p = (backup_off s g, 1024).
(** The places of the last group: its bitmap, its descriptor and the copies of
    its descriptor. *)
Definition last_place (s : Superblock) (raw base : bytes) (p : Z * Z) : Prop :=
  let last := groups_count s - 1 in
  p = (bitmap_off s base last, block_size s) \/ p = (desc_off s last, desc_bytes s) \/
  exists g, backup_at s raw g /\
    p = ((group_start_block s g + 1) * block_size s + last * desc_bytes s, desc_bytes s).
Definition resize_place (s : Superblock) (raw base : bytes) (p : Z * Z) : Prop :=
  super_place s raw p \/ last_place s raw base p.

(** Descriptors and bitmaps are the same. *)
Definition alloc_same (s : Superblock) (img img' : bytes) : Prop :=
  zlen img' = zlen img /\
  forall g, of_group s g ->
    raw_desc img' s g = raw_desc img s g /\ block_bitmap_at img' s g = block_bitmap_at img s g.

Lemma alloc_same_trans s a b c : alloc_same s a b -> alloc_same s b c -> alloc_same s a c.
Proof.
  intros [H1 H2] [H3 H4]. split; [congruence|]. intros g Hg. destruct (H2 g Hg), (H4 g Hg). split; congruence.
Qed.

Lemma same_bitmap_place s img img' g :
  raw_desc img' s g = raw_desc img s g -> bitmap_off s img' g = bitmap_off s img g.
Proof. intros E. unfold bitmap_off. by rewrite !desc_at_raw, E. Qed.

Lemma alloc_same_apart s img img' o n : alloc_same s img img' -> meta_apart s img o n -> meta_apart s img' o n.
Proof.
  intros [_ H] [Ho Ha]. split; [done|]. intros g Hg. rewrite (same_bitmap_place s img img' g) by apply (H g Hg).
  by apply Ha.
Qed.

Lemma alloc_same_layout s raw img img' : alloc_same s img img' -> resize_layout s raw img -> resize_layout s raw img'.
Proof.
  intros Hs [[L1 L2] H2 H3 H4]. pose proof (fun g Hg => proj1 (proj2 Hs g Hg)) as Hd.
  split; [split|by eapply alloc_same_apart|..].
  - intros g g' Hg Hg'. rewrite (same_bitmap_place s img img' g) by by apply Hd. by apply L1.
  - intros g g' Hg Hg'. rewrite (desc_at_raw img'), (desc_at_raw img' s g'), (Hd g Hg), (Hd g' Hg'), <-!desc_at_raw. by apply L2.
  - intros g Hg. split; [by apply H3|]. eapply alloc_same_apart; [exact Hs|]. by apply H3.
  - intros g Hg. eapply alloc_same_apart; [exact Hs|]. by apply H4.
Qed.

Lemma layout_like s raw raw' base :
  (forall g, group_has_super raw' g = group_has_super raw g) -> resize_layout s raw base -> resize_layout s raw' base.
Proof.
  intros H [L1 L2 L3 L4]. assert (Hb : forall g, backup_at s raw' g -> backup_at s raw g).
  { intros g [Hg Hh]. split; [done|]. by rewrite <-H. }
  split; [done|done|..]; intros g Hg; [by apply L3, Hb|by apply L4, Hb].
Qed.

Section Places.
Context (ctx : MetadataContext) (Hgeo : geometry_ok (sb ctx)).
Let s := sb ctx.

(** Writes that lie apart from bitmaps and descriptors. *)
Lemma alloc_same_mixture ws img img' :
  Forall (fun w => meta_apart s img w.1 (zlen w.2)) ws -> mixture ws img img' -> alloc_same s img img'.
Proof.
  intros Hall Hm. split; [by eapply mixture_zlen|]. intros g Hg.
  assert (Hsl : forall o n, 0 <= o -> (forall w, meta_apart s img w.1 (zlen w.2) -> apart o n w) ->
    slice img' o n = slice img o n).
  { intros o n Ho Ha. apply (mixture_slice ws); [done|done|]. eapply list.Forall_impl; [exact Hall|]. apply Ha. }
  assert (E : raw_desc img' s g = raw_desc img s g).
  { apply Hsl; [by apply (desc_off_pos ctx Hgeo)|]. intros w [_ Hw]. unfold apart. destruct (Hw g Hg). lia. }
  split; [done|]. unfold block_bitmap_at. fold (bitmap_off s img' g) (bitmap_off s img g).
  rewrite (same_bitmap_place s img img' g E). apply Hsl; [apply (bitmap_off_pos ctx Hgeo)|].
  intros w [_ Hw]. unfold apart. destruct (Hw g Hg). lia.
Qed.

Lemma supers_apart_meta raw base w :
  zlen raw = 1024 -> resize_layout s raw base -> super_write s raw w -> meta_apart s base w.1 (zlen w.2).
Proof.
  intros Hz L [->|(g & Hg & -> & ->)]; cbn [fst snd]; [rewrite Hz; apply L|by apply (rz_backup _ _ _ L)].
Qed.
Lemma descs_apart_meta raw base w :
  resize_layout s raw base -> desc_write s raw (groups_count s - 1) w -> meta_apart s base w.1 (zlen w.2).
Proof. intros L (g & Hg & -> & ->). by apply (rz_desc _ _ _ L). Qed.

(** The copies lie behind the superblock. *)
Lemma backup_behind raw base w : resize_layout s raw base -> backup_write s raw w -> 2048 <= w.1.
Proof. intros L (g & Hg & -> & _). by apply (rz_backup _ _ _ L). Qed.

Context (raw cur : bytes) (Hlay : resize_layout s raw cur) (Hseed : in_width 32 (checksum_seed ctx)).
Let last := groups_count s - 1.

Lemma last_group : of_group s last.
Proof. pose proof Hgeo as [_ _ G3 _ _ G6 _]. fold s in G3, G6. unfold of_group, last. nia. Qed.

Lemma desc_behind k w : 0 <= k -> desc_write s raw k w -> apart 1024 1024 w.
Proof.
  intros Hl (g & Hgb & E1 & E2). destruct (rz_backup _ _ _ Hlay g Hgb) as [Hb _]. unfold apart.
  unfold backup_off in Hb. pose proof (geo_block_size ctx Hgeo) as Hbs. pose proof (desc_bytes_pos ctx) as Hdb.
  fold s in Hbs, Hdb. assert (0 <= k * desc_bytes s) by nia. lia.
Qed.

Lemma last_behind w : last_place s raw cur (w.1, zlen w.2) -> apart 1024 1024 w.
Proof.
  unfold last_place. fold last. pose proof (last_group) as Hg. destruct (rz_super _ _ _ Hlay) as [_ Hsup].
  destruct (Hsup last Hg) as [A1 A2]. intros [[= E1 E2]|[[= E1 E2]|(g & Hgb & [= E1 E2])]].
  - unfold apart. lia.
  - unfold apart. lia.
  - apply (desc_behind last); [apply Hg|]. by exists g.
Qed.

(** The writes of the last group: its bitmap, its descriptor, and the copies of
    the descriptor. *)
Definition last_writes (bm raw' : bytes) (ws : list (Z * bytes)) : list (Z * bytes) :=
  (bitmap_off s cur last, bm) :: (desc_off s last, raw') :: ws.

Let LQ (w : Z * bytes) : Prop := last_place s raw cur (w.1, zlen w.2).

Lemma desc_last w : desc_write s raw last w -> LQ w.
Proof. intros (g & Hg & E1 & E2). right. right. exists g. split; [done|]. by rewrite E1, E2. Qed.

Lemma write_last_group_spec dev bm free h :
  wstate dev cur [] h -> zlen bm = block_size s -> zlen (raw_desc cur s last) = desc_bytes s ->
  bitmap_off s cur last < 2 ^ 64 ->
  runs dev (write_last_group dev ctx raw last (desc_at cur s last) (set_desc_free (raw_desc cur s last) (u32 free)) bm) h
    (mixed_stop dev LQ cur) (fun _ h' => exists raw' ws,
      rewritten ctx last (raw_desc cur s last) bm free raw' /\ zlen raw' = desc_bytes s /\ desc_like (raw_desc cur s last) raw' /\ Forall (desc_write s raw last) ws /\
      Forall (inside (zlen cur)) (last_writes bm raw' ws) /\ wstate dev (put_all (last_writes bm raw' ws) cur) [] h').
Proof.
  intros Hw Hzb Hzr Hoff. pose proof last_group as Hg. unfold write_last_group. cbv zeta. fold s.
  pose proof (geo_block_size ctx Hgeo) as Hbs. pose proof (desc_bytes_pos ctx) as Hdb. fold s in Hbs, Hdb.
  assert (Hstop : forall ws h h', Forall LQ ws -> wstate dev cur ws h -> quiet h h' ->
    mixed_stop dev LQ cur h') by (intros; by eapply mixed_quiet).
  apply runs_pure; [apply (Hstop [] h); [by apply Forall_nil|done|apply quiet_refl]|]. intros raw' Hr.
  change (set_desc_free ?b ?v) with (set_desc_free_blocks b v) in Hr.
  change (rewritten ctx last (raw_desc cur s last) bm free raw') in Hr.
  assert (Hl32 : 32 <= zlen (raw_desc cur s last)) by lia.
  destruct (rewritten_valid ctx last _ _ _ _ Hseed Hl32 Hr) as (Hzr' & _).
  pose proof (rewritten_like ctx last _ _ _ _ Hseed Hl32 Hr) as Hlike. rewrite Hzr in Hzr'.
  change (block_bitmap (desc_at cur s last) * block_size s) with (bitmap_off s cur last).
  pose proof (bitmap_off_pos ctx Hgeo cur last) as Hbo. fold s in Hbo.
  rewrite (wrap_id 64 (bitmap_off s cur last)) by (unfold in_width; lia).
  set (w1 := (bitmap_off s cur last, bm)). set (w2 := (desc_off s last, raw')).
  assert (Q1 : LQ w1) by (left; unfold w1; cbn [fst snd]; by rewrite Hzb).
  assert (Q2 : LQ w2) by (right; left; unfold w2; cbn [fst snd]; by rewrite Hzr').
  eapply runs_bind; [apply (mixed_write dev _ cur []); [exact Hw|exact Hbo|by apply Forall_nil|exact Q1]|].
  intros [] h1 _ Hw1. cbn [app] in Hw1. fold w1 in Hw1.
  assert (HQ1 : Forall LQ [w1]) by (by apply Forall_singleton).
  eapply (runs_bind _ _ _ _ _ (fun _ h' => wstate dev cur [w1; w2] h')).
  { unfold write_group_descriptor_raw. cbv zeta. fold s.
    repeat (case_match; [apply runs_failM; by apply (Hstop [w1] h1); [..|apply quiet_refl]|]).
    apply (mixed_write dev LQ cur [w1] (desc_off s last) raw'); [done| |done|done].
    by apply (desc_off_pos ctx Hgeo). }
  intros [] h2 _ Hw2. assert (HQ2 : Forall LQ [w1; w2]) by (by rewrite !Forall_cons).
  eapply (runs_bind _ _ _ _ _ (fun _ h' => exists ws, Forall (desc_write s raw last) ws /\ wstate dev cur ([w1; w2] ++ ws) h')).
  { unfold write_group_desc_backups. cbv zeta. fold s.
    destruct ((block_size s =? 0) || _ || _); [apply runs_failM; by apply (Hstop [w1; w2] h2); [..|apply quiet_refl]|].
    destruct (_ <? last); [apply runs_failM; by apply (Hstop [w1; w2] h2); [..|apply quiet_refl]|].
    apply (desc_backups_spec dev ctx Hgeo raw LQ last raw' _ 1 cur [w1; w2] h2); [done|done|done|lia| | |].
    - fold s. unfold of_group, last in Hg. lia.
    - unfold of_group in Hg. lia.
    - intros w Hdw. exact (desc_last w Hdw). }
  intros [] h3 _ (ws & HQ & Hw3).
  assert (HQ3 : Forall LQ ([w1; w2] ++ ws)).
  { apply Forall_app. split; [done|]. eapply list.Forall_impl; [exact HQ|].
    intros w Hdw. exact (desc_last w Hdw). }
  eapply runs_mono; [by apply (mixed_flush dev LQ cur _ h3 Hw3)|done|].
  intros [] h' _ Hw'. exists raw', ws. split_and!; [done..|apply Hw3|exact Hw'].
Qed.

(** The image behind them. *)
Lemma last_written bm raw' ws :
  zlen bm = block_size s -> zlen raw' = desc_bytes s -> desc_like (raw_desc cur s last) raw' ->
  Forall (desc_write s raw last) ws -> Forall (inside (zlen cur)) (last_writes bm raw' ws) ->
  let img := put_all (last_writes bm raw' ws) cur in
  zlen img = zlen cur /\ slice img 1024 1024 = slice cur 1024 1024 /\ block_bitmap_at img s last = bm /\
  (forall g, of_group s g -> bitmap_off s img g = bitmap_off s cur g) /\
  (forall g, of_group s g -> g <> last -> block_bitmap_at img s g = block_bitmap_at cur s g).
Proof.
  intros Hzb Hzr Hlike HQ Hin. cbv zeta. pose proof last_group as Hg.
  set (w1 := (bitmap_off s cur last, bm)). set (w2 := (desc_off s last, raw')).
  pose proof (zlen_put_all _ _ Hin) as Hz. change (last_writes bm raw' ws) with ([w1; w2] ++ ws) in *.
  pose proof Hin as Hin'. apply Forall_app in Hin' as [Hin12 Hinw].
  pose proof (zlen_put_all _ _ Hin12) as Hz12. pose proof Hlay as [[L1 L2] [_ Hsup] Lb Ld].
  pose proof (geo_block_size ctx Hgeo) as Hbs. pose proof (desc_bytes_pos ctx) as Hdb. fold s in Hbs, Hdb.
  assert (Hws : forall g, of_group s g -> Forall (apart (bitmap_off s cur g) (block_size s)) ws /\
    Forall (apart (desc_off s g) (desc_bytes s)) ws).
  { intros g Hgg. split; (eapply list.Forall_impl; [exact HQ|]); intros w (g' & Hb & E1 & E2);
      destruct (Ld g' Hb) as [_ Hd]; fold last in Hd; destruct (Hd g Hgg); unfold apart; rewrite E1, E2; lia. }
  assert (Hd : forall g, of_group s g -> desc_like (raw_desc cur s g) (raw_desc (put_all ([w1; w2] ++ ws) cur) s g)).
  { intros g Hgg. pose proof (desc_off_pos ctx Hgeo g Hgg) as Hp. fold s in Hp. unfold raw_desc at 2.
    rewrite put_all_app, slice_put_all; [|by rewrite Hz12|done|by apply Hws].
    destruct (Z.eq_dec g last) as [->|Hne].
    - rewrite <-Hzr. rewrite (slice_put_all_write [w1] w2 []); [done|done|by apply Forall_nil].
    - rewrite slice_put_all; [by split|done|done|]. rewrite !Forall_cons. split_and!; [..|by apply Forall_nil];
        unfold apart, w1, w2; cbn [fst snd]; [destruct (L1 last g Hg Hgg); lia|]. unfold desc_off. case_match; nia. }
  assert (Hb : forall g, of_group s g -> bitmap_off s (put_all ([w1; w2] ++ ws) cur) g = bitmap_off s cur g).
  { intros g Hgg. unfold bitmap_off. rewrite !desc_at_raw, (desc_like_fields s _ _ (Hd g Hgg)). done. }
  split_and!; [exact Hz| | |exact Hb|].
  - apply slice_put_all; [done|lia|]. destruct (Hsup last Hg). rewrite Forall_app, !Forall_cons.
    split_and!; [unfold apart, w1; cbn [fst snd]; lia|unfold apart, w2; cbn [fst snd]; lia|by apply Forall_nil|].
    eapply list.Forall_impl; [exact HQ|]. intros w Hdw. by apply (desc_behind last); [apply Hg|].
  - unfold block_bitmap_at. fold (bitmap_off s (put_all ([w1; w2] ++ ws) cur) last). rewrite (Hb last Hg).
    rewrite put_all_app, slice_put_all; [|by rewrite Hz12|apply (bitmap_off_pos ctx Hgeo)|by apply Hws].
    rewrite <-Hzb. apply (slice_put_all_write [] w1 [w2]); [done|]. apply Forall_singleton. unfold apart, w1, w2. cbn [fst snd].
    destruct (L1 last last Hg Hg); lia.
  - intros g Hgg Hne. unfold block_bitmap_at. fold (bitmap_off s (put_all ([w1; w2] ++ ws) cur) g) (bitmap_off s cur g).
    rewrite (Hb g Hgg). rewrite put_all_app, slice_put_all; [|by rewrite Hz12|apply (bitmap_off_pos ctx Hgeo)|by apply Hws].
    apply slice_put_all; [done|apply (bitmap_off_pos ctx Hgeo)|]. rewrite !Forall_cons. split_and!; [..|by apply Forall_nil];
      unfold apart, w1, w2; cbn [fst snd].
    + assert (block_bitmap (desc_at cur s g) <> block_bitmap (desc_at cur s last)) by (intros ?; by apply Hne, L2).
      unfold bitmap_off. nia.
    + destruct (L1 g last Hgg Hg); lia.
Qed.
End Places.
