(* ===== verification/ResizeGrow.v ===== *)
(** The growth of an ext file system inside its last group, to the end or to a
    power cut (proofs on [Resize.v]). *)
From S2P Require Import Prelude Words Errors Endian Crc Host Device Durable JournalFormat.
From S2P Require Import Ext4 Allocation Metadata MetadataCheck RelocatePlan AllocUpdate OwnerSwitch Resize ResizeSafe.
#[local] Open Scope Z_scope.

(** ** What a group of writes keeps *)

(** Only the ranges of [P] may differ. *)
Definition kept (P : Z * Z -> Prop) (a b : bytes) : Prop :=
  zlen b = zlen a /\
  forall o n, 0 <= o -> (forall p, P p -> o + n <= p.1 \/ p.1 + p.2 <= o) -> slice b o n = slice a o n.

Lemma kept_trans P a b c : kept P a b -> kept P b c -> kept P a c.
Proof. intros [H1 H2] [H3 H4]. split; [congruence|]. intros o n Ho Ha. rewrite H4 by done. by apply H2. Qed.
Lemma kept_mono (P P' : Z * Z -> Prop) a b : (forall p, P p -> P' p) -> kept P a b -> kept P' a b.
Proof. intros H [H1 H2]. split; [done|]. intros o n Ho Ha. apply H2; [done|]. intros p Hp. by apply Ha, H. Qed.
Lemma kept_mixture (P : Z * Z -> Prop) ws a b :
  Forall (fun w => P (w.1, zlen w.2)) ws -> mixture ws a b -> kept P a b.
Proof.
  intros HP Hm. split; [by eapply mixture_zlen|]. intros o n Ho Ha. apply (mixture_slice ws); [done|done|].
  eapply list.Forall_impl; [exact HP|]. intros w Hw. exact (Ha _ Hw).
Qed.

Lemma place_like s raw raw' p :
  (forall g, group_has_super raw' g = group_has_super raw g) -> super_place s raw' p -> super_place s raw p.
Proof. intros H [->|(g & [Hg Hs] & ->)]; [by left|right]. exists g. split; [|done]. split; [done|]. by rewrite <-H. Qed.

(** [b] is [a] up to the copies of the superblock, whose fields are the same but
    for the state. *)
Record resealed (s : Superblock) (a b : bytes) : Prop := {
  rs_kept : kept (super_place s (slice a 1024 1024)) a b;
  rs_super : super_like (slice a 1024 1024) (slice b 1024 1024)
}.

Lemma super_write_place s raw w : zlen raw = 1024 -> super_write s raw w -> super_place s raw (w.1, zlen w.2).
Proof. intros Hz [->|(g & Hg & -> & ->)]; [left; cbn [fst snd]; by rewrite Hz|right; by exists g]. Qed.

Section Super.
Context (ctx : MetadataContext) (Hgeo : geometry_ok (sb ctx)).
Let s := sb ctx.
Context (raw cur : bytes) (Hz : zlen raw = 1024) (Hlay : resize_layout s raw cur).

(** The bytes of the superblock while its copies are written. *)
Lemma mixture_super ws img i :
  Forall (super_write s raw) ws -> mixture ws cur img -> 0 <= i < 1024 ->
  byte_at (slice img 1024 1024) i = byte_at (slice cur 1024 1024) i \/ byte_at (slice img 1024 1024) i = byte_at raw i.
Proof.
  intros HQ [Hl Hm] Hi. rewrite !byte_at_slice by lia. unfold byte_at. rewrite !nth_lookup.
  destruct (Hm (Z.to_nat (1024 + i))) as [->|(o & d & Hin & Hr & ->)]; [by left|].
  apply (proj1 (list.Forall_forall _ _) HQ) in Hin as [[= -> ->]|Hb].
  - right. do 3 f_equal. lia.
  - apply (backup_behind ctx raw cur _ Hlay) in Hb. cbn [fst] in Hb. lia.
Qed.

(** A copy of the superblock that differs in the state only. *)
Lemma mixture_resealed ws img :
  super_like (slice cur 1024 1024) raw -> Forall (super_write s raw) ws -> mixture ws cur img -> resealed s cur img.
Proof.
  intros Hl HQ Hm. split.
  - apply (kept_mixture _ ws); [|done]. eapply list.Forall_impl; [exact HQ|]. intros w Hw.
    apply (place_like s _ raw); [intros g; by apply has_super_like|]. by apply super_write_place.
  - split; [apply zlen_slice_same; by eapply mixture_zlen|]. intros i Hi Hn.
    destruct (mixture_super ws img i HQ Hm ltac:(lia)) as [-> | ->]; [done|]. by apply Hl.
Qed.

(** Writes of unclean superblocks over an unclean file system. *)
Lemma mixture_unclean ws img :
  Z.land (read_le16 raw 0x3a) 1 = 0 -> is_clean cur = false -> Forall (super_write s raw) ws -> mixture ws cur img ->
  is_clean img = false.
Proof.
  intros Hr Hc HQ Hm. unfold is_clean in *. change (state (superblock_fields ?b)) with (read_le16 b 0x3a) in *.
  rewrite read16_bit0 in *. destruct (mixture_super ws img 0x3a HQ Hm ltac:(lia)) as [-> | ->]; [done|]. by rewrite Hr.
Qed.

(** The superblock that the writes leave. *)
Lemma supers_written ws :
  Forall (backup_write s raw) ws -> Forall (inside (zlen cur)) ((1024, raw) :: ws) ->
  slice (put_all ((1024, raw) :: ws) cur) 1024 1024 = raw.
Proof.
  intros HQ Hin. pose proof (slice_put_all_write [] (1024, raw) ws cur Hin) as H. cbn [fst snd app] in H.
  rewrite Hz in H. apply H. eapply list.Forall_impl; [exact HQ|]. intros w Hw.
  apply (backup_behind ctx raw cur _ Hlay) in Hw. left. lia.
Qed.
Lemma supers_all ws : Forall (backup_write s raw) ws -> Forall (super_write s raw) ((1024, raw) :: ws).
Proof. intros HQ. apply Forall_cons. split; [by left|]. eapply list.Forall_impl; [exact HQ|]. by right. Qed.
End Super.

(** ** The superblock and the bitmap of a growth *)

(** The fields with other sizes. *)
Definition with_sizes (blocks free : Z) (s : Superblock) : Superblock :=
  mkSuperblock (inodes_count s) blocks (reserved_blocks s) free (free_inodes s)
    (first_data_block s) (log_block_size s) (blocks_per_group s) (inodes_per_group s) (state s) (errors s)
    (rev_level s) (first_inode s) (inode_size s) (feature_compat s) (feature_incompat s)
    (feature_ro_compat s) (desc_size s) (magic s) (volume_name s) (uuid s).

Lemma join32_split v : 0 <= v -> join32 (u32 v) (u32 (Z.shiftr v 32)) = u64 v.
Proof.
  intros Hv. unfold join32. apply Z.bits_inj'. intros i Hi. rewrite Z.lor_spec. unfold wrap.
  destruct (Z.lt_ge_cases i 64).
  - rewrite !(Z.mod_pow2_bits_low _ 64), Z.shiftl_spec by lia. destruct (Z.lt_ge_cases i 32).
    + rewrite Z.mod_pow2_bits_low, (Z.testbit_neg_r _ (i - 32)) by lia. apply orb_false_r.
    + rewrite Z.mod_pow2_bits_high, Z.mod_pow2_bits_low, Z.shiftr_spec by lia. cbn. f_equal. lia.
  - by rewrite !Z.mod_pow2_bits_high by lia.
Qed.

(** A write behind which the bytes are read: the sizes, and the rest. *)
Section GrownSuper.
Context (raw : bytes) (Hz : zlen raw = 1024) (blocks added : Z).
Let s := superblock_fields raw.
Let out := grown_super s raw blocks added.

Lemma zlen_grown : zlen out = 1024.
Proof. unfold out, grown_super, set_u64_lohi, write_le32. by rewrite !zlen_write_le. Qed.

Lemma grown_slice o n :
  0 <= o -> Forall (fun p => o + n <= p \/ p + 4 <= o) [0x04; 0x0c; 0x150; 0x158] -> slice out o n = slice raw o n.
Proof.
  intros Ho Ha. rewrite !Forall_cons in Ha. destruct Ha as (A1 & A2 & A3 & A4 & _).
  unfold out, grown_super, set_u64_lohi, write_le32. by rewrite !slice_write_le_ne by (rewrite ?zlen_write_le; cbn; lia).
Qed.
Lemma grown_read w o :
  0 <= o -> o + Z.of_nat w <= 1024 -> Forall (fun p => o + Z.of_nat w <= p \/ p + 4 <= o) [0x04; 0x0c; 0x150; 0x158] ->
  read_le w out o = read_le w raw o.
Proof. intros Ho Hw Ha. apply read_le_ext; [done|rewrite zlen_grown; lia|done|lia|by apply grown_slice]. Qed.

Lemma grown_sizes :
  read_le32 out 0x04 = u32 blocks /\ read_le32 out 0x150 = u32 (Z.shiftr blocks 32) /\
  read_le32 out 0x0c = u32 (free_blocks s + added) /\ read_le32 out 0x158 = u32 (Z.shiftr (free_blocks s + added) 32).
Proof.
  assert (Hw : forall x, in_width (8 * Z.of_nat 4) (u32 x)) by (intros x; apply wrap_width; lia).
  unfold out, grown_super, set_u64_lohi, write_le32. set (free := free_blocks s + added).
  split_and!; repeat first [rewrite read_write_le_eq by (rewrite ?zlen_write_le; (done || cbn; lia)); done
    | rewrite read_write_le_ne by (rewrite ?zlen_write_le; cbn; lia)].
Qed.

Lemma grown_super_fields :
  has_flag (feature_incompat s) INCOMPAT_64BIT = true \/ blocks < 2 ^ 32 ->
  blocks < 2 ^ 64 -> 0 <= free_blocks s + added <= blocks ->
  superblock_fields out = with_sizes blocks (free_blocks s + added) s.
Proof.
  intros H64 Hb Hf. destruct grown_sizes as (E1 & E2 & E3 & E4).
  assert (Ej : forall v lo hi, 0 <= v <= blocks -> lo = u32 v -> hi = u32 (Z.shiftr v 32) ->
    join32 lo (if has_flag (read_le32 raw 0x60) INCOMPAT_64BIT then hi else 0) = v).
  { intros v lo hi Hv -> ->. change (read_le32 raw 0x60) with (feature_incompat s).
    destruct (has_flag _ _) eqn:Ef.
    - rewrite join32_split by lia. apply wrap_id. unfold in_width. lia.
    - destruct H64 as [H64|H64]; [congruence|]. unfold join32. rewrite Z.shiftl_0_l. cbn [wrap].
      rewrite Z.lor_0_r. apply wrap_id. unfold in_width. lia. }
  assert (Er : forall w o, Forall (fun p => o + Z.of_nat w <= p \/ p + 4 <= o) [0x04; 0x0c; 0x150; 0x158] ->
    0 <= o -> o + Z.of_nat w <= 1024 -> read_le w out o = read_le w raw o) by (intros; by apply grown_read).
  unfold superblock_fields at 1, with_sizes. cbv zeta.
  rewrite !(grown_slice 0x78 16), !(grown_slice 0x68 16) by (rewrite ?Forall_cons; split_and?; try apply Forall_nil; lia).
  rewrite !(Er 4%nat 0x60), !(Er 4%nat 0x154), (Er 4%nat 0x00), (Er 4%nat 0x08), (Er 4%nat 0x10), (Er 4%nat 0x14),
    (Er 4%nat 0x18), (Er 4%nat 0x20), (Er 4%nat 0x28), (Er 2%nat 0x3a), (Er 2%nat 0x3c), (Er 4%nat 0x4c),
    (Er 4%nat 0x54), (Er 2%nat 0x58), (Er 4%nat 0x5c), (Er 4%nat 0x64), (Er 2%nat 0xfe), (Er 2%nat 0x38)
    by (first [rewrite !Forall_cons; split_and!; try apply Forall_nil; cbn; lia | cbn; lia]).
  rewrite (Ej blocks _ _ ltac:(lia) E1 E2), (Ej _ _ _ Hf E3 E4). done.
Qed.

Lemma has_super_grown g : group_has_super out g = group_has_super raw g.
Proof.
  unfold group_has_super. rewrite !(grown_read 4 0x5c), !(grown_read 4 0x64), !(grown_read 4 0x24c), !(grown_read 4 0x250)
    by (first [rewrite !Forall_cons; split_and!; try apply Forall_nil; cbn; lia | cbn; lia]).
  done.
Qed.
End GrownSuper.

Lemma clear_bit_spec bm b i :
  0 <= b < 8 * zlen bm -> 0 <= i < 8 * zlen bm ->
  zlen (clear_bit bm b) = zlen bm /\ bit_set (clear_bit bm b) i = bit_set bm i && negb (i =? b).
Proof.
  intros Hb Hi. assert (E : clear_bit bm b = set_bitmap_bit bm b false).
  { unfold clear_bit, set_bitmap_bit. f_equal. apply byte.unsigned_inj. rewrite !byte.unsigned_of_Z.
    unfold byte.wrap, wrap. by rewrite Z.mod_mod by lia. }
  rewrite E. split; [apply zlen_set_bitmap_bit|]. rewrite bit_set_set_bitmap_bit by done.
  by destruct (i =? b); rewrite ?andb_false_r, ?andb_true_r.
Qed.

(** The loop that frees the blocks [lo..lo+n) of the bitmap of a group that
    starts at [gs]. *)
Lemma clear_bits_spec gs lo n bm i :
  gs <= lo -> lo + n - gs <= 8 * zlen bm -> 0 <= i < 8 * zlen bm ->
  let out := foldl (fun bm b => clear_bit bm (b - gs)) bm (seqZ lo n) in
  zlen out = zlen bm /\ bit_set out i = bit_set bm i && negb ((lo - gs <=? i) && (i <? lo + n - gs)).
Proof.
  intros Hlo Hn Hi. cbv zeta.
  assert (Hempty : forall n b, n <= 0 -> b = b && negb ((lo - gs <=? i) && (i <? lo + n - gs))).
  { intros n' b Hn'. replace (_ && (i <? _)) with false by ztests. by rewrite andb_true_r. }
  destruct (Z.lt_ge_cases n 0) as [Hneg|Hpos].
  { rewrite seqZ_nil by lia. split; [done|]. cbn [foldl]. apply Hempty. lia. }
  revert n Hpos Hn. apply (natlike_ind (fun n => lo + n - gs <= 8 * zlen bm -> _)).
  - intros _. split; [done|]. apply Hempty. lia.
  - intros n Hn IH Hl. destruct IH as [I1 I2]; [lia|]. rewrite <-Z.add_1_r, seqZ_app by lia. rewrite foldl_app.
    change (seqZ (lo + n) 1) with [lo + n]. cbn [foldl].
    destruct (clear_bit_spec (foldl (fun bm b => clear_bit bm (b - gs)) bm (seqZ lo n)) (lo + n - gs) i) as [C1 C2];
      [rewrite I1; lia..|]. split; [congruence|]. rewrite C2, I2, <-andb_assoc. f_equal. ztests; done.
Qed.

(** ** Images of a growth *)

(** The verification of the metadata finds nothing. *)
Definition verified_image (img : bytes) : Prop :=
  let raw := slice img 1024 1024 in
  let s := superblock_fields raw in
  let n := groups_count s in
  (forall g, 0 <= g < n -> group_sound (context_of s raw) false img g) /\
  over_groups (used_blocks_of img s) 0 n = u64 (blocks_count s - free_blocks s) /\
  over_groups (used_inodes_of img s) 0 n = u64 (inodes_count s - free_inodes s).

(** The file system [base], whose superblock has the fields [s], with [target]
    blocks: the old blocks are as they were and the new ones are free; if
    [check] says so, the metadata of the image has been verified before the
    superblock was marked as clean. *)
Record grown (base : bytes) (s : Superblock) (target : Z) (check : bool) (img : bytes) : Prop := {
  gr_super : exists st, superblock_fields (slice img 1024 1024)
               = with_state st (with_sizes target (free_blocks s + (target - blocks_count s)) s);
  gr_used : forall b, first_data_block s <= b < target ->
    block_used img s b = (b <? blocks_count s) && block_used base s b;
  gr_verified : check = true -> exists v, verified_image v /\ resealed s v img
}.

(** Every power cut leaves an image with [P]. *)
Definition all_crash (dev : BlockDevice) (P : bytes -> Prop) (h : Host) : Prop :=
  forall img, crash_image (file_of h (fd_ dev)) img -> P img.

Lemma all_settled dev (P : bytes -> Prop) cur h : wstate dev cur [] h -> P cur -> all_crash dev P h.
Proof. intros Hw HP img Hc. by rewrite (settled_image _ _ _ _ Hw Hc). Qed.
Lemma all_quiet dev (P : bytes -> Prop) cur h h' : wstate dev cur [] h -> P cur -> quiet h h' -> all_crash dev P h'.
Proof. intros Hw HP Hq. eapply all_settled; [by eapply wstate_quiet|done]. Qed.
Lemma all_mixed dev (Q : Z * bytes -> Prop) (P : bytes -> Prop) cur h :
  (forall ws img, Forall Q ws -> mixture ws cur img -> P img) -> mixed_stop dev Q cur h -> all_crash dev P h.
Proof. intros H Hm img Hc. destruct (Hm img Hc) as (ws & HQ & Hmix). by eapply H. Qed.

Lemma resealed_refl s a : resealed s a a.
Proof. split; [by split|]. by split. Qed.

Section Images.
Context (ctx : MetadataContext) (Hgeo : geometry_ok (sb ctx)).
Let s := sb ctx.

Lemma resealed_trans a b c : resealed s a b -> resealed s b c -> resealed s a c.
Proof.
  intros [K1 S1] [K2 S2]. split; [|by eapply super_like_trans]. eapply kept_trans; [exact K1|].
  eapply kept_mono; [|exact K2]. intros p. apply place_like. intros g. by apply has_super_like.
Qed.

Lemma super_place_apart raw a p : resize_layout s raw a -> super_place s raw p -> meta_apart s a p.1 p.2.
Proof. intros L [->|(g & Hg & ->)]; cbn [fst snd]; [apply L|by apply (rz_backup _ _ _ L)]. Qed.

Lemma resealed_alloc a b : resize_layout s (slice a 1024 1024) a -> resealed s a b -> alloc_same s a b.
Proof.
  intros L [[Hz Hk] _]. split; [done|]. intros g Hg.
  assert (E : raw_desc b s g = raw_desc a s g).
  { apply Hk; [by apply (desc_off_pos ctx Hgeo)|]. intros p Hp. destruct (super_place_apart _ _ _ L Hp) as [_ Ha].
    destruct (Ha g Hg). lia. }
  split; [done|]. unfold block_bitmap_at. fold (bitmap_off s b g) (bitmap_off s a g).
  rewrite (same_bitmap_place s a b g E). apply Hk; [apply (bitmap_off_pos ctx Hgeo)|]. intros p Hp.
  destruct (super_place_apart _ _ _ L Hp) as [_ Ha]. destruct (Ha g Hg). lia.
Qed.

Lemma block_used_same a b blk :
  alloc_same s a b -> of_group s ((blk - first_data_block s) / blocks_per_group s) ->
  block_used b s blk = block_used a s blk.
Proof. intros [_ H] Hg. unfold block_used. f_equal. exact (proj2 (H _ Hg)). Qed.

Lemma resealed_layout a b :
  resize_layout s (slice a 1024 1024) a -> resealed s a b -> resize_layout s (slice b 1024 1024) b.
Proof.
  intros L R. eapply layout_like; [|eapply alloc_same_layout; [by apply resealed_alloc|exact L]].
  intros g. apply has_super_like, R.
Qed.

(** Writing the copies of the superblock [raw], behind [cur]: [P] holds of every
    torn image. *)
Lemma supers_runs dev cur raw (P : bytes -> Prop) h :
  zlen raw = 1024 -> resize_layout s raw cur -> wstate dev cur [] h ->
  (forall ws img, Forall (super_write s raw) ws -> mixture ws cur img -> P img) ->
  runs dev (write_super_copies dev ctx raw) h (all_crash dev P) (fun _ h' => exists ws img,
    Forall (super_write s raw) ws /\ mixture ws cur img /\ slice img 1024 1024 = raw /\ wstate dev img [] h').
Proof.
  intros Hz L Hw HP. eapply runs_mono; [by apply (write_super_copies_spec dev ctx Hgeo raw cur)| |].
  - intros h' _. by apply all_mixed.
  - intros [] h' _ (ws & HQ & Hin & Hw'). exists ((1024, raw) :: ws), (put_all ((1024, raw) :: ws) cur).
    split_and!; [by apply supers_all|by apply mixture_put_all|by apply (supers_written ctx raw cur Hz L)|done].
Qed.
End Images.

(** ** The steps of a growth *)

Lemma unclean_bit st : Z.land (u16 (Z.land st (Z.lnot 1))) 1 = 0.
Proof.
  apply Z.bits_inj'. intros i Hi. rewrite Z.land_spec, Z.bits_0. destruct (Z.eq_dec i 0) as [->|].
  - unfold wrap. rewrite Z.mod_pow2_bits_low, Z.land_spec, Z.lnot_spec by lia. by rewrite andb_false_r.
  - change 1 with (Z.ones 1) at 2. rewrite Z.ones_spec_high by lia. apply andb_false_r.
Qed.
Lemma clean_bit st : Z.land (u16 (Z.lor st 1)) 1 <> 0.
Proof.
  intros E. apply (f_equal (fun x => Z.testbit x 0)) in E. rewrite Z.land_spec, Z.bits_0 in E. unfold wrap in E.
  rewrite Z.mod_pow2_bits_low, Z.lor_spec, orb_true_r in E by lia. done.
Qed.

Lemma is_clean_read img : is_clean img = negb (Z.land (read_le16 (slice img 1024 1024) 0x3a) 1 =? 0).
Proof. done. Qed.

(** The blocks of a growth are marked as unavailable, and none is metadata of
    the group. *)
Definition grow_room (s : Superblock) (gd : GroupDesc) (bm : bytes) (gs b : Z) : Prop :=
  gs <= b /\ b <> block_bitmap gd /\ b <> inode_bitmap gd /\
  ~ inode_table gd <= b < u64 (inode_table gd + inode_table_blocks s) /\ bit_set bm (b - gs) = true.

Lemma check_grow_range_spec n s gd bm gs b :
  check_grow_range n s gd bm gs b = Ok tt -> forall i, b <= i < b + Z.of_nat n -> grow_room s gd bm gs i.
Proof.
  revert b. induction n as [|n IH]; intros b; cbn [check_grow_range]; [lia|]. cbv zeta.
  destruct (Z.ltb_spec b gs); [done|]. destruct (_ || _) eqn:Ef; [done|].
  destruct (bit_set bm (b - gs)) eqn:Eb; [|done]. cbn [negb]. intros Hc i Hi.
  destruct (Z.eq_dec i b) as [->|]; [|apply (IH (b + 1)); [done|lia]].
  apply orb_false_iff in Ef as [Ef E3]. apply orb_false_iff in Ef as [E1%Z.eqb_neq E2%Z.eqb_neq].
  apply andb_false_iff in E3. split_and!; [done..| |done]. rewrite Z.leb_gt, Z.ltb_ge in E3. lia.
Qed.

Lemma last_group_width s :
  geometry_ok s -> u64 (groups_count s - 1) = groups_count s - 1 /\ 0 <= group_start_block s (groups_count s - 1) /\
    group_start_block s (groups_count s - 1) = first_data_block s + (groups_count s - 1) * blocks_per_group s.
Proof.
  intros Hgeo. pose proof Hgeo as [_ G2 G3 G4 G5 G6 _]. destruct (groups_count_spec s) as [H1 H2]; [lia..|].
  destruct (group_start_spec s Hgeo (groups_count s - 1)) as [-> _]; [lia|].
  split_and!; [apply wrap_id; unfold in_width; nia|nia|done].
Qed.

(** What [check_grow_target] has found of the target. *)
Lemma check_grow_target_spec dev s target_bytes :
  geometry_ok s -> blocks_count s * block_size s < 2 ^ 64 -> 1 <= block_size s ->
  check_grow_target dev s target_bytes = Ok tt ->
  let target := target_bytes / block_size s in
  let last := groups_count s - 1 in
  target * block_size s = target_bytes /\ blocks_count s < target <= group_start_block s last + blocks_per_group s /\
  Z.land (state s) 1 <> 0 /\ target_bytes <= size_bytes (geometry dev) /\ groups_for s target = groups_count s.
Proof.
  intros Hgeo Hb Hbs. unfold check_grow_target. cbv zeta.
  destruct (has_flag _ INCOMPAT_META_BG); [done|]. destruct (has_flag _ RO_COMPAT_BIGALLOC); [done|].
  destruct (has_flag _ INCOMPAT_RECOVER); [done|]. destruct (Z.eqb_spec (Z.land (state s) 1) 0) as [|Hc]; [done|].
  destruct (Z.leb_spec target_bytes (sb_size_bytes s)) as [|Hgt]; [done|].
  destruct (Z.ltb_spec (size_bytes (geometry dev)) target_bytes) as [|Hdev]; [done|].
  destruct (Z.eqb_spec (target_bytes mod block_size s) 0) as [Hal|]; [|done]. cbn [negb].
  destruct (Z.eqb_spec (groups_for s (target_bytes / block_size s)) (groups_count s)) as [Hg|]; [|done]. cbn [negb].
  destruct (Z.ltb_spec (u64 (group_start_block s (u64 (groups_count s - 1)) + blocks_per_group s))
    (target_bytes / block_size s)) as [|Hle]; [done|]. intros _.
  pose proof (Z.div_mod target_bytes (block_size s) ltac:(lia)) as Hdm. rewrite Hal in Hdm.
  pose proof (last_group_width s Hgeo) as (El & Hst & _). rewrite El in Hle.
  assert (Hle' : u64 (group_start_block s (groups_count s - 1) + blocks_per_group s) <=
    group_start_block s (groups_count s - 1) + blocks_per_group s).
  { destruct Hgeo. apply Z.mod_le; lia. }
  assert (Hgt' : blocks_count s * block_size s < target_bytes).
  { unfold sb_size_bytes in Hgt. case_match; [|done]. vm_compute u64_max in Hgt. lia. }
  split_and!; [lia|nia|lia|done|done|done].
Qed.

Lemma layout_places s raw a b :
  1 <= block_size s -> (forall g, of_group s g -> bitmap_off s b g = bitmap_off s a g) ->
  resize_layout s raw a -> resize_layout s raw b.
Proof.
  intros Hbs E [[L1 L2] H2 H3 H4].
  assert (Hm : forall o n, meta_apart s a o n -> meta_apart s b o n).
  { intros o n [Ho Ha]. split; [done|]. intros g Hg. rewrite E by done. by apply Ha. }
  split; [split|by apply Hm|..].
  - intros g g' Hg Hg'. rewrite E by done. by apply L1.
  - intros g g' Hg Hg' Eb. apply L2; [done|done|]. pose proof (E g Hg). pose proof (E g' Hg').
    unfold bitmap_off in *. rewrite Eb in *. nia.
  - intros g Hg. split; [by apply H3|]. by apply Hm, H3.
  - intros g Hg. by apply Hm, H4.
Qed.

(** The state of a block, in its group. *)
Lemma used_by_group s (Hgeo : geometry_ok s) b :
  let last := groups_count s - 1 in
  let gs := group_start_block s last in
  first_data_block s <= b < gs + blocks_per_group s ->
  (forall img, gs <= b -> block_used img s b = bit_set (block_bitmap_at img s last) (b - gs)) /\
  (b < gs -> of_group s ((b - first_data_block s) / blocks_per_group s) /\
             (b - first_data_block s) / blocks_per_group s <> last).
Proof.
  cbv zeta. set (last := groups_count s - 1). set (gs := group_start_block s last). intros Hb.
  destruct (last_group_width s Hgeo) as (_ & _ & Hgs). fold last gs in Hgs. pose proof Hgeo as [_ [G2 _] _ _ _ _ _].
  set (g := (b - first_data_block s) / blocks_per_group s).
  pose proof (Z.div_mod (b - first_data_block s) (blocks_per_group s) ltac:(lia)) as Hdm. fold g in Hdm.
  pose proof (Z.mod_pos_bound (b - first_data_block s) (blocks_per_group s) ltac:(lia)).
  assert (Hg0 : 0 <= g) by (apply Z.div_pos; lia). split.
  - intros img Hle. assert (El : g = last).
    { unfold g. symmetry. apply (Z.div_unique _ _ _ (b - gs)); lia. }
    unfold block_used. fold g. rewrite El. fold (block_bitmap_at img s last). f_equal. lia.
  - intros Hlt. assert (g < last) by nia. unfold of_group, last in *. lia.
Qed.

Section LastGroup.
Context (ctx : MetadataContext) (Hgeo : geometry_ok (sb ctx)).
Let s := sb ctx.
Context (raw cur : bytes) (Hlay : resize_layout s raw cur).
Let last := groups_count s - 1.
Let gs := group_start_block s last.
Context (bm raw' : bytes) (ws : list (Z * bytes)).
Context (Hzb : zlen bm = block_size s) (Hzr : zlen raw' = desc_bytes s) (Hlike : desc_like (raw_desc cur s last) raw').
Context (Hws : Forall (desc_write s raw last) ws) (Hin : Forall (inside (zlen cur)) (last_writes ctx cur bm raw' ws)).
Let img := put_all (last_writes ctx cur bm raw' ws) cur.

Lemma last_group_kept : kept (last_place s raw cur) cur img.
Proof.
  apply (kept_mixture _ (last_writes ctx cur bm raw' ws)); [|by apply mixture_put_all]. unfold last_writes.
  rewrite !Forall_cons. split_and!; [left; cbn [fst snd]; by rewrite Hzb|right; left; cbn [fst snd]; by rewrite Hzr|].
  eapply list.Forall_impl; [exact Hws|]. intros w. by apply desc_last.
Qed.

Lemma last_group_layout : slice img 1024 1024 = slice cur 1024 1024 /\ resize_layout s raw img.
Proof.
  destruct (last_written ctx Hgeo raw cur Hlay bm raw' ws Hzb Hzr Hlike Hws Hin) as (_ & E1 & _ & E2 & _).
  split; [exact E1|]. eapply layout_places; [|exact E2|exact Hlay]. pose proof (geo_block_size ctx Hgeo). fold s in H. lia.
Qed.

(** The blocks of the last group are as the new bitmap says. *)
Lemma last_group_used b :
  first_data_block s <= b < gs + blocks_per_group s ->
  block_used img s b = if gs <=? b then bit_set bm (b - gs) else block_used cur s b.
Proof.
  intros Hb. destruct (last_written ctx Hgeo raw cur Hlay bm raw' ws Hzb Hzr Hlike Hws Hin) as (_ & _ & E1 & _ & E2).
  destruct (used_by_group s Hgeo b Hb) as [U1 U2]. fold last gs in U1, U2.
  change (block_bitmap_at img s last = bm) in E1. destruct (Z.leb_spec gs b) as [Hle|Hlt]; [by rewrite (U1 img Hle), E1|].
  destruct (U2 Hlt) as [Hg Hne]. unfold block_used. fold (block_bitmap_at img s ((b - first_data_block s) / blocks_per_group s)).
  f_equal. by apply (E2 _ Hg).
Qed.
End LastGroup.

(** What a growth relies on: the layout, counters that the reader has checked,
    and sizes that the superblock can hold. *)
Record grow_setting (s : Superblock) (raw base : bytes) (target_bytes : Z) : Prop := {
  gw_layout : resize_layout s raw base;
  gw_width : has_flag (feature_incompat s) INCOMPAT_64BIT = true \/ target_bytes / block_size s < 2 ^ 32;
  gw_target : target_bytes < 2 ^ 64;
  gw_free : 0 <= free_blocks s <= blocks_count s;
  gw_inside : blocks_count s * block_size s < 2 ^ 64;
  gw_bitmap : bitmap_off s base (groups_count s - 1) + block_size s <= zlen base;
  gw_desc : desc_off s (groups_count s - 1) + desc_bytes s <= zlen base;
  gw_length : zlen base < 2 ^ 63
}.

Section GrowChanges.
Context (dev : BlockDevice) (ctx : MetadataContext) (base raw : bytes) (s : Superblock).
Context (Eraw : slice base 1024 1024 = raw) (Es : superblock_fields raw = s) (Ectx : sb ctx = s).
Context (Hgeo : geometry_ok s) (Hseed : in_width 32 (checksum_seed ctx)).
Context (target_bytes : Z) (o : GrowOptions) (Hset : grow_setting s raw base target_bytes).
Let target := target_bytes / block_size s.
Let last := groups_count s - 1.
Let gs := group_start_block s last.
Let added := target - blocks_count s.
Context (Htarget : blocks_count s < target <= gs + blocks_per_group s).

(** The new blocks are room, and in the grown file system they are free. *)
Definition grow_done (img : bytes) : Prop :=
  grown base s target (go_verify_after o) img /\
  forall b, blocks_count s <= b < target -> grow_room s (desc_at base s last) (block_bitmap_at base s last) gs b.

(** What a power cut may leave. *)
Definition grow_torn (img : bytes) : Prop :=
  kept (resize_place s raw base) base img /\
  (is_clean img = false \/ resealed s base img \/ grow_done img).

Lemma torn_resealed img : resealed s base img -> grow_torn img.
Proof.
  intros R. split; [|right; by left]. eapply kept_mono; [|apply R]. rewrite Eraw. intros p Hp. by left.
Qed.

Lemma base_layout : resize_layout s (slice base 1024 1024) base.
Proof. rewrite Eraw. apply Hset. Qed.

Lemma geo_ctx : geometry_ok (sb ctx).
Proof. by rewrite Ectx. Qed.

Lemma same_super_copies cur raw1 :
  resealed s base cur -> slice cur 1024 1024 = raw1 -> forall g, group_has_super raw1 g = group_has_super raw g.
Proof. intros R <- g. rewrite <-Eraw. apply has_super_like, R. Qed.

Lemma base_alloc cur : resealed s base cur -> alloc_same s base cur.
Proof. pose proof (resealed_alloc ctx geo_ctx) as H. rewrite Ectx in H. apply H, base_layout. Qed.

Lemma last_place_same cur raw1 p :
  resealed s base cur -> slice cur 1024 1024 = raw1 -> last_place s raw1 cur p -> resize_place s raw base p.
Proof.
  intros R Hs Hp. right. pose proof (proj2 (base_alloc cur R)) as Hal.
  destruct (last_group_width s Hgeo) as (_ & _ & Hgs). pose proof Hgeo as [_ G2 _ G4 _ _ _].
  destruct (groups_count_spec s) as [Hg1 _]; [lia..|].
  assert (Eb : bitmap_off s cur last = bitmap_off s base last).
  { apply same_bitmap_place, Hal. unfold of_group, last. lia. }
  unfold last_place in *. fold last in Hp |- *. rewrite <-Eb. destruct Hp as [->|[->|(g & [Hg Hh] & ->)]]; [by left|right; by left|].
  right. right. exists g. split; [|done]. split; [done|]. by rewrite <-(same_super_copies cur raw1 R Hs).
Qed.

(** Behind the bitmap and the descriptor of the last group. *)
Record grow_behind (raw1 img : bytes) : Prop := {
  gb_kept : kept (resize_place s raw base) base img;
  gb_super : slice img 1024 1024 = raw1;
  gb_layout : resize_layout s raw1 img;
  gb_used : forall b, first_data_block s <= b < target ->
    block_used img s b = (b <? blocks_count s) && block_used base s b
}.

Let bm0 := block_bitmap_at base s last.
Let bm1 := foldl (fun bm b => clear_bit bm (b - gs)) bm0 (seqZ (blocks_count s) added).

Lemma last_bitmap :
  zlen bm0 = block_size s /\ zlen (raw_desc base s last) = desc_bytes s /\
  zlen bm1 = block_size s /\ forall i, 0 <= i < blocks_per_group s ->
    bit_set bm1 i = bit_set bm0 i && negb ((blocks_count s <=? gs + i) && (gs + i <? target)).
Proof.
  pose proof Hset as [_ _ _ _ _ W1 W2 _]. fold last in W1, W2.
  pose proof (geo_block_size ctx geo_ctx) as Hbs. pose proof (desc_bytes_pos ctx) as Hdb. rewrite Ectx in Hbs, Hdb.
  pose proof (bitmap_off_pos ctx geo_ctx base last) as Hbo. rewrite Ectx in Hbo.
  destruct (last_group_width s Hgeo) as (_ & Hgs0 & Hgs). pose proof Hgeo as [_ [G1 G2] _ G4 _ _ _].
  destruct (groups_count_spec s) as [Hg1 Hg2]; [lia..|]. fold last gs in Hgs, Hgs0.
  assert (Hz0 : zlen bm0 = block_size s) by (apply zlen_slice; unfold bitmap_off in *; lia).
  assert (Hc : forall i, 0 <= i < blocks_per_group s -> zlen bm1 = block_size s /\
    bit_set bm1 i = bit_set bm0 i && negb ((blocks_count s <=? gs + i) && (gs + i <? target))).
  { intros i Hi. destruct (clear_bits_spec gs (blocks_count s) added bm0 i) as [C1 C2].
    - fold last in Hg2. nia.
    - rewrite Hz0. unfold added. lia.
    - rewrite Hz0. lia.
    - fold bm1 in C1, C2. split; [congruence|]. rewrite C2. do 2 f_equal. unfold added. ztests. }
  split; [done|]. split.
  - apply zlen_slice; [|lia..]. pose proof (desc_off_pos ctx geo_ctx last) as H. rewrite Ectx in H. apply H.
    unfold of_group, last. lia.
  - split; [by apply (Hc 0); lia|]. intros i Hi. by apply Hc.
Qed.

Lemma grow_last_spec cur raw1 free h :
  wstate dev cur [] h -> resealed s base cur -> slice cur 1024 1024 = raw1 -> is_clean cur = false ->
  runs dev (write_last_group dev ctx raw1 last (desc_at base s last)
      (set_desc_free (raw_desc base s last) (u32 free)) bm1) h
    (all_crash dev grow_torn) (fun _ h' => exists img, grow_behind raw1 img /\ wstate dev img [] h').
Proof.
  intros Hw R Hs Hc. pose proof (base_alloc cur R) as [Hzc Hal]. destruct last_bitmap as (Z1 & Z2 & Z3 & Hbits).
  assert (Hg : of_group s last).
  { pose proof Hgeo as [_ G2 _ G4 _ _ _]. destruct (groups_count_spec s) as [Hg1 _]; [lia..|]. unfold of_group, last. lia. }
  destruct (Hal last Hg) as [Er Eb].
  assert (Hlay : resize_layout (sb ctx) raw1 cur).
  { pose proof (resealed_layout ctx geo_ctx base cur) as H. rewrite Ectx, Hs in H. rewrite Ectx. by apply H; [apply base_layout|]. }
  assert (Ekept : forall img, kept (last_place s raw1 cur) cur img -> kept (resize_place s raw base) base img).
  { intros img Hk. eapply kept_trans; [apply (torn_resealed cur R)|]. eapply kept_mono; [|exact Hk]. intros p.
    by apply last_place_same. }
  assert (Eo : bitmap_off s cur last = bitmap_off s base last) by by apply same_bitmap_place.
  assert (Ed : desc_at cur s last = desc_at base s last) by (by rewrite !desc_at_raw, Er).
  rewrite <-Ed, <-Er.
  pose proof Hset as [_ _ _ _ _ W1 W2 W3]. fold last in W1, W2.
  pose proof (geo_block_size ctx geo_ctx) as Hbs. rewrite Ectx in Hbs.
  pose proof (write_last_group_spec ctx geo_ctx raw1 cur Hseed dev bm1 free h Hw) as Hrun. rewrite Ectx in Hrun.
  fold last in Hrun. eapply runs_mono; [apply Hrun| |].
  - done.
  - by rewrite Er.
  - rewrite Eo. lia.
  - intros h' _. apply all_mixed. intros ws img HQ Hm.
    split; [apply Ekept; by apply (kept_mixture _ ws)|]. left. rewrite is_clean_read in *.
    rewrite (mixture_slice ws cur img 1024 1024 Hm); [exact Hc|lia|]. eapply list.Forall_impl; [exact HQ|]. intros w Hlw.
    apply (last_behind ctx geo_ctx raw1 cur Hlay). by rewrite Ectx.
  - intros [] h' _ (raw' & ws & _ & Hzr & Hlike & Hws & Hin & Hw').
    set (img := put_all (last_writes ctx cur bm1 raw' ws) cur) in *. exists img. split; [|done].
    pose proof (last_group_kept ctx raw1 cur bm1 raw' ws) as Hk.
    pose proof (last_group_layout ctx geo_ctx raw1 cur Hlay bm1 raw' ws) as Hl.
    pose proof (last_group_used ctx geo_ctx raw1 cur Hlay bm1 raw' ws) as Hu.
    rewrite Ectx in Hk, Hl, Hu. fold last gs in Hk, Hl, Hu. specialize (Hk Z3 Hzr Hws Hin).
    specialize (Hl Z3 Hzr Hlike Hws Hin) as [Hl1 Hl2]. specialize (Hu). split; [by apply Ekept|by rewrite <-Hs|done|].
    intros b Hb. rewrite Hu; [|done..|lia].
    destruct (used_by_group s Hgeo b) as [Hu1 Hu2]; [unfold gs, last in *; lia|]. fold last gs in Hu1, Hu2.
    destruct (Z.leb_spec gs b) as [Hle|Hlt].
    + rewrite Hbits, (Hu1 base Hle) by lia. replace (gs + (b - gs)) with b by lia. fold (block_bitmap_at base s last) bm0.
      rewrite andb_comm. f_equal. ztests.
    + pose proof (block_used_same ctx base cur b) as E. rewrite Ectx in E. rewrite E; [|by split|by apply Hu2].
      pose proof (group_start_spec s Hgeo last Hg) as [_ Hgb]. fold gs in Hgb. by rewrite (proj2 (Z.ltb_lt _ _)) by lia.
Qed.

(** The copies of a superblock, written behind the last group. *)
Lemma behind_supers raw1 raw2 cur ws img :
  grow_behind raw1 cur -> zlen raw2 = 1024 -> (forall g, group_has_super raw2 g = group_has_super raw1 g) ->
  (forall g, group_has_super raw1 g = group_has_super raw g) ->
  Forall (super_write s raw2) ws -> mixture ws cur img ->
  kept (resize_place s raw base) base img /\ (slice img 1024 1024 = raw2 -> grow_behind raw2 img) /\
  forall b, first_data_block s <= b < target -> block_used img s b = (b <? blocks_count s) && block_used base s b.
Proof.
  intros [B1 B2 B3 B4] Hz Hh1 Hh2 HQ Hm.
  assert (K : kept (resize_place s raw base) base img).
  { eapply kept_trans; [exact B1|]. apply (kept_mixture _ ws); [|exact Hm]. eapply list.Forall_impl; [exact HQ|].
    intros w Hw. left. apply (place_like s raw raw2); [intros g; by rewrite Hh1|]. by apply super_write_place. }
  assert (L : resize_layout s raw2 cur) by (eapply layout_like; [exact Hh1|exact B3]).
  assert (A : alloc_same s cur img).
  { pose proof (alloc_same_mixture ctx geo_ctx ws cur img) as H. rewrite Ectx in H. apply H; [|done].
    eapply list.Forall_impl; [exact HQ|]. intros w Hw. pose proof (supers_apart_meta ctx raw2 cur w Hz) as H'.
    rewrite Ectx in H'. by apply H'. }
  assert (U : forall b, first_data_block s <= b < target ->
    block_used img s b = (b <? blocks_count s) && block_used base s b).
  { intros b Hb. rewrite <-B4 by done. pose proof (block_used_same ctx cur img b) as H. rewrite Ectx in H. apply H; [done|].
    destruct (used_by_group s Hgeo b) as [_ U2]; [unfold gs, last in *; lia|]. fold last gs in U2.
    destruct (Z.lt_ge_cases b gs) as [Hlt|Hge]; [by apply U2|].
    destruct (last_group_width s Hgeo) as (_ & _ & Hgs). fold last gs in Hgs. pose proof Hgeo as [_ [G2 _] _ G4 _ _ _].
    destruct (groups_count_spec s) as [Hg1 _]; [lia..|].
    replace ((b - first_data_block s) / blocks_per_group s) with last; [unfold of_group, last; lia|].
    apply (Z.div_unique _ _ _ (b - gs)); lia. }
  split; [exact K|]. split; [|exact U]. intros E. split; [exact K|exact E| |exact U]. by eapply alloc_same_layout.
Qed.

Lemma grow_supers raw1 raw2 (P : bytes -> Prop) cur h :
  grow_behind raw1 cur -> zlen raw2 = 1024 -> (forall g, group_has_super raw2 g = group_has_super raw1 g) ->
  (forall g, group_has_super raw1 g = group_has_super raw g) -> wstate dev cur [] h ->
  (forall ws img, Forall (super_write s raw2) ws -> mixture ws cur img -> P img) ->
  runs dev (write_super_copies dev ctx raw2) h (all_crash dev P) (fun _ h' => exists img,
    grow_behind raw2 img /\ P img /\ wstate dev img [] h').
Proof.
  intros Hb Hz Hh1 Hh2 Hw HP. pose proof (supers_runs ctx geo_ctx dev cur raw2 P h Hz) as H. rewrite Ectx in H.
  eapply runs_mono; [apply H; [|exact Hw|exact HP]|done|].
  - eapply layout_like; [exact Hh1|]. apply Hb.
  - intros [] h' _ (ws & img & HQ & Hm & E & Hw'). exists img. split; [|split; [by eapply HP|done]].
    by apply (behind_supers raw1 raw2 cur ws img Hb Hz Hh1 Hh2 HQ Hm).
Qed.

(** The first phase: the copies of the superblock are marked as unclean. *)
Lemma grow_start_spec st raw1 h :
  wstate dev base [] h -> zlen raw = 1024 -> with_clean raw st false = Ok raw1 ->
  runs dev (write_super_copies dev ctx raw1) h (all_crash dev grow_torn) (fun _ h' => exists cur,
    resealed s base cur /\ slice cur 1024 1024 = raw1 /\ is_clean cur = false /\ wstate dev cur [] h').
Proof.
  intros Hw Hz Hc. destruct (with_clean_spec _ _ _ _ Hz Hc) as (Hl & Hz1 & E16).
  assert (L : resize_layout s raw1 base).
  { eapply layout_like; [|apply Hset]. intros g. by apply has_super_like. }
  assert (HR : forall ws img, Forall (super_write s raw1) ws -> mixture ws base img -> resealed s base img).
  { intros ws img HQ Hm. pose proof (mixture_resealed ctx raw1 base Hz1) as H. rewrite Ectx in H.
    apply (H L ws img); [by rewrite Eraw|done|done]. }
  pose proof (supers_runs ctx geo_ctx dev base raw1 grow_torn h Hz1) as H. rewrite Ectx in H.
  eapply runs_mono; [apply H; [exact L|exact Hw|]|done|].
  - intros ws img HQ Hm. by eapply torn_resealed, HR.
  - intros [] h' _ (ws & img & HQ & Hm & E & Hw'). exists img. split_and!; [by eapply HR|done| |done].
    rewrite is_clean_read, E, E16. by rewrite unclean_bit.
Qed.

(** The fields of the superblock of the grown file system. *)
Lemma grown_super_state st st' raw1 raw3 c :
  zlen raw = 1024 -> with_clean raw st false = Ok raw1 ->
  with_clean (grown_super s raw1 target added) st' c = Ok raw3 ->
  zlen raw3 = 1024 /\ (forall g, group_has_super raw3 g = group_has_super raw1 g) /\
  (forall g, group_has_super raw1 g = group_has_super raw g) /\
  exists f, superblock_fields raw3 = with_state f (with_sizes target (free_blocks s + added) s).
Proof.
  intros Hz H1 H3. destruct (with_clean_spec _ _ _ _ Hz H1) as (L1 & Z1 & _).
  pose proof (zlen_grown raw1 Z1 target added) as Zg. pose proof (super_like_fields _ _ L1) as F1. rewrite Es in F1.
  assert (Eg : grown_super (superblock_fields raw1) raw1 target added = grown_super s raw1 target added) by by rewrite F1.
  rewrite Eg in Zg. destruct (with_clean_spec _ _ _ _ Zg H3) as (L3 & Z3 & _).
  split; [done|]. split; [|split].
  - intros g. rewrite (has_super_like _ _ g L3), <-Eg. by apply has_super_grown.
  - intros g. by apply has_super_like.
  - eexists. rewrite (super_like_fields _ _ L3), <-Eg. destruct Hset as [_ W1 W2 W3 _ _ _ _]. fold target in W1.
    pose proof (geo_block_size ctx geo_ctx) as Hbs. rewrite Ectx in Hbs.
    assert (Ht : target < 2 ^ 64).
    { unfold target in *. destruct (Z.lt_ge_cases target_bytes 0).
      - assert (target_bytes / block_size s < 0) by (apply Z.div_lt_upper_bound; lia). lia.
      - assert (target_bytes / block_size s <= target_bytes) by (apply Z.div_le_upper_bound; nia). lia. }
    rewrite (grown_super_fields raw1 Z1 target added); rewrite ?F1; [reflexivity|exact W1|exact Ht|].
    change (0 <= free_blocks s + added <= target). destruct Hgeo as [_ _ _ G4 _ _ _]. unfold added. lia.
Qed.

Definition grow_report : GrowReport :=
  mkGrowReport (blocks_count s) target added (free_blocks s + added) (go_verify_after o).
(** What a growth leaves when it returns. *)
Definition grow_ended (r : GrowReport) (h' : Host) : Prop :=
  r = grow_report /\ exists img, wstate dev img [] h' /\ is_clean img = true /\
    kept (resize_place s raw base) base img /\ grow_done img.

Section Room.
Context (Hroom : forall b, blocks_count s <= b < target ->
  grow_room s (desc_at base s last) (block_bitmap_at base s last) gs b).

(** The last phase: the new superblock, verified, is marked as clean. *)
Lemma grow_clean_spec st raw1 raw3 raw4 cur h :
  zlen raw = 1024 -> with_clean raw st false = Ok raw1 ->
  with_clean (grown_super s raw1 target added) st false = Ok raw3 -> with_clean raw3 st true = Ok raw4 ->
  grow_behind raw3 cur -> (go_verify_after o = true -> verified_image cur) -> wstate dev cur [] h ->
  runs dev (write_super_copies dev ctx raw4;; mret grow_report) h (all_crash dev grow_torn) grow_ended.
Proof.
  intros Hz H1 H3 H4 Hb Hv Hw. destruct (grown_super_state _ _ _ _ _ Hz H1 H3) as (Z3 & Hh3 & Hh1 & f & F3).
  destruct (with_clean_spec _ _ _ _ Z3 H4) as (L4 & Z4 & E16). pose proof (gb_super _ _ Hb) as Hs3.
  assert (Hh4 : forall g, group_has_super raw4 g = group_has_super raw3 g) by (intros g; by apply has_super_like).
  assert (Hh : forall g, group_has_super raw3 g = group_has_super raw g) by (intros g; by rewrite Hh3).
  assert (HD : forall ws img, Forall (super_write s raw4) ws -> mixture ws cur img ->
    kept (resize_place s raw base) base img /\ grow_done img).
  { intros ws img HQ Hm. destruct (behind_supers raw3 raw4 cur ws img Hb Z4 Hh4 Hh HQ Hm) as (K & _ & U).
    split; [exact K|]. split; [|exact Hroom].
    assert (R : resealed s cur img).
    { pose proof (mixture_resealed ctx raw4 cur Z4) as H. rewrite Ectx in H.
      apply (H ltac:(eapply layout_like; [exact Hh4|apply Hb]) ws img); [by rewrite Hs3|done|done]. }
    split; [|exact U|].
    - eexists. rewrite (super_like_fields _ _ (rs_super _ _ _ R)), Hs3, F3. reflexivity.
    - intros Hc. exists cur. split; [by apply Hv|exact R]. }
  eapply runs_bind.
  - eapply runs_mono; [apply (grow_supers raw3 raw4 (fun img => kept (resize_place s raw base) base img /\ grow_done img) cur);
      [exact Hb|exact Z4|exact Hh4|exact Hh|exact Hw|exact HD]| |intros a h' _ HP; exact HP].
    intros h' _ HP img Hc. destruct (HP img Hc) as [K D]. split; [done|]. right. by right.
  - intros [] h1 _ (img & Hb4 & [K D] & Hw1). apply runs_ret. split; [done|]. exists img. split_and!; [done| |done|done].
    rewrite is_clean_read, (gb_super _ _ Hb4), E16. apply negb_true_iff, Z.eqb_neq, clean_bit.
Qed.

(** The new sizes are written, and verified on request. *)
Lemma grow_sizes_spec st raw1 raw3 cur h :
  zlen raw = 1024 -> with_clean raw st false = Ok raw1 ->
  with_clean (grown_super s raw1 target added) st false = Ok raw3 ->
  grow_behind raw1 cur -> wstate dev cur [] h ->
  runs dev (write_super_copies dev ctx raw3) h (all_crash dev grow_torn) (fun _ h' => exists img,
    grow_behind raw3 img /\ grow_torn img /\ wstate dev img [] h').
Proof.
  intros Hz H1 H3 Hb Hw. destruct (grown_super_state _ _ _ _ _ Hz H1 H3) as (Z3 & Hh3 & Hh1 & _).
  destruct (with_clean_spec _ _ _ _ Hz H1) as (_ & _ & E1). pose proof (gb_super _ _ Hb) as Hs.
  eapply runs_mono; [apply (grow_supers raw1 raw3 grow_torn cur h Hb Z3 Hh3 Hh1 Hw)|done|intros [] h' _ HP; exact HP].
  intros ws img HQ Hm. destruct (behind_supers raw1 raw3 cur ws img Hb Z3 Hh3 Hh1 HQ Hm) as (K & _ & _).
  split; [exact K|left]. pose proof (mixture_unclean ctx raw3 cur) as H. rewrite Ectx in H.
  apply (H ltac:(eapply layout_like; [exact Hh3|apply Hb]) ws img); [|by rewrite is_clean_read, Hs, E1, unclean_bit|done|done].
  pose proof (zlen_grown raw1) as Zg. destruct (with_clean_spec _ _ _ _ Hz H1) as (L1 & Z1 & _).
  specialize (Zg Z1 target added). pose proof (super_like_fields _ _ L1) as F1. rewrite Es in F1. rewrite F1 in Zg.
  destruct (with_clean_spec _ _ _ _ Zg H3) as (_ & _ & ->). apply unclean_bit.
Qed.

Lemma grow_end_spec st raw1 raw3 cur h :
  zlen raw = 1024 -> with_clean raw st false = Ok raw1 ->
  with_clean (grown_super s raw1 target added) st false = Ok raw3 ->
  grow_behind raw3 cur -> grow_torn cur -> wstate dev cur [] h ->
  runs dev (verified ← (if go_verify_after o
                  then
                    v ← verify_metadata dev false;
                    if negb (m_clean v)
                    then failM corrupt "post-grow metadata verification failed; filesystem intentionally left unclean"
                    else mret true
                  else mret false);
      sbraw ← lift (with_clean raw3 st true);
      write_super_copies dev ctx sbraw;;
      mret (mkGrowReport (blocks_count s) target added (free_blocks s + added) verified)) h
    (all_crash dev grow_torn) grow_ended.
Proof.
  intros Hz H1 H3 Hb Ht Hw. assert (Hstop : forall h', quiet h h' -> all_crash dev grow_torn h') by (intros; by eapply all_quiet).
  eapply (runs_bind _ _ _ _ _ (fun v h' => v = go_verify_after o /\ (v = true -> verified_image cur) /\ wstate dev cur [] h')).
  { destruct (go_verify_after o); [|by apply runs_ret].
    eapply runs_bind; [eapply runs_yields; [by apply (verify_metadata_spec dev cur false)|exact Hstop]|].
    intros v h1 _ [(_ & _ & _ & Hv) Hq]. destruct (m_clean v); cbn [negb]; [|by apply runs_failM, Hstop].
    apply runs_ret. split; [done|]. split; [by intros _; apply Hv|]. by eapply wstate_quiet. }
  intros v h1 _ (-> & Hv & Hw1). apply runs_pure; [by eapply all_settled|]. intros raw4 H4.
  by apply (grow_clean_spec st raw1 raw3 raw4 cur).
Qed.
End Room.

Lemma grow_changes_spec h :
  wstate dev base [] h ->
  runs dev (grow_changes dev ctx target_bytes o) h (all_crash dev grow_torn) grow_ended.
Proof.
  intros Hw. destruct (last_group_width s Hgeo) as (El & Hgs0 & Hgs). pose proof Hgeo as [_ [G1 G2] _ G4 _ _ _].
  destruct (groups_count_spec s) as [Hg1 _]; [lia..|].
  assert (Hl : 0 <= last) by (unfold last; lia).
  assert (Hbase : grow_torn base) by (apply torn_resealed, resealed_refl).
  unfold grow_changes. cbv zeta. rewrite Ectx, El. fold last target gs. 
  assert (Hn : forall c msg h', wstate dev base [] h' -> runs dev (failM (A:=GrowReport) c msg) h' (all_crash dev grow_torn) grow_ended).
  { intros. by eapply runs_failM, all_settled. }
  pose proof (yields_desc dev base ctx) as Y1. pose proof (yields_descriptor dev base ctx) as Y2.
  pose proof (yields_block_bitmap dev base ctx) as Y3. rewrite Ectx in Y1, Y2, Y3.
  rstep Hw by (by apply Y1) stop (by eapply all_quiet) as gd Hgd. subst gd.
  rstep Hw by (by apply Y2) stop (by eapply all_quiet) as gdr Hgdr. subst gdr.
  rstep Hw by (by apply Y3) stop (by eapply all_quiet) as bm Hbm. subst bm.
  apply runs_pure; [by eapply all_settled|]. intros [] Hroom.
  assert (Hroom' : forall b, blocks_count s <= b < target ->
    grow_room s (desc_at base s last) (block_bitmap_at base s last) gs b).
  { intros b Hb. eapply check_grow_range_spec; [exact Hroom|]. lia. }
  clear Hroom. unfold read_raw_superblock.
  rstep Hw by (apply (yields_read dev base [] 1024 1024); [exact Hw|lia|lia]) stop (by eapply all_quiet) as sbraw Hsb.
  destruct Hsb as (-> & Hz & _). cbn [put_all foldl] in *. rewrite Eraw in Hz |- *.
  apply runs_pure; [by eapply all_settled|]. intros raw1 H1.
  eapply runs_bind; [by apply (grow_start_spec (read_le16 raw 0x3a) raw1)|].
  intros [] ha _ (cur & R & Hs & Hc & Hw1). fold added.
  destruct (_ <? _); [eapply runs_failM, all_settled; [exact Hw1|by apply torn_resealed]|].
  eapply runs_bind; [by apply (grow_last_spec cur raw1)|].
  intros [] hb _ (img2 & Hb & Hw2).
  assert (Ht2 : grow_torn img2).
  { split; [apply Hb|left]. destruct (with_clean_spec _ _ _ _ Hz H1) as (_ & _ & E1).
    by rewrite is_clean_read, (gb_super _ _ Hb), E1, unclean_bit. }
  destruct (_ <? _); [eapply runs_failM, all_settled; [exact Hw2|exact Ht2]|].
  apply runs_pure; [by eapply all_settled|]. intros raw3 H3.
  eapply runs_bind; [by apply (grow_sizes_spec (read_le16 raw 0x3a) raw1 raw3 img2)|].
  intros [] hc _ (img3 & Hb3 & Ht3 & Hw3).
  by apply (grow_end_spec Hroom' (read_le16 raw 0x3a) raw1 raw3 img3).
Qed.
End GrowChanges.

Lemma metadata_seed_width raw : in_width 32 (metadata_seed raw).
Proof.
  unfold metadata_seed. case_match; [exact (read_le_bound 4 raw _)|]. apply crc32c_width. auto with fsx.
Qed.

(** The checks ahead of the changes only read. *)
Lemma grow_within_spec dev base raw s target_bytes o :
  slice base 1024 1024 = raw -> superblock_fields raw = s -> grow_setting s raw base target_bytes ->
  forall h, wstate dev base [] h ->
  runs dev (grow_within_last_group dev target_bytes o) h
    (all_crash dev (grow_torn base raw s target_bytes o)) (grow_ended dev base raw s target_bytes o).
Proof.
  intros Eraw Es Hset h Hw. assert (Hbase : grow_torn base raw s target_bytes o base).
  { by apply torn_resealed, resealed_refl. }
  unfold grow_within_last_group.
  rstep Hw by (apply (yields_reader dev base [] _ _ (fun _ => True) Hw); [exact (reader_offline dev dev)|done])
    stop (by eapply all_quiet) as u Hu.
  rstep Hw by (apply (yields_reader dev base [] _ _ (fun _ => True) Hw); [exact (reader_inspect dev dev)|done])
    stop (by eapply all_quiet) as ds Hds.
  destruct (_ && _); [by eapply runs_failM, all_settled|].
  rstep Hw by (by apply (yields_context dev base)) stop (by eapply all_quiet) as ctx Hctx.
  cbv zeta in Hctx. rewrite Eraw, Es in Hctx. destruct Hctx as (Ec & Hgeo & _).
  assert (Esb : sb ctx = s) by (by rewrite Ec). rewrite Esb in Hgeo.
  assert (Hseed : in_width 32 (checksum_seed ctx)) by (rewrite Ec; apply metadata_seed_width).
  apply runs_pure; [by eapply all_settled|]. intros [] Hc. rewrite Esb in Hc.
  pose proof Hset as [_ _ _ _ Hin _ _ _]. destruct Hgeo as [G1 G2 G3 G4 G5 G6 G7] eqn:Eg. clear Eg.
  assert (Hgeo' : geometry_ok s) by by split.
  pose proof (block_size_cases s G1) as Hbs.
  destruct (check_grow_target_spec dev s target_bytes Hgeo' Hin ltac:(lia) Hc) as (_ & Ht & _).
  by apply (grow_changes_spec dev ctx base raw s).
Qed.

(** C28: growing a file system inside its last group ends, and changes nothing
    but the device.  Whenever it stops, by an error or because the process ends,
    each image that a power cut may leave differs from the old one in the
    copies of the superblock and the places of the last group only, and is
    either marked as unclean, or the old file system with the state of its
    superblock alone changed, or the grown file system: its superblock has the
    new sizes, the old blocks are as they were, the new ones are free, were
    marked as unavailable and are no metadata, and its metadata has been
    verified where that was asked for.  When it returns, the device holds the
    grown file system, marked as clean. *)
Theorem grow_power_safe (dev : BlockDevice) (base : bytes) (target_bytes : Z) (o : GrowOptions) (h : Host)
    (Hset : grow_setting (superblock_fields (slice base 1024 1024)) (slice base 1024 1024) base target_bytes)
    (Hw : wstate dev base [] h) :
  let raw := slice base 1024 1024 in
  let s := superblock_fields raw in
  wp (grow_within_last_group dev target_bytes o) h (fun out h' => only_device dev h h' /\
    match out with
    | Ret r => grow_ended dev base raw s target_bytes o r h'
    | Fail _ | Exit _ => all_crash dev (grow_torn base raw s target_bytes o) h'
    | OutOfFuel => False
    end).
Proof. exact (grow_within_spec dev base _ _ target_bytes o eq_refl eq_refl Hset h Hw). Qed.

(** The file system of [demo_ext4], clean, with 12 of the 16 blocks. *)
Definition demo_grow_fs : bytes :=
  let put16 o v b := write_le16 b o v in
  let put32 o v b := write_le32 b o v in
  put16 3072 0x7a3f (put16 (2048 + 12) 4 (put16 (2048 + 14) 16
    (put32 (1024 + 0x04) 12 (put32 (1024 + 0x0c) 5 (put32 (1024 + 0x10) 16 (put16 (1024 + 0x3a) 1 demo_ext4)))))).
Definition demo_grow_host : Host := demo_host (mkFile Regular demo_grow_fs []) [].
Definition demo_grow : M GrowReport :=
  grow_within_last_group demo_ext4_device 16384 (mkGrowOptions false true).

Lemma demo_grow_setting :
  grow_setting (superblock_fields (slice demo_grow_fs 1024 1024)) (slice demo_grow_fs 1024 1024) demo_grow_fs 16384.
Proof.
  assert (E : groups_count (superblock_fields (slice demo_grow_fs 1024 1024)) = 1) by by vm_compute.
  assert (Hg : forall g, of_group (superblock_fields (slice demo_grow_fs 1024 1024)) g -> g = 0).
  { intros g Hg. unfold of_group in Hg. rewrite E in Hg. lia. }
  assert (Hb : forall g raw, ~ backup_at (superblock_fields (slice demo_grow_fs 1024 1024)) raw g).
  { intros g raw [Hb _]. rewrite E in Hb. lia. }
  split.
  - split; [split|..].
    + intros g g' ->%Hg ->%Hg. left. by vm_compute.
    + by intros g g' ->%Hg ->%Hg.
    + split; [done|]. intros g ->%Hg. split; left; by vm_compute.
    + by intros g []%Hb.
    + by intros g []%Hb.
  - right. by vm_compute.
  - done.
  - split; by vm_compute.
  - by vm_compute.
  - by vm_compute.
  - by vm_compute.
  - by vm_compute.
Qed.

Lemma grow_power_safe_witness :
  exists r, (demo_grow demo_grow_host).1 = Ret r /\
    only_device demo_ext4_device demo_grow_host (demo_grow demo_grow_host).2 /\
    grow_ended demo_ext4_device demo_grow_fs (slice demo_grow_fs 1024 1024)
      (superblock_fields (slice demo_grow_fs 1024 1024)) 16384 (mkGrowOptions false true) r
      (demo_grow demo_grow_host).2.
Proof.
  assert (Hw : wstate demo_ext4_device demo_grow_fs [] demo_grow_host).
  { apply (wstate_start demo_ext4_device demo_grow_host (mkFile Regular demo_grow_fs [])); [|done].
    split; [done|]. split; [by vm_compute|by apply Forall_nil]. }
  pose proof (grow_power_safe demo_ext4_device demo_grow_fs 16384 (mkGrowOptions false true) demo_grow_host
    demo_grow_setting Hw) as H. cbv zeta in H.
  destruct (wp_returns demo_grow demo_grow_host _ H ltac:(vm_compute; reflexivity)) as (r & Er & Hr).
  exists r. split; [exact Er|exact Hr].
Defined.
