(* ===== verification/Maintenance.v ===== *)
(** Labels of ext file systems and the repair of their counters
    (include/fsx/ext4_maintenance.hpp, src/ext4/maintenance.cpp), and what
    changing a label leaves at a power cut; [Repair.v] holds the proofs on the
    repair.  The helpers [is_power], [group_has_super], [set_u64_lohi] and
    [set_desc_free_blocks] are the same as in src/ext4/resize.cpp and
    src/ext4/mutate.cpp and are taken from [Resize.v] and [AllocUpdate.v].  The
    progress callback only reports and is left out. *)
From S2P Require Import Prelude Words Errors Endian Crc Host Device Durable Safety.
From S2P Require Import Ext4 Allocation Metadata MetadataCheck AllocUpdate OwnerSwitch Resize ResizeSafe ResizeGrow.
#[local] Open Scope Z_scope.

(** The loop over the first [bits] bits. *)
Definition count_set (bitmap : bytes) (bits : Z) : Z :=
  foldl (fun n i => if bit_set bitmap i then n + 1 else n) 0 (seqZ 0 bits).

Definition set_desc_free_inodes (gd : bytes) (v : Z) : bytes :=
  let gd := write_le16 gd 14 (u16 v) in
  if 48 <=? zlen gd then write_le16 gd 46 (u16 (Z.shiftr v 16)) else gd.

(** The loop over the groups behind the first that hold a copy. *)
Fixpoint superblock_copies (n : nat) (dev : BlockDevice) (ctx : MetadataContext) (primary : bytes) (g : Z)
    : M unit :=
  match n with
  | O => mret tt
  | S n =>
      (if negb (group_has_super primary g) then mret tt
       else
         copy ← lift (update_superblock_checksum (write_le16 primary 0x5a (u16 g)));
         write_exact dev (u64 (group_start_block (sb ctx) g * block_size (sb ctx))) copy);;
      superblock_copies n dev ctx primary (g + 1)
  end.

Definition write_superblock_copies (dev : BlockDevice) (ctx : MetadataContext) (raw : bytes) : M unit :=
  if negb (zlen raw =? 1024) then failM invalid_argument "superblock copy must be 1024 bytes"
  else
    write_raw_superblock dev raw;;
    superblock_copies (Z.to_nat (groups_count (sb ctx) - 1)) dev ctx raw 1;;
    Device.flush dev.

(** The loop over the groups that hold a copy of the descriptors. *)
Fixpoint descriptor_copies (n : nat) (dev : BlockDevice) (ctx : MetadataContext) (super : bytes)
    (descriptor_group : Z) (descriptor : bytes) (g : Z) : M unit :=
  match n with
  | O => mret tt
  | S n =>
      (if negb (group_has_super super g) then mret tt
       else
         let table_block := u64 (group_start_block (sb ctx) g + 1) in
         let off := u64 (u64 (table_block * block_size (sb ctx)) + u64 (descriptor_group * desc_bytes (sb ctx))) in
         write_exact dev off descriptor);;
      descriptor_copies n dev ctx super descriptor_group descriptor (g + 1)
  end.

Definition write_group_descriptor_copies (dev : BlockDevice) (ctx : MetadataContext) (super : bytes)
    (descriptor_group : Z) (descriptor : bytes) : M unit :=
  if has_flag (feature_incompat (sb ctx)) INCOMPAT_META_BG
  then failM unsupported "meta_bg group-descriptor backup repair is not implemented"
  else
    write_group_descriptor_raw dev ctx descriptor_group descriptor;;
    descriptor_copies (Z.to_nat (groups_count (sb ctx) - 1)) dev ctx super descriptor_group descriptor 1.

(** ** The repair of the counters *)

Record RepairOptions := mkRepairOptions {
  ro_allow_block_device : bool;
  ro_verify_after : bool
}.
Record RepairReport := mkRepairReport {
  groups_rewritten : Z;
  rp_free_blocks : Z;
  rp_free_inodes : Z;
  superblock_rewritten : bool;
  rp_verified : bool
}.

(** The inodes of a group that exist. *)
Definition valid_inodes (s : Superblock) (group : Z) : Z :=
  let first_inode := u64 (u64 (group * inodes_per_group s) + 1) in
  let remain := if first_inode <=? inodes_count s then inodes_count s - first_inode + 1 else 0 in
  Z.min (inodes_per_group s) remain.

(** The descriptor [gd] with the counters and the checksums of the bitmaps. *)
Definition repaired_descriptor (ctx : MetadataContext) (group : Z) (gd bb ib : bytes) (free_blocks free_inodes : Z)
    : Result bytes :=
  let gd := set_desc_free_blocks gd (u32 free_blocks) in
  let gd := set_desc_free_inodes gd (u32 free_inodes) in
  let gd := update_block_bitmap_checksum ctx gd bb in
  let gd := update_inode_bitmap_checksum ctx gd ib in
  update_group_descriptor_checksum ctx group gd.

(** One round of the loop over the groups: the free blocks and inodes of the
    group. *)
Definition repair_group (dev : BlockDevice) (ctx : MetadataContext) (raw_super : bytes) (group : Z) : M (Z * Z) :=
  let s := sb ctx in
  gd ← read_group_desc dev s group;
  gd_raw ← read_group_descriptor_raw dev ctx group;
  bb ← read_block_bitmap dev s gd;
  ib ← read_inode_bitmap dev s gd;
  let valid_blocks := group_block_count s group in
  let free_blocks := u64 (valid_blocks - count_set bb valid_blocks) in
  if 0xffffffff <? free_blocks then failM internal "group free-block count overflow"
  else
    let free_inodes := u64 (valid_inodes s group - count_set ib (valid_inodes s group)) in
    if 0xffffffff <? free_inodes then failM internal "group free-inode count overflow"
    else
      gd_raw ← lift (repaired_descriptor ctx group gd_raw bb ib free_blocks free_inodes);
      write_group_descriptor_copies dev ctx raw_super group gd_raw;;
      mret (free_blocks, free_inodes).

Fixpoint repair_groups (n : nat) (dev : BlockDevice) (ctx : MetadataContext) (raw_super : bytes) (group : Z)
    (report : RepairReport) : M RepairReport :=
  match n with
  | O => mret report
  | S n =>
      stop ← cancel_requested;
      if (stop : bool) then failM unsafe "metadata repair cancelled before the next group write"
      else
        p ← repair_group dev ctx raw_super group;
        repair_groups n dev ctx raw_super (group + 1)
          (mkRepairReport (groups_rewritten report + 1) (u64 (rp_free_blocks report + p.1))
             (u64 (rp_free_inodes report + p.2)) (superblock_rewritten report) (rp_verified report))
  end.

(** The superblock with the totals of the report. *)
Definition repaired_super (raw_super : bytes) (report : RepairReport) : Result bytes :=
  update_superblock_checksum
    (write_le32 (set_u64_lohi raw_super 0x0c 0x158 (rp_free_blocks report)) 0x10 (u32 (rp_free_inodes report))).

(** The changes of a repair, behind the checks. *)
Definition repair_changes (dev : BlockDevice) (ctx : MetadataContext) (options : RepairOptions) : M RepairReport :=
  raw_super ← read_raw_superblock dev;
  report ← repair_groups (Z.to_nat (groups_count (sb ctx))) dev ctx raw_super 0 (mkRepairReport 0 0 0 false false);
  raw_super ← lift (repaired_super raw_super report);
  write_superblock_copies dev ctx raw_super;;
  let report := mkRepairReport (groups_rewritten report) (rp_free_blocks report) (rp_free_inodes report) true
                  (rp_verified report) in
  if ro_verify_after options then
    verify ← verify_metadata dev false;
    if negb (m_clean verify)
    then failM corrupt "metadata verification still reports errors after conservative repair"
    else mret (mkRepairReport (groups_rewritten report) (rp_free_blocks report) (rp_free_inodes report)
                 (superblock_rewritten report) true)
  else mret report.

Definition repair_metadata_counters (dev : BlockDevice) (options : RepairOptions) : M RepairReport :=
  require_offline_for_write dev;;
  ds ← inspect_device_safety dev;
  if block_device ds && negb (ro_allow_block_device options)
  then failM unsafe "block-device metadata repair requires --allow-block-device"
  else
    ctx ← load_metadata_context dev true;
    if has_flag (feature_incompat (sb ctx)) INCOMPAT_META_BG
    then failM unsupported "metadata repair currently refuses meta_bg"
    else if has_flag (feature_ro_compat (sb ctx)) RO_COMPAT_BIGALLOC
    then failM unsupported "metadata repair currently refuses bigalloc"
    else if has_flag (feature_incompat (sb ctx)) INCOMPAT_RECOVER
    then failM unsafe "filesystem journal recovery is required before offline repair"
    else repair_changes dev ctx options.

(** ** The label *)

Definition label_bytes (label : string) : bytes :=
  map (fun c => byte.of_Z (Z.of_nat (Ascii.nat_of_ascii c))) (String.list_ascii_of_string label).

(** The field is cleared before the label is put in. *)
Definition with_label (raw : bytes) (label : string) : bytes :=
  splice (splice raw 0x78 (zeros 16)) 0x78 (label_bytes label).

Definition set_volume_label (dev : BlockDevice) (label : string) (allow_block_device : bool) : M unit :=
  if 16 <? zlen (label_bytes label) then failM invalid_argument "ext volume label is limited to 16 bytes"
  else
    require_offline_for_write dev;;
    ds ← inspect_device_safety dev;
    if block_device ds && negb allow_block_device
    then failM unsafe "block-device tuning requires --allow-block-device"
    else
      ctx ← load_metadata_context dev false;
      raw ← read_raw_superblock dev;
      raw ← lift (update_superblock_checksum (with_label raw label));
      write_superblock_copies dev ctx raw.

(** ** Bits and writes *)

Lemma count_set_bits bm n : count_set bm n = count_bits bm n.
Proof.
  unfold count_set, count_bits. assert (H : forall l a,
    foldl (fun n i => if bit_set bm i then n + 1 else n) a l = a + zlen (filter (fun i => bit_set bm i = true) l)).
  { intros l. induction l as [|i l IH]; intros a; cbn [foldl]; [unfold zlen; cbn; lia|]. rewrite IH, filter_cons.
    destruct (bit_set bm i); case_decide; try done; rewrite ?zlen_cons; lia. }
  by rewrite H.
Qed.

(** A write that every other write of the group lies apart from. *)
Lemma slice_put_all_member ws w c :
  Forall (inside (zlen c)) ws -> w ∈ ws -> Forall (fun w' => w' = w \/ apart w.1 (zlen w.2) w') ws ->
  slice (put_all ws c) w.1 (zlen w.2) = w.2.
Proof.
  induction ws as [|w' ws IH] using rev_ind; intros Hin Hm Ha; [by apply elem_of_nil in Hm|].
  apply Forall_app in Hin as [Hin [Hi _]%Forall_cons]. apply Forall_app in Ha as [Ha [Hw _]%Forall_cons].
  pose proof (zlen_put_all _ _ Hin) as Hz. rewrite put_all_snoc. destruct Hi as [H0 H1]. pose proof (zlen_nonneg w'.2).
  destruct (decide (w' = w)) as [->|Hne]; [by apply slice_splice_eq; lia|].
  destruct Hw as [->|Hw]; [done|]. apply elem_of_app in Hm as [Hm| ->%list_elem_of_singleton]; [|done].
  pose proof (proj1 (list.Forall_forall _ _) Hin w Hm) as [W0 W1]. rewrite slice_splice_ne by (unfold apart in Hw; lia).
  by apply IH.
Qed.

(** ** Copies of a superblock *)

(** The copy of the superblock [raw] in the group [g]. *)
Definition super_copy (raw : bytes) (g : Z) (copy : bytes) : Prop :=
  update_superblock_checksum (write_le16 raw 0x5a (u16 g)) = Ok copy.
Definition copy_write (s : Superblock) (raw : bytes) (w : Z * bytes) : Prop :=
  exists g, backup_at s raw g /\ w.1 = backup_off s g /\ super_copy raw g w.2.

Lemma super_copy_spec raw g copy :
  zlen raw = 1024 -> super_copy raw g copy ->
  zlen copy = 1024 /\ verify_superblock_checksum copy = true /\ read_le16 copy 0x5a = u16 g /\
  forall o n, 0 <= o -> o + n <= 0x5a \/ 0x5c <= o -> o + n <= 1020 -> slice copy o n = slice raw o n.
Proof.
  intros Hz Hc. apply superblock_roundtrip in Hc as (Hv & Hzc & Hs). unfold write_le16, SB_CHECKSUM_OFF in *.
  rewrite zlen_write_le in Hzc. split; [lia|]. split; [done|]. split.
  - rewrite (read_le_ext 2 copy (write_le 2 raw 0x5a (u16 g)) 0x5a 0x5a); rewrite ?zlen_write_le; try (cbn; lia).
    + apply read_write_le_eq; (lia || apply u16_width).
    + apply Hs; cbn; lia.
  - intros o n Ho Hd Hn. rewrite Hs by lia. apply slice_write_le_ne; lia.
Qed.

Lemma copy_write_backup s raw w : zlen raw = 1024 -> copy_write s raw w -> backup_write s raw w.
Proof. intros Hz (g & Hg & E & Hc). exists g. split; [done|]. split; [done|]. by apply (super_copy_spec raw g). Qed.

Section Copies.
Context (dev : BlockDevice) (ctx : MetadataContext) (Hgeo : geometry_ok (sb ctx)) (raw : bytes).
Let s := sb ctx.
Context (Hz : zlen raw = 1024) (Hroom : blocks_count s * block_size s < 2 ^ 64).

Lemma backup_off_range g : 1 <= g < groups_count s -> 0 <= backup_off s g < 2 ^ 64.
Proof.
  intros Hg. pose proof (group_start_nonneg ctx Hgeo g ltac:(fold s; lia)) as H0. fold s in H0.
  destruct (group_start_spec s Hgeo g ltac:(lia)) as [_ H1]. pose proof (geo_block_size ctx Hgeo) as Hbs. fold s in Hbs.
  unfold backup_off. nia.
Qed.

(** Two copies lie apart. *)
Lemma backup_off_apart g g' :
  1 <= g < groups_count s -> 1 <= g' < groups_count s -> g <> g' ->
  backup_off s g + 1024 <= backup_off s g' \/ backup_off s g' + 1024 <= backup_off s g.
Proof.
  intros Hg Hg' Hne. destruct (group_start_spec s Hgeo g ltac:(lia)) as [E1 _].
  destruct (group_start_spec s Hgeo g' ltac:(lia)) as [E2 _]. pose proof (geo_block_size ctx Hgeo) as Hbs. fold s in Hbs.
  pose proof Hgeo as [_ G2 _ _ _ _ _]. fold s in G2. unfold backup_off. rewrite E1, E2.
  set (f := first_data_block s). set (n := blocks_per_group s) in *.
  assert (g + 1 <= g' \/ g' + 1 <= g) as [H|H] by lia; [left; assert (f + g * n + 1 <= f + g' * n) by nia
    |right; assert (f + g' * n + 1 <= f + g * n) by nia]; nia.
Qed.

Lemma superblock_copies_spec (Q : Z * bytes -> Prop) n g cur ws h :
  wstate dev cur ws h -> Forall Q ws -> (forall w, copy_write s raw w -> Q w) -> 1 <= g ->
  g + Z.of_nat n <= groups_count s ->
  runs dev (superblock_copies n dev ctx raw g) h (mixed_stop dev Q cur) (fun _ h' => exists ws',
    Forall (copy_write s raw) ws' /\ wstate dev cur (ws ++ ws') h' /\
    forall b, backup_at s raw b -> g <= b < g + Z.of_nat n -> exists copy, super_copy raw b copy /\ (backup_off s b, copy) ∈ ws').
Proof.
  intros Hw HQ Himp. revert g ws h Hw HQ. induction n as [|n IH]; intros g ws h Hw HQ Hg Hn; cbn [superblock_copies].
  { apply runs_ret. exists []. rewrite app_nil_r. split; [by apply Forall_nil|]. split; [done|]. lia. }
  eapply (runs_bind _ _ _ _ _ (fun _ h' => exists ws', Forall (copy_write s raw) ws' /\ wstate dev cur (ws ++ ws') h' /\
    (backup_at s raw g -> exists copy, super_copy raw g copy /\ (backup_off s g, copy) ∈ ws'))).
  { destruct (group_has_super raw g) eqn:Eg; cbn [negb].
    2: { apply runs_ret. exists []. rewrite app_nil_r. split; [by apply Forall_nil|]. split; [done|]. intros [_ ?]. congruence. }
    apply runs_pure; [by eapply mixed_quiet, quiet_refl|]. intros copy Hc.
    pose proof (backup_off_range g ltac:(lia)) as Hr. fold s. fold (backup_off s g).
    rewrite (wrap_id 64 (backup_off s g)) by (unfold in_width; lia).
    assert (Hb : copy_write s raw (backup_off s g, copy)).
    { exists g. split; [split; [lia|done]|]. by split. }
    eapply runs_mono; [apply (mixed_write dev Q cur ws); [exact Hw|lia|exact HQ|by apply Himp]|done|].
    intros [] h' _ Hw'. exists [(backup_off s g, copy)]. split; [by apply Forall_singleton|]. split; [exact Hw'|].
    intros _. exists copy. split; [exact Hc|]. by apply list_elem_of_singleton. }
  intros [] h1 _ (ws1 & HQ1 & Hw1 & Hm1).
  assert (HQ' : Forall Q (ws ++ ws1)).
  { apply Forall_app. split; [done|]. eapply list.Forall_impl; [exact HQ1|done]. }
  eapply runs_mono; [apply (IH (g + 1) (ws ++ ws1) h1 Hw1 HQ'); lia|done|].
  intros [] h' _ (ws2 & HQ2 & Hw2 & Hm2). exists (ws1 ++ ws2). split; [by apply Forall_app|]. split; [by rewrite app_assoc|].
  intros b Hb Hrange. destruct (Z.eq_dec b g) as [->|].
  - destruct (Hm1 Hb) as (copy & Hc & Hin). exists copy. split; [done|]. apply elem_of_app. by left.
  - destruct (Hm2 b Hb ltac:(lia)) as (copy & Hc & Hin). exists copy. split; [done|]. apply elem_of_app. by right.
Qed.

(** The image holds the superblock [raw] and its copies. *)
Definition supers_hold (img : bytes) : Prop :=
  slice img 1024 1024 = raw /\
  forall b, backup_at s raw b -> super_copy raw b (slice img (backup_off s b) 1024).

Lemma supers_put ws cur :
  (forall b, backup_at s raw b -> 2048 <= backup_off s b) ->
  Forall (copy_write s raw) ws -> Forall (inside (zlen cur)) ((1024, raw) :: ws) ->
  (forall b, backup_at s raw b -> exists copy, super_copy raw b copy /\ (backup_off s b, copy) ∈ ws) ->
  supers_hold (put_all ((1024, raw) :: ws) cur).
Proof.
  intros Hb HQ Hin Hm. split.
  - pose proof (slice_put_all_write [] (1024, raw) ws cur Hin) as H. cbn [fst snd app] in H. rewrite Hz in H. apply H.
    eapply list.Forall_impl; [exact HQ|]. intros w (g & Hg & E & _). unfold apart. specialize (Hb g Hg). lia.
  - intros b Hat. destruct (Hm b Hat) as (copy & Hc & Hmem). destruct (super_copy_spec raw b copy Hz Hc) as (Hzc & _).
    pose proof (slice_put_all_member ((1024, raw) :: ws) (backup_off s b, copy) cur Hin) as H. cbn [fst snd] in H.
    rewrite Hzc in H. rewrite H; [done|by right|]. apply Forall_cons. split.
    + right. unfold apart. cbn [fst snd]. specialize (Hb b Hat). lia.
    + eapply list.Forall_impl; [exact HQ|]. intros [o d] (g & Hg & E & Hd). cbn [fst snd] in E, Hd. subst o.
      destruct (Z.eq_dec g b) as [->|Hne]; [left; unfold super_copy in *; congruence|right].
      unfold apart. cbn [fst snd]. destruct (super_copy_spec raw g d Hz Hd) as (-> & _).
      destruct (backup_off_apart g b); [apply Hg|apply Hat|done|lia|lia].
Qed.

Lemma write_superblock_copies_spec (Q : Z * bytes -> Prop) cur ws h :
  wstate dev cur ws h -> Forall Q ws -> (forall w, w = (1024, raw) \/ copy_write s raw w -> Q w) ->
  runs dev (write_superblock_copies dev ctx raw) h (mixed_stop dev Q cur) (fun _ h' => exists ws',
    Forall (copy_write s raw) ws' /\ Forall Q (ws ++ (1024, raw) :: ws') /\
    Forall (inside (zlen cur)) (ws ++ (1024, raw) :: ws') /\
    (forall b, backup_at s raw b -> exists copy, super_copy raw b copy /\ (backup_off s b, copy) ∈ ws') /\
    wstate dev (put_all (ws ++ (1024, raw) :: ws') cur) [] h').
Proof.
  intros Hw HQ Himp. unfold write_superblock_copies, write_raw_superblock. rewrite Hz, Z.eqb_refl. cbn [negb].
  eapply runs_bind; [apply (mixed_write dev Q cur ws); [exact Hw|lia|exact HQ|apply Himp; by left]|].
  intros [] h1 _ Hw1. pose proof Hgeo as [_ _ G3 _ _ G6 _]. assert (Hg1 : 1 <= groups_count s) by (unfold s; nia).
  assert (HQ1 : Forall Q (ws ++ [(1024, raw)])).
  { apply Forall_app. split; [done|]. apply Forall_singleton, Himp. by left. }
  eapply runs_bind; [apply (superblock_copies_spec Q _ 1 cur _ h1 Hw1 HQ1); [intros w Hc; apply Himp; by right|lia|fold s; lia]|].
  intros [] h2 _ (ws' & HQ2 & Hw2 & Hm). rewrite <-app_assoc in Hw2. cbn [app] in Hw2.
  assert (HQ' : Forall Q (ws ++ (1024, raw) :: ws')).
  { apply Forall_app. split; [done|]. apply Forall_cons. split; [apply Himp; by left|].
    eapply list.Forall_impl; [exact HQ2|]. intros w Hc. apply Himp. by right. }
  eapply runs_mono; [by apply (mixed_flush dev Q cur _ h2 Hw2)|done|].
  intros [] h' _ Hw'. exists ws'. split_and!; [done|done|apply Hw2| |done].
  intros b Hb. apply Hm; [done|]. destruct Hb. fold s. lia.
Qed.
End Copies.

(** What a load of the context returns, with and without the check of the
    superblock's checksum. *)
Lemma yields_any_context d base tolerate h :
  wstate d base [] h ->
  yields (load_metadata_context d tolerate) h (fun ctx =>
    let raw := slice base 1024 1024 in
    ctx = context_of (superblock_fields raw) raw /\ geometry_ok (sb ctx) /\ zlen raw = 1024 /\
    blocks_count (sb ctx) * block_size (sb ctx) <= zlen base).
Proof.
  intros Hw. unfold load_metadata_context, read_raw_superblock. cbv zeta.
  step Hw by (exact (read_superblock_spec d base [] h Hw)) as s Hs. destruct Hs as (-> & Hchk & Hroom).
  cbn [put_all foldl] in *.
  step Hw by (apply (yields_read d base [] 1024 1024); [exact Hw|lia|lia]) as raw Hraw.
  destruct Hraw as (-> & Hz & Hsz). cbn [put_all foldl] in *.
  destruct (superblock_fields_width (slice base 1024 1024)) as (W1 & W2 & W3 & W4 & W5 & W6 & W7).
  destruct (check_superblock_geometry _ _ W1 W2 W3 W4 W5 W6 W7 Hchk) as [Hgeo Hfit].
  destruct (_ && _ && _); [apply yields_failM|]. apply yields_ret. split; [done|]. split; [exact Hgeo|]. split; [done|].
  change (sb (context_of ?s ?b)) with s. pose proof (ws_len _ _ _ _ Hw) as Hlen.
  pose proof (block_size_cases _ (geo_log _ Hgeo)) as Hbs.
  set (s := superblock_fields _) in *. rewrite <-Hlen in Hfit. specialize (Hfit ltac:(lia)).
  pose proof (Z.mul_div_le (zlen base) (block_size s) ltac:(lia)). nia.
Qed.

(** ** Changing the label *)

Section Label.
Context (raw : bytes) (label : string) (Hz : zlen raw = 1024) (Hl : zlen (label_bytes label) <= 16).

Lemma zlen_cleared : zlen (splice raw 0x78 (zeros 16)) = 1024.
Proof. rewrite zlen_splice; rewrite ?zlen_zeros; lia. Qed.
Lemma zlen_with_label : zlen (with_label raw label) = 1024.
Proof. unfold with_label. pose proof zlen_cleared. rewrite zlen_splice; lia. Qed.

Lemma with_label_field : slice (with_label raw label) 0x78 16 = label_bytes label ++ zeros (16 - zlen (label_bytes label)).
Proof.
  pose proof (zlen_nonneg (label_bytes label)) as H0. unfold with_label. set (l := label_bytes label) in *.
  pose proof zlen_cleared as Hc.
  replace 16 with (zlen l + (16 - zlen l)) at 2 by lia. rewrite slice_split by lia.
  rewrite slice_splice_eq by lia. f_equal. rewrite slice_splice_ne by lia.
  rewrite slice_splice_sub by (rewrite ?zlen_zeros; lia).
  apply list_eq. intros i. rewrite lookup_slice by lia. unfold zeros. case_decide as Hi.
  - rewrite !lookup_replicate_2 by lia. done.
  - symmetry. apply lookup_ge_None. rewrite length_replicate. lia.
Qed.

Lemma with_label_rest o n : 0 <= o -> o + n <= 0x78 \/ 0x88 <= o -> slice (with_label raw label) o n = slice raw o n.
Proof.
  intros Ho Hd. unfold with_label. pose proof zlen_cleared. rewrite slice_splice_ne by lia.
  rewrite slice_splice_ne by (rewrite ?zlen_zeros; lia). done.
Qed.

(** The sealed superblock with the label. *)
Lemma sealed_label raw' :
  update_superblock_checksum (with_label raw label) = Ok raw' ->
  zlen raw' = 1024 /\ verify_superblock_checksum raw' = true /\
  slice raw' 0x78 16 = label_bytes label ++ zeros (16 - zlen (label_bytes label)) /\
  (forall o n, 0 <= o -> o + n <= 0x78 \/ 0x88 <= o /\ o + n <= 1020 -> slice raw' o n = slice raw o n) /\
  (forall g, group_has_super raw' g = group_has_super raw g).
Proof.
  intros Hu. apply superblock_roundtrip in Hu as (Hv & Hz' & Hs). rewrite zlen_with_label in Hz'. unfold SB_CHECKSUM_OFF in Hs.
  assert (Hrest : forall o n, 0 <= o -> o + n <= 0x78 \/ 0x88 <= o /\ o + n <= 1020 -> slice raw' o n = slice raw o n).
  { intros o n Ho Hd. rewrite Hs by lia. apply with_label_rest; lia. }
  split; [done|]. split; [done|]. split; [|split; [done|]].
  - rewrite Hs by lia. apply with_label_field.
  - intros g. assert (Hr : forall o, 0x88 <= o \/ o + 4 <= 0x78 -> 0 <= o <= 1016 -> read_le32 raw' o = read_le32 raw o).
    { intros o Hd Ho. apply read_le_ext; try (cbn; lia). change (Z.of_nat 4) with 4. apply Hrest; lia. }
    unfold group_has_super. by rewrite !Hr by lia.
Qed.

(** A label without a zero byte is what is read back. *)
Lemma label_read_back :
  Ascii.zero ∉ String.list_ascii_of_string label ->
  fixed_string (label_bytes label ++ zeros (16 - zlen (label_bytes label))) = label.
Proof.
  generalize (16 - zlen (label_bytes label)) as n. clear Hl. intros n. unfold label_bytes.
  induction label as [|c l IH]; cbn [String.list_ascii_of_string map app].
  - intros _. unfold zeros. by destruct (Z.to_nat n).
  - intros Hn. apply not_elem_of_cons in Hn as [Hc Hn]. cbn [fixed_string].
    assert (Hb : byte.unsigned (byte.of_Z (Z.of_nat (Ascii.nat_of_ascii c))) = Z.of_nat (Ascii.nat_of_ascii c)).
    { rewrite byte.unsigned_of_Z. pose proof (Ascii.nat_ascii_bounded c). unfold byte.wrap. apply Z.mod_small. lia. }
    rewrite Hb, Nat2Z.id, Ascii.ascii_nat_embedding, IH by done. destruct (Z.eqb_spec (Z.of_nat (Ascii.nat_of_ascii c)) 0) as [E|]; [|done].
    exfalso. apply Hc. rewrite <-(Ascii.ascii_nat_embedding c). by replace (Ascii.nat_of_ascii c) with 0%nat by lia.
Qed.
End Label.

(** The bytes of the superblock while it and places behind it are written. *)
Lemma mixture_primary raw ws cur img i :
  Forall (fun w => w = (1024, raw) \/ 2048 <= w.1) ws -> mixture ws cur img -> 0 <= i < 1024 ->
  byte_at (slice img 1024 1024) i = byte_at (slice cur 1024 1024) i \/ byte_at (slice img 1024 1024) i = byte_at raw i.
Proof.
  intros HQ [Hl Hm] Hi. rewrite !byte_at_slice by lia. unfold byte_at. rewrite !nth_lookup.
  destruct (Hm (Z.to_nat (1024 + i))) as [->|(o & d & Hin & Hr & ->)]; [by left|].
  apply (proj1 (list.Forall_forall _ _) HQ) in Hin as [[= -> ->]|Hb]; [right; do 3 f_equal; lia|]. cbn [fst] in Hb. lia.
Qed.

(** A power cut leaves an image that differs in the places of the superblock and
    of its copies only; the superblock itself differs in the bytes of the label
    and of the checksum only. *)
Record label_torn (base img : bytes) : Prop := {
  lt_kept : kept (super_place (superblock_fields (slice base 1024 1024)) (slice base 1024 1024)) base img;
  lt_super : forall i, 0 <= i < 1020 -> ~ 0x78 <= i < 0x88 ->
    byte_at (slice img 1024 1024) i = byte_at (slice base 1024 1024) i
}.

(** The image has the label. *)
Record labelled (base : bytes) (label : string) (img : bytes) : Prop := {
  lb_torn : label_torn base img;
  lb_valid : verify_superblock_checksum (slice img 1024 1024) = true;
  lb_field : slice (slice img 1024 1024) 0x78 16 = label_bytes label ++ zeros (16 - zlen (label_bytes label));
  lb_name : Ascii.zero ∉ String.list_ascii_of_string label ->
    volume_name (superblock_fields (slice img 1024 1024)) = label;
  lb_copies : forall g, backup_at (superblock_fields (slice base 1024 1024)) (slice base 1024 1024) g ->
    let copy := slice img (backup_off (superblock_fields (slice base 1024 1024)) g) 1024 in
    verify_superblock_checksum copy = true /\ read_le16 copy 0x5a = u16 g /\
    forall o n, 0 <= o -> o + n <= 0x5a \/ 0x5c <= o -> o + n <= 1020 -> slice copy o n = slice (slice img 1024 1024) o n
}.

Section SetLabel.
Context (dev : BlockDevice) (base : bytes) (label : string).
Let raw := slice base 1024 1024.
Let s := superblock_fields raw.
Context (Hgeo : geometry_ok s) (Hroom : blocks_count s * block_size s < 2 ^ 64) (Hz : zlen raw = 1024).
Context (Hb : forall g, backup_at s raw g -> 2048 <= backup_off s g).
Context (Hl : zlen (label_bytes label) <= 16) (raw' : bytes).
Context (Hu : update_superblock_checksum (with_label raw label) = Ok raw').

Lemma label_copies ctx h :
  sb ctx = s -> wstate dev base [] h ->
  runs dev (write_superblock_copies dev ctx raw') h (all_crash dev (label_torn base)) (fun _ h' => exists img,
    wstate dev img [] h' /\ labelled base label img).
Proof.
  intros Ectx Hw. destruct (sealed_label raw label Hz Hl raw' Hu) as (Hz' & Hv & Hf & Hrest & Hh).
  assert (Hb' : forall g, backup_at s raw' g -> backup_at s raw g) by (intros g [H1 H2]; split; [done|by rewrite <-Hh]).
  set (Q := fun w : Z * bytes => w = (1024, raw') \/ copy_write s raw' w).
  assert (Htorn : forall ws img, Forall Q ws -> mixture ws base img -> label_torn base img).
  { intros ws img HQ Hm. split.
    - apply (kept_mixture _ ws); [|done]. eapply list.Forall_impl; [exact HQ|]. intros w Hq.
      apply (place_like s raw raw'); [done|]. apply super_write_place; [done|]. destruct Hq as [Hq|Hq]; [by left|right].
      by apply copy_write_backup.
    - intros i Hi Hn. destruct (mixture_primary raw' ws base img i) as [E|E]; [|done|lia|done|].
      { eapply list.Forall_impl; [exact HQ|]. intros w [Hq|(g & Hg & E & _)]; [by left|right]. rewrite E. by apply Hb, Hb'. }
      rewrite E. assert (Es : slice raw' i 1 = slice raw i 1) by (apply Hrest; lia).
      apply (f_equal (fun l : bytes => byte_at l 0)) in Es. rewrite !byte_at_slice, !Z.add_0_r in Es by lia. exact Es. }
  pose proof (write_superblock_copies_spec dev ctx) as W. rewrite Ectx in W.
  eapply runs_mono; [apply (W Hgeo raw' Hz' Hroom Q base [] h Hw); [by apply Forall_nil|done]|intros h' _; by apply all_mixed|].
  intros [] h' _ (ws & HQ & HQall & Hin & Hm & Hw'). cbn [app] in *. eexists. split; [exact Hw'|].
  pose proof (supers_put ctx) as P. rewrite Ectx in P.
  destruct (P Hgeo raw' Hz' ws base) as [Es Ec]; [by intros g Hg; apply Hb, Hb'|done..|]. rewrite Ectx in Ec.
  split.
  - apply (Htorn ((1024, raw') :: ws)); [done|by apply mixture_put_all].
  - by rewrite Es.
  - by rewrite Es.
  - intros Hn. change (volume_name (superblock_fields ?b)) with (fixed_string (slice b 0x78 16)).
    rewrite Es, Hf. by apply label_read_back.
  - intros g Hg. fold raw s in Hg |- *. rewrite Es. cbv zeta.
    assert (Hg' : backup_at s raw' g) by (destruct Hg; split; [done|by rewrite Hh]).
    by destruct (super_copy_spec raw' g _ Hz' (Ec g Hg')) as (_ & ? & ? & ?).
Qed.
End SetLabel.

(** C0: setting the label of an ext file system ends and changes nothing but the
    device.  Whenever it stops early, each image that a power cut may leave
    differs from the old one in the superblock and its copies only, and in the
    superblock only in the label and the checksum.  When it returns, the device
    durably holds the label, padded with zeros, in a superblock with a valid
    checksum that is the old one otherwise, is read back as the name of the
    file system, and every group that is to hold a copy of the superblock holds
    a valid one with its own number and the same contents. *)
Theorem set_volume_label_exact (dev : BlockDevice) (base : bytes) (label : string) (allow_block_device : bool) (h : Host)
    (Hb : forall g, backup_at (superblock_fields (slice base 1024 1024)) (slice base 1024 1024) g ->
       2048 <= backup_off (superblock_fields (slice base 1024 1024)) g)
    (Hsize : zlen base < 2 ^ 64) (Hw : wstate dev base [] h) :
  wp (set_volume_label dev label allow_block_device) h (fun out h' => only_device dev h h' /\
    match out with
    | Ret _ => zlen (label_bytes label) <= 16 /\ exists img, wstate dev img [] h' /\ labelled base label img
    | Fail _ | Exit _ => all_crash dev (label_torn base) h'
    | OutOfFuel => False
    end).
Proof.
  apply (runs_wp dev (set_volume_label dev label allow_block_device) h (all_crash dev (label_torn base))
    (fun _ h' => zlen (label_bytes label) <= 16 /\ exists img, wstate dev img [] h' /\ labelled base label img)).
  assert (Hbase : label_torn base base) by by split.
  unfold set_volume_label. destruct (Z.ltb_spec 16 (zlen (label_bytes label))) as [|Hl]; [by eapply runs_failM, all_settled|].
  rstep Hw by (apply (yields_reader dev base [] _ _ (fun _ => True) Hw); [exact (reader_offline dev dev)|done])
    stop (by eapply all_quiet) as u Hu.
  rstep Hw by (apply (yields_reader dev base [] _ _ (fun _ => True) Hw); [exact (reader_inspect dev dev)|done])
    stop (by eapply all_quiet) as ds Hds.
  destruct (_ && _); [by eapply runs_failM, all_settled|].
  rstep Hw by (by apply (yields_any_context dev base)) stop (by eapply all_quiet) as ctx Hctx.
  cbv zeta in Hctx. destruct Hctx as (Ec & Hgeo & Hz & Hfit). unfold read_raw_superblock.
  rstep Hw by (apply (yields_read dev base [] 1024 1024); [exact Hw|lia|lia]) stop (by eapply all_quiet) as raw Hraw.
  destruct Hraw as (-> & _). cbn [put_all foldl] in *.
  assert (Esb : sb ctx = superblock_fields (slice base 1024 1024)) by (by rewrite Ec). rewrite Esb in Hgeo, Hfit.
  apply runs_pure; [by eapply all_settled|]. intros raw' Hseal.
  eapply runs_mono; [apply (label_copies dev base label Hgeo ltac:(lia) Hz Hb Hl raw' Hseal ctx); [done|exact Hw]|done|].
  by intros [] h' _ H.
Qed.

(** A file system of two groups of 8 blocks of 1 KiB with checksums, whose
    counters are zero; the second group holds copies. *)
Definition demo_groups_super : bytes :=
  match update_superblock_checksum
    (write_le32 (write_le16 (write_le16 (write_le32 (write_le32 (write_le32 (write_le32
       (zeros 1024) 0x00 16) 0x04 16) 0x20 8) 0x28 8) 0x38 0xEF53) 0x58 128) 0x64 0x400) with
  | Ok raw => raw
  | Err _ => []
  end.
Definition demo_groups_descs : bytes :=
  write_le32 (write_le32 (write_le32 (write_le32 (write_le32 (write_le32 (zeros 1024) 0 3) 4 4) 8 5) 32 10) 36 11) 40 12.
Definition demo_groups_fs : bytes :=
  zeros 1024 ++ demo_groups_super ++ demo_groups_descs ++ splice (zeros 1024) 0 [Byte.x3f] ++
  splice (zeros 1024) 0 [Byte.x03] ++ zeros 5120 ++ splice (zeros 1024) 0 [Byte.x1f] ++ zeros 5120.
Definition demo_groups_host : Host := demo_host (mkFile Regular demo_groups_fs []) [].

Lemma set_volume_label_exact_witness :
  let r := set_volume_label demo_ext4_device "data" false demo_groups_host in
  r.1 = Ret tt /\ exists img, wstate demo_ext4_device img [] r.2 /\ labelled demo_groups_fs "data" img.
Proof.
  assert (Hz : zlen demo_groups_fs = 16384) by (vm_compute; reflexivity).
  assert (Hw : wstate demo_ext4_device demo_groups_fs [] demo_groups_host).
  { apply (wstate_start demo_ext4_device demo_groups_host (mkFile Regular demo_groups_fs [])); [|done].
    split; [done|]. split; [exact Hz|by apply Forall_nil]. }
  assert (E : groups_count (superblock_fields (slice demo_groups_fs 1024 1024)) = 2) by by vm_compute.
  assert (Hb : forall g, backup_at (superblock_fields (slice demo_groups_fs 1024 1024)) (slice demo_groups_fs 1024 1024) g ->
    2048 <= backup_off (superblock_fields (slice demo_groups_fs 1024 1024)) g).
  { intros g [Hg _]. rewrite E in Hg. assert (g = 1) as -> by lia. by vm_compute. }
  assert (Hr : (set_volume_label demo_ext4_device "data" false demo_groups_host).1 = Ret tt) by (vm_compute; reflexivity).
  pose proof (set_volume_label_exact demo_ext4_device demo_groups_fs "data" false demo_groups_host Hb
    ltac:(rewrite Hz; lia) Hw) as H.
  split; [exact Hr|]. unfold wp in H. rewrite Hr in H. exact (proj2 (proj2 H)).
Defined.
