(* ===== verification/Repair.v ===== *)
(** What the repair of an ext file system's counters leaves, when it ends and at
    a power cut (proofs on [Maintenance.v]). *)
From S2P Require Import Prelude Words Errors Endian Crc Host Device Durable Safety.
From S2P Require Import Ext4 Allocation Metadata MetadataCheck AllocUpdate OwnerSwitch Resize ResizeSafe ResizeGrow Maintenance.
#[local] Open Scope Z_scope.

(** ** The descriptor of a group *)

(** The fields that a repair writes. *)
Definition repaired_at : list Z := [12; 14; 24; 26; 30; 44; 46; 56; 58].

Section Descriptor.
Context (ctx : MetadataContext) (g : Z) (raw bb ib raw' : bytes) (fb fi : Z).
Context (Hseed : in_width 32 (checksum_seed ctx)) (Hlen : 32 <= zlen raw).
Context (Hr : repaired_descriptor ctx g raw bb ib fb fi = Ok raw').
Context (Hfb : 0 <= fb < 2 ^ 32) (Hfi : 0 <= fi < 2 ^ 32).
Let counted := set_desc_free_inodes (set_desc_free_blocks raw fb) fi.

Lemma zlen_counted : zlen counted = zlen raw.
Proof.
  unfold counted, set_desc_free_inodes. cbv zeta. unfold write_le16.
  case_match; rewrite ?zlen_write_le; apply zlen_set_desc.
Qed.

Lemma repaired_eq : update_group_descriptor_checksum ctx g
    (update_inode_bitmap_checksum ctx (update_block_bitmap_checksum ctx counted bb) ib) = Ok raw'.
Proof.
  pose proof Hr as H. unfold repaired_descriptor in H. by rewrite (wrap_id 32 fb), (wrap_id 32 fi) in H by done.
Qed.

Lemma repaired_valid :
  zlen raw' = zlen raw /\ verify_group_descriptor_checksum ctx g raw' = Ok true /\
  verify_block_bitmap_checksum ctx raw' bb = Ok true /\ verify_inode_bitmap_checksum ctx raw' ib = Ok true.
Proof.
  pose proof repaired_eq as H. pose proof zlen_counted as Hz. split.
  - apply group_roundtrip in H as (_ & Hz' & _). unfold update_inode_bitmap_checksum, update_block_bitmap_checksum in Hz'.
    rewrite !zlen_update_bitmap in Hz'. lia.
  - apply descriptor_roundtrip in H; [done|done|lia].
Qed.

(** Fields apart from the checksums are those of [counted]. *)
Lemma repaired_read w o :
  0 <= o -> o + Z.of_nat w <= zlen raw ->
  Forall (fun p => o + Z.of_nat w <= p \/ p + 2 <= o) [24; 26; 30; 56; 58] -> read_le w raw' o = read_le w counted o.
Proof.
  intros Ho Hw Hall. repeat apply Forall_cons in Hall as [? Hall]. pose proof repaired_eq as He.
  pose proof zlen_counted as Hz. revert He. unfold update_group_descriptor_checksum, update_inode_bitmap_checksum,
    update_block_bitmap_checksum, update_bitmap_checksum, write_le16, GD_CHECKSUM, GD_BLOCK_CSUM_LO,
    GD_BLOCK_CSUM_HI, GD_INODE_CSUM_LO, GD_INODE_CSUM_HI. cbv zeta.
  destruct (negb (gdt_csum ctx)), (negb (metadata_csum ctx)); rewrite ?zlen_write_le;
    (destruct (Z.leb_spec (56 + 2) (zlen counted)), (Z.leb_spec (58 + 2) (zlen counted)); try lia);
    rewrite ?zlen_write_le; repeat case_match; try done; try lia; intros [= <-]; rd; done.
Qed.

Lemma counted_read w o :
  0 <= o -> o + Z.of_nat w <= zlen raw ->
  Forall (fun p => o + Z.of_nat w <= p \/ p + 2 <= o) [12; 14; 44; 46] -> read_le w counted o = read_le w raw o.
Proof.
  intros Ho Hw Hall. repeat apply Forall_cons in Hall as [? Hall].
  unfold counted, set_desc_free_inodes, set_desc_free_blocks, write_le16. rewrite !zlen_write_le.
  destruct (Z.leb_spec 46 (zlen raw)), (Z.leb_spec 48 (zlen raw)); repeat (case_match; rewrite ?zlen_write_le in * ); try lia; rd; done.
Qed.
Lemma counted_counters :
  read_le16 counted 12 = u16 fb /\ read_le16 counted 14 = u16 fi /\
  (46 <= zlen raw -> read_le16 counted 44 = u16 (Z.shiftr fb 16)) /\
  (48 <= zlen raw -> read_le16 counted 46 = u16 (Z.shiftr fi 16)).
Proof.
  assert (Hw : forall x, in_width (8 * Z.of_nat 2) (u16 x)) by (intros; apply wrap_width; lia).
  unfold counted, set_desc_free_inodes, set_desc_free_blocks, write_le16. rewrite !zlen_write_le.
  destruct (Z.leb_spec 46 (zlen raw)), (Z.leb_spec 48 (zlen raw)); repeat (case_match; rewrite ?zlen_write_le in * ); try lia;
    split_and!; intros; try lia;
    repeat first [rewrite read_write_le_eq by (rewrite ?zlen_write_le; (done || cbn; lia)); done
      | rewrite read_write_le_ne by (rewrite ?zlen_write_le; cbn; lia)].
Qed.

(** The fields of the new descriptor: only the counters differ. *)
Definition with_counts (gd : GroupDesc) : GroupDesc :=
  mkGroupDesc (block_bitmap gd) (inode_bitmap gd) (inode_table gd) fb fi (used_dirs gd) (flags gd).

Lemma repaired_fields s :
  zlen raw = desc_bytes s ->
  (64 <=? desc_bytes s) && has_flag (feature_incompat s) INCOMPAT_64BIT = true \/ fb < 65536 /\ fi < 65536 ->
  group_desc_fields s raw' = with_counts (group_desc_fields s raw).
Proof.
  intros Hz Hfit. destruct counted_counters as (E12 & E14 & E44 & E46).
  assert (Hf : forall w o, Forall (fun p => o + Z.of_nat w <= p \/ p + 2 <= o) [24; 26; 30; 56; 58] ->
    Forall (fun p => o + Z.of_nat w <= p \/ p + 2 <= o) [12; 14; 44; 46] -> 0 <= o -> o + Z.of_nat w <= zlen raw ->
    read_le w raw' o = read_le w raw o).
  { intros w o H1 H2 Ho Hw. rewrite repaired_read by done. by apply counted_read. }
  assert (Hc : forall o, o = 12 \/ o = 14 \/ o = 44 \/ o = 46 -> o + 2 <= zlen raw -> read_le16 raw' o = read_le16 counted o).
  { intros o Ho Hw. apply repaired_read; [lia|cbn; lia|]. rewrite !Forall_cons. split_and!; try apply Forall_nil; cbn; lia. }
  assert (Hn : forall w o, 0 <= o -> o + Z.of_nat w <= 12 \/ 16 <= o /\ o + Z.of_nat w <= 24 \/
      32 <= o /\ o + Z.of_nat w <= 44 \/ 48 <= o /\ o + Z.of_nat w <= 56 -> o + Z.of_nat w <= zlen raw ->
    read_le w raw' o = read_le w raw o).
  { intros w o Ho Hd Hw. apply Hf; [..|done|done]; rewrite !Forall_cons; split_and!; try apply Forall_nil; lia. }
  unfold group_desc_fields, with_counts. cbv zeta.
  cbn [block_bitmap inode_bitmap inode_table g_free_blocks g_free_inodes used_dirs flags].
  rewrite (Hn 4%nat 0), (Hn 4%nat 4), (Hn 4%nat 8), (Hn 2%nat 16), (Hn 2%nat 18), (Hc 12), (Hc 14), E12, E14 by (cbn; lia).
  destruct ((64 <=? desc_bytes s) && _) eqn:Ew.
  - apply andb_true_iff in Ew as [Ew _]. apply Z.leb_le in Ew.
    rewrite (Hn 4%nat 32), (Hn 4%nat 36), (Hn 4%nat 40), (Hn 2%nat 48), (Hc 44), (Hc 46), E44, E46 by (cbn; lia).
    by rewrite !halves_join by done.
  - destruct Hfit as [Hfit|[H1 H2]]; [congruence|]. rewrite !Z.lor_0_r. f_equal; apply wrap_id; unfold in_width; lia.
Qed.
End Descriptor.

(** ** Places *)

Definition inode_bitmap_off (s : Superblock) (img : bytes) (g : Z) : Z :=
  inode_bitmap (desc_at img s g) * block_size s.
(** The copy of the descriptor of the group [g] in the group [b]. *)
Definition copy_off (s : Superblock) (b g : Z) : Z :=
  (group_start_block s b + 1) * block_size s + g * desc_bytes s.

Definition bitmap_place (s : Superblock) (base : bytes) (p : Z * Z) : Prop :=
  exists g, of_group s g /\ (p = (bitmap_off s base g, block_size s) \/ p = (inode_bitmap_off s base g, block_size s)).
Definition desc_place (s : Superblock) (p : Z * Z) : Prop :=
  exists g, of_group s g /\ p = (desc_off s g, desc_bytes s).
Definition desc_copy_place (s : Superblock) (raw : bytes) (p : Z * Z) : Prop :=
  exists b g, backup_at s raw b /\ of_group s g /\ p = (copy_off s b g, desc_bytes s).
(** What a repair may write. *)
Definition repair_place (s : Superblock) (raw : bytes) (p : Z * Z) : Prop :=
  super_place s raw p \/ desc_place s p \/ desc_copy_place s raw p.

Definition disjoint_places (p q : Z * Z) : Prop := p.1 + p.2 <= q.1 \/ q.1 + q.2 <= p.1.

(** The bitmaps lie apart from what is written, the copies behind the superblock
    and apart from the descriptors, and a group has room for its copies. *)
Record repair_layout (s : Superblock) (raw base : bytes) : Prop := {
  rl_bitmaps : forall p q, repair_place s raw p -> bitmap_place s base q -> disjoint_places p q;
  rl_backup : forall b, backup_at s raw b -> 2048 <= backup_off s b;
  rl_supers : forall b q, backup_at s raw b -> desc_place s q -> disjoint_places (backup_off s b, 1024) q;
  rl_copies : forall p q, desc_copy_place s raw p -> desc_place s q -> disjoint_places p q;
  rl_table : groups_count s * desc_bytes s <= (blocks_per_group s - 1) * block_size s
}.

(** The counters of a group that its bitmaps say. *)
Definition free_blocks_of (s : Superblock) (base : bytes) (g : Z) : Z := group_block_count s g - used_blocks_of base s g.
Definition free_inodes_of (s : Superblock) (base : bytes) (g : Z) : Z := group_inode_count s g - used_inodes_of base s g.

(** The descriptor of the group [g] after the repair of [base]. *)
Definition repaired_to (ctx : MetadataContext) (base : bytes) (g : Z) (d : bytes) : Prop :=
  repaired_descriptor ctx g (raw_desc base (sb ctx) g) (block_bitmap_at base (sb ctx) g)
    (inode_bitmap_at base (sb ctx) g) (free_blocks_of (sb ctx) base g) (free_inodes_of (sb ctx) base g) = Ok d.

(** The groups below [n] are repaired in the image [cur]. *)
Record repaired_below (ctx : MetadataContext) (raw base : bytes) (n : Z) (cur : bytes) : Prop := {
  rb_len : zlen cur = zlen base;
  rb_super : slice cur 1024 1024 = raw;
  rb_bitmaps : forall q, bitmap_place (sb ctx) base q -> slice cur q.1 q.2 = slice base q.1 q.2;
  rb_done : forall g, of_group (sb ctx) g -> g < n -> repaired_to ctx base g (raw_desc cur (sb ctx) g) /\
    forall b, backup_at (sb ctx) raw b -> slice cur (copy_off (sb ctx) b g) (desc_bytes (sb ctx)) = raw_desc cur (sb ctx) g;
  rb_todo : forall g, of_group (sb ctx) g -> n <= g -> raw_desc cur (sb ctx) g = raw_desc base (sb ctx) g
}.

(** The counters fit the descriptors. *)
Definition both_fit (s : Superblock) : Prop :=
  (64 <=? desc_bytes s) && has_flag (feature_incompat s) INCOMPAT_64BIT = true \/
  blocks_per_group s < 65536 /\ inodes_per_group s < 65536.

Lemma group_inode_bounds s g : 0 <= inodes_per_group s -> 0 <= group_inode_count s g <= inodes_per_group s.
Proof. intros H. unfold group_inode_count. cbv zeta. case_match; lia. Qed.

Lemma over_groups_nonneg f g n : (forall k, g <= k < g + n -> 0 <= f k) -> 0 <= over_groups f g n.
Proof.
  intros H. unfold over_groups. assert (Hl : Forall (fun k => 0 <= f k) (seqZ g n)).
  { apply list.Forall_forall. intros k Hk%elem_of_seqZ. by apply H. }
  induction Hl as [|k l Hk Hl IH]; cbn [foldr]; lia.
Qed.

Section Groups.
Context (dev : BlockDevice) (base : bytes) (ctx : MetadataContext) (Hgeo : geometry_ok (sb ctx)) (raw : bytes).
Context (Hlay : repair_layout (sb ctx) raw base) (Hseed : in_width 32 (checksum_seed ctx)).
Context (Hsize : zlen base < 2 ^ 63) (Hfits : blocks_count (sb ctx) * block_size (sb ctx) <= zlen base).
Context (Hinodes : groups_count (sb ctx) * inodes_per_group (sb ctx) < 2 ^ 64).
Let s := sb ctx.

Lemma valid_inodes_eq g : of_group s g -> valid_inodes s g = group_inode_count s g.
Proof.
  intros [H0 H1]. pose proof Hgeo as [_ _ G3 _ _ _ _]. fold s in G3. unfold valid_inodes, group_inode_count, first_inode_of.
  fold s in Hinodes. assert (0 <= g * inodes_per_group s) by nia.
  assert (g * inodes_per_group s + inodes_per_group s <= groups_count s * inodes_per_group s) by nia.
  rewrite (wrap_id 64 (g * inodes_per_group s)) by (unfold in_width; lia).
  rewrite (wrap_id 64 (g * inodes_per_group s + 1)) by (unfold in_width; lia). done.
Qed.

Lemma free_blocks_bounds g : of_group s g -> 0 <= free_blocks_of s base g <= blocks_per_group s.
Proof.
  intros Hg. destruct (group_count_spec s Hgeo g Hg) as ((H0 & H1) & _). unfold free_blocks_of, used_blocks_of.
  pose proof (count_bits_bound (block_bitmap_at base s g) (group_block_count s g)). lia.
Qed.
Lemma free_inodes_bounds g : 0 <= free_inodes_of s base g <= inodes_per_group s.
Proof.
  pose proof Hgeo as [_ _ G3 _ _ _ _]. fold s in G3. pose proof (group_inode_bounds s g ltac:(lia)). unfold free_inodes_of, used_inodes_of.
  pose proof (count_bits_bound (inode_bitmap_at base s g) (group_inode_count s g)). lia.
Qed.
Lemma counters_width g :
  of_group s g -> 0 <= free_blocks_of s base g < 2 ^ 32 /\ 0 <= free_inodes_of s base g < 2 ^ 32.
Proof.
  intros Hg. pose proof (free_blocks_bounds g Hg). pose proof (free_inodes_bounds g).
  pose proof Hgeo as [_ G2 G3 _ _ _ _]. fold s in G2, G3. pose proof (geo_block_size ctx Hgeo) as Hbs. fold s in Hbs. lia.
Qed.

(** The descriptors lie behind the superblock, each at its own place. *)
Lemma desc_off_behind g : of_group s g -> 2048 <= desc_off s g.
Proof.
  intros [Hg _]. pose proof (desc_bytes_pos ctx) as Hdb. fold s in Hdb. unfold desc_off.
  pose proof (geo_block_size ctx Hgeo) as Hbs. fold s in Hbs. pose proof Hgeo as [Hlog _ _ _ _ _ _]. fold s in Hlog.
  destruct (Z.eqb_spec (block_size s) 1024) as [->|Hne]; [nia|]. assert (2048 <= block_size s); [|nia].
  revert Hne. unfold block_size. destruct (Z.leb_spec (log_block_size s) 6); [|lia].
  destruct (Z.eq_dec (log_block_size s) 0) as [->|]; [by rewrite Z.shiftl_0_r|]. intros _.
  rewrite Z.shiftl_mul_pow2 by lia. pose proof (Z.pow_le_mono_r 2 1 (log_block_size s) ltac:(lia) ltac:(lia)). lia.
Qed.
Lemma desc_off_apart g g' :
  g <> g' -> desc_off s g + desc_bytes s <= desc_off s g' \/ desc_off s g' + desc_bytes s <= desc_off s g.
Proof. intros Hne. pose proof (desc_bytes_pos ctx) as Hdb. fold s in Hdb. unfold desc_off. case_match; nia. Qed.

(** The copies of the descriptors. *)
Lemma copy_off_range b g :
  backup_at s raw b -> of_group s g -> u64 (u64 (u64 (group_start_block s b + 1) * block_size s) + u64 (g * desc_bytes s)) = copy_off s b g /\
    2048 <= copy_off s b g.
Proof.
  intros Hat Hg. pose proof Hat as [Hb _]. pose proof (rl_backup _ _ _ Hlay b Hat) as Hst. fold s in Hst. unfold backup_off in Hst.
  destruct (group_start_spec s Hgeo b ltac:(lia)) as [_ H1]. pose proof (group_start_nonneg ctx Hgeo b ltac:(fold s; lia)) as H0.
  fold s in H0. pose proof (geo_block_size ctx Hgeo) as Hbs. fold s in Hbs. pose proof (desc_bytes_pos ctx) as Hdb. fold s in Hdb.
  pose proof (rl_table _ _ _ Hlay) as Ht. fold s in Ht, Hfits. pose proof Hgeo as [_ G2 _ _ _ _ _]. fold s in G2.
  destruct Hg as [Hg0 Hg1]. assert (g * desc_bytes s <= groups_count s * desc_bytes s) by nia.
  assert ((blocks_per_group s - 1) * block_size s <= 8 * 65536 * 65536) by nia.
  assert ((group_start_block s b + 1) * block_size s <= blocks_count s * block_size s) by nia.
  unfold copy_off. rewrite (wrap_id 64 (group_start_block s b + 1)) by (unfold in_width; nia).
  set (x := (group_start_block s b + 1) * block_size s) in *. set (y := g * desc_bytes s) in *.
  assert (0 <= y) by (unfold y; nia). assert (2048 <= x) by (unfold x; lia).
  rewrite (wrap_id 64 x), (wrap_id 64 y), (wrap_id 64 (x + y)) by (unfold in_width; lia). lia.
Qed.
Lemma copy_off_apart b g b' g' :
  backup_at s raw b -> of_group s g -> backup_at s raw b' -> of_group s g' -> (b, g) <> (b', g') ->
  copy_off s b g + desc_bytes s <= copy_off s b' g' \/ copy_off s b' g' + desc_bytes s <= copy_off s b g.
Proof.
  intros [Hb _] [Hg0 Hg1] [Hb' _] [Hg0' Hg1'] Hne. destruct (group_start_spec s Hgeo b ltac:(lia)) as [E1 _].
  destruct (group_start_spec s Hgeo b' ltac:(lia)) as [E2 _]. unfold copy_off. rewrite E1, E2.
  pose proof (rl_table _ _ _ Hlay) as Ht. fold s in Ht. pose proof Hgeo as [_ G2 _ _ _ _ _]. fold s in G2.
  pose proof (geo_block_size ctx Hgeo) as Hbs. fold s in Hbs. pose proof (desc_bytes_pos ctx) as Hdb. fold s in Hdb.
  set (n := blocks_per_group s) in *. set (f := first_data_block s). set (k := block_size s) in *. set (m := desc_bytes s) in *.
  assert (A : (g + 1) * m <= groups_count s * m) by nia. assert (A' : (g' + 1) * m <= groups_count s * m) by nia.
  destruct (Z.lt_trichotomy b b') as [H|[H|H]].
  - left. assert ((f + b * n + n) * k <= (f + b' * n) * k) by nia. nia.
  - subst b'. assert (g <> g') by congruence. assert (g + 1 <= g' \/ g' + 1 <= g) as [?|?] by lia; [left|right]; nia.
  - right. assert ((f + b' * n + n) * k <= (f + b * n) * k) by nia. nia.
Qed.

(** A write of the descriptor [d] of the group [g], or of a copy of it. *)
Definition group_write (g : Z) (d : bytes) (w : Z * bytes) : Prop :=
  w = (desc_off s g, d) \/ exists b, backup_at s raw b /\ w = (copy_off s b g, d).

Lemma group_write_place g d w :
  of_group s g -> zlen d = desc_bytes s -> group_write g d w -> repair_place s raw (w.1, zlen w.2).
Proof.
  intros Hg Hz [->|(b & Hb & ->)]; cbn [fst snd]; rewrite Hz; right; [left; by exists g|right; by exists b, g].
Qed.

Section OneGroup.
Context (g : Z) (Hg : of_group s g) (d : bytes) (Hz : zlen d = desc_bytes s).
Context (cur : bytes) (ws : list (Z * bytes)) (Hws : Forall (group_write g d) ws) (Hin : Forall (inside (zlen cur)) ws).

(** A place apart from the descriptor and its copies. *)
Lemma group_keeps o n :
  0 <= o -> disjoint_places (o, n) (desc_off s g, desc_bytes s) ->
  (forall b, backup_at s raw b -> disjoint_places (o, n) (copy_off s b g, desc_bytes s)) ->
  slice (put_all ws cur) o n = slice cur o n.
Proof.
  intros Ho Hd Hc. apply slice_put_all; [done|done|]. eapply list.Forall_impl; [exact Hws|].
  unfold disjoint_places in *. cbn [fst snd] in *. intros w [->|(b & Hb & ->)]; unfold apart; cbn [fst snd]; rewrite Hz; [lia|].
  specialize (Hc b Hb). lia.
Qed.

(** A place that is written. *)
Lemma group_puts o :
  group_write g d (o, d) -> (o, d) ∈ ws -> slice (put_all ws cur) o (desc_bytes s) = d.
Proof.
  intros Hw Hm. pose proof (slice_put_all_member ws (o, d) cur Hin Hm) as H. cbn [fst snd] in H. rewrite Hz in H. apply H.
  eapply list.Forall_impl; [exact Hws|]. intros w Hw'.
  assert (Hdc : forall b, backup_at s raw b -> disjoint_places (copy_off s b g, desc_bytes s) (desc_off s g, desc_bytes s)).
  { intros b Hb. apply (rl_copies _ _ _ Hlay); [by exists b, g|by exists g]. }
  unfold disjoint_places in Hdc. cbn [fst snd] in Hdc.
  destruct Hw as [[= ->]|(b & Hb & [= ->])], Hw' as [->|(b' & Hb' & ->)]; [by left|right|right|]; unfold apart; cbn [fst snd];
    rewrite ?Hz; [specialize (Hdc b' Hb'); lia|specialize (Hdc b Hb); lia|].
  destruct (Z.eq_dec b' b) as [->|Hne]; [by left|right].
  destruct (copy_off_apart b g b' g Hb Hg Hb' Hg); [congruence|lia|lia].
Qed.

Lemma group_done :
  repaired_below ctx raw base g cur -> repaired_to ctx base g d -> (desc_off s g, d) ∈ ws ->
  (forall b, backup_at s raw b -> (copy_off s b g, d) ∈ ws) -> repaired_below ctx raw base (g + 1) (put_all ws cur).
Proof.
  intros [R1 R2 R3 R4 R5] Hto Hmd Hmc. pose proof (desc_off_behind g Hg) as Hbd.
  assert (Hcr : forall b g', backup_at s raw b -> of_group s g' -> 2048 <= copy_off s b g') by (intros; by apply copy_off_range).
  assert (Hsym : forall p q, disjoint_places p q -> disjoint_places q p) by (unfold disjoint_places; lia).
  assert (Hdesc : forall g', of_group s g' -> g' <> g -> raw_desc (put_all ws cur) s g' = raw_desc cur s g').
  { intros g' Hg' Hne. pose proof (desc_off_behind g' Hg'). apply group_keeps; [lia| |].
    - unfold disjoint_places. cbn [fst snd]. destruct (desc_off_apart g' g Hne); lia.
    - intros b Hb. apply Hsym, (rl_copies _ _ _ Hlay); [by exists b, g|by exists g']. }
  split.
  - by rewrite zlen_put_all.
  - rewrite group_keeps; [done|lia|..]; [|intros b Hb; specialize (Hcr b g Hb Hg)]; unfold disjoint_places; cbn [fst snd]; lia.
  - intros q Hq. rewrite <-R3 by done. apply group_keeps.
    + destruct Hq as (g' & _ & [-> | ->]); cbn [fst]; [by apply (bitmap_off_pos ctx Hgeo)|].
      destruct (desc_at_nonneg ctx base g') as (_ & H & _). pose proof (geo_block_size ctx Hgeo). unfold inode_bitmap_off, s in *. nia.
    + rewrite <-surjective_pairing. apply Hsym, (rl_bitmaps _ _ _ Hlay); [right; left; by exists g|done].
    + intros b Hb. rewrite <-surjective_pairing. apply Hsym, (rl_bitmaps _ _ _ Hlay); [right; right; by exists b, g|done].
  - intros g' Hg' Hlt. destruct (Z.eq_dec g' g) as [->|Hne].
    + assert (E : raw_desc (put_all ws cur) s g = d) by (apply group_puts; [by left|done]). fold s. rewrite E.
      split; [done|]. intros b Hb. apply group_puts; [right; by exists b|by apply Hmc].
    + fold s. rewrite Hdesc by done. destruct (R4 g' Hg' ltac:(lia)) as [Q1 Q2]. fold s in Q1, Q2.
      split; [done|]. intros b Hb. rewrite <-(Q2 b Hb).
      specialize (Hcr b g' Hb Hg') as Hr. apply group_keeps; [fold s; lia| |].
      * apply (rl_copies _ _ _ Hlay); [by exists b, g'|by exists g].
      * intros b' Hb'. apply copy_off_apart; [done..|congruence].
  - intros g' Hg' Hge. fold s. rewrite Hdesc by (done || lia). apply R5; [done|lia].
Qed.
End OneGroup.

(** The loop over the copies of a descriptor. *)
Lemma descriptor_copies_spec (Q : Z * bytes -> Prop) g d n b ws h :
  of_group s g -> wstate dev base ws h -> Forall Q ws -> (forall w, group_write g d w -> Q w) ->
  1 <= b -> b + Z.of_nat n <= groups_count s ->
  runs dev (descriptor_copies n dev ctx raw g d b) h (mixed_stop dev Q base) (fun _ h' => exists ws',
    Forall (group_write g d) ws' /\ wstate dev base (ws ++ ws') h' /\
    forall c, backup_at s raw c -> b <= c < b + Z.of_nat n -> (copy_off s c g, d) ∈ ws').
Proof.
  intros Hg Hw HQ Himp. revert b ws h Hw HQ. induction n as [|n IH]; intros b ws h Hw HQ Hb Hn; cbn [descriptor_copies].
  { apply runs_ret. exists []. rewrite app_nil_r. split; [by apply Forall_nil|]. split; [done|]. lia. }
  eapply (runs_bind _ _ _ _ _ (fun _ h' => exists ws', Forall (group_write g d) ws' /\ wstate dev base (ws ++ ws') h' /\
    (backup_at s raw b -> (copy_off s b g, d) ∈ ws'))).
  { destruct (group_has_super raw b) eqn:Eb; cbn [negb].
    2: { apply runs_ret. exists []. rewrite app_nil_r. split; [by apply Forall_nil|]. split; [done|]. intros [_ ?]. congruence. }
    assert (Hat : backup_at s raw b) by (split; [lia|done]). destruct (copy_off_range b g Hat Hg) as [Er Hr].
    cbv zeta. fold s. rewrite Er. assert (Hd : group_write g d (copy_off s b g, d)) by (right; by exists b).
    eapply runs_mono; [apply (mixed_write dev Q base ws); [exact Hw|lia|exact HQ|by apply Himp]|done|].
    intros [] h' _ Hw'. exists [(copy_off s b g, d)]. split; [by apply Forall_singleton|]. split; [exact Hw'|].
    intros _. by apply list_elem_of_singleton. }
  intros [] h1 _ (ws1 & HQ1 & Hw1 & Hm1).
  assert (HQ' : Forall Q (ws ++ ws1)).
  { apply Forall_app. split; [done|]. eapply list.Forall_impl; [exact HQ1|done]. }
  eapply runs_mono; [apply (IH (b + 1) (ws ++ ws1) h1 Hw1 HQ'); lia|done|].
  intros [] h' _ (ws2 & HQ2 & Hw2 & Hm2). exists (ws1 ++ ws2). split; [by apply Forall_app|]. split; [by rewrite app_assoc|].
  intros c Hc Hrange. apply elem_of_app. destruct (Z.eq_dec c b) as [->|]; [left; by apply Hm1|right; apply Hm2; [done|lia]].
Qed.

(** A descriptor and its copies. *)
Lemma group_descriptor_copies_spec (Q : Z * bytes -> Prop) g d ws h :
  of_group s g -> wstate dev base ws h -> Forall Q ws -> (forall w, zlen d = desc_bytes s -> group_write g d w -> Q w) ->
  runs dev (write_group_descriptor_copies dev ctx raw g d) h (mixed_stop dev Q base) (fun _ h' => exists ws',
    zlen d = desc_bytes s /\ Forall (group_write g d) ws' /\ wstate dev base (ws ++ ws') h' /\ (desc_off s g, d) ∈ ws' /\
    forall b, backup_at s raw b -> (copy_off s b g, d) ∈ ws').
Proof.
  intros Hg Hw HQ Himp. assert (Hstop : forall h', quiet h h' -> mixed_stop dev Q base h') by (intros; by eapply mixed_quiet).
  unfold write_group_descriptor_copies, write_group_descriptor_raw. cbv zeta. fold s.
  destruct (has_flag _ _); [apply runs_failM, Hstop, quiet_refl|]. cbn [andb].
  eapply (runs_bind _ _ _ _ _ (fun _ h' => zlen d = desc_bytes s /\ wstate dev base (ws ++ [(desc_off s g, d)]) h')).
  { destruct (_ || _ || _); [apply runs_failM, Hstop, quiet_refl|].
    destruct (Z.eqb_spec (zlen d) (desc_bytes s)) as [Ez|]; cbn [negb]; [|apply runs_failM, Hstop, quiet_refl].
    destruct (_ <=? g); [apply runs_failM, Hstop, quiet_refl|]. destruct (_ <? g); [apply runs_failM, Hstop, quiet_refl|].
    destruct (_ <? _); [apply runs_failM, Hstop, quiet_refl|]. fold (desc_off s g).
    eapply runs_mono; [apply (mixed_write dev Q base ws); [exact Hw| |exact HQ|apply Himp; [done|by left]]|done|].
    - pose proof (desc_off_behind g Hg). unfold desc_off in *. lia.
    - by intros [] h' _ Hw'. }
  intros [] h1 _ [Ez Hw1]. assert (HQ1 : Forall Q (ws ++ [(desc_off s g, d)])).
  { apply Forall_app. split; [done|]. apply Forall_singleton, Himp; [done|by left]. }
  assert (Hg1 : 1 <= groups_count s) by (destruct Hg; lia).
  eapply runs_mono; [apply (descriptor_copies_spec Q g d _ 1 _ h1 Hg Hw1 HQ1); [intros w; by apply Himp|lia|lia]|done|].
  intros [] h' _ (ws' & HQ2 & Hw2 & Hm). exists ((desc_off s g, d) :: ws'). rewrite <-app_assoc in Hw2.
  split; [done|]. split; [apply Forall_cons; split; [by left|done]|]. split; [exact Hw2|]. split; [by left|].
  intros b Hb. right. apply Hm; [done|]. destruct Hb. lia.
Qed.

(** The writes of a repair. *)
Definition repair_write (w : Z * bytes) : Prop := repair_place s raw (w.1, zlen w.2).

Lemma below_desc n cur g :
  repaired_below ctx raw base n cur -> of_group s g -> n <= g ->
  desc_at cur s g = desc_at base s g /\ block_bitmap_at cur s g = block_bitmap_at base s g /\
  inode_bitmap_at cur s g = inode_bitmap_at base s g.
Proof.
  intros [_ _ R3 _ R5] Hg Hn. assert (E : desc_at cur s g = desc_at base s g) by (rewrite !desc_at_raw; f_equal; by apply R5).
  split; [done|]. unfold block_bitmap_at, inode_bitmap_at. rewrite E.
  split; [apply (R3 (bitmap_off s base g, block_size s))|apply (R3 (inode_bitmap_off s base g, block_size s))];
    exists g; (split; [done|]); [by left|by right].
Qed.

(** One round of the loop. *)
Lemma repair_group_spec g ws h :
  of_group s g -> wstate dev base ws h -> Forall repair_write ws -> repaired_below ctx raw base g (put_all ws base) ->
  runs dev (repair_group dev ctx raw g) h (mixed_stop dev repair_write base) (fun p h' => exists ws',
    p = (free_blocks_of s base g, free_inodes_of s base g) /\ Forall repair_write ws' /\ wstate dev base ws' h' /\
    repaired_below ctx raw base (g + 1) (put_all ws' base)).
Proof.
  intros Hg Hw HQ Hb. destruct (below_desc g _ g Hb Hg ltac:(lia)) as (Ed & Eb & Ei).
  assert (Er : raw_desc (put_all ws base) s g = raw_desc base s g) by (apply Hb; [done|lia]).
  unfold repair_group. cbv zeta. fold s. pose proof Hg as [Hg0 _].
  rstep Hw by (by apply (reads_desc dev base ws ctx)) stop (by eapply mixed_quiet) as gd Hgd. destruct Hgd as [-> _].
  rstep Hw by (by apply (reads_descriptor dev base ws ctx)) stop (by eapply mixed_quiet) as gdr Hgdr. destruct Hgdr as (-> & Hzr & _).
  rstep Hw by (by apply (reads_block_bitmap dev base ws ctx)) stop (by eapply mixed_quiet) as bb Hbb. destruct Hbb as (-> & _).
  rstep Hw by (by apply (reads_inode_bitmap dev base ws ctx)) stop (by eapply mixed_quiet) as ib Hib. subst ib.
  fold s in Hzr |- *. rewrite Eb, Ei, Er in *. rewrite (valid_inodes_eq g Hg), !count_set_bits.
  fold (used_blocks_of base s g) (used_inodes_of base s g). fold (free_blocks_of s base g) (free_inodes_of s base g).
  destruct (counters_width g Hg) as [W1 W2].
  rewrite (wrap_id 64 (free_blocks_of s base g)), (wrap_id 64 (free_inodes_of s base g)) by (unfold in_width; lia).
  destruct (_ <? _); [by eapply runs_failM, mixed_quiet, quiet_refl|].
  destruct (_ <? _); [by eapply runs_failM, mixed_quiet, quiet_refl|].
  apply runs_pure; [by eapply mixed_quiet, quiet_refl|]. intros d Hd.
  pose proof (desc_bytes_pos ctx) as Hdb. fold s in Hdb.
  eapply runs_bind; [apply (group_descriptor_copies_spec repair_write g d ws); [done|exact Hw|done|]|].
  { intros w Hz Hgw. by apply (group_write_place g d). }
  intros [] h' _ (ws' & Hz & Hws' & Hw' & Hm & Hmc). apply runs_ret. exists (ws ++ ws'). split; [done|].
  pose proof (ws_inside _ _ _ _ Hw') as Hin. apply Forall_app in Hin as [Hin Hin'].
  split; [apply Forall_app; split; [done|]; eapply list.Forall_impl; [exact Hws'|]; intros w Hgw; by apply (group_write_place g d)|].
  split; [done|]. rewrite put_all_app. apply (group_done g Hg d Hz _ ws' Hws'); [|done|done|done|done].
  by rewrite zlen_put_all.
Qed.

(** The loop over the groups. *)
Lemma repair_groups_spec n g r ws h :
  0 <= g -> g + Z.of_nat n = groups_count s -> wstate dev base ws h -> Forall repair_write ws ->
  repaired_below ctx raw base g (put_all ws base) ->
  0 <= rp_free_blocks r -> rp_free_blocks r + over_groups (free_blocks_of s base) g (Z.of_nat n) < 2 ^ 64 ->
  0 <= rp_free_inodes r -> rp_free_inodes r + over_groups (free_inodes_of s base) g (Z.of_nat n) < 2 ^ 64 ->
  runs dev (repair_groups n dev ctx raw g r) h (mixed_stop dev repair_write base) (fun r' h' => exists ws',
    r' = mkRepairReport (groups_rewritten r + Z.of_nat n) (rp_free_blocks r + over_groups (free_blocks_of s base) g (Z.of_nat n))
           (rp_free_inodes r + over_groups (free_inodes_of s base) g (Z.of_nat n)) (superblock_rewritten r) (rp_verified r) /\
    Forall repair_write ws' /\ wstate dev base ws' h' /\ repaired_below ctx raw base (groups_count s) (put_all ws' base)).
Proof.
  revert g r ws h. induction n as [|n IH]; intros g r ws h Hg Hn Hw HQ Hb B0 B1 I0 I1; cbn [repair_groups].
  { apply runs_ret. exists ws. assert (E : forall f, over_groups f g (Z.of_nat 0) = 0) by done.
    replace (groups_count s) with g by lia. rewrite !E, !Z.add_0_r. by destruct r. }
  rstep Hw by (by eapply yields_cancel) stop (by eapply mixed_quiet) as st Hst. destruct st; [by eapply runs_failM, mixed_quiet, quiet_refl|].
  eapply runs_bind; [apply (repair_group_spec g ws); [split; lia|exact Hw|done|done]|].
  intros p h1 _ (ws1 & -> & HQ1 & Hw1 & Hb1). cbn [fst snd].
  replace (Z.of_nat (S n)) with (Z.of_nat n + 1) in * by lia. rewrite !over_groups_S in * by lia.
  assert (Hpos : 0 <= over_groups (free_blocks_of s base) (g + 1) (Z.of_nat n) /\ 0 <= over_groups (free_inodes_of s base) (g + 1) (Z.of_nat n)).
  { split; apply over_groups_nonneg; intros k Hk; [apply free_blocks_bounds; split; lia|apply free_inodes_bounds]. }
  pose proof (free_blocks_bounds g ltac:(split; lia)) as Fb. pose proof (free_inodes_bounds g) as Fi.
  rewrite !wrap_id by (unfold in_width; lia).
  eapply runs_mono; [apply (IH (g + 1) _ ws1 h1); cbn [rp_free_blocks rp_free_inodes]; first [exact Hw1|done|lia]|done|].
  cbn [groups_rewritten superblock_rewritten rp_verified rp_free_blocks rp_free_inodes].
  intros r' h' _ (ws' & -> & HQ' & Hw' & Hb'). exists ws'. split; [f_equal; lia|done].
Qed.
End Groups.

(** ** Totals *)

Lemma over_groups_capped f k m g n :
  0 <= k -> (forall j, g <= j < g + Z.of_nat n -> f j = Z.min k (Z.max 0 (m - j * k))) ->
  over_groups f g (Z.of_nat n) = Z.max 0 (Z.min (Z.of_nat n * k) (m - g * k)).
Proof.
  intros Hk. revert g. induction n as [|n IH]; intros g H.
  { change (over_groups f g (Z.of_nat 0)) with 0. lia. }
  replace (Z.of_nat (S n)) with (Z.of_nat n + 1) in * by lia. rewrite over_groups_S, IH, (H g) by (lia || (intros; apply H; lia)).
  assert (0 <= Z.of_nat n * k) by nia. nia.
Qed.

Lemma over_groups_sub f f' g n : over_groups (fun j => f j - f' j) g n = over_groups f g n - over_groups f' g n.
Proof. unfold over_groups. induction (seqZ g n) as [|k l IH]; cbn [foldr]; lia. Qed.

Lemma groups_hold s : geometry_ok s ->
  over_groups (group_block_count s) 0 (groups_count s) = blocks_count s - first_data_block s /\
  over_groups (group_inode_count s) 0 (groups_count s) = inodes_count s.
Proof.
  intros Hgeo. pose proof Hgeo as [_ G2 G3 G4 G5 G6 _]. destruct (groups_count_spec s) as [H1 H2]; [lia..|].
  rewrite <-(Z2Nat.id (groups_count s)) by lia. split.
  - rewrite (over_groups_capped _ (blocks_per_group s) (blocks_count s - first_data_block s)); rewrite ?Z2Nat.id by lia; [nia|lia|].
    intros j Hj. unfold group_block_count. cbv zeta. destruct (group_start_spec s Hgeo j ltac:(lia)) as [-> Hlt].
    rewrite (proj2 (Z.ltb_lt _ _)) by nia. nia.
  - rewrite (over_groups_capped _ (inodes_per_group s) (inodes_count s)); rewrite ?Z2Nat.id by lia; [nia|lia|].
    intros j Hj. unfold group_inode_count, first_inode_of. cbv zeta. case_match; nia.
Qed.

(** ** The superblock *)

(** The fields with other counters. *)
Definition with_counters (blocks inodes : Z) (s : Superblock) : Superblock :=
  mkSuperblock (inodes_count s) (blocks_count s) (reserved_blocks s) blocks inodes
    (first_data_block s) (log_block_size s) (blocks_per_group s) (inodes_per_group s) (state s) (errors s)
    (rev_level s) (first_inode s) (inode_size s) (feature_compat s) (feature_incompat s)
    (feature_ro_compat s) (desc_size s) (magic s) (volume_name s) (uuid s).

Section Super.
Context (raw raw' : bytes) (r : RepairReport) (Hz : zlen raw = 1024) (Hr : repaired_super raw r = Ok raw').
Let s := superblock_fields raw.

Lemma repaired_super_slice o n :
  0 <= o -> o + n <= 0x0c \/ 0x14 <= o /\ o + n <= 0x158 \/ 0x15c <= o /\ o + n <= 1020 -> slice raw' o n = slice raw o n.
Proof.
  intros Ho Hd. apply superblock_roundtrip in Hr as (_ & _ & Hs). unfold SB_CHECKSUM_OFF in Hs. rewrite Hs by lia.
  unfold set_u64_lohi, write_le32. by rewrite !slice_write_le_ne by (rewrite ?zlen_write_le; cbn; lia).
Qed.

Lemma zlen_repaired_super : zlen raw' = 1024 /\ verify_superblock_checksum raw' = true.
Proof.
  apply superblock_roundtrip in Hr as (Hv & Hz' & _). unfold set_u64_lohi, write_le32 in Hz'. rewrite !zlen_write_le in Hz'.
  split; [lia|done].
Qed.

Lemma repaired_super_read w o :
  0 <= o -> o + Z.of_nat w <= 0x0c \/ 0x14 <= o /\ o + Z.of_nat w <= 0x158 \/ 0x15c <= o /\ o + Z.of_nat w <= 1020 ->
  read_le w raw' o = read_le w raw o.
Proof. intros Ho Hd. destruct zlen_repaired_super. apply read_le_ext; try lia. by apply repaired_super_slice. Qed.

Lemma repaired_super_counters :
  read_le32 raw' 0x0c = u32 (rp_free_blocks r) /\ read_le32 raw' 0x158 = u32 (Z.shiftr (rp_free_blocks r) 32) /\
  read_le32 raw' 0x10 = u32 (rp_free_inodes r).
Proof.
  assert (Hw : forall x, in_width (8 * Z.of_nat 4) (u32 x)) by (intros x; apply wrap_width; lia).
  destruct zlen_repaired_super as [Hz' _]. apply superblock_roundtrip in Hr as (_ & _ & Hs). unfold SB_CHECKSUM_OFF in Hs.
  set (b := write_le32 _ 0x10 _) in *. assert (Hzb : zlen b = 1024) by (unfold b, set_u64_lohi, write_le32; by rewrite !zlen_write_le).
  assert (E : forall o, 0 <= o <= 1016 -> read_le32 raw' o = read_le32 b o).
  { intros o Ho. apply read_le_ext; try lia. apply Hs; lia. }
  rewrite !E by lia. unfold b, set_u64_lohi, write_le32.
  split_and!; repeat first [rewrite read_write_le_eq by (rewrite ?zlen_write_le; (done || cbn; lia)); done
    | rewrite read_write_le_ne by (rewrite ?zlen_write_le; cbn; lia)].
Qed.

(** The superblock keeps everything but its counters. *)
Lemma repaired_super_fields :
  0 <= rp_free_blocks r <= blocks_count s -> 0 <= rp_free_inodes r < 2 ^ 32 ->
  superblock_fields raw' = with_counters (rp_free_blocks r) (rp_free_inodes r) s.
Proof.
  intros Hb Hi. destruct repaired_super_counters as (E1 & E2 & E3).
  pose proof (superblock_fields_width raw) as (_ & _ & _ & _ & Wb & _ & _). fold s in Wb. unfold in_width in Wb.
  unfold superblock_fields at 1, with_counters. cbv zeta.
  rewrite !(repaired_super_slice 0x78 16), !(repaired_super_slice 0x68 16) by lia.
  rewrite !(repaired_super_read 4 0x60), !(repaired_super_read 4 0x150), !(repaired_super_read 4 0x154),
    (repaired_super_read 4 0x00), (repaired_super_read 4 0x04), (repaired_super_read 4 0x08),
    (repaired_super_read 4 0x14), (repaired_super_read 4 0x18), (repaired_super_read 4 0x20), (repaired_super_read 4 0x28),
    (repaired_super_read 2 0x3a), (repaired_super_read 2 0x3c), (repaired_super_read 4 0x4c), (repaired_super_read 4 0x54),
    (repaired_super_read 2 0x58), (repaired_super_read 4 0x5c), (repaired_super_read 4 0x64), (repaired_super_read 2 0xfe),
    (repaired_super_read 2 0x38), E1, E2, E3 by (cbn; lia).
  rewrite (wrap_id 32 (rp_free_inodes r)) by (unfold in_width; lia).
  assert (E : join32 (u32 (rp_free_blocks r)) (if has_flag (read_le32 raw 0x60) INCOMPAT_64BIT
    then u32 (Z.shiftr (rp_free_blocks r) 32) else 0) = rp_free_blocks r); [|by rewrite E].
  destruct (has_flag _ _) eqn:Ef.
  - rewrite join32_split by lia. apply wrap_id. unfold in_width. lia.
  - assert (blocks_count s < 2 ^ 32).
    { unfold s, superblock_fields. cbv zeta. cbn [blocks_count]. rewrite Ef. unfold join32. rewrite Z.shiftl_0_l. cbn [wrap].
      rewrite Z.lor_0_r. apply (read_le_bound 4). }
    unfold join32. rewrite Z.shiftl_0_l. cbn [wrap]. rewrite Z.lor_0_r. apply wrap_id. unfold in_width. lia.
Qed.

Lemma repaired_super_has g : group_has_super raw' g = group_has_super raw g.
Proof.
  unfold group_has_super. by rewrite !(repaired_super_read 4 0x5c), !(repaired_super_read 4 0x64),
    !(repaired_super_read 4 0x24c), !(repaired_super_read 4 0x250) by (cbn; lia).
Qed.

(** The context of the new superblock differs in the counters only. *)
Lemma repaired_context s' :
  s' = with_counters (rp_free_blocks r) (rp_free_inodes r) s ->
  let c := context_of s raw in
  context_of s' raw' = mkContext s' (c_uuid c) (checksum_seed c) (metadata_csum c) (gdt_csum c) (csum_seed_feature c).
Proof.
  intros ->. unfold context_of. cbn. unfold metadata_seed, SB_CHECKSUM_SEED_OFF.
  by rewrite !(repaired_super_slice 0x68 16), !(repaired_super_read 4 0x60), !(repaired_super_read 4 0x270) by (cbn; lia).
Qed.
End Super.

(** ** The whole repair *)

(** The image [img] after a repair of [base] that reported [r]: the bitmaps are
    as they were, the counters and checksums of every group and of the
    superblock are those that the bitmaps say, and so are the copies. *)
Record repaired (base : bytes) (r : RepairReport) (img : bytes) : Prop := {
  rd_kept : let raw := slice base 1024 1024 in kept (repair_place (superblock_fields raw) raw) base img;
  rd_bitmaps : let s := superblock_fields (slice base 1024 1024) in forall g, of_group s g ->
    block_bitmap_at img s g = block_bitmap_at base s g /\ inode_bitmap_at img s g = inode_bitmap_at base s g;
  rd_totals : let s := superblock_fields (slice base 1024 1024) in
    rp_free_blocks r = blocks_count s - first_data_block s - over_groups (used_blocks_of base s) 0 (groups_count s) /\
    rp_free_inodes r = inodes_count s - over_groups (used_inodes_of base s) 0 (groups_count s);
  rd_super : verify_superblock_checksum (slice img 1024 1024) = true /\
    superblock_fields (slice img 1024 1024)
    = with_counters (rp_free_blocks r) (rp_free_inodes r) (superblock_fields (slice base 1024 1024));
  rd_groups : let raw := slice img 1024 1024 in
    forall g, of_group (superblock_fields raw) g -> group_sound (context_of (superblock_fields raw) raw) false img g;
  rd_copies : let raw := slice base 1024 1024 in let s := superblock_fields raw in
    forall b, backup_at s raw b -> super_copy (slice img 1024 1024) b (slice img (backup_off s b) 1024) /\
      forall g, of_group s g -> slice img (copy_off s b g) (desc_bytes s) = raw_desc img s g
}.

(** What a repair is given. *)
Record repair_setting (base : bytes) : Prop := {
  rs_layout : let raw := slice base 1024 1024 in repair_layout (superblock_fields raw) raw base;
  rs_fit : both_fit (superblock_fields (slice base 1024 1024));
  rs_size : zlen base < 2 ^ 63;
  rs_inodes : let s := superblock_fields (slice base 1024 1024) in groups_count s * inodes_per_group s < 2 ^ 64
}.

Section Whole.
Context (dev : BlockDevice) (base : bytes) (Hset : repair_setting base).
Let raw := slice base 1024 1024.
Let s := superblock_fields raw.
Let ctx := context_of s raw.
Context (Hgeo : geometry_ok s) (Hz : zlen raw = 1024) (Hfits : blocks_count s * block_size s <= zlen base).

Lemma repair_lay : repair_layout s raw base.
Proof. exact (rs_layout _ Hset). Qed.
Lemma repair_seed : in_width 32 (checksum_seed ctx).
Proof. apply metadata_seed_width. Qed.

Lemma copy_super_apart b g b' :
  backup_at s raw b -> of_group s g -> backup_at s raw b' -> disjoint_places (copy_off s b g, desc_bytes s) (backup_off s b', 1024).
Proof.
  intros Hat Hg Hat'. pose proof Hat as [Hb _]. pose proof Hat' as [Hb' _]. pose proof Hg as [Hg0 Hg1].
  destruct (group_start_spec s Hgeo b ltac:(lia)) as [E1 _]. destruct (group_start_spec s Hgeo b' ltac:(lia)) as [E2 _].
  pose proof (rl_table _ _ _ repair_lay) as Ht. pose proof Hgeo as [_ G2 _ G4 _ _ _].
  pose proof (geo_block_size ctx Hgeo) as Hbs. pose proof (desc_bytes_pos ctx) as Hdb. cbn [sb context_of ctx] in Hbs, Hdb.
  unfold disjoint_places, copy_off, backup_off. cbn [fst snd]. rewrite E1, E2.
  set (n := blocks_per_group s) in *. set (f := first_data_block s) in *. set (k := block_size s) in *. set (m := desc_bytes s) in *.
  assert (A : (g + 1) * m <= groups_count s * m) by nia.
  destruct (Z.le_gt_cases b' b) as [H|H].
  - right. assert ((f + b' * n) * k <= (f + b * n) * k) by nia. nia.
  - left. assert ((f + b * n + n) * k <= (f + b' * n) * k) by nia. nia.
Qed.

(** The superblock and its copies are written behind the groups. *)
Section Supers.
Context (raw' : bytes) (Hz' : zlen raw' = 1024) (Hh : forall g, group_has_super raw' g = group_has_super raw g).
Context (cur : bytes) (ws : list (Z * bytes)) (Hws : Forall (copy_write s raw') ws).
Context (Hin : Forall (inside (zlen cur)) ((1024, raw') :: ws)).
Let img := put_all ((1024, raw') :: ws) cur.

Lemma supers_keep o n :
  2048 <= o -> (forall b, backup_at s raw b -> disjoint_places (o, n) (backup_off s b, 1024)) -> slice img o n = slice cur o n.
Proof.
  intros Ho Hb. apply slice_put_all; [done|lia|]. apply Forall_cons. split; [right; cbn [fst snd]; lia|].
  eapply list.Forall_impl; [exact Hws|]. intros w (b & [Hat Hs] & E & Hc). unfold apart. rewrite E.
  destruct (super_copy_spec raw' b w.2 Hz' Hc) as (-> & _). apply Hb. split; [done|by rewrite <-Hh].
Qed.

Lemma supers_below n :
  repaired_below ctx raw base n cur ->
  (forall g, of_group s g -> raw_desc img s g = raw_desc cur s g) /\
  (forall b g, backup_at s raw b -> of_group s g -> slice img (copy_off s b g) (desc_bytes s) = slice cur (copy_off s b g) (desc_bytes s)) /\
  (forall q, bitmap_place s base q -> 0 <= q.1 -> slice img q.1 q.2 = slice base q.1 q.2).
Proof.
  intros [_ _ R3 _ _]. pose proof repair_lay as L.
  assert (Hsym : forall p q, disjoint_places p q -> disjoint_places q p) by (unfold disjoint_places; lia). split_and!.
  - intros g Hg. pose proof (desc_off_behind ctx Hgeo g Hg). apply supers_keep; [done|]. intros b Hb.
    apply Hsym, (rl_supers _ _ _ L); [done|by exists g].
  - intros b g Hb Hg. apply supers_keep; [|intros b' Hb'; by apply copy_super_apart].
    apply (copy_off_range base ctx Hgeo raw L); [exact (rs_size _ Hset)|done|done|done].
  - intros q Hq H0. rewrite <-R3 by done.
    assert (Hp : forall p, repair_place s raw p -> disjoint_places p q) by (intros p Hp; by apply (rl_bitmaps _ _ _ L)).
    apply slice_put_all; [done|done|]. apply Forall_cons. split.
    { specialize (Hp (1024, 1024) ltac:(left; by left)). unfold disjoint_places, apart in *. cbn [fst snd] in *. lia. }
    eapply list.Forall_impl; [exact Hws|]. intros w (b & [Hat Hs] & E & Hc). unfold apart. rewrite E.
    destruct (super_copy_spec raw' b w.2 Hz' Hc) as (-> & _).
    specialize (Hp (backup_off s b, 1024)). unfold disjoint_places in Hp. cbn [fst snd] in Hp.
    enough (backup_off s b + 1024 <= q.1 \/ q.1 + q.2 <= backup_off s b) by lia. apply Hp. left. right. exists b.
    split; [split; [done|by rewrite <-Hh]|done].
Qed.
End Supers.
End Whole.
