(* ===== verification/Scrub.v ===== *)
(** Reading a device and summing what it holds (include/fsx/scrub.hpp,
    src/ops/scrub.cpp), and the read benchmark (src/ops/benchmark.cpp).  As in the scan of the bitmaps a queued read runs when
    its result is taken, which is the same for a device that nobody writes; the
    measured times and the progress are left out. *)
From S2P Require Import Prelude Words Errors Endian Crc Host Device Durable Scheduler Allocation.
#[local] Open Scope Z_scope.

Record ScrubOptions := mkScrubOptions {
  so_bytes : Z;
  so_chunk_bytes : Z;
  so_passes : Z
}.
Record ScrubReport := mkScrubReport {
  bytes_per_pass : Z;
  total_bytes_read : Z;
  read_operations : Z;
  passes_completed : Z;
  scrub_crc32c : Z;
  stable : bool
}.

(** The size of a read: within bounds and whole sectors. *)
Definition scrub_chunk (dev : BlockDevice) (o : ScrubOptions) (t : IoTuning) : Z :=
  let chunk := if so_chunk_bytes o =? 0 then large_io_bytes t else so_chunk_bytes o in
  let chunk := Z.min (Z.max chunk (64 * 1024)) (64 * 1024 * 1024) in
  let sector := Z.max 1 (logical_sector (geometry dev)) in
  let chunk := chunk - chunk mod sector in
  if chunk =? 0 then sector else chunk.
Definition max_inflight (t : IoTuning) : Z := Z.max 2 (Z.min (queue_depth t) (workers t * 3)).

(** The loop that fills the queue; the queue and [submitted]. *)
Fixpoint fill_reads (n : nat) (chunk bytes_ depth : Z) (q : list (Z * Z)) (submitted : Z) : list (Z * Z) * Z :=
  match n with
  | O => (q, submitted)
  | S n =>
      if (submitted <? bytes_) && (zlen q <? depth)
      then
        let len := Z.min chunk (bytes_ - submitted) in
        fill_reads n chunk bytes_ depth (q ++ [(submitted, len)]) (submitted + len)
      else (q, submitted)
  end.

(** What a pass counts: [crc], [report.read_operations] and
    [report.total_bytes_read]. *)
Record PassState := mkPass {
  ps_crc : Z;
  ps_operations : Z;
  ps_total : Z
}.

(** One pass, with the reads [q] in flight. *)
Fixpoint scrub_pass (fuel : nat) (dev : BlockDevice) (chunk bytes_ depth : Z) (q : list (Z * Z)) (submitted : Z)
    (st : PassState) : M PassState :=
  if negb ((submitted <? bytes_) || negb (bool_decide (q = []))) then mret st
  else
    match fuel with
    | O => fun h => (OutOfFuel, h)
    | S fuel =>
        stop ← cancel_requested;
        if (stop : bool) then failM unsafe "scrub cancelled"
        else
          let '(q, submitted) := fill_reads (Z.to_nat depth) chunk bytes_ depth q submitted in
          match q with
          | [] => fun h => (OutOfFuel, h)
          | (off, len) :: q =>
              r ← read_task dev off len;
              scrub_pass fuel dev chunk bytes_ depth q submitted
                (mkPass (crc32c r (ps_crc st)) (ps_operations st + 1) (ps_total st + len))
          end
    end.

(** The loop over the passes from [pass] on, with [reference_crc]. *)
Fixpoint scrub_passes (n : nat) (dev : BlockDevice) (chunk bytes_ depth pass reference : Z) (r : ScrubReport)
    : M ScrubReport :=
  match n with
  | O => mret r
  | S n =>
      st ← scrub_pass (Z.to_nat (bytes_ / chunk + 1)) dev chunk bytes_ depth [] 0
             (mkPass 0xffffffff (read_operations r) (total_bytes_read r));
      let crc := Z.lxor (ps_crc st) 0xffffffff in
      let reference := if pass =? 0 then crc else reference in
      let ok := if (pass =? 0) || (crc =? reference) then stable r else false in
      if negb ok
      then failM corrupt "scrub checksum changed between passes; media or I/O path is unstable"
      else
        scrub_passes n dev chunk bytes_ depth (pass + 1) reference
          (mkScrubReport (bytes_per_pass r) (ps_total st) (ps_operations st) (passes_completed r + 1) crc ok)
  end.

Definition scrub_read (dev : BlockDevice) (o : ScrubOptions) : M ScrubReport :=
  let size := size_bytes (geometry dev) in
  if size =? 0 then failM invalid_argument "device size is zero"
  else if (so_passes o =? 0) || (64 <? so_passes o)
  then failM invalid_argument "scrub passes must be between 1 and 64"
  else
    p ← profile_device dev;
    let bytes_ := if so_bytes o =? 0 then size else so_bytes o in
    if size <? bytes_ then failM invalid_argument "scrub length exceeds device size"
    else
      let chunk := scrub_chunk dev o (tuning p) in
      scrub_passes (Z.to_nat (so_passes o)) dev chunk bytes_ (max_inflight (tuning p)) 0 0
        (mkScrubReport bytes_ 0 0 0 0 true).

(** ** The read benchmark (include/fsx/benchmark.hpp, src/ops/benchmark.cpp) *)

Fixpoint benchmark_loop (fuel : nat) (dev : BlockDevice) (chunk bytes_ depth : Z) (q : list (Z * Z)) (submitted done_ : Z)
    : M Z :=
  if negb ((submitted <? bytes_) || negb (bool_decide (q = []))) then mret done_
  else
    match fuel with
    | O => fun h => (OutOfFuel, h)
    | S fuel =>
        stop ← cancel_requested;
        if (stop : bool) then failM unsafe "benchmark cancelled"
        else
          let '(q, submitted) := fill_reads (Z.to_nat depth) chunk bytes_ depth q submitted in
          match q with
          | [] => benchmark_loop fuel dev chunk bytes_ depth q submitted done_
          | (off, len) :: q =>
              read_task dev off len;;
              benchmark_loop fuel dev chunk bytes_ depth q submitted (done_ + len)
          end
    end.

(** The bytes that were read; the measured times are left out. *)
Definition benchmark_read (dev : BlockDevice) (bytes_ : Z) : M Z :=
  let size := size_bytes (geometry dev) in
  let bytes_ := if (bytes_ =? 0) || (size <? bytes_) then Z.min size (2 ^ 30) else bytes_ in
  p ← profile_device dev;
  let t := tuning p in
  let chunk := Z.min (Z.max (large_io_bytes t) (1024 * 1024)) (16 * 1024 * 1024) in
  let depth := Z.max 2 (Z.min 8 (Z.min (queue_depth t) (workers t * 2))) in
  benchmark_loop (Z.to_nat (bytes_ / chunk + 1)) dev chunk bytes_ depth [] 0 0.

(** ** What a scrub computes *)

Section Pass.
Context (chunk bytes_ depth : Z) (Hchunk : 0 < chunk) (Hdepth : 0 < depth).

(** The reads in flight lie one behind the other from [from] to [upto], and all
    but the last of the pass have the whole size. *)
Fixpoint adjoining (from upto : Z) (q : list (Z * Z)) : Prop :=
  match q with
  | (o, n) :: q => o = from /\ n = Z.min chunk (bytes_ - o) /\ 0 < n /\ adjoining (from + n) upto q
  | [] => from = upto /\ upto <= bytes_
  end.
Lemma adjoining_snoc from upto q :
  adjoining from upto q -> upto < bytes_ ->
  adjoining from (upto + Z.min chunk (bytes_ - upto)) (q ++ [(upto, Z.min chunk (bytes_ - upto))]).
Proof.
  revert from. induction q as [|[o m] q IH]; intros from Hq Hn; cbn in *.
  - destruct Hq as [-> _]. split_and!; [done|done|lia|done|lia].
  - destruct Hq as (-> & -> & Hm & Hq). split_and!; [done|done|done|by apply IH].
Qed.
Lemma adjoining_le from upto q : adjoining from upto q -> from <= upto <= bytes_ /\ (q <> [] -> from < bytes_).
Proof.
  revert from. induction q as [|[o m] q IH]; intros from Hq; cbn in Hq; [by split; [lia|]|].
  destruct Hq as (_ & _ & Hm & Hq). apply IH in Hq as [Hq _]. split; [lia|]. intros _. lia.
Qed.

Lemma fill_reads_spec n q from submitted :
  adjoining from submitted q ->
  let r := fill_reads n chunk bytes_ depth q submitted in
  adjoining from r.2 r.1 /\ (q <> [] -> r.1 <> []) /\ (submitted < bytes_ -> (0 < n)%nat -> q = [] -> r.1 <> []).
Proof.
  revert q submitted. induction n as [|n IH]; intros q submitted Hq; cbn [fill_reads]; [split_and!; try done; lia|].
  destruct (Z.ltb_spec submitted bytes_) as [Hlt|], (Z.ltb_spec (zlen q) depth) as [Hd|Hd]; cbn [andb]; cbn [fst snd].
  - destruct (IH _ _ (adjoining_snoc _ _ _ Hq Hlt)) as (H1 & H2 & _).
    split_and!; [done|intros _|intros _ _ _]; apply H2; by destruct q.
  - split_and!; [done|done|]. intros _ _ ->. change (zlen []) with 0 in Hd. lia.
  - split_and!; [done|done|lia].
  - split_and!; [done|done|lia].
Qed.

(** The loop stops when everything has been read. *)
Lemma drained from submitted q :
  adjoining from submitted q -> (submitted <? bytes_) || negb (bool_decide (q = [])) = false -> from = bytes_.
Proof.
  intros Hq [E1%Z.ltb_ge E2%negb_false_iff%bool_decide_eq_true]%orb_false_iff. subst q. destruct Hq as [-> Hle]. lia.
Qed.
Lemma drained_at submitted q :
  adjoining bytes_ submitted q -> (submitted <? bytes_) || negb (bool_decide (q = [])) = false.
Proof.
  intros Hq. destruct (adjoining_le _ _ _ Hq) as [Hle Hne]. destruct q as [|x q]; [|specialize (Hne ltac:(done)); lia].
  rewrite bool_decide_eq_true_2 by reflexivity. apply orb_false_iff. split; [apply Z.ltb_ge; lia|done].
Qed.
(** Otherwise there is a read to take, and it is the next one. *)
Lemma next_read from submitted q :
  adjoining from submitted q -> (submitted <? bytes_) || negb (bool_decide (q = [])) = true ->
  exists len q' submitted',
    fill_reads (Z.to_nat depth) chunk bytes_ depth q submitted = ((from, len) :: q', submitted') /\
    len = Z.min chunk (bytes_ - from) /\ 0 < len /\ adjoining (from + len) submitted' q'.
Proof.
  intros Hq E. pose proof (fill_reads_spec (Z.to_nat depth) q from submitted Hq) as Hfill. cbv zeta in Hfill.
  destruct (fill_reads _ _ _ _ _ _) as [q' submitted']. cbn [fst snd] in Hfill. destruct Hfill as (F1 & F2 & F3).
  destruct q' as [|[off len] q'].
  { exfalso. destruct q as [|x q]; [|by apply F2]. apply orb_true_iff in E.
    destruct E as [E%Z.ltb_lt|E]; [apply F3; done || lia|by rewrite bool_decide_eq_true_2 in E]. }
  destruct F1 as (-> & Hlen & Hpos & F1). by eexists _, _, _.
Qed.
Lemma yields_task dev img from len h :
  wstate dev img [] h -> 0 <= from -> 0 <= len -> yields (read_task dev from len) h (fun b => b = slice img from len).
Proof.
  intros Hw Hf Hlen. unfold read_task. step Hw by (by eapply yields_cancel) as stop Hst.
  destruct stop; [apply yields_failM|].
  eapply yields_mono; [apply (yields_read dev img []); [exact Hw|done|lia]|]. by intros b (-> & _).
Qed.

Lemma scrub_pass_spec dev img fuel q submitted from st h :
  wstate dev img [] h -> 0 <= from -> adjoining from submitted q -> in_width 32 (ps_crc st) ->
  bytes_ - from <= Z.of_nat fuel * chunk ->
  yields (scrub_pass fuel dev chunk bytes_ depth q submitted st) h (fun st' =>
    ps_crc st' = crc_ref poly_castagnoli (slice img from (bytes_ - from)) (ps_crc st) /\
    ps_total st' = ps_total st + (bytes_ - from)).
Proof.
  revert q submitted from st h. induction fuel as [|fuel IH]; intros q submitted from st h Hw Hf Hq Hc Hfuel;
    cbn [scrub_pass]; destruct ((submitted <? bytes_) || _) eqn:E; cbn [negb].
  - pose proof (adjoining_le _ _ _ Hq) as [Hle _]. assert (from = bytes_) by lia. subst from.
    apply drained_at in Hq. congruence.
  - apply yields_ret. rewrite (drained _ _ _ Hq E), Z.sub_diag, slice_nonpos by lia. split; [done|lia].
  - step Hw by (by eapply yields_cancel) as stop Hst. destruct stop; [apply yields_failM|].
    destruct (next_read _ _ _ Hq E) as (len & q' & submitted' & -> & Hlen & Hpos & F1).
    destruct (adjoining_le _ _ _ F1) as [Hle' _].
    step Hw by (eapply (yields_task dev img); [exact Hw|lia..]) as b Hb. subst b. rewrite crc32c_ref by done.
    eapply yields_mono; [apply (IH _ _ (from + len)); [exact Hw|lia|exact F1| |nia]|].
    { cbn. apply crc_ref_width; [done|done]. }
    cbn [ps_crc ps_total]. intros st' [E1 E2]. rewrite E1, E2, <-crc_ref_app. split; [|lia].
    replace (bytes_ - from) with (len + (bytes_ - (from + len))) by lia. by rewrite slice_split by lia.
  - apply yields_ret. rewrite (drained _ _ _ Hq E), Z.sub_diag, slice_nonpos by lia. split; [done|lia].
Qed.
Lemma benchmark_loop_spec dev img fuel q submitted from done_ h :
  wstate dev img [] h -> 0 <= from -> adjoining from submitted q -> bytes_ - from <= Z.of_nat fuel * chunk ->
  yields (benchmark_loop fuel dev chunk bytes_ depth q submitted done_) h (fun n => n = done_ + (bytes_ - from)).
Proof.
  revert q submitted from done_ h. induction fuel as [|fuel IH]; intros q submitted from done_ h Hw Hf Hq Hfuel;
    cbn [benchmark_loop]; destruct ((submitted <? bytes_) || _) eqn:E; cbn [negb].
  - pose proof (adjoining_le _ _ _ Hq) as [Hle _]. assert (from = bytes_) by lia. subst from.
    apply drained_at in Hq. congruence.
  - apply yields_ret. rewrite (drained _ _ _ Hq E). lia.
  - step Hw by (by eapply yields_cancel) as stop Hst. destruct stop; [apply yields_failM|].
    destruct (next_read _ _ _ Hq E) as (len & q' & submitted' & -> & Hlen & Hpos & F1).
    destruct (adjoining_le _ _ _ F1) as [Hle' _].
    step Hw by (eapply (yields_task dev img); [exact Hw|lia..]) as b Hb.
    eapply yields_mono; [apply (IH _ _ (from + len)); [exact Hw|lia|exact F1|nia]|]. intros r ->. lia.
  - apply yields_ret. rewrite (drained _ _ _ Hq E). lia.
Qed.
End Pass.

(** The rounds that the fuel allows for. *)
Lemma rounds_enough n chunk : 0 < chunk -> 0 <= n -> n - 0 <= Z.of_nat (Z.to_nat (n / chunk + 1)) * chunk.
Proof.
  intros Hc Hn. pose proof (Z.div_pos n chunk Hn Hc). rewrite Z2Nat.id by lia.
  pose proof (Z.mul_succ_div_gt n chunk ltac:(lia)). lia.
Qed.

(** The stored form of the CRC-32C of the first [n] bytes. *)
Definition range_crc (img : bytes) (n : Z) : Z :=
  Z.lxor (crc_ref poly_castagnoli (slice img 0 n) 0xffffffff) 0xffffffff.

Lemma scrub_passes_spec n dev img chunk bytes_ depth pass reference r h :
  wstate dev img [] h -> 0 < chunk -> 0 < depth -> 0 <= bytes_ -> 0 <= pass ->
  (pass = 0 \/ reference = range_crc img bytes_ /\ scrub_crc32c r = reference) -> stable r = true ->
  yields (scrub_passes n dev chunk bytes_ depth pass reference r) h (fun r' =>
    stable r' = true /\ bytes_per_pass r' = bytes_per_pass r /\
    passes_completed r' = passes_completed r + Z.of_nat n /\
    total_bytes_read r' = total_bytes_read r + Z.of_nat n * bytes_ /\
    (0 < pass + Z.of_nat n -> scrub_crc32c r' = range_crc img bytes_)).
Proof.
  intros Hw Hc Hd Hb. revert pass reference r h Hw. induction n as [|n IH]; intros pass reference r h Hw Hp Href Hst;
    cbn [scrub_passes].
  { apply yields_ret. split_and!; try done; lia. }
  eapply yields_bind.
  { apply (scrub_pass_spec chunk bytes_ depth Hc Hd dev img _ [] 0 0); [exact Hw|done|by split|done|by apply rounds_enough]. }
  cbv beta. intros st h1 [E1 E2] Hq. apply (wstate_quiet _ _ _ _ _ Hq) in Hw. cbn [ps_crc ps_total] in E1, E2.
  rewrite Z.sub_0_r in E1, E2.
  assert (Ecrc : Z.lxor (ps_crc st) 0xffffffff = range_crc img bytes_) by (by rewrite E1). cbv zeta. rewrite Ecrc.
  assert (Eok : ((pass =? 0) || (range_crc img bytes_ =? (if pass =? 0 then range_crc img bytes_ else reference))) = true).
  { destruct (Z.eqb_spec pass 0); [done|]. destruct Href as [|[-> _]]; [done|]. by rewrite Z.eqb_refl. }
  rewrite Eok, Hst. cbn [negb].
  eapply yields_mono; [apply IH; [exact Hw|lia| |done]|].
  - right. cbn [scrub_crc32c]. destruct (Z.eqb_spec pass 0); [done|]. destruct Href as [|[-> _]]; [done|]. done.
  - cbn [bytes_per_pass passes_completed total_bytes_read]. intros r' (H1 & H2 & H3 & H4 & H5).
    split_and!; try done; [lia|rewrite H4, E2; lia|intros _; apply H5; lia].
Qed.

Lemma scrub_chunk_pos dev o t : 0 < scrub_chunk dev o t.
Proof.
  unfold scrub_chunk. cbv zeta. set (c := Z.min _ _). set (s := Z.max 1 _).
  assert (Hs : 0 < s) by (unfold s; lia). assert (0 < c) by (unfold c; lia).
  pose proof (Z.mod_le c s ltac:(lia) Hs). destruct (Z.eqb_spec (c - c mod s) 0); lia.
Qed.

(** C34: a scrub ends on every host, only reads, and when it returns a report it
    has read the asked range in every pass with reads that cover it once, in
    order, and reports the CRC-32C of the range as the bit-serial definition
    computes it, found stable over the passes. *)
Theorem scrub_sums_range (dev : BlockDevice) (img : bytes) (o : ScrubOptions) (h : Host)
    (Hbytes : 0 <= so_bytes o) (Hpasses : 0 <= so_passes o) (Hw : wstate dev img [] h) :
  let n := if so_bytes o =? 0 then size_bytes (geometry dev) else so_bytes o in
  yields (scrub_read dev o) h (fun r =>
    n <= size_bytes (geometry dev) /\ bytes_per_pass r = n /\ passes_completed r = so_passes o /\
    total_bytes_read r = so_passes o * n /\ scrub_crc32c r = range_crc img n /\ stable r = true).
Proof.
  cbv zeta. unfold scrub_read. cbv zeta. destruct (Z.eqb_spec (size_bytes (geometry dev)) 0); [apply yields_failM|].
  destruct ((so_passes o =? 0) || _) eqn:Ep; [apply yields_failM|]. apply orb_false_iff in Ep as [Ep%Z.eqb_neq _].
  step Hw by (apply (yields_reader dev img [] _ _ (fun _ => True)); [exact Hw|apply reader_profile|done]) as p Hp.
  set (len := if so_bytes o =? 0 then _ else _).
  assert (Hn : 0 <= len) by (pose proof (ws_len _ _ _ _ Hw); pose proof (zlen_nonneg img); unfold len; case_match; lia).
  clearbody len. destruct (Z.ltb_spec (size_bytes (geometry dev)) len); [apply yields_failM|].
  eapply yields_mono; [apply (scrub_passes_spec _ dev img); [exact Hw|apply scrub_chunk_pos|unfold max_inflight; lia|done|
    done|by left|done]|].
  intros r (H1 & H2 & H3 & H4 & H5). cbn in H2, H3, H4. rewrite Z2Nat.id in * by lia.
  split_and!; try done. apply H5. lia.
Qed.

(** A benchmark ends on every host, only reads, and a count it returns is the
    number of bytes it was to read. *)
Theorem benchmark_reads_all (dev : BlockDevice) (img : bytes) (n : Z) (h : Host)
    (Hbytes : 0 <= n) (Hw : wstate dev img [] h) :
  yields (benchmark_read dev n) h (fun r =>
    r = (if (n =? 0) || (size_bytes (geometry dev) <? n) then Z.min (size_bytes (geometry dev)) (2 ^ 30) else n)).
Proof.
  unfold benchmark_read. cbv zeta. set (len := if (n =? 0) || _ then _ else _).
  assert (Hn : 0 <= len) by (pose proof (ws_len _ _ _ _ Hw); pose proof (zlen_nonneg img); unfold len; case_match; lia).
  clearbody len.
  step Hw by (apply (yields_reader dev img [] _ _ (fun _ => True)); [exact Hw|apply reader_profile|done]) as p Hp.
  set (chunk := Z.min _ (16 * 1024 * 1024)). assert (Hc : 0 < chunk) by (unfold chunk; lia). clearbody chunk.
  set (depth := Z.max 2 _). assert (Hd : 0 < depth) by (unfold depth; lia). clearbody depth.
  eapply yields_mono; [apply (benchmark_loop_spec chunk len depth Hc Hd dev img _ [] 0 0); [exact Hw|done|by split|
    by apply rounds_enough]|]. intros r ->. lia.
Qed.

Definition demo_scrub_device : BlockDevice := mkDevice 1 "disk" (mkGeometry 1000 512 512 false false) true.
Definition demo_scrub : bytes := repeat Byte.x61 1000.
Definition demo_scrub_host : Host := demo_host (mkFile Regular demo_scrub []) [].
Lemma scrub_sums_range_witness :
  exists r, (scrub_read demo_scrub_device (mkScrubOptions 600 0 2) demo_scrub_host).1 = Ret r /\
    passes_completed r = 2 /\ total_bytes_read r = 1200 /\ scrub_crc32c r = range_crc demo_scrub 600.
Proof.
  assert (Hw : wstate demo_scrub_device demo_scrub [] demo_scrub_host).
  { apply (wstate_start demo_scrub_device demo_scrub_host (mkFile Regular demo_scrub [])); [|done].
    split; [done|]. split; [by vm_compute|by apply Forall_nil]. }
  pose proof (scrub_sums_range demo_scrub_device demo_scrub (mkScrubOptions 600 0 2) demo_scrub_host
    ltac:(done) ltac:(done) Hw) as (_ & _ & H).
  assert (E : exists r, (scrub_read demo_scrub_device (mkScrubOptions 600 0 2) demo_scrub_host).1 = Ret r)
    by (eexists; vm_compute; reflexivity).
  destruct E as [r E]. exists r. split; [exact E|]. destruct (H r E) as (_ & _ & H1 & H2 & H3 & _). by split_and!.
Defined.
