(* ===== verification/Verify.v ===== *)
(** The deep verification of an ext file system: checksums and counters, the
    owners of all blocks, and the allocation bitmaps against each other
    (include/fsx/ext4_verify.hpp, src/ext4/verify.cpp).  The progress callback
    only reports and is left out. *)
From S2P Require Import Prelude Words Ranges Errors Endian Host Device Durable Ext4 Allocation Metadata MetadataCheck.
From S2P Require Import Extents ExtentScan Relocation RelocatePlan.
From stdpp Require Import sorting.
#[local] Open Scope Z_scope.

Record Range := mkSpan {
  sp_start : Z;
  sp_end : Z;
  sp_inode : Z;
  sp_metadata : bool
}.

Definition add_overflow (a b : Z) : option Z := if u64_max - a <? b then None else Some (a + b).

(** [std::lower_bound]: the index of the first element of [l] behind those with
    [p]; the range that is left is halved. *)
Fixpoint lower_bound_loop {A} (n : nat) (p : A -> bool) (l : list A) (first len : nat) : nat :=
  match n with
  | O => first
  | S n =>
      if Nat.eqb len 0 then first
      else
        let half := Nat.div2 len in
        match l !! (first + half)%nat with
        | Some x =>
            if p x then lower_bound_loop n p l (first + half + 1) (len - half - 1)
            else lower_bound_loop n p l first half
        | None => first
        end
  end.
Definition lower_bound {A} (p : A -> bool) (l : list A) : nat := lower_bound_loop (length l) p l 0 (length l).

(** The loop that extends [covered]. *)
Fixpoint covers_to (l : list BlockExtent) (covered stop : Z) : bool :=
  match l with
  | e :: l =>
      if e_start e <=? covered then
        let covered := Z.max covered (e_end e) in
        if stop <=? covered then true else covers_to l covered stop
      else false
  | [] => false
  end.
Definition fully_allocated (allocated : list BlockExtent) (start length : Z) : bool :=
  if length =? 0 then true
  else
    match add_overflow start length with
    | None => false
    | Some stop => covers_to (drop (lower_bound (fun e => e_end e <=? start) allocated) allocated) start stop
    end.

(** The loop of [count_overlaps] on ranges in order. *)
Fixpoint overlaps_from (furthest : Z) (l : list Range) (count : Z) : Z :=
  match l with
  | r :: l => overlaps_from (Z.max furthest (sp_end r)) l (if sp_start r <? furthest then count + 1 else count)
  | [] => count
  end.

Definition overlaps_any (sorted : list Range) (start stop : Z) : bool :=
  if stop <=? start then false
  else
    match sorted !! lower_bound (fun r => sp_end r <=? start) sorted with
    | Some r => sp_start r <? stop
    | None => false
    end.

Record DeepIntegrityReport := mkDeep {
  d_clean : bool;
  complete_owner_coverage : bool;
  d_groups_checked : Z;
  d_allocated_inodes : Z;
  d_extent_inodes : Z;
  legacy_inodes : Z;
  data_extents : Z;
  data_blocks : Z;
  extent_tree_blocks : Z;
  owner_unallocated_ranges : Z;
  metadata_unallocated_ranges : Z;
  overlapping_owner_ranges : Z;
  owner_metadata_overlaps : Z;
  d_warnings : list string;
  d_errors : list string
}.

(** The counters that come with a message, and a message without one. *)
Inductive Defect := bad_geometry | unallocated_owner | unallocated_metadata | overlapping_metadata.
#[export] Instance Defect_eq_dec : EqDecision Defect.
Proof. solve_decision. Defined.
Definition found (w : Defect) (msg : string) (r : DeepIntegrityReport) : DeepIntegrityReport :=
  let inc v n := if bool_decide (w = v) then n + 1 else n in
  mkDeep (d_clean r) (complete_owner_coverage r) (d_groups_checked r) (d_allocated_inodes r)
    (d_extent_inodes r) (legacy_inodes r) (data_extents r) (data_blocks r) (extent_tree_blocks r)
    (inc unallocated_owner (owner_unallocated_ranges r))
    (inc unallocated_metadata (metadata_unallocated_ranges r)) (overlapping_owner_ranges r)
    (inc overlapping_metadata (owner_metadata_overlaps r)) (d_warnings r) (d_errors r ++ [msg]).
Definition found_if (b : bool) (w : Defect) (msg : string) (r : DeepIntegrityReport) : DeepIntegrityReport :=
  if b then found w msg r else r.
Definition count_data (n : Z) (r : DeepIntegrityReport) : DeepIntegrityReport :=
  mkDeep (d_clean r) (complete_owner_coverage r) (d_groups_checked r) (d_allocated_inodes r)
    (d_extent_inodes r) (legacy_inodes r) (data_extents r) (u64 (data_blocks r + n)) (extent_tree_blocks r)
    (owner_unallocated_ranges r) (metadata_unallocated_ranges r) (overlapping_owner_ranges r)
    (owner_metadata_overlaps r) (d_warnings r) (d_errors r).
Definition count_overlapping (n : Z) (r : DeepIntegrityReport) : DeepIntegrityReport :=
  mkDeep (d_clean r) (complete_owner_coverage r) (d_groups_checked r) (d_allocated_inodes r)
    (d_extent_inodes r) (legacy_inodes r) (data_extents r) (data_blocks r) (extent_tree_blocks r)
    (owner_unallocated_ranges r) (metadata_unallocated_ranges r) n (owner_metadata_overlaps r) (d_warnings r)
    (if negb (n =? 0) then d_errors r ++ [pretty n +:+ " overlapping physical owner ranges detected"]
     else d_errors r).

(** The report behind the scan of the owners. *)
Definition start_report (basic : MetadataIntegrityReport) (o : OwnerScan) : DeepIntegrityReport :=
  let legacy := legacy_blockmap_inodes o in
  mkDeep true (legacy =? 0) (m_groups_checked basic) (allocated_inodes o) (extent_inodes o) legacy
    (zlen (extents o)) 0 (zlen (tree_blocks o)) 0 0 0 0
    (if negb (legacy =? 0)
     then [pretty legacy +:+ " allocated inodes use legacy indirect block maps; full owner coverage is unavailable"]
     else []) (m_errors basic).

(** One extent of the owners: the report and [owner_ranges]. *)
Definition check_extent (s : Superblock) (alloc : list BlockExtent) (st : DeepIntegrityReport * list Range)
    (e : OwnedExtent) : DeepIntegrityReport * list Range :=
  let '(r, ranges) := st in
  let bad := found bad_geometry ("inode " +:+ pretty (o_inode e) +:+ " extent overflows filesystem geometry") r in
  match add_overflow (physical_block e) (o_length e) with
  | None => (bad, ranges)
  | Some stop =>
      if blocks_count s <? stop then (bad, ranges)
      else
        (found_if (negb (fully_allocated alloc (physical_block e) (o_length e))) unallocated_owner
           ("inode " +:+ pretty (o_inode e) +:+ " extent is not fully allocated in the block bitmap")
           (count_data (o_length e) r),
         ranges ++ [mkSpan (physical_block e) stop (o_inode e) false])
  end.
Definition check_tree (alloc : list BlockExtent) (st : DeepIntegrityReport * list Range) (t : ExtentTreeBlock)
    : DeepIntegrityReport * list Range :=
  let '(r, ranges) := st in
  (found_if (negb (fully_allocated alloc (tb_physical_block t) 1)) unallocated_owner
     ("inode " +:+ pretty (tb_inode t) +:+ " extent-tree block is not allocated in the block bitmap") r,
   ranges ++ [mkSpan (tb_physical_block t) (u64 (tb_physical_block t + 1)) (tb_inode t) false]).

(** The fixed metadata of a group. *)
Definition fixed_ranges (s : Superblock) (gd : GroupDesc) : list Range :=
  [mkSpan (block_bitmap gd) (u64 (block_bitmap gd + 1)) 0 true;
   mkSpan (inode_bitmap gd) (u64 (inode_bitmap gd + 1)) 0 true;
   mkSpan (inode_table gd) (u64 (inode_table gd + inode_table_blocks s)) 0 true].
Definition check_fixed (s : Superblock) (alloc : list BlockExtent) (ranges : list Range) (g : Z)
    (r : DeepIntegrityReport) (f : Range) : DeepIntegrityReport :=
  if blocks_count s <? sp_end f
  then found unallocated_metadata ("group " +:+ pretty g +:+ " fixed metadata exceeds filesystem geometry") r
  else
    let r := found_if (negb (fully_allocated alloc (sp_start f) (u64 (sp_end f - sp_start f)))) unallocated_metadata
               ("group " +:+ pretty g +:+ " fixed metadata is not fully allocated in block bitmap") r in
    found_if (overlaps_any ranges (sp_start f) (sp_end f)) overlapping_metadata
      ("group " +:+ pretty g +:+ " fixed metadata overlaps inode-owned blocks") r.
Fixpoint check_fixed_groups (n : nat) (dev : BlockDevice) (s : Superblock) (alloc : list BlockExtent)
    (ranges : list Range) (g : Z) (r : DeepIntegrityReport) : M DeepIntegrityReport :=
  match n with
  | O => mret r
  | S n =>
      stop ← cancel_requested;
      if (stop : bool) then failM unsafe "deep verification cancelled"
      else
        gd ← read_group_desc dev s g;
        check_fixed_groups n dev s alloc ranges (g + 1)
          (foldl (check_fixed s alloc ranges g) r (fixed_ranges s gd))
  end.

(** [r.clean = r.errors.empty()]. *)
Definition close_deep (r : DeepIntegrityReport) : DeepIntegrityReport :=
  mkDeep (bool_decide (d_errors r = [])) (complete_owner_coverage r) (d_groups_checked r) (d_allocated_inodes r)
    (d_extent_inodes r) (legacy_inodes r) (data_extents r) (data_blocks r) (extent_tree_blocks r)
    (owner_unallocated_ranges r) (metadata_unallocated_ranges r) (overlapping_owner_ranges r)
    (owner_metadata_overlaps r) (d_warnings r) (d_errors r).

Section Deep.
(** [std::sort] on extents, and on ranges by start, end and inode and by start
    and end. *)
Context (sort_by : (OwnedExtent -> Z) -> list OwnedExtent -> list OwnedExtent).
Context (sort_owned sort_placed : list Range -> list Range).

Definition count_overlaps (ranges : list Range) : Z :=
  match sort_owned ranges with
  | [] => 0
  | r :: l => overlaps_from (sp_end r) l 0
  end.

Definition verify_deep (dev : BlockDevice) : M DeepIntegrityReport :=
  basic ← verify_metadata dev true;
  s ← read_superblock dev;
  graph ← build_allocation_graph dev None;
  o ← scan_extent_owners sort_by dev 0;
  let alloc := allocated graph in
  let st := foldl (check_extent s alloc) (start_report basic o, []) (extents o) in
  let '(r, ranges) := foldl (check_tree alloc) st (tree_blocks o) in
  let r := count_overlapping (count_overlaps ranges) r in
  r ← check_fixed_groups (Z.to_nat (groups_count s)) dev s alloc (sort_placed ranges) 0 r;
  mret (close_deep r).
End Deep.

(** ** Binary search *)

Lemma lower_bound_loop_spec {A} n (p : A -> bool) a b first len :
  Forall (fun x => p x = true) a -> Forall (fun x => p x = false) b ->
  (first <= length a <= first + len)%nat -> (first + len <= length (a ++ b))%nat -> (len <= n)%nat ->
  lower_bound_loop n p (a ++ b) first len = length a.
Proof.
  intros Ha Hb. revert first len. induction n as [|n IH]; intros first len H1 H2 Hn; cbn [lower_bound_loop]; [lia|].
  destruct (Nat.eqb_spec len 0); [lia|]. cbv zeta. pose proof (Nat.lt_div2 len ltac:(lia)) as Hh.
  set (half := Nat.div2 len) in *.
  destruct (lookup_lt_is_Some_2 (a ++ b) (first + half)) as [x Hx]; [lia|]. rewrite Hx.
  apply lookup_app_Some in Hx as [Hx | [Hge Hx]].
  - apply lookup_lt_Some in Hx as Hlt. rewrite (Forall_lookup_1 _ _ _ _ Ha Hx). apply IH; lia.
  - rewrite (Forall_lookup_1 _ _ _ _ Hb Hx). apply IH; lia.
Qed.
Lemma lower_bound_spec {A} (p : A -> bool) a b :
  Forall (fun x => p x = true) a -> Forall (fun x => p x = false) b -> lower_bound p (a ++ b) = length a.
Proof. intros Ha Hb. unfold lower_bound. apply lower_bound_loop_spec; try done; rewrite ?length_app; lia. Qed.

(** A list whose elements with [p] come first. *)
Lemma split_sorted {A} (R : A -> A -> Prop) (p : A -> bool) l :
  (forall x y, x ∈ l -> y ∈ l -> R x y -> p y = true -> p x = true) -> StronglySorted R l ->
  exists a b, l = a ++ b /\ Forall (fun x => p x = true) a /\ Forall (fun x => p x = false) b.
Proof.
  intros HR. induction 1 as [|x l Hs IH Hx]; [by exists [], []|].
  destruct IH as (a & b & -> & Ha & Hb); [intros x1 y1 Hx1 Hy1; apply (HR x1 y1); by right|].
  destruct (p x) eqn:E.
  - exists (x :: a), b. split_and!; [done|by apply Forall_cons|done].
  - exists [], (x :: a ++ b). split_and!; [done|by apply Forall_nil|]. apply Forall_cons. split; [done|].
    apply Forall_app. split; [|done]. apply Forall_app in Hx as [Hx _].
    apply list.Forall_forall. intros y Hy. rewrite list.Forall_forall in Hx. specialize (Hx y Hy).
    destruct (p y) eqn:Ey; [|done]. rewrite (HR x y) in E; [done|by left|right; apply elem_of_app; by left|done|done].
Qed.

(** ** Blocks of an allocation graph *)

(** Extents in order. *)
Definition extents_in_order : list BlockExtent -> Prop :=
  StronglySorted (fun a b => e_start a + e_length a <= e_start b).

Lemma extents_order n l : Forall (extent_ok n) l -> StronglySorted Z.lt (blocks_of l) -> extents_in_order l.
Proof.
  induction l as [|e l IH]; intros Hok Hs; [constructor|]. apply Forall_cons in Hok as [(E1 & E2 & _) Hok].
  rewrite blocks_of_cons in Hs. apply StronglySorted_app in Hs as (Hx & _ & Hs). constructor; [by apply IH|].
  apply list.Forall_forall. intros e' He'. rewrite list.Forall_forall in Hok.
  destruct (Hok e' He') as (E4 & E5 & _). assert (H : e_start e + e_length e - 1 < e_start e'); [|lia].
  apply Hx; [apply elem_of_seqZ; lia|]. unfold blocks_of. apply list_elem_of_In, in_concat.
  exists (seqZ (e_start e') (e_length e')). split; apply list_elem_of_In; [|apply elem_of_seqZ; lia].
  apply list_elem_of_fmap. by exists e'.
Qed.
Lemma elem_of_blocks l b : b ∈ blocks_of l <-> exists e, e ∈ l /\ e_start e <= b < e_start e + e_length e.
Proof.
  induction l as [|e l IH]; [split; [by intros H%elem_of_nil|by intros (e & H%elem_of_nil & _)]|].
  rewrite blocks_of_cons, elem_of_app, elem_of_seqZ, IH. split.
  - intros [H | (e' & He & Hb)]; [exists e|exists e']; rewrite elem_of_cons; tauto.
  - intros (e' & [-> | He]%elem_of_cons & Hb); [by left|right; by exists e'].
Qed.

Lemma covers_to_spec n l covered stop :
  n < 2 ^ 64 -> Forall (extent_ok n) l -> extents_in_order l -> covered < stop ->
  covers_to l covered stop = true <-> forall b, covered <= b < stop -> b ∈ blocks_of l.
Proof.
  intros Hn. revert covered. induction l as [|e l IH]; intros covered Hok Ho Hc; cbn [covers_to].
  { split; [done|]. intros H. by specialize (H covered ltac:(lia)) as ?%elem_of_nil. }
  apply Forall_cons in Hok as [He Hok]. apply StronglySorted_inv in Ho as [Ho Hafter].
  assert (Hl : forall b, b ∈ blocks_of l -> e_start e + e_length e <= b).
  { intros b (x & Hx & Hb)%elem_of_blocks. rewrite list.Forall_forall in Hafter. specialize (Hafter x Hx). lia. }
  rewrite (e_end_ok n e Hn He). destruct He as (E1 & E2 & _). setoid_rewrite blocks_of_cons.
  setoid_rewrite elem_of_app. setoid_rewrite elem_of_seqZ. destruct (Z.leb_spec (e_start e) covered).
  - cbv zeta. destruct (Z.leb_spec stop (Z.max covered (e_start e + e_length e))).
    + split; [|done]. intros _ b Hb. left. lia.
    + rewrite IH by (done || lia). split; intros Hb b Hr.
      * destruct (Z.lt_ge_cases b (e_start e + e_length e)); [left; lia|right]. apply Hb. lia.
      * destruct (Hb b ltac:(lia)) as [|]; [lia|done].
  - split; [done|]. intros Hb. destruct (Hb covered ltac:(lia)) as [|H']; [lia|]. specialize (Hl _ H'). lia.
Qed.

Lemma fully_allocated_spec n l start len :
  n < 2 ^ 64 -> Forall (extent_ok n) l -> extents_in_order l -> 0 <= start -> 0 < len -> start + len < 2 ^ 64 ->
  fully_allocated l start len = true <-> forall b, start <= b < start + len -> b ∈ blocks_of l.
Proof.
  intros Hn Hok Ho Hs Hl Hr. unfold fully_allocated, add_overflow.
  rewrite (proj2 (Z.eqb_neq _ _)), (proj2 (Z.ltb_ge _ _)) by lia.
  assert (Hend : forall e, e ∈ l -> e_end e = e_start e + e_length e /\ 0 < e_length e).
  { intros e He. rewrite list.Forall_forall in Hok. specialize (Hok e He). split; [by apply (e_end_ok n)|apply Hok]. }
  destruct (split_sorted (fun a b => e_start a + e_length a <= e_start b) (fun e => e_end e <=? start) l) as (a & b & -> & Ha & Hb); [|exact Ho|].
  { intros x y Hx Hy Hxy. destruct (Hend x Hx), (Hend y Hy). rewrite !Z.leb_le. lia. }
  rewrite lower_bound_spec, drop_app_length by done. apply Forall_app in Hok as [Hoka Hokb].
  apply StronglySorted_app in Ho as (_ & _ & Hob).
  rewrite (covers_to_spec n) by (done || lia). setoid_rewrite blocks_of_app. setoid_rewrite elem_of_app.
  split; intros H x Hx; [by right; apply H|]. destruct (H x Hx) as [Hin|]; [|done].
  apply elem_of_blocks in Hin as (e & He & Hb'). rewrite list.Forall_forall in Ha. specialize (Ha e He). cbv beta in Ha.
  apply Z.leb_le in Ha. destruct (Hend e) as [E _]; [apply elem_of_app; by left|]. lia.
Qed.

(** ** Blocks of ranges *)

Definition span_blocks (l : list Range) : list Z :=
  concat ((fun r => seqZ (sp_start r) (sp_end r - sp_start r)) <$> l).
Definition proper (r : Range) : Prop := sp_start r < sp_end r.
(** The ranges lie behind [f] and one behind the other. *)
Fixpoint separated (f : Z) (l : list Range) : Prop :=
  match l with
  | r :: l => f <= sp_start r /\ separated (sp_end r) l
  | [] => True
  end.
Definition spans_in_order : list Range -> Prop := StronglySorted (fun a b => sp_end a <= sp_start b).
Definition by_start : list Range -> Prop := StronglySorted (fun a b => sp_start a <= sp_start b).

Lemma elem_of_spans l b : b ∈ span_blocks l <-> exists r, r ∈ l /\ sp_start r <= b < sp_end r.
Proof.
  induction l as [|r l IH]; [split; [by intros H%elem_of_nil|by intros (r & H%elem_of_nil & _)]|].
  change (span_blocks (r :: l)) with (seqZ (sp_start r) (sp_end r - sp_start r) ++ span_blocks l).
  rewrite elem_of_app, elem_of_seqZ, IH. split.
  - intros [H | (x & Hx & Hb)]; [exists r|exists x]; rewrite elem_of_cons; (split; [tauto|lia]).
  - intros (x & [-> | Hx]%elem_of_cons & Hb); [left; lia|right; by exists x].
Qed.

Lemma overlaps_from_zero f l c :
  Forall proper l -> c <= overlaps_from f l c /\ (overlaps_from f l c = c <-> separated f l).
Proof.
  revert f c. induction l as [|r l IH]; intros f c Hp; cbn [overlaps_from separated]; [split; [lia|done]|].
  apply Forall_cons in Hp as [Hr Hp]. unfold proper in Hr. destruct (Z.ltb_spec (sp_start r) f).
  - destruct (IH (Z.max f (sp_end r)) (c + 1) Hp) as [Hge _]. split; [lia|]. split; lia.
  - rewrite Z.max_r by lia. destruct (IH (sp_end r) c Hp) as [Hge Hi]. split; [done|]. rewrite Hi. tauto.
Qed.

Lemma separated_order f l :
  Forall proper l -> separated f l -> spans_in_order l /\ Forall (fun r => f <= sp_start r) l.
Proof.
  revert f. induction l as [|r l IH]; intros f Hp Hs; [split; [constructor|by apply Forall_nil]|].
  apply Forall_cons in Hp as [Hr Hp]. destruct Hs as [Hf Hs]. destruct (IH _ Hp Hs) as [Ho Hge].
  split; [by constructor|]. apply Forall_cons. split; [done|]. eapply Forall_impl; [exact Hge|].
  unfold proper in Hr. cbn. lia.
Qed.
Lemma spans_nodup l : Forall proper l -> spans_in_order l -> NoDup (span_blocks l).
Proof.
  intros Hp. induction 1 as [|r l Ho IH Hr]; [apply NoDup_nil_2|]. apply Forall_cons in Hp as [Hpr Hp].
  apply NoDup_app. split_and!; [apply NoDup_seqZ| |by apply IH]. intros b Hb%elem_of_seqZ (x & Hx & Hb')%elem_of_spans.
  rewrite list.Forall_forall in Hr. specialize (Hr x Hx). lia.
Qed.
Lemma nodup_separated prev l :
  by_start (prev :: l) -> Forall proper (prev :: l) -> NoDup (span_blocks (prev :: l)) -> separated (sp_end prev) l.
Proof.
  revert prev. induction l as [|r l IH]; intros prev Hs Hp Hn; [done|].
  apply StronglySorted_cons in Hs as [Hle Hs]. apply Forall_cons in Hle as [Hle _].
  apply Forall_cons in Hp as [Hp0 Hp]. pose proof Hp as [Hr _]%Forall_cons. unfold proper in *.
  change (span_blocks (prev :: r :: l)) with (seqZ (sp_start prev) (sp_end prev - sp_start prev) ++ span_blocks (r :: l)) in Hn.
  apply NoDup_app in Hn as (_ & Hd & Hn). split; [|by apply IH].
  destruct (Z.le_gt_cases (sp_end prev) (sp_start r)); [done|]. exfalso. apply (Hd (sp_start r)).
  - apply elem_of_seqZ. lia.
  - apply elem_of_spans. exists r. split; [by left|lia].
Qed.
Lemma nodup_order l : by_start l -> Forall proper l -> NoDup (span_blocks l) -> spans_in_order l.
Proof.
  intros Hs Hp Hn. destruct l as [|r l]; [constructor|]. pose proof (nodup_separated r l Hs Hp Hn) as Hsep.
  apply Forall_cons in Hp as [_ Hp]. destruct (separated_order _ l Hp Hsep). by constructor.
Qed.

Definition sorts_spans (f : list Range -> list Range) : Prop := forall l, f l ≡ₚ l /\ by_start (f l).

Lemma span_blocks_permute l l' : l ≡ₚ l' -> span_blocks l ≡ₚ span_blocks l'.
Proof. apply concat_fmap_permute. Qed.

Lemma count_overlaps_zero f l :
  sorts_spans f -> Forall proper l -> count_overlaps f l = 0 <-> NoDup (span_blocks l).
Proof.
  intros Hf Hp. destruct (Hf l) as [Hperm Hs]. unfold count_overlaps. rewrite <-(span_blocks_permute _ _ Hperm).
  rewrite <-Hperm in Hp. destruct (f l) as [|r l']; [split; [intros _; apply NoDup_nil_2|done]|].
  pose proof Hp as [Hr Hp']%Forall_cons. destruct (overlaps_from_zero (sp_end r) l' 0 Hp') as [_ ->]. split.
  - intros Hsep. apply spans_nodup; [done|]. destruct (separated_order _ l' Hp' Hsep). by constructor.
  - by apply nodup_separated.
Qed.

Lemma overlaps_any_spec l start stop :
  Forall proper l -> spans_in_order l -> start < stop ->
  overlaps_any l start stop = true <-> exists b, start <= b < stop /\ b ∈ span_blocks l.
Proof.
  intros Hp Ho Hs. unfold overlaps_any. rewrite (proj2 (Z.leb_gt _ _)) by done.
  destruct (split_sorted (fun a b => sp_end a <= sp_start b) (fun r => sp_end r <=? start) l) as (a & b & -> & Ha & Hb);
    [|exact Ho|].
  { intros x y Hx Hy Hxy. rewrite list.Forall_forall in Hp. pose proof (Hp y Hy) as Hpy. unfold proper in Hpy.
    rewrite !Z.leb_le. lia. }
  rewrite lower_bound_spec, lookup_app_r, Nat.sub_diag by done.
  apply Forall_app in Hp as [_ Hp]. apply StronglySorted_app in Ho as (_ & _ & Ho).
  assert (Hout : forall x, start <= x -> x ∈ span_blocks (a ++ b) -> x ∈ span_blocks b).
  { intros x Hx (r & [Hr|Hr]%elem_of_app & Hin)%elem_of_spans; [|apply elem_of_spans; by exists r].
    rewrite list.Forall_forall in Ha. specialize (Ha r Hr). cbv beta in Ha. lia. }
  assert (Hin : forall x, x ∈ span_blocks b -> x ∈ span_blocks (a ++ b)).
  { intros x (r & Hr & Hx)%elem_of_spans. apply elem_of_spans. exists r. rewrite elem_of_app. tauto. }
  destruct b as [|r b]; cbn [lookup list_lookup].
  - split; [done|]. intros (x & Hx & H). apply Hout in H; [by apply elem_of_nil in H|lia].
  - apply Forall_cons in Hb as [Hr _]. apply Z.leb_gt in Hr. apply StronglySorted_cons in Ho as [Hafter _].
    apply Forall_cons in Hp as [Hpr _]. unfold proper in Hpr. rewrite Z.ltb_lt. split.
    + intros Hlt. exists (Z.max start (sp_start r)). split; [lia|]. apply Hin, elem_of_spans. exists r.
      split; [by left|lia].
    + intros (x & Hx & H). apply Hout in H; [|lia]. apply elem_of_spans in H as (y & [-> | Hy]%elem_of_cons & Hxy); [lia|].
      rewrite list.Forall_forall in Hafter. specialize (Hafter y Hy). lia.
Qed.

(** ** What the report says of an image *)

(** A block the bitmaps call used. *)
Definition in_use (base : bytes) (s : Superblock) (b : Z) : Prop :=
  first_data_block s <= b < blocks_count s /\ block_used base s b = true.
Lemma graph_in_use base s g b : exact_graph base s g -> b ∈ blocks_of (allocated g) <-> in_use base s b.
Proof.
  intros (_ & _ & -> & _). rewrite list_elem_of_filter, elem_of_seqZ. unfold in_use.
  split; intros [? ?]; (split; [lia || done|lia || done]).
Qed.
Lemma graph_order base s g :
  exact_graph base s g -> extents_in_order (allocated g) /\ Forall (extent_ok (blocks_count s)) (allocated g).
Proof.
  intros (_ & _ & E & _ & _ & _ & Hok & _). split; [|done]. apply (extents_order (blocks_count s)); [done|].
  rewrite E. apply filter_sorted, seqZ_sorted.
Qed.

(** The mark of the metadata's report follows its messages. *)
Lemma verify_metadata_marked d b h r h' :
  verify_metadata d b h = (Ret r, h') -> m_clean r = true <-> m_errors r = [].
Proof.
  unfold verify_metadata.
  assert (Hb : forall {A} (m : M A) (k : A -> M MetadataIntegrityReport),
    (forall a h r h', k a h = (Ret r, h') -> m_clean r = true <-> m_errors r = []) ->
    forall h r h', (m ≫= k) h = (Ret r, h') -> m_clean r = true <-> m_errors r = []).
  { intros A m k Hk h0 r0 h0' E. unfold mbind, M_bind in E. destruct (m h0) as [[a|e|c|] h1]; try discriminate.
    by eapply Hk. }
  revert h r h'. apply Hb. intros raw. apply Hb. intros s. apply Hb. intros ctx. apply Hb. intros p h r h' [= <- _].
  cbn [m_clean m_errors]. apply bool_decide_eq_true.
Qed.

Definition span_of (e : OwnedExtent) : Range :=
  mkSpan (physical_block e) (physical_block e + o_length e) (o_inode e) false.
Definition span_of_tree (t : ExtentTreeBlock) : Range :=
  mkSpan (tb_physical_block t) (tb_physical_block t + 1) (tb_inode t) false.
(** The blocks of all owners. *)
Definition owned_blocks (es : list OwnedExtent) (ts : list ExtentTreeBlock) : list Z :=
  extent_blocks es ++ (tb_physical_block <$> ts).

Lemma found_if_errors b w msg r : d_errors (found_if b w msg r) = [] <-> b = false /\ d_errors r = [].
Proof.
  destruct b; cbn; split; try done; [|by intros [? _]|by intros [_ ?]]. intros E. by apply List.app_eq_nil in E as [_ ?].
Qed.

Section Checks.
Context (s : Superblock) (alloc : list BlockExtent).
Context (Hn : blocks_count s < 2 ^ 64) (Hok : Forall (extent_ok (blocks_count s)) alloc).
Context (Hord : extents_in_order alloc).

Lemma allocated_range start len :
  0 <= start -> 0 < len -> start + len <= blocks_count s ->
  negb (fully_allocated alloc start len) = false <-> Forall (fun b => b ∈ blocks_of alloc) (seqZ start len).
Proof.
  intros Hs Hl Hr. rewrite negb_false_iff, (fully_allocated_spec (blocks_count s)) by (done || lia).
  rewrite Forall_seqZ. split; intros H b Hb; apply H; lia.
Qed.

Lemma check_extents_spec es r ranges :
  Forall (extent_inside (blocks_count s)) es ->
  let st := foldl (check_extent s alloc) (r, ranges) es in
  st.2 = ranges ++ (span_of <$> es) /\
  (d_errors st.1 = [] <-> d_errors r = [] /\ Forall (fun b => b ∈ blocks_of alloc) (extent_blocks es)).
Proof.
  revert r ranges. induction es as [|e es IH]; intros r ranges Hin; cbn [foldl].
  { cbn. rewrite app_nil_r, Forall_nil. tauto. }
  apply Forall_cons in Hin as [(I1 & I2 & I3) Hin].
  assert (Estep : check_extent s alloc (r, ranges) e =
    (found_if (negb (fully_allocated alloc (physical_block e) (o_length e))) unallocated_owner
       ("inode " +:+ pretty (o_inode e) +:+ " extent is not fully allocated in the block bitmap") (count_data (o_length e) r),
     ranges ++ [span_of e])).
  { unfold check_extent, add_overflow. rewrite (proj2 (Z.ltb_ge _ _)) by lia.
    by rewrite (proj2 (Z.ltb_ge (blocks_count s) _)) by lia. }
  rewrite Estep. clear Estep. match goal with |- context [(found_if ?b ?w ?m ?x, _)] => set (r' := found_if b w m x) end.
  destruct (IH r' (ranges ++ [span_of e]) Hin) as [E1 E2].
  split; [etrans; [exact E1|]; by rewrite <-app_assoc|]. rewrite E2. unfold r'. rewrite found_if_errors, allocated_range by lia.
  change (extent_blocks (e :: es)) with (seqZ (physical_block e) (o_length e) ++ extent_blocks es).
  rewrite Forall_app. cbn [count_data d_errors]. tauto.
Qed.
Lemma check_trees_spec ts r ranges :
  Forall (tree_inside (blocks_count s)) ts ->
  let st := foldl (check_tree alloc) (r, ranges) ts in
  st.2 = ranges ++ (span_of_tree <$> ts) /\
  (d_errors st.1 = [] <-> d_errors r = [] /\ Forall (fun b => b ∈ blocks_of alloc) (tb_physical_block <$> ts)).
Proof.
  revert r ranges. induction ts as [|t ts IH]; intros r ranges Hin; cbn [foldl].
  { cbn. rewrite app_nil_r, Forall_nil. tauto. }
  apply Forall_cons in Hin as [I1 Hin]. unfold tree_inside in I1. unfold check_tree at 2 4.
  rewrite (wrap_id 64) by (unfold in_width; lia).
  match goal with |- context [(found_if ?b ?w ?m ?x, _)] => set (r' := found_if b w m x) end.
  destruct (IH r' (ranges ++ [span_of_tree t]) Hin) as [E1 E2].
  split; [etrans; [exact E1|]; by rewrite <-app_assoc|]. rewrite E2. unfold r'. rewrite found_if_errors, allocated_range by lia.
  rewrite fmap_cons, Forall_cons. cbn [seqZ]. rewrite seqZ_cons, Forall_cons by lia. change (seqZ _ (Z.pred 1)) with (@nil Z).
  rewrite Forall_nil. tauto.
Qed.

(** The fixed metadata [b] of a group is used and no owner has it. *)
Definition kept_apart (ranges : list Range) (b : Z) : Prop := b ∈ blocks_of alloc /\ b ∉ span_blocks ranges.

Lemma check_fixed_spec ranges g r f :
  Forall proper ranges -> (d_errors r = [] -> spans_in_order ranges) ->
  0 <= sp_start f < sp_end f -> sp_end f <= blocks_count s ->
  d_errors (check_fixed s alloc ranges g r f) = [] <->
  d_errors r = [] /\ Forall (kept_apart ranges) (seqZ (sp_start f) (sp_end f - sp_start f)).
Proof.
  intros Hp Ho Hf He. unfold check_fixed. rewrite (proj2 (Z.ltb_ge _ _)) by done. cbv zeta.
  rewrite (wrap_id 64) by (unfold in_width; lia). rewrite !found_if_errors, allocated_range by lia. unfold kept_apart.
  rewrite Forall_and. split.
  - intros (H1 & H2 & H3). split_and!; [done|done|]. apply Forall_seqZ. intros b Hb Hin.
    assert (overlaps_any ranges (sp_start f) (sp_end f) = true); [|congruence].
    apply overlaps_any_spec; [done|by apply Ho|lia|]. exists b. split; [lia|done].
  - intros (H3 & H2 & H1). split_and!; [|done|done]. apply not_true_iff_false. intros Ht.
    apply overlaps_any_spec in Ht as (b & Hb & Hin); [|done|by apply Ho|lia].
    rewrite Forall_seqZ in H1. by apply (H1 b); [lia|].
Qed.
End Checks.

(** The blocks of a group's bitmaps and inode table. *)
Definition fixed_blocks (s : Superblock) (gd : GroupDesc) : list Z :=
  seqZ (block_bitmap gd) 1 ++ seqZ (inode_bitmap gd) 1 ++ seqZ (inode_table gd) (inode_table_blocks s).

(** A descriptor that was accepted: its metadata lies inside the file system. *)
Lemma desc_ranges base s g :
  geometry_ok s -> check_group_desc s (desc_at base s g) = Ok tt ->
  fixed_ranges s (desc_at base s g) =
    [mkSpan (block_bitmap (desc_at base s g)) (block_bitmap (desc_at base s g) + 1) 0 true;
     mkSpan (inode_bitmap (desc_at base s g)) (inode_bitmap (desc_at base s g) + 1) 0 true;
     mkSpan (inode_table (desc_at base s g)) (inode_table (desc_at base s g) + inode_table_blocks s) 0 true] /\
  Forall (fun f => 0 <= sp_start f < sp_end f /\ sp_end f <= blocks_count s) (fixed_ranges s (desc_at base s g)).
Proof.
  intros [G1 G2 G3 G4 G5 G6 G7] Hc. destruct (block_size_cases s G1) as [_ Hbs].
  assert (W : 0 <= block_bitmap (desc_at base s g) /\ 0 <= inode_bitmap (desc_at base s g) /\
              0 <= inode_table (desc_at base s g)).
  { split_and!; [apply (join32_width _ _ (read_le_bound 4 _ 0))|apply (join32_width _ _ (read_le_bound 4 _ 4))|
      apply (join32_width _ _ (read_le_bound 4 _ 8))]. }
  set (gd := desc_at base s g) in *. unfold check_group_desc in Hc. cbv zeta in Hc.
  destruct (_ || _ || _) eqn:E1; [done|]. destruct ((_ =? 0) || _) eqn:E2; [done|].
  apply orb_false_iff in E1 as [E1 B3%Z.leb_gt]. apply orb_false_iff in E1 as [B1%Z.leb_gt B2%Z.leb_gt].
  apply orb_false_iff in E2 as [E2%Z.eqb_neq B4%Z.ltb_ge].
  assert (Et : inode_table_blocks s = inodes_per_group s * inode_size s / block_size s
    + (if inodes_per_group s * inode_size s mod block_size s =? 0 then 0 else 1)).
  { unfold inode_table_blocks. set (x := inodes_per_group s * inode_size s).
    pose proof (Z.div_mod x (block_size s) ltac:(lia)) as Hd. pose proof (Z.mod_pos_bound x (block_size s) ltac:(lia)) as Hm.
    destruct (Z.eqb_spec (x mod block_size s) 0) as [E|E]; symmetry.
    - apply (Z.div_unique_pos _ _ _ (block_size s - 1)); lia.
    - apply (Z.div_unique_pos _ _ _ (x mod block_size s - 1)); lia. }
  rewrite <-Et in *. assert (0 < inode_table_blocks s).
  { assert (0 <= inode_table_blocks s); [|lia]. apply Z.div_pos; nia. }
  unfold fixed_ranges. rewrite !(wrap_id 64) by (unfold in_width; lia). split; [done|].
  rewrite !Forall_cons, Forall_nil. cbn [sp_start sp_end]. lia.
Qed.

Section Groups.
Context (dev : BlockDevice) (base : bytes) (s : Superblock) (alloc : list BlockExtent) (ranges : list Range).
Context (Hgeo : geometry_ok s) (Hok : Forall (extent_ok (blocks_count s)) alloc).
Context (Hord : extents_in_order alloc) (Hp : Forall proper ranges).

Lemma check_fixed_all g r fs :
  (d_errors r = [] -> spans_in_order ranges) ->
  Forall (fun f => 0 <= sp_start f < sp_end f /\ sp_end f <= blocks_count s) fs ->
  d_errors (foldl (check_fixed s alloc ranges g) r fs) = [] <->
  d_errors r = [] /\ Forall (kept_apart alloc ranges) (span_blocks fs).
Proof.
  pose proof Hgeo as [_ _ _ _ G5 _ _]. revert r. induction fs as [|f fs IH]; intros r Ho Hf; cbn [foldl].
  { change (span_blocks []) with (@nil Z). split; [intros E; split; [done|by apply Forall_nil]|by intros [E _]]. }
  apply Forall_cons in Hf as [[F1 F2] Hf].
  pose proof (check_fixed_spec s alloc G5 Hok Hord ranges g r f Hp Ho F1 F2) as Hs.
  rewrite IH; [|intros E; apply Ho; exact (proj1 (proj1 Hs E))|done]. rewrite Hs.
  change (span_blocks (f :: fs)) with (seqZ (sp_start f) (sp_end f - sp_start f) ++ span_blocks fs).
  rewrite Forall_app. tauto.
Qed.

Lemma check_fixed_groups_spec n g r h :
  wstate dev base [] h -> 0 <= g -> (d_errors r = [] -> spans_in_order ranges) ->
  yields (check_fixed_groups n dev s alloc ranges g r) h (fun r' =>
    d_errors r' = [] <-> d_errors r = [] /\
      forall i, g <= i < g + Z.of_nat n -> Forall (kept_apart alloc ranges) (fixed_blocks s (desc_at base s i))).
Proof.
  revert g r h. induction n as [|n IH]; intros g r h Hw Hg Ho; cbn [check_fixed_groups].
  { apply yields_ret. split; [intros E; split; [done|lia]|by intros [? _]]. }
  step Hw by (by eapply yields_cancel) as stop Hst. destruct stop; [apply yields_failM|].
  step Hw by (exact (read_group_desc_spec dev base [] s g _ Hw Hg)) as gd Hgd. destruct Hgd as (-> & Hc & _).
  cbn [put_all foldl] in *. destruct (desc_ranges base s g Hgeo Hc) as [Ef Hf].
  pose proof (check_fixed_all g r _ Ho Hf) as Hs.
  eapply yields_mono; [apply IH; [exact Hw|lia|intros E; apply Ho; exact (proj1 (proj1 Hs E))]|].
  intros r' ->. rewrite Hs.
  assert (Eb : span_blocks (fixed_ranges s (desc_at base s g)) = fixed_blocks s (desc_at base s g)).
  { rewrite Ef. unfold span_blocks, fixed_blocks. cbn [fmap list_fmap concat sp_start sp_end]. rewrite app_nil_r.
    repeat f_equal; lia. }
  rewrite Eb. split.
  - intros [[H1 H2] H3]. split; [done|]. intros i Hi. destruct (Z.eq_dec i g) as [->|]; [done|]. apply H3. lia.
  - intros [H1 H2]. split; [split; [done|apply H2; lia]|]. intros i Hi. apply H2. lia.
Qed.
End Groups.

(** Blocks and ranges of the owners. *)
Lemma owner_spans es ts n :
  Forall (extent_inside n) es ->
  span_blocks ((span_of <$> es) ++ (span_of_tree <$> ts)) = owned_blocks es ts /\
  Forall proper ((span_of <$> es) ++ (span_of_tree <$> ts)).
Proof.
  intros Hin. split.
  - unfold span_blocks, owned_blocks. rewrite fmap_app, concat_app. f_equal.
    + clear. induction es as [|e es IH]; [done|]. cbn [fmap list_fmap concat].
      change (extent_blocks (e :: es)) with (seqZ (physical_block e) (o_length e) ++ extent_blocks es).
      rewrite <-IH. cbn [span_of sp_start sp_end]. do 2 f_equal. lia.
    + induction ts as [|t ts IH]; [done|]. cbn [fmap list_fmap concat]. rewrite IH. clear IH.
      cbn. replace (_ - _) with 1 by lia. done.
  - apply Forall_app. rewrite !Forall_fmap. split;
      [|apply list.Forall_forall; intros t _; unfold proper; cbn; lia].
    eapply Forall_impl; [exact Hin|]. intros e (_ & H & _). unfold proper. cbn. lia.
Qed.

(** The metadata of an image agrees with itself. *)
Definition metadata_agrees (base : bytes) : Prop :=
  let raw := slice base 1024 1024 in
  let s := superblock_fields raw in
  let n := groups_count s in
  (forall g, 0 <= g < n -> group_sound (context_of s raw) true base g) /\
  over_groups (used_blocks_of base s) 0 n = u64 (blocks_count s - free_blocks s) /\
  over_groups (used_inodes_of base s) 0 n = u64 (inodes_count s - free_inodes s).

Lemma yields_basic dev base h :
  wstate dev base [] h -> yields (verify_metadata dev true) h (fun r => m_errors r = [] <-> metadata_agrees base).
Proof.
  intros Hw. pose proof (verify_metadata_spec dev base true h Hw) as Hs. cbv zeta in Hs.
  pose proof (verify_metadata_marked dev true h) as Hm. unfold yields, wp in Hs |- *.
  destruct (verify_metadata dev true h) as [o h']. cbn [fst snd] in *. destruct Hs as (Hq & Hne & Hv).
  split_and!; [done..|]. intros r ->. destruct (Hv r eq_refl) as (_ & _ & _ & Hc). rewrite <-(Hm r h' eq_refl). exact Hc.
Qed.

Lemma filter_keeps {A} (P : A -> Prop) `{forall x, Decision (P x)} l : Forall P l -> filter P l = l.
Proof. induction 1 as [|x l Hx _ IH]; [done|]. by rewrite filter_cons_True, IH. Qed.

(** The part of the verification behind the scans. *)
Lemma yields_owned sort_owned sort_placed dev base s g o basic h :
  geometry_ok s -> exact_graph base s g -> sorts_spans sort_owned -> sorts_spans sort_placed ->
  wstate dev base [] h -> Forall (extent_inside (blocks_count s)) (extents o) ->
  Forall (tree_inside (blocks_count s)) (tree_blocks o) ->
  let owned := owned_blocks (extents o) (tree_blocks o) in
  yields (let alloc := allocated g in
    let st := foldl (check_extent s alloc) (start_report basic o, []) (extents o) in
    let '(r, ranges) := foldl (check_tree alloc) st (tree_blocks o) in
    let r := count_overlapping (count_overlaps sort_owned ranges) r in
    r ← check_fixed_groups (Z.to_nat (groups_count s)) dev s alloc (sort_placed ranges) 0 r;
    mret (close_deep r)) h (fun r => d_clean r = true <->
      m_errors basic = [] /\ Forall (in_use base s) owned /\ NoDup owned /\
      forall i, 0 <= i < groups_count s ->
        Forall (fun b => in_use base s b /\ b ∉ owned) (fixed_blocks s (desc_at base s i))).
Proof.
  intros Hgeo Hgr Hso Hsp Hw Hes Hts. cbv zeta. destruct (graph_order base s g Hgr) as [Hord Hok].
  pose proof Hgeo as [G1 G2 _ G4 G5 _ _]. assert (Hn : 0 <= groups_count s) by (destruct (groups_count_spec s); lia).
  destruct (check_extents_spec s (allocated g) G5 Hok Hord (extents o) (start_report basic o) [] Hes) as [E1 E2].
  destruct (foldl (check_extent _ _) _ _) as [r1 ranges1]. cbn [fst snd] in E1, E2.
  destruct (check_trees_spec s (allocated g) G5 Hok Hord (tree_blocks o) r1 ranges1 Hts) as [F1 F2].
  destruct (foldl (check_tree _) _ _) as [r2 ranges]. cbn [fst snd] in F1, F2.
  destruct (owner_spans (extents o) (tree_blocks o) _ Hes) as [Hspans Hp]. rewrite E1 in F1. cbn [app] in F1.
  rewrite <-F1 in Hspans, Hp. set (owned := owned_blocks _ _) in *.
  destruct (Hsp ranges) as [Hperm Hsorted]. pose proof (span_blocks_permute _ _ Hperm) as Hsb. rewrite Hspans in Hsb.
  pose proof (count_overlaps_zero sort_owned ranges Hso Hp) as Hcount. rewrite Hspans in Hcount.
  set (n := count_overlaps sort_owned ranges) in *.
  assert (Hc : d_errors (count_overlapping n r2) = [] <-> NoDup owned /\ d_errors r2 = []).
  { rewrite <-Hcount. cbn [count_overlapping d_errors]. destruct (Z.eqb_spec n 0); cbn [negb]; [tauto|].
    split; [|by intros [? _]]. intros E. by apply List.app_eq_nil in E as [_ ?]. }
  assert (Hin : forall b, b ∈ blocks_of (allocated g) <-> in_use base s b) by (intros b; by apply graph_in_use).
  rewrite <-Hperm in Hp.
  assert (Hgo : d_errors (count_overlapping n r2) = [] -> spans_in_order (sort_placed ranges)).
  { intros [Hnd _]%Hc. apply nodup_order; [done|done|by rewrite Hsb]. }
  step Hw by (by apply (check_fixed_groups_spec dev base s (allocated g) (sort_placed ranges) Hgeo Hok Hord Hp)) as r Hr.
  apply yields_ret. cbn [close_deep d_clean]. rewrite bool_decide_eq_true, Hr, Hc, F2, E2. clear Hr Hc F2 E2.
  cbn [start_report d_errors]. unfold owned at 2. unfold owned_blocks. rewrite Forall_app.
  unfold kept_apart. setoid_rewrite Hin. setoid_rewrite Hsb. rewrite Z2Nat.id by done. cbn [Z.add]. tauto.
Qed.


(** A sort with the law. *)
Definition starts_before (a b : Range) : Prop := sp_start a <= sp_start b.
#[local] Instance starts_before_dec a b : Decision (starts_before a b).
Proof. unfold starts_before. apply _. Defined.
#[local] Instance starts_before_total : Total starts_before.
Proof. intros a b. unfold starts_before. lia. Qed.
#[local] Instance starts_before_trans : Transitive starts_before.
Proof. intros a b c. unfold starts_before. lia. Qed.
Definition merge_spans : list Range -> list Range := merge_sort starts_before.
Lemma merge_spans_sorts : sorts_spans merge_spans.
Proof. intros l. split; [apply merge_sort_Permutation|exact (StronglySorted_merge_sort starts_before l)]. Qed.

