(* ===== verification/FsReport.v ===== *)
(** What the checks of the other file systems share: their reports (the
    namespaces iso9660, ufs, xfs, ntfs and exfat declare the same structure),
    the test for powers of two, and the text of labels. *)
From S2P Require Import Prelude Errors Endian Host Uuid Device Durable.
From Stdlib Require Import Ascii.
#[local] Open Scope Z_scope.

Record FsReport := mkFsReport {
  fs_clean : bool;
  fs_warnings : list string;
  fs_errors : list string
}.
Definition no_findings : FsReport := mkFsReport true [] [].

(** [err(r, s)] and [r.warnings.push_back(s)], and both behind a condition. *)
Definition err (s : string) (r : FsReport) : FsReport := mkFsReport false (fs_warnings r) (fs_errors r ++ [s]).
Definition warn (s : string) (r : FsReport) : FsReport :=
  mkFsReport (fs_clean r) (fs_warnings r ++ [s]) (fs_errors r).
Definition err_if (c : bool) (s : string) (r : FsReport) : FsReport := if c then err s r else r.
Definition warn_if (c : bool) (s : string) (r : FsReport) : FsReport := if c then warn s r else r.
(** [r.clean = r.errors.empty()]. *)
Definition close_report (r : FsReport) : FsReport :=
  mkFsReport (bool_decide (fs_errors r = [])) (fs_warnings r) (fs_errors r).

(** [x && (x & (x - 1)) == 0]. *)
Definition pow2 (x : Z) : bool := negb (x =? 0) && (Z.land x (x - 1) =? 0).

Definition ascii_of (c : Z) : ascii := ascii_of_nat (Z.to_nat c).
(** [(c >= 0x20 && c <= 0x7e) ? c : '?']. *)
Definition printable (c : Z) : ascii := if (0x20 <=? c) && (c <=? 0x7e) then ascii_of c else "?"%char.
(** The characters up to the first null byte, through [f]. *)
Fixpoint text_until_null (f : Z -> ascii) (b : bytes) : string :=
  match b with
  | [] => ""
  | x :: b => if byte.unsigned x =? 0 then "" else String (f (byte.unsigned x)) (text_until_null f b)
  end.
(** [while (!s.empty() && s.back() == ' ') s.pop_back()]. *)
Fixpoint trim_end (s : string) : string :=
  match s with
  | "" => ""
  | String c s =>
      match trim_end s with
      | "" => if Ascii.eqb c " " then "" else String c ""
      | t => String c t
      end
  end.
(** The bytes of a text. *)
Definition is_text (b : bytes) (o : Z) (codes : list Z) : bool :=
  forallb (fun p => byte_at b (o + p.1) =? p.2) (zip (seqZ 0 (zlen codes)) codes).

(** [uuid_string] (of xfs and btrfs): two digits per byte, a dash behind the
    bytes 3, 5, 7 and 9; [i] is the index of the first byte of [u]. *)
Fixpoint uuid_text (i : Z) (u : bytes) : string :=
  match u with
  | [] => ""
  | b :: u =>
      format_byte b +:+ (if (i =? 3) || (i =? 5) || (i =? 7) || (i =? 9) then "-" else "") +:+ uuid_text (i + 1) u
  end.
Definition uuid_string (u : bytes) : string := uuid_text 0 u.

(** ** Facts *)

Lemma pow2_spec x : 0 <= x -> pow2 x = true <-> exists k, 0 <= k /\ x = 2 ^ k.
Proof.
  intros Hx. unfold pow2. rewrite andb_true_iff, negb_true_iff, Z.eqb_neq, Z.eqb_eq. split.
  - intros [H0 Hl]. exists (Z.log2 x). split; [apply Z.log2_nonneg|]. destruct (Z.log2_spec x) as [L1 L2]; [lia|].
    destruct (Z.eq_dec x (2 ^ Z.log2 x)) as [|Hne]; [done|]. exfalso.
    assert (Hb : Z.log2 (x - 1) = Z.log2 x) by (apply Z.log2_unique; [apply Z.log2_nonneg|lia]).
    assert (Hx1 : x - 1 > 0) by (pose proof (Z.pow_pos_nonneg 2 (Z.log2 x)); pose proof (Z.log2_nonneg x); lia).
    pose proof (Z.bit_log2 x ltac:(lia)) as B1. pose proof (Z.bit_log2 (x - 1) ltac:(lia)) as B2. rewrite Hb in B2.
    assert (E : Z.testbit (Z.land x (x - 1)) (Z.log2 x) = true) by (by rewrite Z.land_spec, B1, B2).
    rewrite Hl, Z.bits_0 in E. done.
  - intros (k & Hk & ->). pose proof (Z.pow_pos_nonneg 2 k). split; [lia|].
    replace (2 ^ k - 1) with (Z.ones k) by (rewrite Z.ones_equiv; lia). rewrite Z.land_ones, Z.mod_same by lia. done.
Qed.

(** A report without findings under each of its conditions. *)
Lemma err_if_errors c s r : fs_errors (err_if c s r) = [] <-> c = false /\ fs_errors r = [].
Proof.
  destruct c; cbn; split; try done; [|by intros [? _]|by intros [_ ?]]. intros E. by apply List.app_eq_nil in E as [_ ?].
Qed.
Lemma err_errors s r : fs_errors (err s r) <> [].
Proof. cbn. intros E. by apply List.app_eq_nil in E as [_ ?]. Qed.
Lemma warn_if_errors c s r : fs_errors (warn_if c s r) = fs_errors r.
Proof. by destruct c. Qed.
Lemma close_clean r : fs_clean (close_report r) = true <-> fs_errors r = [].
Proof. apply bool_decide_eq_true. Qed.
(** The mark of a report follows its errors, until it is closed. *)
Definition marked (r : FsReport) : Prop := fs_clean r = true <-> fs_errors r = [].
Lemma marked_start : marked no_findings.
Proof. done. Qed.
Lemma marked_err s r : marked (err s r).
Proof. unfold marked. cbn. split; [done|]. intros E. by apply List.app_eq_nil in E as [_ ?]. Qed.
Lemma marked_err_if c s r : marked r -> marked (err_if c s r).
Proof. destruct c; [intros _; apply marked_err|done]. Qed.
Lemma marked_warn_if c s r : marked r -> marked (warn_if c s r).
Proof. by destruct c. Qed.
#[export] Hint Resolve marked_start marked_err marked_err_if marked_warn_if : fsx.

(** A computation that only reads: its reads are at places that are not
    negative. *)
Ltac reads :=
  repeat first
    [ apply reader_ret | apply reader_failM | apply reader_lift | apply reader_cancel
    | apply reader_read; lia | apply reader_attempt | apply reader_bind; [|intros ?] | progress cbv zeta
    | case_match ].

(** A read whose failure is handled. *)
Lemma yields_try {A} (m : M A) h (P : A -> Prop) :
  yields m h P -> yields (attempt m) h (fun r => match r with Ok a => P a | Err _ => True end).
Proof. intros Hm. by apply yields_attempt. Qed.

(** ** The codes a computation fails with *)

Definition fails {A} (P : Errc -> Prop) (m : M A) : Prop :=
  forall h, wp m h (fun o _ => forall e, o = Fail e -> P (code e)).

Lemma fails_ret {A} P (a : A) : fails P (mret a).
Proof. by intros h e. Qed.
Lemma fails_raise {A} (P : Errc -> Prop) e : P (code e) -> fails P (raise (A:=A) e).
Proof. intros H h e' [= <-]. done. Qed.
Lemma fails_bind {A B} P (m : M A) (k : A -> M B) : fails P m -> (forall a, fails P (k a)) -> fails P (m ≫= k).
Proof.
  intros Hm Hk h. apply wp_bind. eapply wp_mono; [apply Hm|]. intros o h' He.
  destruct o as [a|e|s|]; cbn [carry]; [apply Hk|..]; intros e'; try discriminate. intros [= <-]. by apply He.
Qed.
Lemma fails_get P : fails P get_host.
Proof. by intros h e. Qed.

(** Code under which no read of a range of [off_t] fails. *)
Definition quiet_code (c : Errc) : Prop := c ∉ [unsupported; not_found; corrupt].

Lemma fails_fault op t : fails quiet_code (fault_hook op t).
Proof.
  apply fails_bind; [by intros h e|]. intros []; [|apply fails_ret]. intros h e. unfold point.
  repeat case_match; intros [= <-]; by apply (bool_decide_unpack _).
Qed.
Lemma fails_read_loop n d off size acc : fails quiet_code (read_loop n d off size acc).
Proof.
  revert acc. induction n as [|n IH]; intros acc; cbn [read_loop]; [by intros h e|]. case_match; [apply fails_ret|].
  apply fails_bind; [intros h e; unfold sys_pread; by repeat case_match|].
  intros [e|[|b bs]]; [case_match; [apply IH|]|by apply fails_raise, (bool_decide_unpack _)|apply IH].
  apply fails_bind; [by intros h e'|]. intros env. by apply fails_raise, (bool_decide_unpack _).
Qed.
Lemma fails_read d off n : off + n <= off_max -> 0 <= n -> fails quiet_code (read_exact d off n).
Proof.
  intros Ho Hn. apply fails_bind; [apply fails_fault|]. intros _.
  case_match; [by apply fails_raise, (bool_decide_unpack _)|].
  destruct (Z.ltb_spec off_max off), (Z.ltb_spec (off_max - off) n); try lia. cbn [orb].
  apply fails_bind; [apply fails_get|]. intros h. apply fails_bind; [apply fails_read_loop|]. intros bs.
  apply fails_bind; [apply fails_fault|]. intros _. apply fails_ret.
Qed.

(** A read of a range of [off_t], with the codes of its failures. *)
Lemma read_codes d img off n h :
  wstate d img [] h -> 0 <= off -> 0 <= n -> off + n <= off_max ->
  wp (read_exact d off n) h (fun o h' => quiet h h' /\ o <> OutOfFuel /\
    (forall b, o = Ret b -> b = slice img off n /\ zlen b = n) /\ forall e, o = Fail e -> quiet_code (code e)).
Proof.
  intros Hw Ho Hn Hb. pose proof (yields_read d img [] off n h Hw Ho Hn) as Hr.
  pose proof (fails_read d off n Hb Hn h) as Hf. unfold yields, wp in Hr, Hf |- *. destruct Hr as (Hq & Hne & Hv).
  split_and!; [done|done| |done]. intros b E. by destruct (Hv b E) as (? & ? & _).
Qed.
(** [unsupported] and [not_found], behind which the searches go on. *)
Lemma quiet_code_stops c : quiet_code c -> c <> unsupported /\ c <> not_found /\ c <> corrupt.
Proof. unfold quiet_code. rewrite !not_elem_of_cons. tauto. Qed.
