(* ===== verification/Iso9660.v ===== *)
(** ISO 9660 volume descriptors (include/fsx/iso9660.hpp, src/fs/iso9660.cpp). *)
From S2P Require Import Prelude Errors Endian Host Device Durable FsReport.
#[local] Open Scope Z_scope.

Definition SECTOR : Z := 2048.

(** [id_ok]: "CD001" behind the type byte. *)
Definition id_ok (b : bytes) : bool := (7 <=? zlen b) && is_text b 1 [67; 68; 48; 48; 49].
Definition trim_ascii (b : bytes) : string := trim_end (text_until_null printable b).

Record VolumeDescriptor := mkVolumeDescriptor {
  volume_id : string;
  volume_blocks : Z;
  logical_block_size : Z;
  root_extent : Z;
  root_size : Z;
  descriptor_count : Z;
  terminator_seen : bool
}.
Definition no_descriptor : VolumeDescriptor := mkVolumeDescriptor "" 0 0 0 0 0 false.

Definition probe (dev : BlockDevice) : M bool :=
  if size_bytes (geometry dev) <? 17 * SECTOR then mret false
  else b ← read_exact dev (16 * SECTOR) SECTOR; mret (id_ok b).

(** The fields of a primary descriptor. *)
Definition primary_fields (b : bytes) (out : VolumeDescriptor) : Result VolumeDescriptor :=
  let root := slice b 156 (SECTOR - 156) in
  if negb (read_le32 b 80 =? read_be 4 b 84)
  then fail corrupt "ISO9660 volume-space-size endian copies disagree"
  else if negb (read_le16 b 128 =? read_be 2 b 130)
  then fail corrupt "ISO9660 logical-block-size endian copies disagree"
  else if byte_at root 0 <? 34 then fail corrupt "ISO9660 root directory record is too short"
  else if negb (read_le32 root 2 =? read_be 4 root 6) || negb (read_le32 root 10 =? read_be 4 root 14)
  then fail corrupt "ISO9660 root directory endian copies disagree"
  else Ok (mkVolumeDescriptor (trim_ascii (slice b 40 32)) (read_le32 b 80) (read_le16 b 128)
             (read_le32 root 2) (read_le32 root 10) (descriptor_count out) (terminator_seen out)).

Definition count_descriptor (v : VolumeDescriptor) : VolumeDescriptor :=
  mkVolumeDescriptor (volume_id v) (volume_blocks v) (logical_block_size v) (root_extent v) (root_size v)
    (descriptor_count v + 1) (terminator_seen v).
Definition set_terminator (v : VolumeDescriptor) : VolumeDescriptor :=
  mkVolumeDescriptor (volume_id v) (volume_blocks v) (logical_block_size v) (root_extent v) (root_size v)
    (descriptor_count v) true.

(** One descriptor: the fields so far and whether a primary one was seen. *)
Definition descriptor_step (b : bytes) (out : VolumeDescriptor) (have : bool) : Result (VolumeDescriptor * bool) :=
  if negb (id_ok b) then fail corrupt "ISO9660 volume descriptor has invalid standard identifier"
  else if negb (byte_at b 6 =? 1) then fail corrupt "ISO9660 volume descriptor version is not 1"
  else
    let out := count_descriptor out in
    if (byte_at b 0 =? 1) && negb have
    then let? out := primary_fields b out in Ok (out, true)
    else Ok (out, have).

(** The loop over the descriptors from [i] on. *)
Fixpoint descriptors (n : nat) (dev : BlockDevice) (i : Z) (out : VolumeDescriptor) (have : bool)
    : M (VolumeDescriptor * bool) :=
  match n with
  | O => mret (out, have)
  | S n =>
      let off := (16 + i) * SECTOR in
      if size_bytes (geometry dev) <? off + SECTOR then mret (out, have)
      else
        b ← read_exact dev off SECTOR;
        r ← lift (descriptor_step b out have);
        if byte_at b 0 =? 255 then mret (set_terminator r.1, r.2)
        else descriptors n dev (i + 1) r.1 r.2
  end.

Definition read_primary (dev : BlockDevice) : M VolumeDescriptor :=
  if size_bytes (geometry dev) <? 17 * SECTOR then failM unsupported "device is too small for ISO9660"
  else
    r ← descriptors 128 dev 0 no_descriptor false;
    if negb r.2 then failM corrupt "ISO9660 primary volume descriptor was not found" else mret r.1.

Definition check_volume (dev_bytes : Z) (v : VolumeDescriptor) : FsReport :=
  let bs := logical_block_size v in
  let r := err_if (negb (terminator_seen v)) "ISO9660 volume descriptor terminator was not found" no_findings in
  let r := err_if ((bs <? 512) || (4096 <? bs) || negb (Z.land bs (u32 (bs - 1)) =? 0))
             "ISO9660 logical block size is invalid" r in
  let r := if volume_blocks v =? 0 then err "ISO9660 volume block count is zero" r
           else err_if (negb (bs =? 0) && (dev_bytes / bs <? volume_blocks v))
                  "ISO9660 volume geometry exceeds containing device" r in
  let r := err_if (volume_blocks v <=? root_extent v) "ISO9660 root directory extent lies outside volume" r in
  let r := warn_if (root_size v =? 0) "ISO9660 root directory has zero length" r in
  let r := warn_if ((128 <=? descriptor_count v) && negb (terminator_seen v))
             "ISO9660 descriptor scan hit the safety limit" r in
  close_report r.
Definition check (dev : BlockDevice) : M FsReport :=
  v ← read_primary dev;
  mret (check_volume (size_bytes (geometry dev)) v).

(** ** Facts *)

Lemma reader_descriptors d n i out have : 0 <= i -> reader d (descriptors n d i out have).
Proof.
  revert i out have. induction n as [|n IH]; intros i out have Hi; cbn [descriptors]; [apply reader_ret|].
  cbv zeta. case_match; [apply reader_ret|]. apply reader_bind; [apply reader_read; unfold SECTOR; lia|]. intros b.
  apply reader_bind; [apply reader_lift|]. intros [v h]. case_match; [apply reader_ret|]. apply IH. lia.
Qed.
Lemma reader_primary d : reader d (read_primary d).
Proof.
  unfold read_primary. case_match; [apply reader_failM|].
  apply reader_bind; [by apply reader_descriptors|]. intros r. case_match; [apply reader_failM|apply reader_ret].
Qed.
