(* ===== verification/Ufs.v ===== *)
(** BSD UFS1 and UFS2 superblocks (include/fsx/ufs.hpp, src/fs/ufs.cpp). *)
From S2P Require Import Prelude Errors Endian Host Device Durable FsReport.
#[local] Open Scope Z_scope.

Inductive Version := ufs1 | ufs2.
Inductive ByteOrder := little | big.
#[export] Instance Version_eq_dec : EqDecision Version.
Proof. solve_decision. Defined.

Record Superblock := mkSuperblock {
  version : Version;
  byte_order : ByteOrder;
  offset : Z;
  cylinder_groups : Z;
  block_size : Z;
  fragment_size : Z;
  fragments_per_block : Z;
  superblock_size : Z;
  inodes_per_block : Z;
  inodes_per_group : Z;
  fragments_per_group : Z;
  old_size_fragments : Z;
  clean_flags : Z
}.

Definition UFS1_MAGIC : Z := 0x00011954.
Definition UFS2_MAGIC : Z := 0x19540119.
Definition SUPERBLOCK_BYTES : Z := 8192.
Definition MAGIC_OFFSET : Z := 1372.
Definition SEARCH : list Z := [65536; 8192; 0; 262144].

Definition read32 (b : bytes) (off : Z) (order : ByteOrder) : Z :=
  match order with little => read_le32 b off | big => read_be 4 b off end.

Definition magic_at (b : bytes) : option (Version * ByteOrder) :=
  if zlen b <? MAGIC_OFFSET + 4 then None
  else
    let le := read_le32 b MAGIC_OFFSET in
    let be := read_be 4 b MAGIC_OFFSET in
    if le =? UFS1_MAGIC then Some (ufs1, little)
    else if le =? UFS2_MAGIC then Some (ufs2, little)
    else if be =? UFS1_MAGIC then Some (ufs1, big)
    else if be =? UFS2_MAGIC then Some (ufs2, big)
    else None.

(** The candidate lies outside the device. *)
Definition outside (dev : BlockDevice) (off : Z) : bool :=
  let size := size_bytes (geometry dev) in (size <? off) || (size - off <? SUPERBLOCK_BYTES).

Definition fields_at (b : bytes) (off : Z) (v : Version) (o : ByteOrder) : Superblock :=
  let f k := read32 b k o in
  mkSuperblock v o off (f 44) (f 48) (f 52) (f 56) (f 104) (f 120) (f 184) (f 188) (f 36) (byte_at b 209).

Definition parse_at (dev : BlockDevice) (off : Z) : M Superblock :=
  if outside dev off then failM not_found "UFS superblock candidate lies outside device"
  else
    b ← read_exact dev off SUPERBLOCK_BYTES;
    match magic_at b with
    | None => failM unsupported "UFS magic is absent at canonical superblock location"
    | Some (v, o) => mret (fields_at b off v o)
    end.

Definition version_name (v : Version) : string := match v with ufs2 => "UFS2/FFS2" | ufs1 => "UFS1/FFS1" end.

Fixpoint probe_at (dev : BlockDevice) (offs : list Z) : M bool :=
  match offs with
  | [] => mret false
  | off :: offs =>
      if outside dev off then probe_at dev offs
      else
        b ← read_exact dev off SUPERBLOCK_BYTES;
        match magic_at b with Some _ => mret true | None => probe_at dev offs end
  end.
Definition probe (dev : BlockDevice) : M bool := probe_at dev SEARCH.

Fixpoint read_at (dev : BlockDevice) (offs : list Z) : M Superblock :=
  match offs with
  | [] => failM unsupported "no BSD UFS1/UFS2 superblock found at canonical locations"
  | off :: offs =>
      if outside dev off then read_at dev offs
      else
        s ← attempt (parse_at dev off);
        match s with
        | Ok s => mret s
        | Err e =>
            if negb (bool_decide (code e = unsupported)) && negb (bool_decide (code e = not_found))
            then lift (Err e) else read_at dev offs
        end
  end.
Definition read_superblock (dev : BlockDevice) : M Superblock := read_at dev SEARCH.

Definition check_superblock (dev_bytes : Z) (s : Superblock) : FsReport :=
  let bs := block_size s in
  let fs := fragment_size s in
  let fpb := fragments_per_block s in
  let r := err_if (negb (pow2 bs) || (bs <? 4096) || (65536 <? bs)) "invalid UFS block size" no_findings in
  let r := err_if (negb (pow2 fs) || (fs <? 512) || (bs <? fs)) "invalid UFS fragment size" r in
  let r := err_if (negb (fs =? 0) && negb (bs / fs =? fpb))
             "UFS fragments-per-block disagrees with block/fragment sizes" r in
  let r := err_if ((fpb =? 0) || (8 <? fpb) || negb (pow2 fpb)) "invalid UFS fragments-per-block" r in
  let r := err_if ((cylinder_groups s =? 0) || (10000000 <? cylinder_groups s))
             "invalid UFS cylinder-group count" r in
  let r := err_if ((superblock_size s <? MAGIC_OFFSET + 4) || (SUPERBLOCK_BYTES <? superblock_size s))
             "invalid UFS superblock size" r in
  let r := err_if ((inodes_per_block s =? 0) || (inodes_per_group s =? 0) || (fragments_per_group s =? 0))
             "invalid UFS inode/cylinder-group geometry" r in
  let r := if negb (inodes_per_block s =? 0)
           then
             let ib := bs / inodes_per_block s in
             err_if ((ib <? 128) || (1024 <? ib) || negb (pow2 ib)) "derived UFS inode size is implausible" r
           else r in
  let r := if bool_decide (version s = ufs1) && negb (old_size_fragments s =? 0) && negb (fs =? 0)
           then
             if u64_max / fs <? old_size_fragments s then err "UFS1 size arithmetic overflows" r
             else err_if (dev_bytes <? old_size_fragments s * fs)
                    "UFS1 filesystem geometry exceeds containing device" r
           else r in
  let r := warn_if (bool_decide (version s = ufs2) && negb (offset s =? 65536))
             "UFS2 superblock found at a nonstandard fallback location" r in
  let r := warn_if (bool_decide (version s = ufs1) && negb (offset s =? 8192) && negb (offset s =? 0))
             "UFS1 superblock found at a fallback location" r in
  let r := warn_if (Z.land (clean_flags s) 3 =? 0)
             "UFS clean-state flags do not indicate a clean previous state" r in
  close_report r.
Definition check (dev : BlockDevice) : M FsReport :=
  s ← read_superblock dev;
  mret (check_superblock (size_bytes (geometry dev)) s).

(** ** The superblock an image holds *)

Section Search.
Context (d : BlockDevice) (img : bytes).

(** The first superblock at the places [offs]. *)
Fixpoint first_superblock (offs : list Z) : option Superblock :=
  match offs with
  | [] => None
  | off :: offs =>
      if outside d off then first_superblock offs
      else
        let b := slice img off SUPERBLOCK_BYTES in
        match magic_at b with
        | Some (v, o) => Some (fields_at b off v o)
        | None => first_superblock offs
        end
  end.

(** Places a read can reach. *)
Definition reachable (off : Z) : Prop := 0 <= off /\ off + SUPERBLOCK_BYTES <= off_max.
Lemma search_reachable : Forall reachable SEARCH.
Proof. by repeat (apply Forall_cons; split; [split; apply (bool_decide_unpack _)|]). Qed.

Lemma probe_at_spec offs h :
  wstate d img [] h -> Forall reachable offs ->
  yields (probe_at d offs) h (fun b => b = bool_decide (is_Some (first_superblock offs))).
Proof.
  revert h. induction offs as [|off offs IH]; intros h Hw Hr; cbn [probe_at first_superblock]; [by apply yields_ret|].
  apply Forall_cons in Hr as [[Ho Hb] Hr]. destruct (outside d off); [by apply IH|].
  step Hw by (apply (yields_read d img []); [exact Hw|done|done]) as b Hbs. destruct Hbs as (-> & _).
  cbn [put_all foldl]. cbv zeta. destruct (magic_at _) as [[v o]|]; [by apply yields_ret|by apply IH].
Qed.

Lemma read_at_spec offs h :
  wstate d img [] h -> Forall reachable offs ->
  yields (read_at d offs) h (fun s => first_superblock offs = Some s).
Proof.
  revert h. induction offs as [|off offs IH]; intros h Hw Hr; cbn [read_at first_superblock]; [apply yields_failM|].
  apply Forall_cons in Hr as [[Ho Hb] Hr]. destruct (outside d off) eqn:Eo; [by apply IH|]. cbv zeta.
  eapply (yields_bind _ _ _ (fun r => match r with
    | Ok s => exists v o, magic_at (slice img off SUPERBLOCK_BYTES) = Some (v, o) /\
                s = fields_at (slice img off SUPERBLOCK_BYTES) off v o
    | Err e => code e = unsupported /\ magic_at (slice img off SUPERBLOCK_BYTES) = None \/ quiet_code (code e) end)).
  { unfold yields. apply wp_attempt. unfold parse_at. rewrite Eo. apply wp_bind.
    eapply wp_mono; [by apply (read_codes d img)|]. intros o h1 (Hq & Hne & Hv & Hf).
    destruct o as [b|e|s|]; cbn [carry]; [|split_and!; try done; intros r [= <-]; right; by apply Hf|by split_and!|done].
    destruct (Hv b eq_refl) as [-> _]. destruct (magic_at _) as [[v o]|]; cbn; (split_and!; [done..|]); intros r [= <-];
      [by exists v, o|by left]. }
  cbv beta. intros r h1 Hr1 Hq. apply (wstate_quiet _ _ _ _ _ Hq) in Hw. destruct r as [s|e].
  - destruct Hr1 as (v & o & -> & ->). by apply yields_ret.
  - destruct Hr1 as [[-> ->] | (E1 & E2 & _)%quiet_code_stops]; [by apply IH|].
    rewrite !bool_decide_eq_false_2 by done. by split_and!.
Qed.
End Search.
