(* ===== verification/Xfs.v ===== *)
(** XFS superblocks and their copies in the allocation groups
    (include/fsx/xfs.hpp, src/fs/xfs.cpp). *)
From S2P Require Import Prelude Words Errors Endian Crc Host Device Durable FsReport.
#[local] Open Scope Z_scope.

Record Superblock := mkSuperblock {
  block_size : Z;
  data_blocks : Z;
  uuid : bytes;
  ag_blocks : Z;
  ag_count : Z;
  log_blocks : Z;
  version : Z;
  sector_size : Z;
  inode_size : Z;
  inodes_per_block : Z;
  label : string
}.
Definition sb_bytes (s : Superblock) : Z :=
  if (block_size s =? 0) || (u64_max / block_size s <? data_blocks s) then u64_max
  else data_blocks s * block_size s.

Definition read_sb_raw (dev : BlockDevice) (off : Z) : M bytes :=
  let size := size_bytes (geometry dev) in
  if (size <? off) || (size - off <? 512)
  then failM corrupt "XFS allocation-group superblock lies outside device"
  else read_exact dev off 512.

Definition parse_raw (b : bytes) : Result Superblock :=
  if zlen b <? 512 then fail corrupt "short XFS superblock"
  else if negb (is_text b 0 [88; 70; 83; 66]) then fail unsupported "not an XFS filesystem"
  else Ok (mkSuperblock (read_be 4 b 4) (read_be 8 b 8) (slice b 32 16) (read_be 4 b 84) (read_be 4 b 88)
             (read_be 4 b 96) (read_be 2 b 100) (read_be 2 b 102) (read_be 2 b 104) (read_be 2 b 106)
             (text_until_null ascii_of (slice b 108 12))).

Definition CRC_OFF : Z := 224.
(** The checksum of a version 5 superblock, over the bytes of its sector. *)
Definition crc_matches (b : bytes) : bool :=
  if zlen b <? CRC_OFF + 4 then false
  else read_le32 b CRC_OFF =? u32 (Z.lnot (crc32c (splice b CRC_OFF (zeros 4)) 0xffffffff)).
Definition verify_v5_crc (dev : BlockDevice) (off : Z) (s : Superblock) : M bool :=
  let size := size_bytes (geometry dev) in
  if negb (Z.land (version s) 0xf =? 5) then mret true
  else if (sector_size s <? 512) || (32768 <? sector_size s) || (size <? off) || (size - off <? sector_size s)
  then mret false
  else
    b ← attempt (read_exact dev off (sector_size s));
    match b with Err _ => mret false | Ok b => mret (crc_matches b) end.

Definition read_superblock (dev : BlockDevice) : M Superblock :=
  if size_bytes (geometry dev) <? 512 then failM unsupported "device is too small for XFS"
  else b ← read_sb_raw dev 0; lift (parse_raw b).

(** The checks of the primary superblock that need no further read. *)
Definition check_primary (dev_bytes : Z) (s : Superblock) : FsReport :=
  let bs := block_size s in
  let r := err_if (negb (pow2 bs) || (bs <? 512) || (65536 <? bs)) "invalid XFS block size" no_findings in
  let r := err_if (negb (pow2 (sector_size s)) || (sector_size s <? 512) || (bs <? sector_size s))
             "invalid XFS sector size" r in
  let r := if data_blocks s =? 0 then err "XFS data block count is zero" r
           else err_if (negb (bs =? 0) && (dev_bytes / bs <? data_blocks s))
                  "XFS data geometry exceeds containing device" r in
  let r := if (ag_blocks s =? 0) || (ag_count s =? 0)
           then err "XFS allocation-group geometry is zero" r
           else
             let full := ag_blocks s * (ag_count s - 1) in
             let last := u64 (data_blocks s - full) in
             err_if ((last =? 0) || (ag_blocks s <? last)) "XFS final allocation-group size is invalid"
               (err_if (data_blocks s <=? full) "XFS allocation-group geometry exceeds data blocks" r) in
  let r := err_if (negb (pow2 (inode_size s)) || (inode_size s <? 256) || (bs <? inode_size s))
             "invalid XFS inode size" r in
  let r := err_if (negb (inode_size s =? 0) && negb (bs / inode_size s =? inodes_per_block s))
             "XFS inodes-per-block does not match block/inode size" r in
  let v := Z.land (version s) 0xf in
  warn_if ((v <? 4) || (5 <? v)) "XFS superblock version is outside the modern v4/v5 range" r.

(** The copy [o] has the geometry of the primary superblock. *)
Definition same_geometry (s o : Superblock) : bool :=
  (block_size o =? block_size s) && (data_blocks o =? data_blocks s) && (ag_blocks o =? ag_blocks s)
  && (ag_count o =? ag_count s) && (sector_size o =? sector_size s) && (inode_size o =? inode_size s).

(** The loop over the allocation groups from [ag] on. *)
Fixpoint check_groups (n : nat) (dev : BlockDevice) (s : Superblock) (ag : Z) (r : FsReport) : M FsReport :=
  match n with
  | O => mret r
  | S n =>
      let block := ag * ag_blocks s in
      if u64_max / block_size s <? block then mret (err "XFS allocation-group offset overflows" r)
      else
        let off := block * block_size s in
        raw ← attempt (read_sb_raw dev off);
        match raw with
        | Err _ => mret (err ("cannot read XFS secondary superblock for AG " +:+ pretty ag) r)
        | Ok raw =>
            match parse_raw raw with
            | Err _ =>
                check_groups n dev s (ag + 1) (err ("invalid XFS secondary superblock for AG " +:+ pretty ag) r)
            | Ok o =>
                let r := err_if (negb (same_geometry s o))
                           ("XFS secondary superblock geometry disagrees in AG " +:+ pretty ag) r in
                let r := err_if (negb (bool_decide (uuid o = uuid s)))
                           ("XFS secondary superblock UUID disagrees in AG " +:+ pretty ag) r in
                bad ← (if Z.land (version s) 0xf =? 5
                       then ok ← verify_v5_crc dev off o; mret (negb ok) else mret false);
                check_groups n dev s (ag + 1)
                  (err_if bad ("XFS secondary superblock CRC32C is invalid in AG " +:+ pretty ag) r)
            end
        end
  end.

Definition check (dev : BlockDevice) : M FsReport :=
  s ← read_superblock dev;
  let r := check_primary (size_bytes (geometry dev)) s in
  bad ← (if Z.land (version s) 0xf =? 5 then ok ← verify_v5_crc dev 0 s; mret (negb ok) else mret false);
  let r := err_if bad "XFS primary superblock CRC32C is invalid" r in
  if negb (fs_clean r) then mret r
  else if 1000000 <? ag_count s then mret (err "XFS allocation-group count is unreasonable" r)
  else
    r ← check_groups (Z.to_nat (ag_count s - 1)) dev s 1 r;
    mret (close_report r).

(** ** What a clean report says *)

(** The geometry of a sound superblock: the allocation groups partition the
    data blocks, which lie inside the device. *)
Record geometry_sound (dev_bytes : Z) (s : Superblock) : Prop := {
  xg_block : exists k, 9 <= k <= 16 /\ block_size s = 2 ^ k;
  xg_sector : exists k, 9 <= k /\ sector_size s = 2 ^ k /\ sector_size s <= block_size s;
  xg_room : 0 < data_blocks s /\ data_blocks s * block_size s <= dev_bytes;
  xg_groups : 0 < ag_blocks s /\ 0 < ag_count s /\
    (ag_count s - 1) * ag_blocks s < data_blocks s <= ag_count s * ag_blocks s;
  xg_inodes : exists k, 8 <= k /\ inode_size s = 2 ^ k /\ inode_size s <= block_size s /\
    inodes_per_block s = block_size s / inode_size s
}.

(** The checksum of the superblock at [off] is right, where its version has one. *)
Definition crc_sound (img : bytes) (off : Z) (s : Superblock) : Prop :=
  Z.land (version s) 0xf = 5 ->
  let b := slice img off (sector_size s) in
  read_le32 b CRC_OFF = u32 (Z.lnot (crc_ref poly_castagnoli (splice b CRC_OFF (zeros 4)) 0xffffffff)).
Lemma crc_matches_sound b :
  crc_matches b = true -> read_le32 b CRC_OFF = u32 (Z.lnot (crc_ref poly_castagnoli (splice b CRC_OFF (zeros 4)) 0xffffffff)).
Proof. unfold crc_matches. case_match; [discriminate|]. rewrite crc32c_ref by done. by intros E%Z.eqb_eq. Qed.

(** The copy in the group [ag] agrees with the primary superblock. *)
Definition copy_sound (img : bytes) (s : Superblock) (ag : Z) : Prop :=
  let off := ag * ag_blocks s * block_size s in
  exists o, parse_raw (slice img off 512) = Ok o /\
    (block_size o, data_blocks o, ag_blocks o, ag_count o, sector_size o, inode_size o)
    = (block_size s, data_blocks s, ag_blocks s, ag_count s, sector_size s, inode_size s) /\ uuid o = uuid s /\
    (Z.land (version s) 0xf = 5 -> crc_sound img off o).

(** The widths of the fields. *)
Lemma read_be_bound w b o : 0 <= read_be w b o < 2 ^ (8 * Z.of_nat w).
Proof. apply (wrap_width (8 * Z.of_nat w)). lia. Qed.

Record fields_wide (s : Superblock) : Prop := {
  xw_block : 0 <= block_size s < 2 ^ 32;
  xw_data : 0 <= data_blocks s < 2 ^ 64;
  xw_ag_blocks : 0 <= ag_blocks s < 2 ^ 32;
  xw_ag_count : 0 <= ag_count s < 2 ^ 32;
  xw_sector : 0 <= sector_size s < 2 ^ 16;
  xw_inode : 0 <= inode_size s < 2 ^ 16
}.
Lemma parse_raw_wide b s : parse_raw b = Ok s -> fields_wide s.
Proof.
  unfold parse_raw. repeat (case_match; [discriminate|]). intros [= <-]. split; cbn [block_size data_blocks ag_blocks
    ag_count sector_size inode_size]; [apply (read_be_bound 4)|apply (read_be_bound 8)|apply (read_be_bound 4)|
    apply (read_be_bound 4)|apply (read_be_bound 2)|apply (read_be_bound 2)].
Qed.

Lemma marked_primary dev_bytes s : marked (check_primary dev_bytes s).
Proof. unfold check_primary. cbv zeta. repeat case_match; eauto 20 with fsx. Qed.

(** A power of two within bounds. *)
Lemma pow2_bounds x lo : 0 <= x -> 0 <= lo -> pow2 x = true -> 2 ^ lo <= x -> exists k, lo <= k /\ x = 2 ^ k.
Proof.
  intros Hx Hlo Hp Hb. apply pow2_spec in Hp as (k & Hk & ->); [|done]. exists k. split; [|done].
  apply (Z.pow_le_mono_r_iff 2); lia.
Qed.

Lemma check_primary_sound dev_bytes s :
  fields_wide s -> 0 <= dev_bytes -> fs_clean (check_primary dev_bytes s) = true -> geometry_sound dev_bytes s.
Proof.
  intros [W1 W2 W3 W4 W5 W6] Hd Hc. apply marked_primary in Hc. unfold check_primary in Hc. cbv zeta in Hc.
  rewrite warn_if_errors, !err_if_errors in Hc. destruct Hc as (C1 & C2 & Hc).
  assert (Ha : ag_blocks s <> 0 /\ ag_count s <> 0 /\ exists r,
    fs_errors (err_if (data_blocks s <=? ag_blocks s * (ag_count s - 1)) "" r) = [] /\
    (u64 (data_blocks s - ag_blocks s * (ag_count s - 1)) =? 0)
      || (ag_blocks s <? u64 (data_blocks s - ag_blocks s * (ag_count s - 1))) = false /\
    (data_blocks s =? 0) = false /\
    (negb (block_size s =? 0) && (dev_bytes / block_size s <? data_blocks s)) = false /\
    (negb (pow2 (sector_size s)) || (sector_size s <? 512) || (block_size s <? sector_size s)) = false /\
    (negb (pow2 (block_size s)) || (block_size s <? 512) || (65536 <? block_size s)) = false).
  { destruct ((ag_blocks s =? 0) || (ag_count s =? 0)) eqn:E0.
    { cbn in Hc. by apply List.app_eq_nil in Hc as [_ ?]. }
    apply orb_false_iff in E0 as [E1%Z.eqb_neq E2%Z.eqb_neq]. split; [done|]. split; [done|].
    rewrite !err_if_errors in Hc. destruct Hc as (C3 & C4 & Hc). exists no_findings.
    destruct (data_blocks s =? 0); [cbn in Hc; by apply List.app_eq_nil in Hc as [_ ?]|].
    rewrite !err_if_errors in Hc. destruct Hc as (C5 & C6 & C7 & _). split_and!; try done. by rewrite C4. }
  clear Hc. destruct Ha as (A1 & A2 & r & A3 & A4 & A5 & A6 & A7 & A8).
  apply err_if_errors in A3 as [A3 _]. apply Z.leb_gt in A3. apply Z.eqb_neq in A5.
  apply orb_false_iff in A8 as [A8 A9%Z.ltb_ge]. apply orb_false_iff in A8 as [A8%negb_false_iff A10%Z.ltb_ge].
  apply orb_false_iff in A7 as [A7 A11%Z.ltb_ge]. apply orb_false_iff in A7 as [A7%negb_false_iff A12%Z.ltb_ge].
  apply orb_false_iff in C2 as [C2 B1%Z.ltb_ge]. apply orb_false_iff in C2 as [C2%negb_false_iff B2%Z.ltb_ge].
  rewrite (wrap_id 64) in A4 by (unfold in_width; nia). apply orb_false_iff in A4 as [_ A4%Z.ltb_ge].
  destruct (pow2_bounds _ 9 (proj1 W1) ltac:(lia) A8 ltac:(lia)) as (k & Hk & Ek).
  destruct (pow2_bounds _ 9 (proj1 W5) ltac:(lia) A7 ltac:(lia)) as (k2 & Hk2 & Ek2).
  destruct (pow2_bounds _ 8 (proj1 W6) ltac:(lia) C2 ltac:(lia)) as (k3 & Hk3 & Ek3).
  split.
  - exists k. split; [|done]. split; [done|]. apply (Z.pow_le_mono_r_iff 2); lia.
  - by exists k2.
  - split; [lia|]. apply andb_false_iff in A6 as [A6|A6%Z.ltb_ge]; [apply negb_false_iff, Z.eqb_eq in A6; lia|].
    pose proof (Z.mul_div_le dev_bytes (block_size s) ltac:(lia)). nia.
  - nia.
  - exists k3. split_and!; [done..|]. apply andb_false_iff in C1 as [C1|C1]; apply negb_false_iff, Z.eqb_eq in C1; lia.
Qed.

Lemma yields_sb_raw d base off h :
  wstate d base [] h -> 0 <= off -> yields (read_sb_raw d off) h (fun b => b = slice base off 512).
Proof.
  intros Hw Ho. unfold read_sb_raw. cbv zeta. case_match; [apply yields_failM|].
  eapply yields_mono; [by apply (yields_read d base [])|]. by intros b (-> & _).
Qed.

Lemma yields_crc d base off s h :
  wstate d base [] h -> 0 <= off -> yields (verify_v5_crc d off s) h (fun ok => ok = true -> crc_sound base off s).
Proof.
  intros Hw Ho. unfold verify_v5_crc, crc_sound. cbv zeta.
  destruct (Z.eqb_spec (Z.land (version s) 15) 5); cbn [negb]; [|by apply yields_ret].
  case_match eqn:E; [by apply yields_ret|]. repeat (apply orb_false_iff in E as [E ?]). apply Z.ltb_ge in E.
  step Hw by (apply yields_try, (yields_read d base []); [exact Hw|done|lia]) as b Hb.
  destruct b as [b|]; [destruct Hb as (-> & _)|by apply yields_ret]. apply yields_ret. intros Hm _. by apply crc_matches_sound.
Qed.

Lemma same_geometry_fields s o : same_geometry s o = true ->
  (block_size o, data_blocks o, ag_blocks o, ag_count o, sector_size o, inode_size o)
  = (block_size s, data_blocks s, ag_blocks s, ag_count s, sector_size s, inode_size s).
Proof. unfold same_geometry. rewrite !andb_true_iff, !Z.eqb_eq. by intros (((((-> & ->) & ->) & ->) & ->) & ->). Qed.

(** The copies of the groups [ag..] are sound when no error is added. *)
Lemma check_groups_sound d base s n ag r h :
  wstate d base [] h -> 0 < block_size s -> 0 <= ag_blocks s -> 0 <= ag -> marked r ->
  yields (check_groups n d s ag r) h (fun r' => fs_errors r' = [] ->
    fs_errors r = [] /\ forall g, ag <= g < ag + Z.of_nat n -> copy_sound base s g).
Proof.
  intros Hw Hbs Hab. revert ag r h Hw. induction n as [|n IH]; intros ag r h Hw Hag Hm; cbn [check_groups].
  { apply yields_ret. intros E. split; [done|lia]. }
  assert (Herr : forall (m : string) (Q : Prop), fs_errors (err m r) = [] -> Q).
  { intros m Q E. by apply List.app_eq_nil in E as [_ ?]. }
  cbv zeta. case_match; [apply yields_ret; intros E; by eapply Herr|].
  step Hw by (apply yields_try, (yields_sb_raw d base); [exact Hw|nia]) as raw Hraw.
  destruct raw as [raw|e]; [subst raw|apply yields_ret; intros E; by eapply Herr].
  destruct (parse_raw _) as [o|e] eqn:Eo.
  2: { eapply yields_mono; [apply IH; [exact Hw|lia|apply marked_err]|]. intros r' Hr E.
       destruct (Hr E) as [E' _]. by eapply Herr. }
  eapply (yields_bind _ _ _ (fun bad => bad = false -> Z.land (version s) 15 = 5 -> crc_sound base (ag * ag_blocks s * block_size s) o)).
  { destruct (Z.eqb_spec (Z.land (version s) 15) 5); [|by apply yields_ret].
    step Hw by (apply (yields_crc d base); [exact Hw|nia]) as ok Hok. apply yields_ret. destruct ok; cbn; auto. }
  intros bad h2 Hbad Hq. apply (wstate_quiet _ _ _ _ _ Hq) in Hw.
  eapply yields_mono; [apply IH; [exact Hw|lia|]|].
  { apply marked_err_if, marked_err_if, marked_err_if, Hm. }
  intros r' Hr E. destruct (Hr E) as [E' Hrest]. rewrite !err_if_errors in E'. destruct E' as (E1 & E2 & E3 & E4).
  split; [done|]. intros g Hg. destruct (Z.eq_dec g ag) as [->|]; [|apply Hrest; lia].
  apply negb_false_iff, same_geometry_fields in E3. apply negb_false_iff in E2. apply bool_decide_eq_true in E2.
  exists o. split_and!; [done..|by apply Hbad].
Qed.

(** C35: the check of an XFS file system ends on every host and only reads, and
    a clean report means that the primary superblock has a sound geometry and
    the right checksum, and that the superblock of every other allocation group
    can be parsed, has the same geometry and UUID, and the right checksum where
    its version has one. *)
Theorem xfs_check_sound (d : BlockDevice) (base : bytes) (h : Host) (Hw : wstate d base [] h) :
  yields (check d) h (fun r => exists s, parse_raw (slice base 0 512) = Ok s /\
    (fs_clean r = true ->
      geometry_sound (size_bytes (geometry d)) s /\ crc_sound base 0 s /\
      forall ag, 1 <= ag < ag_count s -> copy_sound base s ag)).
Proof.
  unfold check, read_superblock. case_match eqn:Esz; [apply yields_failM|]. apply Z.ltb_ge in Esz.
  apply yields_assoc. step Hw by (by apply (yields_sb_raw d base)) as raw Hraw. subst raw.
  step Hw by (apply yields_lift; intros s Hs; exact Hs) as s Hs. cbv zeta.
  set (r0 := check_primary _ s). pose proof (marked_primary (size_bytes (geometry d)) s) as Hm0. fold r0 in Hm0.
  eapply (yields_bind _ _ _ (fun bad => bad = false -> crc_sound base 0 s)).
  { destruct (Z.eqb_spec (Z.land (version s) 15) 5); [|by apply yields_ret; intros _ ?].
    step Hw by (by apply (yields_crc d base)) as ok Hok. apply yields_ret. destruct ok; cbn; auto. }
  intros bad h2 Hbad Hq. apply (wstate_quiet _ _ _ _ _ Hq) in Hw.
  set (r1 := err_if bad _ r0). assert (Hm1 : marked r1) by by apply marked_err_if.
  destruct (fs_clean r1) eqn:Ec; cbn [negb].
  2: { apply yields_ret. exists s. split; [done|]. by rewrite Ec. }
  apply Hm1, err_if_errors in Ec as [Eb Ec]. apply Hm0 in Ec.
  pose proof (parse_raw_wide _ _ Hs) as Hwide.
  pose proof (check_primary_sound (size_bytes (geometry d)) s Hwide ltac:(lia) Ec) as Hgeo.
  case_match; [apply yields_ret; exists s; split; [done|done]|].
  assert (Hpos : 0 < block_size s /\ 0 <= ag_blocks s).
  { destruct Hgeo as [(k & Hk & ->) _ _ [? _] _]. split; [apply Z.pow_pos_nonneg; lia|lia]. }
  step Hw by (apply (check_groups_sound d base); [exact Hw|apply Hpos|apply Hpos|lia|exact Hm1]) as r2 Hr2.
  apply yields_ret. exists s. split; [done|]. intros E. apply close_clean in E. destruct (Hr2 E) as [_ Hall].
  split; [done|]. split; [by apply Hbad|]. intros ag Hag. apply Hall. lia.
Qed.

(** Two allocation groups of 16 blocks of 512 bytes. *)
Definition demo_xfs : bytes :=
  let put o (l : list Z) b := splice b o (map byte.of_Z l) in
  let sb b := put 0 [88; 70; 83; 66; 0; 0; 2; 0; 0; 0; 0; 0; 0; 0; 0; 32]
    (put 84 [0; 0; 0; 16; 0; 0; 0; 2] (put 100 [0; 4; 2; 0; 1; 0; 0; 2] b)) in
  sb (zeros 8192) ++ sb (zeros 8192).
Definition demo_xfs_device : BlockDevice := mkDevice 1 "fs" (mkGeometry 16384 512 512 false false) true.
Definition demo_xfs_host : Host := demo_host (mkFile Regular demo_xfs []) [].

Lemma xfs_check_sound_witness :
  exists r, (check demo_xfs_device demo_xfs_host).1 = Ret r /\ fs_clean r = true /\
    exists s, parse_raw (slice demo_xfs 0 512) = Ok s /\ geometry_sound 16384 s.
Proof.
  assert (Hw : wstate demo_xfs_device demo_xfs [] demo_xfs_host).
  { apply (wstate_start demo_xfs_device demo_xfs_host (mkFile Regular demo_xfs [])); [|done].
    split; [done|]. split; [by vm_compute|by apply Forall_nil]. }
  pose proof (xfs_check_sound demo_xfs_device demo_xfs demo_xfs_host Hw) as (_ & _ & H).
  assert (E : (check demo_xfs_device demo_xfs_host).1 = Ret (mkFsReport true [] [])) by (vm_compute; reflexivity).
  exists (mkFsReport true [] []). split; [exact E|]. split; [done|].
  destruct (H _ E) as (s & Hs & Hc). exists s. split; [exact Hs|]. exact (proj1 (Hc eq_refl)).
Defined.
