(* ===== verification/Ntfs.v ===== *)
(** NTFS boot sectors and the first record of the master file table
    (include/fsx/ntfs.hpp, src/fs/ntfs.cpp). *)
From S2P Require Import Prelude Words Errors Endian Host Device Durable FsReport.
#[local] Open Scope Z_scope.

Record BootSector := mkBootSector {
  bytes_per_sector : Z;
  sectors_per_cluster : Z;
  total_sectors : Z;
  mft_cluster : Z;
  mft_mirror_cluster : Z;
  clusters_per_mft_record : Z;
  serial : Z
}.
Definition cluster_bytes (s : BootSector) : Z := bytes_per_sector s * sectors_per_cluster s.
Definition volume_bytes (s : BootSector) : Z :=
  if (bytes_per_sector s =? 0) || (u64_max / bytes_per_sector s <? total_sectors s) then u64_max
  else total_sectors s * bytes_per_sector s.

Definition read_boot (dev : BlockDevice) (off : Z) : M bytes :=
  let size := size_bytes (geometry dev) in
  if (size <? off) || (size - off <? 512) then failM corrupt "NTFS boot sector lies outside device"
  else read_exact dev off 512.

Definition mft_record_bytes (s : BootSector) : Result Z :=
  let cb := cluster_bytes s in
  let n := clusters_per_mft_record s in
  if cb =? 0 then fail corrupt "NTFS cluster size is zero"
  else if 0 <? n
  then if u64_max / cb <? n then fail corrupt "NTFS MFT record size overflows" else Ok (n * cb)
  else if n <? 0
  then if 63 <=? - n then fail corrupt "NTFS MFT record size shift is invalid" else Ok (Z.shiftl 1 (- n))
  else fail corrupt "NTFS MFT record sizing field is zero".

(** The loop that puts the last two bytes of every sector back. *)
Fixpoint fixup (n : nat) (sector usa_off usn i : Z) (r : bytes) : Result bytes :=
  match n with
  | O => Ok r
  | S n =>
      let tail := (i + 1) * sector - 2 in
      if negb (read_le16 r tail =? usn) then fail corrupt "NTFS MFT update-sequence fixup mismatch"
      else
        let v := read_le16 r (usa_off + 2 * (i + 1)) in
        let r := <[Z.to_nat tail := byte.of_Z (Z.land v 0xff)]> r in
        let r := <[Z.to_nat (tail + 1) := byte.of_Z (Z.land (Z.shiftr v 8) 0xff)]> r in
        fixup n sector usa_off usn (i + 1) r
  end.

(** The checks of a file record that has been read. *)
Definition fixed_file_record (r : bytes) (sector : Z) : Result bytes :=
  let n := zlen r in
  if negb (is_text r 0 [70; 73; 76; 69]) then fail corrupt "NTFS MFT record magic is invalid"
  else
    let usa_off := read_le16 r 4 in
    let usa_count := read_le16 r 6 in
    let sectors := n / sector in
    if negb (usa_count =? sectors + 1)
    then fail corrupt "NTFS MFT update-sequence count does not match record sectors"
    else if (usa_off <? 8) || (n <? usa_off) || (n - usa_off <? usa_count * 2)
    then fail corrupt "NTFS MFT update-sequence array lies outside record"
    else
      let? r := fixup (Z.to_nat sectors) sector usa_off (read_le16 r usa_off) 0 r in
      let first_attr := read_le16 r 20 in
      let used := read_le32 r 24 in
      let alloc := read_le32 r 28 in
      if (first_attr <? 24) || (n <=? first_attr)
      then fail corrupt "NTFS MFT first-attribute offset is invalid"
      else if (n <? used) || (n <? alloc) || (alloc <? used)
      then fail corrupt "NTFS MFT record size fields are invalid"
      else Ok r.

Definition read_fixed_file_record (dev : BlockDevice) (off n sector : Z) : M bytes :=
  let size := size_bytes (geometry dev) in
  if (n <? sector) || negb (pow2 n) || (64 * 1024 <? n)
  then failM corrupt "NTFS MFT record size is unreasonable"
  else if (size <? off) || (size - off <? n) then failM corrupt "NTFS MFT record lies outside device"
  else r ← read_exact dev off n; lift (fixed_file_record r sector).

(** A signed byte. *)
Definition int8 (x : Z) : Z := if x <? 128 then x else x - 256.

Definition parse_boot (b : bytes) : Result BootSector :=
  if negb (is_text b 3 [78; 84; 70; 83; 32; 32; 32; 32]) then fail unsupported "not an NTFS filesystem"
  else if negb (byte_at b 510 =? 0x55) || negb (byte_at b 511 =? 0xaa)
  then fail corrupt "NTFS boot signature is missing"
  else Ok (mkBootSector (read_le16 b 11) (byte_at b 13) (read_le64 b 40) (read_le64 b 48) (read_le64 b 56)
             (int8 (byte_at b 64)) (read_le64 b 72)).
Definition read_boot_sector (dev : BlockDevice) : M BootSector :=
  if size_bytes (geometry dev) <? 512 then failM unsupported "device is too small for NTFS"
  else b ← read_boot dev 0; lift (parse_boot b).

Definition check_boot (dev_bytes : Z) (s : BootSector) : FsReport :=
  let bps := bytes_per_sector s in
  let r := err_if (negb (pow2 bps) || (bps <? 256) || (4096 <? bps)) "invalid NTFS bytes-per-sector" no_findings in
  let r := err_if (negb (pow2 (sectors_per_cluster s)) || (sectors_per_cluster s =? 0)
                   || (128 <? sectors_per_cluster s)) "invalid NTFS sectors-per-cluster" r in
  let r := if total_sectors s =? 0 then err "NTFS total-sector count is zero" r
           else err_if (negb (bps =? 0) && (dev_bytes / bps <? total_sectors s))
                  "NTFS volume geometry exceeds containing device" r in
  let cb := cluster_bytes s in
  let clusters := if negb (cb =? 0) then volume_bytes s / cb else 0 in
  let r := err_if (negb (clusters =? 0) && (clusters <=? mft_cluster s))
             "NTFS MFT cluster lies outside the volume" r in
  err_if (negb (clusters =? 0) && (clusters <=? mft_mirror_cluster s))
    "NTFS MFT mirror cluster lies outside the volume" r.

(** The last sector of the volume holds the same boot sector. *)
Definition check_backup (dev : BlockDevice) (s : BootSector) (r : FsReport) : M FsReport :=
  if 0 <? total_sectors s
  then
    let off := (total_sectors s - 1) * bytes_per_sector s in
    p ← read_boot dev 0;
    b ← attempt (read_boot dev off);
    match b with
    | Err _ => mret (err "NTFS backup boot sector cannot be read" r)
    | Ok b =>
        let r := err_if (negb (byte_at b 510 =? 0x55) || negb (byte_at b 511 =? 0xaa))
                   "NTFS backup boot signature is invalid" r in
        mret (err_if (negb (bool_decide (slice p 3 81 = slice b 3 81)))
                "NTFS primary and backup boot geometry disagree" r)
    end
  else mret r.

(** The first record of the table and of its mirror. *)
Definition check_records (dev : BlockDevice) (s : BootSector) (n : Z) (r : FsReport) : M FsReport :=
  let cb := cluster_bytes s in
  mft ← attempt (read_fixed_file_record dev (mft_cluster s * cb) n (bytes_per_sector s));
  let r := match mft with Ok _ => r | Err e => err ("primary MFT record 0: " +:+ message e) r end in
  mirr ← attempt (read_fixed_file_record dev (mft_mirror_cluster s * cb) n (bytes_per_sector s));
  let r := match mirr with Ok _ => r | Err e => err ("MFTMirr record 0: " +:+ message e) r end in
  mret (match mft, mirr with
        | Ok a, Ok b => warn_if (negb (bool_decide (a = b)))
                          "NTFS MFT record 0 and MFTMirr record 0 differ after fixup" r
        | _, _ => r
        end).

Definition check (dev : BlockDevice) : M FsReport :=
  s ← read_boot_sector dev;
  let r := check_boot (size_bytes (geometry dev)) s in
  if negb (fs_clean r) then mret r
  else
    match mft_record_bytes s with
    | Err e => mret (err (message e) r)
    | Ok n =>
        let r := err_if ((n <? bytes_per_sector s) || (64 * 1024 <? n))
                   "NTFS MFT record size is outside the supported sane range" r in
        r ← check_backup dev s r;
        r ← (if fs_clean r then check_records dev s n r else mret r);
        mret (close_report r)
    end.
