(* ===== verification/Fat.v ===== *)
(** FAT12, FAT16 and FAT32 volumes (include/fsx/fat.hpp, src/fs/fat.cpp).  The
    progress callback only reports and is left out. *)
From S2P Require Import Prelude Words Errors Endian Host Device Durable FsReport.
#[local] Open Scope Z_scope.

Inductive Kind := fat12 | fat16 | fat32.
#[export] Instance Kind_eq_dec : EqDecision Kind.
Proof. solve_decision. Defined.

Record Volume := mkVolume {
  kind : Kind;
  bytes_per_sector : Z;
  sectors_per_cluster : Z;
  reserved_sectors : Z;
  fat_count : Z;
  sectors_per_fat : Z;
  total_sectors : Z;
  root_dir_sectors : Z;
  first_data_sector : Z;
  data_sectors : Z;
  cluster_count : Z;
  root_cluster : Z;
  media : Z;
  serial : Z;
  label : string
}.
Definition volume_bytes (v : Volume) : Z := total_sectors v * bytes_per_sector v.
Definition cluster_bytes (v : Volume) : Z := bytes_per_sector v * sectors_per_cluster v.

Record CheckReport := mkReport {
  clean : bool;
  fat_bytes_compared : Z;
  mirrored_fat_mismatches : Z;
  invalid_cluster_entries : Z;
  r_errors : list string
}.

Definition trim_field (b : bytes) : string := trim_end (text_until_null ascii_of b).

Definition boot_sector (dev : BlockDevice) : M bytes :=
  if size_bytes (geometry dev) <? 512 then failM unsupported "device is too small for a FAT boot sector"
  else read_exact dev 0 512.

Definition entry_bits (k : Kind) : Z := match k with fat12 => 12 | fat16 => 16 | fat32 => 32 end.

(** The fields of the volume, behind the checks of the sector and cluster sizes. *)
Definition volume_of (b : bytes) : Result Volume :=
  let bps := read_le16 b 11 in
  let spc := byte_at b 13 in
  let reserved := read_le16 b 14 in
  let fats := byte_at b 16 in
  let root_entries := read_le16 b 17 in
  let total16 := read_le16 b 19 in
  let fat16_size := read_le16 b 22 in
  let total := if negb (total16 =? 0) then total16 else read_le32 b 32 in
  let spf := if negb (fat16_size =? 0) then fat16_size else read_le32 b 36 in
  let root_sectors := (root_entries * 32 + (bps - 1)) / bps in
  let first_data := reserved + fats * spf + root_sectors in
  let data := total - first_data in
  let clusters := data / spc in
  let k := if clusters <? 4085 then fat12 else if clusters <? 65525 then fat16 else fat32 in
  let vol root serial label :=
    mkVolume k bps spc reserved fats spf total root_sectors first_data data clusters root (byte_at b 21) serial label in
  if negb (pow2 bps) || (bps <? 512) || (4096 <? bps) then fail corrupt "invalid FAT bytes-per-sector"
  else if negb (pow2 spc) || (128 <? spc) then fail corrupt "invalid FAT sectors-per-cluster"
  else if (reserved =? 0) || (fats =? 0) || (4 <? fats) then fail corrupt "invalid FAT reserved/FAT count geometry"
  else if (total =? 0) || (spf =? 0) then fail corrupt "invalid FAT size fields"
  else if total <=? first_data then fail corrupt "FAT metadata consumes the whole volume"
  else if bool_decide (k = fat32) && (0x0ffffff5 <? clusters)
  then fail corrupt "FAT32 cluster count exceeds representable data clusters"
  else if bool_decide (k = fat32)
  then
    let root := read_le32 b 44 in
    if negb (root_entries =? 0) || negb (fat16_size =? 0)
    then fail corrupt "FAT32 has incompatible FAT12/16 geometry fields"
    else if (root <? 2) || (clusters + 2 <=? root) then fail corrupt "invalid FAT32 root cluster"
    else Ok (vol root (read_le32 b 67) (trim_field (slice b 71 11)))
  else if root_entries =? 0 then fail corrupt "FAT12/16 root directory entry count is zero"
  else Ok (vol 0 (read_le32 b 39) (trim_field (slice b 43 11))).

Definition parse_volume (dev_bytes : Z) (b : bytes) : Result Volume :=
  if negb (byte_at b 510 =? 0x55) || negb (byte_at b 511 =? 0xaa)
  then fail unsupported "FAT boot signature is absent"
  else
    let? v := volume_of b in
    if dev_bytes <? volume_bytes v then fail corrupt "FAT volume is larger than containing device"
    else if sectors_per_fat v * bytes_per_sector v * 8 / entry_bits (kind v) <? cluster_count v + 2
    then fail corrupt "FAT table is too small for cluster count"
    else Ok v.

(** ** The stream of table entries *)

Definition WINDOW : Z := 4 * 1024 * 1024.
(** The window of [FatStream]: its offset and the valid bytes of its buffer. *)
Record Window := mkWindow { window_off : Z; window : bytes }.
Definition empty_window : Window := mkWindow u64_max [].

Definition entry_offset (k : Kind) (c : Z) : Z :=
  match k with fat12 => c + c / 2 | fat16 => c * 2 | fat32 => c * 4 end.
Definition entry_need (k : Kind) : Z := match k with fat32 => 4 | _ => 2 end.

(** The entry at [i] of the buffer, from its bytes. *)
Definition entry_at (k : Kind) (b : bytes) (i c : Z) : Z :=
  let byte j := Z.shiftl (byte_at b (i + j)) (8 * j) in
  let pair := Z.lor (byte 0) (byte 1) in
  match k with
  | fat12 => if negb (Z.land c 1 =? 0) then Z.shiftr pair 4 else Z.land pair 0x0fff
  | fat16 => pair
  | fat32 => Z.land (Z.lor (Z.lor pair (byte 2)) (byte 3)) 0x0fffffff
  end.

(** [FatStream::get], on a table of [n] bytes at [base]. *)
Definition get (dev : BlockDevice) (base n : Z) (k : Kind) (c : Z) (w : Window) : M (Z * Window) :=
  let off := entry_offset k c in
  let need := entry_need k in
  if (n <? off) || (n - off <? need) then failM corrupt "FAT entry table ended before advertised cluster count"
  else
    w ← (if (window_off w <=? off) && (off + need <=? window_off w + zlen (window w)) then mret w
         else
           let o := off / WINDOW * WINDOW in
           b ← read_exact dev (base + o) (Z.min (WINDOW + 8) (n - o));
           mret (mkWindow o b));
    mret (entry_at k (window w) (off - window_off w) c, w).

Definition kind_name (k : Kind) : string :=
  match k with fat12 => "FAT12" | fat16 => "FAT16" | fat32 => "FAT32" end.

Definition probe (dev : BlockDevice) : M bool :=
  b ← attempt (boot_sector dev);
  match b with
  | Err e => if bool_decide (code e = unsupported) then mret false else lift (Err e)
  | Ok b =>
      match parse_volume (size_bytes (geometry dev)) b with
      | Err e => if bool_decide (code e = unsupported) || bool_decide (code e = corrupt) then mret false else lift (Err e)
      | Ok _ => mret true
      end
  end.
Definition read_volume (dev : BlockDevice) : M Volume :=
  b ← boot_sector dev;
  lift (parse_volume (size_bytes (geometry dev)) b).

(** ** The check *)

Definition mask (k : Kind) : Z := match k with fat12 => 0x0fff | fat16 => 0xffff | fat32 => 0x0fffffff end.
Definition bad_mark (k : Kind) : Z := match k with fat12 => 0x0ff7 | fat16 => 0xfff7 | fat32 => 0x0ffffff7 end.
Definition end_mark (k : Kind) : Z := match k with fat12 => 0x0ff8 | fat16 => 0xfff8 | fat32 => 0x0ffffff8 end.

(** The entry [e] points outside the clusters up to [last]. *)
Definition points_outside (k : Kind) (last e : Z) : bool :=
  let v := Z.land e (mask k) in
  if (v =? 0) || (v =? bad_mark k) || (end_mark k <=? v) then false else (v <? 2) || (last <? v).

(** The loop over the entries from [c] on: the invalid ones, and the error that
    ended it. *)
Fixpoint check_entries (n : nat) (dev : BlockDevice) (base bytes_ : Z) (k : Kind) (last c : Z) (w : Window)
    (invalid : Z) : M (Z * list string) :=
  match n with
  | O => mret (invalid, [])
  | S n =>
      stop ← cancel_requested;
      if (stop : bool) then failM unsafe "FAT check cancelled"
      else
        e ← attempt (get dev base bytes_ k c w);
        match e with
        | Err e => mret (invalid, [message e])
        | Ok (e, w) =>
            check_entries n dev base bytes_ k last (c + 1) w
              (if points_outside k last e then invalid + 1 else invalid)
        end
  end.

(** The loop over the chunks of one copy: the bytes compared and the chunks that
    differ. *)
Fixpoint compare_copy (n : nat) (dev : BlockDevice) (fat0 bytes_ copy done compared diff : Z) : M (Z * Z) :=
  if bytes_ <=? done then mret (compared, diff)
  else
    match n with
    | O => fun h => (OutOfFuel, h)
    | S n =>
        stop ← cancel_requested;
        if (stop : bool) then failM unsafe "FAT check cancelled"
        else
          let len := Z.min WINDOW (bytes_ - done) in
          a ← read_exact dev (fat0 + done) len;
          b ← read_exact dev (fat0 + copy * bytes_ + done) len;
          compare_copy n dev fat0 bytes_ copy (done + len) (compared + len)
            (if bool_decide (a = b) then diff else diff + 1)
    end.

Fixpoint compare_copies (n : nat) (dev : BlockDevice) (fat0 bytes_ copy compared diff : Z) : M (Z * Z) :=
  match n with
  | O => mret (compared, diff)
  | S n =>
      r ← compare_copy (Z.to_nat (bytes_ / WINDOW + 1)) dev fat0 bytes_ copy 0 compared diff;
      compare_copies n dev fat0 bytes_ (copy + 1) r.1 r.2
  end.

Definition check (dev : BlockDevice) : M CheckReport :=
  v ← read_volume dev;
  let n := sectors_per_fat v * bytes_per_sector v in
  let fat0 := reserved_sectors v * bytes_per_sector v in
  r ← check_entries (Z.to_nat (cluster_count v)) dev fat0 n (kind v) (cluster_count v + 1) 2 empty_window 0;
  m ← compare_copies (Z.to_nat (fat_count v - 1)) dev fat0 n 1 0 0;
  let errors :=
    r.2 ++ (if negb (r.1 =? 0) then [pretty r.1 +:+ " FAT entries point outside the data cluster range"] else [])
    ++ (if negb (m.2 =? 0) then [pretty m.2 +:+ " FAT mirror chunks differ"] else []) in
  mret (mkReport (bool_decide (errors = [])) m.1 m.2 r.1 errors).

(** ** The table of an image *)

(** The entry of the cluster [c] of the table at [base], read from the image. *)
Definition fat_entry (img : bytes) (base : Z) (k : Kind) (c : Z) : Z :=
  match k with
  | fat12 =>
      let pair := read_le16 img (base + (c + c / 2)) in
      if Z.odd c then pair / 16 else pair mod 4096
  | fat16 => read_le16 img (base + c * 2)
  | fat32 => read_le32 img (base + c * 4) mod 2 ^ 28
  end.

Ltac read_bytes :=
  unfold read_le; cbn [seq foldl]; rewrite Z.lor_0_l;
  change (Z.of_nat 0 * 8) with 0; change (Z.of_nat 1 * 8) with 8; change (Z.of_nat 2 * 8) with 16;
  change (Z.of_nat 3 * 8) with 24; change (Z.of_nat 0) with 0; change (Z.of_nat 1) with 1;
  change (Z.of_nat 2) with 2; change (Z.of_nat 3) with 3; change (8 * 0) with 0; change (8 * 1) with 8;
  change (8 * 2) with 16; change (8 * 3) with 24; rewrite !Z.shiftl_0_r.

Lemma pair_bytes b i : Z.lor (Z.shiftl (byte_at b (i + 0)) (8 * 0)) (Z.shiftl (byte_at b (i + 1)) (8 * 1)) = read_le16 b i.
Proof.
  read_bytes.
  pose proof (byte_at_bound b (i + 0)). pose proof (byte_at_bound b (i + 1)).
  rewrite wrap_id; [done|]. rewrite Z.lor_comm, lor_add by lia. unfold in_width.
  change (2 ^ 16) with 65536. change (2 ^ 8) with 256. lia.
Qed.
Lemma quad_bytes b i :
  Z.lor (Z.lor (Z.lor (Z.shiftl (byte_at b (i + 0)) (8 * 0)) (Z.shiftl (byte_at b (i + 1)) (8 * 1)))
           (Z.shiftl (byte_at b (i + 2)) (8 * 2))) (Z.shiftl (byte_at b (i + 3)) (8 * 3)) = read_le32 b i.
Proof.
  read_bytes.
  pose proof (byte_at_bound b (i + 0)). pose proof (byte_at_bound b (i + 1)).
  pose proof (byte_at_bound b (i + 2)). pose proof (byte_at_bound b (i + 3)).
  assert (E1 : Z.lor (byte_at b (i + 0)) (Z.shiftl (byte_at b (i + 1)) 8) = byte_at b (i + 1) * 2 ^ 8 + byte_at b (i + 0))
    by (rewrite Z.lor_comm; apply lor_add; lia).
  set (x := Z.lor (byte_at b (i + 0)) _) in *.
  assert (E2 : Z.lor x (Z.shiftl (byte_at b (i + 2)) 16) = byte_at b (i + 2) * 2 ^ 16 + x)
    by (rewrite Z.lor_comm; apply lor_add; lia).
  set (y := Z.lor x _) in *.
  assert (E3 : Z.lor y (Z.shiftl (byte_at b (i + 3)) 24) = byte_at b (i + 3) * 2 ^ 24 + y)
    by (rewrite Z.lor_comm; apply lor_add; lia).
  change (2 ^ 8) with 256 in *. change (2 ^ 16) with 65536 in *. change (2 ^ 24) with 16777216 in *.
  rewrite wrap_id; [done|]. rewrite E3. unfold in_width. change (2 ^ (8 * Z.of_nat 4)) with 4294967296. lia.
Qed.

(** The entry of a buffer that holds a part of the image. *)
Lemma entry_at_slice img k o n i c :
  0 <= o -> 0 <= i -> i + entry_need k <= n -> entry_at k (slice img o n) i c = entry_at k img (o + i) c.
Proof.
  intros Ho Hi Hn.
  assert (E : forall j, 0 <= j < entry_need k -> byte_at (slice img o n) (i + j) = byte_at img (o + i + j)).
  { intros j Hj. rewrite byte_at_slice by lia. f_equal. lia. }
  unfold entry_at. destruct k; cbn [entry_need] in E; rewrite ?(E 0), ?(E 1) by lia; [done|done|].
  by rewrite (E 2), (E 3) by lia.
Qed.
Lemma entry_at_image img base k c : entry_at k img (base + entry_offset k c) c = fat_entry img base k c.
Proof.
  unfold entry_at, fat_entry, entry_offset. destruct k; cbv zeta.
  - rewrite pair_bytes. change 1 with (Z.ones 1). rewrite Z.land_ones by lia. change (2 ^ 1) with 2.
    rewrite (Zmod_odd c). change 0x0fff with (Z.ones 12). rewrite Z.land_ones, Z.shiftr_div_pow2 by lia.
    by destruct (Z.odd c).
  - apply pair_bytes.
  - rewrite quad_bytes. change 0x0fffffff with (Z.ones 28). by rewrite Z.land_ones by lia.
Qed.

(** The window holds the bytes of the table at its offset. *)
Definition window_ok (img : bytes) (base : Z) (w : Window) : Prop :=
  0 <= window_off w /\ window w = slice img (base + window_off w) (zlen (window w)).
Lemma empty_window_ok img base : window_ok img base empty_window.
Proof. split; [done|]. cbn. unfold slice. cbn. by rewrite take_0. Qed.

Lemma get_spec d img base n k c w h :
  wstate d img [] h -> 0 <= base -> 0 <= c -> window_ok img base w ->
  yields (get d base n k c w) h (fun p => p.1 = fat_entry img base k c /\ window_ok img base p.2).
Proof.
  intros Hw Hb Hc Hwin. unfold get. cbv zeta.
  assert (Hoff : 0 <= entry_offset k c) by (unfold entry_offset; destruct k; [pose proof (Z.div_pos c 2)| |]; lia).
  set (off := entry_offset k c) in *. case_match eqn:E; [apply yields_failM|].
  apply orb_false_iff in E as [E1%Z.ltb_ge E2%Z.ltb_ge].
  eapply (yields_bind _ _ _ (fun w' => window_ok img base w' /\ window_off w' <= off /\
    off + entry_need k <= window_off w' + zlen (window w'))).
  { destruct ((window_off w <=? off) && _) eqn:Ein.
    - apply andb_true_iff in Ein as [I1%Z.leb_le I2%Z.leb_le]. by apply yields_ret.
    - pose proof (Z.mul_div_le off WINDOW eq_refl). pose proof (Z.mod_pos_bound off WINDOW eq_refl).
      pose proof (Z.div_mod off WINDOW ltac:(done)). pose proof (Z.div_pos off WINDOW Hoff eq_refl).
      assert (entry_need k <= 4) by by destruct k. unfold WINDOW in *.
      step Hw by (apply (yields_read d img []); [exact Hw|lia|lia]) as b Hbb. destruct Hbb as (-> & Hz & _).
      apply yields_ret. cbn [window_off window]. cbn [put_all foldl] in *. rewrite Hz. split; [|lia].
      split; cbn [window_off window]; [lia|]. by rewrite Hz. }
  intros w' h' ([Ho Hs] & H1 & H2) _. apply yields_ret. cbn [fst snd]. split; [|by split].
  rewrite Hs, entry_at_slice by lia. rewrite <-entry_at_image. f_equal. fold off. lia.
Qed.

(** ** The check, on an image *)

(** The invalid entries among those of the clusters [c..c+n). *)
Definition invalid_entries (img : bytes) (base : Z) (k : Kind) (last c n : Z) : Z :=
  zlen (filter (fun i => points_outside k last (fat_entry img base k i) = true) (seqZ c n)).

Lemma invalid_none img base k last c : invalid_entries img base k last c 0 = 0.
Proof. reflexivity. Qed.

Lemma invalid_entries_zero img base k last c n :
  invalid_entries img base k last c n = 0 <->
  forall i, c <= i < c + n -> points_outside k last (fat_entry img base k i) = false.
Proof.
  unfold invalid_entries. split.
  - intros E i Hi. apply not_true_is_false. intros Hp. unfold zlen in E.
    assert (Hin : i ∈ filter (fun i => points_outside k last (fat_entry img base k i) = true) (seqZ c n)).
    { apply list_elem_of_filter. split; [done|]. by apply elem_of_seqZ. }
    destruct (filter _ _); [by apply elem_of_nil in Hin|cbn in E; lia].
  - intros H. destruct (filter _ _) as [|i l] eqn:Ef; [done|]. exfalso.
    assert (Hin : i ∈ filter (fun i => points_outside k last (fat_entry img base k i) = true) (seqZ c n))
      by (rewrite Ef; by left).
    apply list_elem_of_filter in Hin as [Hp Hi%elem_of_seqZ]. by rewrite H in Hp.
Qed.

Lemma check_entries_spec d img base bytes_ k last n c w inv h :
  wstate d img [] h -> 0 <= base -> 0 <= c -> window_ok img base w ->
  yields (check_entries n d base bytes_ k last c w inv) h (fun r => exists m, 0 <= m <= Z.of_nat n /\
    r.1 = inv + invalid_entries img base k last c m /\ (r.2 = [] <-> m = Z.of_nat n)).
Proof.
  intros Hw Hb. revert c w inv h Hw. induction n as [|n IH]; intros c w inv h Hw Hc Hwin; cbn [check_entries].
  { apply yields_ret. exists 0. split; [lia|]. rewrite invalid_none. cbn [fst snd]. split; [lia|done]. }
  step Hw by (eapply yields_cancel, Hw) as stop Hstop. destruct stop; [apply yields_failM|].
  step Hw by (apply yields_try, get_spec; [exact Hw|exact Hb|exact Hc|exact Hwin]) as e He.
  destruct e as [[e w']|er].
  2: { apply yields_ret. exists 0. cbn [fst snd]. split; [lia|]. rewrite invalid_none.
       split; [lia|]. split; [done|lia]. }
  cbn [fst snd] in He. destruct He as [-> Hwin'].
  eapply yields_mono; [by apply IH; [exact Hw|lia|]|]. intros r (m & Hm & E1 & E2). exists (m + 1). split; [lia|].
  split; [|rewrite E2; lia]. rewrite E1. unfold invalid_entries at 2.
  rewrite (seqZ_cons c) by lia. replace (Z.pred (m + 1)) with m by lia. change (Z.succ c) with (c + 1). rewrite filter_cons.
  destruct (points_outside _ _ _) eqn:Ep; [rewrite decide_True by done; rewrite zlen_cons|rewrite decide_False by done];
    unfold invalid_entries; lia.
Qed.

(** The chunks of a copy from [pos] on that differ from the first table. *)
Fixpoint diff_chunks (n : nat) (img : bytes) (fat0 bytes_ copy pos : Z) : Z :=
  match n with
  | O => 0
  | S n =>
      if bytes_ <=? pos then 0
      else
        let len := Z.min WINDOW (bytes_ - pos) in
        (if bool_decide (slice img (fat0 + pos) len = slice img (fat0 + copy * bytes_ + pos) len) then 0 else 1)
        + diff_chunks n img fat0 bytes_ copy (pos + len)
  end.
Lemma diff_chunks_nonneg n img fat0 bytes_ copy pos : 0 <= diff_chunks n img fat0 bytes_ copy pos.
Proof.
  revert pos. induction n as [|n IH]; intros pos; cbn [diff_chunks]; [done|]. case_match; [done|]. cbv zeta.
  specialize (IH (pos + Z.min WINDOW (bytes_ - pos))). case_bool_decide; lia.
Qed.

Lemma compare_copy_spec d img fat0 bytes_ copy n pos cmp diff h :
  wstate d img [] h -> 0 <= fat0 -> 0 <= bytes_ -> 0 <= copy -> 0 <= pos <= bytes_ ->
  bytes_ - pos <= Z.of_nat n * WINDOW ->
  yields (compare_copy n d fat0 bytes_ copy pos cmp diff) h (fun r =>
    r.1 = cmp + (bytes_ - pos) /\ r.2 = diff + diff_chunks n img fat0 bytes_ copy pos).
Proof.
  intros Hw Hf Hby Hc. revert pos cmp diff h Hw.
  induction n as [|n IH]; intros pos cmp diff h Hw Hd Hn; cbn [compare_copy diff_chunks];
    (destruct (Z.leb_spec bytes_ pos); [apply yields_ret; cbn [fst snd]; lia|]); [lia|].
  step Hw by (eapply yields_cancel, Hw) as stop Hstop. destruct stop; [apply yields_failM|]. cbv zeta.
  set (len := Z.min WINDOW (bytes_ - pos)). assert (Hl : 0 < len <= bytes_ - pos) by (unfold len, WINDOW; lia).
  step Hw by (apply (yields_read d img []); [exact Hw|lia|lia]) as a Ha. destruct Ha as (-> & _).
  step Hw by (apply (yields_read d img []); [exact Hw|nia|lia]) as b Hb. destruct Hb as (-> & _).
  eapply yields_mono; [apply IH; [exact Hw|lia|unfold len, WINDOW in *; lia]|]. cbn [put_all foldl].
  intros r [E1 E2]. split; [lia|]. rewrite E2. case_bool_decide; lia.
Qed.

(** No chunk differs exactly when the copy is the first table. *)
Lemma diff_chunks_zero img fat0 bytes_ copy n pos :
  0 <= fat0 -> 0 <= copy -> fat0 + copy * bytes_ + bytes_ <= zlen img -> fat0 + bytes_ <= zlen img ->
  0 <= pos <= bytes_ -> bytes_ - pos <= Z.of_nat n * WINDOW ->
  diff_chunks n img fat0 bytes_ copy pos = 0 <->
  slice img (fat0 + copy * bytes_ + pos) (bytes_ - pos) = slice img (fat0 + pos) (bytes_ - pos).
Proof.
  intros Hf Hc Hi1 Hi2. revert pos. induction n as [|n IH]; intros pos Hd Hn; cbn [diff_chunks].
  { replace (bytes_ - pos) with 0 by lia. done. }
  destruct (Z.leb_spec bytes_ pos).
  { replace (bytes_ - pos) with 0 by lia. done. }
  cbv zeta. set (len := Z.min WINDOW (bytes_ - pos)).
  assert (Hl : 0 < len <= bytes_ - pos) by (unfold len, WINDOW; lia).
  pose proof (diff_chunks_nonneg n img fat0 bytes_ copy (pos + len)) as Hnn.
  specialize (IH (pos + len) ltac:(lia) ltac:(unfold len, WINDOW in *; lia)).
  assert (Hsplit : forall o, 0 <= o -> slice img o (bytes_ - pos) = slice img o len ++ slice img (o + len) (bytes_ - (pos + len))).
  { intros o Ho. rewrite <-slice_split by lia. f_equal. lia. }
  rewrite !Hsplit by nia. rewrite !Z.add_assoc in IH. split.
  - intros E. case_bool_decide as Hb; [|lia]. rewrite Hb. f_equal. apply IH. lia.
  - intros E. apply app_inj_1 in E as [E1 E2].
    + rewrite bool_decide_true by done. apply IH in E2. lia.
    + pose proof (zlen_slice img (fat0 + copy * bytes_ + pos) len ltac:(nia) ltac:(lia) ltac:(lia)).
      pose proof (zlen_slice img (fat0 + pos) len ltac:(nia) ltac:(lia) ltac:(lia)). unfold zlen in *. lia.
Qed.

(** The chunks that differ in the copies [copy..copy+n). *)
Fixpoint mirror_diff (n : nat) (img : bytes) (fat0 bytes_ copy : Z) : Z :=
  match n with
  | O => 0
  | S n => diff_chunks (Z.to_nat (bytes_ / WINDOW + 1)) img fat0 bytes_ copy 0 + mirror_diff n img fat0 bytes_ (copy + 1)
  end.
Lemma mirror_diff_nonneg n img fat0 bytes_ copy : 0 <= mirror_diff n img fat0 bytes_ copy.
Proof.
  revert copy. induction n as [|n IH]; intros copy; cbn [mirror_diff]; [done|]. specialize (IH (copy + 1)).
  pose proof (diff_chunks_nonneg (Z.to_nat (bytes_ / WINDOW + 1)) img fat0 bytes_ copy 0). lia.
Qed.

Lemma window_fuel bytes_ : 0 <= bytes_ -> bytes_ - 0 <= Z.of_nat (Z.to_nat (bytes_ / WINDOW + 1)) * WINDOW.
Proof.
  intros Hb. pose proof (Z.div_pos bytes_ WINDOW Hb eq_refl). rewrite Z2Nat.id by lia.
  pose proof (Z.mul_succ_div_gt bytes_ WINDOW eq_refl). lia.
Qed.

Lemma compare_copies_spec d img fat0 bytes_ n copy cmp diff h :
  wstate d img [] h -> 0 <= fat0 -> 0 <= bytes_ -> 0 <= copy ->
  yields (compare_copies n d fat0 bytes_ copy cmp diff) h (fun r =>
    r.1 = cmp + Z.of_nat n * bytes_ /\ r.2 = diff + mirror_diff n img fat0 bytes_ copy).
Proof.
  intros Hw Hf Hby. revert copy cmp diff h Hw. induction n as [|n IH]; intros copy cmp diff h Hw Hc; cbn [compare_copies mirror_diff].
  { apply yields_ret. cbn [fst snd]. lia. }
  step Hw by (apply (compare_copy_spec d img); [exact Hw|done|done|done|lia|by apply window_fuel]) as r Hr.
  destruct Hr as [E1 E2]. eapply yields_mono; [apply IH; [exact Hw|lia]|]. intros r' [E3 E4]. split; lia.
Qed.

Lemma mirror_diff_zero n img fat0 bytes_ copy :
  0 <= fat0 -> 0 <= bytes_ -> 0 <= copy -> fat0 + (copy + Z.of_nat n) * bytes_ <= zlen img -> fat0 + bytes_ <= zlen img ->
  mirror_diff n img fat0 bytes_ copy = 0 <->
  forall i, copy <= i < copy + Z.of_nat n -> slice img (fat0 + i * bytes_) bytes_ = slice img fat0 bytes_.
Proof.
  intros Hf Hb. revert copy. induction n as [|n IH]; intros copy Hc Hi1 Hi2; cbn [mirror_diff]; [split; [lia|done]|].
  pose proof (diff_chunks_nonneg (Z.to_nat (bytes_ / WINDOW + 1)) img fat0 bytes_ copy 0).
  pose proof (mirror_diff_nonneg n img fat0 bytes_ (copy + 1)).
  pose proof (diff_chunks_zero img fat0 bytes_ copy (Z.to_nat (bytes_ / WINDOW + 1)) 0 Hf Hc ltac:(nia) Hi2 ltac:(lia)
    (window_fuel bytes_ Hb)) as Hd.
  rewrite Z.sub_0_r, !Z.add_0_r in Hd. specialize (IH (copy + 1) ltac:(lia) ltac:(nia) Hi2). split.
  - intros E i Hi. destruct (Z.eq_dec i copy) as [->|]; [apply Hd; lia|]. apply IH; lia.
  - intros Hall. assert (mirror_diff n img fat0 bytes_ (copy + 1) = 0) by (apply IH; intros; apply Hall; lia).
    assert (diff_chunks (Z.to_nat (bytes_ / WINDOW + 1)) img fat0 bytes_ copy 0 = 0) by (apply Hd, Hall; lia). lia.
Qed.

(** The tables of an accepted volume lie inside the device. *)
Record volume_sound (dev_bytes : Z) (v : Volume) : Prop := {
  vs_fat0 : 0 <= reserved_sectors v * bytes_per_sector v;
  vs_table : 0 <= sectors_per_fat v * bytes_per_sector v;
  vs_copies : 1 <= fat_count v;
  vs_clusters : 0 <= cluster_count v;
  vs_inside : reserved_sectors v * bytes_per_sector v + fat_count v * (sectors_per_fat v * bytes_per_sector v) <= dev_bytes
}.
Lemma parse_volume_sound dev_bytes b v : parse_volume dev_bytes b = Ok v -> volume_sound dev_bytes v.
Proof.
  unfold parse_volume. case_match; [discriminate|]. intros Hp. apply bindR_Ok in Hp as (v' & Hv & Hp).
  case_match eqn:Eroom; [discriminate|]. case_match; [discriminate|]. injection Hp as ->. apply Z.ltb_ge in Eroom.
  unfold volume_bytes in Eroom.
  pose proof (read_le_bound 2 b 11) as B1. pose proof (byte_at_bound b 13) as B2. pose proof (read_le_bound 2 b 14) as B3.
  pose proof (byte_at_bound b 16) as B4. pose proof (read_le_bound 2 b 17) as B5. unfold in_width in *.
  unfold volume_of in Hv. cbv zeta in Hv.
  set (total := if negb (read_le16 b 19 =? 0) then _ else _) in *.
  set (spf := if negb (read_le16 b 22 =? 0) then _ else _) in *.
  assert (Hspf : 0 <= spf).
  { unfold spf. destruct (negb (read_le16 b 22 =? 0)); [apply (proj1 (read_le_bound 2 b 22))|apply (proj1 (read_le_bound 4 b 36))]. }
  clearbody total spf. set (bps := read_le16 b 11) in *. set (spc := byte_at b 13) in *.
  set (reserved := read_le16 b 14) in *. set (fats := byte_at b 16) in *. set (re := read_le16 b 17) in *.
  set (rs := (re * 32 + (bps - 1)) / bps) in *.
  destruct (negb (pow2 bps) || _ || _) eqn:E1; [discriminate|].
  destruct (negb (pow2 spc) || _) eqn:E2; [discriminate|].
  destruct ((reserved =? 0) || _ || _) eqn:E3; [discriminate|].
  destruct ((total =? 0) || _) eqn:E4; [discriminate|].
  destruct (Z.leb_spec total (reserved + fats * spf + rs)) as [|E5]; [discriminate|].
  apply orb_false_iff in E1 as [E1 _]. apply orb_false_iff in E1 as [E1 E1'%Z.ltb_ge].
  apply orb_false_iff in E2 as [E2 _]. apply negb_false_iff, andb_true_iff in E2 as [E2 _].
  apply negb_true_iff, Z.eqb_neq in E2. apply orb_false_iff in E3 as [E3 _]. apply orb_false_iff in E3 as [_ E3%Z.eqb_neq].
  assert (Hrs : 0 <= rs) by (apply Z.div_pos; lia).
  assert (Hcc : 0 <= (total - (reserved + fats * spf + rs)) / spc) by (apply Z.div_pos; lia).
  repeat (case_match; try discriminate); injection Hv as <-; cbn [reserved_sectors bytes_per_sector fat_count sectors_per_fat
    cluster_count total_sectors] in *; split; cbn [reserved_sectors bytes_per_sector fat_count sectors_per_fat
    cluster_count total_sectors]; try nia; try lia.
Qed.


(** A FAT12 volume of 20 sectors with a chain of two clusters. *)
Definition demo_fat : bytes :=
  let put o (l : list Z) b := splice b o (map byte.of_Z l) in
  put 11 [0; 2; 1; 1; 0; 2; 16; 0; 20; 0; 0xf8; 1; 0] (put 510 [0x55; 0xaa]
    (put 512 [0xf8; 0xff; 0xff; 0x03; 0xf0; 0xff] (put 1024 [0xf8; 0xff; 0xff; 0x03; 0xf0; 0xff] (zeros 10240)))).
Definition demo_fat_device : BlockDevice := mkDevice 1 "fs" (mkGeometry 10240 512 512 false false) true.
Definition demo_fat_host : Host := demo_host (mkFile Regular demo_fat []) [].

