(* ===== verification/ExFat.v ===== *)
(** exFAT volumes (include/fsx/exfat.hpp, src/fs/exfat.cpp). *)
From S2P Require Import Prelude Words Errors Endian Host Device Durable FsReport.
From Stdlib Require Import Ascii.
#[local] Open Scope Z_scope.

Definition is_exfat_name (b : bytes) : bool := (11 <=? zlen b) && is_text b 3 [69; 88; 70; 65; 84; 32; 32; 32].

(** [((sum << 31) | (sum >> 1)) + byte], on 32 bits. *)
Definition sum_step (sum : Z) (x : byte) : Z :=
  u32 (Z.lor (u32 (Z.shiftl sum 31)) (Z.shiftr sum 1) + byte.unsigned x).
(** The bytes of the boot region that may change. *)
Definition mutable_byte (i : Z) : bool := (i =? 106) || (i =? 107) || (i =? 112).
Fixpoint boot_sum (b : bytes) (i sum : Z) : Z :=
  match b with
  | [] => sum
  | x :: b => boot_sum b (i + 1) (if mutable_byte i then sum else sum_step sum x)
  end.
Definition boot_checksum (data : bytes) (sector_bytes : Z) : Z := boot_sum (slice data 0 (sector_bytes * 11)) 0 0.

Definition checksum_sector_matches (sector : bytes) (expected : Z) : bool :=
  (zlen sector mod 4 =? 0) && forallb (fun i => read_le32 sector (i * 4) =? expected) (seqZ 0 (zlen sector / 4)).

(** The characters of an entry's label, from the [i]th on. *)
Fixpoint label_from (n : nat) (entry : bytes) (i : Z) : string :=
  match n with
  | O => ""
  | S n =>
      let ch := read_le16 entry (2 + i * 2) in
      if ch =? 0 then "" else String (printable ch) (label_from n entry (i + 1))
  end.
Definition utf16_ascii_label (entry : bytes) : string :=
  if zlen entry <? 32 then "" else label_from (Z.to_nat (Z.min 15 (byte_at entry 1))) entry 0.

Definition read_boot_region (dev : BlockDevice) (sector_bytes first_sector : Z) : M bytes :=
  read_exact dev (first_sector * sector_bytes) (sector_bytes * 12).

(** What the first cluster of the root directory names. *)
Record RootEntries := mkRootEntries {
  re_label : string;
  re_bitmap : option (Z * Z);
  re_upcase : option (Z * Z * Z)
}.

Record Volume := mkVolume {
  partition_offset : Z;
  volume_length : Z;
  fat_offset : Z;
  fat_length : Z;
  cluster_heap_offset : Z;
  cluster_count : Z;
  root_dir_cluster : Z;
  serial : Z;
  revision : Z;
  flags : Z;
  bytes_per_sector : Z;
  sectors_per_cluster : Z;
  fat_count : Z;
  percent_in_use : Z;
  main_boot_checksum_ok : bool;
  backup_boot_checksum_ok : bool;
  boot_regions_match : bool;
  root_entries : RootEntries;
  root_fat_entry : Z
}.
Definition volume_bytes (v : Volume) : Z :=
  if (bytes_per_sector v =? 0) || (u64_max / bytes_per_sector v <? volume_length v) then u64_max
  else volume_length v * bytes_per_sector v.

Definition read_fat_entry (dev : BlockDevice) (v : Volume) (cluster : Z) : M Z :=
  if u32 (cluster_count v + 2) <=? cluster then failM corrupt "exFAT cluster index exceeds FAT range"
  else
    b ← read_exact dev (fat_offset v * bytes_per_sector v + cluster * 4) 4;
    mret (read_le32 b 0).

Definition upcase_checksum (data : bytes) : Z := foldl sum_step 0 data.

Definition cluster_size (v : Volume) : Z := bytes_per_sector v * sectors_per_cluster v.
(** The first byte of a cluster of the heap. *)
Definition cluster_offset (v : Volume) (c : Z) : Z :=
  (cluster_heap_offset v + u32 (c - 2) * sectors_per_cluster v) * bytes_per_sector v.

(** The loop of [read_chain]: [out] has been read, and [seen] are its clusters. *)
Fixpoint chain_loop (n : nat) (dev : BlockDevice) (v : Volume) (length : Z) (c : Z) (seen : list Z)
    (out : bytes) : M bytes :=
  if length <=? zlen out then mret out
  else
    match n with
    | O => fun h => (OutOfFuel, h)
    | S n =>
        if (c <? 2) || (u32 (cluster_count v + 2) <=? c)
        then failM corrupt "exFAT system stream cluster lies outside heap"
        else if bool_decide (c ∈ seen) then failM corrupt "exFAT system stream FAT chain contains a loop"
        else
          b ← read_exact dev (cluster_offset v c) (Z.min (cluster_size v) (length - zlen out));
          let out := out ++ b in
          if length <=? zlen out then mret out
          else
            next ← read_fat_entry dev v c;
            if 0xfffffff8 <=? next
            then failM corrupt "exFAT system stream FAT chain ended before advertised length"
            else if (next =? 0xfffffff7) || (next =? 0)
            then failM corrupt "exFAT system stream FAT chain contains invalid cluster"
            else chain_loop n dev v length next (seen ++ [c]) out
    end.
Definition read_chain (dev : BlockDevice) (v : Volume) (first length limit : Z) : M bytes :=
  if limit <? length then failM unsupported "exFAT system stream exceeds validation safety limit"
  else if cluster_size v =? 0 then failM unsupported "exFAT stream is too large for address space"
  else chain_loop (Z.to_nat (length / cluster_size v + 1)) dev v length first [] [].

(** The loop over the directory entries from [off] on. *)
Fixpoint scan_root (n : nat) (root : bytes) (off : Z) (e : RootEntries) : RootEntries :=
  match n with
  | O => e
  | S n =>
      let type := byte_at root off in
      if type =? 0 then e
      else
        scan_root n root (off + 32)
          (if type =? 0x83
           then mkRootEntries (utf16_ascii_label (slice root off 32)) (re_bitmap e) (re_upcase e)
           else if type =? 0x81
           then mkRootEntries (re_label e) (Some (read_le32 root (off + 20), read_le64 root (off + 24))) (re_upcase e)
           else if type =? 0x82
           then mkRootEntries (re_label e) (re_bitmap e)
                  (Some (read_le32 root (off + 20), read_le64 root (off + 24), read_le32 root (off + 4)))
           else e)
  end.

(** The fields of the boot sector, behind their checks. *)
Definition parse_boot (dev_bytes : Z) (f : bytes) : Result Volume :=
  let bps_shift := byte_at f 108 in
  let spc_shift := byte_at f 109 in
  if negb (is_exfat_name f) then fail unsupported "not an exFAT volume"
  else if negb (byte_at f 510 =? 0x55) || negb (byte_at f 511 =? 0xaa)
  then fail corrupt "exFAT boot signature is invalid"
  else if (bps_shift <? 9) || (12 <? bps_shift) || (25 <? spc_shift) || (25 <? bps_shift + spc_shift)
  then fail corrupt "exFAT sector/cluster shift is invalid"
  else
    let v := mkVolume (read_le64 f 64) (read_le64 f 72) (read_le32 f 80) (read_le32 f 84) (read_le32 f 88)
               (read_le32 f 92) (read_le32 f 96) (read_le32 f 100) (read_le16 f 104) (read_le16 f 106)
               (Z.shiftl 1 bps_shift) (Z.shiftl 1 spc_shift) (byte_at f 110) (byte_at f 112)
               false false false (mkRootEntries "" None None) 0 in
    if (volume_length v =? 0) || (fat_offset v <? 24) || (fat_length v =? 0)
       || (cluster_heap_offset v <=? fat_offset v) || (cluster_count v =? 0) || (0xfffffff5 <? cluster_count v)
       || (root_dir_cluster v <? 2) || (u32 (cluster_count v + 2) <=? root_dir_cluster v)
       || (fat_count v =? 0) || (2 <? fat_count v)
    then fail corrupt "exFAT geometry is invalid"
    else if (100 <? percent_in_use v) && negb (percent_in_use v =? 0xff)
    then fail corrupt "exFAT percent-in-use field is invalid"
    else if dev_bytes <? volume_bytes v then fail corrupt "exFAT volume is larger than containing device"
    else if cluster_heap_offset v <? fat_offset v + fat_length v * fat_count v
    then fail corrupt "exFAT FAT region overlaps cluster heap"
    else if fat_length v * bytes_per_sector v / 4 <? cluster_count v + 2
    then fail corrupt "exFAT FAT is too small for advertised cluster count"
    else if volume_length v <? cluster_heap_offset v + cluster_count v * sectors_per_cluster v
    then fail corrupt "exFAT cluster heap exceeds volume length"
    else Ok v.

(** Equal bytes, up to those that may change. *)
Fixpoint regions_match (a b : bytes) (i : Z) : bool :=
  match a, b with
  | x :: a, y :: b => (mutable_byte i || bool_decide (x = y)) && regions_match a b (i + 1)
  | _, _ => true
  end.

(** The volume with what is read behind its boot sector. *)
Definition with_regions (v : Volume) (main backup : bytes) (root : RootEntries) (root_fat : Z) : Volume :=
  let bps := bytes_per_sector v in
  let ok r := checksum_sector_matches (slice r (bps * 11) bps) (boot_checksum r bps) in
  mkVolume (partition_offset v) (volume_length v) (fat_offset v) (fat_length v) (cluster_heap_offset v)
    (cluster_count v) (root_dir_cluster v) (serial v) (revision v) (flags v) bps (sectors_per_cluster v)
    (fat_count v) (percent_in_use v) (ok main) (ok backup)
    (regions_match (slice main 0 (bps * 11)) (slice backup 0 (bps * 11)) 0) root root_fat.

Definition parse (dev : BlockDevice) : M Volume :=
  if size_bytes (geometry dev) <? 512 then failM unsupported "device is too small for exFAT"
  else
    f ← read_exact dev 0 512;
    v ← lift (parse_boot (size_bytes (geometry dev)) f);
    main ← read_boot_region dev (bytes_per_sector v) 0;
    backup ← read_boot_region dev (bytes_per_sector v) 12;
    root ← (if cluster_size v <=? 16 * 1024 * 1024
            then
              r ← attempt (read_exact dev (cluster_offset v (root_dir_cluster v)) (cluster_size v));
              mret (match r with
                    | Ok r => scan_root (Z.to_nat (zlen r / 32)) r 0 (root_entries v)
                    | Err _ => root_entries v end)
            else mret (root_entries v));
    root_fat ← attempt (read_fat_entry dev v (root_dir_cluster v));
    mret (with_regions v main backup root (match root_fat with Ok x => x | Err _ => 0 end)).

Definition probe (dev : BlockDevice) : M bool :=
  if size_bytes (geometry dev) <? 11 then mret false
  else b ← read_exact dev 0 11; mret (is_exfat_name b).
Definition read_volume (dev : BlockDevice) : M Volume := parse dev.

(** The cluster lies outside the heap. *)
Definition outside_heap (v : Volume) (c : Z) : bool := (c <? 2) || (u32 (cluster_count v + 2) <=? c).

Definition check_volume (v : Volume) : FsReport :=
  let r := err_if (negb (main_boot_checksum_ok v)) "main exFAT boot region checksum is invalid" no_findings in
  let r := err_if (negb (backup_boot_checksum_ok v)) "backup exFAT boot region checksum is invalid" r in
  let r := err_if (negb (boot_regions_match v)) "main and backup exFAT boot regions disagree" r in
  let r := warn_if (revision v <? 0x0100) "unusual exFAT filesystem revision" r in
  let r := err_if ((root_fat_entry v =? 0) || (root_fat_entry v =? 0xfffffff7))
             "exFAT root directory has an invalid FAT entry" r in
  match re_bitmap (root_entries v) with
  | None => warn "exFAT allocation bitmap entry was not found in the first root-directory cluster" r
  | Some (c, len) =>
      let need := (cluster_count v + 7) / 8 in
      let r := err_if (outside_heap v c) "exFAT allocation bitmap cluster lies outside heap" r in
      err_if (len <? need) "exFAT allocation bitmap is too short for cluster count" r
  end.

Definition UPCASE_LIMIT : Z := 16 * 1024 * 1024.
Definition check_upcase (dev : BlockDevice) (v : Volume) (r : FsReport) : M FsReport :=
  match re_upcase (root_entries v) with
  | None => mret (warn "exFAT upcase table entry was not found in the first root-directory cluster" r)
  | Some (c, len, sum) =>
      let r := err_if (outside_heap v c) "exFAT upcase table cluster lies outside heap" r in
      if len =? 0 then mret (err "exFAT upcase table length is zero" r)
      else if len <=? UPCASE_LIMIT
      then
        up ← attempt (read_chain dev v c len UPCASE_LIMIT);
        mret (match up with
              | Err e => err ("exFAT upcase table: " +:+ message e) r
              | Ok up => err_if (negb (upcase_checksum up =? sum)) "exFAT upcase table checksum is invalid" r
              end)
      else mret (warn "exFAT upcase table exceeds checksum-validation safety limit" r)
  end.
Definition check (dev : BlockDevice) : M FsReport :=
  v ← parse dev;
  r ← check_upcase dev v (check_volume v);
  mret (close_report r).

(** ** The chain of a stream *)

Record volume_sound (v : Volume) : Prop := {
  ev_fat : 0 <= fat_offset v;
  ev_heap : 0 <= cluster_heap_offset v;
  ev_sector : 1 <= bytes_per_sector v;
  ev_cluster : 1 <= sectors_per_cluster v;
  ev_count : 0 < cluster_count v <= 0xfffffff5;
  ev_root : 2 <= root_dir_cluster v
}.

Lemma shiftl_one k : 0 <= k -> 1 <= Z.shiftl 1 k.
Proof. intros Hk. rewrite Z.shiftl_mul_pow2 by done. pose proof (Z.pow_pos_nonneg 2 k). lia. Qed.

Lemma parse_boot_sound dev_bytes f v : parse_boot dev_bytes f = Ok v -> volume_sound v.
Proof.
  unfold parse_boot. cbv zeta. destruct (negb (is_exfat_name f)); [discriminate|].
  destruct (negb (byte_at f 510 =? 0x55) || _); [discriminate|].
  destruct (_ || _ || _ || (25 <? _)) eqn:Es; [discriminate|].
  set (v' := mkVolume _ _ _ _ _ _ _ _ _ _ _ _ _ _ _ _ _ _ _). destruct (_ || (2 <? fat_count v')) eqn:Eg; [discriminate|].
  destruct (_ && negb (percent_in_use v' =? 0xff)); [discriminate|]. destruct (dev_bytes <? _); [discriminate|].
  destruct (cluster_heap_offset v' <? _); [discriminate|]. destruct (_ / 4 <? _); [discriminate|].
  destruct (volume_length v' <? _); [discriminate|]. intros [= <-].
  repeat match goal with H : (_ || _) = false |- _ => apply orb_false_iff in H as [? ?] end.
  pose proof (byte_at_bound f 108). pose proof (byte_at_bound f 109).
  split; [apply (proj1 (read_le_bound 4 f 80))|apply (proj1 (read_le_bound 4 f 88))|by apply shiftl_one; lia|by apply shiftl_one; lia| |].
  2: by apply Z.ltb_ge.
  pose proof (proj1 (read_le_bound 4 f 92)). change (cluster_count v') with (read_le32 f 92) in *.
  repeat match goal with H : (_ =? _) = false |- _ => apply Z.eqb_neq in H | H : (_ <? _) = false |- _ => apply Z.ltb_ge in H end.
  lia.
Qed.

(** The bytes of a cluster and its entry in the table, in an image. *)
Definition cluster_at (img : bytes) (v : Volume) (c : Z) : bytes := slice img (cluster_offset v c) (cluster_size v).
Definition next_cluster (img : bytes) (v : Volume) (c : Z) : Z :=
  read_le32 (slice img (fat_offset v * bytes_per_sector v + c * 4) 4) 0.
Definition in_heap (v : Volume) (c : Z) : Prop := 2 <= c < cluster_count v + 2.

(** Each cluster of the list is the table's successor of the one before it. *)
Fixpoint linked (img : bytes) (v : Volume) (cs : list Z) : Prop :=
  match cs with
  | c1 :: t => match t with c2 :: _ => c2 = next_cluster img v c1 | [] => True end /\ linked img v t
  | [] => True
  end.
Lemma linked_snoc img v cs c d : linked img v (cs ++ [c]) -> d = next_cluster img v c -> linked img v (cs ++ [c] ++ [d]).
Proof.
  intros Hl Hd. induction cs as [|a cs IH]; [by cbn|]. cbn in Hl |- *. destruct Hl as [H1 H2].
  split; [by destruct cs|by apply IH].
Qed.

(** The stream of the clusters [cs]. *)
Definition stream_of (img : bytes) (v : Volume) (cs : list Z) : bytes := mjoin (map (cluster_at img v) cs).

Section Chain.
Context (d : BlockDevice) (img : bytes) (v : Volume) (Hv : volume_sound v).

Lemma cluster_limit : u32 (cluster_count v + 2) = cluster_count v + 2.
Proof. destruct Hv. apply wrap_id. unfold in_width. lia. Qed.
Lemma cluster_offset_nonneg c : 0 <= cluster_offset v c.
Proof.
  destruct Hv as [E1 E2 E3 E4 E5 _]. unfold cluster_offset. pose proof (wrap_width 32 (c - 2) ltac:(lia)) as [H _]. nia.
Qed.

(** What has been read behind the clusters [seen], before [c]. *)
Record chain_ok (first length c : Z) (seen : list Z) (out : bytes) : Prop := {
  co_first : head (seen ++ [c]) = Some first;
  co_nodup : NoDup seen;
  co_heap : Forall (in_heap v) seen;
  co_linked : linked img v (seen ++ [c]);
  co_out : out = stream_of img v seen;
  co_whole : zlen out = zlen seen * cluster_size v;
  co_more : zlen out < length
}.

(** The whole stream. *)
Definition chain_read (first length : Z) (cs : list Z) (out : bytes) : Prop :=
  head cs = Some first /\ NoDup cs /\ Forall (in_heap v) cs /\ linked img v cs /\ zlen out = length /\
  out = slice (stream_of img v cs) 0 length.

Lemma chain_loop_spec first length n c seen out h :
  wstate d img [] h -> 1 <= cluster_size v -> chain_ok first length c seen out ->
  length - zlen out <= Z.of_nat n * cluster_size v ->
  yields (chain_loop n d v length c seen out) h (fun r => exists cs, chain_read first length cs r).
Proof.
  intros Hw Hcs. revert c seen out h Hw. induction n as [|n IH]; intros c seen out h Hw Hok Hn;
    pose proof Hok as [C1 C2 C3 C4 C5 C6 C7]; cbn [chain_loop]; (destruct (Z.leb_spec length (zlen out)); [lia|]); [lia|].
  rewrite cluster_limit. destruct (_ || _) eqn:Eh; [apply yields_failM|].
  apply orb_false_iff in Eh as [Eh1%Z.ltb_ge Eh2%Z.leb_gt]. case_bool_decide as Hseen; [apply yields_failM|].
  set (m := Z.min (cluster_size v) (length - zlen out)).
  step Hw by (apply (yields_read d img []); [exact Hw|apply cluster_offset_nonneg|unfold m; lia]) as b Hb.
  destruct Hb as (-> & Hz & Hroom). cbn [put_all foldl] in *. cbv zeta. rewrite !zlen_app, Hz.
  assert (Hnd : NoDup (seen ++ [c])).
  { apply NoDup_app. split; [done|]. split; [|by apply NoDup_singleton]. by intros x Hx ->%list_elem_of_singleton. }
  assert (Hhp : Forall (in_heap v) (seen ++ [c])).
  { apply Forall_app. split; [done|]. apply Forall_singleton. split; lia. }
  assert (Hst : stream_of img v (seen ++ [c]) = out ++ cluster_at img v c).
  { unfold stream_of. rewrite map_app, join_app. cbn. rewrite app_nil_r. by rewrite C5. }
  destruct (Z.leb_spec length (zlen out + m)) as [Hend|Hmore].
  - apply yields_ret. exists (seen ++ [c]). split_and!; [done..| |].
    + rewrite zlen_app, Hz. unfold m in *. lia.
    + rewrite Hst. pose proof (zlen_nonneg out). replace length with (zlen out + m) by (unfold m in *; lia).
      rewrite slice_split by (unfold m; lia). rewrite slice_app_l by lia. f_equal.
      * symmetry. by apply slice_all.
      * rewrite slice_app_r by lia. replace (0 + zlen out - zlen out) with 0 by lia. unfold cluster_at.
        pose proof (cluster_offset_nonneg c). rewrite slice_slice by (unfold m; lia). by rewrite Z.add_0_r.
  - assert (Em : m = cluster_size v) by (unfold m in *; lia).
    eapply (yields_bind _ _ _ (fun next => next = next_cluster img v c)).
    { unfold read_fat_entry. rewrite cluster_limit. case_match; [apply yields_failM|]. destruct Hv as [E1 _ E3 _ _ _].
      step Hw by (apply (yields_read d img []); [exact Hw|nia|lia]) as b Hb. destruct Hb as (-> & _). by apply yields_ret. }
    intros next h' -> Hq. apply (wstate_quiet _ _ _ _ _ Hq) in Hw. case_match; [apply yields_failM|].
    case_match; [apply yields_failM|]. apply IH; [exact Hw| |].
    + split.
      * rewrite <-app_assoc. destruct seen; cbn in *; done.
      * done.
      * done.
      * rewrite <-app_assoc. by apply linked_snoc.
      * rewrite Hst, Em. done.
      * rewrite !zlen_app, Hz, Em, C6. change (zlen [c]) with 1. lia.
      * rewrite zlen_app, Hz. lia.
    + rewrite zlen_app, Hz. lia.
Qed.
End Chain.

(** C37: reading a stream along the table of an exFAT volume ends on every host
    and only reads, also when the table has a loop.  A stream that is returned
    has the asked length and is the content of a chain of distinct clusters of
    the heap that starts at the asked cluster and in which each cluster is the
    table's successor of the one before it. *)
Theorem exfat_stream_follows_table (d : BlockDevice) (img f : bytes) (v : Volume) (first length limit : Z) (h : Host)
    (Hv : parse_boot (size_bytes (geometry d)) f = Ok v) (Hl : 0 < length) (Hw : wstate d img [] h) :
  yields (read_chain d v first length limit) h (fun out => exists cs, chain_read img v first length cs out).
Proof.
  apply parse_boot_sound in Hv. unfold read_chain. case_match; [apply yields_failM|].
  destruct (Z.eqb_spec (cluster_size v) 0) as [|Hne]; [apply yields_failM|].
  assert (Hcs : 1 <= cluster_size v) by (destruct Hv; unfold cluster_size in *; nia).
  apply (chain_loop_spec d img v Hv); [exact Hw|done| |].
  - split; [done|apply NoDup_nil_2|by apply Forall_nil|done|done|done|done].
  - pose proof (Z.div_pos length (cluster_size v)). rewrite Z2Nat.id by lia.
    pose proof (Z.mul_succ_div_gt length (cluster_size v) ltac:(lia)). change (zlen []) with 0. lia.
Qed.

(** A volume of three clusters of 512 bytes; the table links cluster 2 to
    cluster 4. *)
Definition demo_exfat_boot : bytes :=
  let le n x := LittleEndianList.le_split n x in
  splice (splice (splice (zeros 512) 3 (le 8%nat 0x2020205441465845)) 510 (le 2%nat 0xaa55))
    72 (le 8%nat 28 ++ le 4%nat 24 ++ le 4%nat 1 ++ le 4%nat 25 ++ le 4%nat 3 ++ le 4%nat 2 ++ le 4%nat 7
        ++ le 2%nat 0x100 ++ le 2%nat 0 ++ le 1%nat 9 ++ le 1%nat 0 ++ le 1%nat 1 ++ le 1%nat 0x80 ++ le 1%nat 0xff).
Definition demo_exfat : bytes :=
  demo_exfat_boot ++ zeros (24 * 512 - 512)
  ++ (zeros 8 ++ LittleEndianList.le_split 4 4 ++ zeros 4 ++ LittleEndianList.le_split 4 0xffffffff ++ zeros 492)
  ++ repeat Byte.x61 512 ++ repeat Byte.x62 512 ++ repeat Byte.x63 512.
Definition demo_exfat_device : BlockDevice := mkDevice 1 "fs" (mkGeometry 14336 512 512 false false) true.
Definition demo_exfat_host : Host := demo_host (mkFile Regular demo_exfat []) [].
Lemma exfat_stream_follows_table_witness :
  exists v, parse_boot 14336 demo_exfat_boot = Ok v /\
    exists out, (read_chain demo_exfat_device v 2 600 4096 demo_exfat_host).1 = Ret out /\
      exists cs, chain_read demo_exfat v 2 600 cs out.
Proof.
  assert (Hw : wstate demo_exfat_device demo_exfat [] demo_exfat_host).
  { apply (wstate_start demo_exfat_device demo_exfat_host (mkFile Regular demo_exfat [])); [|done].
    split; [done|]. split; [by vm_compute|by apply Forall_nil]. }
  destruct (parse_boot 14336 demo_exfat_boot) as [v|e] eqn:Hv; [|exfalso; revert Hv; vm_compute; discriminate].
  exists v. split; [done|].
  pose proof (exfat_stream_follows_table demo_exfat_device demo_exfat demo_exfat_boot v 2 600 4096 demo_exfat_host
                Hv ltac:(lia) Hw) as (_ & _ & H).
  exists (repeat Byte.x61 512 ++ repeat Byte.x63 88).
  assert (E : (read_chain demo_exfat_device v 2 600 4096 demo_exfat_host).1
              = Ret (repeat Byte.x61 512 ++ repeat Byte.x63 88)).
  { vm_compute in Hv. injection Hv as <-. vm_compute. reflexivity. }
  split; [exact E|]. exact (H _ E).
Defined.
