(* ===== verification/Btrfs.v ===== *)
(** Btrfs superblocks and their mirrors (include/fsx/btrfs.hpp,
    src/fs/btrfs.cpp). *)
From S2P Require Import Prelude Words Errors Endian Crc Hash Xxhash Sha256 Blake2b Host Device Durable FsReport.
#[local] Open Scope Z_scope.

Inductive ChecksumType := crc32c | xxhash64 | sha256 | blake2b.
#[export] Instance ChecksumType_eq_dec : EqDecision ChecksumType.
Proof. solve_decision. Defined.

(** The value of the field on the disk; the code keeps a value above 3 in the
    enumeration and marks it unsupported. *)
Definition checksum_type_of (raw : Z) : option ChecksumType :=
  if raw =? 0 then Some crc32c else if raw =? 1 then Some xxhash64 else if raw =? 2 then Some sha256
  else if raw =? 3 then Some blake2b else None.

Record Superblock := mkSuperblock {
  mirror_offset : Z;
  fsid : bytes;
  metadata_uuid : bytes;
  bytenr : Z;
  flags : Z;
  generation : Z;
  root : Z;
  chunk_root : Z;
  log_root : Z;
  total_bytes : Z;
  bytes_used : Z;
  num_devices : Z;
  device_id : Z;
  device_total_bytes : Z;
  device_bytes_used : Z;
  sectorsize : Z;
  nodesize : Z;
  stripesize : Z;
  sys_chunk_array_size : Z;
  compat_flags : Z;
  compat_ro_flags : Z;
  incompat_flags : Z;
  checksum_type : option ChecksumType;
  root_level : Z;
  chunk_root_level : Z;
  log_root_level : Z;
  label : string;
  checksum_valid : bool
}.
(** [checksum_supported]. *)
Definition checksum_supported (s : Superblock) : bool := bool_decide (is_Some (checksum_type s)).

Definition MAGIC : Z := 0x4D5F53665248425F.
Definition MIRRORS : list Z := [64 * 1024; 64 * 1024 * 1024; 256 * 1024 * 1024 * 1024].
Definition SB_SIZE : Z := 4096.

Definition label_from (b : bytes) : string := text_until_null printable (slice b 299 (555 - 299)).
Definition checksum_bytes (t : ChecksumType) : Z :=
  match t with crc32c => 4 | xxhash64 => 8 | sha256 => 32 | blake2b => 32 end.
Definition checksum_name (t : option ChecksumType) : string :=
  match t with
  | Some crc32c => "crc32c"
  | Some xxhash64 => "xxhash64"
  | Some sha256 => "sha256"
  | Some blake2b => "blake2b-256"
  | None => "unknown"
  end.

Definition calculated_checksum (sb : bytes) (t : ChecksumType) : option bytes :=
  let body := drop 32 sb in
  match t with
  | crc32c => Some (LittleEndianList.le_split 4 (Z.lxor (Crc.crc32c body 0xffffffff) 0xffffffff) ++ zeros 28)
  | xxhash64 => v ← Hash.xxhash64 body 0; Some (LittleEndianList.le_split 8 v ++ zeros 24)
  | sha256 => Hash.sha256 body
  | blake2b => blake2b_256 body
  end.

(** The fields of a superblock, with the outcome of the checksum. *)
Definition superblock_fields (off : Z) (b : bytes) (valid : bool) : Superblock :=
  mkSuperblock off (slice b 32 16) (slice b 571 16) (read_le64 b 48) (read_le64 b 56) (read_le64 b 72)
    (read_le64 b 80) (read_le64 b 88) (read_le64 b 96) (read_le64 b 112) (read_le64 b 120) (read_le64 b 136)
    (read_le64 b 201) (read_le64 b 209) (read_le64 b 217) (read_le32 b 144) (read_le32 b 148) (read_le32 b 156)
    (read_le32 b 160) (read_le64 b 172) (read_le64 b 180) (read_le64 b 188) (checksum_type_of (read_le16 b 196))
    (byte_at b 198) (byte_at b 199) (byte_at b 200) (label_from b) valid.

(** The mirror lies outside the device. *)
Definition outside (dev : BlockDevice) (off : Z) : bool :=
  (size_bytes (geometry dev) <? off) || (size_bytes (geometry dev) - off <? SB_SIZE).

Definition parse (dev : BlockDevice) (off : Z) : M Superblock :=
  if outside dev off then failM not_found "Btrfs superblock mirror lies outside device"
  else
    b ← read_exact dev off SB_SIZE;
    if negb (read_le64 b 64 =? MAGIC) then failM unsupported "Btrfs magic is absent"
    else
      match checksum_type_of (read_le16 b 196) with
      | None => mret (superblock_fields off b false)
      | Some t =>
          match calculated_checksum b t with
          | None => fun h => (OutOfFuel, h)
          | Some calc =>
              let n := checksum_bytes t in
              mret (superblock_fields off b (bool_decide (slice calc 0 n = slice b 0 n)))
          end
      end.

Definition sane_geometry (dev : BlockDevice) (s : Superblock) : bool :=
  let size := size_bytes (geometry dev) in
  if negb (bytenr s =? mirror_offset s) || negb (pow2 (sectorsize s)) || (sectorsize s <? 4096)
     || (65536 <? sectorsize s) then false
  else if negb (pow2 (nodesize s)) || (nodesize s <? sectorsize s) || (65536 <? nodesize s) then false
  else if (stripesize s =? 0) || negb (pow2 (stripesize s)) || (total_bytes s =? 0)
     || (total_bytes s <? bytes_used s) || (num_devices s =? 0) then false
  else if (device_id s =? 0) || (device_total_bytes s =? 0) || (size <? device_total_bytes s)
     || (device_total_bytes s <? device_bytes_used s) then false
  else if (num_devices s =? 1) && (size <? total_bytes s) then false
  else if (8 <? root_level s) || (8 <? chunk_root_level s) || (8 <? log_root_level s)
     || (2048 <? sys_chunk_array_size s) then false
  else true.

Definition probe (dev : BlockDevice) : M bool :=
  if size_bytes (geometry dev) <? 64 * 1024 + SB_SIZE then mret false
  else b ← read_exact dev (64 * 1024 + 64) 8; mret (read_le64 b 0 =? MAGIC).

(** A mirror the loops over the mirrors skip. *)
Definition skipped (e : Error) : bool := bool_decide (code e = unsupported) || bool_decide (code e = not_found).

Fixpoint collect (dev : BlockDevice) (offs : list Z) (candidates : list Superblock) : M (list Superblock) :=
  match offs with
  | [] => mret candidates
  | off :: offs =>
      if outside dev off then collect dev offs candidates
      else
        s ← attempt (parse dev off);
        match s with
        | Err e => if skipped e then collect dev offs candidates else raise e
        | Ok s =>
            collect dev offs
              (if checksum_supported s && checksum_valid s && sane_geometry dev s then candidates ++ [s]
               else candidates)
        end
  end.

(** [std::max_element] by the generation: the first of the largest. *)
Definition max_generation (l : list Superblock) : option Superblock :=
  match l with
  | [] => None
  | s :: l => Some (foldl (fun best s => if generation best <? generation s then s else best) s l)
  end.

Definition read_best_superblock (dev : BlockDevice) : M Superblock :=
  candidates ← collect dev MIRRORS [];
  match max_generation candidates with
  | None => failM corrupt "no checksum-valid, geometrically sane Btrfs superblock mirror found"
  | Some s => mret s
  end.

Record CheckReport := mkCheckReport {
  findings : FsReport;
  mirrors_present : Z;
  mirrors_valid : Z;
  selected_generation : Z
}.

(** The loop of [check] over the mirrors: the report, [all] and [valid]. *)
Fixpoint scan_mirrors (dev : BlockDevice) (offs : list Z) (st : CheckReport * list Superblock * list Superblock)
    : M (CheckReport * list Superblock * list Superblock) :=
  match offs with
  | [] => mret st
  | off :: offs =>
      if outside dev off then scan_mirrors dev offs st
      else
        s ← attempt (parse dev off);
        match s with
        | Err e => if skipped e then scan_mirrors dev offs st else raise e
        | Ok s =>
            let '(r, all, valid) := st in
            let all := all ++ [s] in
            let present := mirrors_present r + 1 in
            let f := findings r in
            scan_mirrors dev offs
              (if negb (checksum_supported s)
               then (mkCheckReport (err "Btrfs superblock uses unsupported checksum type" f) present
                       (mirrors_valid r) (selected_generation r), all, valid)
               else if negb (checksum_valid s)
               then (mkCheckReport (err ("Btrfs superblock checksum is invalid at mirror offset " +:+ pretty off) f)
                       present (mirrors_valid r) (selected_generation r), all, valid)
               else (mkCheckReport f present (mirrors_valid r + 1) (selected_generation r), all, valid ++ [s]))
        end
  end.

(** The checks of the selected superblock. *)
Definition check_best (size : Z) (best : Superblock) (r : FsReport) : FsReport :=
  let r := err_if (negb (bytenr best =? mirror_offset best))
             "selected Btrfs superblock bytenr does not match mirror location" r in
  let r := err_if (negb (pow2 (sectorsize best)) || (sectorsize best <? 4096) || (65536 <? sectorsize best))
             "invalid Btrfs sector size" r in
  let r := err_if (negb (pow2 (nodesize best)) || (nodesize best <? sectorsize best) || (65536 <? nodesize best))
             "invalid Btrfs node size" r in
  let r := err_if ((stripesize best =? 0) || negb (pow2 (stripesize best))) "invalid Btrfs stripe size" r in
  let r := err_if (total_bytes best =? 0) "Btrfs total_bytes is zero" r in
  let r := err_if (total_bytes best <? bytes_used best) "Btrfs bytes_used exceeds total_bytes" r in
  let r := err_if (num_devices best =? 0) "Btrfs num_devices is zero" r in
  let r := err_if (device_id best =? 0) "Btrfs embedded device id is zero" r in
  let r := err_if ((device_total_bytes best =? 0) || (size <? device_total_bytes best))
             "Btrfs embedded device geometry exceeds containing device or is zero" r in
  let r := err_if (device_total_bytes best <? device_bytes_used best)
             "Btrfs embedded device bytes_used exceeds device total_bytes" r in
  let r := err_if ((num_devices best =? 1) && (size <? total_bytes best))
             "single-device Btrfs total_bytes exceeds containing device" r in
  let r := err_if ((8 <? root_level best) || (8 <? chunk_root_level best) || (8 <? log_root_level best))
             "Btrfs tree level is outside supported on-disk range" r in
  err_if (2048 <? sys_chunk_array_size best) "Btrfs system chunk array size is invalid" r.

(** The checks of one valid mirror against the selected superblock. *)
Definition check_mirror (best : Superblock) (r : FsReport) (s : Superblock) : FsReport :=
  let r := err_if (negb (bool_decide (fsid s = fsid best)))
             "checksum-valid Btrfs mirrors disagree on filesystem UUID" r in
  let r := err_if (negb (total_bytes s =? total_bytes best) || negb (sectorsize s =? sectorsize best)
                   || negb (nodesize s =? nodesize best))
             "checksum-valid Btrfs mirrors disagree on filesystem geometry" r in
  let r := err_if (negb (bytenr s =? mirror_offset s)) "Btrfs mirror bytenr does not match its physical offset" r in
  warn_if ((generation s <? generation best) && (1 <? generation best - generation s))
    "a Btrfs superblock mirror is more than one generation behind the newest mirror" r.

Definition check (dev : BlockDevice) : M CheckReport :=
  st ← scan_mirrors dev MIRRORS (mkCheckReport no_findings 0 0 0, [], []);
  let '(r, all, valid) := st in
  match all with
  | [] => failM unsupported "not a Btrfs filesystem"
  | _ =>
      match max_generation valid with
      | None =>
          mret (mkCheckReport (err "no checksum-valid Btrfs superblock mirrors remain" (findings r))
                  (mirrors_present r) (mirrors_valid r) (selected_generation r))
      | Some best =>
          let f := foldl (check_mirror best) (check_best (size_bytes (geometry dev)) best (findings r)) valid in
          let f := warn_if (mirrors_valid r <? mirrors_present r)
                     "one or more Btrfs superblock mirrors are unusable" f in
          mret (mkCheckReport (close_report f) (mirrors_present r) (mirrors_valid r) (generation best))
      end
  end.

(** ** The mirrors of an image *)

(** The stored checksum, padded as [calculated_checksum] pads it, with the
    reference definitions of the algorithms. *)
Definition reference_checksum (t : ChecksumType) (body : bytes) : bytes :=
  match t with
  | crc32c => LittleEndianList.le_split 4 (Z.lxor (crc_ref poly_castagnoli body 0xffffffff) 0xffffffff) ++ zeros 28
  | xxhash64 => LittleEndianList.le_split 8 (xxh64_reference body 0) ++ zeros 24
  | sha256 => sha256_reference body
  | blake2b => blake2b_reference body
  end.
(** The superblock carries the checksum of its bytes behind the checksum. *)
Definition sealed (b : bytes) : bool :=
  match checksum_type_of (read_le16 b 196) with
  | None => false
  | Some t => bool_decide (slice (reference_checksum t (drop 32 b)) 0 (checksum_bytes t) = slice b 0 (checksum_bytes t))
  end.

Lemma calculated_checksum_eq b t :
  zlen b = SB_SIZE -> calculated_checksum b t = Some (reference_checksum t (drop 32 b)).
Proof.
  intros Hz. assert (Hd : zlen (drop 32 b) = 4064) by (unfold zlen, SB_SIZE in *; rewrite length_drop; lia).
  destruct t; cbn [calculated_checksum reference_checksum].
  - by rewrite crc32c_ref.
  - by rewrite xxhash64_eq.
  - by apply sha256_eq; rewrite Hd.
  - by apply blake2b_eq; rewrite Hd.
Qed.

(** Among [l], [s] is the first of the newest. *)
Definition newest (s : Superblock) (l : list Superblock) : Prop :=
  exists pre post, l = pre ++ s :: post /\
    Forall (fun x => generation x < generation s) pre /\ Forall (fun x => generation x <= generation s) post.

Lemma max_generation_newest l s : max_generation l = Some s -> newest s l.
Proof.
  destruct l as [|s0 l]; [done|]. intros [= <-].
  assert (H : forall l best pre post,
    Forall (fun x => generation x < generation best) pre -> Forall (fun x => generation x <= generation best) post ->
    newest (foldl (fun best s => if generation best <? generation s then s else best) best l) (pre ++ best :: post ++ l)).
  { clear. induction l as [|x l IH]; intros best pre post Hpre Hpost; cbn [foldl].
    - rewrite app_nil_r. by exists pre, post.
    - destruct (Z.ltb_spec (generation best) (generation x)).
      + specialize (IH x (pre ++ best :: post) []). rewrite <-app_assoc in IH. apply IH; [|by apply Forall_nil].
        apply Forall_app. split; [|apply Forall_cons; split; [done|]].
        * eapply Forall_impl; [exact Hpre|]. cbn. lia.
        * eapply Forall_impl; [exact Hpost|]. cbn. lia.
      + specialize (IH best pre (post ++ [x])). rewrite <-app_assoc in IH. apply IH; [done|].
        apply Forall_app. split; [done|]. by apply Forall_singleton. }
  apply (H l s0 [] []); by apply Forall_nil.
Qed.
Lemma max_generation_none l : max_generation l = None -> l = [].
Proof. by destruct l. Qed.

Section Mirrors.
Context (d : BlockDevice) (img : bytes).

(** The superblock the mirror at [off] holds. *)
Definition mirror (off : Z) : option Superblock :=
  if outside d off then None
  else
    let b := slice img off SB_SIZE in
    if read_le64 b 64 =? MAGIC then Some (superblock_fields off b (sealed b)) else None.
Definition usable (s : Superblock) : bool := checksum_supported s && checksum_valid s && sane_geometry d s.
(** The mirrors that are present, and those of them that can be used. *)
Definition present : list Superblock := omap mirror MIRRORS.
Definition usable_mirrors : list Superblock := List.filter usable present.

Lemma parse_spec off h :
  wstate d img [] h -> off ∈ MIRRORS -> outside d off = false ->
  wp (parse d off) h (fun o h' => quiet h h' /\ o <> OutOfFuel /\ (forall s, o = Ret s -> mirror off = Some s) /\
    forall e, o = Fail e -> code e <> corrupt /\ (skipped e = true -> mirror off = None)).
Proof.
  intros Hw Hin Ho. unfold parse, mirror. rewrite Ho.
  assert (Hb : 0 <= off /\ off + SB_SIZE <= off_max).
  { unfold MIRRORS in Hin. rewrite !elem_of_cons in Hin. unfold SB_SIZE, off_max.
    destruct Hin as [-> | [-> | [-> | ?%not_elem_of_nil]]]; [lia..|done]. }
  destruct Hb as [Hb0 Hb1]. apply wp_bind. eapply wp_mono; [by apply (read_codes d img)|].
  intros o h1 (Hq & Hne & Hv & Hf). destruct o as [b|e|s|]; cbn [carry]; [|split_and!; try done|by split_and!|done].
  - destruct (Hv b eq_refl) as [-> Hz]. set (b := slice img off SB_SIZE) in *.
    destruct (read_le64 b 64 =? MAGIC); cbn [negb]; [|split_and!; try done; by intros e [= <-]].
    unfold sealed. destruct (checksum_type_of (read_le16 b 196)) as [t|];
      [rewrite calculated_checksum_eq by done|]; cbn; (split_and!; [done..|by intros s [= <-]|done]).
  - intros e' [= <-]. destruct (quiet_code_stops _ (Hf e eq_refl)) as (F1 & F2 & F3). split; [done|].
    unfold skipped. by rewrite !bool_decide_eq_false_2.
Qed.

(** What a reader returns, and that it reports damage only when [damaged]. *)
Definition reports {A} (m : M A) (h : Host) (P : A -> Prop) (damaged : Prop) : Prop :=
  wp m h (fun o h' => quiet h h' /\ o <> OutOfFuel /\ (forall a, o = Ret a -> P a) /\
    forall e, o = Fail e -> code e = corrupt -> damaged).

Lemma reports_ret {A} (a : A) h (P : A -> Prop) D : P a -> reports (mret a) h P D.
Proof. intros Ha. apply wp_ret. split_and!; [apply quiet_refl|done|by intros a' [= <-]|done]. Qed.
Lemma reports_raise {A} e h (P : A -> Prop) (D : Prop) : (code e = corrupt -> D) -> reports (raise e) h P D.
Proof. intros He. split_and!; [apply quiet_refl|done|done|by intros e' [= <-]]. Qed.
Lemma reports_bind {A B} (m : M A) (k : A -> M B) h (P : A -> Prop) (Q : B -> Prop) (D : Prop) :
  reports m h P D -> (forall a h1, quiet h h1 -> P a -> reports (k a) h1 Q D) -> reports (m ≫= k) h Q D.
Proof.
  unfold reports. intros Hm Hk. apply wp_bind. eapply wp_mono; [exact Hm|]. intros o h1 (Hq & Hne & Hv & He).
  destruct o as [a|e|s|]; cbn [carry]; [|split_and!; try done; intros e' [= <-]; by apply He|by split_and!|done].
  eapply wp_mono; [exact (Hk a h1 Hq (Hv a eq_refl))|]. intros o h2 (Hq2 & ?).
  split; [by eapply quiet_trans|done].
Qed.

(** What the loops over the mirrors share: one mirror inside the device. *)
Lemma attempt_parse off h D :
  wstate d img [] h -> off ∈ MIRRORS -> outside d off = false ->
  reports (attempt (parse d off)) h (fun r => match r with
    | Ok s => mirror off = Some s
    | Err e => code e <> corrupt /\ (skipped e = true -> mirror off = None) end) D.
Proof.
  intros Hw Hin Ho. apply wp_attempt. eapply wp_mono; [by apply parse_spec|].
  intros o h' (Hq & Hne & Hv & He). destruct o as [s|e|s|]; split_and!; try done; intros r [= <-]; auto.
Qed.
Lemma omap_mirror off offs :
  omap mirror (off :: offs) = match mirror off with Some s => s :: omap mirror offs | None => omap mirror offs end.
Proof. done. Qed.

Lemma collect_usable offs cs h D :
  wstate d img [] h -> offs ⊆ MIRRORS ->
  reports (collect d offs cs) h (fun l => l = cs ++ List.filter usable (omap mirror offs)) D.
Proof.
  revert cs h. induction offs as [|off offs IH]; intros cs h Hw Hin; cbn [collect].
  - apply reports_ret. cbn. by rewrite app_nil_r.
  - assert (Hoff : off ∈ MIRRORS) by (apply Hin, elem_of_cons; by left).
    assert (Hoffs : offs ⊆ MIRRORS) by (intros x Hx; apply Hin, elem_of_cons; by right). rewrite omap_mirror.
    destruct (outside d off) eqn:Ho; [unfold mirror at 1; rewrite Ho; by apply IH|].
    eapply reports_bind; [by apply attempt_parse|]. cbv beta. intros r h1 Hq Hr.
    apply (wstate_quiet _ _ _ _ _ Hq) in Hw. destruct r as [s|e].
    + rewrite Hr. cbn [List.filter]. unfold usable at 1. destruct (_ && _); [|by apply IH].
      specialize (IH (cs ++ [s]) h1 Hw Hoffs). by rewrite <-app_assoc in IH.
    + destruct Hr as [Hc Hs]. destruct (skipped e); [rewrite Hs by done; by apply IH|by apply reports_raise].
Qed.

(** A mirror with a known algorithm and the right checksum. *)
Definition valid (s : Superblock) : bool := checksum_supported s && checksum_valid s.
Definition valid_mirrors : list Superblock := List.filter valid present.

(** What [scan_mirrors] keeps, behind the mirrors [seen]. *)
Definition scanned (seen : list Superblock) (st : CheckReport * list Superblock * list Superblock) : Prop :=
  st.1.2 = seen /\ st.2 = List.filter valid seen /\
  mirrors_present st.1.1 = zlen seen /\ mirrors_valid st.1.1 = zlen (List.filter valid seen) /\
  (fs_errors (findings st.1.1) = [] <-> Forall (fun s => valid s = true) seen).

Lemma scan_mirrors_spec offs seen st h :
  wstate d img [] h -> offs ⊆ MIRRORS -> scanned seen st ->
  reports (scan_mirrors d offs st) h (scanned (seen ++ omap mirror offs)) False.
Proof.
  revert seen st h. induction offs as [|off offs IH]; intros seen st h Hw Hin Hst; cbn [scan_mirrors].
  - apply reports_ret. cbn. by rewrite app_nil_r.
  - assert (Hoff : off ∈ MIRRORS) by (apply Hin, elem_of_cons; by left).
    assert (Hoffs : offs ⊆ MIRRORS) by (intros x Hx; apply Hin, elem_of_cons; by right). rewrite omap_mirror.
    destruct (outside d off) eqn:Ho; [unfold mirror at 1; rewrite Ho; by apply IH|].
    eapply reports_bind; [by apply attempt_parse|]. cbv beta. intros r h1 Hq Hr.
    apply (wstate_quiet _ _ _ _ _ Hq) in Hw. destruct r as [s|e].
    + rewrite Hr, (cons_middle s), app_assoc. destruct st as [[r all] val].
      destruct Hst as (E1 & E2 & E3 & E4 & E5). cbn [fst snd] in *. apply IH; [done..|]. unfold scanned.
      assert (E6 : forall P : Prop, (P <-> valid s = true /\ fs_errors (findings r) = []) ->
        P <-> Forall (fun s => valid s = true) (seen ++ [s])).
      { intros P HP. rewrite HP, E5, Forall_app, Forall_singleton. tauto. }
      rewrite List.filter_app. cbn [List.filter]. unfold valid in *.
      destruct (checksum_supported s); cbn [andb negb] in *;
        [destruct (checksum_valid s); cbn [andb negb] in *|]; cbn [fst snd mirrors_present mirrors_valid findings];
        rewrite ?app_nil_r, ?zlen_app; change (zlen [s]) with 1;
        (split_and!; [by rewrite E1|by rewrite E2|lia|lia|]); apply E6;
        [tauto|split; [by intros E%err_errors|by intros [? _]]..].
    + destruct Hr as [Hc Hs]. destruct (skipped e); [rewrite Hs by done; by apply IH|by apply reports_raise].
Qed.

(** The report of the selected superblock finds what [sane_geometry] refuses. *)
Lemma check_best_sane s r :
  fs_errors (check_best (size_bytes (geometry d)) s r) = [] <-> fs_errors r = [] /\ sane_geometry d s = true.
Proof.
  assert (Hif : forall c x : bool, (if c then false else x) = true <-> c = false /\ x = true)
    by (intros [] []; naive_solver).
  unfold check_best, sane_geometry. cbv zeta. rewrite !err_if_errors, !Hif, !orb_false_iff.
  split; [intros H; destruct_and!; by split_and!|intros [? H]; destruct_and!; by split_and!].
Qed.

(** The mirror agrees with the selected superblock. *)
Definition agrees (best s : Superblock) : Prop :=
  fsid s = fsid best /\ total_bytes s = total_bytes best /\ sectorsize s = sectorsize best /\
  nodesize s = nodesize best /\ bytenr s = mirror_offset s.

Lemma check_mirror_agrees best l r :
  fs_errors (foldl (check_mirror best) r l) = [] <-> fs_errors r = [] /\ Forall (agrees best) l.
Proof.
  revert r. induction l as [|s l IH]; intros r; cbn [foldl]; [rewrite Forall_nil; tauto|].
  rewrite IH, Forall_cons. unfold check_mirror. cbv zeta. rewrite warn_if_errors, !err_if_errors. unfold agrees.
  rewrite !orb_false_iff, !negb_false_iff, bool_decide_eq_true, !Z.eqb_eq. tauto.
Qed.
End Mirrors.

Lemma reports_best (d : BlockDevice) (img : bytes) (h : Host) (Hw : wstate d img [] h) :
  reports (read_best_superblock d) h (fun s => newest s (usable_mirrors d img)) (usable_mirrors d img = []).
Proof.
  eapply reports_bind; [by apply (collect_usable d img MIRRORS [])|]. cbv beta. intros l h1 _ ->.
  change ([] ++ ?x) with x. fold (present d img) (usable_mirrors d img).
  destruct (max_generation _) as [s|] eqn:Em; [by apply reports_ret, max_generation_newest|].
  apply reports_raise. intros _. by apply max_generation_none.
Qed.

(** C38: reading the best superblock of a Btrfs file system ends on every host
    and only reads.  The superblock that is returned is the first of the newest
    mirrors that lie inside the device, carry the magic number and the checksum
    of their bytes, as the reference definition of their algorithm computes it,
    and have a sane geometry; the function reports damage only when there is no
    such mirror. *)
Theorem btrfs_best_superblock (d : BlockDevice) (img : bytes) (h : Host) (Hw : wstate d img [] h) :
  reports (read_best_superblock d) h (fun s => newest s (usable_mirrors d img)) (usable_mirrors d img = []).
Proof. by apply reports_best. Qed.

(** C39: checking a Btrfs file system ends on every host and only reads.  A
    report counts the mirrors that are present and those that carry the checksum
    of their bytes, and selects the first of the newest of these; it is clean
    exactly when every mirror that is present has its checksum, the selected one
    has a geometry [read_best_superblock] accepts, and all agree with it on the
    UUID and the sizes and lie where they say. *)
Theorem btrfs_check_exact (d : BlockDevice) (img : bytes) (h : Host) (Hw : wstate d img [] h) :
  reports (check d) h (fun r =>
    mirrors_present r = zlen (present d img) /\ mirrors_valid r = zlen (valid_mirrors d img) /\
    (valid_mirrors d img = [] /\ fs_clean (findings r) = false \/
     exists best, newest best (valid_mirrors d img) /\ selected_generation r = generation best /\
       (fs_clean (findings r) = true <->
          Forall (fun s => valid s = true) (present d img) /\ sane_geometry d best = true /\
          Forall (agrees best) (valid_mirrors d img)))) False.
Proof.
  eapply reports_bind; [by apply (scan_mirrors_spec d img MIRRORS [])|]. intros [[r all] val] h1 _ Hs.
  change ([] ++ ?x) with x in Hs. fold (present d img) in Hs. destruct Hs as (E1 & E2 & E3 & E4 & E5).
  cbn [fst snd] in *. destruct all as [|s0 all]; [by apply reports_raise|]. fold (valid_mirrors d img) in E2, E4.
  rewrite E2. destruct (max_generation _) as [best|] eqn:Em; apply reports_ret; (split_and!; [done..|]).
  - right. exists best. split_and!; [by apply max_generation_newest|done|]. cbn [findings]. rewrite close_clean.
    rewrite warn_if_errors, check_mirror_agrees, check_best_sane, E5. tauto.
  - left. by apply max_generation_none in Em.
Qed.

(** A device of 17 blocks of 4 KiB with the first mirror only. *)
Definition demo_btrfs_super : bytes :=
  let put w o v b := write_le w b o v in
  let sb := put 8%nat 48 65536 (put 8%nat 64 MAGIC (put 8%nat 72 7 (put 8%nat 112 69632 (put 8%nat 136 1
    (put 4%nat 144 4096 (put 4%nat 148 4096 (put 4%nat 156 4096 (put 8%nat 201 1 (put 8%nat 209 69632
      (zeros 4096)))))))))) in
  splice sb 0 (LittleEndianList.le_split 4 (crc32c_sum (drop 32 sb))).
Definition demo_btrfs : bytes := zeros 65536 ++ demo_btrfs_super.
Definition demo_btrfs_device : BlockDevice := mkDevice 1 "fs" (mkGeometry 69632 512 512 false false) true.
Definition demo_btrfs_host : Host := demo_host (mkFile Regular demo_btrfs []) [].
Lemma demo_btrfs_state : wstate demo_btrfs_device demo_btrfs [] demo_btrfs_host.
Proof.
  apply (wstate_start demo_btrfs_device demo_btrfs_host (mkFile Regular demo_btrfs [])); [|done].
  split; [done|]. split; [by vm_compute|by apply Forall_nil].
Qed.

Lemma btrfs_best_superblock_witness :
  exists s, (read_best_superblock demo_btrfs_device demo_btrfs_host).1 = Ret s /\ generation s = 7 /\
    newest s (usable_mirrors demo_btrfs_device demo_btrfs).
Proof.
  pose proof (btrfs_best_superblock demo_btrfs_device demo_btrfs demo_btrfs_host demo_btrfs_state) as (_ & _ & H & _).
  assert (E : (read_best_superblock demo_btrfs_device demo_btrfs_host).1
              = Ret (superblock_fields 65536 demo_btrfs_super true)) by (vm_compute; reflexivity).
  exists (superblock_fields 65536 demo_btrfs_super true). split; [exact E|]. split; [by vm_compute|]. exact (H _ E).
Defined.
Lemma btrfs_check_exact_witness :
  exists r, (check demo_btrfs_device demo_btrfs_host).1 = Ret r /\ fs_clean (findings r) = true /\
    mirrors_valid r = 1 /\ Forall (fun s => valid s = true) (present demo_btrfs_device demo_btrfs).
Proof.
  pose proof (btrfs_check_exact demo_btrfs_device demo_btrfs demo_btrfs_host demo_btrfs_state) as (_ & _ & H & _).
  assert (E : (check demo_btrfs_device demo_btrfs_host).1 = Ret (mkCheckReport (mkFsReport true [] []) 1 1 7))
    by (vm_compute; reflexivity).
  exists (mkCheckReport (mkFsReport true [] []) 1 1 7). split; [exact E|]. split; [done|]. split; [done|].
  destruct (H _ E) as (_ & _ & [[_ Hc] | (best & _ & _ & Hc)]); [discriminate|]. exact (proj1 (proj1 Hc eq_refl)).
Defined.
