(* ===== verification/Probe.v ===== *)
(** Which file system a device holds (include/fsx/probe.hpp,
    src/fs/probe.cpp). *)
From S2P Require Import Prelude Words Errors Endian Host Device Durable Ext4 FsReport.
From S2P Require Import Iso9660 Ufs Xfs Ntfs Fat ExFat Btrfs.
#[local] Open Scope Z_scope.

Inductive FilesystemKind := unknown | ext | fat12 | fat16 | fat32 | exfat | ufs1 | ufs2 | xfs | btrfs | ntfs | iso9660.
#[export] Instance FilesystemKind_eq_dec : EqDecision FilesystemKind.
Proof. solve_decision. Defined.

Record FilesystemProbe := mkProbe {
  p_kind : FilesystemKind;
  p_name : string;
  p_label : string;
  p_uuid : string;
  p_size_bytes : Z;
  p_block_size : Z;
  p_confident : bool;
  p_notes : list string
}.
Definition unknown_probe : FilesystemProbe := mkProbe unknown "unknown" "" "" 0 0 false [].

Definition filesystem_kind_name (k : FilesystemKind) : string :=
  match k with
  | ext => "ext2/3/4"
  | fat12 => "FAT12"
  | fat16 => "FAT16"
  | fat32 => "FAT32"
  | exfat => "exFAT"
  | ufs1 => "UFS1/FFS1"
  | ufs2 => "UFS2/FFS2"
  | xfs => "XFS"
  | btrfs => "Btrfs"
  | ntfs => "NTFS"
  | iso9660 => "ISO9660"
  | unknown => "unknown"
  end.

(** [bytes_equal], the text as its character codes. *)
Definition bytes_equal (b : bytes) (off : Z) (s : list Z) : bool :=
  if (zlen b <? off) || (zlen b - off <? zlen s) then false else is_text b off s.

Definition read_at_most (dev : BlockDevice) (off wanted : Z) : M bytes :=
  let size := size_bytes (geometry dev) in
  if size <=? off then mret []
  else
    let n := Z.min (size - off) wanted in
    if n =? 0 then mret [] else read_exact dev off n.

Definition probe_exfat (dev : BlockDevice) : M FilesystemProbe :=
  v ← ExFat.read_volume dev;
  let main := main_boot_checksum_ok v in
  let backup := backup_boot_checksum_ok v in
  mret (mkProbe exfat "exFAT" (re_label (root_entries v)) "" (ExFat.volume_bytes v)
          (ExFat.bytes_per_sector v * ExFat.sectors_per_cluster v) (main || backup)
          ((if main then [] else ["main boot checksum failed"])
           ++ (if backup then [] else ["backup boot checksum failed"]))).
Definition probe_ext (dev : BlockDevice) : M FilesystemProbe :=
  s ← Ext4.read_superblock dev;
  mret (mkProbe ext "ext2/3/4" (volume_name s) (Ext4.uuid s) (sb_size_bytes s) (u32 (Ext4.block_size s)) true []).

Definition fat_probe_kind (k : Fat.Kind) : FilesystemKind :=
  match k with Fat.fat12 => fat12 | Fat.fat16 => fat16 | Fat.fat32 => fat32 end.
Definition probe_fat (dev : BlockDevice) : M FilesystemProbe :=
  v ← Fat.read_volume dev;
  mret (mkProbe (fat_probe_kind (Fat.kind v)) (Fat.kind_name (Fat.kind v)) (Fat.label v) "" (Fat.volume_bytes v)
          (Fat.cluster_bytes v) true []).

Definition xfs_sane (size : Z) (x : Xfs.Superblock) : bool :=
  pow2 (Xfs.block_size x) && (512 <=? Xfs.block_size x) && (Xfs.block_size x <=? 65536)
  && pow2 (sector_size x) && (512 <=? sector_size x) && (sector_size x <=? Xfs.block_size x)
  && negb (data_blocks x =? 0) && negb (sb_bytes x =? u64_max) && (sb_bytes x <=? size)
  && negb (ag_blocks x =? 0) && negb (ag_count x =? 0).
Definition probe_xfs (dev : BlockDevice) : M FilesystemProbe :=
  x ← Xfs.read_superblock dev;
  let sane := xfs_sane (size_bytes (geometry dev)) x in
  mret (mkProbe xfs "XFS" (Xfs.label x) (FsReport.uuid_string (Xfs.uuid x)) (sb_bytes x) (Xfs.block_size x) sane
          (if sane then [] else ["XFS primary superblock geometry is inconsistent"])).

Definition ntfs_sane (size : Z) (n : BootSector) : bool :=
  pow2 (Ntfs.bytes_per_sector n) && (256 <=? Ntfs.bytes_per_sector n) && (Ntfs.bytes_per_sector n <=? 4096)
  && pow2 (Ntfs.sectors_per_cluster n) && (Ntfs.sectors_per_cluster n <=? 128) && negb (Ntfs.total_sectors n =? 0)
  && negb (Ntfs.volume_bytes n =? u64_max) && (Ntfs.volume_bytes n <=? size) && negb (Ntfs.cluster_bytes n =? 0).
Definition probe_ntfs (dev : BlockDevice) : M FilesystemProbe :=
  n ← read_boot_sector dev;
  let sane := ntfs_sane (size_bytes (geometry dev)) n in
  mret (mkProbe ntfs "NTFS" "" "" (Ntfs.volume_bytes n) (u32 (Ntfs.cluster_bytes n)) sane
          (if sane then [] else ["NTFS boot geometry is inconsistent"])).

Definition probe_btrfs (dev : BlockDevice) : M FilesystemProbe :=
  bs ← attempt (read_best_superblock dev);
  mret (match bs with
        | Ok s => mkProbe btrfs "Btrfs" (Btrfs.label s) (FsReport.uuid_string (fsid s)) (total_bytes s) (sectorsize s) true []
        | Err e => mkProbe btrfs "Btrfs" "" "" 0 0 false [message e]
        end).
Definition probe_iso (dev : BlockDevice) : M FilesystemProbe :=
  iv ← attempt (read_primary dev);
  mret (match iv with
        | Ok v => mkProbe iso9660 "ISO9660" (volume_id v) "" (volume_blocks v * logical_block_size v)
                    (logical_block_size v) true []
        | Err e => mkProbe iso9660 "ISO9660" "" "" 0 0 false [message e]
        end).

Definition ufs_probe_kind (v : Ufs.Version) : FilesystemKind := match v with Ufs.ufs2 => ufs2 | Ufs.ufs1 => ufs1 end.
Definition probe_ufs (dev : BlockDevice) : M FilesystemProbe :=
  s ← Ufs.read_superblock dev;
  mret (mkProbe (ufs_probe_kind (Ufs.version s)) (version_name (Ufs.version s)) "" ""
          (if bool_decide (Ufs.version s = Ufs.ufs1) && negb (old_size_fragments s =? 0) && negb (fragment_size s =? 0)
           then old_size_fragments s * fragment_size s else 0)
          (Ufs.block_size s) true []).

(** [auto x = probe(dev); if (!x) return x.error(); if (x.value()) return answer;]. *)
Definition when_probed (probe : M bool) (answer k : M FilesystemProbe) : M FilesystemProbe :=
  x ← probe; if (x : bool) then answer else k.
(** The same behind a test of the device's size. *)
Definition when_room (room : bool) (probe : M bool) (answer k : M FilesystemProbe) : M FilesystemProbe :=
  if room then when_probed probe answer k else k.

Definition XFS_MAGIC : list Z := [88; 70; 83; 66].
Definition NTFS_NAME : list Z := [78; 84; 70; 83; 32; 32; 32; 32].
(** The tests behind those of exFAT, ext and FAT. *)
Definition probe_late (dev : BlockDevice) : M FilesystemProbe :=
  b ← read_at_most dev 0 4096;
  if bytes_equal b 0 XFS_MAGIC then probe_xfs dev
  else if bytes_equal b 3 NTFS_NAME then probe_ntfs dev
  else
    when_probed (Btrfs.probe dev) (probe_btrfs dev)
      (when_probed (Iso9660.probe dev) (probe_iso dev)
        (when_probed (Ufs.probe dev) (probe_ufs dev) (mret unknown_probe))).
Definition probe_filesystem (dev : BlockDevice) : M FilesystemProbe :=
  let size := size_bytes (geometry dev) in
  when_room (11 <=? size) (ExFat.probe dev) (probe_exfat dev)
    (when_room (1082 <=? size) (Ext4.probe dev) (probe_ext dev)
      (when_room (512 <=? size) (Fat.probe dev) (probe_fat dev) (probe_late dev))).

(** ** The signature an image carries *)

Section Signature.
Context (d : BlockDevice) (img : bytes).

(** The first kind, in the order of the tests, whose mark the image carries:
    names and magic numbers, and for FAT a boot sector with sound fields. *)
Definition late_signature : FilesystemKind :=
  let size := size_bytes (geometry d) in
  let first := slice img 0 (Z.min size 4096) in
  if bytes_equal first 0 XFS_MAGIC then xfs
  else if bytes_equal first 3 NTFS_NAME then ntfs
  else if (69632 <=? size) && (read_le64 (slice img 65600 8) 0 =? MAGIC) then btrfs
  else if (34816 <=? size) && id_ok (slice img 32768 2048) then iso9660
  else match first_superblock d img SEARCH with Some s => ufs_probe_kind (Ufs.version s) | None => unknown end.
Definition signature : FilesystemKind :=
  let size := size_bytes (geometry d) in
  if (11 <=? size) && is_exfat_name (slice img 0 11) then exfat
  else if (1082 <=? size) && (read_le16 (slice img 1080 2) 0 =? EXT4_MAGIC) then ext
  else
    match (if 512 <=? size then parse_volume size (slice img 0 512) else fail unsupported "") with
    | Ok v => fat_probe_kind (Fat.kind v)
    | Err _ => late_signature
    end.

(** The kinds whose probe compares the size with the device. *)
Definition size_checked (k : FilesystemKind) : bool :=
  match k with exfat | ext | fat12 | fat16 | fat32 | xfs | ntfs => true | _ => false end.
Definition answers (k : FilesystemKind) (p : FilesystemProbe) : Prop :=
  p_kind p = k /\ (p_confident p = true -> size_checked (p_kind p) = true -> p_size_bytes p <= size_bytes (geometry d)).

(** One test of the chain. *)
Lemma yields_when_probed probe answer k h (mark : bool) K K' :
  wstate d img [] h -> yields probe h (fun b => b = mark) ->
  (forall h', wstate d img [] h' -> mark = true -> yields answer h' (answers K)) ->
  (forall h', wstate d img [] h' -> mark = false -> yields k h' (answers K')) ->
  yields (when_probed probe answer k) h (answers (if mark then K else K')).
Proof.
  intros Hw Hp Ha Hk. eapply yields_bind; [exact Hp|]. cbv beta. intros b h' -> Hq.
  apply (wstate_quiet _ _ _ _ _ Hq) in Hw. destruct mark; auto.
Qed.
Lemma yields_when_room room probe answer k h (mark : bool) K K' :
  wstate d img [] h -> (room = true -> yields probe h (fun b => b = mark)) ->
  (forall h', wstate d img [] h' -> room = true -> yields answer h' (answers K)) ->
  (forall h', wstate d img [] h' -> yields k h' (answers K')) ->
  yields (when_room room probe answer k) h (answers (if room && mark then K else K')).
Proof.
  intros Hw Hp Ha Hk. unfold when_room. destruct room; [|by apply Hk]. apply yields_when_probed; auto.
Qed.

(** A confident answer of these kinds comes from fields that were checked. *)
Lemma exfat_answers h : wstate d img [] h -> yields (probe_exfat d) h (answers exfat).
Proof.
  intros Hw. unfold probe_exfat, ExFat.read_volume, ExFat.parse.
  eapply (yields_bind _ _ _ (fun v => ExFat.volume_bytes v <= size_bytes (geometry d))); [|intros v h' Hv _; by apply yields_ret].
  case_match; [apply yields_failM|]. step Hw by (apply (yields_read d img []); [exact Hw|done|done]) as f Hf.
  clear Hf. eapply (yields_bind _ _ _ (fun v => ExFat.volume_sound v /\ ExFat.volume_bytes v <= size_bytes (geometry d))).
  { apply yields_lift. intros v Hv. split; [by eapply parse_boot_sound|]. revert Hv. unfold parse_boot. cbv zeta.
    repeat (match goal with |- (if ?c then _ else _) = _ -> _ => destruct c eqn:?E end; [discriminate|]).
    intros [= <-].
    repeat match goal with H : (_ <? _) = false |- _ => apply Z.ltb_ge in H end. done. }
  cbv beta. intros v h1 [Hs Hv] Hq. apply (wstate_quiet _ _ _ _ _ Hq) in Hw.
  assert (Hsec : 1 <= ExFat.bytes_per_sector v) by apply Hs. assert (Hcl : 1 <= ExFat.cluster_size v).
  { unfold ExFat.cluster_size. destruct Hs. nia. }
  unfold read_boot_region.
  step Hw by (apply (yields_read d img []); [exact Hw|lia|lia]) as main Hm.
  step Hw by (apply (yields_read d img []); [exact Hw|lia|lia]) as back Hb.
  eapply yields_bind; [|cbv beta; intros root hr _ Hq2; apply (wstate_quiet _ _ _ _ _ Hq2) in Hw;
    eapply (yields_bind _ _ _ (fun _ => True)); [|intros r hs _ _; by apply yields_ret]].
  - apply (yields_reader d img [] _ _ (fun _ => True)); [exact Hw| |done].
    pose proof (cluster_offset_nonneg v Hs (root_dir_cluster v)). case_match; [|apply reader_ret].
    apply reader_bind; [apply reader_attempt, reader_read; lia|]. intros r. apply reader_ret.
  - apply (yields_reader d img [] _ _ (fun _ => True)); [exact Hw| |done]. apply reader_attempt. unfold read_fat_entry.
    case_match; [apply reader_failM|]. apply reader_bind; [|intros b; apply reader_ret]. apply reader_read; [|lia].
    destruct Hs. nia.
Qed.

Lemma size_fits s :
  Ext4.check_superblock s (size_bytes (geometry d)) = Ok tt -> (exists b, s = Ext4.superblock_fields b) ->
  0 < size_bytes (geometry d) -> sb_size_bytes s <= size_bytes (geometry d).
Proof.
  intros Hc [b ->] Hd. destruct (superblock_fields_width b) as (W1 & W2 & W3 & W4 & W5 & W6 & W7).
  destruct (check_superblock_geometry _ _ W1 W2 W3 W4 W5 W6 W7 Hc) as [[G1 _ _ _ _ _ _] Hfit].
  destruct (block_size_cases _ G1) as [_ Hbs]. set (s := Ext4.superblock_fields b) in *. specialize (Hfit ltac:(lia)).
  pose proof (Z.mul_div_le (size_bytes (geometry d)) (Ext4.block_size s) ltac:(lia)). unfold sb_size_bytes.
  cbv zeta. rewrite (proj2 (Z.eqb_neq _ _)) by lia. cbn [orb].
  destruct (Z.ltb_spec (u64_max / Ext4.block_size s) (blocks_count s)); [|nia].
  pose proof (Z.mul_succ_div_gt u64_max (Ext4.block_size s) ltac:(lia)). nia.
Qed.
Lemma ext_answers h : 0 < size_bytes (geometry d) -> wstate d img [] h -> yields (probe_ext d) h (answers ext).
Proof.
  intros Hd Hw. eapply yields_bind; [unfold yields; by apply (read_superblock_spec d img [])|].
  cbv beta. intros s h1 (Hs & Hc & _) _. apply yields_ret. split; [done|]. intros _ _. cbn [p_size_bytes].
  apply size_fits; [done|by eexists|done].
Qed.

Lemma yields_volume h : wstate d img [] h ->
  yields (Fat.read_volume d) h (fun v => parse_volume (size_bytes (geometry d)) (slice img 0 512) = Ok v).
Proof.
  intros Hw. unfold Fat.read_volume, boot_sector. case_match; [apply yields_failM|].
  step Hw by (apply (yields_read d img []); [exact Hw|done|done]) as b Hb. destruct Hb as (-> & _).
  cbn [put_all foldl]. by apply yields_lift.
Qed.
Lemma fat_answers h v : wstate d img [] h -> parse_volume (size_bytes (geometry d)) (slice img 0 512) = Ok v ->
  yields (probe_fat d) h (answers (fat_probe_kind (Fat.kind v))).
Proof.
  intros Hw Hv. eapply yields_bind; [by apply yields_volume|]. cbv beta. intros v' h1 Hv' _.
  rewrite Hv in Hv'. injection Hv' as <-. apply yields_ret. split; [done|]. intros _ _. cbn [p_size_bytes].
  revert Hv. unfold parse_volume. case_match; [discriminate|]. intros Hv. apply bindR_Ok in Hv as (v' & _ & Hv).
  case_match eqn:Eroom; [discriminate|]. case_match; [discriminate|]. injection Hv as ->. by apply Z.ltb_ge.
Qed.

Lemma xfs_answers h : wstate d img [] h -> yields (probe_xfs d) h (answers xfs).
Proof.
  intros Hw. eapply (yields_bind _ _ _ (fun _ => True)).
  { apply (yields_reader d img [] _ _ (fun _ => True)); [exact Hw| |done]. unfold Xfs.read_superblock, read_sb_raw. reads. }
  intros x h1 _ _. apply yields_ret. split; [done|]. cbn [p_confident p_size_bytes]. intros E _. unfold xfs_sane in E.
  rewrite !andb_true_iff, !Z.leb_le in E. tauto.
Qed.
Lemma ntfs_answers h : wstate d img [] h -> yields (probe_ntfs d) h (answers ntfs).
Proof.
  intros Hw. eapply (yields_bind _ _ _ (fun _ => True)).
  { apply (yields_reader d img [] _ _ (fun _ => True)); [exact Hw| |done]. unfold read_boot_sector, read_boot. reads. }
  intros x h1 _ _. apply yields_ret. split; [done|]. cbn [p_confident p_size_bytes]. intros E _. unfold ntfs_sane in E.
  rewrite !andb_true_iff, !Z.leb_le in E. tauto.
Qed.
Lemma btrfs_answers h : wstate d img [] h -> yields (probe_btrfs d) h (answers btrfs).
Proof.
  intros Hw. eapply (yields_bind _ _ _ (fun _ => True)).
  { apply yields_attempt; [|done]. unfold yields. eapply wp_mono; [by apply (reports_best d img)|].
    intros o h' (Hq & Hne & _). by split_and!. }
  intros [s|e] h1 _ _; by apply yields_ret.
Qed.
Lemma iso_answers h : wstate d img [] h -> yields (probe_iso d) h (answers iso9660).
Proof.
  intros Hw. eapply (yields_bind _ _ _ (fun _ => True)).
  { apply (yields_reader d img [] _ _ (fun _ => True)); [exact Hw| |done]. apply reader_attempt, reader_primary. }
  intros [s|e] h1 _ _; by apply yields_ret.
Qed.
Lemma ufs_answers h s : wstate d img [] h -> first_superblock d img SEARCH = Some s ->
  yields (probe_ufs d) h (answers (ufs_probe_kind (Ufs.version s))).
Proof.
  intros Hw Hs. eapply yields_bind; [apply (read_at_spec d img); [done|apply search_reachable]|]. cbv beta.
  intros s' h1 Hs' _. rewrite Hs in Hs'. injection Hs' as <-. apply yields_ret. split; [done|].
  cbn [p_kind]. by destruct (Ufs.version s).
Qed.

(** The marks the probes look for. *)
Lemma yields_mark m off n (f : bytes -> bool) h :
  wstate d img [] h -> m = (b ← read_exact d off n; mret (f b)) -> 0 <= off -> 0 <= n ->
  yields m h (fun b => b = f (slice img off n)).
Proof.
  intros Hw -> Ho Hn. step Hw by (apply (yields_read d img []); [exact Hw|done|done]) as b Hb.
  destruct Hb as (-> & _). by apply yields_ret.
Qed.
Lemma fat_mark h :
  wstate d img [] h -> 512 <= size_bytes (geometry d) -> yields (Fat.probe d) h (fun b => b =
    match parse_volume (size_bytes (geometry d)) (slice img 0 512) with Ok _ => true | Err _ => false end).
Proof.
  intros Hw Hs. unfold Fat.probe, boot_sector. rewrite (proj2 (Z.ltb_ge _ _)) by done.
  eapply (yields_bind _ _ _ (fun r => match r with Ok b => b = slice img 0 512 | Err e => quiet_code (code e) end)).
  - unfold yields. apply wp_attempt. eapply wp_mono; [by apply (read_codes d img)|]. intros o h1 (Hq & Hne & Hv & Hf).
    destruct o as [b|e|s|]; (split_and!; [done|done|]); try done; intros r [= <-]; [by apply Hv|by apply Hf].
  - cbv beta. intros [b|e] h1 Hr _.
    + rewrite Hr. destruct (parse_volume _ _); [by apply yields_ret|]. case_match; [by apply yields_ret|].
      by apply yields_lift.
    + destruct (quiet_code_stops _ Hr) as [E _]. rewrite bool_decide_eq_false_2 by done. by apply yields_lift.
Qed.
Lemma yields_at_most n h :
  wstate d img [] h -> 0 <= n -> yields (read_at_most d 0 n) h (fun b => b = slice img 0 (Z.min (size_bytes (geometry d)) n)).
Proof.
  intros Hw Hn. unfold read_at_most. cbv zeta. rewrite Z.sub_0_r. pose proof Hw as [_ Hz _]. pose proof (zlen_nonneg img).
  destruct (Z.leb_spec (size_bytes (geometry d)) 0); [apply yields_ret; by rewrite slice_nonpos by lia|].
  destruct (Z.eqb_spec (Z.min (size_bytes (geometry d)) n) 0) as [->|]; [by apply yields_ret|].
  eapply yields_mono; [apply (yields_read d img []); [exact Hw|done|lia]|]. by intros b (-> & _).
Qed.

Lemma late_answers h : wstate d img [] h -> yields (probe_late d) h (answers late_signature).
Proof.
  intros Hw. unfold probe_late, late_signature. cbv zeta.
  step Hw by (by apply yields_at_most) as b Hb. rewrite Hb.
  destruct (bytes_equal _ 0 _); [by apply xfs_answers|]. destruct (bytes_equal _ 3 _); [by apply ntfs_answers|].
  apply yields_when_probed; [done| |by intros; apply btrfs_answers|].
  { unfold Btrfs.probe. change (64 * 1024 + SB_SIZE) with 69632.
    destruct (Z.ltb_spec (size_bytes (geometry d)) 69632), (Z.leb_spec 69632 (size_bytes (geometry d))); try lia;
      [by apply yields_ret|by apply (yields_mark _ 65600 8 (fun b => read_le64 b 0 =? MAGIC))]. }
  clear h h0 Hw b Hb. intros h Hw _. apply yields_when_probed; [done| |by intros; apply iso_answers|].
  { unfold Iso9660.probe. change (17 * SECTOR) with 34816.
    destruct (Z.ltb_spec (size_bytes (geometry d)) 34816), (Z.leb_spec 34816 (size_bytes (geometry d))); try lia;
      [by apply yields_ret|by apply (yields_mark _ 32768 2048 id_ok)]. }
  clear h Hw. intros h Hw _. eapply yields_bind; [apply (probe_at_spec d img); [done|apply search_reachable]|].
  cbv beta. intros b h' -> Hq. apply (wstate_quiet _ _ _ _ _ Hq) in Hw.
  destruct (first_superblock d img SEARCH) as [s|] eqn:Es; cbn; [by apply ufs_answers|by apply yields_ret].
Qed.
End Signature.

(** C40: probing a device ends on every host and only reads, whatever the device
    holds.  An answer names the kind whose mark comes first in the order exFAT,
    ext, FAT, XFS, NTFS, Btrfs, ISO 9660, UFS, and [unknown] when the image
    carries no mark; a confident answer of exFAT, ext, FAT, XFS or NTFS never
    claims more bytes than the device has. *)
Theorem probe_names_signature (d : BlockDevice) (img : bytes) (h : Host) (Hw : wstate d img [] h) :
  yields (probe_filesystem d) h (answers d (signature d img)).
Proof.
  unfold probe_filesystem, signature. cbv zeta. apply (yields_when_room d img); [done|intros E|by intros; apply (exfat_answers d img)|].
  { unfold ExFat.probe. rewrite (proj2 (Z.ltb_ge _ _)) by lia. by apply (yields_mark d img _ 0 11 is_exfat_name). }
  clear h Hw. intros h Hw. apply (yields_when_room d img); [done|intros E; by apply (yields_mark d img _ 1080 2 (fun b => read_le16 b 0 =? EXT4_MAGIC))| |].
  { intros h' Hw' E. apply (ext_answers d img); [lia|done]. }
  clear h Hw. intros h Hw. unfold when_room.
  destruct (Z.leb_spec 512 (size_bytes (geometry d))) as [Hs|_]; [|by apply (late_answers d img)].
  eapply yields_bind; [by apply (fat_mark d img)|]. cbv beta. intros b h' -> Hq.
  apply (wstate_quiet _ _ _ _ _ Hq) in Hw.
  destruct (parse_volume (size_bytes (geometry d)) (slice img 0 512)) eqn:Ev;
    [by apply (fat_answers d img)|by apply (late_answers d img)].
Qed.

Lemma probe_names_signature_witness :
  exists p, (probe_filesystem demo_btrfs_device demo_btrfs_host).1 = Ret p /\ p_kind p = btrfs /\
    signature demo_btrfs_device demo_btrfs = btrfs.
Proof.
  pose proof (probe_names_signature demo_btrfs_device demo_btrfs demo_btrfs_host demo_btrfs_state) as (_ & _ & H).
  assert (E : exists p, (probe_filesystem demo_btrfs_device demo_btrfs_host).1 = Ret p /\ p_kind p = btrfs)
    by (eexists; split; vm_compute; reflexivity).
  destruct E as (p & E & Ek). exists p. split; [exact E|]. split; [exact Ek|]. destruct (H p E) as [Hk _]. by rewrite <-Hk.
Defined.
