(* ===== verification/ImageFormat.v ===== *)
(** The FSXIMG1 image format: header, chunk records and footer (the codecs of
    src/ops/image.cpp, include/fsx/image.hpp). *)
From S2P Require Import Prelude Words Errors Endian Crc.
#[local] Open Scope Z_scope.

Record ImageInfo := mkImageInfo {
  source_bytes : Z;
  i_logical_sector : Z;
  chunk_bytes : Z;
  chunks : Z;
  data_chunks : Z;
  zero_chunks : Z;
  stored_payload_bytes : Z;
  i_complete : bool
}.
Record CreateOptions := mkCreate {
  co_chunk_bytes : Z;
  sparse_zero_chunks : bool
}.

Definition kHeaderSize : Z := 4096.
Definition kRecordSize : Z := 48.
Definition kFooterSize : Z := 4096.
Definition kVersion : Z := 1.
Definition kHeaderComplete : Z := 1.
Definition kChunkZero : Z := 1.
Definition kHeaderMagic : bytes := [Byte.x46; Byte.x53; Byte.x58; Byte.x49; Byte.x4d; Byte.x47; Byte.x31; Byte.x00].
Definition kRecordMagic : bytes := [Byte.x46; Byte.x53; Byte.x58; Byte.x43; Byte.x48; Byte.x4e; Byte.x31; Byte.x00].
Definition kFooterMagic : bytes := [Byte.x46; Byte.x53; Byte.x58; Byte.x45; Byte.x4e; Byte.x44; Byte.x31; Byte.x00].

Definition magic_eq (b magic : bytes) : bool :=
  if zlen b <? zlen magic then false else bool_decide (slice b 0 (zlen magic) = magic).
Definition write_magic (b magic : bytes) : bytes := splice b 0 magic.
Definition checksum (b : bytes) : Z := Z.lxor (crc32c b 0xffffffff) 0xffffffff.
Definition ceil_div_u64 (n d : Z) : Z := n / d + (if negb (n mod d =? 0) then 1 else 0).

(** The loop over the words from [i], then the loop over the bytes left. *)
Definition zero_tail (b : bytes) (i : Z) : bool :=
  forallb (fun x => bool_decide (x = Byte.x00)) (drop (Z.to_nat i) b).
Fixpoint zero_words (n : nat) (b : bytes) (i : Z) : bool :=
  match n with
  | O => zero_tail b i
  | S n =>
      if i + 8 <=? zlen b
      then if negb (read_le64 b i =? 0) then false else zero_words n b (i + 8)
      else zero_tail b i
  end.
Definition all_zero (b : bytes) : bool := zero_words (length b) b 0.

Definition make_header (info : ImageInfo) (complete : bool) : bytes :=
  let h := write_magic (zeros kHeaderSize) kHeaderMagic in
  let h := write_le32 h 8 kVersion in
  let h := write_le32 h 12 kHeaderSize in
  let h := write_le64 h 16 (source_bytes info) in
  let h := write_le32 h 24 (i_logical_sector info) in
  let h := write_le32 h 28 (chunk_bytes info) in
  let h := write_le64 h 32 (chunks info) in
  let h := write_le32 h 40 (if complete then kHeaderComplete else 0) in
  let h := write_le32 h 44 0 in
  write_le32 h 44 (checksum h).

Definition make_record (index source_offset logical_len stored_len flags payload_crc : Z) : bytes :=
  let r := write_magic (zeros kRecordSize) kRecordMagic in
  let r := write_le64 r 8 index in
  let r := write_le64 r 16 source_offset in
  let r := write_le32 r 24 logical_len in
  let r := write_le32 r 28 stored_len in
  let r := write_le32 r 32 flags in
  let r := write_le32 r 36 payload_crc in
  let r := write_le32 r 40 0 in
  write_le32 r 40 (checksum r).

Definition make_footer (info : ImageInfo) : bytes :=
  let f := write_magic (zeros kFooterSize) kFooterMagic in
  let f := write_le64 f 8 (chunks info) in
  let f := write_le64 f 16 (data_chunks info) in
  let f := write_le64 f 24 (zero_chunks info) in
  let f := write_le64 f 32 (stored_payload_bytes info) in
  let f := write_le32 f 40 0 in
  write_le32 f 40 (checksum f).

Definition set_complete (c : bool) (i : ImageInfo) : ImageInfo :=
  mkImageInfo (source_bytes i) (i_logical_sector i) (chunk_bytes i) (chunks i) (data_chunks i) (zero_chunks i)
    (stored_payload_bytes i) c.
Definition set_totals (data zero stored : Z) (i : ImageInfo) : ImageInfo :=
  mkImageInfo (source_bytes i) (i_logical_sector i) (chunk_bytes i) (chunks i) data zero stored (i_complete i).

(** What the header promises of the sector and the sizes. *)
Definition image_geometry (i : ImageInfo) : bool :=
  let sector := i_logical_sector i in
  let sector_pow2 := negb (sector =? 0) && (Z.land sector (u32 (sector - 1)) =? 0) in
  negb ((source_bytes i =? 0) || negb sector_pow2 || (sector <? 512) || (65536 <? sector)
        || (chunk_bytes i <? 64 * 1024) || (64 * 1024 * 1024 <? chunk_bytes i)
        || negb (chunk_bytes i mod sector =? 0)).

Definition parse_header (h : bytes) : Result ImageInfo :=
  if negb (zlen h =? kHeaderSize) || negb (magic_eq h kHeaderMagic)
  then fail corrupt "not an FSX image"
  else if negb (read_le32 h 8 =? kVersion) || negb (read_le32 h 12 =? kHeaderSize)
  then fail unsupported "unsupported FSX image format version"
  else if negb (checksum (write_le32 h 44 0) =? read_le32 h 44)
  then fail corrupt "FSX image header checksum failed"
  else
    let flags := read_le32 h 40 in
    if negb (Z.land flags (u32 (Z.lnot kHeaderComplete)) =? 0)
    then fail unsupported "FSX image header uses unknown flags"
    else
      let info := mkImageInfo (read_le64 h 16) (read_le32 h 24) (read_le32 h 28) (read_le64 h 32) 0 0 0
                    (negb (Z.land flags kHeaderComplete =? 0)) in
      if negb (image_geometry info) then fail corrupt "invalid FSX image geometry"
      else if negb (chunks info =? ceil_div_u64 (source_bytes info) (chunk_bytes info))
      then fail corrupt "FSX image chunk count is inconsistent"
      else Ok info.

Record ParsedRecord := mkParsed {
  p_index : Z;
  source_offset : Z;
  logical_len : Z;
  stored_len : Z;
  p_flags : Z;
  payload_crc : Z
}.
Definition is_zero (p : ParsedRecord) : bool := negb (Z.land (p_flags p) kChunkZero =? 0).

Definition parse_record (r : bytes) (info : ImageInfo) (expected_index : Z) : Result ParsedRecord :=
  if negb (zlen r =? kRecordSize) || negb (magic_eq r kRecordMagic)
  then fail corrupt "invalid FSX image chunk record"
  else if negb (checksum (write_le32 r 40 0) =? read_le32 r 40)
  then fail corrupt "FSX image chunk header checksum failed"
  else
    let p := mkParsed (read_le64 r 8) (read_le64 r 16) (read_le32 r 24) (read_le32 r 28) (read_le32 r 32)
               (read_le32 r 36) in
    if u64_max / chunk_bytes info <? expected_index then fail corrupt "FSX image chunk offset overflows"
    else if negb (p_index p =? expected_index) || negb (source_offset p =? expected_index * chunk_bytes info)
            || (source_bytes info <=? source_offset p)
    then fail corrupt "FSX image chunks are out of order"
    else
      let expected_len := u32 (Z.min (chunk_bytes info) (source_bytes info - source_offset p)) in
      if negb (logical_len p =? expected_len) || (logical_len p =? 0)
      then fail corrupt "FSX image chunk length is invalid"
      else if negb (Z.land (p_flags p) (u32 (Z.lnot kChunkZero)) =? 0)
      then fail unsupported "FSX image uses unknown chunk flags"
      else if is_zero p
      then if negb (stored_len p =? 0) || negb (payload_crc p =? 0)
           then fail corrupt "zero chunk contains payload metadata" else Ok p
      else if negb (stored_len p =? logical_len p)
      then fail corrupt "uncompressed chunk stored length differs from logical length"
      else Ok p.

(** The totals are set in [info]. *)
Definition parse_footer (f : bytes) (info : ImageInfo) : Result ImageInfo :=
  if negb (zlen f =? kFooterSize) || negb (magic_eq f kFooterMagic)
  then fail corrupt "FSX image footer is missing"
  else if negb (checksum (write_le32 f 40 0) =? read_le32 f 40)
  then fail corrupt "FSX image footer checksum failed"
  else if negb (read_le64 f 8 =? chunks info)
  then fail corrupt "FSX image footer chunk count differs from header"
  else
    let data := read_le64 f 16 in
    let zero := read_le64 f 24 in
    if (chunks info <? data) || negb (zero =? chunks info - data)
    then fail corrupt "FSX image footer chunk totals are invalid"
    else Ok (set_totals data zero (read_le64 f 32) info).

(** ** Zero chunks *)

Lemma zero_tail_spec b i : 0 <= i -> zero_tail b i = true <-> drop (Z.to_nat i) b = zeros (zlen b - i).
Proof.
  intros Hi. unfold zero_tail, zeros. rewrite forallb_forall.
  assert (Hl : Z.to_nat (zlen b - i) = length (drop (Z.to_nat i) b)) by (rewrite length_drop; unfold zlen; lia).
  rewrite Hl. generalize (drop (Z.to_nat i) b) as l. intros l. split.
  - intros H. induction l as [|x l IH]; [done|]. cbn [length replicate]. f_equal.
    + apply (bool_decide_eq_true_1 _), H. by left.
    + apply IH. intros y Hy. apply H. by right.
  - intros -> y Hy. apply bool_decide_eq_true_2. apply list_elem_of_In, elem_of_replicate in Hy. apply Hy.
Qed.

Lemma read_zero w b o :
  0 <= o -> o + Z.of_nat w <= zlen b -> read_le w b o = 0 <-> slice b o (Z.of_nat w) = zeros (Z.of_nat w).
Proof.
  intros Ho Hw. split.
  - intros E. rewrite <-(read_le_zeros w (Z.of_nat w) 0) in E by lia.
    rewrite !read_le_combine in E by (rewrite ?zlen_zeros; lia). apply LittleEndianList.le_combine_inj in E.
    + rewrite E. apply slice_all. rewrite zlen_zeros; lia.
    + unfold slice, zeros. autorewrite with fsxlen. unfold zlen in Hw. lia.
  - intros E. rewrite <-(read_le_zeros w (Z.of_nat w) 0) by lia.
    apply read_le_ext; rewrite ?zlen_zeros; try lia. rewrite E. symmetry. apply slice_all. rewrite zlen_zeros; lia.
Qed.

Lemma zero_words_spec n b i :
  0 <= i -> zero_words n b i = true <-> drop (Z.to_nat i) b = zeros (zlen b - i).
Proof.
  revert i. induction n as [|n IH]; intros i Hi; cbn [zero_words]; [by apply zero_tail_spec|].
  destruct (Z.leb_spec (i + 8) (zlen b)) as [Hl|]; [|by apply zero_tail_spec].
  assert (Ed : drop (Z.to_nat i) b = slice b i 8 ++ drop (Z.to_nat (i + 8)) b).
  { unfold slice. rewrite Z2Nat.inj_add, <-drop_drop by lia. symmetry. apply take_drop. }
  assert (Ez : zeros (zlen b - i) = zeros 8 ++ zeros (zlen b - (i + 8))).
  { unfold zeros. rewrite <-replicate_add. f_equal. lia. }
  assert (Hs : length (slice b i 8) = length (zeros 8)).
  { pose proof (zlen_slice b i 8). pose proof (zlen_zeros 8). unfold zlen in *. lia. }
  pose proof (read_zero 8 b i Hi Hl) as H8. fold (read_le64 b i) in H8. change (Z.of_nat 8) with 8 in H8.
  rewrite Ed, Ez. destruct (Z.eqb_spec (read_le64 b i) 0) as [E|E]; cbn [negb].
  - apply H8 in E. rewrite E, IH by lia. split; [by intros ->|apply app_inv_head].
  - split; [done|]. intros Hc. destruct E. apply H8. by apply app_inj_1 in Hc as [? _].
Qed.
Lemma all_zero_spec b : all_zero b = true <-> b = zeros (zlen b).
Proof.
  unfold all_zero. rewrite zero_words_spec by done. change (drop (Z.to_nat 0) b) with b. by rewrite Z.sub_0_r.
Qed.

(** ** What is written is read back *)

Lemma checksum_width b : in_width 32 (checksum b).
Proof. apply crc32c_sum_width. Qed.
Lemma magic_eq_prefix b m : zlen m <= zlen b -> slice b 0 (zlen m) = m -> magic_eq b m = true.
Proof. intros Hl E. unfold magic_eq. rewrite (proj2 (Z.ltb_ge _ _) Hl). by apply bool_decide_eq_true_2. Qed.

(** A checksum that was stored over a field of zeroes holds. *)
Lemma sum_agrees b o :
  0 <= o -> o + 4 <= zlen b ->
  let z := write_le32 b o 0 in
  (checksum (write_le32 (write_le32 z o (checksum z)) o 0) =? read_le32 (write_le32 z o (checksum z)) o) = true.
Proof.
  intros Ho Hl z. apply Z.eqb_eq. unfold z, write_le32. rewrite !write_le_twice by (rewrite ?zlen_write_le; lia).
  rewrite read_write_le_eq by (rewrite ?zlen_write_le; done || lia || apply checksum_width). done.
Qed.

(** Values that fit their fields. *)
Definition info_ok (i : ImageInfo) : Prop :=
  in_width 64 (source_bytes i) /\ in_width 32 (i_logical_sector i) /\ in_width 32 (chunk_bytes i) /\
  in_width 64 (chunks i) /\ in_width 64 (data_chunks i) /\ in_width 64 (zero_chunks i) /\
  in_width 64 (stored_payload_bytes i).

Lemma header_roundtrip i c :
  info_ok i -> image_geometry i = true -> chunks i = ceil_div_u64 (source_bytes i) (chunk_bytes i) ->
  parse_header (make_header i c) = Ok (set_complete c (set_totals 0 0 0 i)).
Proof.
  intros (H1 & H2 & H3 & H4 & _) Hg Hc.
  assert (Hz : zlen (make_header i c) = 4096).
  { unfold make_header, write_magic, write_le32, write_le64, kHeaderSize. cbv zeta. wr_len; done. }
  assert (Hf : in_width 32 (if c then kHeaderComplete else 0)) by (by destruct c).
  assert (Hm : zlen kHeaderMagic = 8) by done.
  unfold parse_header. rewrite Hz, (magic_eq_prefix _ kHeaderMagic); [|rewrite Hz, Hm; lia|].
  2: { rewrite Hm. unfold make_header, write_magic, kHeaderSize. cbv zeta. rd. done. }
  assert (Hfields : read_le32 (make_header i c) 8 = 1 /\ read_le32 (make_header i c) 12 = 4096 /\
    read_le64 (make_header i c) 16 = source_bytes i /\ read_le32 (make_header i c) 24 = i_logical_sector i /\
    read_le32 (make_header i c) 28 = chunk_bytes i /\ read_le64 (make_header i c) 32 = chunks i /\
    read_le32 (make_header i c) 40 = (if c then kHeaderComplete else 0)).
  { unfold make_header, write_magic, kHeaderSize, kVersion. cbv zeta. split_and!; rd; done. }
  destruct Hfields as (-> & -> & -> & -> & -> & -> & ->).
  unfold make_header at 1 2. cbv zeta. rewrite sum_agrees; [|done|unfold write_magic, write_le32, write_le64, kHeaderSize; wr_len; done].
  assert (Ef : negb (Z.land (if c then kHeaderComplete else 0) (u32 (Z.lnot kHeaderComplete)) =? 0) = false) by (by destruct c).
  cbn [negb orb]. change (4096 =? kHeaderSize) with true. change (1 =? kVersion) with true. cbn [negb orb].
  rewrite Ef. unfold image_geometry in *. cbn [source_bytes i_logical_sector chunk_bytes chunks] in *. cbv zeta in *.
  rewrite Hg, <-Hc, Z.eqb_refl. cbn [negb]. by destruct c.
Qed.

(** ** Sizes and positions of the chunks *)

Section Chunks.
Context (i : ImageInfo) (Hok : info_ok i) (Hgeo : image_geometry i = true).
Context (Hchunks : chunks i = ceil_div_u64 (source_bytes i) (chunk_bytes i)).

Lemma geometry_sizes : 0 < source_bytes i /\ 64 * 1024 <= chunk_bytes i <= 64 * 1024 * 1024.
Proof.
  unfold image_geometry in Hgeo. cbv zeta in Hgeo. apply negb_true_iff in Hgeo.
  repeat apply orb_false_iff in Hgeo as [Hgeo ?]. destruct Hok as [[? _] _]. lia.
Qed.
Lemma chunk_count k : 0 <= k -> k < chunks i <-> k * chunk_bytes i < source_bytes i.
Proof.
  pose proof geometry_sizes as [Hs Hc]. rewrite Hchunks. unfold ceil_div_u64.
  pose proof (Z.div_mod (source_bytes i) (chunk_bytes i) ltac:(lia)) as E.
  pose proof (Z.mod_pos_bound (source_bytes i) (chunk_bytes i) ltac:(lia)) as Hm.
  intros Hk. destruct (Z.eqb_spec (source_bytes i mod chunk_bytes i) 0); cbn [negb]; nia.
Qed.
Definition chunk_len (k : Z) : Z := Z.min (chunk_bytes i) (source_bytes i - k * chunk_bytes i).
Lemma chunk_len_pos k : 0 <= k < chunks i -> 0 < chunk_len k <= 64 * 1024 * 1024.
Proof. intros [H1 H2]. apply chunk_count in H2; [|done]. pose proof geometry_sizes. unfold chunk_len. lia. Qed.
Lemma chunk_next k : 0 <= k < chunks i -> Z.min (source_bytes i) (k * chunk_bytes i) + chunk_len k
  = Z.min (source_bytes i) ((k + 1) * chunk_bytes i).
Proof. intros [H1 H2]. apply chunk_count in H2; [|done]. pose proof geometry_sizes. unfold chunk_len. lia. Qed.

Lemma record_accepted (k flags stored crc : Z) (p : ParsedRecord) :
  0 <= k < chunks i -> in_width 32 crc ->
  p = mkParsed k (k * chunk_bytes i) (chunk_len k) stored flags crc ->
  flags = 0 /\ stored = chunk_len k \/ flags = kChunkZero /\ stored = 0 /\ crc = 0 ->
  parse_record (make_record k (k * chunk_bytes i) (chunk_len k) stored flags crc) i k = Ok p.
Proof.
  intros Hk Hcrc -> Hcase. pose proof (chunk_len_pos k Hk) as Hl. destruct Hk as [Hk0 Hk]. apply chunk_count in Hk as Hlt; [|done].
  pose proof geometry_sizes as [Hs Hc]. destruct Hok as ([_ Hw] & _ & _ & [_ Hn] & _).
  assert (Hk64 : in_width 64 k) by (split; lia). assert (Ho64 : in_width 64 (k * chunk_bytes i)) by (split; nia).
  assert (Hl32 : in_width 32 (chunk_len k)) by (split; lia).
  assert (Hf32 : in_width 32 flags) by (destruct Hcase as [[-> _]|[-> _]]; by split).
  assert (Hs32 : in_width 32 stored) by (destruct Hcase as [[_ ->]|(_ & -> & _)]; [done|by split]).
  set (r := make_record _ _ _ _ _ _).
  assert (Hz : zlen r = 48).
  { unfold r, make_record, write_magic, write_le32, write_le64, kRecordSize. cbv zeta. wr_len; done. }
  assert (Hm : zlen kRecordMagic = 8) by done.
  unfold parse_record. rewrite Hz, (magic_eq_prefix _ kRecordMagic); [|rewrite Hz, Hm; lia|].
  2: { rewrite Hm. unfold r, make_record, write_magic, kRecordSize. cbv zeta. rd. done. }
  assert (Hfields : read_le64 r 8 = k /\ read_le64 r 16 = k * chunk_bytes i /\ read_le32 r 24 = chunk_len k /\
    read_le32 r 28 = stored /\ read_le32 r 32 = flags /\ read_le32 r 36 = crc).
  { unfold r, make_record, write_magic, kRecordSize. cbv zeta. split_and!; rd; done. }
  destruct Hfields as (-> & -> & -> & -> & -> & ->).
  assert (Esum : (checksum (write_le32 r 40 0) =? read_le32 r 40) = true).
  { unfold r, make_record. cbv zeta. apply sum_agrees; [done|].
    unfold write_magic, write_le32, write_le64, kRecordSize. wr_len; done. }
  rewrite Esum. change (48 =? kRecordSize) with true. cbn [negb orb].
  cbn [p_index source_offset logical_len stored_len p_flags payload_crc]. cbv zeta.
  assert (Ediv : (u64_max / chunk_bytes i <? k) = false).
  { apply Z.ltb_ge, Z.div_le_lower_bound; [lia|]. lia. }
  rewrite Ediv, !Z.eqb_refl, (proj2 (Z.leb_gt _ _)) by lia. cbn [negb orb].
  rewrite (wrap_id 32) by done. fold (chunk_len k). rewrite Z.eqb_refl, (proj2 (Z.eqb_neq (chunk_len k) 0)) by lia. cbn [negb orb].
  destruct Hcase as [[-> ->]|(-> & -> & ->)]; cbn [is_zero p_flags].
  - cbn [negb]. by rewrite (Z.eqb_refl (chunk_len k)).
  - done.
Qed.
End Chunks.

Lemma footer_roundtrip i j :
  info_ok i -> chunks i = chunks j -> zero_chunks i = chunks i - data_chunks i ->
  parse_footer (make_footer i) j = Ok (set_totals (data_chunks i) (zero_chunks i) (stored_payload_bytes i) j).
Proof.
  intros (_ & _ & _ & H4 & H5 & H6 & H7) Hc Hz. set (f := make_footer i).
  assert (Hl : zlen f = 4096).
  { unfold f, make_footer, write_magic, write_le32, write_le64, kFooterSize. cbv zeta. wr_len; done. }
  assert (Hm : zlen kFooterMagic = 8) by done.
  unfold parse_footer. rewrite Hl, (magic_eq_prefix _ kFooterMagic); [|rewrite Hl, Hm; lia|].
  2: { rewrite Hm. unfold f, make_footer, write_magic, kFooterSize. cbv zeta. rd. done. }
  assert (Hfields : read_le64 f 8 = chunks i /\ read_le64 f 16 = data_chunks i /\ read_le64 f 24 = zero_chunks i /\
    read_le64 f 32 = stored_payload_bytes i).
  { unfold f, make_footer, write_magic, kFooterSize. cbv zeta. split_and!; rd; done. }
  destruct Hfields as (-> & -> & -> & ->).
  assert (Esum : (checksum (write_le32 f 40 0) =? read_le32 f 40) = true).
  { unfold f, make_footer. cbv zeta. apply sum_agrees; [done|].
    unfold write_magic, write_le32, write_le64, kFooterSize. wr_len; done. }
  rewrite Esum, Hc, (Z.eqb_refl (chunks j)), <-Hc, Hz, (Z.eqb_refl (chunks i - data_chunks i)).
  change (4096 =? kFooterSize) with true. cbn [negb orb].
  rewrite (proj2 (Z.ltb_ge _ _)); [done|]. destruct H6. lia.
Qed.

(** ** Images *)

(** The records from chunk [k] on: the bytes of the file, the bytes of the
    source they stand for, and how many of them have and have no payload, and
    the size of the payloads. *)
Inductive chunk_list (i : ImageInfo) : Z -> bytes -> bytes -> Z -> Z -> Z -> Prop :=
  | chunks_end : chunk_list i (chunks i) [] [] 0 0 0
  | chunks_zero k raw p body img d z s :
      parse_record raw i k = Ok p -> is_zero p = true -> chunk_list i (k + 1) body img d z s ->
      chunk_list i k (raw ++ body) (zeros (logical_len p) ++ img) d (z + 1) s
  | chunks_data k raw p payload body img d z s :
      parse_record raw i k = Ok p -> is_zero p = false -> zlen payload = logical_len p ->
      checksum payload = payload_crc p -> chunk_list i (k + 1) body img d z s ->
      chunk_list i k (raw ++ payload ++ body) (payload ++ img) (d + 1) z (s + zlen payload).

(** A file that is an image of [img]: a header that is complete, the records
    of all chunks, a footer with their totals, and nothing else. *)
Definition valid_image (c : bytes) (info : ImageInfo) (img : bytes) : Prop :=
  exists h body f i d z s,
    c = h ++ body ++ f /\ parse_header h = Ok i /\ i_complete i = true /\ chunk_list i 0 body img d z s /\
    parse_footer f i = Ok info /\ info = set_totals d z s i.

Lemma parse_header_ok h i :
  parse_header h = Ok i ->
  zlen h = 4096 /\ info_ok i /\ image_geometry i = true /\ chunks i = ceil_div_u64 (source_bytes i) (chunk_bytes i) /\
  data_chunks i = 0 /\ zero_chunks i = 0 /\ stored_payload_bytes i = 0.
Proof.
  unfold parse_header. cbv zeta. intros H. res_inv. clear E0 E1 E2.
  apply orb_false_iff in E as [E%negb_false_iff%Z.eqb_eq _].
  apply negb_false_iff in E3. apply negb_false_iff, Z.eqb_eq in E4.
  split; [done|]. split; [|done].
  split_and!; first [apply (read_le_bound 8)|apply (read_le_bound 4)|by split].
Qed.

Section List.
Context (i : ImageInfo) (Hok : info_ok i) (Hgeo : image_geometry i = true).
Context (Hchunks : chunks i = ceil_div_u64 (source_bytes i) (chunk_bytes i)).

Lemma parse_record_ok raw k p :
  0 <= k -> parse_record raw i k = Ok p ->
  zlen raw = 48 /\ k < chunks i /\ source_offset p = k * chunk_bytes i /\ logical_len p = chunk_len i k /\
  0 < logical_len p <= 64 * 1024 * 1024 /\ (is_zero p = false -> stored_len p = logical_len p).
Proof.
  intros Hk. unfold parse_record. cbv zeta. intros H.
  assert (Hh : zlen raw = 48 /\ k * chunk_bytes i < source_bytes i /\ read_le64 raw 16 = k * chunk_bytes i /\
    read_le32 raw 24 = u32 (Z.min (chunk_bytes i) (source_bytes i - k * chunk_bytes i)) /\ read_le32 raw 24 <> 0).
  { clear Hok Hgeo Hchunks. res_inv; cbn [p_index source_offset logical_len] in *;
      apply orb_false_iff in E as [E%negb_false_iff%Z.eqb_eq _];
      apply orb_false_iff in E2 as [[_ E2%negb_false_iff%Z.eqb_eq]%orb_false_iff E2'%Z.leb_gt]; rewrite E2 in *;
      apply orb_false_iff in E3 as [E3%negb_false_iff%Z.eqb_eq E3'%Z.eqb_neq]; by split_and!. }
  destruct Hh as (H1 & Hlt & H2 & H3 & H4). assert (Hk' : k < chunks i) by (by apply chunk_count).
  pose proof (chunk_len_pos i Hok Hgeo Hchunks k (conj Hk Hk')) as Hl. fold (chunk_len i k) in H3.
  rewrite wrap_id in H3 by (split; lia).
  assert (Hp : source_offset p = read_le64 raw 16 /\ logical_len p = read_le32 raw 24 /\
    (is_zero p = false -> stored_len p = logical_len p)).
  { clear Hok Hgeo Hchunks. res_inv; cbn [source_offset logical_len stored_len] in *;
      (split_and!; [done|done|]); [congruence|]. intros _. lia. }
  destruct Hp as (-> & -> & Hs). split_and!; [done|done|done|congruence|lia|lia|]. intros Ez. by apply Hs.
Qed.

Lemma chunk_list_zlen k body img d z s :
  0 <= k -> chunk_list i k body img d z s ->
  zlen img = source_bytes i - Z.min (source_bytes i) (k * chunk_bytes i) /\ 0 <= d /\ 0 <= z /\ 0 <= s /\
  d + z = chunks i - k /\ s <= zlen img.
Proof.
  intros Hk H. induction H as [|k raw p body img d z s H Hz Hl IH|k raw p payload body img d z s H Hz Hp Hc Hl IH].
  - assert (~ chunks i * chunk_bytes i < source_bytes i) by (rewrite <-chunk_count by done; lia).
    change (zlen []) with 0. lia.
  - destruct (parse_record_ok _ _ _ Hk H) as (_ & Hlt & _ & E & Hlen & _). destruct (IH ltac:(lia)) as (I1 & I2 & I3 & I4 & I5 & I6).
    pose proof (chunk_next i Hok Hgeo Hchunks k (conj Hk Hlt)). rewrite zlen_app, zlen_zeros by lia. lia.
  - destruct (parse_record_ok _ _ _ Hk H) as (_ & Hlt & _ & E & Hlen & _). destruct (IH ltac:(lia)) as (I1 & I2 & I3 & I4 & I5 & I6).
    pose proof (chunk_next i Hok Hgeo Hchunks k (conj Hk Hlt)). rewrite zlen_app. lia.
Qed.
End List.

(** ** The image of a source *)

(** [++info.zero_chunks], or [++info.data_chunks] and the size of the payload. *)
Definition count_chunk (zero : bool) (len : Z) (i : ImageInfo) : ImageInfo :=
  if zero then set_totals (data_chunks i) (zero_chunks i + 1) (stored_payload_bytes i) i
  else set_totals (data_chunks i + 1) (zero_chunks i) (stored_payload_bytes i + len) i.

Definition image_start (size sector chunk : Z) : ImageInfo :=
  mkImageInfo size sector chunk (ceil_div_u64 size chunk) 0 0 0 false.

(** The record and the payload of one chunk. *)
Definition elided (sparse : bool) (span : bytes) : bool := sparse && all_zero span.
Definition image_record (sparse : bool) (k off : Z) (span : bytes) : bytes :=
  let zero := elided sparse span in
  make_record k off (zlen span) (if zero then 0 else zlen span) (if zero then kChunkZero else 0)
    (if zero then 0 else checksum span).
Definition image_payload (sparse : bool) (span : bytes) : bytes := if elided sparse span then [] else span.

Lemma zlen_record sparse k off span : zlen (image_record sparse k off span) = kRecordSize.
Proof.
  unfold image_record, make_record, write_magic, write_le32, write_le64, kRecordSize. cbv zeta. wr_len; done.
Qed.

Section Source.
Context (sparse : bool) (chunk : Z) (img : bytes).

(** The bytes of chunk [k]. *)
Definition span_of (k : Z) : bytes := slice img (k * chunk) (Z.min chunk (zlen img - k * chunk)).
Fixpoint image_body (n : nat) (k : Z) : bytes :=
  match n with
  | O => []
  | S n => image_record sparse k (k * chunk) (span_of k) ++ image_payload sparse (span_of k) ++ image_body n (k + 1)
  end.
Fixpoint image_totals (n : nat) (k : Z) (i : ImageInfo) : ImageInfo :=
  match n with
  | O => i
  | S n => image_totals n (k + 1) (count_chunk (elided sparse (span_of k)) (zlen (span_of k)) i)
  end.

Definition image_info (sector : Z) : ImageInfo :=
  let i := image_start (zlen img) sector chunk in
  set_complete true (image_totals (Z.to_nat (chunks i)) 0 i).
Definition image_file (sector : Z) : bytes :=
  let i := image_info sector in
  make_header i true ++ image_body (Z.to_nat (chunks i)) 0 ++ make_footer i.

Lemma totals_add n k i :
  image_totals n k i = set_totals (data_chunks i + data_chunks (image_totals n k (set_totals 0 0 0 i)))
    (zero_chunks i + zero_chunks (image_totals n k (set_totals 0 0 0 i)))
    (stored_payload_bytes i + stored_payload_bytes (image_totals n k (set_totals 0 0 0 i))) i.
Proof.
  revert k i. induction n as [|n IH]; intros k i; cbn [image_totals].
  { unfold set_totals. cbn. rewrite !Z.add_0_r. by destruct i. }
  rewrite IH. rewrite (IH (k + 1) (count_chunk _ _ (set_totals 0 0 0 i))).
  unfold count_chunk. destruct (elided _ _); cbn; unfold set_totals; cbn; f_equal; lia.
Qed.

Context (sector : Z).
Let i0 := image_start (zlen img) sector chunk.
Let i := set_complete true i0.
Context (Hok : info_ok i) (Hgeo : image_geometry i = true).

Lemma image_chunks : chunks i = ceil_div_u64 (source_bytes i) (chunk_bytes i).
Proof. done. Qed.

Lemma span_zlen k : 0 <= k < chunks i -> zlen (span_of k) = chunk_len i k.
Proof.
  intros Hk. pose proof (chunk_len_pos i Hok Hgeo image_chunks k Hk) as Hl.
  pose proof (geometry_sizes i Hok Hgeo) as [Hs Hc]. unfold chunk_len in *. cbn [chunk_bytes source_bytes i set_complete i0 image_start] in *.
  unfold span_of. rewrite zlen_slice by nia. lia.
Qed.

Lemma image_body_list n k : 0 <= k -> k + Z.of_nat n = chunks i ->
  let t := image_totals n k (set_totals 0 0 0 i) in
  chunk_list i k (image_body n k) (slice img (k * chunk) (zlen img - k * chunk)) (data_chunks t) (zero_chunks t)
    (stored_payload_bytes t).
Proof.
  cbv zeta. pose proof (geometry_sizes i Hok Hgeo) as [Hs Hc].
  revert k. induction n as [|n IH]; intros k Hk0 Hk; cbn [image_body image_totals].
  { assert (~ chunks i * chunk_bytes i < source_bytes i) by (rewrite <-(chunk_count i Hok Hgeo image_chunks) by lia; lia).
    replace k with (chunks i) by lia. rewrite slice_nonpos by (cbn in *; lia). apply chunks_end. }
  specialize (IH (k + 1) ltac:(lia) ltac:(lia)). assert (Hr : 0 <= k < chunks i) by lia.
  pose proof (span_zlen k Hr) as Hz. pose proof (chunk_len_pos i Hok Hgeo image_chunks k Hr) as Hl.
  assert (Es : slice img (k * chunk) (zlen img - k * chunk)
    = span_of k ++ slice img ((k + 1) * chunk) (zlen img - (k + 1) * chunk)).
  { unfold chunk_len in *. cbn [chunk_bytes source_bytes i set_complete i0 image_start] in *. unfold span_of.
    destruct (Z.le_gt_cases chunk (zlen img - k * chunk)).
    - rewrite Z.min_l by lia. replace ((k + 1) * chunk) with (k * chunk + chunk) by lia.
      rewrite <-slice_split by nia. f_equal. lia.
    - rewrite Z.min_r by lia. rewrite (slice_nonpos _ ((k + 1) * chunk)) by lia. by rewrite app_nil_r. }
  rewrite Es, totals_add. unfold image_record, image_payload, count_chunk. destruct (elided sparse (span_of k)) eqn:Ez.
  - cbn [data_chunks zero_chunks stored_payload_bytes set_totals app].
    apply andb_true_iff in Ez as [_ Ez%all_zero_spec]. rewrite Ez at 2. rewrite Hz.
    set (p := mkParsed k (k * chunk_bytes i) (chunk_len i k) 0 kChunkZero 0).
    change (chunk_len i k) with (logical_len p) at 2. rewrite !Z.add_0_l, (Z.add_comm 1).
    apply (chunks_zero i k _ p); [|done|exact IH].
    apply (record_accepted i Hok Hgeo image_chunks); [lia|by split|done|by right].
  - cbn [data_chunks zero_chunks stored_payload_bytes set_totals].
    set (p := mkParsed k (k * chunk_bytes i) (chunk_len i k) (chunk_len i k) 0 (checksum (span_of k))).
    rewrite !Z.add_0_l, (Z.add_comm 1), (Z.add_comm (zlen _)).
    apply (chunks_data i k _ p); [|done|done|done|exact IH]. rewrite Hz.
    apply (record_accepted i Hok Hgeo image_chunks); [lia|apply checksum_width|done|by left].
Qed.

Lemma image_info_totals :
  let t := image_totals (Z.to_nat (chunks i)) 0 (set_totals 0 0 0 i) in
  image_info sector = set_totals (data_chunks t) (zero_chunks t) (stored_payload_bytes t) i.
Proof.
  cbv zeta. unfold image_info. cbv zeta. fold i0. change (chunks i0) with (chunks i). rewrite totals_add.
  assert (E : forall n k j, image_totals n k (set_complete true j) = set_complete true (image_totals n k j)).
  { induction n as [|n IH]; intros k j; [done|]. cbn [image_totals]. rewrite <-IH. unfold count_chunk. by case_match. }
  change (set_totals 0 0 0 i) with (set_complete true (set_totals 0 0 0 i0)). rewrite E. cbn. unfold set_totals. cbn. done.
Qed.

(** The file that [create] is to write is an image of the source. *)
Lemma image_file_valid : valid_image (image_file sector) (image_info sector) img.
Proof.
  pose proof image_info_totals as Ei. cbv zeta in Ei. set (t := image_totals _ _ _) in *.
  pose proof (geometry_sizes i Hok Hgeo) as [Hs Hc].
  assert (Hn : 0 <= chunks i).
  { destruct Hok as (_ & _ & _ & [H _] & _). exact H. }
  pose proof (image_body_list (Z.to_nat (chunks i)) 0 ltac:(lia) ltac:(lia)) as Hl. cbv zeta in Hl. fold t in Hl.
  rewrite Z.mul_0_l, Z.sub_0_r, (slice_all img (zlen img) eq_refl) in Hl.
  pose proof (chunk_list_zlen i Hok Hgeo image_chunks _ _ _ _ _ _ (Z.le_refl 0) Hl) as (Hz & Hd & Hz' & Hs' & Hsum & Hle).
  destruct Hok as (O1 & O2 & O3 & O4 & _).
  assert (Hw : info_ok (image_info sector)).
  { rewrite Ei. unfold info_ok. cbn [set_totals source_bytes i_logical_sector chunk_bytes chunks data_chunks zero_chunks stored_payload_bytes].
    destruct O1 as [_ O1], O4 as [_ O4]. cbn [i set_complete i0 image_start source_bytes chunks] in *.
    unfold in_width in *. split_and!; try done; lia. }
  exists (make_header (image_info sector) true), (image_body (Z.to_nat (chunks i)) 0), (make_footer (image_info sector)), i,
    (data_chunks t), (zero_chunks t), (stored_payload_bytes t).
  split_and!.
  - unfold image_file. cbv zeta. rewrite Ei. done.
  - rewrite header_roundtrip; [rewrite Ei; done|exact Hw| |]; by rewrite Ei.
  - done.
  - exact Hl.
  - rewrite footer_roundtrip; [rewrite Ei; done|exact Hw|by rewrite Ei|]. rewrite Ei. cbn [zero_chunks chunks data_chunks set_totals]. lia.
  - exact Ei.
Qed.
End Source.
