(* ===== verification/Image.v ===== *)
(** Writing, checking and restoring FSXIMG1 images (src/ops/image.cpp).

    A descriptor of an image file is its inode, and the offset that [read],
    [write] and [lseek] move is passed along.  The suffix that [mkstemp] picks
    is a parameter; a taken name fails, as [mkstemp] never opens an existing
    file.  The close-on-exec flag and the progress callbacks are left out. *)
From S2P Require Import Prelude Words Errors Endian Crc Host Device FileUtil Safety Durable FsReport ImageFormat.
#[local] Open Scope Z_scope.

(** ** Reading and writing of image files *)

(** The loops of [fd_write_exact], and with [positioned] of [fd_pwrite_exact]. *)
Fixpoint fd_write_loop (fuel : nat) (positioned : bool) (fd off : Z) (data : bytes) (done_ : Z) : M unit :=
  match fuel with
  | O => fun h => (OutOfFuel, h)
  | S fuel =>
      if zlen data <=? done_ then mret tt
      else if positioned && (off_max <? off + done_) then failM unsupported "image offset exceeds host off_t"
      else
        r ← sys_pwrite fd (off + done_) (slice data done_ (zlen data - done_));
        match r with
        | inl e =>
            if e =? EINTR then fd_write_loop fuel positioned fd off data done_
            else raise_errno write_failed
                   (fun env => (if positioned then "image pwrite failed: " else "image write failed: ")
                               +:+ strerror env e) e
        | inr n =>
            if n =? 0
            then failM short_io (if positioned then "image pwrite returned zero" else "image write returned zero")
            else fd_write_loop fuel positioned fd off data (done_ + n)
        end
  end.
Definition fd_put (positioned : bool) (fd off : Z) (data : bytes) : M unit :=
  fault_hook op_write before;;
  h ← get_host;
  fd_write_loop (io_fuel h) positioned fd off data 0;;
  fault_hook op_write after.
Definition fd_write_exact : Z -> Z -> bytes -> M unit := fd_put false.
Definition fd_pwrite_exact : Z -> Z -> bytes -> M unit := fd_put true.

Fixpoint fd_read_loop (fuel : nat) (fd off size : Z) (acc : bytes) : M bytes :=
  match fuel with
  | O => fun h => (OutOfFuel, h)
  | S fuel =>
      if size <=? zlen acc then mret acc
      else
        r ← sys_pread fd (off + zlen acc) (size - zlen acc);
        match r with
        | inl e =>
            if e =? EINTR then fd_read_loop fuel fd off size acc
            else raise_errno read_failed (fun env => "image read failed: " +:+ strerror env e) e
        | inr [] => failM short_io "unexpected end of image"
        | inr bs => fd_read_loop fuel fd off size (acc ++ bs)
        end
  end.
Definition fd_read_exact (fd off size : Z) : M bytes :=
  h ← get_host; fd_read_loop (io_fuel h) fd off size [].

(** ** Creation *)

Definition sys_lstat (path : string) : M (Z + unit) :=
  sys_call_res (fun h => match h_names h !! path with Some _ => (inr tt, h) | None => (inl ENOENT, h) end).

(** The loop over the chunks from [k] on; [pos] is the end of the file. *)
Fixpoint write_chunks (n : nat) (source : BlockDevice) (sparse : bool) (fd : Z) (info : ImageInfo) (k off pos : Z)
    : M (ImageInfo * Z) :=
  match n with
  | O => mret (info, pos)
  | S n =>
      stop ← cancel_requested;
      if (stop : bool) then failM unsafe "image creation cancelled; partial file removed"
      else
        let n64 := Z.min (chunk_bytes info) (source_bytes info - off) in
        span ← read_exact source off n64;
        let zero := sparse && all_zero span in
        let crc := if zero then 0 else checksum span in
        let record := make_record k off (u32 n64) (if zero then 0 else u32 n64) (if zero then kChunkZero else 0) crc in
        fd_write_exact fd pos record;;
        let pos := pos + kRecordSize in
        (if zero then mret tt else fd_write_exact fd pos span);;
        write_chunks n source sparse fd (count_chunk zero n64 info) (k + 1) (off + n64)
          (if zero then pos else pos + n64)
  end.

(** The part of [create] under the destructor of [Cleanup]. *)
Definition fill_image (source : BlockDevice) (fd : Z) (temp path : string) (o : CreateOptions) : M ImageInfo :=
  let g := geometry source in
  if size_bytes g =? 0 then failM invalid_argument "cannot image an empty source"
  else
    let info := image_start (size_bytes g) (logical_sector g) (co_chunk_bytes o) in
    fd_write_exact fd 0 (make_header info false);;
    r ← write_chunks (Z.to_nat (chunks info)) source (sparse_zero_chunks o) fd info 0 0 kHeaderSize;
    let '(info, pos) := (r : ImageInfo * Z) in
    fd_write_exact fd pos (make_footer info);;
    let info := set_complete true info in
    fd_pwrite_exact fd 0 (make_header info true);;
    fault_hook op_flush before;;
    s ← sys_fsync fd;
    match s with
    | inl e => raise_errno flush_failed (fun _ => "cannot flush completed image") e
    | inr _ =>
        fault_hook op_flush after;;
        publish_file_noreplace temp path "image file";;
        mret info
    end.

(** From [mkstemp] on. *)
Definition write_new_image (suffix : string) (source : BlockDevice) (path : string) (o : CreateOptions) : M ImageInfo :=
  let temp := path +:+ (".part." +:+ suffix) in
  t ← sys_create temp;
  match t with
  | inl e => raise_errno open_failed
      (fun env => "cannot create temporary image near " +:+ path +:+ ": " +:+ strerror env e) e
  | inr fd =>
      r ← attempt (fill_image source fd temp path o);
      match r with
      | Err e => unlink_ignored temp;; raise e
      | Ok info => mret info
      end
  end.

Definition create (suffix : string) (source : BlockDevice) (path : string) (o : CreateOptions) : M ImageInfo :=
  if (co_chunk_bytes o <? 64 * 1024) || (64 * 1024 * 1024 <? co_chunk_bytes o)
  then failM invalid_argument "image chunk size must be between 64 KiB and 64 MiB"
  else if logical_sector (geometry source) =? 0
  then failM invalid_argument "source reports a zero logical sector size"
  else if negb (co_chunk_bytes o mod logical_sector (geometry source) =? 0)
  then failM invalid_argument "image chunk size must be a multiple of the source logical sector"
  else
    l ← sys_lstat path;
    match l with
    | inr _ => failM unsafe "refusing to overwrite existing image file"
    | inl e =>
        if negb (e =? ENOENT) then raise_errno open_failed (fun _ => "cannot inspect output image path") e
        else write_new_image suffix source path o
    end.

(** ** Checking *)

Definition open_image_read (path : string) : M Z :=
  r ← sys_open path;
  match r with
  | inl e => raise_errno open_failed (fun env => "cannot open image " +:+ path +:+ ": " +:+ strerror env e) e
  | inr fd => mret fd
  end.
Definition read_header (fd : Z) : M ImageInfo := h ← fd_read_exact fd 0 kHeaderSize; lift (parse_header h).

(** The loop of [walk_image] over the records from [k] at [pos]: the end of the
    records, the chunks with and without payload, the bytes of the payloads. *)
Fixpoint walk_chunks (n : nat) (fd : Z) (verify_payload : bool) (info : ImageInfo) (k pos data zero payload : Z)
    : M (Z * Z * Z * Z) :=
  match n with
  | O => mret (pos, data, zero, payload)
  | S n =>
      stop ← cancel_requested;
      if (stop : bool) then failM unsafe "image verification cancelled"
      else
        raw ← fd_read_exact fd pos kRecordSize;
        rec ← lift (parse_record raw info k);
        let pos := pos + kRecordSize in
        if is_zero rec then walk_chunks n fd verify_payload info (k + 1) pos data (zero + 1) payload
        else if source_bytes info - stored_len rec <? payload
        then failM corrupt "FSX image payload accounting overflows source size"
        else
          span ← fd_read_exact fd pos (stored_len rec);
          if verify_payload && negb (checksum span =? payload_crc rec)
          then failM corrupt ("FSX image payload checksum failed at chunk " +:+ pretty k)
          else walk_chunks n fd verify_payload info (k + 1) (pos + stored_len rec) (data + 1) zero (payload + stored_len rec)
  end.

Definition walk_image (fd : Z) (verify_payload : bool) : M ImageInfo :=
  info ← read_header fd;
  if negb (i_complete info) then failM corrupt "FSX image is incomplete"
  else
    r ← walk_chunks (Z.to_nat (chunks info)) fd verify_payload info 0 kHeaderSize 0 0 0;
    let '(pos, data, zero, payload) := (r : Z * Z * Z * Z) in
    f ← fd_read_exact fd pos kFooterSize;
    info ← lift (parse_footer f info);
    if negb (data_chunks info =? data) || negb (zero_chunks info =? zero) || negb (stored_payload_bytes info =? payload)
    then failM corrupt "FSX image footer accounting does not match records"
    else
      r ← sys_pread fd (pos + kFooterSize) 1;
      match r with
      | inl e => if negb (e =? EINTR) then raise_errno read_failed (fun _ => "cannot check image end") e else mret info
      | inr [] => mret info
      | inr _ => failM corrupt "FSX image has unexpected trailing data"
      end.

Definition inspect (path : string) : M ImageInfo := fd ← open_image_read path; read_header fd.
Definition verify (path : string) : M ImageInfo := fd ← open_image_read path; walk_image fd true.

(** ** Restoring *)

(** The write pass: the end of the records. *)
Fixpoint restore_chunks (n : nat) (fd : Z) (target : BlockDevice) (info : ImageInfo) (k pos : Z) : M Z :=
  match n with
  | O => mret pos
  | S n =>
      stop ← cancel_requested;
      if (stop : bool) then failM unsafe "restore cancelled; target contains a partial restore"
      else
        raw ← fd_read_exact fd pos kRecordSize;
        rec ← lift (parse_record raw info k);
        let pos := pos + kRecordSize in
        let n_ := logical_len rec in
        if is_zero rec
        then
          write_exact target (source_offset rec) (zeros n_);;
          restore_chunks n fd target info (k + 1) pos
        else
          span ← fd_read_exact fd pos n_;
          if negb (checksum span =? payload_crc rec)
          then failM corrupt ("image payload checksum failed before restore at chunk " +:+ pretty k)
          else
            write_exact target (source_offset rec) span;;
            restore_chunks n fd target info (k + 1) (pos + n_)
  end.

Definition sys_lseek : M (Z + unit) := sys_call (fun h => (tt, h)).

(** The read-back pass. *)
Fixpoint reread_chunks (n : nat) (fd : Z) (target : BlockDevice) (info : ImageInfo) (k pos : Z) : M unit :=
  match n with
  | O => mret tt
  | S n =>
      stop ← cancel_requested;
      if (stop : bool) then failM unsafe "restore verification cancelled"
      else
        raw ← fd_read_exact fd pos kRecordSize;
        rec ← lift (parse_record raw info k);
        let pos := pos + kRecordSize in
        span ← read_exact target (source_offset rec) (logical_len rec);
        if is_zero rec
        then
          if negb (all_zero span) then failM io ("restore read-back mismatch in zero chunk " +:+ pretty k)
          else reread_chunks n fd target info (k + 1) pos
        else if negb (checksum span =? payload_crc rec)
        then failM io ("restore read-back checksum mismatch at chunk " +:+ pretty k)
        else
          s ← sys_lseek;
          match s with
          | inl e => raise_errno read_failed (fun _ => "cannot skip image payload during verification") e
          | inr _ => reread_chunks n fd target info (k + 1) (pos + stored_len rec)
          end
  end.

Definition restore (path : string) (target : BlockDevice) (allow_block_device : bool) : M ImageInfo :=
  fd ← open_image_read path;
  s ← sys_fstat fd;
  match s with
  | inl e => raise_errno io (fun env => "cannot stat image source: " +:+ strerror env e) e
  | inr _ =>
      t ← sys_fstat (native_fd target);
      match t with
      | inl e => raise_errno io (fun env => "cannot stat restore target: " +:+ strerror env e) e
      | inr _ =>
          if fd =? native_fd target then failM unsafe "image source and restore target refer to the same object"
          else
            info ← read_header fd;
            if negb (i_complete info) then failM corrupt "FSX image is incomplete"
            else if size_bytes (geometry target) <? source_bytes info
            then failM unsafe "restore target is smaller than source image"
            else if is_block_device (geometry target) && negb allow_block_device
            then failM unsafe "restoring to a block device requires --allow-block-device"
            else
              require_offline_for_write target;;
              pos ← restore_chunks (Z.to_nat (chunks info)) fd target info 0 kHeaderSize;
              f ← fd_read_exact fd pos kFooterSize;
              checked ← lift (parse_footer f info);
              flush target;;
              s ← sys_lseek;
              match s with
              | inl e => raise_errno read_failed (fun _ => "cannot rewind image for restore verification") e
              | inr _ =>
                  reread_chunks (Z.to_nat (chunks info)) fd target info 0 kHeaderSize;;
                  mret checked
              end
      end
  end.

(** ** What the loops transfer *)

Lemma fd_read_last fuel fd off size acc h :
  0 <= off -> zlen acc <= size -> acc = slice (content (file_of h fd)) off (zlen acc) ->
  h_events h = [] -> (0 < fuel)%nat ->
  zlen acc = size \/ slice (content (file_of h fd)) (off + zlen acc) (size - zlen acc) = [] ->
  wp (fd_read_loop fuel fd off size acc) h (read_post (content (file_of h fd)) off size h).
Proof.
  intros Ho Hs Ha He Hf Hend. destruct fuel as [|fuel]; [lia|]. cbn [fd_read_loop].
  destruct (Z.leb_spec size (zlen acc)).
  - apply wp_ret. split_and!; [apply quiet_refl|done|].
    intros bs [= <-]. assert (zlen acc = size) as <- by lia. done.
  - destruct Hend as [|Hend]; [lia|]. apply wp_bind.
    eapply wp_mono; [apply sys_pread_spec|]. intros o h' (Hq & Ho' & _).
    destruct o as [[e|bs]| | |]; try done. destruct Ho' as [_ Hbs].
    destruct (Hbs He) as [_ ->]. rewrite Hend. cbn [carry].
    apply read_post_step; [done|]. apply failM_read_post.
Qed.

Lemma fd_read_loop_spec fuel fd off size acc h :
  0 <= off -> zlen acc <= size -> acc = slice (content (file_of h fd)) off (zlen acc) ->
  (length (h_events h) + 2 <= fuel)%nat ->
  wp (fd_read_loop fuel fd off size acc) h (read_post (content (file_of h fd)) off size h).
Proof.
  revert acc h. induction fuel as [|fuel IH]; intros acc h Ho Hs Ha Hf; [lia|].
  cbn [fd_read_loop]. pose proof (zlen_nonneg acc). destruct (Z.leb_spec size (zlen acc)).
  { apply wp_ret. split_and!; [apply quiet_refl|done|].
    intros bs [= <-]. assert (zlen acc = size) as <- by lia. done. }
  apply wp_bind. eapply wp_mono; [apply sys_pread_spec|]. set (c := content (file_of h fd)) in *.
  intros o h' (Hq & Ho' & Hev). assert (Hc' : content (file_of h' fd) = c) by (by rewrite (quiet_file_of _ _ _ Hq)).
  destruct o as [[e|bs]| | |]; try done; cbn [carry]; apply read_post_step; try done; rewrite ?Hc'.
  - case_match; [|apply raise_errno_read_post]. rewrite <-Hc'. apply IH; try done; [by rewrite Hc'|].
    destruct Hev as [|Hev]; [done|lia].
  - destruct Ho' as [[n [Hn Hbs]] Hcalm]. destruct bs as [|b bs']; [apply failM_read_post|].
    set (bs := b :: bs') in *. assert (Hpos : 0 < zlen bs) by (unfold bs, zlen; cbn [length]; lia).
    assert (Hlen : zlen bs <= size - zlen acc).
    { rewrite Hbs. destruct (Z.le_gt_cases 0 n); [pose proof (zlen_slice_le c (off + zlen acc) n); lia|].
      rewrite slice_nonpos by lia. change (0 <= size - zlen acc). lia. }
    assert (Hacc : acc ++ bs = slice c off (zlen (acc ++ bs))).
    { rewrite zlen_app, slice_split, <-Ha by lia. f_equal. rewrite Hbs. apply slice_own_length. }
    rewrite <-Hc'. destruct Hev as [Hev|Hev].
    + destruct (Hcalm Hev) as [Hev' Hfull].
      apply fd_read_last; rewrite ?Hc'; try done; [rewrite zlen_app; lia|rewrite Hev in Hf; cbn in Hf; lia|].
      rewrite zlen_app. destruct (Z.eq_dec (zlen acc + zlen bs) size); [by left|right].
      assert (Hmin : zlen bs = Z.max 0 (Z.min (size - zlen acc) (zlen c - (off + zlen acc))))
        by (rewrite Hfull, zlen_slice_min by lia; done).
      unfold slice. rewrite drop_ge; [by rewrite take_nil|]. unfold zlen in *. lia.
    + apply IH; rewrite ?Hc'; try done; rewrite ?zlen_app; lia.
Qed.

(** The file [fd] holds the bytes [c]. *)
Definition holds (fd : Z) (c : bytes) (h : Host) : Prop := content (file_of h fd) = c.
Lemma holds_quiet fd c h h' : quiet h h' -> holds fd c h -> holds fd c h'.
Proof. intros Hq. unfold holds. by rewrite (quiet_file_of _ _ _ Hq). Qed.
Lemma holds_other d fd c h h' : fd <> fd_ d -> only_device d h h' -> holds fd c h -> holds fd c h'.
Proof. intros Hne (Hf & _). unfold holds, file_of. by rewrite Hf. Qed.

Lemma fd_read_spec fd c off size h :
  holds fd c h -> 0 <= off -> 0 <= size -> yields (fd_read_exact fd off size) h (fun b => b = slice c off size /\ zlen b = size).
Proof.
  intros Hc Ho Hs. unfold yields, fd_read_exact. apply wp_bind. unfold wp at 1, get_host. cbn [fst snd carry].
  eapply wp_mono; [apply fd_read_loop_spec; [done|done|by rewrite slice_nonpos|by unfold io_fuel]|].
  unfold holds in Hc. rewrite Hc. by intros o h' (H1 & H2 & H3).
Qed.
Lemma fails_fd_read fd off size : fails quiet_code (fd_read_exact fd off size).
Proof.
  apply fails_bind; [apply fails_get|]. intros h. generalize (io_fuel h) as n, (@nil byte) as acc. clear h.
  induction n as [|n IH]; intros acc; cbn [fd_read_loop]; [by intros h e|]. case_match; [apply fails_ret|].
  apply fails_bind; [intros h e; unfold sys_pread; by repeat case_match|].
  intros [e|[|b bs]]; [case_match; [apply IH|]|by apply fails_raise, (bool_decide_unpack _)|apply IH].
  apply fails_bind; [by intros h e'|]. intros env. by apply fails_raise, (bool_decide_unpack _).
Qed.

(** ** Computations that only read *)

(** [gives m h P Q]: [m] ends from [h], changes nothing, takes events from the
    host only, returns values with [P] and fails with codes with [Q]. *)
Definition gives {A} (m : M A) (h : Host) (P : A -> Prop) (Q : Errc -> Prop) : Prop :=
  wp m h (fun o h' => quiet h h' /\ (h_events h = [] -> h_events h' = []) /\ o <> OutOfFuel /\
    (forall a, o = Ret a -> P a) /\ forall e, o = Fail e -> Q (code e)).

Lemma gives_ret {A} (a : A) h (P : A -> Prop) Q : P a -> gives (mret a) h P Q.
Proof. intros Ha. apply wp_ret. split_and!; [done|done|done|by intros b [= <-]|done]. Qed.
Lemma gives_failM {A} c msg h (P : A -> Prop) (Q : Errc -> Prop) : Q c -> gives (failM c msg) h P Q.
Proof. intros Hc. unfold gives, wp. cbn. split_and!; [done|done|done|done|by intros e [= <-]]. Qed.
Lemma gives_bind {A B} (m : M A) (k : A -> M B) h (P : A -> Prop) (P' : B -> Prop) Q :
  gives m h P Q ->
  (forall a h', P a -> quiet h h' -> (h_events h = [] -> h_events h' = []) -> gives (k a) h' P' Q) ->
  gives (m ≫= k) h P' Q.
Proof.
  unfold gives. intros Hm Hk. apply wp_bind. eapply wp_mono; [exact Hm|]. intros o h1 (Hq & He & Hne & Hv & Hf).
  destruct o as [a|e|s|]; cbn [carry]; [|split_and!; try done; intros e' [= <-]; by apply Hf|by split_and!|done].
  eapply wp_mono; [apply (Hk a h1 (Hv a eq_refl) Hq He)|]. intros o h2 (Hq2 & He2 & H).
  split; [by eapply quiet_trans|]. split; [auto|done].
Qed.
Lemma gives_mono {A} (m : M A) h (P P' : A -> Prop) (Q Q' : Errc -> Prop) :
  gives m h P Q -> (forall a, P a -> P' a) -> (forall c, Q c -> Q' c) -> gives m h P' Q'.
Proof. unfold gives. intros Hm HP HQ. eapply wp_mono; [exact Hm|]. intros o h' (H1 & H2 & H3 & H4 & H5). split_and!; eauto. Qed.
Lemma gives_lift {A} (r : Result A) h (P : A -> Prop) (Q : Errc -> Prop) :
  (forall a, r = Ok a -> P a) -> (forall e, r = Err e -> Q (code e)) -> gives (lift r) h P Q.
Proof.
  intros HP HQ. destruct r as [a|e]; [by apply gives_ret, HP|]. unfold gives, wp. cbn.
  split_and!; [done|done|done|done|intros e' [= <-]; by apply HQ].
Qed.
Lemma gives_yields {A} (m : M A) h (P : A -> Prop) Q : gives m h P Q -> yields m h P.
Proof. unfold gives, yields. intros Hm. eapply wp_mono; [exact Hm|]. intros o h' (H1 & H2 & H3 & H4 & _). by split_and!. Qed.

(** Events only go. *)
Definition spends {A} (m : M A) : Prop := forall h, wp m h (fun _ h' => h_events h = [] -> h_events h' = []).
Lemma spends_bind {A B} (m : M A) (k : A -> M B) : spends m -> (forall a, spends (k a)) -> spends (m ≫= k).
Proof.
  intros Hm Hk h. apply wp_bind. eapply wp_mono; [apply Hm|]. intros o h1 He.
  destruct o as [a|e|s|]; cbn [carry]; [|done..]. eapply wp_mono; [apply Hk|]. auto.
Qed.
Lemma spends_pread fd off n : spends (sys_pread fd off n).
Proof. intros h. unfold wp, sys_pread, next_event. destruct (h_events h) eqn:E; [|done]. cbn. by rewrite E. Qed.
Lemma spends_fd_read fd off n : spends (fd_read_exact fd off n).
Proof.
  apply spends_bind; [by intros h; unfold wp|]. intros h. generalize (io_fuel h) as fuel, (@nil byte) as acc. clear h.
  induction fuel as [|fuel IH]; intros acc; cbn [fd_read_loop]; [by intros h; unfold wp|]. case_match; [by intros h; unfold wp|].
  apply spends_bind; [apply spends_pread|]. intros [e|[|b bs]]; [case_match; [apply IH|by intros h; unfold wp]|by intros h; unfold wp|apply IH].
Qed.

Lemma gives_fd_read fd c off size h (Q : Errc -> Prop) :
  holds fd c h -> 0 <= off -> 0 <= size -> (forall cd, quiet_code cd -> Q cd) ->
  gives (fd_read_exact fd off size) h (fun b => b = slice c off size /\ zlen b = size) Q.
Proof.
  intros Hc Ho Hs HQ. pose proof (fd_read_spec fd c off size h Hc Ho Hs) as H1.
  pose proof (fails_fd_read fd off size h) as H2. pose proof (spends_fd_read fd off size h) as H3.
  unfold gives, yields, wp in *. destruct (fd_read_exact fd off size h) as [o h']. cbn [fst snd] in *.
  destruct H1 as (Hq & Hne & Hv). split_and!; auto.
Qed.
Lemma gives_cancel h (P : bool -> Prop) Q : (forall b, P b) -> gives cancel_requested h P Q.
Proof.
  intros HP. unfold gives, wp, cancel_requested, next_event. destruct (h_events h) as [|[|n|e p] es] eqn:E; cbn;
    (split_and!; [done|by rewrite ?E|done|by intros a [= <-]|done]).
Qed.

(** A returned value comes with one step less to look at. *)
Tactic Notation "gstep" hyp(Hc) "by" tactic3(H) "as" ident(a) simple_intropattern(Ha) :=
  let h := fresh "h" in let Hq := fresh "Hq" in let He := fresh "He" in
  eapply gives_bind; [H|]; cbv beta; intros a h Ha Hq He; apply (holds_quiet _ _ _ _ Hq) in Hc; clear Hq.

(** ** Checking an image *)

(** The bytes [b] lie in [c] at [pos]. *)
Definition lies (c : bytes) (pos : Z) (b : bytes) : Prop := slice c pos (zlen b) = b.
Lemma lies_app c pos a b : 0 <= pos -> lies c pos (a ++ b) <-> lies c pos a /\ lies c (pos + zlen a) b.
Proof.
  intros Hp. unfold lies. pose proof (zlen_nonneg a). pose proof (zlen_nonneg b). rewrite zlen_app, slice_split by lia.
  split; [|by intros [-> ->]]. intros E.
  assert (Hl : length (slice c pos (zlen a)) = length a).
  { pose proof (zlen_slice_le c pos (zlen a)). pose proof (zlen_slice_le c (pos + zlen a) (zlen b)).
    apply (f_equal zlen) in E. rewrite !zlen_app in E. unfold zlen in *. lia. }
  by apply app_inj_1 in E.
Qed.
Lemma lies_read c pos n b : lies c pos b -> zlen b = n -> slice c pos n = b.
Proof. by intros H <-. Qed.
Lemma read_lies c pos n b : b = slice c pos n -> zlen b = n -> lies c pos b.
Proof. intros -> Hz. unfold lies. by rewrite Hz. Qed.

(** What a record that is parsed starts with, when the rest of the list is
    known to lie there. *)
Lemma chunk_list_step i k body img d z s :
  chunk_list i k body img d z s -> k < chunks i ->
  exists raw p rest, body = raw ++ rest /\ parse_record raw i k = Ok p /\
    (is_zero p = true /\ (exists img' z', img = zeros (logical_len p) ++ img' /\ z = z' + 1 /\ chunk_list i (k + 1) rest img' d z' s) \/
     is_zero p = false /\ exists payload rest' img' d' s', rest = payload ++ rest' /\ img = payload ++ img' /\
       zlen payload = logical_len p /\ checksum payload = payload_crc p /\ s = s' + zlen payload /\ d = d' + 1 /\
       chunk_list i (k + 1) rest' img' d' z s').
Proof.
  intros H Hk. destruct H as [|k raw p body img d z s Hp Hz Hl|k raw p payload body img d z s Hp Hz Hn Hc Hl]; [lia|..].
  - exists raw, p, body. split_and!; [done|done|left]. split; [done|]. by exists img, z.
  - exists raw, p, (payload ++ body). split_and!; [done|done|right]. split; [done|]. by exists payload, body, img, d, s.
Qed.

(** Damage is what is reported as corrupt or as an unsupported version. *)
Definition no_damage (cd : Errc) : Prop := cd <> corrupt /\ cd <> unsupported.
Lemma quiet_no_damage cd : quiet_code cd -> no_damage cd.
Proof. unfold quiet_code, no_damage. intros H. split; intros ->; apply H; set_solver. Qed.

Lemma quad_eq (a a' b b' c c' d d' : Z) : a = a' -> b = b' -> c = c' -> d = d' -> (a, b, c, d) = (a', b', c', d').
Proof. congruence. Qed.

Section Walk.
Context (fd : Z) (c : bytes) (i : ImageInfo) (Hok : info_ok i) (Hgeo : image_geometry i = true).
Context (Hchunks : chunks i = ceil_div_u64 (source_bytes i) (chunk_bytes i)).

(** The records from [k] on lie at [pos]. *)
Definition listed (k pos : Z) : Prop := exists body img d z s, lies c pos body /\ chunk_list i k body img d z s.

Lemma listed_next k pos raw :
  listed k pos -> 0 <= k < chunks i -> 0 <= pos -> raw = slice c pos kRecordSize ->
  exists p, parse_record raw i k = Ok p /\
    (is_zero p = true -> listed (k + 1) (pos + kRecordSize)) /\
    (is_zero p = false -> checksum (slice c (pos + kRecordSize) (stored_len p)) = payload_crc p /\
       listed (k + 1) (pos + kRecordSize + stored_len p)).
Proof.
  intros (body & img & d & z & s & Hl & Hc) Hk Hp ->. destruct (chunk_list_step _ _ _ _ _ _ _ Hc ltac:(lia)) as (raw & p & rest & -> & Hr & Hcase).
  apply lies_app in Hl as [Hl1 Hl2]; [|done]. destruct (parse_record_ok i Hok Hgeo Hchunks _ _ _ (proj1 Hk) Hr) as (Hz & _ & _ & _ & _ & Hs).
  rewrite Hz in Hl2. rewrite (lies_read c pos kRecordSize raw Hl1 Hz). exists p. split; [done|].
  destruct Hcase as [(Ez & img' & z' & -> & -> & Hrest)|(Ez & payload & rest' & img' & d' & s' & -> & -> & Hn & Hcrc & -> & -> & Hrest)]; rewrite Ez;
    (split; [intros E|intros E]); try done.
  - by exists rest, img', d, z', s.
  - rewrite (Hs Ez), <-Hn. apply lies_app in Hl2 as [Hl2 Hl3]; [|unfold kRecordSize; lia].
    split; [by rewrite Hl2|]. by exists rest', img', d', z, s'.
Qed.

Lemma walk_chunks_spec n k pos d z s h :
  holds fd c h -> 0 <= k -> k + Z.of_nat n = chunks i -> 0 <= pos -> 0 <= s <= Z.min (source_bytes i) (k * chunk_bytes i) ->
  gives (walk_chunks n fd true i k pos d z s) h
    (fun r => exists body img dd zz ss, lies c pos body /\ chunk_list i k body img dd zz ss /\
       r = (pos + zlen body, d + dd, z + zz, s + ss))
    (fun cd => listed k pos -> no_damage cd).
Proof.
  intros Hc. revert k pos d z s h Hc. induction n as [|n IH]; intros k pos d z s h Hc Hk Hn Hp Hs; cbn [walk_chunks].
  { apply gives_ret. exists [], [], 0, 0, 0. split; [by unfold lies; rewrite slice_nonpos|].
    replace k with (chunks i) by lia. split; [apply chunks_end|]. change (zlen []) with 0. by rewrite !Z.add_0_r. }
  gstep Hc by (apply (gives_cancel _ (fun _ => True)); done) as stop Hstop. destruct stop; [by apply gives_failM|].
  gstep Hc by (apply (gives_fd_read fd c); [exact Hc|done|done|intros cd Hcd _; by apply quiet_no_damage]) as raw Hraw.
  destruct Hraw as [Hraw Hz].
  eapply (gives_bind _ _ _ (fun p => parse_record raw i k = Ok p)).
  { apply gives_lift; [done|]. intros e Ee Hl. destruct (listed_next k pos raw Hl ltac:(lia) Hp Hraw) as (p & Ep & _). congruence. }
  intros p hp Ep Hqp He1. apply (holds_quiet _ _ _ _ Hqp) in Hc. clear Hqp. cbv zeta.
  destruct (parse_record_ok i Hok Hgeo Hchunks _ _ _ Hk Ep) as (_ & Hlt & _ & Hlen & Hpos & Hst).
  pose proof (chunk_next i Hok Hgeo Hchunks k (conj Hk Hlt)) as Hnext.
  assert (Hlies : lies c pos raw) by (by apply (read_lies c pos kRecordSize)).
  destruct (is_zero p) eqn:Ez.
  { eapply gives_mono; [apply IH; [exact Hc|lia|lia|unfold kRecordSize; lia|lia]|..]; cbv beta.
    - intros r (body & img & dd & zz & ss & H1 & H2 & ->). exists (raw ++ body), (zeros (logical_len p) ++ img), dd, (zz + 1), ss.
      split; [apply lies_app; [done|by rewrite Hz]|]. split; [by apply (chunks_zero i k raw p)|].
      rewrite zlen_app, Hz. unfold kRecordSize. apply quad_eq; lia.
    - intros cd Hcd Hl. destruct (listed_next k pos raw Hl ltac:(lia) Hp Hraw) as (p' & Ep' & Hnx & _).
      apply Hcd, Hnx. congruence. }
  specialize (Hst eq_refl). destruct (Z.ltb_spec (source_bytes i - stored_len p) s); [lia|].
  gstep Hc by (apply (gives_fd_read fd c); [exact Hc|unfold kRecordSize; lia|lia|intros cd Hcd _; by apply quiet_no_damage]) as span Hspan.
  destruct Hspan as [Hspan Hzs]. destruct (Z.eqb_spec (checksum span) (payload_crc p)) as [Ecrc|Ecrc]; cbn [negb andb].
  2: { apply gives_failM. intros Hl. destruct (listed_next k pos raw Hl ltac:(lia) Hp Hraw) as (p' & Ep' & _ & Hnx).
       assert (p' = p) as -> by congruence. destruct (Hnx Ez) as [E _]. by rewrite <-Hspan in E. }
  eapply gives_mono; [apply IH; [exact Hc|lia|lia|unfold kRecordSize; lia|lia]|..]; cbv beta.
  - intros r (body & img & dd & zz & ss & H1 & H2 & ->). exists (raw ++ span ++ body), (span ++ img), (dd + 1), zz, (ss + zlen span).
    split; [apply lies_app; [done|]; rewrite Hz; split; [done|]|].
    { apply lies_app; [unfold kRecordSize; lia|]. split; [by apply (read_lies _ _ (stored_len p))|by rewrite Hzs]. }
    split; [apply (chunks_data i k raw p); congruence || done|]. rewrite !zlen_app, Hz, Hzs. unfold kRecordSize. apply quad_eq; lia.
  - intros cd Hcd Hl. destruct (listed_next k pos raw Hl ltac:(lia) Hp Hraw) as (p' & Ep' & _ & Hnx).
    assert (p' = p) as -> by congruence. apply Hcd, (Hnx Ez).
Qed.

(** The records at a place are determined by the file. *)
Lemma chunk_list_unique k pos body img d z s body' img' d' z' s' :
  0 <= k -> 0 <= pos -> lies c pos body -> lies c pos body' ->
  chunk_list i k body img d z s -> chunk_list i k body' img' d' z' s' -> body = body' /\ d = d' /\ z = z' /\ s = s'.
Proof.
  intros Hk Hp Hl Hl' H. revert pos body' img' d' z' s' Hp Hl Hl'.
  induction H as [|k raw p body img d z s Hr Hz H IH|k raw p payload body img d z s Hr Hz Hn Hcrc H IH];
    intros pos body' img' d' z' s' Hp Hl Hl' H'.
  { inversion H' as [|k raw p ? ? ? ? ? Hr|k raw p ? ? ? ? ? ? Hr]; subst; [done|..];
      apply parse_record_ok in Hr as (_ & Hlt & _); try done; lia. }
  all: destruct (parse_record_ok i Hok Hgeo Hchunks _ _ _ Hk Hr) as (Hzr & Hlt & _).
  all: destruct (chunk_list_step _ _ _ _ _ _ _ H' Hlt) as (raw' & p' & rest & -> & Hr' & Hcase).
  all: destruct (parse_record_ok i Hok Hgeo Hchunks _ _ _ Hk Hr') as (Hzr' & _).
  all: apply lies_app in Hl as [L1 L2]; [|done]; apply lies_app in Hl' as [L1' L2']; [|done].
  all: assert (raw' = raw) as -> by (rewrite <-(lies_read _ _ 48 _ L1 Hzr); symmetry; by apply lies_read).
  all: assert (p' = p) as -> by congruence; rewrite Hzr in L2, L2'.
  - destruct Hcase as [(_ & img2 & z2 & _ & -> & H2)|(Ez & _)]; [|congruence].
    destruct (IH ltac:(lia) (pos + 48) _ _ _ _ _ ltac:(lia) L2 L2' H2) as (-> & -> & -> & ->). done.
  - destruct Hcase as [(Ez & _)|(_ & payload' & rest' & img2 & d2 & s2 & -> & _ & Hn' & _ & -> & -> & H2)]; [congruence|].
    apply lies_app in L2 as [L2 L3]; [|lia]. apply lies_app in L2' as [L2' L3']; [|lia].
    assert (payload' = payload) as -> by (rewrite <-(lies_read _ _ _ _ L2 Hn); symmetry; by apply lies_read).
    destruct (IH ltac:(lia) (pos + 48 + zlen payload) _ _ _ _ _ ltac:(pose proof (zlen_nonneg payload); lia) L3 L3' H2)
      as (-> & -> & -> & ->). done.
Qed.
End Walk.

Lemma gives_open path fd h (Q : Errc -> Prop) :
  h_names h !! path = Some fd -> Q open_failed -> gives (open_image_read path) h (fun x => x = fd) Q.
Proof.
  intros Hn HQ. unfold open_image_read. apply (gives_bind _ _ _ (fun r => match r with inr x => x = fd | inl _ => True end)).
  - unfold gives, wp, sys_open, sys_call_res, next_event. destruct (h_events h) as [|[|n|e p] es] eqn:E; cbn; rewrite ?Hn; cbn;
      (split_and!; [done|by rewrite ?E|done|by intros a [= <-]|done]).
  - intros [e|x] h' Hx _ _; [|by apply gives_ret]. unfold raise_errno, gives, wp. cbn.
    split_and!; [done|done|done|done|by intros e' [= <-]].
Qed.
Lemma gives_header fd c h (Q : Errc -> Prop) :
  holds fd c h -> (forall cd, quiet_code cd -> Q cd) ->
  (forall e, parse_header (slice c 0 kHeaderSize) = Err e -> Q (code e)) ->
  gives (read_header fd) h (fun i => lies c 0 (slice c 0 kHeaderSize) /\ parse_header (slice c 0 kHeaderSize) = Ok i) Q.
Proof.
  intros Hc HQ HE. unfold read_header. gstep Hc by (apply (gives_fd_read fd c); [exact Hc|done|done|exact HQ]) as b Hb.
  destruct Hb as [-> Hz]. apply gives_lift; [|exact HE]. intros i Hi. split; [|done]. unfold lies. by rewrite Hz.
Qed.

Lemma take_lies c (a : bytes) : lies c 0 a -> exists rest, c = a ++ rest.
Proof.
  unfold lies, slice. change (Z.to_nat 0) with 0%nat. rewrite drop_0. intros E. exists (drop (Z.to_nat (zlen a)) c).
  rewrite <-E at 1. symmetry. apply take_drop.
Qed.
Lemma lies_end c (a b : bytes) : c = a ++ b -> lies c 0 a.
Proof. intros ->. unfold lies. rewrite slice_app_l by (pose proof (zlen_nonneg a); lia). by apply slice_all. Qed.

Lemma footer_size f i i' : parse_footer f i = Ok i' -> zlen f = kFooterSize.
Proof. unfold parse_footer. cbv zeta. intros H. res_inv. by apply orb_false_iff in E as [E%negb_false_iff%Z.eqb_eq _]. Qed.

(** The parts of an image are where the reader looks for them. *)
Lemma valid_size c info img : valid_image c info img -> zlen img = source_bytes info.
Proof.
  intros (h & body & f & i & d & z & s & -> & Hh & _ & Hl & _ & ->). destruct (parse_header_ok _ _ Hh) as (_ & Hok & Hg & Hch & _).
  destruct (chunk_list_zlen i Hok Hg Hch _ _ _ _ _ _ (Z.le_refl 0) Hl) as [E _]. destruct (geometry_sizes i Hok Hg).
  cbn [source_bytes set_totals]. lia.
Qed.
Lemma valid_parts c info img :
  valid_image c info img ->
  exists i body d z s, parse_header (slice c 0 kHeaderSize) = Ok i /\ i_complete i = true /\
    lies c kHeaderSize body /\ chunk_list i 0 body img d z s /\
    parse_footer (slice c (kHeaderSize + zlen body) kFooterSize) i = Ok info /\ info = set_totals d z s i /\
    zlen c = kHeaderSize + zlen body + kFooterSize.
Proof.
  intros (h & body & f & i & d & z & s & -> & Hh & Hc & Hl & Hf & Hi). exists i, body, d, z, s.
  destruct (parse_header_ok _ _ Hh) as (Hzh & _). pose proof (footer_size _ _ _ Hf) as Hzf.
  assert (Ha : lies (h ++ body ++ f) 0 (h ++ body ++ f)) by (by apply (lies_end _ _ []); rewrite app_nil_r).
  apply lies_app in Ha as [A1 A2]; [|done]. rewrite Z.add_0_l, Hzh in A2. apply lies_app in A2 as [A2 A3]; [|done].
  change 4096 with kHeaderSize in A2, A3. rewrite (lies_read _ _ kHeaderSize _ A1 Hzh), (lies_read _ _ kFooterSize _ A3 Hzf).
  split_and!; try done. rewrite !zlen_app. unfold kHeaderSize. lia.
Qed.

(** The look behind the footer. *)
Lemma gives_tail {A} fd c good rest (a : A) h (P : A -> Prop) (Q : Errc -> Prop) :
  holds fd c h -> c = good ++ rest -> ((h_events h = [] -> rest = []) -> P a) -> (rest <> [] -> Q corrupt) -> Q read_failed ->
  gives (r ← sys_pread fd (zlen good) 1;
         match r with
         | inl e => if negb (e =? EINTR) then raise_errno read_failed (fun _ => "cannot check image end") e else mret a
         | inr [] => mret a
         | inr _ => failM corrupt "FSX image has unexpected trailing data"
         end) h P Q.
Proof.
  intros Hc -> HP HQ HQ'. set (c := good ++ rest) in *.
  apply (gives_bind _ _ _ (fun r => match r with
    | inl _ => h_events h <> []
    | inr bs => (bs <> [] -> rest <> []) /\ (h_events h = [] -> bs = [] -> rest = [])
    end)).
  - pose proof (sys_pread_spec fd (zlen good) 1 h) as H1. pose proof (spends_pread fd (zlen good) 1 h) as H2.
    unfold gives, wp in *. unfold holds in Hc. rewrite Hc in H1. destruct (sys_pread _ _ _ h) as [o h']. cbn [fst snd] in *.
    destruct H1 as (Hq & Ho & _). split_and!; [done|done|by destruct o| |by intros e ->].
    intros [e|bs] ->; [done|]. destruct Ho as [(n & Hn & Hbs) Hcalm].
    assert (Es : forall m, slice c (zlen good) m = take (Z.to_nat m) rest).
    { intros m. unfold slice, c, zlen. by rewrite Nat2Z.id, drop_app_length. }
    split.
    + intros Hne ->. apply Hne. by rewrite Hbs, Es, take_nil.
    + intros He ->. destruct (Hcalm He) as [_ E]. rewrite Es in E. by destruct rest.
  - intros [e|[|b bs]] h' Hr _ _.
    + case_match; [|by apply gives_ret, HP]. unfold raise_errno, gives, wp. cbn. split_and!; [done|done|done|done|by intros e' [= <-]].
    + apply gives_ret, HP. intros He. by apply Hr.
    + apply gives_failM, HQ. by apply Hr.
Qed.

Lemma walk_image_spec fd c h :
  holds fd c h ->
  gives (walk_image fd true) h
    (fun info => exists good rest img, c = good ++ rest /\ valid_image good info img /\ (h_events h = [] -> rest = []))
    (fun cd => (exists info img, valid_image c info img) -> no_damage cd).
Proof.
  intros Hc. unfold walk_image.
  assert (Hhead : forall e, parse_header (slice c 0 kHeaderSize) = Err e -> (exists info img, valid_image c info img) ->
    no_damage (code e)).
  { intros e Ee (info & img & Hv). destruct (valid_parts _ _ _ Hv) as (i & body & d & z & s & Hp & _). congruence. }
  gstep Hc by (apply (gives_header fd c); [exact Hc|intros cd Hcd _; by apply quiet_no_damage|exact Hhead]) as i Hi.
  destruct Hi as [Hlh Hi]. destruct (parse_header_ok _ _ Hi) as (Hzh & Hok & Hgeo & Hch & Hd0).
  assert (Hval : forall info img, valid_image c info img -> i_complete i = true /\ exists body d z s,
    lies c kHeaderSize body /\ chunk_list i 0 body img d z s /\
    parse_footer (slice c (kHeaderSize + zlen body) kFooterSize) i = Ok info /\ info = set_totals d z s i /\
    zlen c = kHeaderSize + zlen body + kFooterSize).
  { intros info img Hv. destruct (valid_parts _ _ _ Hv) as (i' & body & d & z & s & Hp & H). assert (i' = i) as -> by congruence.
    destruct H as (H1 & H). split; [done|]. by exists body, d, z, s. }
  destruct (i_complete i) eqn:Ecomp; cbn [negb].
  2: { apply gives_failM. intros (info & img & Hv). by destruct (Hval _ _ Hv). }
  destruct (geometry_sizes i Hok Hgeo) as [Hsrc Hchk]. assert (Hcnt : 0 <= chunks i) by (destruct Hok as (_ & _ & _ & [H _] & _); exact H).
  assert (Hunique : forall body img d z s body' img' d' z' s', lies c kHeaderSize body -> lies c kHeaderSize body' ->
    chunk_list i 0 body img d z s -> chunk_list i 0 body' img' d' z' s' ->
    body = body' /\ d = d' /\ z = z' /\ s = s').
  { intros. eapply (chunk_list_unique c i Hok Hgeo Hch 0 kHeaderSize); done. }
  assert (Hlist : (exists info img, valid_image c info img) -> listed c i 0 kHeaderSize).
  { intros (info & img & Hv). destruct (Hval _ _ Hv) as (_ & body & d & z & s & H1 & H2 & _). by exists body, img, d, z, s. }
  gstep Hc by (eapply gives_mono; [apply (walk_chunks_spec fd c i Hok Hgeo Hch); [exact Hc|done|lia|done|lia]|done|
    intros cd Hcd Hv; apply Hcd, Hlist, Hv]) as r Hr.
  destruct Hr as (body & img & d & z & s & Hlb & Hbody & ->). rewrite !Z.add_0_l.
  assert (Hbz := zlen_nonneg body).
  gstep Hc by (apply (gives_fd_read fd c); [exact Hc|unfold kHeaderSize; lia|done|intros cd Hcd _; by apply quiet_no_damage]) as f Hf.
  destruct Hf as [Hf Hzf].
  eapply (gives_bind _ _ _ (fun info => parse_footer f i = Ok info)).
  { apply gives_lift; [done|]. intros e Ee (info & img' & Hv).
    destruct (Hval _ _ Hv) as (_ & body' & d' & z' & s' & H1 & H2 & H3 & _).
    destruct (Hunique _ _ _ _ _ _ _ _ _ _ Hlb H1 Hbody H2) as (<- & _). congruence. }
  intros info hf Ef Hqf Hef. apply (holds_quiet _ _ _ _ Hqf) in Hc. clear Hqf.
  destruct (negb _ || _ || _) eqn:Eacc.
  { apply gives_failM. intros (info' & img' & Hv).
    destruct (Hval _ _ Hv) as (_ & body' & d' & z' & s' & H1 & H2 & H3 & H4 & _).
    destruct (Hunique _ _ _ _ _ _ _ _ _ _ Hlb H1 Hbody H2) as (<- & <- & <- & <-).
    rewrite <-Hf, Ef in H3. injection H3 as <-. rewrite H4 in Eacc. cbn in Eacc. by rewrite !Z.eqb_refl in Eacc. }
  apply orb_false_iff in Eacc as [[A1%negb_false_iff%Z.eqb_eq A2%negb_false_iff%Z.eqb_eq]%orb_false_iff A3%negb_false_iff%Z.eqb_eq].
  assert (Hinfo : info = set_totals d z s i).
  { unfold parse_footer in Ef. cbv zeta in Ef. clear - Ef A1 A2 A3. res_inv. cbn in *. congruence. }
  destruct (take_lies c (slice c 0 kHeaderSize ++ body ++ f)) as [rest Erest].
  { apply lies_app; [done|]. split; [done|]. change (zlen (slice c 0 kHeaderSize) = 4096) in Hzh. rewrite Hzh.
    apply lies_app; [done|]. split; [done|]. by apply (read_lies c _ kFooterSize). }
  assert (Hgood : valid_image (slice c 0 kHeaderSize ++ body ++ f) info img).
  { by exists (slice c 0 kHeaderSize), body, f, i, d, z, s. }
  assert (Hzg : zlen (slice c 0 kHeaderSize ++ body ++ f) = kHeaderSize + zlen body + kFooterSize).
  { rewrite !zlen_app, Hzf. unfold kHeaderSize in *. lia. }
  set (good := slice c 0 kHeaderSize ++ body ++ f) in *. clearbody good.
  assert (Hev : h_events h = [] -> h_events hf = []) by auto. rewrite <-Hzg.
  apply (gives_tail fd c good rest); [done|done|..].
  - intros Hr. exists good, rest, img. split_and!; [done|done|auto].
  - intros Hne (info' & img' & Hv). exfalso. destruct (Hval _ _ Hv) as (_ & body' & d' & z' & s' & H1 & H2 & _ & _ & Hz').
    destruct (Hunique _ _ _ _ _ _ _ _ _ _ Hlb H1 Hbody H2) as (<- & _). apply Hne.
    rewrite Erest, zlen_app in Hz'. destruct rest as [|b rest]; [done|]. rewrite zlen_cons in Hz'. pose proof (zlen_nonneg rest). lia.
  - done.
Qed.

(** ** Restoring an image *)

Lemma reader_lseek d : reader d sys_lseek.
Proof. apply reader_quiet. intros h. by apply sys_call_quiet. Qed.

Section Partial.
Context (target : BlockDevice) (base img : bytes).

(** What a power cut leaves of the target: old bytes and bytes of the image at
    their places. *)
Definition partial_restore (h : Host) : Prop :=
  forall m, crash_image (file_of h (fd_ target)) m -> mixture [(0, img)] base m.

Lemma mixture_chunks ws m : Forall (chunk 0 img) ws -> mixture ws base m -> mixture [(0, img)] base m.
Proof.
  intros Hws [Hl Hm]. split; [done|]. intros k. destruct (Hm k) as [|(o & d & Hin & Hk & E)]; [by left|right].
  rewrite list.Forall_forall in Hws. destruct (Hws _ Hin) as (H1 & H2 & H3). cbn [fst snd] in *.
  exists 0, img. split; [by apply list_elem_of_singleton|]. split; [lia|]. rewrite E, H3, lookup_slice, decide_True by lia.
  f_equal. lia.
Qed.
Lemma partial_unsettled ws h : Forall (chunk 0 img) ws -> unsettled target base ws h -> partial_restore h.
Proof. intros Hws Hu m Hm. eapply mixture_chunks; [exact Hws|]. by eapply unsettled_crash. Qed.
Lemma partial_quiet ws h h' : Forall (chunk 0 img) ws -> wstate target base ws h -> quiet h h' -> partial_restore h'.
Proof. intros Hws Hw Hq. eapply partial_unsettled; [exact Hws|]. by eapply wstate_unsettled, wstate_quiet. Qed.

(** The bytes restored so far lie at the start. *)
Lemma splice_grow (l a b : bytes) :
  zlen a + zlen b <= zlen l -> splice (splice l 0 a) (zlen a) b = splice l 0 (a ++ b).
Proof.
  intros Hl. unfold splice. change (Z.to_nat 0) with 0%nat. rewrite !take_0. cbn [app Nat.add]. unfold zlen in *.
  rewrite Nat2Z.id, take_app_length, <-drop_drop, drop_app_length, drop_drop, length_app. by rewrite <-app_assoc.
Qed.

(** One more piece of the image is written. *)
Lemma restore_write front piece back ws h :
  wstate target base ws h -> img = front ++ piece ++ back -> Forall (chunk 0 img) ws -> put_all ws base = splice base 0 front ->
  runs target (write_exact target (zlen front) piece) h partial_restore (fun _ h' => exists ws',
    Forall (chunk 0 img) ws' /\ wstate target base ws' h' /\ put_all ws' base = splice base 0 (front ++ piece)).
Proof.
  intros Hw Himg Hws Hput. pose proof (zlen_nonneg front). pose proof (zlen_nonneg piece). pose proof (zlen_nonneg back).
  assert (Hnew : chunk 0 img (zlen front, piece)).
  { rewrite Himg. split_and!; cbn [fst snd]; [lia|rewrite !zlen_app; lia|].
    rewrite slice_app_r, slice_app_l by lia. symmetry. rewrite Z.sub_0_r, Z.sub_diag. by apply slice_all. }
  assert (Hall : Forall (chunk 0 img) (ws ++ [(zlen front, piece)])) by (apply Forall_app; split; [done|by apply Forall_singleton]).
  eapply runs_mono; [apply (runs_write target base ws); [exact Hw|done|]|done|].
  - intros h' ws' Hsub Hu. eapply partial_unsettled; [|exact Hu].
    apply list.Forall_forall. intros w Hwin. rewrite list.Forall_forall in Hall. by apply Hall, Hsub.
  - intros [] h' _ [Hw' Hin]. eexists. split; [exact Hall|]. split; [exact Hw'|].
    rewrite put_all_snoc. cbn [fst snd]. rewrite Hput. apply splice_grow. lia.
Qed.

End Partial.

(** A step that reads the image. *)
Tactic Notation "istep" hyp(Hw) hyp(Hc) "by" tactic3(H) "as" ident(a) simple_intropattern(Ha) :=
  let h := fresh "h" in let Hq := fresh "Hq" in let Ho := fresh "Ho" in
  eapply runs_bind; [eapply runs_yields; [H|intros h Hq; eapply partial_quiet; eassumption]|]; intros a h Ho; cbv beta;
  intros [Ha Hq]; apply (wstate_quiet _ _ _ _ _ Hq) in Hw; apply (holds_quiet _ _ _ _ Hq) in Hc; clear Hq Ho.

Section Restore.
Context (target : BlockDevice) (base : bytes) (fd : Z) (c img : bytes) (Hne : fd <> fd_ target).
Context (i : ImageInfo) (Hok : info_ok i) (Hgeo : image_geometry i = true).
Context (Hchunks : chunks i = ceil_div_u64 (source_bytes i) (chunk_bytes i)).
#[local] Abbreviation partial := (partial_restore target base img).

Lemma restore_chunks_spec n k pos body front back d z s ws h :
  wstate target base ws h -> holds fd c h -> 0 <= k -> k + Z.of_nat n = chunks i -> 0 <= pos ->
  lies c pos body -> chunk_list i k body back d z s -> img = front ++ back ->
  zlen front = Z.min (source_bytes i) (k * chunk_bytes i) ->
  Forall (chunk 0 img) ws -> put_all ws base = splice base 0 front ->
  runs target (restore_chunks n fd target i k pos) h partial (fun pos' h' =>
    pos' = pos + zlen body /\ exists ws', Forall (chunk 0 img) ws' /\ wstate target base ws' h' /\
      put_all ws' base = splice base 0 img).
Proof.
  revert k pos body front back d z s ws h.
  induction n as [|n IH]; intros k pos body front back d z s ws h Hw Hc Hk Hn Hp Hl Hlist Himg Hzf Hws Hput; cbn [restore_chunks].
  { apply runs_ret. inversion Hlist as [E1 E2 E3|k' raw p ? ? ? ? ? Hr|k' raw p ? ? ? ? ? ? Hr]; subst;
      [|apply (parse_record_ok i Hok Hgeo Hchunks) in Hr as (_ & Hlt & _); lia..].
    rewrite app_nil_r in *. split; [change (zlen []) with 0; lia|]. by exists ws. }
  istep Hw Hc by (by eapply yields_cancel) as stop Hstop.
  destruct stop; [apply runs_failM; by eapply partial_quiet, quiet_refl|].
  istep Hw Hc by (by apply (fd_read_spec fd c)) as raw Hraw. destruct Hraw as [Hraw Hzr].
  destruct (chunk_list_step _ _ _ _ _ _ _ Hlist ltac:(lia)) as (raw' & p & rest & -> & Hr & Hcase).
  destruct (parse_record_ok i Hok Hgeo Hchunks _ _ _ Hk Hr) as (Hzr' & Hlt & Hoff & Hlen & Hpos & _).
  apply lies_app in Hl as [L1 L2]; [|done]. assert (raw = raw') as -> by (rewrite Hraw; by apply lies_read). clear Hraw.
  rewrite Hzr' in L2. change 48 with kRecordSize in L2.
  rewrite Hr. cbn [lift]. assert (Hfront : source_offset p = zlen front)
    by (rewrite Hoff, Hzf; apply (chunk_count i Hok Hgeo Hchunks k Hk) in Hlt; lia).
  pose proof (chunk_next i Hok Hgeo Hchunks k (conj Hk Hlt)) as Hnext.
  apply (runs_bind _ _ _ _ _ (fun p' h' => p' = p /\ quiet h1 h')); [apply runs_ret; by split|].
  intros p' h2 _ [-> Hq2]. apply (wstate_quiet _ _ _ _ _ Hq2) in Hw. apply (holds_quiet _ _ _ _ Hq2) in Hc. cbv zeta. clear Hq2. rewrite Hfront.
  assert (Hgo : forall piece back' rest' d' z' s' pos', img = front ++ piece ++ back' -> zlen piece = logical_len p ->
    lies c pos' rest' -> 0 <= pos' -> chunk_list i (k + 1) rest' back' d' z' s' -> pos + zlen (raw' ++ rest) = pos' + zlen rest' ->
    forall h3, wstate target base ws h3 -> holds fd c h3 ->
    runs target (write_exact target (zlen front) piece;; restore_chunks n fd target i (k + 1) pos') h3 partial (fun pos' h' =>
      pos' = pos + zlen (raw' ++ rest) /\ exists ws', Forall (chunk 0 img) ws' /\ wstate target base ws' h' /\
        put_all ws' base = splice base 0 img)).
  { intros piece back' rest' d' z' s' pos' E Hzp Hlr Hp' Hlist' Epos h3 Hw3 Hc3. rewrite Epos.
    eapply runs_bind; [by eapply restore_write|]. intros [] h4 Ho4 (ws4 & Hws4 & Hw4 & Hput4).
    apply (holds_other _ _ _ _ _ Hne Ho4) in Hc3.
    eapply IH; [exact Hw4|exact Hc3|lia|lia|exact Hp'|exact Hlr|exact Hlist'|by rewrite <-app_assoc| |exact Hws4|exact Hput4].
    rewrite zlen_app. lia. }
  destruct Hcase as [(Ez & img' & z' & -> & -> & Hrest)|(Ez & payload & rest' & img' & d' & s' & -> & -> & Hzp & Hcrc & -> & -> & Hrest)]; rewrite Ez.
  - eapply Hgo; [exact Himg|by apply zlen_zeros; lia|exact L2|unfold kRecordSize; lia|exact Hrest|rewrite zlen_app; unfold kRecordSize; lia|done|done].
  - apply lies_app in L2 as [L2 L3]; [|unfold kRecordSize; lia].
    istep Hw Hc by (apply (fd_read_spec fd c); [exact Hc|unfold kRecordSize; lia|lia]) as span Hspan. destruct Hspan as [Hspan Hzs].
    rewrite <-Hzp, (lies_read _ _ _ _ L2 eq_refl) in Hspan. subst span. rewrite Hcrc, Z.eqb_refl. cbn [negb]. rewrite <-Hzp.
    eapply Hgo; [exact Himg|done|exact L3|unfold kRecordSize; pose proof (zlen_nonneg payload); lia|exact Hrest|
      rewrite !zlen_app; unfold kRecordSize; lia|done|done].
Qed.

Lemma reread_spec n k pos b h :
  wstate target b [] h -> holds fd c h -> 0 <= k -> k + Z.of_nat n <= chunks i -> 0 <= pos ->
  yields (reread_chunks n fd target i k pos) h (fun _ => True).
Proof.
  revert k pos h. induction n as [|n IH]; intros k pos h Hw Hc Hk Hn Hp; cbn [reread_chunks]; [by apply yields_ret|].
  eapply yields_bind; [by eapply yields_cancel|]. intros stop h1 _ Hq1. destruct stop; [apply yields_failM|].
  apply (wstate_quiet _ _ _ _ _ Hq1) in Hw. apply (holds_quiet _ _ _ _ Hq1) in Hc. clear Hq1.
  eapply yields_bind; [by apply (fd_read_spec fd c)|]. intros raw h2 _ Hq2.
  apply (wstate_quiet _ _ _ _ _ Hq2) in Hw. apply (holds_quiet _ _ _ _ Hq2) in Hc. clear Hq2.
  eapply (yields_bind _ _ _ (fun p => parse_record raw i k = Ok p)); [by apply yields_lift|]. intros p h3 Hr Hq3. cbv beta in Hr.
  apply (wstate_quiet _ _ _ _ _ Hq3) in Hw. apply (holds_quiet _ _ _ _ Hq3) in Hc. clear Hq3. cbv zeta.
  destruct (parse_record_ok i Hok Hgeo Hchunks _ _ _ Hk Hr) as (_ & Hlt & Hoff & Hlen & Hpos & Hst).
  pose proof (geometry_sizes i Hok Hgeo). assert (Hp' : 0 <= pos + kRecordSize) by (unfold kRecordSize; lia).
  eapply yields_bind; [apply (yields_read target b []); [exact Hw|nia|lia]|]. intros span h4 _ Hq4.
  apply (wstate_quiet _ _ _ _ _ Hq4) in Hw. apply (holds_quiet _ _ _ _ Hq4) in Hc. clear Hq4.
  destruct (is_zero p); [case_match; [apply yields_failM|apply IH; done || lia]|]. case_match; [apply yields_failM|].
  eapply yields_bind; [apply (yields_reader target b [] sys_lseek _ (fun _ => True)); [exact Hw|apply reader_lseek|done]|].
  intros [e|] h5 _ Hq5; apply (wstate_quiet _ _ _ _ _ Hq5) in Hw; apply (holds_quiet _ _ _ _ Hq5) in Hc.
  - by eapply yields_reader; [exact Hw|apply reader_raise_errno|].
  - apply IH; [done|done|lia|lia|]. rewrite Hst by done. lia.
Qed.
End Restore.

Lemma partial_start target base img h : wstate target base [] h -> partial_restore target base img h.
Proof. intros Hw. eapply partial_quiet; [by apply Forall_nil|exact Hw|apply quiet_refl]. Qed.

(** A failure with the error of a system call. *)
Lemma partial_errno target base img {A} ws cd msg e h (P : A -> Host -> Prop) :
  wstate target base ws h -> Forall (chunk 0 img) ws -> runs target (raise_errno cd msg e) h (partial_restore target base img) P.
Proof.
  intros Hw Hws. unfold runs, raise_errno, wp. cbn. split; [apply only_device_refl|].
  eapply partial_quiet; [exact Hws|exact Hw|apply quiet_refl].
Qed.

(** What follows the write pass. *)
Lemma restore_tail target base fd c img (Hne : fd <> fd_ target) i (Hok : info_ok i) (Hgeo : image_geometry i = true)
    (Hchunks : chunks i = ceil_div_u64 (source_bytes i) (chunk_bytes i)) pos info ws h :
  wstate target base ws h -> holds fd c h -> 0 <= pos -> parse_footer (slice c pos kFooterSize) i = Ok info -> zlen img <= zlen base ->
  Forall (chunk 0 img) ws -> put_all ws base = splice base 0 img ->
  runs target
    (f ← fd_read_exact fd pos kFooterSize;
     checked ← lift (parse_footer f i);
     flush target;;
     s ← sys_lseek;
     match s with
     | inl e => raise_errno read_failed (fun _ => "cannot rewind image for restore verification") e
     | inr _ => reread_chunks (Z.to_nat (chunks i)) fd target i 0 kHeaderSize;; mret checked
     end) h (partial_restore target base img) (fun info' h' =>
       info' = info /\ zlen img <= zlen base /\ wstate target (splice base 0 img) [] h').
Proof.
  intros Hw Hc Hp Hfoot Hfit HF Hput.
  istep Hw Hc by (by apply (fd_read_spec fd c)) as f Hf. destruct Hf as [-> _]. rewrite Hfoot. cbn [lift].
  apply (runs_bind _ _ _ _ _ (fun x h' => x = info /\ quiet h0 h')); [apply runs_ret; by split|].
  intros x h1 _ [-> Hq1]. apply (wstate_quiet _ _ _ _ _ Hq1) in Hw. apply (holds_quiet _ _ _ _ Hq1) in Hc. clear Hq1.
  assert (Hdone : forall h', wstate target (put_all ws base) [] h' -> partial_restore target base img h').
  { intros h' Hw' m Hm. rewrite (settled_image _ _ _ _ Hw' Hm). eapply mixture_chunks; [exact HF|].
    apply mixture_put_all. apply Hw. }
  eapply runs_bind; [apply (runs_flush target base ws); [exact Hw|]|].
  { intros h' [Hu|Hu]; [by eapply partial_unsettled|]. intros m Hm.
    apply (settled_crash _ _ _ _ Hu) in Hm as ->. eapply mixture_chunks; [exact HF|]. apply mixture_put_all, Hw. }
  cbv beta. intros [] h2 Ho2 Hw2. apply (holds_other _ _ _ _ _ Hne Ho2) in Hc. clear Hw.
  assert (Hstop : forall h', quiet h2 h' -> partial_restore target base img h').
  { intros h' Hq. apply Hdone. by eapply wstate_quiet. }
  eapply runs_bind; [eapply runs_yields; [apply (yields_reader target (put_all ws base) [] sys_lseek _ (fun _ => True)); [exact Hw2|apply reader_lseek|done]|exact Hstop]|].
  cbv beta. intros r h3 _ [_ Hq3]. pose proof (wstate_quiet _ _ _ _ _ Hq3 Hw2) as Hw3. apply (holds_quiet _ _ _ _ Hq3) in Hc.
  destruct r as [e|].
  { split; [apply only_device_refl|]. by apply Hstop. }
  eapply runs_bind; [eapply runs_yields; [eapply (reread_spec target fd c i Hok Hgeo Hchunks); [exact Hw3|exact Hc|done| |done]|]|].
  { destruct Hok as (_ & _ & _ & [H _] & _). lia. }
  { intros h' Hq. apply Hstop. by eapply quiet_trans. }
  cbv beta. intros _ h4 _ [_ Hq4]. apply runs_ret. split; [done|]. split; [done|]. rewrite <-Hput. by eapply wstate_quiet.
Qed.

(** Restoring a valid image. *)
Lemma restore_spec path target allow fd c base img info h :
  h_names h !! path = Some fd -> holds fd c h -> valid_image c info img -> wstate target base [] h ->
  runs target (restore path target allow) h (partial_restore target base img) (fun info' h' =>
    info' = info /\ zlen img <= zlen base /\ wstate target (splice base 0 img) [] h').
Proof.
  intros Hn Hc Hv Hw. destruct (valid_parts _ _ _ Hv) as (i & body & d & z & s & Hhd & Hcomp & Hlb & Hlist & Hfoot & Hinfo & _).
  destruct (parse_header_ok _ _ Hhd) as (Hzh & Hok & Hgeo & Hch & _). unfold restore.
  assert (Hstop : forall h', quiet h h' -> partial_restore target base img h').
  { intros h' Hq. eapply partial_start. by eapply wstate_quiet. }
  assert (HF := Forall_nil_2 (chunk 0 img)).
  istep Hw Hc by (eapply gives_yields, (gives_open path fd _ (fun _ => True)); done) as x Hx. subst x.
  istep Hw Hc by (apply (yields_reader target base [] (sys_fstat fd) _ (fun _ => True)); [exact Hw|apply reader_fstat|done]) as r1 Hr1.
  destruct r1 as [e|]; [by eapply partial_errno; [exact Hw|]|].
  istep Hw Hc by (apply (yields_reader target base [] (sys_fstat _) _ (fun _ => True)); [exact Hw|apply reader_fstat|done]) as r2 Hr2.
  destruct r2 as [e|]; [by eapply partial_errno; [exact Hw|]|].
  assert (Hhere : forall h', wstate target base [] h' -> partial_restore target base img h') by (intros; by apply partial_start).
  destruct (Z.eqb_spec fd (native_fd target)) as [|Hne]; [by apply runs_failM, Hhere|].
  istep Hw Hc by (eapply gives_yields, (gives_header fd c _ (fun _ => True)); done) as i' Hi'.
  destruct Hi' as [Hlh Hi']. assert (i' = i) as -> by congruence. clear Hi'. rewrite Hcomp. cbn [negb].
  destruct (Z.ltb_spec (size_bytes (geometry target)) (source_bytes i)) as [|Hroom]; [by apply runs_failM, Hhere|]. destruct (_ && _); [by apply runs_failM, Hhere|].
  istep Hw Hc by (apply (yields_reader target base [] _ _ (fun _ => True)); [exact Hw|apply (reader_offline target target)|done]) as u Hu.
  assert (Hcnt : 0 <= chunks i) by (destruct Hok as (_ & _ & _ & [H _] & _); exact H).
  pose proof (geometry_sizes i Hok Hgeo) as [Hsrc _].
  eapply runs_bind.
  { eapply (restore_chunks_spec target base fd c img Hne i Hok Hgeo Hch _ 0 kHeaderSize body [] img d z s []);
      [exact Hw|exact Hc|done|lia|done|exact Hlb|exact Hlist|done|change (zlen []) with 0; lia|by apply Forall_nil|].
    unfold splice. change (Z.to_nat 0) with 0%nat. by rewrite take_0, drop_0. }
  cbv beta. intros pos hw Hod (-> & ws & Hws & Hw1 & Hput). apply (holds_other _ _ _ _ _ Hne Hod) in Hc. clear Hw HF Hstop Hhere.
  assert (Hfit : zlen img <= zlen base) by (rewrite (valid_size _ _ _ Hv), Hinfo; rewrite (ws_len _ _ _ _ Hw1); exact Hroom).
  eapply (restore_tail target base fd c img Hne i Hok Hgeo Hch); try done. pose proof (zlen_nonneg body). unfold kHeaderSize. lia.
Qed.

(** ** Creating an image *)

(** The run only touched the file [fd]. *)
Definition only_file (fd : Z) (h h' : Host) : Prop :=
  (forall x, x <> fd -> h_files h' !! x = h_files h !! x) /\
  h_names h' = h_names h /\ h_durable_names h' = h_durable_names h /\ h_next h' = h_next h /\ h_env h' = h_env h.
Lemma only_file_trans fd h1 h2 h3 : only_file fd h1 h2 -> only_file fd h2 h3 -> only_file fd h1 h3.
Proof. intros (A1 & A2) (B1 & B2). split; [intros x Hx; by rewrite B1, A1|]. intuition congruence. Qed.
Lemma only_file_quiet fd h h' : quiet h h' -> only_file fd h h'.
Proof. intros (E1 & E2). split; [by intros; rewrite E1|done]. Qed.
Lemma only_file_set fd f h h' : with_files (<[fd := f]> (h_files h)) h h' -> only_file fd h h'.
Proof. intros (E1 & E2). split; [|done]. intros x Hx. rewrite E1. by apply lookup_insert_ne. Qed.

(** The file [fd] exists and holds [c]. *)
Definition written (fd : Z) (c : bytes) (h : Host) : Prop := exists f, h_files h !! fd = Some f /\ content f = c.
Lemma written_quiet fd c h h' : quiet h h' -> written fd c h -> written fd c h'.
Proof. intros (E & _). unfold written. by rewrite E. Qed.

(** Writing the rest of [data] over a part that reaches beyond it. *)
Lemma splice_more (c data : bytes) off k dn n :
  0 <= off <= zlen c -> 0 <= dn <= k -> k <= zlen data -> 0 <= n -> dn + n <= zlen data ->
  apply_write (splice c off (slice data 0 k)) (off + dn, slice data dn n) = splice c off (slice data 0 (Z.max k (dn + n))).
Proof.
  intros Ho Hd Hk Hn Hdn. assert (Hz : zlen (splice c off (slice data 0 k)) = Z.max (zlen c) (off + k)).
  { unfold splice. rewrite !zlen_app. pose proof (zlen_slice data 0 k). unfold zlen in *. rewrite length_take, length_drop. lia. }
  unfold apply_write. cbn [fst snd]. rewrite pad_to_id by lia. apply list_eq. intros i.
  rewrite lookup_splice by lia. rewrite !(lookup_splice c) by lia. rewrite !zlen_slice by lia.
  repeat case_decide; try lia; try done; rewrite !lookup_slice by lia; rewrite !decide_True by lia; f_equal; lia.
Qed.

Definition write_result (fd : Z) (c : bytes) (h : Host) (o : Outcome unit) (h' : Host) : Prop :=
  o <> OutOfFuel /\ only_file fd h h' /\ (exists c', written fd c' h') /\ (o = Ret tt -> written fd c h').

Lemma write_result_quiet fd c h h1 o h2 : quiet h h1 -> write_result fd c h1 o h2 -> write_result fd c h o h2.
Proof. intros Hq (H1 & H2 & H3). split; [done|]. split; [|done]. eapply only_file_trans; [by apply only_file_quiet|done]. Qed.
Lemma write_result_fail fd c c0 h h' (o : Outcome unit) :
  written fd c0 h -> quiet h h' -> o <> OutOfFuel -> o <> Ret tt -> write_result fd c h o h'.
Proof. intros Hw Hq H1 H2. split_and!; [done|by apply only_file_quiet|exists c0; by eapply written_quiet|done]. Qed.

Lemma fd_write_loop_spec fuel positioned fd c off data dn k h f :
  h_files h !! fd = Some f -> content f = splice c off (slice data 0 k) ->
  0 <= off <= zlen c -> 0 <= dn <= k -> k <= zlen data -> write_fuel fuel data dn h ->
  wp (fd_write_loop fuel positioned fd off data dn) h (write_result fd (splice c off data) h).
Proof.
  intros Hf Hc Ho. revert dn k h f Hf Hc. induction fuel as [|fuel IH]; intros dn k h f Hf Hc Hd Hk Hfuel;
    [unfold write_fuel in Hfuel; lia|].
  assert (Hw : written fd (splice c off (slice data 0 k)) h) by (by exists f).
  cbn [fd_write_loop]. destruct (Z.leb_spec (zlen data) dn).
  { apply wp_ret. split_and!; [done|by apply only_file_quiet|by eexists|]. intros _.
    assert (k = zlen data) as -> by lia. by rewrite slice_all in Hw. }
  destruct (_ && _); [by eapply write_result_fail|]. destruct Hfuel as [Hfuel|Hfuel]; [|lia].
  apply wp_bind. eapply wp_mono; [apply sys_pwrite_spec|].
  assert (Hfo : file_of h fd = f) by (unfold file_of; by rewrite Hf). rewrite Hfo, zlen_slice by lia.
  intros o h1 (n & Hn & Hf1 & Ho' & Hev). rewrite slice_slice, Z.add_0_r in Hf1 by lia.
  set (f1 := add_pending _ f) in Hf1.
  assert (Hc1 : content f1 = splice c off (slice data 0 (Z.max k (dn + n)))).
  { unfold f1. rewrite content_add_pending, Hc. apply splice_more; lia. }
  assert (Hl1 : h_files h1 !! fd = Some f1) by (destruct Hf1 as [-> _]; apply lookup_insert_eq). clearbody f1.
  pose proof (only_file_set _ _ _ _ Hf1) as Hof.
  assert (Hstep : forall o' h', write_result fd (splice c off data) h1 o' h' -> write_result fd (splice c off data) h o' h').
  { intros o' h' (A1 & A2 & A3). split; [done|]. split; [by eapply only_file_trans|done]. }
  assert (Hw1 : written fd (splice c off (slice data 0 (Z.max k (dn + n)))) h1) by (by exists f1).
  destruct o as [[e|m]|e|s|]; try done; cbn [carry].
  - case_match.
    + eapply wp_mono; [eapply (IH dn (Z.max k (dn + n)) h1 f1 Hl1 Hc1); try lia|exact Hstep]. left.
      destruct Hev as [Hev|Hev]; [done|lia].
    + apply Hstep. by eapply write_result_fail.
  - destruct Ho' as [-> Hnil]. destruct (Z.eqb_spec n 0); [apply Hstep; by eapply write_result_fail|].
    eapply wp_mono; [eapply (IH (dn + n) (Z.max k (dn + n)) h1 f1 Hl1 Hc1); try lia|exact Hstep].
    destruct Hev as [Hev|Hev]; [|left; lia]. destruct (Hnil Hev) as [-> Hev']. right. split_and!; [done|lia|].
    rewrite Hev in Hfuel. cbn in Hfuel. lia.
Qed.

Lemma fd_put_spec positioned fd c off data h :
  written fd c h -> 0 <= off <= zlen c -> wp (fd_put positioned fd off data) h (write_result fd (splice c off data) h).
Proof.
  intros Hw Ho. unfold fd_put. apply wp_bind. eapply wp_mono; [apply fault_hook_spec|]. intros o h1 (Hq1 & He1 & Hne).
  destruct o as [u|e|s|]; cbn [carry]; [|by eapply write_result_fail..|done].
  apply wp_bind. unfold wp at 1, get_host. cbn [fst snd carry].
  destruct (written_quiet _ _ _ _ Hq1 Hw) as (f & Hf & Hc).
  apply wp_bind. eapply wp_mono.
  { apply (fd_write_loop_spec _ positioned fd c off data 0 0 h1 f); [done| |done|done|apply zlen_nonneg|left; unfold io_fuel; lia].
    rewrite slice_nonpos by lia. rewrite Hc. unfold splice. cbn [length]. rewrite Nat.add_0_r. cbn [app]. by rewrite take_drop. }
  intros o h2 Hr. apply (write_result_quiet _ _ _ _ _ _ Hq1) in Hr. destruct Hr as (A1 & A2 & A3 & A4).
  destruct o as [[]|e|s|]; cbn [carry]; [|by split_and!..|done].
  eapply wp_mono; [apply fault_hook_spec|]. intros o h3 (Hq3 & _ & Hne3).
  split_and!; [done|by eapply only_file_trans, only_file_quiet| |intros _; by eapply written_quiet, A4].
  destruct A3 as [c' A3]. exists c'. by eapply written_quiet.
Qed.

(** [builds fd m h P]: [m] ends from [h], touches only the file [fd], and
    leaves content with [P] when it returns. *)
Definition builds {A} (fd : Z) (m : M A) (h : Host) (P : A -> bytes -> Prop) : Prop :=
  wp m h (fun o h' => o <> OutOfFuel /\ only_file fd h h' /\ forall a, o = Ret a -> exists c, P a c /\ written fd c h').
Lemma builds_ret {A} fd (a : A) h c (P : A -> bytes -> Prop) : written fd c h -> P a c -> builds fd (mret a) h P.
Proof. intros Hw Hp. apply wp_ret. split_and!; [done|by apply only_file_quiet|]. intros b [= <-]. by exists c. Qed.
Lemma builds_failM {A} fd cd msg h (P : A -> bytes -> Prop) : builds fd (failM cd msg) h P.
Proof. unfold builds, wp. cbn. split_and!; [done|by apply only_file_quiet|done]. Qed.
Lemma builds_bind {A B} fd (m : M A) (k : A -> M B) h (P : A -> bytes -> Prop) (P' : B -> bytes -> Prop) :
  builds fd m h P -> (forall a h' c, P a c -> written fd c h' -> only_file fd h h' -> builds fd (k a) h' P') ->
  builds fd (m ≫= k) h P'.
Proof.
  unfold builds. intros Hm Hk. apply wp_bind. eapply wp_mono; [exact Hm|]. intros o h1 (Hne & Ho & Hv).
  destruct o as [a|e|s|]; cbn [carry]; [|by split_and!..|done]. destruct (Hv a eq_refl) as (c & Hc & Hw).
  eapply wp_mono; [exact (Hk a h1 c Hc Hw Ho)|]. intros o h2 (Hne2 & Ho2 & Hv2). split_and!; [done|by eapply only_file_trans|done].
Qed.
Lemma builds_mono {A} fd (m : M A) h (P P' : A -> bytes -> Prop) :
  builds fd m h P -> (forall a c, P a c -> P' a c) -> builds fd m h P'.
Proof.
  unfold builds. intros Hm HP. eapply wp_mono; [exact Hm|]. intros o h1 (Hne & Ho & Hv). split_and!; [done|done|].
  intros a Ha. destruct (Hv a Ha) as (c & Hc & Hw). exists c. auto.
Qed.
Lemma builds_yields {A} fd (m : M A) h c (P : A -> Prop) :
  written fd c h -> yields m h P -> builds fd m h (fun a c' => P a /\ c' = c).
Proof.
  unfold builds, yields. intros Hw Hm. eapply wp_mono; [exact Hm|]. intros o h1 (Hq & Hne & Hv).
  split_and!; [done|by apply only_file_quiet|]. intros a Ha. exists c. split; [auto|]. by eapply written_quiet.
Qed.
Lemma builds_put positioned fd c off data h :
  written fd c h -> 0 <= off <= zlen c -> builds fd (fd_put positioned fd off data) h (fun _ c' => c' = splice c off data).
Proof.
  intros Hw Ho. unfold builds. eapply wp_mono; [by apply fd_put_spec|]. intros o h1 (H1 & H2 & _ & H3).
  split_and!; [done|done|]. intros [] ->. eexists. split; [done|]. by apply H3.
Qed.
Lemma splice_end (c d : bytes) : splice c (zlen c) d = c ++ d.
Proof.
  unfold splice, zlen. rewrite Nat2Z.id, firstn_all, drop_ge by lia. by rewrite app_nil_r.
Qed.
Lemma builds_append fd c data h :
  written fd c h -> builds fd (fd_write_exact fd (zlen c) data) h (fun _ c' => c' = c ++ data).
Proof.
  intros Hw. eapply builds_mono; [apply (builds_put false fd c (zlen c) data); [exact Hw|pose proof (zlen_nonneg c); lia]|].
  cbv beta. intros _ c' ->. apply splice_end.
Qed.

Lemma wstate_file d base ws fd h h' : fd <> fd_ d -> only_file fd h h' -> wstate d base ws h -> wstate d base ws h'.
Proof.
  intros Hne (Hf & _) [(f & [Hl Hok] & H2) H3 H4]. split; [|done|done]. exists f. split; [|done]. split; [|done].
  by rewrite Hf by congruence.
Qed.

Section Create.
Context (source : BlockDevice) (img : bytes) (fd : Z) (sparse : bool) (chunk sector : Z) (Hne : fd <> fd_ source).
Let i0 := image_start (zlen img) sector chunk.
Let i := set_complete true i0.
Context (Hok : info_ok i) (Hgeo : image_geometry i = true).

Lemma write_chunks_spec n info k off c h :
  wstate source img [] h -> written fd c h -> 0 <= k -> k + Z.of_nat n = chunks i ->
  off = Z.min (zlen img) (k * chunk) -> source_bytes info = zlen img -> chunk_bytes info = chunk ->
  builds fd (write_chunks n source sparse fd info k off (zlen c)) h (fun r c' =>
    c' = c ++ image_body sparse chunk img n k /\ r = (image_totals sparse chunk img n k info, zlen c')).
Proof.
  revert info k off c h. induction n as [|n IH]; intros info k off c h Hw Hc Hk Hn Hoff Hs Hcb; cbn [write_chunks image_body image_totals].
  { eapply builds_ret; [exact Hc|]. by rewrite app_nil_r. }
  assert (Hch := image_chunks chunk img sector). fold i0 i in Hch. assert (Hr : 0 <= k < chunks i) by lia.
  pose proof (chunk_len_pos i Hok Hgeo Hch k Hr) as Hl. pose proof (chunk_next i Hok Hgeo Hch k Hr) as Hnext.
  pose proof (proj1 (chunk_count i Hok Hgeo Hch k Hk) (proj2 Hr)) as Hlt. pose proof (span_zlen chunk img sector Hok Hgeo k Hr) as Hzs.
  pose proof (geometry_sizes i Hok Hgeo) as [_ Hcs].
  unfold chunk_len in *. cbn [source_bytes chunk_bytes i set_complete i0 image_start] in *.
  assert (Hk0 : 0 <= k * chunk) by nia. assert (Eoff : off = k * chunk) by lia. rewrite Hs, Hcb, Eoff. clear Hoff.
  eapply builds_bind; [eapply builds_yields; [exact Hc|by eapply yields_cancel]|]. cbv beta. intros stop h1 c1 [_ ->] Hc1 Ho1.
  apply (wstate_file _ _ _ _ _ _ Hne Ho1) in Hw. clear Hc Ho1. destruct stop; [apply builds_failM|]. cbv zeta.
  eapply builds_bind; [eapply builds_yields; [exact Hc1|apply (yields_read source img []); [exact Hw|lia|lia]]|].
  cbv beta. intros span h2 c2 [[Hspan [Hzl _]] ->] Hc2 Ho2. apply (wstate_file _ _ _ _ _ _ Hne Ho2) in Hw. clear Hc1 Ho2.
  assert (Espan : span = span_of chunk img k).
  { rewrite Hspan. unfold span_of. done. }
  rewrite (wrap_id 32) by (split; lia). rewrite <-Hzl, Espan.
  change (sparse && all_zero (span_of chunk img k)) with (elided sparse (span_of chunk img k)).
  change (make_record k (k * chunk) _ _ _ _) with (image_record sparse k (k * chunk) (span_of chunk img k)).
  assert (Hzr : zlen (image_record sparse k (k * chunk) (span_of chunk img k)) = kRecordSize) by apply zlen_record.
  eapply builds_bind; [by apply builds_append|]. cbv beta. intros _ h3 c3 -> Hc3 Ho3.
  apply (wstate_file _ _ _ _ _ _ Hne Ho3) in Hw. clear Hc2 Ho3. rewrite <-Hzr, <-zlen_app.
  set (c3 := c ++ image_record sparse k (k * chunk) (span_of chunk img k)) in *.
  assert (Hgo : forall z h4, elided sparse (span_of chunk img k) = z -> wstate source img [] h4 ->
    written fd (c3 ++ image_payload sparse (span_of chunk img k)) h4 ->
    builds fd (write_chunks n source sparse fd (count_chunk z (zlen (span_of chunk img k)) info) (k + 1)
      (k * chunk + zlen (span_of chunk img k)) (zlen (c3 ++ image_payload sparse (span_of chunk img k)))) h4 (fun r c' =>
      c' = c ++ image_record sparse k (k * chunk) (span_of chunk img k) ++ image_payload sparse (span_of chunk img k) ++
           image_body sparse chunk img n (k + 1) /\
      r = (image_totals sparse chunk img n (k + 1) (count_chunk (elided sparse (span_of chunk img k)) (zlen (span_of chunk img k)) info), zlen c'))).
  { intros z h4 <- Hw4 Hc4. eapply builds_mono; [apply IH; [exact Hw4|exact Hc4|lia|lia|lia|..]|].
    - unfold count_chunk. by case_match.
    - unfold count_chunk. by case_match.
    - cbv beta. intros r c' [-> ->]. unfold c3. by rewrite <-!app_assoc. }
  eapply (builds_bind _ _ _ _ (fun _ c' => c' = c3 ++ image_payload sparse (span_of chunk img k))).
  { unfold image_payload. destruct (elided _ _); [eapply builds_ret; [exact Hc3|by rewrite app_nil_r]|by apply builds_append]. }
  cbv beta. intros _ h4 c4 -> Hc4 Ho4. apply (wstate_file _ _ _ _ _ _ Hne Ho4) in Hw. clear Hc3 Ho4.
  specialize (Hgo _ h4 eq_refl Hw Hc4).
  assert (Epos : zlen (c3 ++ image_payload sparse (span_of chunk img k))
    = if elided sparse (span_of chunk img k) then zlen c3 else zlen c3 + zlen (span_of chunk img k)).
  { rewrite zlen_app. unfold image_payload. case_match; [change (zlen []) with 0; lia|done]. }
  rewrite Epos in Hgo. exact Hgo.
Qed.
End Create.

Lemma wp_builds {A B} fd (m : M A) (k : A -> M B) h (P : A -> bytes -> Prop) (Q : Outcome B -> Host -> Prop) :
  builds fd m h P ->
  (forall a h' c, P a c -> written fd c h' -> only_file fd h h' -> wp (k a) h' Q) ->
  (forall (o : Outcome B) h', aborted o -> only_file fd h h' -> Q o h') -> wp (m ≫= k) h Q.
Proof.
  unfold builds. intros Hm Hk Hab. apply wp_bind. eapply wp_mono; [exact Hm|]. intros o h1 (Hne & Ho & Hv).
  destruct o as [a|e|s|]; cbn [carry]; [|by apply Hab..|done]. destruct (Hv a eq_refl) as (c & Hc & Hw). by eapply Hk.
Qed.

(** The file [fd] durably holds [c]. *)
Definition settled_file (fd : Z) (c : bytes) (h : Host) : Prop :=
  exists f, h_files h !! fd = Some f /\ f_durable f = c /\ f_pending f = [].
Lemma settled_names fd c h h' : h_files h' = h_files h -> settled_file fd c h -> settled_file fd c h'.
Proof. intros E. unfold settled_file. by rewrite E. Qed.

(** The end of [fill_image]: the written file is flushed and published. *)
Definition publish_result (V : Prop) (fd : Z) (file : bytes) (temp path : string) (h : Host) {A} (x : A) (o : Outcome A) (h' : Host) : Prop :=
  o <> OutOfFuel /\ (forall y, y <> fd -> h_files h' !! y = h_files h !! y) /\ h_next h' = h_next h /\ h_env h' = h_env h /\
  (h_names h' = h_names h /\ h_durable_names h' = h_durable_names h \/ settled_file fd file h' /\ keeps_existing path h h') /\
  forall a, o = Ret a -> V /\ a = x /\ settled_file fd file h' /\ h_names h !! path = None /\ h_durable_names h' !! path = Some fd.
Lemma publish_aborted V fd file temp path h {A} (x : A) (o : Outcome A) h' :
  aborted o -> only_file fd h h' -> publish_result V fd file temp path h x o h'.
Proof.
  intros Ho (A1 & A2 & A3 & A4 & A5). split; [by destruct o|]. split_and!; [done|done|done|by left|]. intros a ->. done.
Qed.

Lemma flush_publish (V : Prop) fd file temp path (info : ImageInfo) h0 h :
  V -> temp <> path -> only_file fd h0 h -> written fd file h -> h_names h0 !! temp = Some fd ->
  wp (s ← sys_fsync fd;
      match s with
      | inl e => raise_errno flush_failed (fun _ => "cannot flush completed image") e
      | inr _ => fault_hook op_flush after;; publish_file_noreplace temp path "image file";; mret info
      end) h (publish_result V fd file temp path h0 info).
Proof.
  intros HV Hne Ho (f & Hf & Hc) Ht. apply wp_bind. unfold sys_fsync. apply sys_call_spec.
  { intros e h1 Hq. cbn [carry]. apply publish_aborted; [done|]. eapply only_file_trans; [exact Ho|by apply only_file_quiet]. }
  intros h1 Hq. cbn [fst snd carry]. rewrite (quiet_file_of _ _ _ Hq).
  assert (Hfo : file_of h fd = f) by (unfold file_of; by rewrite Hf). rewrite Hfo.
  set (h2 := set_file fd (synced f) h1).
  assert (Ho2 : only_file fd h0 h2).
  { eapply only_file_trans; [exact Ho|]. eapply only_file_trans; [by apply only_file_quiet|].
    apply (only_file_set fd (synced f)). by unfold h2, with_files. }
  assert (Hs2 : settled_file fd file h2).
  { exists (synced f). split; [cbn; apply lookup_insert_eq|]. by split. }
  clearbody h2. apply wp_bind. eapply wp_mono; [apply fault_hook_spec|]. intros o h3 (Hq3 & _ & Hne3).
  assert (Ho3 : only_file fd h0 h3) by (eapply only_file_trans; [exact Ho2|by apply only_file_quiet]).
  destruct o as [u|e|s|]; cbn [carry]; [|by apply publish_aborted..|done].
  assert (Hs3 : settled_file fd file h3) by (eapply settled_names; [|exact Hs2]; apply Hq3).
  apply wp_bind. eapply wp_mono; [by apply publish_spec|]. intros o h4 (Hne4 & (E1 & E2 & E3) & Hkeep & Hok & _).
  destruct Ho3 as (A1 & A2 & A3 & A4 & A5).
  assert (Hs4 : settled_file fd file h4) by (by eapply settled_names).
  assert (Hk4 : keeps_existing path h0 h4) by (intros x Hx; apply Hkeep; by rewrite A2).
  assert (Hfr : (forall y, y <> fd -> h_files h4 !! y = h_files h0 !! y) /\ h_next h4 = h_next h0 /\ h_env h4 = h_env h0).
  { split_and!; [intros y Hy; rewrite E1; by apply A1|congruence|congruence]. }
  destruct o as [[]|e|s|]; cbn [carry]; [|split; [done|]; split_and!; (apply Hfr || by right || done)..|done].
  apply wp_ret. split; [done|]. split_and!; [apply Hfr..|by right|]. intros a [= <-].
  destruct (Hok eq_refl) as (x & Hp & Hx & _ & Hd & _). rewrite A2 in Hp, Hx. split_and!; [done|done|done|done|].
  rewrite Hd. congruence.
Qed.

Lemma fill_image_spec source img fd temp path o h :
  let sector := logical_sector (geometry source) in
  let i := set_complete true (image_start (zlen img) sector (co_chunk_bytes o)) in
  fd <> fd_ source -> temp <> path -> info_ok i -> (zlen img <> 0 -> image_geometry i = true) ->
  wstate source img [] h -> written fd [] h -> h_names h !! temp = Some fd ->
  wp (fill_image source fd temp path o) h
     (publish_result (zlen img <> 0) fd (image_file (sparse_zero_chunks o) (co_chunk_bytes o) img sector) temp path h
        (image_info (sparse_zero_chunks o) (co_chunk_bytes o) img sector)).
Proof.
  intros sector i Hne Htp Hok Hgeo Hw Hc Ht. unfold fill_image. cbv zeta. fold sector. rewrite <-(ws_len _ _ _ _ Hw).
  destruct (Z.eqb_spec (zlen img) 0) as [|Hz]; [apply publish_aborted; [done|by apply only_file_quiet]|]. specialize (Hgeo Hz).
  set (i0 := image_start (zlen img) sector (co_chunk_bytes o)). set (sparse := sparse_zero_chunks o). set (chunk := co_chunk_bytes o) in *.
  eapply (wp_builds fd); [apply (builds_append fd [] _ _ Hc)| |intros; by apply publish_aborted].
  cbv beta. intros _ h1 c1 -> Hc1 Ho1. rewrite app_nil_l in Hc1. apply (wstate_file _ _ _ _ _ _ Hne Ho1) in Hw.
  assert (Hzh : forall b, zlen (make_header i0 b) = kHeaderSize).
  { intros b. unfold make_header, write_magic, write_le32, write_le64, kHeaderSize. cbv zeta. wr_len; done. }
  assert (Hcnt : 0 <= chunks i) by (destruct Hok as (_ & _ & _ & [H _] & _); exact H).
  eapply (wp_builds fd).
  { rewrite <-(Hzh false). apply (write_chunks_spec source img fd sparse chunk sector Hne Hok Hgeo _ i0 0 0 _ h1);
      [exact Hw|exact Hc1|done|by apply Z2Nat.id|pose proof (zlen_nonneg img); lia|done|done]. }
  2: { intros out h' Hout Ho. apply publish_aborted; [done|by eapply only_file_trans]. }
  cbv beta. intros r h2 c2 [-> ->] Hc2 Ho2. assert (Ho : only_file fd h h2) by (by eapply only_file_trans). clear Ho1 Ho2 Hc1 Hw.
  set (info := image_totals _ _ _ _ _ _) in *. set (body := image_body _ _ _ _ _) in *.
  eapply (wp_builds fd); [by apply builds_append| |intros; apply publish_aborted; [done|by eapply only_file_trans]].
  cbv beta. intros _ h3 c3 -> Hc3 Ho3. assert (Ho' : only_file fd h h3) by (by eapply only_file_trans). clear Ho Ho3 Hc2.
  eapply (wp_builds fd); [apply builds_put; [exact Hc3|]| |intros; apply publish_aborted; [done|by eapply only_file_trans]].
  { pose proof (zlen_nonneg ((make_header i0 false ++ body) ++ make_footer info)). lia. }
  cbv beta. intros _ h4 c4 -> Hc4 Ho4. assert (Ho : only_file fd h h4) by (by eapply only_file_trans). clear Ho' Ho4 Hc3.
  assert (Efile : splice ((make_header i0 false ++ body) ++ make_footer info) 0 (make_header (set_complete true info) true)
    = image_file sparse chunk img sector).
  { unfold image_file. cbv zeta. unfold image_info. cbv zeta. fold i0. fold info.
    assert (Hhd : make_header (set_complete true info) true = make_header i0 true).
    { unfold info. rewrite totals_add. done. }
    rewrite Hhd. assert (Ech : chunks (set_complete true info) = chunks i0) by (unfold info; rewrite totals_add; done).
    rewrite Ech. fold body. change (make_footer (set_complete true info)) with (make_footer info).
    unfold splice. change (Z.to_nat 0) with 0%nat. rewrite take_0. cbn [app Nat.add].
    assert (El : length (make_header i0 true) = length (make_header i0 false))
      by (pose proof (Hzh true); pose proof (Hzh false); unfold zlen in *; lia).
    by rewrite El, <-app_assoc, drop_app_length. }
  rewrite Efile in Hc4. clear Efile.
  assert (Einfo : image_info sparse chunk img sector = set_complete true info) by (unfold image_info; by cbv zeta).
  rewrite Einfo. set (file := image_file _ _ _ _) in *. clearbody file. clearbody info. clear Einfo Hzh.
  apply wp_bind. eapply wp_mono; [apply fault_hook_spec|]. intros out h5 (Hq5 & _ & Hne5).
  assert (Ho5 : only_file fd h h5) by (eapply only_file_trans; [exact Ho|by apply only_file_quiet]).
  destruct out as [u|e|s|]; cbn [carry]; [|by apply publish_aborted..|done].
  apply (flush_publish (zlen img <> 0) fd file temp path (set_complete true info) h h5);
    [exact Hz|exact Htp|exact Ho5|exact (written_quiet _ _ _ _ Hq5 Hc4)|exact Ht].
Qed.

(** The sector of a device: a power of two from 512 to 65536. *)
Definition sector_ok (s : Z) : Prop := 512 <= s <= 65536 /\ Z.land s (s - 1) = 0.

Lemma create_geometry (img : bytes) sector o :
  sector_ok sector -> zlen img <> 0 -> 64 * 1024 <= co_chunk_bytes o <= 64 * 1024 * 1024 ->
  co_chunk_bytes o mod sector = 0 -> image_geometry (set_complete true (image_start (zlen img) sector (co_chunk_bytes o))) = true.
Proof.
  intros [Hs Hp] Hz Hc Hm. unfold image_geometry, image_start. cbn [set_complete i_logical_sector source_bytes chunk_bytes]. cbv zeta.
  rewrite (wrap_id 32) by (split; lia). rewrite Hp, Hm. lia.
Qed.

Lemma start_ok (img : bytes) sector chunk :
  in_width 64 (zlen img) -> 512 <= sector <= 65536 -> 64 * 1024 <= chunk <= 64 * 1024 * 1024 ->
  info_ok (set_complete true (image_start (zlen img) sector chunk)).
Proof.
  intros Hz Hs Hc. unfold info_ok, image_start. cbn. unfold in_width in *. split_and!; try lia; unfold ceil_div_u64.
  - pose proof (Z.div_pos (zlen img) chunk ltac:(lia) ltac:(lia)). case_match; lia.
  - pose proof (Z.div_mod (zlen img) chunk ltac:(lia)). pose proof (Z.mod_pos_bound (zlen img) chunk ltac:(lia)).
    pose proof (Z.div_pos (zlen img) chunk ltac:(lia) ltac:(lia)). case_match; nia.
Qed.

Lemma unlink_other path temp h :
  temp <> path -> wp (unlink_ignored temp) h (fun o h' => o = Ret tt /\ h_files h' = h_files h /\
    h_names h' !! path = h_names h !! path /\ h_durable_names h' = h_durable_names h /\ h_next h' = h_next h /\ h_env h' = h_env h).
Proof.
  intros Hne. unfold wp, unlink_ignored, next_event.
  destruct (h_events h) as [|[|n|e p] es]; cbn; split_and!; try done; by apply lookup_delete_ne.
Qed.

(** What a run of [create] leaves. *)
Definition create_result (V : Prop) (fd : Z) (file : bytes) (path : string) (info : ImageInfo) (h : Host) (out : Outcome ImageInfo) (h' : Host)
    : Prop :=
  out <> OutOfFuel /\ fresh_only h h' /\ keeps_existing path h h' /\
  (h_names h' !! path = h_names h !! path /\ h_durable_names h' !! path = h_durable_names h !! path \/
   settled_file fd file h') /\
  forall x, out = Ret x -> V /\ x = info /\ h_names h !! path = None /\ h_durable_names h' !! path = Some fd /\ settled_file fd file h'.
Lemma create_aborted V fd file path info h (out : Outcome ImageInfo) h' :
  aborted out -> quiet h h' -> create_result V fd file path info h out h'.
Proof.
  intros Hout Hq. split; [by destruct out|]. split; [by apply fresh_only_quiet|]. destruct Hq as (E1 & E2 & E3 & _).
  split; [intros x Hx; by rewrite E2|]. split; [left; by rewrite E2, E3|]. intros x ->. done.
Qed.

Lemma write_new_image_spec suffix source path o img h h1 :
  let sector := logical_sector (geometry source) in
  let i := set_complete true (image_start (zlen img) sector (co_chunk_bytes o)) in
  info_ok i -> (zlen img <> 0 -> image_geometry i = true) -> fd_ source < h_next h -> wstate source img [] h -> quiet h h1 ->
  wp (write_new_image suffix source path o) h1
    (create_result (zlen img <> 0) (h_next h) (image_file (sparse_zero_chunks o) (co_chunk_bytes o) img sector) path
       (image_info (sparse_zero_chunks o) (co_chunk_bytes o) img sector) h).
Proof.
  intros sector i Hok Hgeo Hfd Hw Hq1. set (info := image_info _ _ _ _). unfold write_new_image. cbv zeta.
  set (temp := path +:+ _). assert (Hne : temp <> path) by (by apply string_app_ne).
  assert (Hfile : forall fd h3, fd <> fd_ source -> wstate source img [] h3 -> written fd [] h3 -> h_names h3 !! temp = Some fd ->
    wp (fill_image source fd temp path o) h3 (publish_result (zlen img <> 0) fd
      (image_file (sparse_zero_chunks o) (co_chunk_bytes o) img sector) temp path h3 info)) by (intros; by apply fill_image_spec).
  clearbody info. set (file := image_file _ _ _ _) in *. clearbody file. clear Hgeo Hok i.
  apply wp_bind. unfold sys_create. apply sys_call_res_spec.
  { intros e h2 Hq2. cbn [carry]. apply raise_errno_spec. intros m. apply create_aborted; [done|by eapply quiet_trans]. }
  intros h2 Hq2. assert (Hq : quiet h h2) by (by eapply quiet_trans). destruct (h_names h2 !! temp); cbn [fst snd carry].
  { apply raise_errno_spec. intros m. by apply create_aborted. }
  apply (wstate_quiet _ _ _ _ _ Hq) in Hw. destruct Hq as (E1 & E2 & E3 & E4 & E5). rewrite E4.
  set (h3 := set_next _ _).
  assert (Hf3 : forall y, y <> h_next h -> h_files h3 !! y = h_files h !! y).
  { intros y Hy. cbn. rewrite lookup_insert_ne by done. by rewrite E1. }
  assert (Hn3 : h_names h3 = <[temp := h_next h]> (h_names h)) by (cbn; by rewrite E2).
  assert (Hd3 : h_durable_names h3 = h_durable_names h) by done.
  assert (Hx3 : h_next h3 = h_next h + 1) by done. assert (He3 : h_env h3 = h_env h) by done.
  assert (Hc3 : written (h_next h) [] h3) by (exists new_file; split; [cbn; apply lookup_insert_eq|done]).
  assert (Hw3 : wstate source img [] h3).
  { destruct Hw as [(f & [Hl Hokf] & H2) H3 H4]. split; [|done|done]. exists f. split; [|done]. split; [|done].
    rewrite Hf3 by lia. by rewrite <-E1. }
  clearbody h3. apply wp_bind, wp_attempt. eapply wp_mono; [apply (Hfile (h_next h) h3); [lia|done|done|rewrite Hn3; apply lookup_insert_eq]|].
  intros out h4 (Hne4 & A1 & A2 & A3 & A4 & A5).
  assert (Hfr : fresh_only h h4).
  { split_and!; [|lia|congruence]. intros y Hy. rewrite A1 by lia. apply Hf3. lia. }
  assert (Hp3 : h_names h3 !! path = h_names h !! path) by (rewrite Hn3; by apply lookup_insert_ne).
  assert (Hkeep : keeps_existing path h h4).
  { intros x Hx. destruct A4 as [[-> _]|[_ Hk]]; [by rewrite Hp3|]. apply Hk. by rewrite Hp3. }
  assert (Hst : h_names h4 !! path = h_names h !! path /\ h_durable_names h4 !! path = h_durable_names h !! path \/
    settled_file (h_next h) file h4).
  { destruct A4 as [[-> ->]|[Hs _]]; [left|by right]. by rewrite Hp3, Hd3. }
  destruct out as [x|e|st|]; cbn [carry]; [| |by split_and!|done].
  - apply wp_ret. split_and!; try done. intros x' [= <-]. destruct (A5 x eq_refl) as (B0 & -> & B1 & B2 & B3).
    split_and!; [done|done|by rewrite <-Hp3|done|done].
  - apply wp_bind. eapply wp_mono; [by apply (unlink_other path)|]. intros o5 h5 (-> & F1 & F2 & F3 & F4 & F5). cbn [carry].
    unfold wp, raise. cbn [fst snd]. split; [done|]. split; [|split; [|split; [|done]]].
    + destruct Hfr as (G1 & G2 & G3). split_and!; [intros y Hy; rewrite F1; by apply G1|lia|congruence].
    + intros y Hy. rewrite F2. by apply Hkeep.
    + rewrite F2, F3. destruct Hst as [Hst|Hst]; [by left|right]. by eapply settled_names.
Qed.

(** C30: creating an image ends on every host and leaves all existing files and
    an existing name of the image alone; whatever fails and wherever the run
    ends, the name of the image only changes, also durably, once the file
    behind it durably holds the complete image; when it returns, the name was
    free and now durably names that file, which is a valid image of the source
    with the totals of the report. *)
Theorem create_publishes_image (suffix : string) (source : BlockDevice) (path : string) (o : CreateOptions)
    (img : bytes) (h : Host) (Hsector : sector_ok (logical_sector (geometry source)))
    (Hsize : in_width 64 (zlen img)) (Hfd : fd_ source < h_next h) (Hw : wstate source img [] h) :
  let sector := logical_sector (geometry source) in
  let file := image_file (sparse_zero_chunks o) (co_chunk_bytes o) img sector in
  let info := image_info (sparse_zero_chunks o) (co_chunk_bytes o) img sector in
  let fd := h_next h in
  wp (create suffix source path o) h (fun out h' => out <> OutOfFuel /\ fresh_only h h' /\ keeps_existing path h h' /\
    (h_names h' !! path = h_names h !! path /\ h_durable_names h' !! path = h_durable_names h !! path \/
     settled_file fd file h') /\
    forall x, out = Ret x -> valid_image file x img /\ x = info /\
      h_names h !! path = None /\ h_durable_names h' !! path = Some fd /\ settled_file fd file h').
Proof.
  cbv zeta. set (sector := logical_sector (geometry source)) in *.
  set (file := image_file _ _ _ _). set (info := image_info _ _ _ _).
  assert (Hres : wp (create suffix source path o) h (create_result
    (zlen img <> 0 /\ 64 * 1024 <= co_chunk_bytes o <= 64 * 1024 * 1024 /\ co_chunk_bytes o mod sector = 0) (h_next h) file path info h)).
  { unfold create. destruct ((co_chunk_bytes o <? _) || _) eqn:Ec; [by apply create_aborted|].
    apply orb_false_iff in Ec as [Ec1%Z.ltb_ge Ec2%Z.ltb_ge]. fold sector.
    destruct (Z.eqb_spec sector 0); [by apply create_aborted|].
    destruct (Z.eqb_spec (co_chunk_bytes o mod sector) 0) as [Em|]; cbn [negb]; [|by apply create_aborted].
    assert (Hrest : forall h1, quiet h h1 -> wp (write_new_image suffix source path o) h1 (create_result
      (zlen img <> 0 /\ 64 * 1024 <= co_chunk_bytes o <= 64 * 1024 * 1024 /\ co_chunk_bytes o mod sector = 0) (h_next h) file path info h)).
    { intros h1 Hq. eapply wp_mono; [apply (write_new_image_spec suffix source path o img h h1); try done|].
      - apply start_ok; [done|apply Hsector|lia].
      - intros Hz. by apply create_geometry.
      - intros out h' (H1 & H2 & H3 & H4 & H5). split_and!; try done. intros x Hx. destruct (H5 x Hx) as (B0 & B). done. }
    clearbody file info. apply wp_bind. unfold sys_lstat. apply sys_call_res_spec.
    - intros e h1 Hq. cbn [carry]. case_match; [apply raise_errno_spec; intros m; by apply create_aborted|by apply Hrest].
    - intros h1 Hq. destruct (h_names h1 !! path) as [x|]; cbn [fst snd carry]; [by apply create_aborted|by apply Hrest]. }
  eapply wp_mono; [exact Hres|]. intros out h' (H1 & H2 & H3 & H4 & H5). split_and!; try done.
  intros x Hx. destruct (H5 x Hx) as ((Hz & Hc & Hm) & -> & B). split; [|done]. unfold file, info.
  apply image_file_valid; [apply start_ok; [done|apply Hsector|lia]|by apply create_geometry].
Qed.


(** C31: restoring a valid image ends on every host and touches only the
    target; wherever it stops or power is lost, each byte of the target is the
    old one or the image's at its place, and when it returns, the target
    durably holds the source of the image at its start and its old bytes
    behind.  As [create_publishes_image] shows that a created file is a valid
    image of its source, creating and restoring rebuilds the source. *)
Theorem restore_rebuilds_source (path : string) (target : BlockDevice) (allow : bool) (fd : Z) (c base img : bytes)
    (info : ImageInfo) (h : Host) (Hname : h_names h !! path = Some fd) (Hc : holds fd c h)
    (Hv : valid_image c info img) (Hw : wstate target base [] h) :
  wp (restore path target allow) h (fun o h' => o <> OutOfFuel /\ only_device target h h' /\
    (forall m, crash_image (file_of h' (fd_ target)) m -> mixture [(0, img)] base m) /\
    forall x, o = Ret x -> x = info /\ forall m, crash_image (file_of h' (fd_ target)) m -> m = splice base 0 img).
Proof.
  pose proof (restore_spec path target allow fd c base img info h Hname Hc Hv Hw) as H. unfold runs in H.
  eapply wp_mono; [exact H|]. intros o h' [Ho Hcase]. destruct o as [x|e|s|]; [|by split_and!..|done].
  destruct Hcase as (-> & Hin & Hw'). split_and!; [done|done| |].
  - intros m Hm. rewrite (settled_image _ _ _ _ Hw' Hm). change (splice base 0 img) with (put_all [(0, img)] base).
    apply mixture_put_all, Forall_singleton. split; cbn; lia.
  - intros x [= <-]. split; [done|]. intros m. by apply settled_image.
Qed.

(** A source of 600 bytes and its image. *)
Definition demo_source : BlockDevice := mkDevice 1 "src" (mkGeometry 600 512 512 false false) true.
Definition demo_source_bytes : bytes := repeat Byte.x61 600.
Definition demo_options : CreateOptions := mkCreate 65536 true.
Definition demo_image : bytes := image_file true 65536 demo_source_bytes 512.
Definition demo_info : ImageInfo := image_info true 65536 demo_source_bytes 512.
Definition demo_source_host : Host := demo_host (mkFile Regular demo_source_bytes []) [].

Lemma demo_valid : valid_image demo_image demo_info demo_source_bytes.
Proof.
  apply image_file_valid; [|by vm_compute]. by apply start_ok.
Qed.

Lemma create_publishes_image_witness :
  exists info, (create "abc123" demo_source "d/a.img" demo_options demo_source_host).1 = Ret info /\
    valid_image demo_image info demo_source_bytes /\
    settled_file 2 demo_image (create "abc123" demo_source "d/a.img" demo_options demo_source_host).2.
Proof.
  assert (Hw : wstate demo_source demo_source_bytes [] demo_source_host).
  { apply (wstate_start demo_source demo_source_host (mkFile Regular demo_source_bytes [])); [|done].
    split; [done|]. split; [by vm_compute|by apply Forall_nil]. }
  pose proof (create_publishes_image "abc123" demo_source "d/a.img" demo_options demo_source_bytes demo_source_host
    ltac:(by split) ltac:(by split) ltac:(done) Hw) as (_ & _ & _ & _ & H).
  assert (E : exists info, (create "abc123" demo_source "d/a.img" demo_options demo_source_host).1 = Ret info)
    by (eexists; vm_compute; reflexivity).
  destruct E as [info E]. exists info. split; [exact E|]. destruct (H info E) as (Hv & _ & _ & _ & Hs). by split.
Defined.

(** The image under a name on a host with a target, and what follows it. *)
Definition demo_image_host (rest : bytes) (evs : list SysEvent) : Host :=
  let h := demo_host (mkFile Regular (repeat Byte.x00 700) []) evs in
  set_names {[ "a.img" := 9 ]} (set_files (<[9 := mkFile Regular (demo_image ++ rest) []]> (h_files h)) h).


(** When the last read is interrupted, bytes behind the footer go unseen; on a
    host without failures they are reported. *)
Lemma trailing_data_after_interrupt :
  (verify "a.img" (demo_image_host [Byte.x7a] (repeat Sys_ok 6 ++ [Sys_err EINTR 0]))).1 = Ret demo_info /\
  (verify "a.img" (demo_image_host [Byte.x7a] [])).1 = Fail (mkError corrupt 0 "FSX image has unexpected trailing data").
Proof. split; vm_compute; reflexivity. Qed.

Definition demo_target : BlockDevice := mkDevice 1 "dst" (mkGeometry 700 512 512 false false) true.
Lemma restore_rebuilds_source_witness :
  (restore "a.img" demo_target false (demo_image_host [] [])).1 = Ret demo_info /\
  forall m, crash_image (file_of (restore "a.img" demo_target false (demo_image_host [] [])).2 1) m ->
    m = splice (repeat Byte.x00 700) 0 demo_source_bytes.
Proof.
  assert (Hw : wstate demo_target (repeat Byte.x00 700) [] (demo_image_host [] [])).
  { apply (wstate_start demo_target (demo_image_host [] []) (mkFile Regular (repeat Byte.x00 700) [])); [|done].
    split; [done|]. split; [by vm_compute|by apply Forall_nil]. }
  assert (Hc : holds 9 demo_image (demo_image_host [] [])) by (apply (app_nil_r demo_image)).
  pose proof (restore_rebuilds_source "a.img" demo_target false 9 demo_image (repeat Byte.x00 700) demo_source_bytes demo_info
    (demo_image_host [] []) eq_refl Hc demo_valid Hw) as (_ & _ & _ & H).
  assert (E : (restore "a.img" demo_target false (demo_image_host [] [])).1 = Ret demo_info) by (vm_compute; reflexivity).
  split; [exact E|]. exact (proj2 (H demo_info E)).
Defined.
